(* ===== verification/_CoqProject ===== *)
-Q . S2P
Prelude.v
Blocks.v
Numbers.v
BlockCodec.v
Traversal.v
Prioritization.v
Election.v
ElectionTheorems.v
OnlineReps.v
Common.v
Vote.v
NetworkFilter.v
RepWeights.v
EpochsWork.v
Messages.v
MessageTheorems.v
Store.v
BlockStoreRaw.v
Ledger.v
LedgerApply.v
LedgerInvariant.v
LedgerSteps.v
LedgerTheorems.v
AccountBook.v
Rollback.v
RollbackTheorems.v
ConfirmationHeight.v
Chains.v
CementWalk.v
CementInvariant.v
CementRound.v
CementTheorems.v
CementRuns.v
ConfirmationBounded.v
BoundedWrites.v
BoundedInvariant.v
BoundedRound.v
BoundedTheorems.v
CementModes.v
ConfirmationProcessor.v
LedgerQueries.v
Voting.v
RequestAggregator.v
VotingTheorems.v
FinalVotes.v
ActiveTransactions.v
ActiveTheorems.v
ElectionScheduler.v
ActiveRuns.v
SchedulerTheorems.v
VoteProcessor.v
UncheckedMap.v
BlockProcessor.v
PipelineLedger.v
Pipeline.v
PipelineInvariant.v
PipelineDrain.v
PipelineTheorems.v
WalletStore.v
WalletVault.v
WalletRefinement.v
WalletTheorems.v
WalletTransfer.v
WalletActions.v
WalletLedger.v
WalletSeeds.v
Bootstrap.v
BootstrapPull.v
BootstrapFrontiers.v
BootstrapPush.v
BootstrapTheorems.v
Samples.v
LedgerWitnesses.v
NodeWitnesses.v
CementWitnesses.v
PipelineWitnesses.v
VotingWitnesses.v
WalletWitnesses.v
BootstrapWitnesses.v
