(* ===== verification/Prelude.v ===== *)
(** * A verification library for vxldollar-node

    vxldollar-node is a node of a block lattice: every account has a chain of
    blocks of its own, a transfer is a send block on one chain and a receive block
    on another, and conflicts between blocks of one root are decided by elections
    in which representatives vote with the balance delegated to them.  The library
    models the parts that decide what is true of the coins (under
    [src/vxldollar]): the blocks and their formats, the tables, the ledger with
    its processor, rollback, queries, pruning and start-up, and from the node the
    path of a block into the ledger (block processor, unchecked map, signature
    verification), the votes of others and its own, the scheduler, the elections and
    their container, the online weight that sets the quorum, the cementing of confirmed
    blocks, the messages, the wallets with their keys and the blocks they make, and
    the exchanges by which a node that is behind gets the blocks it lacks.

    ** How the parts interact

    A message ([Messages]) that passes the duplicate filter ([NetworkFilter])
    carries blocks in the formats of [BlockCodec].  A block enters the block
    processor ([BlockProcessor]), whose thread gives it to [ledger::process]
    ([Ledger]).  The ledger checks it against the tables ([Store]), the epochs and
    the work thresholds ([EpochsWork]) and either refuses it with a code or writes
    the block, the account entry, the pending and frontier entries, and moves the
    delegated weight ([RepWeights]).  A block that lacks its predecessor or source
    waits in the unchecked map ([UncheckedMap]) until that block is accepted.
    The scheduler ([ElectionScheduler]) queues the first uncemented block of an
    account ([Prioritization]) and starts elections ([Election]) in the container of
    active ones ([ActiveTransactions]); an election reads the weights of the ledger and
    the quorum delta ([OnlineReps]).  Votes arrive in the formats of [Vote], pass the
    vote processor ([VoteProcessor]) and reach the elections of their blocks, or a cache
    when there is none; the node's own votes come from two generators ([Voting]) that
    the elections and the request aggregator ([RequestAggregator]) feed.  A rival block
    that wins makes the node roll the ledger back ([Rollback]) and process the winner; a
    confirmed block goes to a thread ([ConfirmationProcessor]) that has it cemented with
    all it depends on by one of two processors ([ConfirmationHeight],
    [ConfirmationBounded]), and cemented blocks may be pruned ([LedgerQueries]).
    The wallets ([WalletActions]) make signed blocks with the keys of their stores
    ([WalletStore]) and give them to the ledger through the block processor.  A node
    that was away asks a peer for its frontiers, pulls the chains that differ and pushes
    what the peer lacks ([Bootstrap], [BootstrapPush]); all of it goes through the block
    processor.

    ** Files

    - [Prelude]: machine widths with their wrap-around, the [outcome] monad of
      code that can end the process, sums over tables, byte codecs, hints and
      tactics.
    - [Blocks]: the block kinds, accessors, digests, sidebands ([lib/blocks.hpp],
      [lib/blocks.cpp], [lib/epoch.hpp]).  The primitives blake2b and the signature
      check are the class [Crypto], with the few laws some theorems need in
      [CryptoLaws] (the length of a digest); [Samples] has an instance.
    - [Numbers]: account strings, hexadecimal and decimal numbers
      ([lib/numbers.cpp]).
    - [BlockCodec]: wire and database formats of blocks and sidebands.
    - [Common]: table entries and result codes ([secure/common.cpp]).
    - [Vote]: [class vote] ([secure/common.cpp]), and the uniquers of blocks and votes
      that the parser asks for the objects in use.
    - [RepWeights], [EpochsWork]: [lib/rep_weights.cpp]; [lib/epoch.cpp] and the
      work thresholds of [lib/config.cpp].
    - [NetworkFilter]: [secure/network_filter.cpp].  [Messages], [MessageTheorems]:
      the headers, the messages and the datagram parser of [node/common.cpp].
    - [Traversal]: [parallel_traversal] ([secure/store_partial.hpp]).
    - [Store], [BlockStoreRaw]: the tables as maps, and the block table as bytes
      ([secure/store/*_partial.hpp]).
    - [Ledger]: [ledger_processor], [ledger::process], [initialize]
      ([secure/ledger.cpp]); a visitor method is one definition, guards in the
      order of the code.  [LedgerApply], [LedgerInvariant], [LedgerSteps]: what an
      accepted block does, the invariant, and the case analysis of the processor.
    - [LedgerTheorems], [AccountBook]: the properties of processing, and the
      abstract account book it refines.
    - [Rollback], [RollbackTheorems]: [rollback_visitor], [ledger::rollback] and
      [representative_visitor].
    - [LedgerQueries]: the other methods of [ledger], pruning, start-up caches.
    - [Prioritization], [OnlineReps], [Election], [ElectionTheorems]:
      [node/prioritization.cpp], [node/online_reps.cpp], [node/election.cpp].
    - [ConfirmationHeight]: [confirmation_height_unbounded] with its state, the walk
      over chains and receives, and the batched writes.  [Chains]: chains and the
      dependency order of blocks; [CementWalk], [CementInvariant], [CementRound]:
      one round of [process]; [CementTheorems], [CementRuns]: what it cements, and
      that the ledgers a node reaches have what it relies on.
    - [ConfirmationBounded]: [confirmation_height_bounded] with its buffers, the walk
      up a chain and the adaptive batches.  [BoundedWrites], [BoundedInvariant],
      [BoundedRound], [BoundedTheorems]: its writes, one round, what it cements;
      [CementModes]: the successors it relies on, and that it agrees with the other
      processor.
      [ConfirmationProcessor]: [node/confirmation_height_processor.cpp], the queue
      and the choice of a processor, and the runs of the thread.
    - [UncheckedMap], [BlockProcessor]: [node/unchecked_map.cpp],
      [node/gap_cache.cpp], [node/blockprocessor.cpp] and the signature
      verification of state blocks.  [Pipeline] joins them, the ledger and the
      entry points of the node to one step relation; [PipelineLedger] has what the
      ledger promises the block processor, [PipelineInvariant], [PipelineDrain] and
      [PipelineTheorems] the invariant and the properties of its runs.
    - [Voting], [RequestAggregator]: [node/voting.cpp] (spacing, the local history,
      the two generators with their threads), the table of final votes
      ([secure/store/final_vote_store_partial.hpp]) and
      [node/request_aggregator.cpp].  A step of a generator's thread is what it does
      between two points at which another thread can run.  [VotingTheorems],
      [FinalVotes]: the properties of their interleavings.
    - [ActiveTransactions]: the container of elections
      ([node/active_transactions.cpp]) with the cache of inactive votes
      ([node/inactive_cache_status.hpp]).  The containers share elections, so they hold
      numbers of elections that are in a table; calls into the rest of the node are a
      list.  [ElectionScheduler]: [node/election_scheduler.cpp], the callbacks of the
      confirmation height processor, [process_confirmed_data] and [populate_backlog] of
      [node/node.cpp].  [ActiveTheorems], [ActiveRuns], [SchedulerTheorems]: the
      invariant of each operation, of their runs, and the scheduler's properties.
    - [VoteProcessor]: [node/vote_processor.cpp], its levels in double precision.
    - [WalletStore]: [wallet_store], [fan] and [kdf] of [node/wallet.cpp], with the
      number functions they use ([lib/numbers.cpp]).  The ciphers, the password
      function, ed25519 and the JSON text are the classes [WalletCrypto] and
      [WalletText], with laws for what the proofs need; random values are arguments.
      [WalletVault]: the abstract vault of keys; [WalletRefinement]: that each
      operation follows it; [WalletTheorems], [WalletTransfer]: runs, restart and
      backup, and import.
    - [WalletActions]: [wallet] and [wallets] with the queue of actions, over the
      state of [BlockProcessor]; wallets are shared, so they have addresses.
      [WalletLedger]: that the ledger accepts the blocks of the actions;
      [WalletSeeds]: the search for accounts of a seed.
    - [Bootstrap]: [bulk_pull_server] and [bulk_pull_client], [frontier_req_server] and
      [frontier_req_client] with [bootstrap_attempt_legacy] ([node/bootstrap]), what is
      written to a connection as bytes; [BootstrapPush]: [bulk_push_client] and
      [bulk_push_server].  [BootstrapPull]: chains and what a pull transfers;
      [BootstrapFrontiers]: the accounts read in batches and the merge of two ledgers;
      [BootstrapTheorems]: what an exchange achieves.
    - [Samples] and the [Witnesses] files: a toy instance of the primitives, a
      history with all block kinds, and the theorems applied to it.

    ** What the theorems show

    - Processing never ends the process and leaves no trace of a refused block;
      coins are conserved; only the owner (or the epoch signer, who can change
      neither balance nor representative) changes an account; of two blocks of one
      root one is refused; a send is received at most once; weights, frontiers and
      counts are exact; the ledger refines an account book (C1 to C7), and well-formed
      sends and receives are accepted ([state_send_accepted], [state_receive_accepted]).
    - Rolling back undoes processing (C8), and a cemented block stays.
    - An election confirms only with the quorum delta, keeps its winner and
      announces it once (C9, C10).
    - The node makes final votes for one block of a root as long as what it recorded
      is not rolled back (C11) and, when it is, for two ([final_votes_can_conflict]);
      its votes for different blocks of a root are spaced ([votes_are_spaced]), and
      every vote its generators and the aggregator send is well made (C18).
    - The container of elections hands only winners to cementing, has one election per
      root and an exact index of blocks (C12, C13; not when an election is removed
      while it is given a block, [publish_race_leaves_orphan]), and a removed election
      leaves nothing behind.  The scheduler finds the next block of an account and comes to
      rest (C19, C20); the queue of votes is bounded, prefers heavy representatives and
      ignores votes without signature (C40).
    - Cementing a block ends, cements exactly the blocks it depends on, and tells
      the observers in order (C14, C15); the two processors leave the same table in
      every ledger the node reaches (C16), and the thread, as long as the buffers of the
      bounded processor are deep enough, cements exactly what was
      added, whichever of them it chooses (C17), and tracks it until then
      ([added_blocks_tracked]).
    - No block given to the block processor is lost: it stays until the processing
      thread, the verification thread or a cleanup disposes of it (C22).  With deletion
      enabled, right accounts and no forced blocks every block settles, a waiting block
      lacks what it waits for, and checking signatures early changes nothing (C21, C23,
      C24).
    - A pull transfers the chain of an account (C25); a frontier request and the pulls it
      leads to bring every missing block of the peer (C26), and the push that follows
      brings the peer what it lacks and nothing else (C27).
    - The key store of a wallet refines a vault of keys and survives a restart and a
      backup (C28, C29); sends, receives and changes of an open wallet are accepted
      by the ledger and do what they say (C30, C31, [change_action_accepted]); a send
      with an id is made once (C32); a seed gives back its accounts (C33), and an
      import takes the accounts before the first without key (C34).
    - Start-up, receivable amounts and pruning agree with the tables, of cemented and
      of already pruned ledgers too (C35, C36).
    - The block table in bytes refines the map, and the codecs of blocks, votes,
      messages and account strings are exact, but for the vote that the uniquer puts in
      place of another (C37 to C39, [uniquer_replaces_vote], [account_string_exact]).
    - The election queue serves every bucket in bounded time and in order.
    - Behaviours that differ from what the code means to do, by evaluation or proof:
      [send_to_hash_cements_target], [final_votes_can_conflict],
      [foreign_account_ends_process], [quorums_can_be_disjoint],
      [publish_race_leaves_orphan], [uniquer_replaces_vote], C34.

    ** Bounds, fuel and modelling choices

    Integers are [Z] with their width written out where the code can wrap; hashes,
    accounts and keys are the big-endian numbers of their bytes.  [debug_assert] is
    a no-op, as in a release build, but in the confirmation height thread, where those
    on pending writes are proved; [release_assert], a failed deletion and a null
    dereference are [Aborted] or [Crashed].  Times are arguments.  Loops over
    streams and tables have a measure as fuel: one more than the length of the
    stream, the size of the table; the theorems include that it is enough.  Rollback
    and pruning follow links between blocks and take fuel as argument, with the
    bound in the theorem (2 for the last block of a chain, the number of blocks and
    two for pruning).  A cementing run takes as fuel the number of rounds of its
    loop; three times the number of blocks is proved to be enough for either processor, and
    the number of blocks for a walk up a chain; the scheduler's loop
    needs twice its queue and the number of elections.  An answer to a pull needs one
    more than the number of blocks, one to a frontier request one more than the number of
    accounts, and a push one more than the blocks it writes.  An operation of
    an object with a mutex is one step, also where it releases the mutex on the way:
    [active_transactions::publish] is the composition of its locked sections,
    [election::confirm_if_quorum] is one step although it unlocks around
    [final_generator.add] and [confirm_once], and the runs of the container do not
    interleave what lies between.  [unchecked_cleanup] is two kinds of steps, its read
    and its write transactions.  A weak pointer whose object is gone is no entry of a
    uniquer.  The order in which hash tables are traversed
    and threads finish is arbitrary ([en_order], permutations, the interleaved steps
    of [Pipeline]).

    ** What is not modelled, and why

    Outside of a model of decisions: sockets, transport, RPC, IPC and JSON, the
    database engines, thread pools, configuration files, statistics and user
    interfaces; blocks processed between two rounds of a cementing run, and what the
    bounded processor does when its buffers are full (a path of dependencies through
    131072 receives), but for an example; of the block processor [stop], [flush]
    and the time limits of a batch.  Of the container of elections the
    confirmation of frontiers and optimistic elections, which nothing in the node
    calls, and of the voting classes stopping, statistics and the lengths of waits.
    Of the wallets failing database calls and what lists the tables of the database
    file (the constructor of [wallets], [split_if_needed], [reload]).  Of bootstrap the
    pool of connections with its measurement of speed, the queue and the cache of pulls,
    lazy and wallet attempts with [bulk_pull_account], and the ledger changing while an
    answer is written.  These, the representative crawler and the confirmation solicitor
    decide whom to ask and when; what arrives passes the modelled checks, and their
    answers are arguments of the model where it reads them. *)

From stdpp Require Export base tactics list gmap sorting strings.
From coqutil Require Export Byte Word.LittleEndianList.
From Stdlib Require Export ZArith Lia.

#[global] Open Scope Z_scope.

(** ** Machine widths

    [uint64_t], [vxldollar::uint128_t] and the 256-bit unions are kept as [Z]
    together with the modulus of their width; every arithmetic operation of
    the source that can wrap is followed by the matching [wrap]. *)

Definition u8_mod : Z := Eval vm_compute in 2 ^ 8.
Definition u32_mod : Z := Eval vm_compute in 2 ^ 32.
Definition u64_mod : Z := Eval vm_compute in 2 ^ 64.
Definition u128_mod : Z := Eval vm_compute in 2 ^ 128.
Definition u256_mod : Z := Eval vm_compute in 2 ^ 256.
Definition u512_mod : Z := Eval vm_compute in 2 ^ 512.

Definition u32_max : Z := u32_mod - 1.
Definition u64_max : Z := u64_mod - 1.
Definition u128_max : Z := u128_mod - 1.

Definition wrap32 (z : Z) : Z := z mod u32_mod.
Definition wrap64 (z : Z) : Z := z mod u64_mod.
Definition wrap128 (z : Z) : Z := z mod u128_mod.
Definition wrap256 (z : Z) : Z := z mod u256_mod.
Definition wrap512 (z : Z) : Z := z mod u512_mod.

Definition is_u8 (z : Z) : Prop := 0 <= z < u8_mod.
Definition is_u64 (z : Z) : Prop := 0 <= z < u64_mod.
Definition is_u128 (z : Z) : Prop := 0 <= z < u128_mod.
Definition is_u256 (z : Z) : Prop := 0 <= z < u256_mod.
Definition is_u512 (z : Z) : Prop := 0 <= z < u512_mod.

Lemma wrap64_small z : is_u64 z → wrap64 z = z.
Proof. apply Z.mod_small. Qed.

Lemma wrap128_small z : is_u128 z → wrap128 z = z.
Proof. apply Z.mod_small. Qed.

Lemma wrap64_range z : is_u64 (wrap64 z).
Proof. apply Z.mod_pos_bound. reflexivity. Qed.

Lemma wrap128_range z : is_u128 (wrap128 z).
Proof. apply Z.mod_pos_bound. reflexivity. Qed.

Lemma wrap64_add_l a b : wrap64 (wrap64 a + b) = wrap64 (a + b).
Proof. apply Zplus_mod_idemp_l. Qed.

Lemma wrap64_add_r a b : wrap64 (a + wrap64 b) = wrap64 (a + b).
Proof. apply Zplus_mod_idemp_r. Qed.

Lemma wrap128_add_l a b : wrap128 (wrap128 a + b) = wrap128 (a + b).
Proof. apply Zplus_mod_idemp_l. Qed.

Lemma wrap128_add_r a b : wrap128 (a + wrap128 b) = wrap128 (a + b).
Proof. apply Zplus_mod_idemp_r. Qed.

Lemma wrap128_sub_r a b : wrap128 (a - wrap128 b) = wrap128 (a - b).
Proof. apply Zminus_mod_idemp_r. Qed.

Lemma wrap64_add_m a b c : wrap64 (a + wrap64 b + c) = wrap64 (a + b + c).
Proof. rewrite <- (wrap64_add_l (a + wrap64 b)), wrap64_add_r. apply wrap64_add_l. Qed.

Lemma wrap128_add_m a b c : wrap128 (a + wrap128 b + c) = wrap128 (a + b + c).
Proof. rewrite <- (wrap128_add_l (a + wrap128 b)), wrap128_add_r. apply wrap128_add_l. Qed.

(** ** Aborting computations

    [release_assert] and the precondition violations of the storage layer end
    the process.  Code that may do so returns an [outcome]. *)

Inductive outcome (A : Type) : Type :=
| Ok (a : A)
| Aborted.
Arguments Ok {A} a.
Arguments Aborted {A}.

#[export] Instance outcome_ret : MRet outcome := λ A a, Ok a.
#[export] Instance outcome_bind : MBind outcome := λ A B k m,
  match m with Ok a => k a | Aborted => Aborted end.

Definition of_option {A} (o : option A) : outcome A :=
  match o with Some a => Ok a | None => Aborted end.

Lemma bind_Ok {A B} (m : outcome A) (k : A → outcome B) b :
  m ≫= k = Ok b ↔ ∃ a, m = Ok a ∧ k a = Ok b.
Proof. split; [destruct m; [by eauto | done] | by intros (a & -> & ?)]. Qed.

(** ** Finite case checks *)

(** A decidable property of an 8-bit field is checked on every value. *)
Lemma forall_below (P : Z → bool) (n z : Z) :
  forallb P (seqZ 0 n) = true → 0 <= z < n → P z = true.
Proof.
  rewrite forallb_forall. intros Hall Hz. apply Hall, list_elem_of_In, elem_of_seqZ. lia.
Qed.

(** ** Finite maps *)

Lemma size_alter {K A} `{Countable K} (f : A → A) (m : gmap K A) (k : K) :
  size (alter f k m) = size m.
Proof. by rewrite <- !(size_dom (D := gset K)), dom_alter_L. Qed.

(** ** Sorted lists *)

Lemma StronglySorted_impl {A} (R R' : relation A) (l : list A) :
  (∀ x y, x ∈ l → y ∈ l → R x y → R' x y) → StronglySorted R l → StronglySorted R' l.
Proof.
  intros Hi Hs. induction Hs as [| x l Hs IH Hf]; constructor.
  - apply IH. intros y z Hy Hz. apply Hi; by right.
  - rewrite Forall_forall in Hf |- *. intros y Hy. apply Hi; [by left | by right | by apply Hf].
Qed.

(** ** Sums over lists *)

Definition lsum {A} (f : A → Z) (l : list A) : Z := foldr (λ x n, f x + n) 0 l.

Lemma lsum_app {A} (f : A → Z) l1 l2 : lsum f (l1 ++ l2) = lsum f l1 + lsum f l2.
Proof. unfold lsum. induction l1; simpl; lia. Qed.

Lemma lsum_perm {A} (f : A → Z) l1 l2 : l1 ≡ₚ l2 → lsum f l1 = lsum f l2.
Proof. induction 1; unfold lsum in *; simpl in *; lia. Qed.

Lemma lsum_concat {A} (f : A → Z) ls : lsum f (concat ls) = lsum (lsum f) ls.
Proof. induction ls as [| l ls IH]; [done |]. simpl. rewrite lsum_app, IH. done. Qed.

Lemma lsum_lookup (m : gmap Z Z) r :
  lsum (λ x, if decide (r = x.1) then x.2 else 0) (map_to_list m) = default 0 (m !! r).
Proof.
  induction m as [| k x m Hk IH] using map_ind.
  - by rewrite map_to_list_empty, lookup_empty.
  - rewrite (lsum_perm _ _ _ (map_to_list_insert m k x Hk)). simpl. rewrite IH, lookup_insert.
    repeat case_decide; simplify_eq; [rewrite Hk |]; simpl; lia.
Qed.

(** ** Sums over finite maps *)

Section map_sum.
Context {K A : Type} `{Countable K}.
Implicit Types (f g : A → Z) (m : gmap K A).

Definition sum_map f m : Z := map_fold (λ _ x acc, f x + acc) 0 m.

Lemma sum_map_empty f : sum_map f ∅ = 0.
Proof. apply map_fold_empty. Qed.

Lemma sum_map_insert f m k x :
  m !! k = None → sum_map f (<[k:=x]> m) = f x + sum_map f m.
Proof. intros Hk. by apply (map_fold_insert_L (λ _ x acc, f x + acc)); [lia |]. Qed.

Lemma sum_map_delete f m k x :
  m !! k = Some x → sum_map f (delete k m) = sum_map f m - f x.
Proof.
  intros Hk. unfold sum_map at 2.
  rewrite (map_fold_delete_L _ _ k x); [| lia | done].
  fold (sum_map f (delete k m)). lia.
Qed.

Lemma sum_map_update f m k x y :
  m !! k = Some x → sum_map f (<[k:=y]> m) = sum_map f m - f x + f y.
Proof.
  intros Hk. rewrite <- insert_delete_eq.
  rewrite sum_map_insert by apply lookup_delete_eq.
  rewrite (sum_map_delete _ _ _ x) by done. lia.
Qed.

Lemma sum_map_nonneg f m :
  (∀ k x, m !! k = Some x → 0 <= f x) → 0 <= sum_map f m.
Proof.
  induction m as [| k x m Hk IH] using map_ind; intros Hf.
  - rewrite sum_map_empty. lia.
  - rewrite sum_map_insert by done.
    assert (0 <= f x) by (apply (Hf k); by simplify_map_eq).
    assert (0 <= sum_map f m); [| lia].
    apply IH. intros k' x' Hk'. apply (Hf k'). rewrite lookup_insert_ne; naive_solver.
Qed.

Lemma sum_map_le f g m :
  (∀ k x, m !! k = Some x → f x <= g x) → sum_map f m <= sum_map g m.
Proof.
  induction m as [| k x m Hk IH] using map_ind; intros Hf.
  - rewrite !sum_map_empty. lia.
  - rewrite !sum_map_insert by done.
    assert (f x <= g x) by (apply (Hf k); by simplify_map_eq).
    assert (sum_map f m <= sum_map g m); [| lia].
    apply IH. intros k' x' Hk'. apply (Hf k'). rewrite lookup_insert_ne; naive_solver.
Qed.

Lemma sum_map_lookup_le f m k x :
  (∀ k x, m !! k = Some x → 0 <= f x) → m !! k = Some x → f x <= sum_map f m.
Proof.
  intros Hf Hk. pose proof (sum_map_delete f m k x Hk) as Hd.
  assert (0 <= sum_map f (delete k m)); [| lia].
  apply sum_map_nonneg. intros k' x' Hk'. apply (Hf k').
  by apply lookup_delete_Some in Hk' as [_ ?].
Qed.

Lemma sum_map_filter_le f (P : K * A → Prop) `{∀ x, Decision (P x)} m :
  (∀ k x, m !! k = Some x → 0 <= f x) → sum_map f (filter P m) <= sum_map f m.
Proof.
  induction m as [| k x m Hk IH] using map_ind; intros Hf.
  - by rewrite map_filter_empty.
  - assert (0 <= f x) by (apply (Hf k); by simplify_map_eq).
    assert (sum_map f (filter P m) <= sum_map f m).
    { apply IH. intros k' x' Hk'. apply (Hf k'). rewrite lookup_insert_ne; naive_solver. }
    rewrite (sum_map_insert f m) by done. destruct (decide (P (k, x))).
    + rewrite map_filter_insert_True by done. rewrite sum_map_insert; [lia |].
      apply map_lookup_filter_None. by left.
    + rewrite map_filter_insert_False, delete_id by done. lia.
Qed.

Lemma sum_map_ext f g m :
  (∀ k x, m !! k = Some x → f x = g x) → sum_map f m = sum_map g m.
Proof.
  intros Hf. apply Z.le_antisymm; apply sum_map_le; intros k x Hk;
    rewrite (Hf k x Hk); lia.
Qed.
End map_sum.

(** ** Byte streams

    [vxldollar::stream] reads and writes the raw bytes of a value.  The
    unions of [lib/numbers.hpp] hold their number most significant byte first
    ([export_bits] to [rbegin]); integer fields written without an endian
    conversion have the byte order of the host, little endian on the
    platforms the node is built for. *)

Abbreviation bytes := (list Init.Byte.byte).

Definition to_le (n : nat) (z : Z) : bytes := le_split n z.
Definition of_le (bs : bytes) : Z := le_combine bs.
Definition to_be (n : nat) (z : Z) : bytes := rev (le_split n z).
Definition of_be (bs : bytes) : Z := le_combine (rev bs).

(** [stream_a.sgetn] of [n] bytes: an error unless all of them are there. *)
Definition read_bytes (n : nat) (s : bytes) : option (bytes * bytes) :=
  if bool_decide (n <= length s)%nat then Some (take n s, drop n s) else None.

Definition read_be (n : nat) (s : bytes) : option (Z * bytes) :=
  '(b, s) ← read_bytes n s; Some (of_be b, s).
Definition read_le (n : nat) (s : bytes) : option (Z * bytes) :=
  '(b, s) ← read_bytes n s; Some (of_le b, s).

Lemma length_to_le n z : length (to_le n z) = n.
Proof. apply length_le_split. Qed.

Lemma length_to_be n z : length (to_be n z) = n.
Proof. unfold to_be. rewrite length_rev. apply length_le_split. Qed.

Lemma of_to_le n z : of_le (to_le n z) = z mod 2 ^ (Z.of_nat n * 8).
Proof. apply le_combine_split. Qed.

Lemma of_to_be n z : of_be (to_be n z) = z mod 2 ^ (Z.of_nat n * 8).
Proof. unfold of_be, to_be. rewrite rev_involutive. apply le_combine_split. Qed.

Lemma to_of_be bs : to_be (length bs) (of_be bs) = bs.
Proof.
  unfold of_be, to_be. rewrite <- (length_rev bs), split_le_combine.
  apply rev_involutive.
Qed.

Lemma of_be_range bs : 0 <= of_be bs < 2 ^ (8 * Z.of_nat (length bs)).
Proof.
  unfold of_be. pose proof (le_combine_bound (rev bs)) as Hb.
  by rewrite length_rev in Hb.
Qed.

Lemma of_le_range bs : 0 <= of_le bs < 2 ^ (8 * Z.of_nat (length bs)).
Proof. apply le_combine_bound. Qed.

Lemma of_be_inj b1 b2 : length b1 = length b2 → of_be b1 = of_be b2 → b1 = b2.
Proof.
  intros Hl He. rewrite <- (to_of_be b1), <- (to_of_be b2), Hl, He. done.
Qed.

Lemma read_bytes_app n b s : length b = n → read_bytes n (b ++ s) = Some (b, s).
Proof.
  intros <-. unfold read_bytes. rewrite bool_decide_true by (rewrite length_app; lia).
  by rewrite take_app_length, drop_app_length.
Qed.

Lemma read_bytes_short n s : (length s < n)%nat → read_bytes n s = None.
Proof. intros. unfold read_bytes. by rewrite bool_decide_false by lia. Qed.

Lemma read_bytes_Some n s b s' :
  read_bytes n s = Some (b, s') → s = b ++ s' ∧ length b = n.
Proof.
  unfold read_bytes. case_bool_decide; intros; simplify_eq.
  rewrite length_take, take_drop. split; [done | lia].
Qed.

Lemma read_be_app n z s :
  0 <= z < 2 ^ (Z.of_nat n * 8) → read_be n (to_be n z ++ s) = Some (z, s).
Proof.
  intros Hz. unfold read_be. rewrite read_bytes_app by apply length_to_be. simpl.
  by rewrite of_to_be, Z.mod_small.
Qed.

Lemma read_le_app n z s :
  0 <= z < 2 ^ (Z.of_nat n * 8) → read_le n (to_le n z ++ s) = Some (z, s).
Proof.
  intros Hz. unfold read_le. rewrite read_bytes_app by apply length_to_le. simpl.
  by rewrite of_to_le, Z.mod_small.
Qed.

Lemma read_be8 z s : is_u8 z → read_be 1 (to_be 1 z ++ s) = Some (z, s).
Proof. exact (read_be_app 1 z s). Qed.
Lemma read_be64 z s : is_u64 z → read_be 8 (to_be 8 z ++ s) = Some (z, s).
Proof. exact (read_be_app 8 z s). Qed.
Lemma read_le64 z s : is_u64 z → read_le 8 (to_le 8 z ++ s) = Some (z, s).
Proof. exact (read_le_app 8 z s). Qed.
Lemma read_be128 z s : is_u128 z → read_be 16 (to_be 16 z ++ s) = Some (z, s).
Proof. exact (read_be_app 16 z s). Qed.
Lemma read_be256 z s : is_u256 z → read_be 32 (to_be 32 z ++ s) = Some (z, s).
Proof. exact (read_be_app 32 z s). Qed.
Lemma read_be512 z s : is_u512 z → read_be 64 (to_be 64 z ++ s) = Some (z, s).
Proof. exact (read_be_app 64 z s). Qed.

Lemma read_be_short n s : (length s < n)%nat → read_be n s = None.
Proof. intros. unfold read_be. by rewrite read_bytes_short. Qed.

Lemma read_le_short n s : (length s < n)%nat → read_le n s = None.
Proof. intros. unfold read_le. by rewrite read_bytes_short. Qed.

Lemma read_be_Some n s z s' :
  read_be n s = Some (z, s') → s = to_be n z ++ s' ∧ 0 <= z < 2 ^ (8 * Z.of_nat n).
Proof.
  unfold read_be. destruct (read_bytes n s) as [[b s1] |] eqn:Hr; intros; simplify_eq/=.
  apply read_bytes_Some in Hr as [-> <-]. rewrite to_of_be.
  split; [done | apply of_be_range].
Qed.

Lemma read_le_Some n s z s' :
  read_le n s = Some (z, s') → s = to_le n z ++ s' ∧ 0 <= z < 2 ^ (8 * Z.of_nat n).
Proof.
  unfold read_le. destruct (read_bytes n s) as [[b s1] |] eqn:Hr; intros; simplify_eq/=.
  apply read_bytes_Some in Hr as [-> <-]. unfold to_le, of_le. rewrite split_le_combine.
  split; [done | apply le_combine_bound].
Qed.

(** Results of wrapping arithmetic are in range. *)
Create HintDb widths.
#[export] Hint Resolve wrap64_range wrap128_range : widths.
Create Rewrite HintDb codec.
#[export] Hint Rewrite read_be8 read_be64 read_le64 read_be128 read_be256 read_be512
  using done : codec.

(** Encoders and readers are handled by their lemmas only; [vm_compute] still
    evaluates them. *)
#[global] Opaque to_le to_be of_le of_be read_bytes read_be read_le.

(** ** Tactics *)

(** Split every conjunction and existential of the context. *)
Ltac deex :=
  repeat match goal with
  | H : _ ∧ _ |- _ => destruct H
  | H : ∃ _, _ |- _ => destruct H
  end.

(** Case analysis on the scrutinee of a [match] or [if] of hypothesis [H],
    keeping the equation and closing the impossible cases. *)
Ltac split_step H :=
  match type of H with
  | context [match ?x with _ => _ end] =>
      lazymatch x with
      | context [match _ with _ => _ end] => fail
      | _ => let E := fresh "E" in destruct x eqn:E; try discriminate H
      end
  end.

Ltac split_all H := repeat (split_step H; simplify_eq/=).
