(* ===== verification/Blocks.v ===== *)
(** * Blocks ([lib/blocks.hpp], [lib/blocks.cpp], [lib/epoch.hpp])

    The five block kinds with their hashables, the virtual accessors of
    [vxldollar::block], the digest of a block, and the sideband that the
    ledger attaches to a block it stores.  The wire and database encodings are
    in [BlockCodec]. *)

From S2P Require Import Prelude.

(** ** Cryptographic primitives

    [blake2b] and [ed25519] come from submodules outside the tree; they are
    arguments of everything that uses them.  [blake2b n m] is the digest of
    [m] of size [n] (the [blake2b_init]/[update]/[final] sequence), and
    [ed25519_sign_open pk m sig] is true when the C function returns 0. *)
Class Crypto := {
  blake2b : nat → bytes → bytes;
  ed25519_sign_open : bytes → bytes → bytes → bool;
}.

(** What the callers rely on: a digest has the size asked for. *)
Class CryptoLaws (C : Crypto) := {
  blake2b_length : ∀ n m, length (blake2b n m) = n;
}.

(** ** Enumerations *)

(** [enum class epoch : uint8_t]; a cast can produce any 8-bit value, so the
    enumeration is its underlying type with the enumerators as constants. *)
Abbreviation epoch := Z (only parsing).
Definition epoch_0 : epoch := 2.
Definition epoch_1 : epoch := 3.
Definition epoch_2 : epoch := 4.
Definition epoch_max : epoch := epoch_2.

(** [normalized_epoch]: the epoch counted from [epoch_0], an 8-bit result. *)
Definition normalized_epoch (e : epoch) : Z := (e - epoch_0) mod u8_mod.

Inductive block_type : Type :=
| bt_invalid | bt_not_a_block | bt_send | bt_receive | bt_open | bt_change | bt_state.

#[export] Instance block_type_eq_dec : EqDecision block_type.
Proof. solve_decision. Defined.

Definition block_type_code (t : block_type) : Z :=
  match t with
  | bt_invalid => 0 | bt_not_a_block => 1 | bt_send => 2 | bt_receive => 3
  | bt_open => 4 | bt_change => 5 | bt_state => 6
  end.

(** The byte read into a [block_type]; [None] is a value that is no enumerator
    and takes the [default] branch of every switch. *)
Definition block_type_of_code (z : Z) : option block_type :=
  if z =? 0 then Some bt_invalid
  else if z =? 1 then Some bt_not_a_block
  else if z =? 2 then Some bt_send
  else if z =? 3 then Some bt_receive
  else if z =? 4 then Some bt_open
  else if z =? 5 then Some bt_change
  else if z =? 6 then Some bt_state
  else None.

Lemma block_type_of_code_code t : block_type_of_code (block_type_code t) = Some t.
Proof. by destruct t. Qed.

(** ** Blocks *)

Record send_hashables := SendHashables {
  send_previous : Z;
  send_destination : Z;
  send_balance : Z;
}.
Record receive_hashables := ReceiveHashables {
  receive_previous : Z;
  receive_source : Z;
}.
Record open_hashables := OpenHashables {
  open_source : Z;
  open_representative : Z;
  open_account : Z;
}.
Record change_hashables := ChangeHashables {
  change_previous : Z;
  change_representative : Z;
}.
Record state_hashables := StateHashables {
  state_account : Z;
  state_previous : Z;
  state_representative : Z;
  state_balance : Z;
  state_link : Z;
}.

(** A block: its hashables, the signature (512 bits) and the work nonce. *)
Inductive block : Type :=
| send_block (h : send_hashables) (signature work : Z)
| receive_block (h : receive_hashables) (signature work : Z)
| open_block (h : open_hashables) (signature work : Z)
| change_block (h : change_hashables) (signature work : Z)
| state_block (h : state_hashables) (signature work : Z).

#[export] Instance send_hashables_eq_dec : EqDecision send_hashables.
Proof. solve_decision. Defined.
#[export] Instance receive_hashables_eq_dec : EqDecision receive_hashables.
Proof. solve_decision. Defined.
#[export] Instance open_hashables_eq_dec : EqDecision open_hashables.
Proof. solve_decision. Defined.
#[export] Instance change_hashables_eq_dec : EqDecision change_hashables.
Proof. solve_decision. Defined.
#[export] Instance state_hashables_eq_dec : EqDecision state_hashables.
Proof. solve_decision. Defined.

(** *** The virtual accessors

    A kind that does not override an accessor inherits the static zero of the
    base class. *)

Definition block_type_of (b : block) : block_type :=
  match b with
  | send_block _ _ _ => bt_send
  | receive_block _ _ _ => bt_receive
  | open_block _ _ _ => bt_open
  | change_block _ _ _ => bt_change
  | state_block _ _ _ => bt_state
  end.

Definition previous (b : block) : Z :=
  match b with
  | send_block h _ _ => send_previous h
  | receive_block h _ _ => receive_previous h
  | open_block _ _ _ => 0
  | change_block h _ _ => change_previous h
  | state_block h _ _ => state_previous h
  end.

Definition source (b : block) : Z :=
  match b with
  | receive_block h _ _ => receive_source h
  | open_block h _ _ => open_source h
  | _ => 0
  end.

Definition destination (b : block) : Z :=
  match b with
  | send_block h _ _ => send_destination h
  | _ => 0
  end.

Definition link (b : block) : Z :=
  match b with
  | state_block h _ _ => state_link h
  | _ => 0
  end.

Definition account (b : block) : Z :=
  match b with
  | open_block h _ _ => open_account h
  | state_block h _ _ => state_account h
  | _ => 0
  end.

Definition representative (b : block) : Z :=
  match b with
  | open_block h _ _ => open_representative h
  | change_block h _ _ => change_representative h
  | state_block h _ _ => state_representative h
  | _ => 0
  end.

Definition block_balance (b : block) : Z :=
  match b with
  | send_block h _ _ => send_balance h
  | state_block h _ _ => state_balance h
  | _ => 0
  end.

Definition root (b : block) : Z :=
  match b with
  | send_block h _ _ => send_previous h
  | receive_block h _ _ => receive_previous h
  | open_block h _ _ => open_account h
  | change_block h _ _ => change_previous h
  | state_block h _ _ => if state_previous h =? 0 then state_account h else state_previous h
  end.

Definition qualified_root (b : block) : Z * Z := (root b, previous b).

Definition block_signature (b : block) : Z :=
  match b with
  | send_block _ s _ | receive_block _ s _ | open_block _ s _
  | change_block _ s _ | state_block _ s _ => s
  end.

Definition block_work (b : block) : Z :=
  match b with
  | send_block _ _ w | receive_block _ _ w | open_block _ _ w
  | change_block _ _ w | state_block _ _ w => w
  end.

(** [valid_predecessor]: which kinds may follow which. *)
Definition send_valid_predecessor (prev : block) : bool :=
  match block_type_of prev with
  | bt_send | bt_receive | bt_open | bt_change => true
  | _ => false
  end.
Definition receive_valid_predecessor (prev : block) : bool :=
  match block_type_of prev with
  | bt_send | bt_receive | bt_open | bt_change => true
  | _ => false
  end.
Definition open_valid_predecessor (prev : block) : bool := false.
Definition change_valid_predecessor (prev : block) : bool :=
  match block_type_of prev with
  | bt_send | bt_receive | bt_open | bt_change => true
  | _ => false
  end.
Definition state_valid_predecessor (prev : block) : bool := true.

Definition valid_predecessor (b prev : block) : bool :=
  match b with
  | send_block _ _ _ => send_valid_predecessor prev
  | receive_block _ _ _ => receive_valid_predecessor prev
  | open_block _ _ _ => open_valid_predecessor prev
  | change_block _ _ _ => change_valid_predecessor prev
  | state_block _ _ _ => state_valid_predecessor prev
  end.

(** The per-kind [operator==], field by field. *)
Definition send_equal (h h' : send_hashables) (s w s' w' : Z) : bool :=
  (send_destination h =? send_destination h') && (send_previous h =? send_previous h')
  && (send_balance h =? send_balance h') && (w =? w') && (s =? s').
Definition receive_equal (h h' : receive_hashables) (s w s' w' : Z) : bool :=
  (receive_previous h =? receive_previous h') && (receive_source h =? receive_source h')
  && (w =? w') && (s =? s').
Definition open_equal (h h' : open_hashables) (s w s' w' : Z) : bool :=
  (open_source h =? open_source h') && (open_representative h =? open_representative h')
  && (open_account h =? open_account h') && (w =? w') && (s =? s').
Definition change_equal (h h' : change_hashables) (s w s' w' : Z) : bool :=
  (change_previous h =? change_previous h')
  && (change_representative h =? change_representative h') && (w =? w') && (s =? s').
Definition state_equal (h h' : state_hashables) (s w s' w' : Z) : bool :=
  (state_account h =? state_account h') && (state_previous h =? state_previous h')
  && (state_representative h =? state_representative h')
  && (state_balance h =? state_balance h') && (state_link h =? state_link h')
  && (s =? s') && (w =? w').

(** [blocks_equal]: first the type, then every field. *)
Definition block_equal (a b : block) : bool :=
  match a, b with
  | send_block h s w, send_block h' s' w' => send_equal h h' s w s' w'
  | receive_block h s w, receive_block h' s' w' => receive_equal h h' s w s' w'
  | open_block h s w, open_block h' s' w' => open_equal h h' s w s' w'
  | change_block h s w, change_block h' s' w' => change_equal h h' s w s' w'
  | state_block h s w, state_block h' s' w' => state_equal h h' s w s' w'
  | _, _ => false
  end.

Lemma block_equal_spec a b : block_equal a b = true ↔ a = b.
Proof.
  destruct a as [[] | [] | [] | [] | []], b as [[] | [] | [] | [] | []]; simpl;
    unfold send_equal, receive_equal, open_equal, change_equal, state_equal; simpl;
    rewrite ?andb_true_iff, ?Z.eqb_eq; naive_solver.
Qed.

#[export] Instance block_eq_dec : EqDecision block.
Proof.
  intros a b. destruct (block_equal a b) eqn:E.
  - left. by apply block_equal_spec.
  - right. intros Hab. apply block_equal_spec in Hab. congruence.
Defined.

(** Every field fits the width of its C++ type. *)
Definition block_wf (b : block) : Prop :=
  is_u512 (block_signature b) ∧ is_u64 (block_work b) ∧
  match b with
  | send_block h _ _ =>
      is_u256 (send_previous h) ∧ is_u256 (send_destination h) ∧ is_u128 (send_balance h)
  | receive_block h _ _ => is_u256 (receive_previous h) ∧ is_u256 (receive_source h)
  | open_block h _ _ =>
      is_u256 (open_source h) ∧ is_u256 (open_representative h) ∧ is_u256 (open_account h)
  | change_block h _ _ => is_u256 (change_previous h) ∧ is_u256 (change_representative h)
  | state_block h _ _ =>
      is_u256 (state_account h) ∧ is_u256 (state_previous h) ∧
      is_u256 (state_representative h) ∧ is_u128 (state_balance h) ∧ is_u256 (state_link h)
  end.

(** *** Digests *)

(** What [hash (blake2b_state &)] feeds to the hash, in order. *)
Definition send_hash_input (h : send_hashables) : bytes :=
  to_be 32 (send_previous h) ++ to_be 32 (send_destination h) ++ to_be 16 (send_balance h).
Definition receive_hash_input (h : receive_hashables) : bytes :=
  to_be 32 (receive_previous h) ++ to_be 32 (receive_source h).
Definition open_hash_input (h : open_hashables) : bytes :=
  to_be 32 (open_source h) ++ to_be 32 (open_representative h) ++ to_be 32 (open_account h).
Definition change_hash_input (h : change_hashables) : bytes :=
  to_be 32 (change_previous h) ++ to_be 32 (change_representative h).
Definition state_hash_input (h : state_hashables) : bytes :=
  to_be 32 (state_account h) ++ to_be 32 (state_previous h) ++
  to_be 32 (state_representative h) ++ to_be 16 (state_balance h) ++ to_be 32 (state_link h).

#[global] Arguments send_hash_input h /.
#[global] Arguments receive_hash_input h /.
#[global] Arguments open_hash_input h /.
#[global] Arguments change_hash_input h /.
#[global] Arguments state_hash_input h /.

(** A state block prepends a preamble, its type as a 256-bit number. *)
Definition hash_input (b : block) : bytes :=
  match b with
  | send_block h _ _ => send_hash_input h
  | receive_block h _ _ => receive_hash_input h
  | open_block h _ _ => open_hash_input h
  | change_block h _ _ => change_hash_input h
  | state_block h _ _ => to_be 32 (block_type_code bt_state) ++ state_hash_input h
  end.

Section digests.
Context `{Crypto}.

(** [generate_hash]; [hash ()] returns it through the cache. *)
Definition block_hash (b : block) : Z := of_be (blake2b 32 (hash_input b)).

Definition block_full_hash (b : block) : Z :=
  of_be (blake2b 32
    (to_be 32 (block_hash b) ++ to_be 64 (block_signature b) ++ to_le 8 (block_work b))).

(** [validate_message]: true is an error. *)
Definition validate_message (public_key message signature : Z) : bool :=
  negb (ed25519_sign_open (to_be 32 public_key) (to_be 32 message) (to_be 64 signature)).
End digests.

(** ** Block details and sideband *)

Record block_details := BlockDetails {
  details_epoch : epoch;
  is_send : bool;
  is_receive : bool;
  is_epoch : bool;
}.

Definition default_details : block_details := BlockDetails epoch_0 false false false.

(** [packed]: bits 7, 6 and 5 are the flags, the epoch is below them. *)
Definition set_bit (z : Z) (i : Z) (v : bool) : Z :=
  if v then Z.lor z (Z.shiftl 1 i) else Z.ldiff z (Z.shiftl 1 i).

Definition details_packed (d : block_details) : Z :=
  set_bit (set_bit (set_bit (details_epoch d) 7 (is_send d)) 6 (is_receive d)) 5 (is_epoch d).

Definition details_unpack (z : Z) : block_details :=
  BlockDetails (Z.land z 31) (Z.testbit z 7) (Z.testbit z 6) (Z.testbit z 5).

Inductive subtype : Type := subtype_send | subtype_receive | subtype_epoch | subtype_change.

Definition state_subtype (d : block_details) : subtype :=
  if is_send d then subtype_send
  else if is_receive d then subtype_receive
  else if is_epoch d then subtype_epoch
  else subtype_change.

Record block_sideband := BlockSideband {
  sb_successor : Z;
  sb_account : Z;
  sb_balance : Z;
  sb_height : Z;
  sb_timestamp : Z;
  sb_details : block_details;
  sb_source_epoch : epoch;
}.

#[export] Instance block_details_eq_dec : EqDecision block_details.
Proof. solve_decision. Defined.
#[export] Instance block_sideband_eq_dec : EqDecision block_sideband.
Proof. solve_decision. Defined.

Definition default_sideband : block_sideband := BlockSideband 0 0 0 0 0 default_details epoch_0.

Definition set_successor (h : Z) (s : block_sideband) : block_sideband :=
  BlockSideband h (sb_account s) (sb_balance s) (sb_height s) (sb_timestamp s)
    (sb_details s) (sb_source_epoch s).

Definition sideband_wf (s : block_sideband) : Prop :=
  is_u256 (sb_successor s) ∧ is_u256 (sb_account s) ∧ is_u128 (sb_balance s) ∧
  is_u64 (sb_height s) ∧ is_u64 (sb_timestamp s) ∧
  0 <= details_epoch (sb_details s) < 32 ∧ is_u8 (sb_source_epoch s).
