(* ===== verification/Numbers.v ===== *)
(** * Account strings ([lib/numbers.cpp])

    The text form of a public key: a prefix, 52 characters of base 32 for the key
    and 8 for a checksum, with the alphabet and the reverse table of the source.
    The theorem shows that decoding accepts exactly the encodings. *)

From Stdlib Require Import Strings.Byte.
From S2P Require Import Prelude Blocks.

#[export] Instance byte_eq_decision : EqDecision Init.Byte.byte := Byte.byte_eq_dec.

(** [std::string] as bytes. *)
Abbreviation text := (list Init.Byte.byte).
Definition text_of (s : string) : text := String.list_byte_of_string s.

Definition account_lookup : text := Eval vm_compute in text_of "13456789abcdefghijkmnopqrstuwxyz".
Definition account_reverse : text := Eval vm_compute in
  text_of "~0~1234567~~~~~~~~~~~~~~~~~~~~~~~~~~~~~~~~~~~~~~~89:;<=>?@AB~CDEFGHIJK~LMNO~~~~~".

(** [account_encode]; the value is below 32. *)
Definition account_encode (value : Z) : Init.Byte.byte :=
  default Init.Byte.x00 (account_lookup !! Z.to_nat value).

(** [account_decode]; 126 is ['~'], no digit. *)
Definition account_decode (value : Init.Byte.byte) : Z :=
  let result := byte.unsigned (default Init.Byte.x00 (account_reverse !! Z.to_nat (byte.unsigned value - 0x30))) in
  if negb (result =? 126) then result - 0x30 else result.

Section accounts.
Context `{Crypto}.

(** The five bytes of checksum, written into the low bytes of a [uint64_t]. *)
Definition account_check (key : Z) : Z := of_le (blake2b 5 (to_be 32 key)).

(** The loop of [encode_account]: the low digit first. *)
Fixpoint push_digits (n : nat) (number_l : Z) (destination_a : text) : text :=
  match n with
  | O => destination_a
  | S n => push_digits n (Z.shiftr number_l 5)
             (destination_a ++ [account_encode (Z.land number_l 0x1f)])
  end.

Definition encode_account (key : Z) : text :=
  let number_l := Z.lor (wrap512 (Z.shiftl key 40)) (account_check key) in
  rev (push_digits 60 number_l [] ++ text_of "_dlxv").

(** [to_node_id]: the first four characters replaced. *)
Definition to_node_id (key : Z) : text := text_of "node" ++ drop 4 (encode_account key).

Definition vxldollar_prefix (source_a : text) : bool :=
  bool_decide (take 5 source_a = text_of "vxld_") || bool_decide (take 5 source_a = text_of "vxld-").
Definition node_id_prefix (source_a : text) : bool :=
  bool_decide (take 5 source_a = text_of "node_").

(** The loop of [decode_account]; [None] is the error. *)
Fixpoint read_digits (s : text) (number_l : Z) : option Z :=
  match s with
  | [] => Some number_l
  | character :: s =>
      if (byte.unsigned character <? 0x30) || (0x80 <=? byte.unsigned character) then None else
      let byte := account_decode character in
      if byte =? 126 then None else
      read_digits s (wrap512 (wrap512 (Z.shiftl number_l 5) + byte))
  end.

(** [decode_account]; [None] is the error.  The character after the prefix of a
    string of five is the terminating zero. *)
Definition decode_account (source_a : text) : option Z :=
  if bool_decide (length source_a < 5)%nat then None else
  if vxldollar_prefix source_a && negb (Nat.eqb (length source_a) 65) then None else
  if vxldollar_prefix source_a || node_id_prefix source_a then
    let i := default Init.Byte.x00 (source_a !! 5%nat) in
    if bool_decide (i = Init.Byte.x31) || bool_decide (i = Init.Byte.x33) then
      number_l ← read_digits (drop 5 source_a) 0;
      let key := wrap256 (Z.shiftr number_l 40) in
      if Z.land number_l 0xffffffffff =? account_check key then Some key else None
    else None
  else None.

Definition decode_node_id (source_a : text) : option Z := decode_account source_a.

(** [deterministic_key]: the last four bytes of the index as a 256-bit number. *)
Definition deterministic_key (seed_a index_a : Z) : Z :=
  of_be (blake2b 32 (to_be 32 seed_a ++ to_be 4 index_a)).
End accounts.

(** ** Digits *)

Fixpoint digits (n : nat) (number : Z) : list Z :=
  match n with
  | O => []
  | S n => Z.land number 0x1f :: digits n (Z.shiftr number 5)
  end.

(** The number of a list of digits, high digit first, after [acc]. *)
Definition horner (acc : Z) (ds : list Z) : Z := fold_left (λ a d, a * 32 + d) ds acc.

Definition is_digit (d : Z) : Prop := 0 <= d < 32.

Lemma land_31 n : Z.land n 0x1f = n mod 32.
Proof. change 0x1f with (Z.ones 5). by rewrite Z.land_ones by lia. Qed.

Lemma shiftr_5 n : Z.shiftr n 5 = n / 32.
Proof. by rewrite Z.shiftr_div_pow2 by lia. Qed.

Lemma length_digits n number : length (digits n number) = n.
Proof. revert number. induction n; intros; simpl; auto. Qed.

Lemma digits_are_digits n number : Forall is_digit (digits n number).
Proof.
  revert number. induction n; intros; simpl; constructor; auto.
  rewrite land_31. apply Z.mod_pos_bound. lia.
Qed.

Lemma horner_snoc acc ds d : horner acc (ds ++ [d]) = horner acc ds * 32 + d.
Proof. unfold horner. by rewrite fold_left_app. Qed.

Lemma horner_bounds acc ds :
  0 <= acc → Forall is_digit ds → acc * 32 ^ Z.of_nat (length ds) <= horner acc ds <
  (acc + 1) * 32 ^ Z.of_nat (length ds).
Proof.
  intros Ha Hd. induction ds as [| d ds IH] using rev_ind.
  { change (32 ^ Z.of_nat (length [])) with 1. unfold horner. simpl. lia. }
  apply Forall_app in Hd as [Hds Hd]. rewrite Forall_singleton in Hd. specialize (IH Hds).
  rewrite horner_snoc, length_app, Nat.add_1_r, Nat2Z.inj_succ, Z.pow_succ_r by lia.
  unfold is_digit in Hd. nia.
Qed.

Lemma horner_digits n number : horner 0 (rev (digits n number)) = number mod 32 ^ Z.of_nat n.
Proof.
  revert number. induction n as [| n IH]; intros; [simpl; by rewrite Z.mod_1_r |].
  cbn [digits rev]. rewrite horner_snoc, IH, land_31, shiftr_5.
  rewrite Nat2Z.inj_succ, Z.pow_succ_r, Z.rem_mul_r by lia. lia.
Qed.

Lemma digits_horner ds : Forall is_digit ds → digits (length ds) (horner 0 ds) = rev ds.
Proof.
  intros Hd. induction ds as [| d ds IH] using rev_ind; [done |].
  apply Forall_app in Hd as [Hds Hd]. rewrite Forall_singleton in Hd. unfold is_digit in Hd.
  rewrite horner_snoc, length_app, Nat.add_1_r, rev_app_distr. cbn [digits rev app].
  rewrite land_31, shiftr_5, Z.div_add_l, Z.div_small, Z.add_0_r, IH by (done || lia).
  f_equal. rewrite Z.add_comm, Z_mod_plus_full. by apply Z.mod_small.
Qed.

(** ** The alphabet *)

Lemma encode_digit d :
  is_digit d → account_decode (account_encode d) = d ∧
  0x30 <= byte.unsigned (account_encode d) < 0x80 ∧ account_decode (account_encode d) ≠ 126.
Proof.
  intros Hd.
  pose proof (forall_below (λ d, (account_decode (account_encode d) =? d)
    && (0x30 <=? byte.unsigned (account_encode d)) && (byte.unsigned (account_encode d) <? 0x80)
    && negb (account_decode (account_encode d) =? 126)) 32 d ltac:(vm_compute; reflexivity) Hd) as He.
  cbv beta in He. lia.
Qed.

Lemma decode_digit c :
  0x30 <= byte.unsigned c < 0x80 → account_decode c ≠ 126 →
  is_digit (account_decode c) ∧ account_encode (account_decode c) = c.
Proof.
  assert (Hc : (byte.unsigned c <? 0x30) || (0x80 <=? byte.unsigned c) || (account_decode c =? 126)
    || (0 <=? account_decode c) && (account_decode c <? 32)
       && bool_decide (account_encode (account_decode c) = c) = true) by (destruct c; vm_compute; reflexivity).
  unfold is_digit. intros Hr Hn. destruct (bool_decide_reflect (account_encode (account_decode c) = c)); [| lia].
  split; [lia | done].
Qed.

(** ** Reading digits *)

Lemma push_digits_value n number acc :
  push_digits n number acc = acc ++ map account_encode (digits n number).
Proof.
  revert number acc. induction n as [| n IH]; intros; simpl; [by rewrite app_nil_r |].
  rewrite IH, <- app_assoc. done.
Qed.

Lemma read_digits_step c s acc :
  0 <= acc → (acc + 1) * 32 <= u512_mod →
  read_digits (c :: s) acc =
  if (byte.unsigned c <? 0x30) || (0x80 <=? byte.unsigned c) || (account_decode c =? 126) then None
  else read_digits s (acc * 32 + account_decode c).
Proof.
  intros Ha Hf. cbn [read_digits]. destruct (_ || (0x80 <=? _)) eqn:Hr; [done |]. cbn [orb].
  destruct (Z.eqb_spec (account_decode c) 126) as [| Hn]; [done |].
  destruct (decode_digit c) as [Hd _]; [lia | done |]. unfold is_digit in Hd.
  rewrite Z.shiftl_mul_pow2 by lia. change (2 ^ 5) with 32. unfold wrap512.
  rewrite (Z.mod_small (acc * 32)), Z.mod_small by lia. done.
Qed.

(** A string that is no longer than the register holds reads as its digits. *)
Lemma read_digits_spec s acc number :
  0 <= acc → (acc + 1) * 32 ^ Z.of_nat (length s) <= u512_mod →
  read_digits s acc = Some number ↔
  ∃ ds, Forall is_digit ds ∧ s = map account_encode ds ∧ number = horner acc ds.
Proof.
  revert acc. induction s as [| c s IH]; intros acc Ha Hf.
  - simpl. split; [intros [= <-]; by exists [] |]. intros ([| d ds] & _ & ? & ->); done.
  - change (length (c :: s)) with (S (length s)) in Hf.
    rewrite Nat2Z.inj_succ, Z.pow_succ_r in Hf by lia.
    assert (1 <= 32 ^ Z.of_nat (length s)) by (apply (Z.pow_le_mono_r 32 0); lia).
    rewrite read_digits_step by nia. split.
    + destruct (_ || _ || _) eqn:Hc; [done |]. destruct (decode_digit c) as [Hd He]; [lia.. |].
      unfold is_digit in Hd. intros (ds & Hds & -> & ->)%IH; [| nia..].
      exists (account_decode c :: ds). split_and!; [by constructor | simpl; by rewrite He | done].
    + intros ([| d ds] & Hall & Heq & ->); [done |]. apply Forall_cons in Hall as [Hd Hds].
      simplify_eq/=.
      destruct (encode_digit d Hd) as (Hv & Hr & Hn). rewrite Hv.
      replace (_ || _ || _) with false by lia. unfold is_digit in Hd.
      apply IH; [nia | rewrite length_map in *; nia |]. by exists ds.
Qed.

(** ** Account strings *)

Section account_strings.
Context {C : Crypto} {CL : CryptoLaws C}.

(** Key and checksum as one number of 296 bits. *)
Definition account_number (key : Z) : Z := key * 2 ^ 40 + account_check key.

(** The sixty characters after the prefix. *)
Definition account_body (key : Z) : text := map account_encode (rev (digits 60 (account_number key))).

Lemma account_check_range key : 0 <= account_check key < 2 ^ 40.
Proof.
  unfold account_check. pose proof (of_le_range (blake2b 5 (to_be 32 key))) as Hr.
  by rewrite blake2b_length in Hr.
Qed.

Lemma account_number_range key : is_u256 key → 0 <= account_number key < 2 ^ 296.
Proof.
  unfold is_u256, u256_mod, account_number. pose proof (account_check_range key). lia.
Qed.

Lemma lor_add_low key c : 0 <= c < 2 ^ 40 → Z.lor (Z.shiftl key 40) c = key * 2 ^ 40 + c.
Proof.
  intros Hc. rewrite <- Z.shiftl_mul_pow2 by lia.
  assert (Hz : Z.land (Z.shiftl key 40) c = 0).
  { apply Z.bits_inj'. intros i Hi. rewrite Z.land_spec, Z.bits_0.
    destruct (Z.ltb_spec i 40); [by rewrite Z.shiftl_spec_low |].
    rewrite <- (Z.mod_small c (2 ^ 40)), Z.mod_pow2_bits_high by lia. apply andb_false_r. }
  by rewrite <- Z.lxor_lor, <- Z.add_nocarry_lxor.
Qed.

Lemma encode_account_value key :
  is_u256 key → encode_account key = text_of "vxld_" ++ account_body key.
Proof.
  intros Hk. unfold encode_account, account_body. unfold wrap512.
  rewrite (Z.mod_small (Z.shiftl key 40)).
  2: { rewrite Z.shiftl_mul_pow2 by lia. unfold is_u256, u256_mod, u512_mod in *. lia. }
  rewrite lor_add_low by apply account_check_range. rewrite push_digits_value, app_nil_l.
  rewrite rev_app_distr, <- map_rev. done.
Qed.

Lemma length_account_body key : length (account_body key) = 60%nat.
Proof. unfold account_body. by rewrite length_map, length_rev, length_digits. Qed.

(** The number in sixty digits, and its first digit. *)
Lemma body_digits ds number :
  Forall is_digit ds → length ds = 60%nat → number = horner 0 ds →
  ds = rev (digits 60 number) ∧ (number < 2 ^ 296 ↔ ∃ d ds', ds = d :: ds' ∧ (d = 0 ∨ d = 1)).
Proof.
  intros Hd Hl ->. split; [by rewrite <- Hl, digits_horner, rev_involutive |].
  destruct ds as [| d ds]; [done |]. apply Forall_cons in Hd as [Hd Hds]. unfold is_digit in Hd.
  change (horner 0 (d :: ds)) with (horner (0 * 32 + d) ds). simpl in Hl.
  pose proof (horner_bounds (0 * 32 + d) ds ltac:(lia) Hds) as Hb.
  assert (Hn : Z.of_nat (length ds) = 59) by lia. rewrite Hn in Hb.
  change (2 ^ 296) with (2 * 32 ^ 59). split.
  - intros Hlt. exists d, ds. split; [done |]. nia.
  - intros (d' & ds' & [= <- <-] & [-> | ->]); lia.
Qed.

Lemma first_digit c d : is_digit d → account_encode d = c →
  (c = Init.Byte.x31 ∨ c = Init.Byte.x33) ↔ (d = 0 ∨ d = 1).
Proof.
  intros Hd <-. split.
  - intros [He | He]; [left | right]; destruct (encode_digit d Hd) as [<- _]; by rewrite He.
  - intros [-> | ->]; [left | right]; done.
Qed.

Definition account_prefixes : list text := [text_of "vxld_"; text_of "vxld-"; text_of "node_"].

(** What is left of [decode_account] after a prefix. *)
Definition decode_body (body : text) : option Z :=
  let i := default Init.Byte.x00 (head body) in
  if bool_decide (i = Init.Byte.x31) || bool_decide (i = Init.Byte.x33) then
    number_l ← read_digits body 0;
    let key := wrap256 (Z.shiftr number_l 40) in
    if Z.land number_l 0xffffffffff =? account_check key then Some key else None
  else None.

Lemma decode_account_prefixed p body :
  p ∈ account_prefixes → (length body = 60%nat ∨ p = text_of "node_") →
  decode_account (p ++ body) = decode_body body.
Proof.
  intros Hp Hl. unfold decode_account.
  assert (Hlen : length p = 5%nat) by (unfold account_prefixes in Hp; set_solver).
  rewrite bool_decide_false by (rewrite length_app; lia).
  assert (Hi : (p ++ body) !! 5%nat = head body).
  { rewrite lookup_app_r, Hlen by lia. by destruct body. }
  rewrite Hi, drop_app_length' by done. unfold vxldollar_prefix, node_id_prefix.
  rewrite take_app_length' by done.
  assert (Hok : (bool_decide (p = text_of "vxld_") || bool_decide (p = text_of "vxld-"))
      && negb (length (p ++ body) =? 65)%nat = false ∧
    (bool_decide (p = text_of "vxld_") || bool_decide (p = text_of "vxld-"))
      || bool_decide (p = text_of "node_") = true).
  { unfold account_prefixes in Hp. rewrite !elem_of_cons, elem_of_nil in Hp.
    rewrite length_app, Hlen. destruct Hl as [-> | ->]; [| done].
    destruct Hp as [-> | [-> | [-> | []]]]; done. }
  destruct Hok as [-> ->]. done.
Qed.

Lemma decode_account_has_prefix s a :
  decode_account s = Some a → ∃ p body, p ∈ account_prefixes ∧ s = p ++ body.
Proof.
  unfold decode_account, vxldollar_prefix, node_id_prefix. intros Hs.
  exists (take 5 s), (drop 5 s). rewrite take_drop. split; [| done].
  unfold account_prefixes. rewrite !elem_of_cons, elem_of_nil.
  repeat case_bool_decide; simpl in *; try done; auto.
Qed.

(** Digits that make up the number of a key, starting with 0 or 1. *)
Lemma decode_body_value d ds a :
  is_u256 a → Forall is_digit (d :: ds) → (length ds <= 60)%nat → (d = 0 ∨ d = 1) →
  horner 0 (d :: ds) = account_number a → decode_body (map account_encode (d :: ds)) = Some a.
Proof.
  intros Ha Hds Hl Hd Hn. unfold decode_body. pose proof (account_check_range a) as Hc.
  assert (Hi : bool_decide (account_encode d = Init.Byte.x31) || bool_decide (account_encode d = Init.Byte.x33) = true)
    by (destruct Hd as [-> | ->]; done).
  change (default Init.Byte.x00 (head (map account_encode (d :: ds)))) with (account_encode d).
  cbv zeta. rewrite Hi.
  assert (Hr : read_digits (map account_encode (d :: ds)) 0 = Some (account_number a)).
  { apply read_digits_spec; [done | | by exists (d :: ds)]. rewrite length_map, Z.mul_1_l.
    transitivity (32 ^ 61); [apply Z.pow_le_mono_r; simpl; lia | vm_compute; congruence]. }
  rewrite Hr. cbn [mbind option_bind]. unfold account_number.
  change 0xffffffffff with (Z.ones 40). rewrite Z.shiftr_div_pow2, Z.land_ones by lia.
  rewrite Z.div_add_l, (Z.div_small (account_check a)), Z.add_0_r by lia.
  unfold wrap256. rewrite (Z.mod_small a) by exact Ha.
  rewrite Z.add_comm, Z_mod_plus_full, Z.mod_small, Z.eqb_refl by lia. done.
Qed.

Lemma horner_account_number a :
  is_u256 a → horner 0 (rev (digits 60 (account_number a))) = account_number a.
Proof.
  intros Ha. pose proof (account_number_range a Ha) as Hn. rewrite horner_digits. apply Z.mod_small.
  split; [lia |]. change (2 ^ 296) with (32 ^ 59 * 2) in Hn.
  change (32 ^ Z.of_nat 60) with (32 ^ 59 * 32). lia.
Qed.

(** The number of a body of the right length. *)
Lemma decode_body_exact body a :
  length body = 60%nat → decode_body body = Some a ↔ is_u256 a ∧ body = account_body a.
Proof.
  intros Hl. unfold decode_body.
  assert (Hf : (0 + 1) * 32 ^ Z.of_nat (length body) <= u512_mod) by (rewrite Hl; vm_compute; congruence).
  pose proof (λ n, read_digits_spec body 0 n ltac:(lia) Hf) as Hread. split.
  - intros Hd. destruct (bool_decide _ || bool_decide _) eqn:Hi; [| done].
    destruct (read_digits body 0) as [n |] eqn:Hr; [| done]. simpl in Hd.
    destruct (proj1 (Hread n) eq_refl) as (ds & Hds & -> & Hn). rewrite length_map in Hl.
    destruct (body_digits ds n Hds Hl Hn) as [Hdig Hsmall].
    assert (Hlt : n < 2 ^ 296).
    { apply Hsmall. destruct ds as [| d ds]; [done |]. exists d, ds. split; [done |].
      apply (first_digit (account_encode d)); [by apply Forall_cons in Hds as [? _] | done |].
      simpl in Hi. apply orb_true_iff in Hi as [?%bool_decide_eq_true | ?%bool_decide_eq_true]; auto. }
    assert (Hn0 : 0 <= n) by (rewrite Hn; apply (horner_bounds 0 ds ltac:(lia) Hds)).
    change 0xffffffffff with (Z.ones 40) in Hd. rewrite Z.shiftr_div_pow2, Z.land_ones in Hd by lia.
    unfold wrap256 in Hd. rewrite (Z.mod_small (n / 2 ^ 40)) in Hd.
    2: { unfold u256_mod. split; [apply Z.div_pos; lia | apply Z.div_lt_upper_bound; lia]. }
    destruct (Z.eqb_spec (n mod 2 ^ 40) (account_check (n / 2 ^ 40))) as [Hc |]; [| done].
    injection Hd as <-. split.
    + unfold is_u256, u256_mod. split; [apply Z.div_pos; lia | apply Z.div_lt_upper_bound; lia].
    + unfold account_body, account_number. rewrite <- Hc. rewrite Hdig at 1. do 3 f_equal.
      rewrite Z.mul_comm. apply Z.div_mod. lia.
  - intros [Ha ->]. pose proof (account_number_range a Ha) as Hn.
    pose proof (horner_account_number a Ha) as Hv.
    assert (Hds : Forall is_digit (rev (digits 60 (account_number a))))
      by (apply Forall_rev, digits_are_digits).
    destruct (body_digits _ (account_number a) Hds) as [_ Hsmall];
      [by rewrite length_rev, length_digits | done |].
    destruct (proj1 Hsmall) as (d & ds & He & Hd); [lia |].
    assert (Hlen : length (d :: ds) = 60%nat) by (by rewrite <- He, length_rev, length_digits).
    simpl in Hlen. unfold account_body. rewrite He in Hds, Hv |- *. apply decode_body_value; auto with lia.
Qed.

Lemma horner_zero ds : horner 0 (0 :: ds) = horner 0 ds.
Proof. done. Qed.

(** A leading zero digit after the prefix of a node id is accepted. *)
Lemma decode_longer_node_id a :
  is_u256 a → decode_account (text_of "node_1" ++ account_body a) = Some a.
Proof.
  intros Ha.
  assert (Hp : text_of "node_1" = text_of "node_" ++ map account_encode [0]) by done.
  unfold account_body. rewrite Hp, <- app_assoc, <- map_app. cbn [app].
  rewrite decode_account_prefixed by (unfold account_prefixes; set_solver || by right).
  apply decode_body_value; [done | | | by left | by rewrite horner_zero, horner_account_number].
  - constructor; [unfold is_digit; lia | apply Forall_rev, digits_are_digits].
  - by rewrite length_rev, length_digits.
Qed.

(** A text of 65 characters decodes to an account exactly when it is one of the
    three prefixes followed by the digits encode_account writes for that 256-bit
    number; what encode_account and to_node_id write decodes to the number, and so
    does a node id with a further leading digit 1, since the length is checked for
    the account prefixes only. *)
Theorem account_string_exact s a :
  (length s = 65%nat →
   decode_account s = Some a ↔
   is_u256 a ∧ ∃ p, p ∈ account_prefixes ∧ s = p ++ drop 5 (encode_account a)) ∧
  (is_u256 a →
   length (encode_account a) = 65%nat ∧ decode_account (encode_account a) = Some a ∧
   decode_node_id (to_node_id a) = Some a ∧
   decode_node_id (text_of "node_1" ++ drop 5 (encode_account a)) = Some a).
Proof.
  assert (Hbody : is_u256 a → drop 5 (encode_account a) = account_body a)
    by (intros Ha; by rewrite encode_account_value).
  assert (Hdec : ∀ p, p ∈ account_prefixes → is_u256 a → decode_account (p ++ account_body a) = Some a).
  { intros p Hp Ha. rewrite decode_account_prefixed by (done || (left; apply length_account_body)).
    apply decode_body_exact; [apply length_account_body | done]. }
  split.
  - intros Hl. split.
    + intros Hs. destruct (decode_account_has_prefix s a Hs) as (p & body & Hp & ->).
      assert (Hlen : length p = 5%nat) by (unfold account_prefixes in Hp; set_solver).
      rewrite length_app in Hl. rewrite decode_account_prefixed in Hs by (done || (left; lia)).
      apply decode_body_exact in Hs as [Ha ->]; [| lia]. split; [done |]. exists p. by rewrite Hbody.
    + intros (Ha & p & Hp & ->). rewrite Hbody by done. by apply Hdec.
  - intros Ha. unfold decode_node_id, to_node_id. rewrite Hbody, encode_account_value by done. split_and!.
    + rewrite length_app, length_account_body. done.
    + apply Hdec; [by left | done].
    + apply (Hdec (text_of "node_")); [right; right; by left | done].
    + by apply decode_longer_node_id.
Qed.
End account_strings.
