(* ===== verification/BlockCodec.v ===== *)
(** * Block encodings ([lib/blocks.cpp], [secure/common.cpp])

    The byte formats of blocks, block details and sidebands: [serialize] and
    the stream constructors of every kind, [serialize_block] and
    [deserialize_block], the packing of the state block flags.  The theorems
    are the round trips, the sizes the database layout relies on, and what the
    digest input of a block determines. *)

From S2P Require Import Prelude Blocks.

(** ** Operations *)

(** [block::serialize].  The work nonce of the legacy kinds is written in host
    byte order, that of a state block big endian. *)
Definition send_block_serialize (h : send_hashables) (s w : Z) : bytes :=
  to_be 32 (send_previous h) ++ to_be 32 (send_destination h) ++
  to_be 16 (send_balance h) ++ to_be 64 s ++ to_le 8 w.
Definition receive_block_serialize (h : receive_hashables) (s w : Z) : bytes :=
  to_be 32 (receive_previous h) ++ to_be 32 (receive_source h) ++ to_be 64 s ++ to_le 8 w.
Definition open_block_serialize (h : open_hashables) (s w : Z) : bytes :=
  to_be 32 (open_source h) ++ to_be 32 (open_representative h) ++
  to_be 32 (open_account h) ++ to_be 64 s ++ to_le 8 w.
Definition change_block_serialize (h : change_hashables) (s w : Z) : bytes :=
  to_be 32 (change_previous h) ++ to_be 32 (change_representative h) ++
  to_be 64 s ++ to_le 8 w.
Definition state_block_serialize (h : state_hashables) (s w : Z) : bytes :=
  to_be 32 (state_account h) ++ to_be 32 (state_previous h) ++
  to_be 32 (state_representative h) ++ to_be 16 (state_balance h) ++
  to_be 32 (state_link h) ++ to_be 64 s ++ to_be 8 w.

#[global] Arguments send_block_serialize h s w /.
#[global] Arguments receive_block_serialize h s w /.
#[global] Arguments open_block_serialize h s w /.
#[global] Arguments change_block_serialize h s w /.
#[global] Arguments state_block_serialize h s w /.

Definition block_serialize (b : block) : bytes :=
  match b with
  | send_block h s w => send_block_serialize h s w
  | receive_block h s w => receive_block_serialize h s w
  | open_block h s w => open_block_serialize h s w
  | change_block h s w => change_block_serialize h s w
  | state_block h s w => state_block_serialize h s w
  end.

(** The stream constructors of the hashables: a failed read is the error flag,
    here [None]. *)
Definition send_hashables_read (s : bytes) : option (send_hashables * bytes) :=
  '(previous, s) ← read_be 32 s;
  '(destination, s) ← read_be 32 s;
  '(balance, s) ← read_be 16 s;
  Some (SendHashables previous destination balance, s).
Definition receive_hashables_read (s : bytes) : option (receive_hashables * bytes) :=
  '(previous, s) ← read_be 32 s;
  '(source, s) ← read_be 32 s;
  Some (ReceiveHashables previous source, s).
Definition open_hashables_read (s : bytes) : option (open_hashables * bytes) :=
  '(source, s) ← read_be 32 s;
  '(representative, s) ← read_be 32 s;
  '(account, s) ← read_be 32 s;
  Some (OpenHashables source representative account, s).
Definition change_hashables_read (s : bytes) : option (change_hashables * bytes) :=
  '(previous, s) ← read_be 32 s;
  '(representative, s) ← read_be 32 s;
  Some (ChangeHashables previous representative, s).
Definition state_hashables_read (s : bytes) : option (state_hashables * bytes) :=
  '(account, s) ← read_be 32 s;
  '(previous, s) ← read_be 32 s;
  '(representative, s) ← read_be 32 s;
  '(balance, s) ← read_be 16 s;
  '(link, s) ← read_be 32 s;
  Some (StateHashables account previous representative balance link, s).

(** The stream constructors of the blocks. *)
Definition send_block_read (s : bytes) : option (block * bytes) :=
  '(h, s) ← send_hashables_read s;
  '(signature, s) ← read_be 64 s;
  '(work, s) ← read_le 8 s;
  Some (send_block h signature work, s).
Definition receive_block_read (s : bytes) : option (block * bytes) :=
  '(h, s) ← receive_hashables_read s;
  '(signature, s) ← read_be 64 s;
  '(work, s) ← read_le 8 s;
  Some (receive_block h signature work, s).
Definition open_block_read (s : bytes) : option (block * bytes) :=
  '(h, s) ← open_hashables_read s;
  '(signature, s) ← read_be 64 s;
  '(work, s) ← read_le 8 s;
  Some (open_block h signature work, s).
Definition change_block_read (s : bytes) : option (block * bytes) :=
  '(h, s) ← change_hashables_read s;
  '(signature, s) ← read_be 64 s;
  '(work, s) ← read_le 8 s;
  Some (change_block h signature work, s).
Definition state_block_read (s : bytes) : option (block * bytes) :=
  '(h, s) ← state_hashables_read s;
  '(signature, s) ← read_be 64 s;
  '(work, s) ← read_be 8 s;
  Some (state_block h signature work, s).

(** The [deserialize] methods read the same fields into an existing block; the
    result is what the object holds when no error is returned. *)
Definition send_block_deserialize (s : bytes) : option (block * bytes) :=
  '(previous, s) ← read_be 32 s;
  '(destination, s) ← read_be 32 s;
  '(balance, s) ← read_be 16 s;
  '(signature, s) ← read_be 64 s;
  '(work, s) ← read_le 8 s;
  Some (send_block (SendHashables previous destination balance) signature work, s).
Definition receive_block_deserialize (s : bytes) : option (block * bytes) :=
  '(previous, s) ← read_be 32 s;
  '(source, s) ← read_be 32 s;
  '(signature, s) ← read_be 64 s;
  '(work, s) ← read_le 8 s;
  Some (receive_block (ReceiveHashables previous source) signature work, s).
Definition open_block_deserialize (s : bytes) : option (block * bytes) :=
  '(source, s) ← read_be 32 s;
  '(representative, s) ← read_be 32 s;
  '(account, s) ← read_be 32 s;
  '(signature, s) ← read_be 64 s;
  '(work, s) ← read_le 8 s;
  Some (open_block (OpenHashables source representative account) signature work, s).
Definition change_block_deserialize (s : bytes) : option (block * bytes) :=
  '(previous, s) ← read_be 32 s;
  '(representative, s) ← read_be 32 s;
  '(signature, s) ← read_be 64 s;
  '(work, s) ← read_le 8 s;
  Some (change_block (ChangeHashables previous representative) signature work, s).
Definition state_block_deserialize (s : bytes) : option (block * bytes) :=
  '(account, s) ← read_be 32 s;
  '(previous, s) ← read_be 32 s;
  '(representative, s) ← read_be 32 s;
  '(balance, s) ← read_be 16 s;
  '(link, s) ← read_be 32 s;
  '(signature, s) ← read_be 64 s;
  '(work, s) ← read_be 8 s;
  Some (state_block (StateHashables account previous representative balance link)
          signature work, s).

(** [deserialize_block (stream, type)]; a type that is not a block kind gives
    the null pointer. *)
Definition deserialize_block_typed (t : option block_type) (s : bytes) : option (block * bytes) :=
  match t with
  | Some bt_receive => receive_block_read s
  | Some bt_send => send_block_read s
  | Some bt_open => open_block_read s
  | Some bt_change => change_block_read s
  | Some bt_state => state_block_read s
  | _ => None
  end.

Definition serialize_block (b : block) : bytes :=
  to_be 1 (block_type_code (block_type_of b)) ++ block_serialize b.

Definition deserialize_block (s : bytes) : option (block * bytes) :=
  '(t, s) ← read_be 1 s;
  deserialize_block_typed (block_type_of_code t) s.

(** [block::size (block_type)]; 0 is returned for the values no block has. *)
Definition block_size (t : block_type) : nat :=
  match t with
  | bt_invalid | bt_not_a_block => 0
  | bt_send => 32 + 32 + 16 + 64 + 8
  | bt_receive => 32 + 32 + 64 + 8
  | bt_change => 32 + 32 + 64 + 8
  | bt_open => 32 + 32 + 32 + 64 + 8
  | bt_state => 32 + 32 + 32 + 16 + 32 + 64 + 8
  end%nat.

(** Which sideband fields the format of a type has. *)
Definition stores_account (t : block_type) : bool :=
  negb (bool_decide (t = bt_state)) && negb (bool_decide (t = bt_open)).
Definition stores_height (t : block_type) : bool := negb (bool_decide (t = bt_open)).
Definition stores_balance (t : block_type) : bool :=
  bool_decide (t = bt_receive) || bool_decide (t = bt_change) || bool_decide (t = bt_open).
Definition stores_details (t : block_type) : bool := bool_decide (t = bt_state).

(** [block_sideband::size]. *)
Definition sideband_size (t : block_type) : nat :=
  (32 + (if stores_account t then 32 else 0) + (if stores_height t then 8 else 0) +
   (if stores_balance t then 16 else 0) + 8 + (if stores_details t then 1 + 1 else 0))%nat.

(** [block_sideband::serialize]. *)
Definition sideband_serialize (t : block_type) (sb : block_sideband) : bytes :=
  to_be 32 (sb_successor sb) ++
  (if stores_account t then to_be 32 (sb_account sb) else []) ++
  (if stores_height t then to_be 8 (sb_height sb) else []) ++
  (if stores_balance t then to_be 16 (sb_balance sb) else []) ++
  to_be 8 (sb_timestamp sb) ++
  (if stores_details t
   then to_be 1 (details_packed (sb_details sb)) ++ to_be 1 (sb_source_epoch sb) else []).

(** [block_sideband::deserialize] into a freshly constructed sideband. *)
Definition sideband_deserialize (t : block_type) (s : bytes) : option (block_sideband * bytes) :=
  '(successor, s) ← read_be 32 s;
  '(account, s) ← (if stores_account t then read_be 32 s else Some (0, s));
  '(height, s) ← (if stores_height t then read_be 8 s else Some (1, s));
  '(balance, s) ← (if stores_balance t then read_be 16 s else Some (0, s));
  '(timestamp, s) ← read_be 8 s;
  if stores_details t then
    '(packed, s) ← read_be 1 s;
    '(source_epoch, s) ← read_be 1 s;
    Some (BlockSideband successor account balance height timestamp
            (details_unpack packed) source_epoch, s)
  else
    Some (BlockSideband successor account balance height timestamp
            default_details epoch_0, s).

(** The fields of a sideband that survive storage under type [t]; the others
    come back as the defaults of a fresh object. *)
Definition sideband_stored (t : block_type) (sb : block_sideband) : block_sideband :=
  BlockSideband (sb_successor sb)
    (if stores_account t then sb_account sb else 0)
    (if stores_balance t then sb_balance sb else 0)
    (if stores_height t then sb_height sb else 1)
    (sb_timestamp sb)
    (if stores_details t then sb_details sb else default_details)
    (if stores_details t then sb_source_epoch sb else epoch_0).

(** ** Round trips *)

(** Run the reads of a parser over the bytes a serializer produced. *)
Ltac codec_run :=
  repeat first
    [ progress simpl
    | rewrite <- !app_assoc
    | rewrite read_be256 by done | rewrite read_be128 by done
    | rewrite read_be512 by done | rewrite read_be64 by done
    | rewrite read_le64 by done | rewrite read_be8 by done ].

(** Both ways of reading a block agree on every input. *)
Lemma block_read_deserialize s :
  send_block_read s = send_block_deserialize s ∧
  receive_block_read s = receive_block_deserialize s ∧
  open_block_read s = open_block_deserialize s ∧
  change_block_read s = change_block_deserialize s ∧
  state_block_read s = state_block_deserialize s.
Proof.
  unfold send_block_read, send_block_deserialize, send_hashables_read, receive_block_read,
    receive_block_deserialize, receive_hashables_read, open_block_read, open_block_deserialize,
    open_hashables_read, change_block_read, change_block_deserialize, change_hashables_read,
    state_block_read, state_block_deserialize, state_hashables_read.
  split_and!; repeat match goal with
    | |- context [read_be ?n ?x] => destruct (read_be n x) as [[? ?] |]; simpl; [| done]
    end; done.
Qed.

Lemma deserialize_block_typed_serialize b s :
  block_wf b →
  deserialize_block_typed (Some (block_type_of b)) (block_serialize b ++ s) = Some (b, s).
Proof.
  intros (Hs & Hw & Hf).
  destruct b as [[] | [] | [] | [] | []]; simpl in *; destruct_and?;
    unfold send_block_read, receive_block_read, open_block_read, change_block_read,
      state_block_read, send_hashables_read, receive_hashables_read, open_hashables_read,
      change_hashables_read, state_hashables_read; codec_run; done.
Qed.

Lemma length_block_serialize b : length (block_serialize b) = block_size (block_type_of b).
Proof. destruct b; simpl; rewrite ?length_app, ?length_to_be, ?length_to_le; done. Qed.

Lemma block_type_of_code_inv z t : block_type_of_code z = Some t → z = block_type_code t.
Proof.
  unfold block_type_of_code. intros Ht.
  repeat case_match; simplify_eq; simpl; lia.
Qed.

(** Peel the reads off a successful parse, keeping what each one consumed. *)
Ltac parse_inv H :=
  repeat match type of H with
  | mbind _ (read_be ?n ?s) = Some _ =>
      let Hr := fresh "Hr" in
      destruct (read_be n s) as [[? ?] |] eqn:Hr; simpl in H; [| discriminate H];
      apply read_be_Some in Hr as [-> ?]
  | mbind _ (read_le ?n ?s) = Some _ =>
      let Hr := fresh "Hr" in
      destruct (read_le n s) as [[? ?] |] eqn:Hr; simpl in H; [| discriminate H];
      apply read_le_Some in Hr as [-> ?]
  end.

Lemma deserialize_block_typed_inv t s b s' :
  deserialize_block_typed t s = Some (b, s') →
  t = Some (block_type_of b) ∧ s = block_serialize b ++ s' ∧ block_wf b.
Proof.
  pose proof (block_read_deserialize s) as (Hs & Hr & Ho & Hc & Hst).
  destruct t as [[] |]; simpl; try done; rewrite ?Hs, ?Hr, ?Ho, ?Hc, ?Hst; clear;
    unfold send_block_deserialize, receive_block_deserialize, open_block_deserialize,
      change_block_deserialize, state_block_deserialize; intros Hp; parse_inv Hp; simplify_eq/=; rewrite <- ?app_assoc;
    unfold block_wf; simpl; done.
Qed.

(** C38: The block parser accepts a stream exactly when it is the serialization of
    the well-formed block it returns followed by the rest, for all five kinds, and a
    serialization has the size block::size states plus the type byte. *)
Theorem block_codec_exact s b rest :
  (deserialize_block s = Some (b, rest) ↔ block_wf b ∧ s = serialize_block b ++ rest) ∧
  length (serialize_block b) = S (block_size (block_type_of b)).
Proof.
  unfold deserialize_block, serialize_block. split; [split |].
  - intros Hp. parse_inv Hp. apply deserialize_block_typed_inv in Hp as (Ht & -> & Hwf).
    apply block_type_of_code_inv in Ht as ->. by rewrite <- app_assoc.
  - intros [Hwf ->]. rewrite <- app_assoc, read_be8 by (by destruct b). simpl.
    rewrite block_type_of_code_code. by apply deserialize_block_typed_serialize.
  - by rewrite length_app, length_block_serialize, length_to_be.
Qed.

Lemma length_sideband_serialize t sb : length (sideband_serialize t sb) = sideband_size t.
Proof.
  unfold sideband_serialize, sideband_size.
  destruct t; simpl; rewrite ?length_app, ?length_to_be; done.
Qed.

(** ** Block details *)

Definition all_flags (e : Z) : list block_details :=
  [BlockDetails e false false false; BlockDetails e false false true;
   BlockDetails e false true false; BlockDetails e false true true;
   BlockDetails e true false false; BlockDetails e true false true;
   BlockDetails e true true false; BlockDetails e true true true].

Lemma elem_of_all_flags d : In d (all_flags (details_epoch d)).
Proof. destruct d as [? [] [] []]; simpl; tauto. Qed.

(** A check of every flag combination and every epoch of five bits. *)
Lemma details_check (P : block_details → bool) d :
  forallb (λ e, forallb P (all_flags e)) (seqZ 0 32) = true →
  0 <= details_epoch d < 32 → P d = true.
Proof.
  intros Hall He. pose proof (forall_below _ _ _ Hall He) as Hd.
  cbv beta in Hd. rewrite forallb_forall in Hd. by apply Hd, elem_of_all_flags.
Qed.

Lemma details_unpack_packed d :
  0 <= details_epoch d < 32 → details_unpack (details_packed d) = d.
Proof.
  intros He. pose (P := λ d, bool_decide (details_unpack (details_packed d) = d)).
  assert (P d = true) as Hp by (apply details_check; [by vm_compute | done]).
  by apply bool_decide_eq_true in Hp.
Qed.

Lemma details_packed_range d : 0 <= details_epoch d < 32 → is_u8 (details_packed d).
Proof.
  intros He. unfold is_u8. pose (P := λ d, (0 <=? details_packed d) && (details_packed d <? u8_mod)).
  assert (P d = true) as Hp by (apply details_check; [by vm_compute | done]).
  unfold P in Hp. lia.
Qed.

Lemma details_packed_unpack z : is_u8 z → details_packed (details_unpack z) = z.
Proof.
  intros Hz. apply Z.eqb_eq.
  apply (forall_below (λ z, details_packed (details_unpack z) =? z) 256);
    [by vm_compute | done].
Qed.

Lemma sideband_roundtrip_lemma t sb s :
  sideband_wf sb →
  sideband_deserialize t (sideband_serialize t sb ++ s) = Some (sideband_stored t sb, s).
Proof.
  intros (? & ? & ? & ? & ? & Hd & ?).
  pose proof (details_packed_range _ Hd) as Hp.
  unfold sideband_deserialize, sideband_serialize, sideband_stored.
  destruct t; simpl; codec_run; rewrite ?details_unpack_packed by done; done.
Qed.

(** A serialized sideband reads back, in the size [block_sideband::size] states. *)
Theorem sideband_roundtrip t sb s :
  sideband_wf sb →
  sideband_deserialize t (sideband_serialize t sb ++ s) = Some (sideband_stored t sb, s) ∧
  length (sideband_serialize t sb) = sideband_size t ∧
  details_unpack (details_packed (sb_details sb)) = sb_details sb ∧
  is_u8 (details_packed (sb_details sb)).
Proof.
  intros Hsb. pose proof Hsb as (_ & _ & _ & _ & _ & Hd & _). split_and!.
  - by apply sideband_roundtrip_lemma.
  - apply length_sideband_serialize.
  - by apply details_unpack_packed.
  - by apply details_packed_range.
Qed.

(** ** What the digest input determines

    Two blocks with the same digest input carry the same hashables, except
    that a receive and a change block on the same predecessor are fed to the
    hash in the same 64 bytes. *)

(** Equality of everything [hash] covers, signature and work left out. *)
Definition same_hashables (a b : block) : Prop :=
  match a, b with
  | send_block h _ _, send_block h' _ _ => h = h'
  | receive_block h _ _, receive_block h' _ _ => h = h'
  | open_block h _ _, open_block h' _ _ => h = h'
  | change_block h _ _, change_block h' _ _ => h = h'
  | state_block h _ _, state_block h' _ _ => h = h'
  | _, _ => False
  end.

(** A receive and a change block whose second field is the same number. *)
Definition receive_change_twins (a b : block) : Prop :=
  match a, b with
  | receive_block h _ _, change_block h' _ _ =>
      receive_previous h = change_previous h' ∧ receive_source h = change_representative h'
  | change_block h _ _, receive_block h' _ _ =>
      change_previous h = receive_previous h' ∧ change_representative h = receive_source h'
  | _, _ => False
  end.

Lemma to_be_app_inj n x y s t :
  0 <= x < 2 ^ (Z.of_nat n * 8) → 0 <= y < 2 ^ (Z.of_nat n * 8) →
  to_be n x ++ s = to_be n y ++ t → x = y ∧ s = t.
Proof.
  intros Hx Hy He.
  pose proof (read_be_app n x s Hx) as H1. rewrite He in H1.
  rewrite read_be_app in H1 by done. by simplify_eq.
Qed.

Lemma to_be_app_inj256 x y s t :
  is_u256 x → is_u256 y → to_be 32 x ++ s = to_be 32 y ++ t → x = y ∧ s = t.
Proof. exact (to_be_app_inj 32 x y s t). Qed.
Lemma to_be_app_inj128 x y s t :
  is_u128 x → is_u128 y → to_be 16 x ++ s = to_be 16 y ++ t → x = y ∧ s = t.
Proof. exact (to_be_app_inj 16 x y s t). Qed.
Lemma to_be_inj256 x y : is_u256 x → is_u256 y → to_be 32 x = to_be 32 y → x = y.
Proof. intros ?? He. by apply (to_be_app_inj256 x y [] []); rewrite ?app_nil_r. Qed.
Lemma to_be_inj128 x y : is_u128 x → is_u128 y → to_be 16 x = to_be 16 y → x = y.
Proof. intros ?? He. by apply (to_be_app_inj128 x y [] []); rewrite ?app_nil_r. Qed.

Ltac fields_inv :=
  repeat match goal with
  | H : to_be 32 _ ++ _ = to_be 32 _ ++ _ |- _ => apply to_be_app_inj256 in H as [? H]; [| done..]
  | H : to_be 16 _ ++ _ = to_be 16 _ ++ _ |- _ => apply to_be_app_inj128 in H as [? H]; [| done..]
  | H : to_be 32 _ = to_be 32 _ |- _ => apply to_be_inj256 in H; [| done..]
  | H : to_be 16 _ = to_be 16 _ |- _ => apply to_be_inj128 in H; [| done..]
  end.

(** The bytes hashed for a block determine its hashables, except that a receive
    and a change block with the same two fields hash the same bytes. *)
Theorem hash_input_determines a b :
  block_wf a → block_wf b →
  hash_input a = hash_input b ↔ same_hashables a b ∨ receive_change_twins a b.
Proof.
  intros (_ & _ & Ha) (_ & _ & Hb). split.
  - intros He. pose proof (f_equal length He) as Hl.
    destruct a as [[] | [] | [] | [] | []], b as [[] | [] | [] | [] | []]; simpl in *;
      rewrite ?length_app, ?length_to_be in Hl; try (exfalso; lia); clear Hl;
      destruct_and?; fields_inv; simplify_eq; first [by left | by right].
  - destruct a as [[] | [] | [] | [] | []], b as [[] | [] | [] | [] | []]; simpl;
      intros [He | He]; try done; destruct_and?; simplify_eq; done.
Qed.

(** ** Witnesses *)

Definition sample_state_block : block := state_block (StateHashables 5 77 9 1000 13) 123456 42.
Definition sample_receive_block : block := receive_block (ReceiveHashables 77 13) 123456 42.
Definition sample_change_block : block := change_block (ChangeHashables 77 13) 99 42.

Lemma sideband_roundtrip_witness :
  sideband_deserialize bt_state
    (sideband_serialize bt_state (BlockSideband 1 2 3 4 5 (BlockDetails epoch_1 true false false) epoch_2)
     ++ []) =
  Some (BlockSideband 1 0 0 4 5 (BlockDetails epoch_1 true false false) epoch_2, []).
Proof.
  apply (sideband_roundtrip bt_state
    (BlockSideband 1 2 3 4 5 (BlockDetails epoch_1 true false false) epoch_2) []).
  vm_compute. repeat split; congruence.
Defined.

Lemma hash_input_determines_witness :
  hash_input sample_receive_block = hash_input sample_change_block.
Proof.
  apply (hash_input_determines sample_receive_block sample_change_block).
  - vm_compute. repeat split; congruence.
  - vm_compute. repeat split; congruence.
  - right. vm_compute. split; reflexivity.
Defined.
