(* ===== verification/Traversal.v ===== *)
(** * Parallel traversal of a table ([secure/store_partial.hpp])

    [parallel_traversal] cuts the key space into one range per thread and runs
    an action on the entries of each range.  Every entry is handled by exactly
    one thread. *)

From S2P Require Import Prelude.

(** [thread_count], from the number of hardware threads. *)
Definition thread_count (hardware_concurrency : Z) : Z :=
  Z.max 10 (Z.min 40 ((10 * hardware_concurrency) mod 2 ^ 32)).

Definition traversal_split (threads : Z) : Z := (u256_mod - 1) / threads.

(** Start, end and [is_last] of a thread. *)
Definition traversal_range (threads thread : Z) : Z * Z * bool :=
  (wrap256 (thread * traversal_split threads), wrap256 ((thread + 1) * traversal_split threads),
   thread =? threads - 1).

(** The iterator from [begin (start)] to [begin (end)], or to the end of the table
    for the last thread. *)
Definition in_traversal_range {A} (r : Z * Z * bool) (x : Z * A) : Prop :=
  r.1.1 <= x.1 ∧ (r.2 = true ∨ x.1 < r.1.2).
#[export] Instance in_traversal_range_dec {A} r (x : Z * A) : Decision (in_traversal_range r x).
Proof. unfold in_traversal_range. apply _. Defined.

Definition key_order {A} (x y : Z * A) : Prop := x.1 <= y.1.
#[export] Instance key_order_dec {A} : RelDecision (@key_order A).
Proof. intros x y. unfold key_order. apply _. Defined.

(** [for_each_par]: the entries every thread sees, in key order. *)
Definition for_each_par {A} (hardware_concurrency : Z) (t : gmap Z A) : list (list (Z * A)) :=
  let threads := thread_count hardware_concurrency in
  map (λ thread, filter (in_traversal_range (traversal_range threads thread))
                   (merge_sort key_order (map_to_list t)))
    (seqZ 0 threads).

(** ** Every entry once *)

Lemma filter_split_perm {A} (P Q R : A → Prop) `{!∀ x, Decision (P x), !∀ x, Decision (Q x),
    !∀ x, Decision (R x)} (l : list A) :
  (∀ x, x ∈ l → (R x ↔ P x ∨ Q x) ∧ ¬ (P x ∧ Q x)) → filter P l ++ filter Q l ≡ₚ filter R l.
Proof.
  induction l as [| x l IH]; intros Hx; [done |].
  assert (Hl : filter P l ++ filter Q l ≡ₚ filter R l).
  { apply IH. intros y Hy. apply Hx. by right. }
  destruct (Hx x ltac:(by left)) as [Hr Hd]. rewrite !filter_cons.
  destruct (decide (P x)), (decide (Q x)), (decide (R x)); try tauto.
  - simpl. by rewrite Hl.
  - rewrite <- Permutation_middle. by rewrite Hl.
Qed.

Lemma filter_all {A} (P : A → Prop) `{!∀ x, Decision (P x)} (l : list A) :
  (∀ x, x ∈ l → P x) → filter P l = l.
Proof.
  induction l as [| x l IH]; intros Hx; [done |]. rewrite filter_cons_True by (apply Hx; by left).
  f_equal. apply IH. intros y Hy. apply Hx. by right.
Qed.

Lemma filter_none {A} (P : A → Prop) `{!∀ x, Decision (P x)} (l : list A) :
  (∀ x, x ∈ l → ¬ P x) → filter P l = [].
Proof.
  induction l as [| x l IH]; intros Hx; [done |]. rewrite filter_cons_False by (apply Hx; by left).
  apply IH. intros y Hy. apply Hx. by right.
Qed.

Lemma thread_count_range hw : 10 <= thread_count hw <= 40.
Proof. unfold thread_count. lia. Qed.

Section ranges.
Context {A : Type} (threads : Z) (Ht : 10 <= threads <= 40).

Local Abbreviation sp := (traversal_split threads).

Lemma split_bounds : 0 < sp ∧ threads * sp < u256_mod.
Proof using Ht.
  unfold traversal_split. split.
  - apply Z.div_str_pos. unfold u256_mod. lia.
  - pose proof (Z.mul_div_le (u256_mod - 1) threads). lia.
Qed.

(** No start or end of a range wraps. *)
Lemma traversal_range_value thread :
  0 <= thread < threads →
  traversal_range threads thread = (thread * sp, (thread + 1) * sp, thread =? threads - 1).
Proof using Ht.
  intros Hth. pose proof split_bounds as [Hs Hb]. unfold traversal_range, wrap256.
  rewrite !Z.mod_small by nia. done.
Qed.

Lemma ranges_prefix (l : list (Z * A)) (n : nat) :
  (∀ x, x ∈ l → 0 <= x.1) → Z.of_nat n < threads →
  concat (map (λ thread, filter (in_traversal_range (traversal_range threads thread)) l)
            (seqZ 0 (Z.of_nat n))) ≡ₚ
  filter (λ x, x.1 < Z.of_nat n * sp) l.
Proof using Ht.
  intros Hl. pose proof split_bounds as [Hs _]. induction n as [| n IH]; intros Hn.
  - simpl. rewrite filter_none; [done |]. intros x Hx. specialize (Hl x Hx). lia.
  - rewrite seqZ_S, map_app, concat_app, IH by lia. simpl. rewrite app_nil_r.
    apply filter_split_perm. intros x Hx. rewrite traversal_range_value by lia.
    unfold in_traversal_range. simpl. replace (Z.of_nat n =? threads - 1) with false by lia.
    split; [| nia]. split; [| nia]. intros Hlt.
    destruct (Z.lt_ge_cases x.1 (Z.of_nat n * sp)); [by left |]. right. split; [done |]. right. lia.
Qed.

Lemma ranges_cover (l : list (Z * A)) :
  (∀ x, x ∈ l → 0 <= x.1) →
  concat (map (λ thread, filter (in_traversal_range (traversal_range threads thread)) l)
            (seqZ 0 threads)) ≡ₚ l.
Proof using Ht.
  intros Hl. pose proof split_bounds as [Hs _].
  replace (seqZ 0 threads) with (seqZ 0 (Z.of_nat (S (Z.to_nat (threads - 1))))) by (f_equal; lia).
  rewrite seqZ_S, map_app, concat_app, ranges_prefix by (done || lia). simpl. rewrite app_nil_r.
  transitivity (filter (λ x : Z * A, True) l); [| by rewrite filter_all].
  apply filter_split_perm. intros x Hx. rewrite traversal_range_value by lia.
  unfold in_traversal_range. simpl. rewrite Z2Nat.id by lia. rewrite Z.eqb_refl.
  split; [| lia]. split; [| done]. intros _.
  destruct (Z.lt_ge_cases x.1 ((threads - 1) * sp)); [by left |]. right. split; [done | by left].
Qed.
End ranges.

Lemma for_each_par_perm {A} hw (t : gmap Z A) :
  (∀ k, is_Some (t !! k) → is_u256 k) → concat (for_each_par hw t) ≡ₚ map_to_list t.
Proof.
  intros Hk. unfold for_each_par. pose proof (thread_count_range hw).
  rewrite ranges_cover; [apply merge_sort_Permutation | done |].
  intros [k a]. rewrite merge_sort_Permutation. intros Hx%elem_of_map_to_list. simpl.
  apply (Hk k). by eexists.
Qed.

(** The ranges of a parallel traversal hand every entry of the table to exactly
    one of 10 to 40 threads. *)
Theorem traversal_covers_once {A} hw (t : gmap Z A) :
  (∀ k, is_Some (t !! k) → is_u256 k) →
  concat (for_each_par hw t) ≡ₚ map_to_list t ∧ NoDup (concat (for_each_par hw t)).*1 ∧
  (10 <= length (for_each_par hw t) <= 40)%nat.
Proof.
  intros Hk. pose proof (for_each_par_perm hw t Hk) as Hp. split; [done | split].
  - rewrite Hp. apply NoDup_fst_map_to_list.
  - unfold for_each_par. pose proof (thread_count_range hw). rewrite length_map, length_seqZ. lia.
Qed.

Lemma traversal_covers_once_witness :
  concat (for_each_par 4 ({[ 5 := true; 2 ^ 255 := false ]} : gmap Z bool)) ≡ₚ
  map_to_list ({[ 5 := true; 2 ^ 255 := false ]} : gmap Z bool).
Proof.
  apply (traversal_covers_once 4 ({[ 5 := true; 2 ^ 255 := false ]} : gmap Z bool)).
  intros k [v Hv]. rewrite lookup_insert_Some, lookup_singleton_Some in Hv.
  destruct Hv as [[<- _] | [_ [<- _]]]; vm_compute; split; congruence.
Defined.
