(* ===== verification/Prioritization.v ===== *)
(** * The election queue ([node/prioritization.hpp], [node/prioritization.cpp])

    Blocks wait for an election in 129 buckets by balance; each bucket is an
    ordered set by arrival time, and the buckets are served round robin. *)

From S2P Require Import Prelude Blocks BlockCodec.

(** ** State *)

(** [value_type]: a block in memory (its sideband may be missing) and a time. *)
Record value_type := ValueType {
  va_time : Z;
  va_block : block;
  va_sideband : option block_sideband;
}.

Record prioritization := Prioritization {
  pr_buckets : list (list value_type);
  pr_minimums : list Z;
  pr_schedule : list nat;
  pr_current : nat;
  pr_maximum : Z;
}.

Definition set_buckets (b : list (list value_type)) (p : prioritization) : prioritization :=
  Prioritization b (pr_minimums p) (pr_schedule p) (pr_current p) (pr_maximum p).
Definition set_current (c : nat) (p : prioritization) : prioritization :=
  Prioritization (pr_buckets p) (pr_minimums p) (pr_schedule p) c (pr_maximum p).

Section prioritization.
Context `{Crypto}.

(** [operator<]. *)
Definition value_lt (v w : value_type) : bool :=
  (va_time v <? va_time w) ||
  (va_time v =? va_time w) && (block_hash (va_block v) <? block_hash (va_block w)).

(** [std::set::emplace]: nothing happens when an equivalent value is there. *)
Fixpoint set_emplace (v : value_type) (l : list value_type) : list value_type :=
  match l with
  | [] => [v]
  | w :: l' => if value_lt v w then v :: l
               else if value_lt w v then w :: set_emplace v l' else l
  end.

(** ** Operations *)

Definition next (p : prioritization) : prioritization :=
  let c := S (pr_current p) in
  set_current (if Nat.eqb c (length (pr_schedule p)) then 0%nat else c) p.

(** [buckets[*current]]. *)
Definition current_bucket (p : prioritization) : list value_type :=
  default [] (i ← pr_schedule p !! pr_current p; pr_buckets p !! i).

(** The loop of [seek]: at most [n] more steps while the bucket is empty. *)
Fixpoint seek_loop (n : nat) (p : prioritization) : prioritization :=
  match n with
  | O => p
  | S n => if bool_decide (current_bucket p = []) then seek_loop n (next p) else p
  end.

Definition seek (p : prioritization) : prioritization :=
  seek_loop (length (pr_schedule p)) (next p).

(** [populate_schedule] and the constructor: minimums 0, 1, 2, 4, ..., 2^127. *)
Definition bucket_count : nat := 129.

Definition populate_schedule (n : nat) : list nat := seq 0 n.

Fixpoint push_minimums (n : nat) (minimum : Z) : list Z :=
  match n with
  | O => []
  | S n => minimum :: push_minimums n (wrap128 (Z.shiftl minimum 1))
  end.

Definition prioritization_new (maximum : Z) : prioritization :=
  Prioritization (replicate bucket_count []) (0 :: push_minimums (bucket_count - 1) 1)
    (populate_schedule bucket_count) 0 maximum.

Definition prioritization_empty (p : prioritization) : bool :=
  forallb (λ b, bool_decide (b = [])) (pr_buckets p).

(** [std::upper_bound]: the position of the first minimum above the balance. *)
Fixpoint upper_bound (l : list Z) (balance : Z) : nat :=
  match l with
  | [] => 0
  | m :: l => if balance <? m then 0 else S (upper_bound l balance)
  end.

(** The balance a block is filed under; a block of the other kinds must have its
    sideband. *)
Definition push_balance (b : block) (sb : option block_sideband) : outcome Z :=
  match b with
  | state_block _ _ _ | send_block _ _ _ => Ok (block_balance b)
  | _ => s ← of_option sb; Ok (sb_balance s)
  end.

Definition push (p : prioritization) (time : Z) (b : block) (sb : option block_sideband) :
    outcome prioritization :=
  let was_empty := prioritization_empty p in
  balance ← push_balance b sb;
  let index := (upper_bound (pr_minimums p) balance - 1)%nat in
  bucket ← of_option (pr_buckets p !! index);
  let bucket := set_emplace (ValueType time b sb) bucket in
  let bucket :=
    if Z.max 1 (pr_maximum p / Z.of_nat (length (pr_buckets p))) <? Z.of_nat (length bucket)
    then take (length bucket - 1) bucket else bucket in
  let p := set_buckets (<[index := bucket]> (pr_buckets p)) p in
  Ok (if was_empty then seek p else p).

Definition top (p : prioritization) : option value_type := head (current_bucket p).

Definition pop (p : prioritization) : outcome prioritization :=
  i ← of_option (pr_schedule p !! pr_current p);
  bucket ← of_option (pr_buckets p !! i);
  match bucket with
  | [] => Aborted
  | _ :: bucket => Ok (seek (set_buckets (<[i := bucket]> (pr_buckets p)) p))
  end.

Definition prioritization_size (p : prioritization) : nat :=
  foldr (λ b n, (length b + n)%nat) 0%nat (pr_buckets p).

Definition bucket_size (p : prioritization) (index : nat) : option nat :=
  length <$> pr_buckets p !! index.

(** ** Invariant *)

(** A bucket: strictly increasing, within its share of the capacity. *)
Definition bucket_limit (p : prioritization) : Z :=
  Z.max 1 (pr_maximum p / Z.of_nat (length (pr_buckets p))).

(** The bucket of a balance: 0 for nothing, else one more than its logarithm. *)
Definition bucket_of (balance : Z) : nat :=
  if balance <=? 0 then 0%nat else S (Z.to_nat (Z.log2 balance)).

Record queue_inv (p : prioritization) : Prop := {
  qi_buckets : length (pr_buckets p) = bucket_count;
  qi_minimums : pr_minimums p = 0 :: push_minimums (bucket_count - 1) 1;
  qi_schedule : pr_schedule p = seq 0 bucket_count;
  qi_current : (pr_current p < bucket_count)%nat;
  qi_sorted : ∀ i b, pr_buckets p !! i = Some b → StronglySorted (λ v w, value_lt v w = true) b;
  qi_limit : ∀ i b, pr_buckets p !! i = Some b → Z.of_nat (length b) <= bucket_limit p;
  qi_filed : ∀ i b v, pr_buckets p !! i = Some b → v ∈ b → ∃ balance,
    push_balance (va_block v) (va_sideband v) = Ok balance ∧
    i = bucket_of balance;
  qi_served : prioritization_empty p = false → current_bucket p ≠ [];
}.

(** The bucket with a given index. *)
Definition bucket_at (p : prioritization) (i : nat) : list value_type := default [] (pr_buckets p !! i).

(** The position [k] steps after [c]. *)
Definition rot (c k : nat) : nat := (c + k) `mod` bucket_count.

(** What the walk over the schedule relies on. *)
Definition scheduled (p : prioritization) : Prop :=
  pr_schedule p = seq 0 bucket_count ∧ (pr_current p < bucket_count)%nat.

(** ** Walking the schedule *)

Lemma rot_lt c k : (rot c k < bucket_count)%nat.
Proof. apply Nat.mod_upper_bound. done. Qed.

Lemma rot_0 c : (c < bucket_count)%nat → rot c 0 = c.
Proof. intros Hc. unfold rot. rewrite Nat.add_0_r. by apply Nat.mod_small. Qed.

Lemma rot_rot c k : rot (rot c 1) k = rot c (S k).
Proof. unfold rot. rewrite Nat.Div0.add_mod_idemp_l. f_equal. lia. Qed.

Lemma rot_reaches c i :
  (c < bucket_count)%nat → (i < bucket_count)%nat → ∃ d, (1 <= d <= bucket_count)%nat ∧ rot c d = i.
Proof.
  unfold rot. intros Hc Hi. destruct (decide (c < i)%nat).
  - exists (i - c)%nat. split; [lia |]. rewrite Nat.mod_small; lia.
  - exists (i + bucket_count - c)%nat. split; [lia |].
    replace (c + (i + bucket_count - c))%nat with (i + 1 * bucket_count)%nat by lia.
    rewrite Nat.Div0.mod_add. by apply Nat.mod_small.
Qed.

Lemma current_bucket_at p : scheduled p → current_bucket p = bucket_at p (pr_current p).
Proof.
  intros [Hs Hc]. unfold current_bucket, bucket_at. rewrite Hs, lookup_seq_lt by done. done.
Qed.

Lemma next_rot p : scheduled p → next p = set_current (rot (pr_current p) 1) p.
Proof.
  intros [Hs Hc]. unfold next, rot. rewrite Hs, length_seq, Nat.add_1_r. f_equal.
  destruct (Nat.eqb_spec (S (pr_current p)) bucket_count) as [-> | Hne].
  - by rewrite Nat.Div0.mod_same.
  - rewrite Nat.mod_small; lia.
Qed.

Lemma set_current_scheduled p c :
  scheduled p → (c < bucket_count)%nat → scheduled (set_current c p).
Proof. by intros [? ?]. Qed.

Lemma next_scheduled p : scheduled p → scheduled (next p).
Proof. intros Hp. rewrite next_rot by done. apply set_current_scheduled; [done | apply rot_lt]. Qed.

Lemma seek_loop_stays n p :
  scheduled p → ∃ c, (c < bucket_count)%nat ∧ seek_loop n p = set_current c p.
Proof.
  revert p. induction n as [| n IH]; intros p Hp; simpl.
  - exists (pr_current p). split; [apply Hp | by destruct p].
  - case_bool_decide.
    + destruct (IH (next p) (next_scheduled p Hp)) as (c & Hc & ->). exists c. split; [done |].
      by rewrite next_rot.
    + exists (pr_current p). split; [apply Hp | by destruct p].
Qed.

(** The loop stops at the first bucket that is not empty. *)
Lemma seek_loop_finds n p d :
  scheduled p → (d <= n)%nat → bucket_at p (rot (pr_current p) d) ≠ [] →
  ∃ k, (k <= d)%nat ∧ seek_loop n p = set_current (rot (pr_current p) k) p ∧
    bucket_at p (rot (pr_current p) k) ≠ [].
Proof.
  revert p d. induction n as [| n IH]; intros p d Hp Hd Hb; simpl.
  - exists 0%nat. replace d with 0%nat in * by lia. rewrite rot_0 in * by apply Hp.
    split; [lia | split; [by destruct p | done]].
  - rewrite current_bucket_at by done. case_bool_decide as He.
    + destruct d as [| d]; [by rewrite rot_0 in Hb by apply Hp |].
      destruct (IH (next p) d) as (k & Hk & Hseek & Hbk);
        [by apply next_scheduled | lia | by rewrite next_rot; simpl; rewrite ?rot_rot |].
      rewrite next_rot in Hseek, Hbk by done. simpl in *. rewrite rot_rot in *.
      exists (S k). split; [lia |]. by rewrite next_rot.
    + exists 0%nat. rewrite rot_0 by apply Hp. split; [lia | split; [by destruct p | done]].
Qed.

Lemma seek_stays p : scheduled p → ∃ c, (c < bucket_count)%nat ∧ seek p = set_current c p.
Proof.
  intros Hp. unfold seek. destruct (seek_loop_stays (length (pr_schedule p)) (next p)) as (c & Hc & ->);
    [by apply next_scheduled |]. exists c. by rewrite next_rot.
Qed.

Lemma seek_finds p d :
  scheduled p → (1 <= d <= bucket_count)%nat → bucket_at p (rot (pr_current p) d) ≠ [] →
  ∃ k, (1 <= k <= d)%nat ∧ seek p = set_current (rot (pr_current p) k) p ∧
    bucket_at p (rot (pr_current p) k) ≠ [].
Proof.
  intros Hp Hd Hb. unfold seek. destruct d as [| d]; [lia |].
  destruct (seek_loop_finds (length (pr_schedule p)) (next p) d) as (k & Hk & Hs & Hbk).
  - by apply next_scheduled.
  - rewrite (proj1 Hp), length_seq. lia.
  - rewrite next_rot by done. simpl. by rewrite rot_rot.
  - rewrite next_rot in Hs, Hbk by done. simpl in *. rewrite rot_rot in *.
    exists (S k). split; [lia |]. by rewrite next_rot.
Qed.

Lemma not_empty_bucket p :
  prioritization_empty p = false ↔ ∃ i b, pr_buckets p !! i = Some b ∧ b ≠ [].
Proof.
  unfold prioritization_empty. split.
  - intros Hf. induction (pr_buckets p) as [| b l IH]; simpl in *; [done |].
    case_bool_decide as Hb; simpl in Hf.
    + destruct (IH Hf) as (i & b' & ? & ?). by exists (S i), b'.
    + by exists 0%nat, b.
  - intros (i & b & Hi & Hb). apply not_true_is_false. rewrite forallb_forall. intros Hall.
    apply Hb. apply (bool_decide_eq_true (b = [])), Hall, list_elem_of_In. by eapply list_elem_of_lookup_2.
Qed.

Lemma seek_served p :
  scheduled p → length (pr_buckets p) = bucket_count → prioritization_empty p = false →
  current_bucket (seek p) ≠ [].
Proof.
  intros Hp Hl (i & b & Hi & Hb)%not_empty_bucket.
  assert (Hlt : (i < bucket_count)%nat) by (rewrite <- Hl; by eapply lookup_lt_Some).
  destruct (rot_reaches (pr_current p) i) as (d & Hd & Hr); [apply Hp | done |].
  destruct (seek_finds p d) as (k & Hk & -> & Hbk); [done | done | |].
  - unfold bucket_at. by rewrite Hr, Hi.
  - rewrite current_bucket_at by (apply set_current_scheduled; [done | apply rot_lt]). done.
Qed.

(** ** Filing by balance *)

Lemma upper_bound_minimums n k b :
  0 <= k → k + Z.of_nat n = 128 → 1 <= b < 2 ^ 128 →
  upper_bound (push_minimums n (2 ^ k)) b = Z.to_nat (Z.log2 b + 1 - k).
Proof.
  revert k. induction n as [| n IH]; intros k Hk Hn Hb; simpl.
  - pose proof (proj1 (Z.log2_lt_pow2 b 128 ltac:(lia)) (proj2 Hb)). lia.
  - destruct (Z.ltb_spec b (2 ^ k)) as [Hlt | Hge].
    + apply Z.log2_lt_pow2 in Hlt; lia.
    + apply Z.log2_le_pow2 in Hge; [| lia].
      destruct n as [| n]; [simpl; pose proof (proj1 (Z.log2_lt_pow2 b 128 ltac:(lia)) (proj2 Hb)); lia |].
      rewrite Z.shiftl_mul_pow2, <- Z.pow_add_r by lia.
      rewrite wrap128_small.
      2: { split; [lia |]. change u128_mod with (2 ^ 128). apply Z.pow_lt_mono_r; lia. }
      rewrite IH by lia. lia.
Qed.

Lemma bucket_of_lt b : 0 <= b < 2 ^ 128 → (bucket_of b < bucket_count)%nat.
Proof.
  intros Hb. unfold bucket_of, bucket_count. destruct (Z.leb_spec b 0); [lia |].
  pose proof (proj1 (Z.log2_lt_pow2 b 128 ltac:(lia)) (proj2 Hb)). lia.
Qed.

Lemma upper_bound_bucket b :
  0 <= b < 2 ^ 128 →
  (upper_bound (0%Z :: push_minimums (bucket_count - 1) 1%Z) b - 1)%nat = bucket_of b.
Proof.
  intros Hb. unfold bucket_of. cbn [upper_bound]. destruct (Z.ltb_spec b 0); [lia |].
  destruct (Z.leb_spec b 0).
  - replace b with 0 by lia. reflexivity.
  - change 1 with (2 ^ 0) at 1. rewrite upper_bound_minimums by (unfold bucket_count; lia).
    pose proof (Z.log2_nonneg b). lia.
Qed.

(** ** Ordered sets *)

Local Abbreviation sorted := (StronglySorted (λ v w, value_lt v w = true)).

Lemma value_lt_trans u v w : value_lt u v = true → value_lt v w = true → value_lt u w = true.
Proof. unfold value_lt. rewrite !orb_true_iff, !andb_true_iff, !Z.ltb_lt, !Z.eqb_eq. lia. Qed.

Lemma set_emplace_elem v l w : w ∈ set_emplace v l → w = v ∨ w ∈ l.
Proof.
  induction l as [| x l IH]; simpl.
  - rewrite list_elem_of_singleton. by left.
  - destruct (value_lt v x), (value_lt x v); rewrite ?elem_of_cons; naive_solver.
Qed.

Lemma set_emplace_sorted v l : sorted l → sorted (set_emplace v l).
Proof.
  induction 1 as [| x l Hl IH Hx]; simpl; [by repeat constructor |].
  destruct (value_lt v x) eqn:Hvx.
  - constructor; [by constructor |]. constructor; [done |].
    eapply Forall_impl; [exact Hx |]. intros y Hy. by eapply value_lt_trans.
  - destruct (value_lt x v) eqn:Hxv; [| by constructor].
    constructor; [done |]. apply Forall_forall. intros y [-> | Hy]%set_emplace_elem; [done |].
    rewrite Forall_forall in Hx. by apply Hx.
Qed.

Lemma set_emplace_length v l :
  (length l <= length (set_emplace v l) <= S (length l))%nat ∧ set_emplace v l ≠ [].
Proof.
  induction l as [| x l [IH _]]; simpl; [split; [lia | done] |].
  destruct (value_lt v x), (value_lt x v); simpl; split; done || lia.
Qed.

Lemma sorted_take n l : sorted l → sorted (take n l).
Proof.
  intros Hl. revert n. induction Hl as [| x l Hl IH Hx]; intros [| n]; simpl; constructor; auto.
  by apply Forall_take.
Qed.

(** ** The invariant holds *)

Lemma inv_scheduled p : queue_inv p → scheduled p.
Proof. intros Hp. split; [apply (qi_schedule p Hp) | apply (qi_current p Hp)]. Qed.

Lemma inv_set_current p c :
  queue_inv p → (c < bucket_count)%nat → current_bucket (set_current c p) ≠ [] →
  queue_inv (set_current c p).
Proof. intros [] Hc Hs. by split. Qed.

(** Everything but [qi_served], for a bucket replaced. *)
Lemma inv_set_bucket p i b c :
  queue_inv p → (c < bucket_count)%nat → sorted b → Z.of_nat (length b) <= bucket_limit p →
  (∀ v, v ∈ b → ∃ balance, push_balance (va_block v) (va_sideband v) = Ok balance ∧
     i = bucket_of balance) →
  let p' := set_current c (set_buckets (<[i := b]> (pr_buckets p)) p) in
  (prioritization_empty p' = false → current_bucket p' ≠ []) → queue_inv p'.
Proof.
  intros Hp Hc Hb Hlen Hfiled p' Hs. destruct Hp as [Hn Hm Hsch _ Hso Hli Hfi _].
  assert (Hlim : bucket_limit p' = bucket_limit p).
  { unfold bucket_limit. simpl. by rewrite length_insert. }
  split; try done; simpl.
  - by rewrite length_insert.
  - intros j b' [(<- & <- & _) | [_ Hj]]%list_lookup_insert_Some; [done | by eapply Hso].
  - rewrite Hlim. intros j b' [(<- & <- & _) | [_ Hj]]%list_lookup_insert_Some; [done | by eapply Hli].
  - intros j b' v [(<- & <- & _) | [_ Hj]]%list_lookup_insert_Some; [auto | by eapply Hfi].
Qed.

Lemma new_inv maximum : queue_inv (prioritization_new maximum).
Proof.
  assert (Hb : ∀ i b, pr_buckets (prioritization_new maximum) !! i = Some b → b = []).
  { intros i b [-> _]%lookup_replicate. done. }
  split; try done; try (intros i b ->%Hb; simpl; constructor || (unfold bucket_limit; lia)).
  - unfold bucket_count. simpl. lia.
  - intros i b v ->%Hb. by rewrite elem_of_nil.
Qed.

(** The bucket that [push] leaves behind. *)
Definition trimmed (p : prioritization) (b : list value_type) : list value_type :=
  if bucket_limit p <? Z.of_nat (length b) then take (length b - 1) b else b.

Lemma trimmed_ok p v b :
  sorted b → Z.of_nat (length b) <= bucket_limit p →
  sorted (trimmed p (set_emplace v b)) ∧
  Z.of_nat (length (trimmed p (set_emplace v b))) <= bucket_limit p ∧
  trimmed p (set_emplace v b) ≠ [] ∧
  (∀ w, w ∈ trimmed p (set_emplace v b) → w = v ∨ w ∈ b).
Proof.
  intros Hs Hl. pose proof (set_emplace_length v b) as [Hlen Hne]. unfold trimmed.
  pose proof (set_emplace_sorted v b Hs) as Hs'.
  assert (1 <= bucket_limit p) by (unfold bucket_limit; lia).
  destruct (Z.ltb_spec (bucket_limit p) (Z.of_nat (length (set_emplace v b)))) as [Hlt | Hge]; split_and!.
  - by apply sorted_take.
  - rewrite length_take. lia.
  - intros Hn%(f_equal length). rewrite length_take in Hn. simpl in Hn. lia.
  - intros w Hw. apply set_emplace_elem. by eapply subseteq_take.
  - done.
  - done.
  - done.
  - apply set_emplace_elem.
Qed.

Lemma push_value p time b sb balance :
  queue_inv p → push_balance b sb = Ok balance → 0 <= balance < 2 ^ 128 →
  let p' := set_buckets (<[bucket_of balance :=
      trimmed p (set_emplace (ValueType time b sb) (bucket_at p (bucket_of balance)))]> (pr_buckets p)) p in
  push p time b sb = Ok (if prioritization_empty p then seek p' else p').
Proof.
  intros Hp Hb Hr p'. unfold push. rewrite Hb. simpl.
  rewrite (qi_minimums p Hp), upper_bound_bucket by done.
  assert (Hlt : (bucket_of balance < length (pr_buckets p))%nat).
  { rewrite (qi_buckets p Hp). by apply bucket_of_lt. }
  apply lookup_lt_is_Some_2 in Hlt as [bk Hk]. rewrite Hk. simpl.
  unfold p', bucket_at, trimmed, bucket_limit. by rewrite Hk.
Qed.

Lemma bucket_at_lookup p i :
  queue_inv p → (i < bucket_count)%nat → pr_buckets p !! i = Some (bucket_at p i).
Proof.
  intros Hp Hi. unfold bucket_at. rewrite <- (qi_buckets p Hp) in Hi.
  apply lookup_lt_is_Some_2 in Hi as [b ->]. done.
Qed.

Lemma bucket_at_insert p i b j c :
  queue_inv p → (i < bucket_count)%nat →
  bucket_at (set_current c (set_buckets (<[i := b]> (pr_buckets p)) p)) j =
  if decide (i = j) then b else bucket_at p j.
Proof.
  intros Hp Hi. unfold bucket_at. simpl. case_decide as Hij.
  - subst. rewrite list_lookup_insert_eq; [done |]. by rewrite (qi_buckets p Hp).
  - by rewrite list_lookup_insert_ne.
Qed.

(** A replaced bucket, and then a search when asked for. *)
Lemma replaced_inv p i b (search : bool) :
  queue_inv p → (i < bucket_count)%nat → sorted b → Z.of_nat (length b) <= bucket_limit p →
  (∀ v, v ∈ b → ∃ balance, push_balance (va_block v) (va_sideband v) = Ok balance ∧
     i = bucket_of balance) →
  (search = false → (pr_current p = i ∧ b ≠ []) ∨ (pr_current p ≠ i ∧ current_bucket p ≠ [])) →
  let p' := set_buckets (<[i := b]> (pr_buckets p)) p in
  queue_inv (if search then seek p' else p').
Proof.
  intros Hp Hi Hb Hl Hf Hc p'. assert (Hsch : scheduled p') by exact (inv_scheduled p Hp).
  destruct search.
  - destruct (seek_stays p' Hsch) as (c & Hlt & Hseek). rewrite Hseek.
    apply (inv_set_bucket p i b c); try done. intros Hne.
    change (current_bucket (set_current c p') ≠ []). rewrite <- Hseek.
    apply seek_served; [done | | exact Hne]. unfold p'. simpl. rewrite length_insert. apply Hp.
  - change p' with (set_current (pr_current p) p'). apply (inv_set_bucket p i b (pr_current p)); try done.
    { apply Hp. }
    intros _. rewrite current_bucket_at by done. rewrite bucket_at_insert by done. cbn [pr_current set_current].
    destruct (Hc eq_refl) as [[He Hne] | [Hne Hcur]]; simpl.
    + by rewrite decide_True.
    + rewrite decide_False by done. rewrite current_bucket_at in Hcur by (by apply inv_scheduled). done.
Qed.

Lemma push_inv p time b sb balance p' :
  queue_inv p → push_balance b sb = Ok balance → 0 <= balance < 2 ^ 128 →
  push p time b sb = Ok p' → queue_inv p'.
Proof.
  intros Hp Hb Hr. rewrite (push_value p time b sb balance) by done. intros; simplify_eq.
  pose proof (bucket_of_lt balance Hr) as Hlt. pose proof (bucket_at_lookup p _ Hp Hlt) as Hk.
  destruct (trimmed_ok p (ValueType time b sb) (bucket_at p (bucket_of balance))) as (H1 & H2 & H3 & H4);
    [exact (qi_sorted p Hp _ _ Hk) | exact (qi_limit p Hp _ _ Hk) |].
  apply replaced_inv; try done.
  - intros v [-> | Hv]%H4; [by exists balance |]. by eapply (qi_filed p Hp).
  - intros Hne. pose proof (qi_served p Hp Hne).
    destruct (decide (pr_current p = bucket_of balance)); [by left | by right].
Qed.

Lemma pop_value p :
  queue_inv p → prioritization_empty p = false →
  ∃ v rest, current_bucket p = v :: rest ∧
    pr_buckets p !! pr_current p = Some (v :: rest) ∧
    pop p = Ok (seek (set_buckets (<[pr_current p := rest]> (pr_buckets p)) p)).
Proof.
  intros Hp Hne. pose proof (qi_served p Hp Hne) as Hc.
  rewrite current_bucket_at in Hc |- * by (by apply inv_scheduled).
  pose proof (bucket_at_lookup p _ Hp (qi_current p Hp)) as Hk.
  destruct (bucket_at p (pr_current p)) as [| v rest] eqn:Hb; [done |].
  exists v, rest. split_and!; [done | done |]. unfold pop.
  rewrite (qi_schedule p Hp), lookup_seq_lt by apply Hp. simpl. rewrite Hk. done.
Qed.

Lemma pop_inv p p' : queue_inv p → prioritization_empty p = false → pop p = Ok p' → queue_inv p'.
Proof.
  intros Hp Hne Hpop. destruct (pop_value p Hp Hne) as (v & rest & _ & Hk & Hv).
  rewrite Hv in Hpop. injection Hpop as <-.
  pose proof (qi_sorted p Hp _ _ Hk) as Hs. apply StronglySorted_inv in Hs as [Hs _].
  pose proof (qi_limit p Hp _ _ Hk) as Hl. simpl in Hl.
  apply (replaced_inv p (pr_current p) rest true); try done.
  - apply Hp.
  - lia.
  - intros w Hw. eapply (qi_filed p Hp); [done | by right].
Qed.

(** ** Every queue the operations build *)

Inductive queue_reachable : prioritization → Prop :=
| queue_new maximum : queue_reachable (prioritization_new maximum)
| queue_push p time b sb balance p' :
    queue_reachable p → push_balance b sb = Ok balance → is_u128 balance →
    push p time b sb = Ok p' → queue_reachable p'
| queue_pop p p' :
    queue_reachable p → prioritization_empty p = false → pop p = Ok p' → queue_reachable p'.

Lemma queue_reachable_inv p : queue_reachable p → queue_inv p.
Proof.
  induction 1 as [maximum | p time b sb balance p' _ Hp Hb Hr Hpush | p p' _ Hp Hne Hpop].
  - apply new_inv.
  - by eapply push_inv.
  - by eapply pop_inv.
Qed.

Lemma concat_insert_perm {A} (l : list (list A)) i v rest :
  l !! i = Some (v :: rest) → concat l ≡ₚ v :: concat (<[i := rest]> l).
Proof.
  revert i. induction l as [| b l IH]; intros [| i] Hi; simplify_eq/=; [done |].
  rewrite (IH _ Hi). by rewrite Permutation_middle.
Qed.

(** On every reachable non-empty queue top answers a block, pop removes that
    block and nothing else, and it is the earliest of its bucket by time and hash. *)
Theorem queue_serves_in_order p :
  queue_reachable p → prioritization_empty p = false →
  ∃ v p' b, top p = Some v ∧ pop p = Ok p' ∧ concat (pr_buckets p) ≡ₚ v :: concat (pr_buckets p') ∧
    pr_buckets p !! pr_current p = Some b ∧ (∀ w, w ∈ b → w = v ∨ value_lt v w = true).
Proof.
  intros Hp%queue_reachable_inv Hne. destruct (pop_value p Hp Hne) as (v & rest & Hc & Hk & Hv).
  assert (Hsch : scheduled (set_buckets (<[pr_current p := rest]> (pr_buckets p)) p))
    by exact (inv_scheduled p Hp).
  destruct (seek_stays _ Hsch) as (c & _ & Hseek).
  exists v, (seek (set_buckets (<[pr_current p := rest]> (pr_buckets p)) p)), (v :: rest).
  split_and!; [unfold top; by rewrite Hc | done | | done |].
  - rewrite Hseek. simpl. by apply concat_insert_perm.
  - intros w [-> | Hw]%elem_of_cons; [by left | right].
    pose proof (qi_sorted p Hp _ _ Hk) as [_ Hall]%StronglySorted_inv.
    rewrite Forall_forall in Hall. by apply Hall.
Qed.

(** Pushing a block with a balance changes only the bucket of that balance
    (zero, or one more than its binary logarithm), which stays sorted, non-empty and
    within its share of the maximum, and holds only the new block and blocks it had. *)
Theorem queue_push_files_by_balance p time b sb balance :
  queue_reachable p → push_balance b sb = Ok balance → is_u128 balance →
  ∃ p' bk bk', push p time b sb = Ok p' ∧
    pr_buckets p !! bucket_of balance = Some bk ∧
    pr_buckets p' = <[bucket_of balance := bk']> (pr_buckets p) ∧
    bk' ≠ [] ∧ (∀ w, w ∈ bk' → w = ValueType time b sb ∨ w ∈ bk) ∧
    StronglySorted (λ v w, value_lt v w = true) bk' ∧
    Z.of_nat (length bk') <= Z.max 1 (pr_maximum p / 129).
Proof.
  intros Hp%queue_reachable_inv Hb Hr. pose proof (bucket_of_lt balance Hr) as Hlt.
  pose proof (bucket_at_lookup p _ Hp Hlt) as Hk.
  pose proof (push_value p time b sb balance Hp Hb Hr) as Hv. simpl in Hv.
  destruct (trimmed_ok p (ValueType time b sb) (bucket_at p (bucket_of balance))) as (H1 & H2 & H3 & H4);
    [exact (qi_sorted p Hp _ _ Hk) | exact (qi_limit p Hp _ _ Hk) |].
  unfold bucket_limit in H2. rewrite (qi_buckets p Hp) in H2.
  eexists _, (bucket_at p (bucket_of balance)), _. split_and!; [exact Hv | done | | done..].
  destruct (prioritization_empty p); [| done].
  destruct (seek_stays (set_buckets (<[bucket_of balance := trimmed p (set_emplace (ValueType time b sb)
    (bucket_at p (bucket_of balance)))]> (pr_buckets p)) p)) as (c & _ & ->); [| done].
  exact (inv_scheduled p Hp).
Qed.

(** [n] pops in a row. *)
Fixpoint pops (n : nat) (p : prioritization) : outcome prioritization :=
  match n with
  | O => Ok p
  | S n => p ← pop p; pops n p
  end.

(** One pop brings the pointer closer to any bucket that is not empty. *)
Lemma pop_approaches p d :
  queue_inv p → (1 <= d <= bucket_count)%nat → rot (pr_current p) d ≠ pr_current p →
  bucket_at p (rot (pr_current p) d) ≠ [] →
  ∃ k p', (1 <= k <= d)%nat ∧ pop p = Ok p' ∧ queue_inv p' ∧
    pr_current p' = rot (pr_current p) k ∧
    (∀ j, j ≠ pr_current p → bucket_at p' j = bucket_at p j).
Proof.
  intros Hp Hd Hne Hb.
  assert (He : prioritization_empty p = false).
  { apply not_empty_bucket. exists (rot (pr_current p) d), (bucket_at p (rot (pr_current p) d)).
    split; [| done]. apply bucket_at_lookup; [done | apply rot_lt]. }
  destruct (pop_value p Hp He) as (v & rest & _ & _ & Hv).
  pose (q := set_buckets (<[pr_current p := rest]> (pr_buckets p)) p).
  assert (Hq : ∀ j, j ≠ pr_current p → bucket_at q j = bucket_at p j).
  { intros j Hj. pose proof (bucket_at_insert p _ rest j (pr_current p) Hp (qi_current p Hp)) as Hi.
    rewrite decide_False in Hi by done. exact Hi. }
  destruct (seek_finds q d) as (k & Hk & Hseek & _); [exact (inv_scheduled p Hp) | done | by rewrite Hq |].
  exists k, (seek q). split_and!; [lia | lia | done | | by rewrite Hseek |].
  - by eapply pop_inv.
  - intros j Hj. rewrite Hseek. by apply Hq.
Qed.

Lemma rot_add c k j : rot (rot c k) j = rot c (k + j).
Proof. unfold rot. rewrite Nat.Div0.add_mod_idemp_l. f_equal. lia. Qed.

Lemma pops_reach d p i :
  queue_inv p → (d < bucket_count)%nat → rot (pr_current p) d = i → bucket_at p i ≠ [] →
  ∃ n p', (n <= d)%nat ∧ pops n p = Ok p' ∧ queue_inv p' ∧ pr_current p' = i ∧
    bucket_at p' i = bucket_at p i.
Proof.
  revert p. induction (lt_wf d) as [d _ IH]. intros p Hp Hd Hr Hb.
  destruct (decide (i = pr_current p)) as [-> | Hne].
  { exists 0%nat, p. split; [lia | done]. }
  assert (Hd0 : d ≠ 0%nat). { intros ->. rewrite rot_0 in Hr by apply Hp. by subst. }
  destruct (pop_approaches p d) as (k & p1 & Hk & Hpop & Hp1 & Hc & Hq);
    [done | lia | by rewrite Hr | by rewrite Hr |].
  destruct (IH (d - k)%nat ltac:(lia) p1 Hp1) as (n & p2 & Hn & Hpops & Hp2 & Hc2 & Hb2); [lia | | |].
  - rewrite Hc, rot_add, <- Hr. f_equal. lia.
  - by rewrite Hq.
  - exists (S n), p2. split_and!; [lia | simpl; by rewrite Hpop | done | done |]. rewrite Hb2. by apply Hq.
Qed.

(** A non-empty bucket is served, unchanged, after fewer than 129 pops from any
    reachable queue. *)
Theorem queue_round_robin p i b :
  queue_reachable p → pr_buckets p !! i = Some b → b ≠ [] →
  ∃ n p', (n < bucket_count)%nat ∧ pops n p = Ok p' ∧ pr_current p' = i ∧
    pr_buckets p' !! i = Some b ∧ top p' = head b.
Proof.
  intros Hp Hi Hb. pose proof (queue_reachable_inv p Hp) as Hq.
  assert (Hlt : (i < bucket_count)%nat) by (rewrite <- (qi_buckets p Hq); by eapply lookup_lt_Some).
  assert (Hat : bucket_at p i = b) by (unfold bucket_at; by rewrite Hi).
  assert (Hd : ∃ d, (d < bucket_count)%nat ∧ rot (pr_current p) d = i).
  { destruct (rot_reaches (pr_current p) i (qi_current p Hq) Hlt) as (d & Hd & Hr).
    destruct (decide (d = bucket_count)) as [-> |]; [| exists d; split; [lia | done]].
    exists 0%nat. split; [unfold bucket_count; lia |]. rewrite <- Hr. unfold rot.
    by rewrite Nat.add_0_r, <- (Nat.mul_1_l bucket_count), Nat.Div0.mod_add, Nat.mul_1_l. }
  destruct Hd as (d & Hd & Hr).
  destruct (pops_reach d p i) as (n & p' & Hn & Hpops & Hp' & Hc & Hb'); [done | done | done | by rewrite Hat |].
  exists n, p'. split_and!; [lia | done | done | |].
  - rewrite bucket_at_lookup by done. by rewrite Hb', Hat.
  - unfold top. rewrite current_bucket_at by (by apply inv_scheduled). by rewrite Hc, Hb', Hat.
Qed.
End prioritization.
