(* ===== verification/Election.v ===== *)
(** * Elections ([node/election.hpp], [node/election.cpp])

    An election decides between the blocks of one root.  It keeps the last vote
    of every representative, tallies the votes by ledger weight, and confirms
    the leading block when its lead reaches the quorum delta (and, once final
    votes are required, its final votes do).  What the election reads from the
    rest of the node is an environment of each operation; what it asks the rest
    of the node to do is a list of actions. *)

From S2P Require Import Prelude Blocks.

(** ** State *)

Record vote_info := VoteInfo { vi_time : Z; vi_timestamp : Z; vi_hash : Z }.

(** [election::state_t]. *)
Inductive state_t := passive | active | confirmed_state | expired_confirmed | expired_unconfirmed.

#[export] Instance state_t_eq_dec : EqDecision state_t.
Proof. solve_decision. Defined.

Inductive election_behavior := normal | optimistic.

Inductive election_status_type :=
| ongoing | active_confirmed_quorum | active_confirmation_height
| inactive_confirmation_height | stopped.

(** [election_status]; end and duration are in milliseconds. *)
Record election_status := ElectionStatus {
  es_winner : block;
  es_tally : Z;
  es_final_tally : Z;
  es_election_end : Z;
  es_election_duration : Z;
  es_confirmation_request_count : Z;
  es_block_count : Z;
  es_voter_count : Z;
  es_type : election_status_type;
}.

(** Times are nanoseconds of the steady clock. *)
Record election := Election {
  el_state : state_t;
  el_state_start : Z;
  el_last_block : Z;
  el_last_req : Z;
  el_confirmation_request_count : Z;
  el_status : election_status;
  el_height : Z;
  el_root : Z;
  el_last_blocks : gmap Z block;
  el_last_votes : gmap Z vote_info;
  el_is_quorum : bool;
  el_final_weight : Z;
  el_last_tally : gmap Z Z;
  el_behavior : election_behavior;
  el_election_start : Z;
}.

(** What an operation reads from the node: the network, the ledger weight of an
    account, the online stake and the quorum delta, whether this node votes,
    whether final votes are required, its own votes for a hash, the cached
    inactive tally of a hash, the clocks, whether an expired election logs its
    tally, and the order in which hash tables are traversed. *)
Record env := Env {
  en_dev_network : bool;
  en_weight : Z → Z;
  en_trended : Z;
  en_delta : Z;
  en_voting : bool;
  en_canary : bool;
  en_history : Z → list Z;
  en_inactive_tally : Z → Z;
  en_now : Z;
  en_system_now : Z;
  en_log_expired : bool;
  en_order : ∀ A : Type, list (Z * A) → list (Z * A);
}.

(** A hash table has some order of traversal. *)
Definition env_ok (e : env) : Prop := ∀ A (l : list (Z * A)), en_order e A l ≡ₚ l.

(** Calls into the rest of the node, in order. *)
Inductive action :=
| generate_vote (root hash : Z)
| generate_final_vote (root hash : Z)
| force_block (b : block)
| process_confirmed (s : election_status)
| live_vote (rep : Z)
| flood_block (b : block)
| publish_filter_clear (b : block)
| history_erase (root : Z)
| erase_hash (hash : Z).

(** The election, the winners other elections have announced, and the calls. *)
Record world := World {
  wo_election : election;
  wo_winner_details : gset Z;
  wo_actions : list action;
}.

Definition on_election (f : election → election) (w : world) : world :=
  World (f (wo_election w)) (wo_winner_details w) (wo_actions w).
Definition act (a : action) (w : world) : world :=
  World (wo_election w) (wo_winner_details w) (wo_actions w ++ [a]).

(** Field updates. *)
Definition set_state (s : state_t) (e : election) : election :=
  Election s (el_state_start e) (el_last_block e) (el_last_req e) (el_confirmation_request_count e)
    (el_status e) (el_height e) (el_root e) (el_last_blocks e) (el_last_votes e) (el_is_quorum e)
    (el_final_weight e) (el_last_tally e) (el_behavior e) (el_election_start e).
Definition set_state_start (t : Z) (e : election) : election :=
  Election (el_state e) t (el_last_block e) (el_last_req e) (el_confirmation_request_count e)
    (el_status e) (el_height e) (el_root e) (el_last_blocks e) (el_last_votes e) (el_is_quorum e)
    (el_final_weight e) (el_last_tally e) (el_behavior e) (el_election_start e).
Definition set_last_block (t : Z) (e : election) : election :=
  Election (el_state e) (el_state_start e) t (el_last_req e) (el_confirmation_request_count e)
    (el_status e) (el_height e) (el_root e) (el_last_blocks e) (el_last_votes e) (el_is_quorum e)
    (el_final_weight e) (el_last_tally e) (el_behavior e) (el_election_start e).
Definition set_last_req (t n : Z) (e : election) : election :=
  Election (el_state e) (el_state_start e) (el_last_block e) t n
    (el_status e) (el_height e) (el_root e) (el_last_blocks e) (el_last_votes e) (el_is_quorum e)
    (el_final_weight e) (el_last_tally e) (el_behavior e) (el_election_start e).
Definition set_status (s : election_status) (e : election) : election :=
  Election (el_state e) (el_state_start e) (el_last_block e) (el_last_req e)
    (el_confirmation_request_count e) s (el_height e) (el_root e) (el_last_blocks e)
    (el_last_votes e) (el_is_quorum e) (el_final_weight e) (el_last_tally e) (el_behavior e)
    (el_election_start e).
Definition set_last_blocks (m : gmap Z block) (e : election) : election :=
  Election (el_state e) (el_state_start e) (el_last_block e) (el_last_req e)
    (el_confirmation_request_count e) (el_status e) (el_height e) (el_root e) m
    (el_last_votes e) (el_is_quorum e) (el_final_weight e) (el_last_tally e) (el_behavior e)
    (el_election_start e).
Definition set_last_votes (m : gmap Z vote_info) (e : election) : election :=
  Election (el_state e) (el_state_start e) (el_last_block e) (el_last_req e)
    (el_confirmation_request_count e) (el_status e) (el_height e) (el_root e) (el_last_blocks e)
    m (el_is_quorum e) (el_final_weight e) (el_last_tally e) (el_behavior e)
    (el_election_start e).
Definition set_is_quorum (b : bool) (e : election) : election :=
  Election (el_state e) (el_state_start e) (el_last_block e) (el_last_req e)
    (el_confirmation_request_count e) (el_status e) (el_height e) (el_root e) (el_last_blocks e)
    (el_last_votes e) b (el_final_weight e) (el_last_tally e) (el_behavior e)
    (el_election_start e).
Definition set_tally (last_tally : gmap Z Z) (final_weight : Z) (e : election) : election :=
  Election (el_state e) (el_state_start e) (el_last_block e) (el_last_req e)
    (el_confirmation_request_count e) (el_status e) (el_height e) (el_root e) (el_last_blocks e)
    (el_last_votes e) (el_is_quorum e) final_weight last_tally (el_behavior e)
    (el_election_start e).

Definition set_winner (b : block) (s : election_status) : election_status :=
  ElectionStatus b (es_tally s) (es_final_tally s) (es_election_end s) (es_election_duration s)
    (es_confirmation_request_count s) (es_block_count s) (es_voter_count s) (es_type s).
Definition set_tallies (tally final_tally : Z) (s : election_status) : election_status :=
  ElectionStatus (es_winner s) tally final_tally (es_election_end s) (es_election_duration s)
    (es_confirmation_request_count s) (es_block_count s) (es_voter_count s) (es_type s).
Definition set_type (t : election_status_type) (s : election_status) : election_status :=
  ElectionStatus (es_winner s) (es_tally s) (es_final_tally s) (es_election_end s)
    (es_election_duration s) (es_confirmation_request_count s) (es_block_count s)
    (es_voter_count s) t.

(** What [block_cemented_callback] writes into a confirmed election. *)
Definition cemented_status (t : election_status_type) (e : election) : election :=
  let s := set_type t (el_status e) in
  set_status (ElectionStatus (es_winner s) (es_tally s) (es_final_tally s) (es_election_end s)
    (es_election_duration s) (el_confirmation_request_count e) (es_block_count s) (es_voter_count s) (es_type s)) e.

(** Milliseconds and seconds of the clock. *)
Definition ms (n : Z) : Z := n * 1000000.
Definition seconds (n : Z) : Z := n * 1000000000.

Definition max_blocks : nat := 10.
Definition passive_duration_factor : Z := 5.
Definition confirmed_duration_factor : Z := 5.

Section election.
Context `{Crypto} (e : env).

Definition base_latency : Z := if en_dev_network e then ms 25 else ms 1000.

(** [node::minimum_principal_weight]. *)
Definition minimum_principal_weight (online_stake : Z) : Z := online_stake / 1000.

(** The constructor; the block has its sideband. *)
Definition election_new (b : block) (height : Z) (behavior : election_behavior) : world :=
  let el := Election passive (en_now e) (en_now e) 0 0
    (ElectionStatus b 0 0 (en_system_now e / 1000000) 0 0 1 0 ongoing) height (root b)
    {[ block_hash b := b ]} {[ 0 := VoteInfo (en_now e) 0 (block_hash b) ]} false 0 ∅ behavior
    (en_now e) in
  World el ∅ (if en_voting e then [generate_vote (root b) (block_hash b)] else []).

(** ** Tally *)

(** [tally_t], an [std::map] by decreasing weight: a weight that is there is not
    inserted again. *)
Abbreviation tally_t := (list (Z * block)).

Fixpoint tally_emplace (amount : Z) (b : block) (t : tally_t) : tally_t :=
  match t with
  | [] => [(amount, b)]
  | (a, c) :: t' =>
      if a <? amount then (amount, b) :: t
      else if a =? amount then t else (a, c) :: tally_emplace amount b t'
  end.

(** [block_weights[hash] += rep_weight]. *)
Definition add_weight (m : gmap Z Z) (hash weight : Z) : gmap Z Z :=
  <[hash := wrap128 (default 0 (m !! hash) + weight)]> m.

Definition block_weights (votes : gmap Z vote_info) : gmap Z Z :=
  fold_left (λ m x, add_weight m (vi_hash x.2) (en_weight e x.1))
    (en_order e _ (map_to_list votes)) ∅.

(** The same over the final votes. *)
Definition final_weights (votes : gmap Z vote_info) : gmap Z Z :=
  fold_left (λ m x, if vi_timestamp x.2 =? u64_max
                    then add_weight m (vi_hash x.2) (en_weight e x.1) else m)
    (en_order e _ (map_to_list votes)) ∅.

Definition tally_of (blocks : gmap Z block) (weights : gmap Z Z) : tally_t :=
  fold_left (λ t x, match blocks !! x.1 with
                    | Some b => tally_emplace x.2 b t
                    | None => t
                    end) (en_order e _ (map_to_list weights)) [].

(** [tally_impl]; the final weight keeps its value when the leader has no final
    votes. *)
Definition tally_impl (el : election) : tally_t * election :=
  let weights := block_weights (el_last_votes el) in
  let finals := final_weights (el_last_votes el) in
  let result := tally_of (el_last_blocks el) weights in
  let final_weight :=
    match result with
    | (_, b) :: _ => default (el_final_weight el) (finals !! block_hash b)
    | [] => el_final_weight el
    end in
  (result, set_tally weights final_weight el).

(** [have_quorum]; advancing past the end of an empty tally is undefined. *)
Definition have_quorum (t : tally_t) : outcome bool :=
  match t with
  | [] => Aborted
  | (first, _) :: t' =>
      let second := match t' with [] => 0 | (s, _) :: _ => s end in
      if first <? second then Aborted else Ok (en_delta e <=? first - second)
  end.

(** ** The state machine *)

Definition valid_change (expected desired : state_t) : bool :=
  match expected, desired with
  | passive, (active | confirmed_state | expired_unconfirmed) => true
  | active, (confirmed_state | expired_unconfirmed) => true
  | confirmed_state, expired_confirmed => true
  | _, _ => false
  end.

(** [state_change]: true is an error. *)
Definition state_change (expected desired : state_t) (el : election) : bool * election :=
  if valid_change expected desired then
    if bool_decide (el_state el = expected)
    then (false, set_state_start (en_now e) (set_state desired el))
    else (true, el)
  else (true, el).

Definition transition_active (el : election) : election := (state_change passive active el).2.

Definition confirmed (el : election) : bool :=
  bool_decide (el_state el = confirmed_state) || bool_decide (el_state el = expired_confirmed).

Definition failed (el : election) : bool := bool_decide (el_state el = expired_unconfirmed).

Definition is_optimistic (el : election) : bool :=
  match el_behavior el with optimistic => true | normal => false end.

(** [broadcast_block] and [send_confirm_req]; the argument is the error that the
    confirmation solicitor answers. *)
Definition broadcast_block (solicitor_error : bool) (el : election) : election :=
  if (base_latency * 15 <? en_now e - el_last_block el) && negb solicitor_error
  then set_last_block (en_now e) el else el.

Definition send_confirm_req (solicitor_error : bool) (el : election) : election :=
  if (base_latency * (if is_optimistic el then 10 else 5) <? en_now e - el_last_req el)
     && negb solicitor_error
  then set_last_req (en_now e) (el_confirmation_request_count el + 1) el else el.

(** The switch of [transition_time]. *)
Definition transition_switch (broadcast_error request_error : bool) (el : election) : bool * election :=
  match el_state el with
  | passive =>
      if base_latency * passive_duration_factor <? en_now e - el_state_start el
      then (false, (state_change passive active el).2) else (false, el)
  | active => (false, send_confirm_req request_error (broadcast_block broadcast_error el))
  | confirmed_state =>
      if base_latency * confirmed_duration_factor <? en_now e - el_state_start el
      then (true, (state_change confirmed_state expired_confirmed el).2) else (false, el)
  | expired_unconfirmed | expired_confirmed => (false, el)
  end.

(** [transition_time]: true asks for the removal of the election.  Logging the
    tally of an expired election recomputes it. *)
Definition transition_time (broadcast_error request_error : bool) (el : election) : bool * election :=
  let '(result, el) := transition_switch broadcast_error request_error el in
  let expire_time := if is_optimistic el then ms (60 * 1000) else ms (5 * 60 * 1000) in
  if negb (confirmed el) && (expire_time <? en_now e - el_election_start el) then
    let '(error, el) := state_change (el_state el) expired_unconfirmed el in
    if (error : bool) then (result, el)
    else
      let el := if en_log_expired e then (tally_impl el).2 else el in
      (true, set_status (set_type stopped (el_status el)) el)
  else (result, el).

(** ** Confirmation *)

(** [confirm_once]. *)
Definition confirm_once (type : election_status_type) (w : world) : world :=
  let el := wo_election w in
  let hash := block_hash (es_winner (el_status el)) in
  let w1 := on_election (set_state confirmed_state) w in
  if negb (bool_decide (el_state el = confirmed_state))
     && negb (bool_decide (hash ∈ wo_winner_details w)) then
    let s := el_status el in
    let status := ElectionStatus (es_winner s) (es_tally s) (es_final_tally s)
      (en_system_now e / 1000000) ((en_now e - el_election_start el) / 1000000)
      (el_confirmation_request_count el) (Z.of_nat (size (el_last_blocks el)))
      (Z.of_nat (size (el_last_votes el))) type in
    act (process_confirmed status)
      (World (set_status status (wo_election w1)) ({[ hash ]} ∪ wo_winner_details w1)
         (wo_actions w1))
  else w1.

(** [remove_votes]: the votes this node made for the old winner. *)
Definition remove_votes (hash_a : Z) (w : world) : world :=
  if en_voting e then
    act (history_erase (el_root (wo_election w)))
      (on_election (λ el, set_last_votes
         (fold_left (λ m rep, delete rep m) (en_history e hash_a) (el_last_votes el)) el) w)
  else w.

(** The leader becomes the winner when the tally as a whole reaches the delta. *)
Definition update_winner (tally_l : tally_t) (block_l : block) (w : world) : world :=
  let status_winner_hash := block_hash (es_winner (el_status (wo_election w))) in
  let sum := fold_left (λ n x, wrap128 (n + x.1)) tally_l 0 in
  if (en_delta e <=? sum) && negb (block_hash block_l =? status_winner_hash) then
    act (force_block block_l)
      (remove_votes status_winner_hash
         (on_election (λ el, set_status (set_winner block_l (el_status el)) el) w))
  else w.

(** The first quorum makes this node cast its final vote; [is_quorum] is exchanged
    only when final votes are required. *)
Definition request_final_vote (w : world) : world :=
  if en_canary e then
    let was_quorum := el_is_quorum (wo_election w) in
    let w := on_election (set_is_quorum true) w in
    if negb was_quorum && en_voting e
    then act (generate_final_vote (el_root (wo_election w))
                (block_hash (es_winner (el_status (wo_election w))))) w
    else w
  else w.

(** [confirm_if_quorum], run as one step: the lock is released only around the
    call of the final vote generator. *)
Definition confirm_if_quorum (w : world) : outcome world :=
  let '(tally_l, el) := tally_impl (wo_election w) in
  match tally_l with
  | [] => Aborted
  | (first, block_l) :: _ =>
      let el := set_status (set_tallies first (el_final_weight el) (el_status el)) el in
      let w := update_winner tally_l block_l (on_election (λ _, el) w) in
      quorum ← have_quorum tally_l;
      if (quorum : bool) then
        let w := request_final_vote w in
        if negb (en_canary e) || (en_delta e <=? el_final_weight (wo_election w))
        then Ok (confirm_once active_confirmed_quorum w) else Ok w
      else Ok w
  end.

(** ** Votes *)

Definition cooldown (weight online_stake : Z) : Z :=
  if weight <? online_stake / 100 then 15
  else if weight <? online_stake / 20 then 5 else 1.

(** Whether the vote is processed, and whether it is a replay. *)
Definition should_process (el : election) (rep timestamp_a hash_a : Z) : bool * bool :=
  match el_last_votes el !! rep with
  | None => (true, false)
  | Some last =>
      if (vi_timestamp last <? timestamp_a)
         || (vi_timestamp last =? timestamp_a) && (vi_hash last <? hash_a)
      then
        let max_vote := (timestamp_a =? u64_max) && (vi_timestamp last <? timestamp_a) in
        let past_cooldown :=
          vi_time last <=? en_now e - seconds (cooldown (en_weight e rep) (en_trended e)) in
        (max_vote || past_cooldown, false)
      else (false, true)
  end.

(** [election::vote]; the result is (replay, processed). *)
Definition election_vote (rep timestamp_a hash_a : Z) (w : world) : outcome (bool * bool * world) :=
  if en_dev_network e || (minimum_principal_weight (en_trended e) <? en_weight e rep) then
    let '(process, replay) := should_process (wo_election w) rep timestamp_a hash_a in
    if (process : bool) then
      let w := on_election (λ el, set_last_votes
                 (<[rep := VoteInfo (en_now e) timestamp_a hash_a]> (el_last_votes el)) el) w in
      let w := act (live_vote rep) w in
      w ← (if confirmed (wo_election w) then Ok w else confirm_if_quorum w);
      Ok (replay, true, w)
    else Ok (replay, false, w)
  else Ok (false, false, w).

(** [insert_inactive_votes_cache]: votes seen before the election; [min_time] is
    the smallest time point. *)
Definition insert_inactive_votes_cache (min_time hash_a : Z) (voters : list (Z * Z)) (w : world) :
    outcome world :=
  let w := on_election (λ el, set_last_votes
    (fold_left (λ m x, match m !! x.1 with
                       | Some _ => m
                       | None => <[x.1 := VoteInfo min_time x.2 hash_a]> m
                       end) voters (el_last_votes el)) el) w in
  if confirmed (wo_election w) then Ok w else
  if bool_decide (1 < size (el_last_votes (wo_election w)))%nat then confirm_if_quorum w else Ok w.

(** [generate_votes]. *)
Definition generate_votes (w : world) : outcome world :=
  if en_voting e then
    let hash := block_hash (es_winner (el_status (wo_election w))) in
    let root := el_root (wo_election w) in
    if confirmed (wo_election w) then Ok (act (generate_final_vote root hash) w) else
    let '(t, el) := tally_impl (wo_election w) in
    quorum ← have_quorum t;
    let w := on_election (λ _, el) w in
    Ok (if (quorum : bool) then act (generate_final_vote root hash) w
        else act (generate_vote root hash) w)
  else Ok w.

(** ** Blocks *)

(** [remove_block]: never the winner. *)
Definition remove_block (hash_a : Z) (w : world) : world :=
  let el := wo_election w in
  if negb (block_hash (es_winner (el_status el)) =? hash_a) then
    match el_last_blocks el !! hash_a with
    | Some b =>
        on_election (λ el, set_last_blocks (delete hash_a (el_last_blocks el)) el)
          (act (publish_filter_clear b)
             (on_election (λ el, set_last_votes
                (filter (λ x, vi_hash x.2 ≠ hash_a) (el_last_votes el)) el) w))
    | None => w
    end
  else w.

(** [std::sort] by ascending weight. *)
Definition by_weight (x y : Z * Z) : Prop := x.2 <= y.2.
#[export] Instance by_weight_dec : RelDecision by_weight.
Proof. intros x y. unfold by_weight. apply _. Defined.

(** The block [replace_by_weight] picks; 0 is none.  The two accesses into the
    sorted vector are made when it has at least [max_blocks] elements. *)
Definition replaced_block (el : election) (hash_a : Z) : Z :=
  let winner_hash := block_hash (es_winner (el_status el)) in
  let sorted := merge_sort by_weight (en_order e _ (map_to_list (el_last_tally el))) in
  let inactive_tally := en_inactive_tally e hash_a in
  if (0 <? inactive_tally) && bool_decide (length sorted < max_blocks)%nat then
    default 0 (fst <$> find (λ x : Z * block,
      negb (existsb (λ y : Z * Z, y.1 =? x.1) sorted) && negb (x.1 =? winner_hash))
      (en_order e _ (map_to_list (el_last_blocks el))))
  else
    match sorted with
    | x :: y :: _ =>
        if (0 <? inactive_tally) && (x.2 <? inactive_tally) then
          if negb (x.1 =? winner_hash) then x.1
          else if y.2 <? inactive_tally then y.1 else 0
        else 0
    | _ => 0
    end.

Definition replace_by_weight (hash_a : Z) (w : world) : bool * world :=
  let r := replaced_block (wo_election w) hash_a in
  if negb (r =? 0) then (true, remove_block r (act (erase_hash r) w)) else (false, w).

(** The room check of [publish]: a full election gives way only to a block with
    enough inactive votes.  The flag is the result so far. *)
Definition publish_room (b : block) (w : world) : bool * world :=
  let hash := block_hash b in
  let result := confirmed (wo_election w) in
  if negb result && bool_decide (max_blocks <= size (el_last_blocks (wo_election w)))%nat
     && bool_decide (el_last_blocks (wo_election w) !! hash = None) then
    let '(replaced, w) := replace_by_weight hash w in
    if (replaced : bool) then (result, w) else (true, act (publish_filter_clear b) w)
  else (result, w).

(** The insertion; a block that is there is replaced by the new copy. *)
Definition publish_insert (b : block) (w : world) : bool * world :=
  let hash := block_hash b in
  let known := el_last_blocks (wo_election w) !! hash in
  let w := on_election (λ el, set_last_blocks (<[hash := b]> (el_last_blocks el)) el) w in
  match known with
  | None => (false, w)
  | Some _ =>
      if block_hash (es_winner (el_status (wo_election w))) =? hash
      then (true, act (flood_block b)
                    (on_election (λ el, set_status (set_winner b (el_status el)) el) w))
      else (true, w)
  end.

(** [publish]: true when the block is not new to the election. *)
Definition publish (b : block) (w : world) : bool * world :=
  let '(result, w) := publish_room b w in
  if (result : bool) then (result, w) else publish_insert b w.

(** [force_confirm], on the dev network only. *)
Definition force_confirm (type : election_status_type) (w : world) : outcome world :=
  if en_dev_network e then Ok (confirm_once type w) else Aborted.

(** [tally], and [current_status] with its votes and tally; both recompute the
    cached tally. *)
Definition election_tally (el : election) : tally_t * election := tally_impl el.

Definition current_status (el : election) :
    election_status * gmap Z vote_info * tally_t * election :=
  let s := el_status el in
  let status_l := ElectionStatus (es_winner s) (es_tally s) (es_final_tally s) (es_election_end s)
    (es_election_duration s) (el_confirmation_request_count el)
    (Z.of_nat (size (el_last_blocks el))) (Z.of_nat (size (el_last_votes el))) (es_type s) in
  let '(t, el) := tally_impl el in
  (status_l, el_last_votes el, t, el).

(** [find] and [votes_with_weight]: by decreasing cached weight, without the null
    account. *)
Definition election_find (el : election) (hash_a : Z) : option block := el_last_blocks el !! hash_a.

Definition heavier (x y : Z * (Z * vote_info)) : Prop := y.1 <= x.1.
#[export] Instance heavier_dec : RelDecision heavier.
Proof. intros x y. unfold heavier. apply _. Defined.

Definition votes_with_weight (rep_weight : Z → Z) (el : election) : list (Z * (Z * vote_info)) :=
  merge_sort heavier
    (map (λ x, (rep_weight x.1, x))
       (filter (λ x, x.1 ≠ 0) (en_order e _ (map_to_list (el_last_votes el))))).
End election.
