(* ===== verification/ElectionTheorems.v ===== *)
(** * What an election confirms

    The tally is exact, a block is confirmed only with a lead of the quorum
    delta over every block of another weight, a representative's vote is only
    replaced by a newer one, and a confirmed election keeps its winner. *)

From S2P Require Import Prelude Blocks Election.

(** ** Tally *)

Section tally.
Context `{Crypto} (e : env).

(** The weight behind a hash, and behind all votes. *)
Definition support (votes : gmap Z vote_info) (hash : Z) : Z :=
  lsum (λ x, if vi_hash x.2 =? hash then en_weight e x.1 else 0) (map_to_list votes).

Definition total_weight (votes : gmap Z vote_info) : Z :=
  lsum (λ x, en_weight e x.1) (map_to_list votes).

(** Weights are non-negative and all the votes together fit 128 bits. *)
Record weights_ok (votes : gmap Z vote_info) : Prop := {
  wk_order : env_ok e;
  wk_nonneg : ∀ a, 0 <= en_weight e a;
  wk_total : total_weight votes < u128_mod;
}.

Lemma wrap128_le n : 0 <= n → 0 <= wrap128 n <= n.
Proof. intros Hn. unfold wrap128, u128_mod. split; [apply Z.mod_pos_bound; lia | apply Z.mod_le; lia]. Qed.

Lemma lsum_nonneg {A} (f : A → Z) l : (∀ x, 0 <= f x) → 0 <= lsum f l.
Proof. intros Hf. unfold lsum. induction l as [| x l IH]; simpl; [lia |]. specialize (Hf x). lia. Qed.

Lemma lsum_le {A} (f g : A → Z) l : (∀ x, f x <= g x) → lsum f l <= lsum g l.
Proof. intros Hf. unfold lsum. induction l as [| x l IH]; simpl; [lia |]. specialize (Hf x). lia. Qed.

Section fold.
Context (Hnn : ∀ a, 0 <= en_weight e a).

Local Abbreviation step := (λ m (x : Z * vote_info), add_weight m (vi_hash x.2) (en_weight e x.1)).
Local Abbreviation part h := (λ x : Z * vote_info, if vi_hash x.2 =? h then en_weight e x.1 else 0).

Lemma fold_weights_value l m h :
  (∀ k, is_u128 (default 0 (m !! k))) →
  default 0 (fold_left step l m !! h) = wrap128 (default 0 (m !! h) + lsum (part h) l).
Proof using.
  revert m. induction l as [| x l IH]; intros m Hm; simpl.
  - unfold lsum. simpl. rewrite Z.add_0_r, wrap128_small; done.
  - rewrite IH.
    + unfold add_weight. rewrite lookup_insert. unfold lsum. simpl.
      destruct (Z.eqb_spec (vi_hash x.2) h) as [-> | Hne]; simpl.
      * rewrite decide_True by done. simpl. rewrite wrap128_add_l. f_equal. lia.
      * rewrite decide_False by done. f_equal.
    + intros k. unfold add_weight. rewrite lookup_insert. case_decide; [apply wrap128_range | done].
Qed.

Lemma fold_weights_dom l m h :
  is_Some (fold_left step l m !! h) ↔ is_Some (m !! h) ∨ ∃ x, x ∈ l ∧ vi_hash x.2 = h.
Proof using.
  revert m. induction l as [| x l IH]; intros m; simpl.
  - split; [by left | intros [? | (x & Hx & _)]; [done | by apply elem_of_nil in Hx]].
  - rewrite IH. unfold add_weight. rewrite lookup_insert. split.
    + intros [Hs | (y & Hy & Hh)].
      * case_decide; [right; exists x; split; [by left | done] | by left].
      * right. exists y. split; [by right | done].
    + intros [Hs | (y & [-> | Hy]%elem_of_cons & Hh)].
      * left. by case_decide.
      * left. rewrite decide_True by done. done.
      * right. by exists y.
Qed.

(** No weight is counted twice. *)
Lemma fold_weights_sum l m :
  (∀ k, is_u128 (default 0 (m !! k))) →
  lsum snd (map_to_list (fold_left step l m)) <=
  lsum snd (map_to_list m) + lsum (λ x, en_weight e x.1) l.
Proof using Hnn.
  revert m. induction l as [| x l IH]; intros m Hm; simpl; [unfold lsum; simpl; lia |].
  assert (Hm' : ∀ k, is_u128 (default 0 (step m x !! k))).
  { intros k. unfold add_weight. rewrite lookup_insert. case_decide; [apply wrap128_range | done]. }
  etransitivity; [by apply IH |]. unfold lsum at 4. simpl. fold (@lsum (Z * vote_info)).
  assert (Hs : lsum snd (map_to_list (step m x)) <= lsum snd (map_to_list m) + en_weight e x.1).
  { unfold add_weight. specialize (Hnn x.1). specialize (Hm (vi_hash x.2)).
    pose proof (wrap128_le (default 0 (m !! vi_hash x.2) + en_weight e x.1)) as Hw.
    destruct (m !! vi_hash x.2) as [v |] eqn:Hv; simpl in *.
    - rewrite <- (insert_id m _ _ Hv) at 2. rewrite <- !(insert_delete_eq m).
      rewrite !(lsum_perm _ _ _ (map_to_list_insert (delete (vi_hash x.2) m) _ _ (lookup_delete_eq _ _))).
      unfold lsum. simpl. unfold is_u128 in Hm. lia.
    - rewrite (lsum_perm _ _ _ (map_to_list_insert m _ _ Hv)). unfold lsum. simpl. lia. }
  unfold lsum in *. lia.
Qed.
End fold.

Lemma block_weights_dom votes h :
  env_ok e →
  is_Some (block_weights e votes !! h) ↔ ∃ rep i, votes !! rep = Some i ∧ vi_hash i = h.
Proof.
  intros Ho. unfold block_weights. rewrite fold_weights_dom.
  rewrite lookup_empty. split.
  - intros [[? ?] | ([rep i] & Hx & Hh)]; [done |]. rewrite (Ho _ _) in Hx.
    apply elem_of_map_to_list in Hx. by exists rep, i.
  - intros (rep & i & Hi & Hh). right. exists (rep, i). rewrite (Ho _ _).
    split; [by apply elem_of_map_to_list | done].
Qed.

Section weights.
Context (votes : gmap Z vote_info) (Hok : weights_ok votes).

Lemma support_range h : 0 <= support votes h <= total_weight votes.
Proof using Hok.
  destruct Hok as [_ Hnn _]. unfold support, total_weight. split.
  - apply lsum_nonneg. intros x. case_match; [apply Hnn | lia].
  - apply lsum_le. intros x. specialize (Hnn x.1). case_match; lia.
Qed.

Lemma support_two h h' : h ≠ h' → support votes h + support votes h' <= total_weight votes.
Proof using Hok.
  destruct Hok as [_ Hnn _]. intros Hne. unfold support, total_weight.
  induction (map_to_list votes) as [| x l IH]; unfold lsum in *; simpl; [lia |].
  specialize (Hnn x.1). destruct (Z.eqb_spec (vi_hash x.2) h), (Z.eqb_spec (vi_hash x.2) h'); lia.
Qed.

(** The tally of a hash is the weight of the accounts whose last vote is for it. *)
Lemma block_weights_value h : default 0 (block_weights e votes !! h) = support votes h.
Proof using Hok.
  pose proof (support_range h) as Hr. destruct Hok as [Ho Hnn Ht]. unfold block_weights.
  rewrite fold_weights_value by (intros; by rewrite lookup_empty).
  rewrite lookup_empty. simpl. rewrite (lsum_perm _ _ _ (Ho _ (map_to_list votes))).
  apply wrap128_small. unfold is_u128. fold (support votes h). lia.
Qed.

Lemma block_weights_Some h a : block_weights e votes !! h = Some a → a = support votes h.
Proof using Hok. intros Hh. rewrite <- block_weights_value, Hh. done. Qed.

Lemma block_weights_sum : lsum snd (map_to_list (block_weights e votes)) <= total_weight votes.
Proof using Hok.
  destruct Hok as [Ho Hnn _]. unfold block_weights. etransitivity;
    [apply fold_weights_sum; [done | intros; by rewrite lookup_empty] |].
  rewrite map_to_list_empty, (lsum_perm _ _ _ (Ho _ (map_to_list votes))). unfold lsum at 1. simpl.
  unfold total_weight. lia.
Qed.
End weights.

(** ** The ordered tally *)

Local Abbreviation descending := (StronglySorted (λ x y : Z * block, y.1 < x.1)).

Lemma tally_emplace_fst amount b t a : a ∈ (tally_emplace amount b t).*1 ↔ a = amount ∨ a ∈ t.*1.
Proof.
  induction t as [| [a' c] t IH]; simpl; [by rewrite list_elem_of_singleton, elem_of_nil; naive_solver |].
  destruct (Z.ltb_spec a' amount); [| destruct (Z.eqb_spec a' amount)]; simpl; rewrite !elem_of_cons;
    [| | rewrite IH]; naive_solver.
Qed.

Lemma tally_emplace_elem amount b t x : x ∈ tally_emplace amount b t → x = (amount, b) ∨ x ∈ t.
Proof.
  induction t as [| [a' c] t IH]; simpl; [by rewrite list_elem_of_singleton; left |].
  destruct (Z.ltb_spec a' amount); [| destruct (Z.eqb_spec a' amount)]; rewrite ?elem_of_cons; naive_solver.
Qed.

Lemma tally_emplace_sorted amount b t : descending t → descending (tally_emplace amount b t).
Proof.
  induction 1 as [| [a' c] t Ht IH Hx]; simpl; [by repeat constructor |].
  destruct (Z.ltb_spec a' amount); [| destruct (Z.eqb_spec a' amount)].
  - constructor; [by constructor |]. constructor; [done |]. eapply Forall_impl; [exact Hx |].
    simpl. intros. lia.
  - by constructor.
  - constructor; [done |]. apply Forall_forall. intros y [-> | Hy]%tally_emplace_elem; simpl; [lia |].
    rewrite Forall_forall in Hx. by apply (Hx y).
Qed.

Lemma tally_emplace_sum amount b t :
  0 <= amount → lsum fst (tally_emplace amount b t) <= amount + lsum fst t.
Proof.
  intros Ha. induction t as [| [a' c] t IH]; unfold lsum in *; simpl in *; [lia |].
  destruct (Z.ltb_spec a' amount); [| destruct (Z.eqb_spec a' amount)]; simpl; lia.
Qed.

Local Abbreviation tally_step blocks := (λ t (x : Z * Z),
  match blocks !! x.1 with Some b => tally_emplace x.2 b t | None => t end).

Section blocks.
Context (blocks : gmap Z block).

Lemma fold_tally_sorted l t : descending t → descending (fold_left (tally_step blocks) l t).
Proof.
  revert t. induction l as [| x l IH]; intros t Ht; simpl; [done |]. apply IH.
  case_match; [by apply tally_emplace_sorted | done].
Qed.

Lemma fold_tally_fst l t a :
  a ∈ (fold_left (tally_step blocks) l t).*1 ↔
  a ∈ t.*1 ∨ ∃ h b, (h, a) ∈ l ∧ blocks !! h = Some b.
Proof.
  revert t. induction l as [| [h a'] l IH]; intros t; simpl.
  - split; [by left | intros [? | (h & b & Hx & _)]; [done | by apply elem_of_nil in Hx]].
  - rewrite IH. setoid_rewrite elem_of_cons. destruct (blocks !! h) as [b |] eqn:Hb.
    + rewrite tally_emplace_fst. naive_solver.
    + naive_solver.
Qed.

Lemma fold_tally_elem l t x :
  x ∈ fold_left (tally_step blocks) l t → x ∈ t ∨ ∃ h, (h, x.1) ∈ l ∧ blocks !! h = Some x.2.
Proof.
  revert t. induction l as [| [h a'] l IH]; intros t; simpl; [by left |].
  setoid_rewrite elem_of_cons. intros [Hx | (h' & Hx & Hb)]%IH; [| naive_solver].
  destruct (blocks !! h) as [b |] eqn:Hb; [| by left].
  apply tally_emplace_elem in Hx as [-> | Hx]; [| by left]. right. exists h. simpl. by auto.
Qed.

Lemma fold_tally_sum l t :
  (∀ x, x ∈ l → 0 <= x.2) →
  lsum fst (fold_left (tally_step blocks) l t) <= lsum fst t + lsum snd l.
Proof.
  revert t. induction l as [| [h a'] l IH]; intros t Hl; simpl; [unfold lsum; simpl; lia |].
  etransitivity; [apply IH; intros; apply Hl; by right |].
  assert (Ha : 0 <= a') by (apply (Hl (h, a')); by left).
  unfold lsum at 4. simpl. fold (@lsum (Z * Z)). destruct (blocks !! h) as [b |].
  - pose proof (tally_emplace_sum a' b t Ha). unfold lsum in *. lia.
  - unfold lsum in *. lia.
Qed.
End blocks.

(** The first two entries of a tally bound the others. *)
Lemma descending_leads first b (rest : list (Z * block)) a :
  descending ((first, b) :: rest) → a ∈ ((first, b) :: rest).*1 →
  a <= first ∧ (a < first → rest ≠ [] ∧ a <= match rest with [] => 0 | (s, _) :: _ => s end).
Proof.
  intros [Hs Hmax]%StronglySorted_inv. rewrite Forall_forall in Hmax.
  intros [-> | Hin]%elem_of_cons; [split; [done | simpl; lia] |].
  apply list_elem_of_fmap in Hin as (y & -> & Hy). pose proof (Hmax y Hy) as Hlt. simpl in Hlt.
  split; [lia | intros _]. destruct rest as [| [s c] rest]; [by apply elem_of_nil in Hy |].
  split; [done |]. apply StronglySorted_inv in Hs as [_ Hs]. rewrite Forall_forall in Hs.
  apply elem_of_cons in Hy as [-> | Hy]; [done |]. specialize (Hs y Hy). simpl in Hs. lia.
Qed.

Lemma lsum_fst_nonneg (t : list (Z * block)) : (∀ a, a ∈ t.*1 → 0 <= a) → 0 <= lsum fst t.
Proof.
  induction t as [| [s c] t IH]; intros Hpos; unfold lsum in *; simpl in *; [lia |].
  assert (0 <= s) by (apply Hpos; by left).
  enough (0 <= foldr (λ x n, x.1 + n) 0 t) by lia. apply IH. intros a Ha. apply Hpos. by right.
Qed.

Section leader.
Context (votes : gmap Z vote_info) (blocks : gmap Z block) (first : Z) (b : block) (rest : list (Z * block))
  (Hok : weights_ok votes) (Hkey : ∀ h b, blocks !! h = Some b → block_hash b = h)
  (Ht : tally_of e blocks (block_weights e votes) = (first, b) :: rest).

(** The weights in the tally are those of the blocks voted for. *)
Lemma tally_keys a :
  a ∈ ((first, b) :: rest).*1 ↔ ∃ h c, block_weights e votes !! h = Some a ∧ blocks !! h = Some c.
Proof using Hok Ht.
  destruct Hok as [Ho _ _]. unfold tally_of in Ht. rewrite <- Ht, fold_tally_fst. simpl.
  rewrite elem_of_nil. setoid_rewrite (Ho _ (map_to_list (block_weights e votes))).
  setoid_rewrite elem_of_map_to_list. naive_solver.
Qed.

Lemma tally_nonneg a : a ∈ ((first, b) :: rest).*1 → 0 <= a.
Proof using Hok Ht.
  intros (h & c & Hw & _)%tally_keys. apply block_weights_Some in Hw as ->; [| done].
  by apply support_range.
Qed.

Lemma tally_support h c :
  blocks !! h = Some c → support votes h = 0 ∨ support votes h ∈ ((first, b) :: rest).*1.
Proof using Hok Ht.
  intros Hc. destruct (block_weights e votes !! h) as [a |] eqn:Hw.
  - right. apply tally_keys. exists h, c. by rewrite <- (block_weights_Some votes Hok _ _ Hw).
  - left. by rewrite <- block_weights_value, Hw.
Qed.

Lemma tally_first : blocks !! block_hash b = Some b ∧ first = support votes (block_hash b).
Proof using Hok Hkey Ht.
  pose proof Hok as [Ho _ _]. unfold tally_of in Ht.
  assert (Hb : (first, b) ∈ fold_left (tally_step blocks)
    (en_order e _ (map_to_list (block_weights e votes))) []) by (rewrite Ht; by left).
  apply fold_tally_elem in Hb as [Hb | (h & Hh & Hb)]; [by apply elem_of_nil in Hb |].
  simpl in *. rewrite (Ho _ _) in Hh. apply elem_of_map_to_list in Hh.
  pose proof (Hkey _ _ Hb) as <-. split; [done | by apply block_weights_Some].
Qed.

Lemma tally_total : first + lsum fst rest <= total_weight votes.
Proof using Hok Ht.
  pose proof Hok as [Ho _ _]. unfold tally_of in Ht.
  enough (lsum fst ((first, b) :: rest) <= total_weight votes) by (by unfold lsum in *).
  rewrite <- Ht. etransitivity; [apply fold_tally_sum |].
  - intros [h' a']. rewrite (Ho _ _). intros Hx%elem_of_map_to_list. simpl.
    apply block_weights_Some in Hx as ->; [| done]. by apply support_range.
  - unfold lsum at 1. simpl. rewrite (lsum_perm _ _ _ (Ho _ (map_to_list (block_weights e votes)))).
    by apply block_weights_sum.
Qed.

(** The leader has the largest support of all the blocks voted for, and what comes
    second has the largest support below it. *)
Lemma tally_leader :
  blocks !! block_hash b = Some b ∧ first = support votes (block_hash b) ∧
  (∀ h c, blocks !! h = Some c → support votes h <= first) ∧
  (∀ h c, blocks !! h = Some c → support votes h < first →
     support votes h <= match rest with [] => 0 | (s, _) :: _ => s end) ∧
  match rest with [] => True | (s, _) :: _ => 0 <= s < first end ∧
  0 <= lsum fst rest ∧ first + lsum fst rest <= total_weight votes.
Proof using Hok Hkey Ht.
  assert (Hs : descending ((first, b) :: rest)).
  { rewrite <- Ht. apply fold_tally_sorted. constructor. }
  pose proof tally_nonneg as Hnn. destruct tally_first as [Hb Hf]. split_and!; [done | done | | | | | exact tally_total].
  - intros h c Hc. destruct (tally_support h c Hc) as [-> | Hin]; [apply Hnn; by left |].
    by apply (descending_leads _ _ _ _ Hs Hin).
  - intros h c Hc Hlt. destruct (tally_support h c Hc) as [Hz | Hin].
    + rewrite Hz. destruct rest as [| [s c'] rest']; [lia |]. apply Hnn. right. by left.
    + by apply (descending_leads _ _ _ _ Hs Hin).
  - destruct rest as [| [s c'] rest']; [done |]. split; [apply Hnn; right; by left |].
    apply StronglySorted_inv in Hs as [_ Hmax]. rewrite Forall_forall in Hmax.
    apply (Hmax (s, c')). by left.
  - apply lsum_fst_nonneg. intros a Ha. apply Hnn. by right.
Qed.
End leader.
End tally.

Section confirmation.
Context `{Crypto}.

(** ** The winner is one of the blocks *)

Record election_inv (el : election) : Prop := {
  ei_keys : ∀ h b, el_last_blocks el !! h = Some b → block_hash b = h;
  ei_winner : el_last_blocks el !! block_hash (es_winner (el_status el)) = Some (es_winner (el_status el));
}.

(** Where an entry of the tally comes from. *)
Lemma tally_member e el first b rest :
  (tally_impl e el).1 = (first, b) :: rest →
  ∃ h, (h, first) ∈ en_order e _ (map_to_list (block_weights e (el_last_votes el))) ∧
    el_last_blocks el !! h = Some b.
Proof.
  unfold tally_impl, tally_of. simpl. intros Ht.
  match type of Ht with fold_left _ ?l _ = _ =>
    assert (Hb : (first, b) ∈ fold_left (λ t (x : Z * Z), match el_last_blocks el !! x.1 with
      | Some b => tally_emplace x.2 b t | None => t end) l []) by (rewrite Ht; by left);
    apply fold_tally_elem in Hb as [Hb | Hb] end; [by apply elem_of_nil in Hb | done].
Qed.

Lemma fold_wrap128 {A} (f : A → Z) l n :
  is_u128 n → fold_left (λ n x, wrap128 (n + f x)) l n = wrap128 (n + lsum f l).
Proof.
  revert n. induction l as [| x l IH]; intros n Hn; simpl.
  - rewrite Z.add_0_r, wrap128_small; done.
  - rewrite IH by auto with widths. rewrite wrap128_add_l. f_equal. unfold lsum. lia.
Qed.

(** The confirmations announced so far. *)
Definition announcements (w : world) : list election_status :=
  omap (λ a, match a with process_confirmed s => Some s | _ => None end) (wo_actions w).

(** Steps that touch neither the state, nor the blocks, nor the final weight, nor
    announce anything. *)
Definition calm (w w' : world) : Prop :=
  el_state (wo_election w') = el_state (wo_election w) ∧
  el_last_blocks (wo_election w') = el_last_blocks (wo_election w) ∧
  el_final_weight (wo_election w') = el_final_weight (wo_election w) ∧
  announcements w' = announcements w.

Lemma calm_trans w1 w2 w3 : calm w1 w2 → calm w2 w3 → calm w1 w3.
Proof. unfold calm. naive_solver congruence. Qed.

Lemma act_announcements a w :
  (∀ s, a ≠ process_confirmed s) → announcements (act a w) = announcements w.
Proof.
  intros Ha. unfold announcements, act. simpl. rewrite omap_app. simpl.
  destruct a; rewrite ?app_nil_r; try done. by destruct (Ha s).
Qed.

Lemma act_calm a w : (∀ s, a ≠ process_confirmed s) → calm w (act a w).
Proof. intros Ha. split_and!; try done. by apply act_announcements. Qed.

Lemma update_winner_calm e t b w :
  calm w (update_winner e t b w) ∧
  es_winner (el_status (wo_election (update_winner e t b w))) =
  if (en_delta e <=? wrap128 (lsum fst t))
     && negb (block_hash b =? block_hash (es_winner (el_status (wo_election w))))
  then b else es_winner (el_status (wo_election w)).
Proof.
  unfold update_winner. rewrite fold_wrap128 by done. rewrite Z.add_0_l. destruct (_ && _); [| done].
  split; [| unfold remove_votes; by destruct (en_voting e)].
  eapply calm_trans; [| by apply act_calm]. unfold remove_votes. destruct (en_voting e); [| done].
  eapply calm_trans; [| by apply act_calm]. done.
Qed.

Lemma request_final_vote_calm e w :
  calm w (request_final_vote e w) ∧
  el_status (wo_election (request_final_vote e w)) = el_status (wo_election w).
Proof.
  unfold request_final_vote. destruct (en_canary e); [| done].
  destruct (_ && _); [| done]. split; [| done]. eapply calm_trans; [| by apply act_calm]. done.
Qed.

(** What [confirm_if_quorum] can do, before the confirmation itself. *)
Lemma confirm_if_quorum_cases e w w' :
  confirm_if_quorum e w = Ok w' →
  ∃ first b rest quorum w1,
    (tally_impl e (wo_election w)).1 = (first, b) :: rest ∧
    have_quorum e ((first, b) :: rest) = Ok quorum ∧
    w' = (if quorum && (negb (en_canary e) || (en_delta e <=? el_final_weight (wo_election w1)))
          then confirm_once e active_confirmed_quorum w1 else w1) ∧
    calm (on_election (λ _, (tally_impl e (wo_election w)).2) w) w1 ∧
    es_winner (el_status (wo_election w1)) =
      (if (en_delta e <=? wrap128 (lsum fst ((first, b) :: rest)))
          && negb (block_hash b =? block_hash (es_winner (el_status (wo_election w))))
       then b else es_winner (el_status (wo_election w))).
Proof.
  unfold confirm_if_quorum. destruct (tally_impl e (wo_election w)) as [t el] eqn:Ht.
  destruct t as [| [first b] rest]; [done |].
  assert (Hstat : el_status el = el_status (wo_election w)) by (unfold tally_impl in Ht; by simplify_eq/=).
  destruct (have_quorum e ((first, b) :: rest)) as [q |] eqn:Hq; [| done]. cbn [mbind outcome_bind].
  match goal with |- context [update_winner e ?t ?b ?w] =>
    destruct (update_winner_calm e t b w) as [Hc Hw]; set (w2 := update_winner e t b w) in * end.
  simpl in Hw. rewrite Hstat in Hw. destruct (request_final_vote_calm e w2) as [Hc' Hs'].
  intros Hok. exists first, b, rest, q. destruct q.
  - exists (request_final_vote e w2). split_and!; [done | done | | | by rewrite Hs'].
    + by destruct (_ || _); simplify_eq/=.
    + eapply calm_trans; [| exact Hc']. eapply calm_trans; [| exact Hc]. done.
  - exists w2. split_and!; [done | done | by simplify_eq/= | | done].
    eapply calm_trans; [| exact Hc]. done.
Qed.

Lemma have_quorum_lead e first b rest :
  have_quorum e ((first, b) :: rest) = Ok true →
  match rest with [] => 0 | (s, _) :: _ => s end + en_delta e <= first.
Proof.
  unfold have_quorum. destruct (first <? _) eqn:Hlt; [done |]. intros [= Hq]. lia.
Qed.

Lemma confirm_once_state e type w :
  confirmed (wo_election (confirm_once e type w)) = true ∧
  es_winner (el_status (wo_election (confirm_once e type w))) = es_winner (el_status (wo_election w)) ∧
  el_last_blocks (wo_election (confirm_once e type w)) = el_last_blocks (wo_election w) ∧
  el_final_weight (wo_election (confirm_once e type w)) = el_final_weight (wo_election w).
Proof. unfold confirm_once. by destruct (_ && _). Qed.

(** The condition under which [confirm_if_quorum] confirms. *)
Definition quorum_for (e : env) (votes : gmap Z vote_info) (blocks : gmap Z block) (winner : Z) : Prop :=
  is_Some (blocks !! winner) ∧ en_delta e <= support e votes winner ∧
  (∀ h c, blocks !! h = Some c → support e votes h ≠ support e votes winner →
     support e votes h + en_delta e <= support e votes winner) ∧
  (total_weight e votes < 2 * en_delta e → ∀ h c, blocks !! h = Some c → h ≠ winner →
     support e votes h + en_delta e <= support e votes winner).

Lemma confirm_if_quorum_sound e w w' :
  election_inv (wo_election w) → weights_ok e (el_last_votes (wo_election w)) → 0 <= en_delta e →
  confirmed (wo_election w) = false → confirm_if_quorum e w = Ok w' →
  confirmed (wo_election w') = true →
  quorum_for e (el_last_votes (wo_election w)) (el_last_blocks (wo_election w))
    (block_hash (es_winner (el_status (wo_election w')))) ∧
  (en_canary e = true → en_delta e <= el_final_weight (wo_election w')).
Proof.
  intros [Hkeys _] Hok Hd Hun Hc Hconf.
  apply confirm_if_quorum_cases in Hc as (first & b & rest & q & w1 & Ht & Hq & -> & (Hst & Hbl & _) & Hwin).
  simpl in Hst. assert (Hst' : el_state (wo_election w1) = el_state (wo_election w)) by done.
  destruct (q && _) eqn:Hqc; [| unfold confirmed in Hun, Hconf; by rewrite Hst', Hun in Hconf].
  apply andb_true_iff in Hqc as [-> Hcan].
  destruct (confirm_once_state e active_confirmed_quorum w1) as (_ & -> & _ & ->).
  destruct (tally_leader e (el_last_votes (wo_election w)) (el_last_blocks (wo_election w)) first b rest
    Hok Hkeys Ht) as (Hb & Hfirst & Hmax & Hsecond & Hlt & Hrest & Hsum).
  pose proof (have_quorum_lead e first b rest Hq) as Hlead.
  assert (Hpos : 0 <= match rest with [] => 0 | (s, _) :: _ => s end).
  { destruct rest as [| [s c] rest]; lia. }
  assert (Hhash : block_hash (es_winner (el_status (wo_election w1))) = block_hash b).
  { rewrite Hwin. destruct (Z.eqb_spec (block_hash b) (block_hash (es_winner (el_status (wo_election w)))))
      as [-> | Hne]; [by rewrite andb_false_r |].
    rewrite wrap128_small; [| destruct Hok; unfold is_u128, lsum in *; simpl; lia].
    rewrite (proj2 (Z.leb_le _ _)); [done |]. unfold lsum in *. simpl. lia. }
  rewrite Hhash. split; [| intros Hcan'; rewrite Hcan' in Hcan; simpl in Hcan; lia].
  assert (Hgap : ∀ h c, el_last_blocks (wo_election w) !! h = Some c →
    support e (el_last_votes (wo_election w)) h ≠ first →
    support e (el_last_votes (wo_election w)) h + en_delta e <= first).
  { intros h c Hh Hne. specialize (Hmax h c Hh). specialize (Hsecond h c Hh ltac:(lia)). lia. }
  unfold quorum_for. rewrite <- Hfirst. split_and!; [by rewrite Hb | lia | done |].
  intros Htot h c Hh Hne. apply (Hgap h c Hh). intros He.
  pose proof (support_two e _ Hok h (block_hash b) Hne). lia.
Qed.

Lemma tally_amount e el first b rest :
  env_ok e → (tally_impl e el).1 = (first, b) :: rest → is_u128 first.
Proof.
  intros Ho (h & Hh & _)%tally_member. rewrite (Ho _ _) in Hh. apply elem_of_map_to_list in Hh.
  replace first with (default 0 (block_weights e (el_last_votes el) !! h)) by (by rewrite Hh).
  unfold block_weights. rewrite fold_weights_value by (intros; by rewrite lookup_empty).
  auto with widths.
Qed.

(** With a vote for a known block the tally has a leader. *)
Lemma confirm_if_quorum_total e w :
  env_ok e →
  (∃ rep i b, el_last_votes (wo_election w) !! rep = Some i ∧
     el_last_blocks (wo_election w) !! vi_hash i = Some b) →
  ∃ w', confirm_if_quorum e w = Ok w'.
Proof.
  intros Ho (rep & i & b & Hi & Hb). unfold confirm_if_quorum.
  destruct (tally_impl e (wo_election w)) as [t el] eqn:Ht.
  assert (Hs : StronglySorted (λ x y : Z * block, y.1 < x.1) t).
  { unfold tally_impl, tally_of in Ht. simplify_eq. apply fold_tally_sorted. constructor. }
  destruct t as [| [first c] rest].
  - exfalso. destruct (proj2 (block_weights_dom e (el_last_votes (wo_election w)) (vi_hash i) Ho)) as [a Ha];
      [by exists rep, i |].
    unfold tally_impl, tally_of in Ht. simplify_eq. rename select (fold_left _ _ _ = []) into Hn.
    assert (Hin : a ∈ (@nil (Z * block)).*1); [| by apply elem_of_nil in Hin].
    rewrite <- Hn. apply fold_tally_fst. right. exists (vi_hash i), b. split; [| done].
    rewrite (Ho _ _). by apply elem_of_map_to_list.
  - apply StronglySorted_inv in Hs as [_ Hs]. unfold have_quorum.
    assert (Hlt : ∀ s, s < first → (first <? s) = false) by lia.
    destruct rest as [| [s c'] rest].
    + destruct (Z.ltb_spec first 0) as [Hneg |].
      * exfalso. pose proof (tally_amount e (wo_election w) first c []) as Hr.
        rewrite Ht in Hr. specialize (Hr Ho eq_refl). unfold is_u128 in Hr. lia.
      * simpl. destruct (_ <=? _); [| by eexists]. destruct (_ || _); by eexists.
    + apply Forall_cons in Hs as [Hs _]. simpl in Hs. rewrite Hlt by done.
      simpl. destruct (_ <=? _); [| by eexists]. destruct (_ || _); by eexists.
Qed.

(** C9: A vote that takes an election from unconfirmed to confirmed leaves as winner
    a block of the election whose voting weight reaches the quorum delta and exceeds
    by the delta that of every block with a different weight, and that of every
    other block when twice the delta exceeds the votes cast; when final votes are
    required the final weight reaches the delta too. *)
Theorem confirmation_needs_quorum e w rep timestamp_a hash_a r p w' :
  election_inv (wo_election w) → 0 <= en_delta e →
  let votes := <[rep := VoteInfo (en_now e) timestamp_a hash_a]> (el_last_votes (wo_election w)) in
  weights_ok e votes →
  confirmed (wo_election w) = false →
  election_vote e rep timestamp_a hash_a w = Ok (r, p, w') → confirmed (wo_election w') = true →
  quorum_for e votes (el_last_blocks (wo_election w))
    (block_hash (es_winner (el_status (wo_election w')))) ∧
  (en_canary e = true → en_delta e <= el_final_weight (wo_election w')).
Proof.
  intros Hinv Hd votes Hok Hun Hv Hconf. unfold election_vote in Hv.
  destruct (_ || _); [| simplify_eq; congruence].
  destruct (should_process e (wo_election w) rep timestamp_a hash_a) as [[] replay]; [| simplify_eq; congruence].
  match type of Hv with context [confirm_if_quorum e ?x] => set (w1 := x) in Hv end.
  assert (Hun1 : confirmed (wo_election w1) = false) by done. rewrite Hun1 in Hv.
  destruct (confirm_if_quorum e w1) as [w2 |] eqn:Hc; simplify_eq/=.
  apply (confirm_if_quorum_sound e w1); try done. by destruct Hinv.
Qed.

(** ** Votes are replaced by newer ones only *)

(** Timestamp first, hash second. *)
Definition vote_newer (last : vote_info) (timestamp_a hash_a : Z) : Prop :=
  vi_timestamp last < timestamp_a ∨ (vi_timestamp last = timestamp_a ∧ vi_hash last < hash_a).

(** A vote for a block of the election is always handled; it replaces an
    earlier vote of the representative only when it is newer (timestamp, then hash)
    and past the cooldown or the first final vote; a replay is reported only for a
    vote that is not newer, and an unprocessed vote changes nothing. *)
Theorem vote_replaces_older_only e w rep timestamp_a hash_a :
  is_Some (el_last_blocks (wo_election w) !! hash_a) → env_ok e →
  ∃ replay processed w', election_vote e rep timestamp_a hash_a w = Ok (replay, processed, w') ∧
    (processed = false → w' = w) ∧
    (replay = true → ∃ last, el_last_votes (wo_election w) !! rep = Some last ∧
       ¬ vote_newer last timestamp_a hash_a) ∧
    (processed = true → ∀ last, el_last_votes (wo_election w) !! rep = Some last →
       vote_newer last timestamp_a hash_a ∧
       ((timestamp_a = u64_max ∧ vi_timestamp last < timestamp_a) ∨
        vi_time last + seconds (cooldown (en_weight e rep) (en_trended e)) <= en_now e)).
Proof.
  intros [b Hb] Ho. unfold election_vote. destruct (_ || _); [| by exists false, false, w].
  assert (Hs : ∀ process replay, should_process e (wo_election w) rep timestamp_a hash_a = (process, replay) →
    (replay = true → process = false ∧ ∃ last, el_last_votes (wo_election w) !! rep = Some last ∧
       ¬ vote_newer last timestamp_a hash_a) ∧
    (process = true → ∀ last, el_last_votes (wo_election w) !! rep = Some last →
       vote_newer last timestamp_a hash_a ∧
       ((timestamp_a = u64_max ∧ vi_timestamp last < timestamp_a) ∨
        vi_time last + seconds (cooldown (en_weight e rep) (en_trended e)) <= en_now e))).
  { unfold should_process, vote_newer. intros process replay.
    destruct (el_last_votes (wo_election w) !! rep) as [last |]; [| intros; by simplify_eq].
    destruct (_ || _) eqn:Hn; intros; simplify_eq; (split; [| intros Hp last' ?; simplify_eq]).
    - done.
    - split; [lia |]. apply orb_true_iff in Hp as [Hp | Hp]; [left | right]; lia.
    - intros _. split; [done |]. exists last. split; [done |]. lia. }
  destruct (should_process _ _ _ _ _) as [process replay]. destruct (Hs _ _ eq_refl) as [Hr Hp].
  destruct process.
  - match goal with |- context [confirm_if_quorum e ?x] => set (w1 := x) end.
    assert (Hw : ∃ w2, (if confirmed (wo_election w1) then Ok w1 else confirm_if_quorum e w1) = Ok w2).
    { destruct (confirmed (wo_election w1)); [by exists w1 |].
      apply confirm_if_quorum_total; [done |]. eexists rep, _, b. simpl. by rewrite lookup_insert_eq. }
    destruct Hw as [w2 ->]. exists replay, true, w2. split_and!; try done. intros ->. by destruct (Hr eq_refl).
  - exists replay, false, w. split_and!; try done. intros ->. by destruct (Hr eq_refl).
Qed.

(** ** Every operation keeps the winner among the blocks *)

Lemma confirm_if_quorum_inv e w w' :
  election_inv (wo_election w) → confirm_if_quorum e w = Ok w' → election_inv (wo_election w').
Proof.
  intros Hinv Hc. pose proof Hinv as [Hkeys Hwinner].
  apply confirm_if_quorum_cases in Hc as (first & b & rest & q & w1 & Ht & _ & -> & (_ & Hbl & _) & Hwin).
  simpl in Hbl. change (el_last_blocks (tally_impl e (wo_election w)).2)
    with (el_last_blocks (wo_election w)) in Hbl.
  apply tally_member in Ht as (h & _ & Hb). pose proof (Hkeys _ _ Hb) as Hh.
  assert (Hinv1 : election_inv (wo_election w1)).
  { split; rewrite Hbl, ?Hwin; [done |]. destruct (_ && _); [by rewrite Hh | done]. }
  destruct (q && _); [| done].
  destruct (confirm_once_state e active_confirmed_quorum w1) as (_ & Hw & Hb' & _).
  destruct Hinv1. split; rewrite Hb', ?Hw; done.
Qed.

Lemma remove_block_inv h w : election_inv (wo_election w) → election_inv (wo_election (remove_block h w)).
Proof.
  intros [Hkeys Hwin]. unfold remove_block. destruct (Z.eqb_spec (block_hash (es_winner (el_status (wo_election w)))) h);
    simpl; [done |]. destruct (el_last_blocks (wo_election w) !! h) as [c |]; [| done].
  split; simpl.
  - intros h' b' [_ Hb]%lookup_delete_Some. by apply Hkeys.
  - by rewrite lookup_delete_ne.
Qed.

Lemma publish_room_inv e b w :
  election_inv (wo_election w) → election_inv (wo_election (publish_room e b w).2).
Proof.
  intros Hinv. unfold publish_room, replace_by_weight. destruct (_ && _ && _); [| done].
  destruct (negb _); [| done]. by apply remove_block_inv.
Qed.

Lemma publish_insert_inv b w :
  election_inv (wo_election w) → election_inv (wo_election (publish_insert b w).2).
Proof.
  intros [Hk Hw]. unfold publish_insert.
  assert (Hkeys : ∀ h c, <[block_hash b := b]> (el_last_blocks (wo_election w)) !! h = Some c → block_hash c = h).
  { intros h c [[<- <-] | [_ Hc]]%lookup_insert_Some; [done | by apply Hk]. }
  destruct (el_last_blocks (wo_election w) !! block_hash b) eqn:Hn; simpl;
    [destruct (Z.eqb_spec (block_hash (es_winner (el_status (wo_election w)))) (block_hash b)) |];
    (split; [exact Hkeys |]); simpl.
  - by rewrite lookup_insert_eq.
  - by rewrite lookup_insert_ne.
  - rewrite lookup_insert_ne; [done |]. intros He. by rewrite He, Hw in Hn.
Qed.

Lemma publish_inv e b w :
  election_inv (wo_election w) → election_inv (wo_election (publish e b w).2).
Proof.
  intros Hinv. unfold publish. pose proof (publish_room_inv e b w Hinv) as Hr.
  destruct (publish_room e b w) as [[] w1]; [done |]. by apply publish_insert_inv.
Qed.

(** ** Steps *)

(** The operations of an election, each in an environment of its own; other
    elections announce winners and block processing takes them back. *)
Inductive election_step : world → world → Prop :=
| step_vote e rep timestamp_a hash_a r p w w' :
    election_vote e rep timestamp_a hash_a w = Ok (r, p, w') → election_step w w'
| step_publish e b w : election_step w (publish e b w).2
| step_cache e min_time hash_a voters w w' :
    insert_inactive_votes_cache e min_time hash_a voters w = Ok w' → election_step w w'
| step_time e broadcast_error request_error w :
    election_step w (on_election (λ el, (transition_time e broadcast_error request_error el).2) w)
| step_active e w : election_step w (on_election (transition_active e) w)
| step_generate e w w' : generate_votes e w = Ok w' → election_step w w'
| step_status e w : election_step w (on_election (λ el, (current_status e el).2) w)
| step_confirm e type w : confirmed (wo_election w) = false → election_step w (confirm_once e type w)
| step_cemented type w : election_step w (on_election (cemented_status type) w)
| step_winners details w : election_step w (World (wo_election w) details (wo_actions w)).

(** Timers leave blocks, winner and confirmation alone. *)
Definition timed (el el' : election) : Prop :=
  el_last_blocks el' = el_last_blocks el ∧ es_winner (el_status el') = es_winner (el_status el) ∧
  confirmed el' = confirmed el.

Lemma transition_switch_timed e b1 b2 el : timed el (transition_switch e b1 b2 el).2.
Proof.
  unfold transition_switch, timed, confirmed. destruct (el_state el) eqn:Hs; simpl; rewrite ?Hs; try done.
  - destruct (_ <? _); simpl; [| by rewrite Hs]. unfold state_change. by rewrite Hs.
  - unfold send_confirm_req, broadcast_block. destruct (_ && _); simpl; destruct (_ && _); simpl;
      by rewrite ?Hs.
  - destruct (_ <? _); simpl; [| by rewrite Hs]. unfold state_change. by rewrite Hs.
Qed.

Lemma transition_time_timed e b1 b2 el : timed el (transition_time e b1 b2 el).2.
Proof.
  unfold transition_time. pose proof (transition_switch_timed e b1 b2 el) as Ht.
  destruct (transition_switch e b1 b2 el) as [r el1]. simpl in Ht.
  destruct (confirmed el1) eqn:Hc1; simpl; [done |]. destruct (_ <? _); [| done].
  unfold state_change. destruct (valid_change _ _); [| done].
  rewrite bool_decide_true by done. destruct Ht as (Hb & Hw & Hc).
  destruct (en_log_expired e); split_and!; simpl; try done; by rewrite <- Hc, Hc1.
Qed.

Lemma transition_active_timed e el : timed el (transition_active e el).
Proof.
  unfold transition_active, state_change, timed, confirmed. simpl. case_bool_decide as Hs; [| done].
  by rewrite Hs.
Qed.

(** [confirm_if_quorum] and announcements. *)
Lemma confirm_once_announces e type w :
  announcements (confirm_once e type w) = announcements w ∨
  ∃ s, announcements (confirm_once e type w) = announcements w ++ [s] ∧
    es_winner s = es_winner (el_status (wo_election w)).
Proof.
  unfold confirm_once. destruct (_ && _); [| by left]. right. eexists. split.
  - unfold announcements. simpl. rewrite omap_app. done.
  - done.
Qed.

(** What a step may announce: nothing, or once, confirming the winner. *)
Definition announces (w w' : world) : Prop :=
  announcements w' = announcements w ∨
  ∃ s, announcements w' = announcements w ++ [s] ∧ confirmed (wo_election w') = true ∧
    es_winner s = es_winner (el_status (wo_election w')).

Lemma confirm_if_quorum_announces e w w' : confirm_if_quorum e w = Ok w' → announces w w'.
Proof.
  intros (first & b & rest & q & w1 & _ & _ & -> & (_ & _ & _ & Ha) & _)%confirm_if_quorum_cases.
  change (announcements (on_election _ w)) with (announcements w) in Ha.
  unfold announces. rewrite <- Ha. destruct (q && _); [| by left].
  destruct (confirm_once_state e active_confirmed_quorum w1) as (Hc & Hw & _).
  destruct (confirm_once_announces e active_confirmed_quorum w1) as [-> | (s & -> & Hs)]; [by left | right].
  exists s. split_and!; [done | done |]. by rewrite Hw.
Qed.

Lemma remove_block_announcements h w : announcements (remove_block h w) = announcements w.
Proof.
  unfold remove_block. destruct (negb _); [| done].
  destruct (el_last_blocks (wo_election w) !! h) as [c |]; [| done].
  exact (act_announcements (publish_filter_clear c) w ltac:(done)).
Qed.

Lemma publish_announcements e b w : announcements (publish e b w).2 = announcements w.
Proof.
  assert (Hr : announcements (publish_room e b w).2 = announcements w).
  { unfold publish_room, replace_by_weight. destruct (_ && _ && _); [| done].
    destruct (negb _); simpl; [rewrite remove_block_announcements |]; by apply act_announcements. }
  unfold publish. destruct (publish_room e b w) as [[] w1]; [done |]. simpl in Hr. rewrite <- Hr.
  unfold publish_insert. destruct (el_last_blocks (wo_election w1) !! block_hash b); [| done].
  destruct (_ =? _); simpl; [| done].
  exact (act_announcements (flood_block b) w1 ltac:(done)).
Qed.

Lemma publish_confirmed e b w : confirmed (wo_election w) = true → publish e b w = (true, w).
Proof. intros Hc. unfold publish, publish_room. by rewrite Hc. Qed.

(** One step: what it keeps and what it announces. *)
Record step_ok (w w' : world) : Prop := {
  so_inv : election_inv (wo_election w) → election_inv (wo_election w');
  so_final : confirmed (wo_election w) = true →
    confirmed (wo_election w') = true ∧ announcements w' = announcements w ∧
    es_winner (el_status (wo_election w')) = es_winner (el_status (wo_election w));
  so_announces : announces w w';
}.

(** Steps that change no block, winner or confirmation and announce nothing. *)
Lemma step_ok_timed w w' :
  timed (wo_election w) (wo_election w') → announcements w' = announcements w → step_ok w w'.
Proof.
  intros (Hb & Hw & Hc) Ha. split.
  - intros [Hk Hwin]. split; rewrite Hb, ?Hw; done.
  - intros Hconf. by rewrite Hc.
  - by left.
Qed.

(** Votes recorded, and then the quorum check unless confirmed. *)
Lemma step_ok_votes e w w1 w' :
  timed (wo_election w) (wo_election w1) → announcements w1 = announcements w →
  (if confirmed (wo_election w1) then Ok w1 else confirm_if_quorum e w1) = Ok w' → step_ok w w'.
Proof.
  intros Ht Ha Hq. pose proof (step_ok_timed w w1 Ht Ha) as Hok.
  destruct (confirmed (wo_election w1)) eqn:Hc1; [by simplify_eq |].
  destruct Hok as [Hi _ _], Ht as (_ & _ & Hc). split.
  - intros Hinv. by eapply confirm_if_quorum_inv; [apply Hi |].
  - intros Hconf. congruence.
  - apply confirm_if_quorum_announces in Hq. unfold announces in *. by rewrite Ha in Hq.
Qed.

Lemma election_step_ok w w' : election_step w w' → step_ok w w'.
Proof.
  intros Hs. destruct Hs as [e rep ts h r p w w' Hv | e b w | e mt h voters w w' Hv | e b1 b2 w
    | e w | e w w' Hg | e w | e type w Hc | type w | details w].
  - unfold election_vote in Hv. destruct (_ || _); [| simplify_eq; by apply step_ok_timed].
    destruct (should_process e (wo_election w) rep ts h) as [[] replay];
      [| simplify_eq; by apply step_ok_timed].
    match type of Hv with context [confirm_if_quorum e ?x] => set (w1 := x) in Hv end.
    destruct (if confirmed (wo_election w1) then Ok w1 else confirm_if_quorum e w1) as [w2 |] eqn:Hq;
      simplify_eq/=. apply (step_ok_votes e w w1); [done | | done].
    exact (act_announcements (live_vote rep) w ltac:(done)).
  - split.
    + apply publish_inv.
    + intros Hc. by rewrite publish_confirmed.
    + left. apply publish_announcements.
  - unfold insert_inactive_votes_cache in Hv.
    match type of Hv with context [confirm_if_quorum e ?x] => set (w1 := x) in Hv end.
    destruct (confirmed (wo_election w1)) eqn:Hc.
    + apply (step_ok_votes e w w1); [done | done |]. by rewrite Hc.
    + case_bool_decide.
      * apply (step_ok_votes e w w1); [done | done |]. by rewrite Hc.
      * simplify_eq. by apply step_ok_timed.
  - apply step_ok_timed; [| done]. apply transition_time_timed.
  - apply step_ok_timed; [| done]. apply transition_active_timed.
  - unfold generate_votes in Hg. destruct (en_voting e); [| simplify_eq; by apply step_ok_timed].
    destruct (confirmed (wo_election w)).
    { simplify_eq. apply step_ok_timed; [done | by apply act_announcements]. }
    destruct (tally_impl e (wo_election w)) as [t el] eqn:Ht.
    assert (Htim : timed (wo_election w) el) by (unfold tally_impl in Ht; by simplify_eq).
    destruct (have_quorum e t) as [q |]; simplify_eq/=.
    apply step_ok_timed; destruct q; try done;
      [exact (act_announcements (generate_final_vote _ _) w ltac:(done))
      | exact (act_announcements (generate_vote _ _) w ltac:(done))].
  - by apply step_ok_timed.
  - destruct (confirm_once_state e type w) as (Hc' & Hw & Hb & _). split.
    + intros [Hk Hwin]. split; rewrite Hb, ?Hw; done.
    + congruence.
    + destruct (confirm_once_announces e type w) as [Ha | (s & Ha & Hs)]; [by left | right].
      exists s. by rewrite Hw.
  - by apply step_ok_timed.
  - by apply step_ok_timed.
Qed.

Lemma rtc_step_final w w' :
  rtc election_step w w' → confirmed (wo_election w) = true →
  confirmed (wo_election w') = true ∧ announcements w' = announcements w ∧
  es_winner (el_status (wo_election w')) = es_winner (el_status (wo_election w)).
Proof.
  induction 1 as [| w w1 w2 Hs _ IH]; intros Hc; [done |].
  destruct (so_final w w1 (election_step_ok w w1 Hs) Hc) as (Hc1 & Ha1 & Hw1).
  destruct (IH Hc1) as (Hc2 & Ha2 & Hw2). split_and!; congruence.
Qed.

(** The invariant of the life of an election. *)
Definition lifecycle (w : world) : Prop :=
  election_inv (wo_election w) ∧
  (announcements w = [] ∨
   ∃ s, announcements w = [s] ∧ confirmed (wo_election w) = true ∧
     es_winner s = es_winner (el_status (wo_election w))).

Lemma election_new_lifecycle e b height behavior : lifecycle (election_new e b height behavior).
Proof.
  split; [split | left]; simpl.
  - intros h c [<- <-]%lookup_singleton_Some. done.
  - by rewrite lookup_singleton_eq.
  - unfold election_new, announcements. by destruct (en_voting e).
Qed.

Lemma election_step_lifecycle w w' : lifecycle w → election_step w w' → lifecycle w'.
Proof.
  intros [Hinv Hann] [Hi Hf Ha]%election_step_ok. split; [by apply Hi |].
  destruct Hann as [Hn | (s & Hs & Hc & Hw)].
  - destruct Ha as [Ha | (s & Ha & Hc & Hw)]; rewrite Hn in Ha; [by left | right; by exists s].
  - right. exists s. destruct (Hf Hc) as (Hc' & Ha' & Hw'). split_and!; congruence.
Qed.

(** C10: Over any sequence of operations of an election (force_confirm of the tests
    apart), at most one winner is announced as confirmed, it is the winner of the
    election, and once confirmed the election stays confirmed with the same winner
    and no further announcement. *)
Theorem confirmed_winner_is_final e b height behavior w w' :
  rtc election_step (election_new e b height behavior) w → rtc election_step w w' →
  election_inv (wo_election w) ∧
  (length (announcements w) <= 1)%nat ∧
  (announcements w ≠ [] → confirmed (wo_election w) = true) ∧
  (∀ s, s ∈ announcements w → es_winner s = es_winner (el_status (wo_election w))) ∧
  (confirmed (wo_election w) = true → confirmed (wo_election w') = true ∧
     announcements w' = announcements w ∧
     es_winner (el_status (wo_election w')) = es_winner (el_status (wo_election w))).
Proof.
  intros Hr Hr'.
  assert (Hl : lifecycle w).
  { clear Hr'. revert w Hr. apply rtc_ind_r; [apply election_new_lifecycle |].
    intros w0 w1 _ Hs Hl. by eapply election_step_lifecycle. }
  destruct Hl as [Hinv [Ha | (s & Ha & Hc & Hw)]]; rewrite Ha; simpl;
    (split_and!; [done | lia | done | | intros; rewrite <- Ha; by apply rtc_step_final]).
  - by intros s ?%elem_of_nil.
  - by intros s' ->%list_elem_of_singleton.
Qed.
End confirmation.
