(* ===== verification/OnlineReps.v ===== *)
(** * Online representatives ([node/online_reps.hpp], [node/online_reps.cpp])

    The representatives seen voting within a period, their weight, the trend of
    that weight over stored samples, and the quorum delta derived from them. *)

From S2P Require Import Prelude.

(** ** State *)

(** [reps] is unique by account and ordered by time; [online_weight] is the table
    of samples by time. *)
Record online_reps := OnlineReps {
  or_reps : gmap Z Z;
  or_trended : Z;
  or_online : Z;
  or_online_weight : gmap Z Z;
}.

(** Configuration: [online_weight_minimum], [weight_period] (in clock units) and
    [max_weight_samples]. *)
Record online_config := OnlineConfig {
  oc_minimum : Z;
  oc_weight_period : Z;
  oc_max_weight_samples : nat;
}.

Definition online_weight_quorum : Z := 34.

Section online_reps.
Context (c : online_config).

(** ** Operations *)

(** [calculate_online], with the ledger weight as argument. *)
Definition calculate_online (weight : Z → Z) (reps : gmap Z Z) : Z :=
  fold_left (λ n x, wrap128 (n + weight x.1)) (map_to_list reps) 0.

(** [calculate_trend]: the median of the samples and the configured minimum; an
    [nth_element] puts there what sorting would. *)
Definition calculate_trend (samples : gmap Z Z) : Z :=
  let items := oc_minimum c :: (map_to_list samples).*2 in
  default 0 (merge_sort Z.le items !! (length items / 2)%nat).

(** The constructor: the trend of the stored samples, unless the store failed to
    open. *)
Definition online_reps_new (init_error : bool) (samples : gmap Z Z) : online_reps :=
  OnlineReps ∅ (if init_error then 0 else calculate_trend samples) 0 samples.

(** [observe]. *)
Definition observe (weight : Z → Z) (now rep_a : Z) (o : online_reps) : online_reps :=
  if 0 <? weight rep_a then
    let new_insert := bool_decide (or_reps o !! rep_a = None) in
    let reps := <[rep_a := now]> (or_reps o) in
    let kept := filter (λ x, now - oc_weight_period c <= x.2) reps in
    let trimmed := bool_decide (size kept < size reps)%nat in
    OnlineReps kept (or_trended o)
      (if new_insert || trimmed then calculate_online weight kept else or_online o)
      (or_online_weight o)
  else o.

(** The oldest sample. *)
Definition oldest (samples : gmap Z Z) : option Z :=
  head (merge_sort Z.le (map_to_list samples).*1).

(** [while (count >= max_weight_samples)]: dereferencing the end is an error. *)
Fixpoint discard_oldest (fuel : nat) (samples : gmap Z Z) : outcome (gmap Z Z) :=
  if bool_decide (oc_max_weight_samples c <= size samples)%nat then
    match fuel with
    | O => Aborted
    | S fuel =>
        k ← of_option (oldest samples);
        discard_oldest fuel (delete k samples)
    end
  else Ok samples.

(** [sample], at system time [now]. *)
Definition sample (now : Z) (o : online_reps) : outcome online_reps :=
  samples ← discard_oldest (size (or_online_weight o)) (or_online_weight o);
  let samples := <[now := or_online o]> samples in
  Ok (OnlineReps (or_reps o) (calculate_trend samples) (or_online o) samples).

(** [delta], computed in 256 bits. *)
Definition delta (o : online_reps) : Z :=
  wrap128 (wrap256 (Z.max (or_online o) (Z.max (or_trended o) (oc_minimum c)) * online_weight_quorum) / 100).

Definition online_list (o : online_reps) : list Z := (map_to_list (or_reps o)).*1.

Definition online_clear (o : online_reps) : online_reps :=
  OnlineReps ∅ (or_trended o) 0 (or_online_weight o).

(** ** Theorems *)

(** The quorum delta is 34 percent of the larger weight: two deltas never exceed it. *)
Theorem delta_is_a_minority o :
  is_u128 (or_online o) → is_u128 (or_trended o) → is_u128 (oc_minimum c) →
  let stake := Z.max (or_online o) (Z.max (or_trended o) (oc_minimum c)) in
  delta o = stake * 34 / 100 ∧ 0 <= delta o ∧ 3 * delta o <= stake + stake / 50 ∧
  2 * delta o <= stake.
Proof.
  intros Ho Ht Hm stake. unfold is_u128, delta, online_weight_quorum in *.
  assert (Hs : 0 <= stake < u128_mod) by lia. fold stake.
  assert (Hw : wrap256 (stake * 34) = stake * 34).
  { apply Z.mod_small. unfold u128_mod, u256_mod in *. lia. }
  assert (Hd : 0 <= stake * 34 / 100 < u128_mod).
  { split; [apply Z.div_pos; lia | apply Z.div_lt_upper_bound; lia]. }
  rewrite Hw, (wrap128_small (stake * 34 / 100)) by exact Hd.
  pose proof (Z.mul_div_le (stake * 34) 100 ltac:(lia)).
  pose proof (Z.mul_succ_div_gt (stake * 34) 100 ltac:(lia)).
  pose proof (Z.mul_succ_div_gt stake 50 ltac:(lia)).
  split_and!; lia.
Qed.

(** An observation records the representative at the present time, drops exactly
    the ones outside the period, and recomputes the weight when the set changed. *)
Theorem observe_window weight now rep_a o :
  0 < weight rep_a → 0 <= oc_weight_period c →
  let o' := observe weight now rep_a o in
  or_reps o' !! rep_a = Some now ∧
  (∀ a t, a ≠ rep_a → (or_reps o' !! a = Some t ↔
     or_reps o !! a = Some t ∧ now - oc_weight_period c <= t)) ∧
  (or_online o' = calculate_online weight (or_reps o') ∨
   (or_online o' = or_online o ∧ dom (or_reps o') = dom (or_reps o))).
Proof.
  intros Hw Hp. unfold observe. rewrite (proj2 (Z.ltb_lt _ _) Hw). simpl. split_and!.
  - rewrite map_lookup_filter, lookup_insert_eq. simpl. rewrite option_guard_True by lia. done.
  - intros a t Ha. rewrite map_lookup_filter_Some, lookup_insert_ne by done. done.
  - destruct (decide (or_reps o !! rep_a = None)) as [Hn | Hn];
      [left; by rewrite (bool_decide_true (or_reps o !! rep_a = None)) |].
    rewrite (bool_decide_false (or_reps o !! rep_a = None)) by done. simpl.
    case_bool_decide as Hs; [by left |]. right. split; [done |].
    assert (Hk : filter (λ x : Z * Z, now - oc_weight_period c <= x.2) (<[rep_a := now]> (or_reps o)) =
      <[rep_a := now]> (or_reps o)).
    { apply map_subseteq_size_eq; [apply map_filter_subseteq | lia]. }
    rewrite Hk, dom_insert_L. apply subseteq_union_1_L. rewrite singleton_subseteq_l.
    by apply elem_of_dom, not_eq_None_Some.
Qed.

(** ** The trend *)

#[local] Instance le_trans' : Transitive Z.le := Z.le_trans.
#[local] Instance le_total' : Total Z.le.
Proof. intros x y. lia. Qed.

Lemma sorted_split (l : list Z) m x :
  StronglySorted Z.le l → l !! m = Some x →
  (∀ y, y ∈ take (S m) l → y <= x) ∧ (∀ y, y ∈ drop m l → x <= y).
Proof.
  intros Hl. revert m. induction Hl as [| z l Hl IH Hz]; intros [| m] Hx; simplify_eq/=.
  - rewrite Forall_forall in Hz. split.
    + intros y [-> | Hy%elem_of_nil]%elem_of_cons; [lia | done].
    + intros y [-> | Hy]%elem_of_cons; [lia | by apply Hz].
  - destruct (IH m Hx) as [Hlo Hhi]. split; [| done].
    intros y [-> | Hy]%elem_of_cons; [| by apply Hlo].
    rewrite Forall_forall in Hz. apply Hz. by eapply list_elem_of_lookup_2.
Qed.

Lemma length_filter_ge (P : Z → Prop) `{!∀ y, Decision (P y)} (l1 l2 : list Z) :
  (∀ y, y ∈ l1 → P y) → (length l1 <= length (filter P (l1 ++ l2)))%nat.
Proof.
  intros Hp. rewrite filter_app, length_app. induction l1 as [| y l1 IH]; [simpl; lia |].
  rewrite filter_cons_True by (apply Hp; by left). simpl.
  specialize (IH ltac:(intros z Hz; apply Hp; by right)). lia.
Qed.

(** At least half of the items are on each side of the trend. *)
Lemma trend_median samples :
  let items := oc_minimum c :: (map_to_list samples).*2 in
  let x := calculate_trend samples in
  x ∈ items ∧ (length items < 2 * length (filter (λ y, y <= x)%Z items))%nat ∧
  (length items <= 2 * length (filter (λ y, x <= y)%Z items))%nat.
Proof.
  intros items x. pose proof (merge_sort_Permutation Z.le items) as Hp.
  pose proof (StronglySorted_merge_sort Z.le items) as Hs.
  assert (Hm : (length items / 2 < length (merge_sort Z.le items))%nat).
  { rewrite Hp. apply Nat.div_lt; simpl; lia. }
  apply lookup_lt_is_Some_2 in Hm as [x' Hx].
  assert (Hxx : x = x') by (unfold x, calculate_trend; fold items; by rewrite Hx).
  destruct (sorted_split _ _ _ Hs Hx) as [Hlo Hhi]. rewrite Hxx. clear Hxx x.
  pose proof (Nat.div_mod (length items) 2 ltac:(lia)). pose proof (Nat.mod_upper_bound (length items) 2 ltac:(lia)).
  pose proof (lookup_lt_Some _ _ _ Hx) as Hlt. pose proof (Permutation_length Hp) as Hlen. split_and!.
  - rewrite <- Hp. by eapply list_elem_of_lookup_2.
  - pose proof (length_filter_ge (λ y, y <= x') _ (drop (S (length items / 2)) (merge_sort Z.le items)) Hlo) as Hf.
    rewrite take_drop, length_take, (Permutation_length (filter_Permutation _ _ _ Hp)) in Hf. lia.
  - pose proof (length_filter_ge (λ y, x' <= y) _ (take (length items / 2) (merge_sort Z.le items)) Hhi) as Hf.
    rewrite Permutation_app_comm, take_drop, length_drop, (Permutation_length (filter_Permutation _ _ _ Hp)) in Hf.
    lia.
Qed.

(** ** Samples *)

Lemma oldest_spec samples :
  samples ≠ ∅ → ∃ k, oldest samples = Some k ∧ is_Some (samples !! k) ∧
    ∀ k', is_Some (samples !! k') → k <= k'.
Proof.
  intros Hne. unfold oldest. pose proof (merge_sort_Permutation Z.le (map_to_list samples).*1) as Hp.
  pose proof (StronglySorted_merge_sort Z.le (map_to_list samples).*1) as Hs.
  assert (Hin : ∀ k, k ∈ merge_sort Z.le (map_to_list samples).*1 ↔ is_Some (samples !! k)).
  { intros k. rewrite Hp, list_elem_of_fmap. split.
    - intros ([k' v] & -> & Hk%elem_of_map_to_list). by exists v.
    - intros [v Hv]. exists (k, v). split; [done | by apply elem_of_map_to_list]. }
  destruct (merge_sort Z.le (map_to_list samples).*1) as [| k l].
  - exfalso. apply Hne, map_empty. intros k. apply eq_None_not_Some. intros Hk%Hin. by apply elem_of_nil in Hk.
  - exists k. split_and!; [done | apply Hin; by left |]. intros k' [-> | Hk]%Hin%elem_of_cons; [lia |].
    apply StronglySorted_inv in Hs as [_ Hs]. rewrite Forall_forall in Hs. by apply Hs.
Qed.

Lemma discard_oldest_spec fuel samples :
  (0 < oc_max_weight_samples c)%nat → (size samples <= fuel)%nat →
  ∃ kept, discard_oldest fuel samples = Ok kept ∧ kept ⊆ samples ∧
    (size kept < oc_max_weight_samples c)%nat ∧
    (∀ k k', is_Some (samples !! k) → kept !! k = None → is_Some (kept !! k') → k <= k').
Proof.
  intros Hm. revert samples. induction fuel as [| fuel IH]; intros samples Hf; simpl.
  - rewrite bool_decide_false by lia. exists samples. split_and!; [done | done | lia |].
    intros k k' [v Hv] Hn. congruence.
  - case_bool_decide as Hs.
    + destruct (oldest_spec samples) as (k & Hk & [v Hv] & Hmin).
      { intros ->. rewrite map_size_empty in Hs. lia. }
      rewrite Hk. simpl.
      assert (Hsz : size (delete k samples) = (size samples - 1)%nat) by (rewrite map_size_delete, Hv; lia).
      destruct (IH (delete k samples)) as (kept & -> & Hsub & Hlt & Hold); [lia |].
      exists kept. split_and!; [done | etransitivity; [done | apply delete_subseteq] | done |].
      intros j j' Hj Hn Hj'. destruct (decide (j = k)) as [-> | Hne].
      * apply Hmin. destruct Hj' as [u Hu]. exists u. eapply lookup_weaken; [exact Hu |].
        etransitivity; [done | apply delete_subseteq].
      * apply Hold; [by rewrite lookup_delete_ne | done | done].
    + exists samples. split_and!; [done | done | lia |]. intros k k' [v Hv] Hn. congruence.
Qed.

(** Sampling ends, keeps at most the configured number of samples, records the
    current weight, discards no sample newer than one it keeps, and sets the trend
    to a median of the samples and the configured minimum. *)
Theorem sample_trend_is_median now o :
  (0 < oc_max_weight_samples c)%nat →
  ∃ o', sample now o = Ok o' ∧
    (size (or_online_weight o') <= oc_max_weight_samples c)%nat ∧
    or_online_weight o' !! now = Some (or_online o) ∧
    (∀ k k' v, or_online_weight o !! k = Some v → or_online_weight o' !! k = None →
       is_Some (or_online_weight o' !! k') → k' ≠ now → k <= k') ∧
    let items := oc_minimum c :: (map_to_list (or_online_weight o')).*2 in
    or_trended o' ∈ items ∧
    (length items < 2 * length (filter (λ y, y <= or_trended o')%Z items))%nat ∧
    (length items <= 2 * length (filter (λ y, or_trended o' <= y)%Z items))%nat.
Proof.
  intros Hm. unfold sample.
  destruct (discard_oldest_spec (size (or_online_weight o)) (or_online_weight o)) as (kept & -> & Hsub & Hlt & Hold);
    [done | lia |].
  simpl. eexists. split; [done |]. simpl. split_and!.
  - rewrite map_size_insert. case_match; simpl; lia.
  - by rewrite lookup_insert_eq.
  - intros k k' v Hk Hn Hk' Hne. rewrite lookup_insert_ne in Hk' by done.
    apply (Hold k k'); [by exists v | | done]. by apply lookup_insert_None in Hn as [? _].
  - apply trend_median.
  - apply trend_median.
  - apply trend_median.
Qed.
End online_reps.

(** ** Witnesses *)

Definition sample_online_config : online_config := OnlineConfig 100 300 2.
Definition sample_online : online_reps := OnlineReps {[ 5 := 10 ]} 0 40 {[ 1 := 70; 2 := 90 ]}.

Lemma delta_is_a_minority_witness : delta sample_online_config sample_online = 34.
Proof.
  destruct (delta_is_a_minority sample_online_config sample_online) as [Hd _].
  - vm_compute. split; congruence.
  - vm_compute. split; congruence.
  - vm_compute. split; congruence.
  - rewrite Hd. reflexivity.
Defined.

Lemma observe_window_witness :
  or_reps (observe sample_online_config (λ _, 25) 1000 9 sample_online) !! 9 = Some 1000.
Proof.
  destruct (observe_window sample_online_config (λ _, 25) 1000 9 sample_online) as [Hr _].
  - lia.
  - vm_compute. congruence.
  - exact Hr.
Defined.

Lemma sample_trend_is_median_witness :
  ∃ o', sample sample_online_config 3 sample_online = Ok o' ∧ or_online_weight o' !! 3 = Some 40.
Proof.
  destruct (sample_trend_is_median sample_online_config 3 sample_online) as (o' & Ho & _ & Hn & _).
  - vm_compute. lia.
  - exists o'. split; [exact Ho | exact Hn].
Defined.
