(* ===== verification/Common.v ===== *)
(** * Ledger records ([secure/common.hpp], [secure/common.cpp])

    The values the tables of the store hold, with their database encodings:
    account, pending and confirmation height entries and the pending key; and
    the result types of block processing. *)

From S2P Require Import Prelude Blocks BlockCodec.

(** ** Table entries *)

Record account_info := AccountInfo {
  ai_head : Z;
  ai_representative : Z;
  ai_open_block : Z;
  ai_balance : Z;
  ai_modified : Z;
  ai_block_count : Z;
  ai_epoch : epoch;
}.

(** A default constructed [account_info]. *)
Definition default_account_info : account_info := AccountInfo 0 0 0 0 0 0 epoch_0.

Record pending_info := PendingInfo {
  pi_source : Z;
  pi_amount : Z;
  pi_epoch : epoch;
}.

(** [pending_key]: the receiving account and the hash of the send. *)
Abbreviation pending_key := (Z * Z)%type.

Record confirmation_height_info := ConfirmationHeightInfo {
  ch_height : Z;
  ch_frontier : Z;
}.

Definition default_confirmation_height_info := ConfirmationHeightInfo 0 0.

#[export] Instance account_info_eq_dec : EqDecision account_info.
Proof. solve_decision. Defined.
#[export] Instance pending_info_eq_dec : EqDecision pending_info.
Proof. solve_decision. Defined.
#[export] Instance confirmation_height_info_eq_dec : EqDecision confirmation_height_info.
Proof. solve_decision. Defined.

Definition account_info_wf (i : account_info) : Prop :=
  is_u256 (ai_head i) ∧ is_u256 (ai_representative i) ∧ is_u256 (ai_open_block i) ∧
  is_u128 (ai_balance i) ∧ is_u64 (ai_modified i) ∧ is_u64 (ai_block_count i) ∧
  is_u8 (ai_epoch i).
Definition pending_info_wf (p : pending_info) : Prop :=
  is_u256 (pi_source p) ∧ is_u128 (pi_amount p) ∧ is_u8 (pi_epoch p).
Definition pending_key_wf (k : pending_key) : Prop := is_u256 k.1 ∧ is_u256 k.2.
Definition confirmation_height_info_wf (c : confirmation_height_info) : Prop :=
  is_u64 (ch_height c) ∧ is_u256 (ch_frontier c).

(** ** Database encodings

    [db_val] writes an [account_info] and a [pending_info] as the raw fields in
    declaration order, [db_size] bytes; [deserialize] reads them back. *)

Definition account_info_serialize (i : account_info) : bytes :=
  to_be 32 (ai_head i) ++ to_be 32 (ai_representative i) ++ to_be 32 (ai_open_block i) ++
  to_be 16 (ai_balance i) ++ to_le 8 (ai_modified i) ++ to_le 8 (ai_block_count i) ++
  to_be 1 (ai_epoch i).

Definition account_info_deserialize (s : bytes) : option (account_info * bytes) :=
  '(head, s) ← read_be 32 s;
  '(representative, s) ← read_be 32 s;
  '(open, s) ← read_be 32 s;
  '(balance, s) ← read_be 16 s;
  '(modified, s) ← read_le 8 s;
  '(block_count, s) ← read_le 8 s;
  '(epoch_m, s) ← read_be 1 s;
  Some (AccountInfo head representative open balance modified block_count epoch_m, s).

Definition account_info_db_size : nat := (32 + 32 + 32 + 16 + 8 + 8 + 1)%nat.

Definition pending_info_serialize (p : pending_info) : bytes :=
  to_be 32 (pi_source p) ++ to_be 16 (pi_amount p) ++ to_be 1 (pi_epoch p).

Definition pending_info_deserialize (s : bytes) : option (pending_info * bytes) :=
  '(source, s) ← read_be 32 s;
  '(amount, s) ← read_be 16 s;
  '(epoch, s) ← read_be 1 s;
  Some (PendingInfo source amount epoch, s).

Definition pending_info_db_size : nat := (32 + 16 + 1)%nat.

Definition pending_key_serialize (k : pending_key) : bytes := to_be 32 k.1 ++ to_be 32 k.2.

Definition pending_key_deserialize (s : bytes) : option (pending_key * bytes) :=
  '(account, s) ← read_be 32 s;
  '(hash, s) ← read_be 32 s;
  Some ((account, hash), s).

Definition confirmation_height_info_serialize (c : confirmation_height_info) : bytes :=
  to_le 8 (ch_height c) ++ to_be 32 (ch_frontier c).

Definition confirmation_height_info_deserialize (s : bytes) :
    option (confirmation_height_info * bytes) :=
  '(height, s) ← read_le 8 s;
  '(frontier, s) ← read_be 32 s;
  Some (ConfirmationHeightInfo height frontier, s).

(** [operator==] of the entries. *)
Definition account_info_equal (a b : account_info) : bool :=
  (ai_head a =? ai_head b) && (ai_representative a =? ai_representative b)
  && (ai_open_block a =? ai_open_block b) && (ai_balance a =? ai_balance b)
  && (ai_modified a =? ai_modified b) && (ai_block_count a =? ai_block_count b)
  && (ai_epoch a =? ai_epoch b).

Definition pending_info_equal (a b : pending_info) : bool :=
  (pi_source a =? pi_source b) && (pi_amount a =? pi_amount b) && (pi_epoch a =? pi_epoch b).

Lemma account_info_equal_spec a b : account_info_equal a b = true ↔ a = b.
Proof.
  unfold account_info_equal. rewrite ?andb_true_iff, ?Z.eqb_eq.
  destruct a, b; simpl. split; [intros; destruct_and?; by simplify_eq | by intros [=]].
Qed.

Lemma pending_info_equal_spec a b : pending_info_equal a b = true ↔ a = b.
Proof.
  unfold pending_info_equal. rewrite ?andb_true_iff, ?Z.eqb_eq.
  destruct a, b; simpl. split; [intros; destruct_and?; by simplify_eq | by intros [=]].
Qed.

(** ** Unchecked entries *)

(** [enum class signature_verification : uint8_t]. *)
Inductive signature_verification : Type :=
| sv_unknown | sv_invalid | sv_valid | sv_valid_epoch.

#[export] Instance signature_verification_eq_dec : EqDecision signature_verification.
Proof. solve_decision. Defined.

Definition signature_verification_code (v : signature_verification) : Z :=
  match v with sv_unknown => 0 | sv_invalid => 1 | sv_valid => 2 | sv_valid_epoch => 3 end.

Record unchecked_info := UncheckedInfo {
  un_block : block;
  un_account : Z;
  un_modified : Z;
  un_verified : Z;
}.

Definition unchecked_info_serialize (u : unchecked_info) : bytes :=
  serialize_block (un_block u) ++ to_be 32 (un_account u) ++ to_le 8 (un_modified u) ++
  to_be 1 (un_verified u).

Definition unchecked_info_deserialize (s : bytes) : option (unchecked_info * bytes) :=
  '(block, s) ← deserialize_block s;
  '(account, s) ← read_be 32 s;
  '(modified, s) ← read_le 8 s;
  '(verified, s) ← read_be 1 s;
  Some (UncheckedInfo block account modified verified, s).

(** ** Results of block processing *)

Inductive process_result : Type :=
| progress | bad_signature | old | negative_spend | fork | unreceivable
| gap_previous | gap_source | gap_epoch_open_pending | opened_burn_account
| balance_mismatch | representative_mismatch | block_position | insufficient_work.

#[export] Instance process_result_eq_dec : EqDecision process_result.
Proof. solve_decision. Defined.

(** [process_return]; [previous_balance] has no initializer and stays unset on
    the paths that do not assign it. *)
Record process_return := ProcessReturn {
  pr_code : process_result;
  pr_verified : signature_verification;
  pr_previous_balance : option Z;
}.

(** ** Round trips *)

Definition unchecked_info_wf (u : unchecked_info) : Prop :=
  block_wf (un_block u) ∧ is_u256 (un_account u) ∧ is_u64 (un_modified u) ∧ is_u8 (un_verified u).

Lemma unchecked_info_deserialize_serialize u s :
  unchecked_info_wf u →
  unchecked_info_deserialize (unchecked_info_serialize u ++ s) = Some (u, s).
Proof.
  intros (? & ? & ? & ?). destruct u; simpl in *.
  unfold unchecked_info_deserialize, unchecked_info_serialize. simpl. rewrite <- !app_assoc.
  unfold deserialize_block, serialize_block. rewrite <- app_assoc.
  rewrite read_be8 by (by destruct un_block0). simpl.
  rewrite block_type_of_code_code, deserialize_block_typed_serialize by done.
  codec_run. done.
Qed.

(** The table entries read back from their encodings. *)
Theorem ledger_entry_roundtrip (i : account_info) (p : pending_info) (k : pending_key)
    (c : confirmation_height_info) (u : unchecked_info) (s : bytes) :
  account_info_wf i → pending_info_wf p → pending_key_wf k → confirmation_height_info_wf c →
  unchecked_info_wf u →
  account_info_deserialize (account_info_serialize i ++ s) = Some (i, s) ∧
  pending_info_deserialize (pending_info_serialize p ++ s) = Some (p, s) ∧
  pending_key_deserialize (pending_key_serialize k ++ s) = Some (k, s) ∧
  confirmation_height_info_deserialize (confirmation_height_info_serialize c ++ s) = Some (c, s) ∧
  unchecked_info_deserialize (unchecked_info_serialize u ++ s) = Some (u, s) ∧
  length (account_info_serialize i) = account_info_db_size ∧
  length (pending_info_serialize p) = pending_info_db_size.
Proof.
  intros Hi Hp Hk Hc Hu. rewrite (unchecked_info_deserialize_serialize u s Hu). clear Hu.
  destruct i, p, k, c. unfold account_info_wf, pending_info_wf, pending_key_wf,
    confirmation_height_info_wf in *; simpl in *; destruct_and?.
  unfold account_info_deserialize, account_info_serialize, pending_info_deserialize,
    pending_info_serialize, pending_key_deserialize, pending_key_serialize,
    confirmation_height_info_deserialize, confirmation_height_info_serialize.
  simpl. rewrite ?length_app, ?length_to_be, ?length_to_le. codec_run. done.
Qed.

(** ** Witnesses *)

Lemma ledger_entry_roundtrip_witness :
  account_info_deserialize (account_info_serialize (AccountInfo 1 2 3 4 5 6 epoch_1) ++ []) =
  Some (AccountInfo 1 2 3 4 5 6 epoch_1, []).
Proof.
  apply (ledger_entry_roundtrip (AccountInfo 1 2 3 4 5 6 epoch_1) (PendingInfo 1 2 epoch_0) (1, 2)
    (ConfirmationHeightInfo 3 4) (UncheckedInfo sample_state_block 5 6 2) []);
    vm_compute; repeat split; congruence.
Defined.
