(* ===== verification/Vote.v ===== *)
(** * Votes ([secure/common.hpp], [secure/common.cpp]: [class vote])

    A vote names blocks or block hashes, carries a timestamp with a duration
    packed into its low bits, and is signed over the hashes and the timestamp.
    The file has the two wire formats, the digests and the packing, and shows
    that the format is exact, that the signed bytes determine what is voted
    for, and what the deduplication digest does and does not cover. *)

From S2P Require Import Prelude Blocks BlockCodec.

(** [boost::variant<std::shared_ptr<block>, block_hash>]; [which ()] is 0 for a
    block and 1 for a hash. *)
Inductive vote_item :=
| vote_block (b : block)
| vote_block_hash (h : Z).

Definition which (i : vote_item) : bool :=
  match i with vote_block _ => false | vote_block_hash _ => true end.

Record vote := Vote {
  vt_timestamp_m : Z;
  vt_blocks : list vote_item;
  vt_account : Z;
  vt_signature : Z;
}.

(** ** Timestamps *)

Definition timestamp_mask : Z := 0xfffffffffffffff0.
Definition timestamp_max : Z := 0xfffffffffffffff0.
Definition timestamp_min : Z := 0x10.
Definition duration_max : Z := 0x0f.

(** [packed_timestamp]; both preconditions are [debug_assert]s. *)
Definition packed_timestamp (timestamp duration : Z) : Z :=
  Z.lor (Z.land timestamp timestamp_mask) duration.

Definition vote_timestamp (v : vote) : Z :=
  if vt_timestamp_m v =? u64_max then vt_timestamp_m v
  else Z.land (vt_timestamp_m v) timestamp_mask.

(** The complement is taken in 64 bits. *)
Definition duration_bits (v : vote) : Z :=
  Z.land (vt_timestamp_m v) (u64_max - timestamp_mask).

(** Milliseconds; the shift is of an [unsigned]. *)
Definition vote_duration (v : vote) : Z := Z.shiftl 1 (duration_bits v + 4) mod 2 ^ 32.

(** ** Equality *)

Definition item_equal (i j : vote_item) : bool :=
  match i, j with
  | vote_block_hash h, vote_block_hash h' => h =? h'
  | vote_block b, vote_block b' => block_equal b b'
  | _, _ => false
  end.

(** The loop of [operator==] over two vectors of the same size. *)
Fixpoint items_equal (l l' : list vote_item) : bool :=
  match l, l' with
  | [], [] => true
  | i :: l, j :: l' => item_equal i j && items_equal l l'
  | _, _ => false
  end.

Definition vote_equal (v w : vote) : bool :=
  let blocks_equal :=
    if negb (Nat.eqb (length (vt_blocks v)) (length (vt_blocks w))) then false
    else items_equal (vt_blocks v) (vt_blocks w) in
  (vt_timestamp_m v =? vt_timestamp_m w) && blocks_equal && (vt_account v =? vt_account w)
  && (vt_signature v =? vt_signature w).

(** ** Digests *)

Section vote_digests.
Context `{Crypto}.

(** [iterate_vote_blocks_as_hash]. *)
Definition item_hash (i : vote_item) : Z :=
  match i with vote_block_hash h => h | vote_block b => block_hash b end.

(** [hash_prefix], "vote ". *)
Definition hash_prefix : bytes := [Init.Byte.x76; Init.Byte.x6f; Init.Byte.x74; Init.Byte.x65; Init.Byte.x20].

Definition prefixed (v : vote) : bool :=
  Nat.ltb 1 (length (vt_blocks v)) || from_option which false (head (vt_blocks v)).

Definition vote_hash_input (v : vote) : bytes :=
  (if prefixed v then hash_prefix else []) ++
  concat (map (λ i, to_be 32 (item_hash i)) (vt_blocks v)) ++ to_le 8 (vt_timestamp_m v).

Definition vote_hash (v : vote) : Z := of_be (blake2b 32 (vote_hash_input v)).

(** [full_hash]: the sizes are those of the pointers [bytes.data ()], so 8 bytes
    of the account and of the signature are fed to the hash. *)
Definition vote_full_hash (v : vote) : Z :=
  of_be (blake2b 32 (to_be 32 (vote_hash v) ++ take 8 (to_be 32 (vt_account v)) ++
                     take 8 (to_be 64 (vt_signature v)))).

(** [validate]: true is an error. *)
Definition vote_validate (v : vote) : bool :=
  validate_message (vt_account v) (vote_hash v) (vt_signature v).

(** The constructors from a block and from hashes; [sign_message] is the
    external signing primitive, applied to account and digest. *)
Definition vote_of_hashes (sign_message : Z → Z → Z) (account_a timestamp_a duration : Z)
    (items : list vote_item) : vote :=
  let v := Vote (packed_timestamp timestamp_a duration) items account_a 0 in
  Vote (vt_timestamp_m v) items account_a (sign_message account_a (vote_hash v)).

(** ** Uniquers *)

(** [block_uniquer] and [vote_uniquer]: the objects that are in use, by their full
    hashes.  The tables hold weak pointers; an entry whose object has been freed
    counts as none, and only such entries are removed. *)
Record uniquers := Uniquers {
  uq_blocks : gmap Z block;
  uq_votes : gmap Z vote;
}.

(** [block_uniquer::unique]: the object in use with the same full hash, if there is
    one. *)
Definition block_unique (b : block) (u : uniquers) : block * uniquers :=
  match uq_blocks u !! block_full_hash b with
  | Some b' => (b', u)
  | None => (b, Uniquers (<[block_full_hash b := b]> (uq_blocks u)) (uq_votes u))
  end.

(** [vote_uniquer::unique]: the first block of the vote is replaced first, and the
    key is that of the vote with this block. *)
Definition vote_unique_block (v : vote) (u : uniquers) : vote * uniquers :=
  match vt_blocks v with
  | vote_block b :: rest =>
      let '(b, u) := block_unique b u in
      (Vote (vt_timestamp_m v) (vote_block b :: rest) (vt_account v) (vt_signature v), u)
  | _ => (v, u)
  end.

Definition vote_unique (v : vote) (u : uniquers) : vote * uniquers :=
  if bool_decide (vt_blocks v = []) then (v, u) else
  let '(v, u) := vote_unique_block v u in
  match uq_votes u !! vote_full_hash v with
  | Some v' => (v', u)
  | None => (v, Uniquers (uq_blocks u) (<[vote_full_hash v := v]> (uq_votes u)))
  end.

(** ** Wire formats *)

Definition item_serialize (i : vote_item) : bytes :=
  match i with
  | vote_block_hash h => to_be 1 (block_type_code bt_not_a_block) ++ to_be 32 h
  | vote_block b => serialize_block b
  end.

(** [serialize (stream)]: every item with its type. *)
Definition vote_serialize (v : vote) : bytes :=
  to_be 32 (vt_account v) ++ to_be 64 (vt_signature v) ++ to_le 8 (vt_timestamp_m v) ++
  concat (map item_serialize (vt_blocks v)).

(** [serialize (stream, type)]: the type is in the message header. *)
Definition item_serialize_typed (type : block_type) (i : vote_item) : bytes :=
  match i with
  | vote_block_hash h => to_be 32 h
  | vote_block b =>
      if bool_decide (type = bt_not_a_block) then to_be 32 (block_hash b) else block_serialize b
  end.

Definition vote_serialize_typed (v : vote) (type : block_type) : bytes :=
  to_be 32 (vt_account v) ++ to_be 64 (vt_signature v) ++ to_le 8 (vt_timestamp_m v) ++
  concat (map (item_serialize_typed type) (vt_blocks v)).
End vote_digests.

(** The loop of [deserialize]; each round reads at least the type byte. *)
Fixpoint read_items (fuel : nat) (s : bytes) : option (list vote_item) :=
  match fuel with
  | O => None
  | S fuel =>
      match read_be 1 s with
      | None => Some []
      | Some (type, s) =>
          if bool_decide (block_type_of_code type = Some bt_not_a_block) then
            '(h, s) ← read_be 32 s;
            l ← read_items fuel s;
            Some (vote_block_hash h :: l)
          else
            '(b, s) ← deserialize_block_typed (block_type_of_code type) s;
            l ← read_items fuel s;
            Some (vote_block b :: l)
      end
  end.

(** [deserialize]; [None] is the error, also reported for a vote on nothing. *)
Definition vote_deserialize (s : bytes) : option vote :=
  '(account, s) ← read_be 32 s;
  '(signature, s) ← read_be 64 s;
  '(timestamp, s) ← read_le 8 s;
  blocks ← read_items (S (length s)) s;
  if bool_decide (blocks = []) then None
  else Some (Vote timestamp blocks account signature).

(** The loop of the constructor with a type: [while (in_avail () > 0)]. *)
Fixpoint read_items_typed (fuel : nat) (type : block_type) (s : bytes) : option (list vote_item) :=
  match fuel with
  | O => None
  | S fuel =>
      if bool_decide (s = []) then Some [] else
      if bool_decide (type = bt_not_a_block) then
        '(h, s) ← read_be 32 s;
        l ← read_items_typed fuel type s;
        Some (vote_block_hash h :: l)
      else
        '(b, s) ← deserialize_block_typed (Some type) s;
        l ← read_items_typed fuel type s;
        Some (vote_block b :: l)
  end.

Definition vote_read_typed (s : bytes) (type : block_type) : option vote :=
  '(account, s) ← read_be 32 s;
  '(signature, s) ← read_be 64 s;
  '(timestamp, s) ← read_le 8 s;
  blocks ← read_items_typed (S (length s)) type s;
  if bool_decide (blocks = []) then None
  else Some (Vote timestamp blocks account signature).

(** ** The format is exact *)

Definition item_wf (i : vote_item) : Prop :=
  match i with vote_block b => block_wf b | vote_block_hash h => is_u256 h end.

Definition vote_wf (v : vote) : Prop :=
  is_u64 (vt_timestamp_m v) ∧ is_u256 (vt_account v) ∧ is_u512 (vt_signature v) ∧
  Forall item_wf (vt_blocks v).

Lemma read_be_nil n : read_be (S n) [] = None.
Proof. apply read_be_short. simpl. lia. Qed.

Lemma length_item_serialize i : (1 <= length (item_serialize i))%nat.
Proof. destruct i; simpl; unfold serialize_block; rewrite length_app, length_to_be; lia. Qed.

Lemma read_items_serialize l fuel :
  Forall item_wf l → (length (concat (map item_serialize l)) < fuel)%nat →
  read_items fuel (concat (map item_serialize l)) = Some l.
Proof.
  intros Hl. revert fuel. induction Hl as [| i l Hi Hl IH]; intros [| fuel] Hf; try (simpl in Hf; lia).
  - simpl. by rewrite read_be_nil.
  - simpl in *. rewrite length_app in Hf. pose proof (length_item_serialize i).
    assert (Hl' : (length (concat (map item_serialize l)) < fuel)%nat) by lia.
    destruct i as [b | h]; simpl in *.
    + unfold serialize_block. rewrite <- !app_assoc. rewrite read_be8 by (by destruct b).
      rewrite block_type_of_code_code, bool_decide_false by (by destruct b).
      rewrite deserialize_block_typed_serialize by done. simpl. by rewrite IH.
    + rewrite <- !app_assoc. rewrite read_be8 by done. simpl. rewrite read_be256 by done. simpl.
      by rewrite IH.
Qed.

Lemma read_items_canonical fuel s l :
  read_items fuel s = Some l → s = concat (map item_serialize l) ∧ Forall item_wf l.
Proof.
  revert s l. induction fuel as [| fuel IH]; intros s l Hr; [done |]. simpl in Hr.
  destruct (read_be 1 s) as [[t s1] |] eqn:Ht.
  - apply read_be_Some in Ht as [-> Ht]. case_bool_decide as Hn.
    + parse_inv Hr. destruct (read_items fuel _) as [l' |] eqn:Hl; simplify_eq/=.
      apply IH in Hl as [-> Hl]. apply block_type_of_code_inv in Hn as ->.
      split; [by rewrite <- !app_assoc | by constructor].
    + destruct (deserialize_block_typed _ s1) as [[b s2] |] eqn:Hb; simplify_eq/=.
      destruct (read_items fuel s2) as [l' |] eqn:Hl; simplify_eq/=. apply IH in Hl as [-> Hl].
      apply deserialize_block_typed_inv in Hb as (Htb & -> & Hwf).
      apply block_type_of_code_inv in Htb as ->.
      split; [unfold serialize_block; by rewrite <- !app_assoc | by constructor].
  - simplify_eq. split; [| constructor]. simpl. destruct s as [| x s]; [done | exfalso].
    Transparent read_be read_bytes. by unfold read_be, read_bytes in Ht. Opaque read_be read_bytes.
Qed.

#[local] Arguments read_items : simpl never.

(** vote::deserialize succeeds on a stream exactly when the stream is the
    serialization of the vote returned, which is well formed and votes for at least
    one block; its loop always ends. *)
Theorem vote_codec_exact s v :
  vote_deserialize s = Some v ↔ vote_wf v ∧ vt_blocks v ≠ [] ∧ s = vote_serialize v.
Proof.
  unfold vote_deserialize, vote_serialize. split.
  - intros Hp. parse_inv Hp. destruct (read_items _ _) as [items |] eqn:Hl; simplify_eq/=.
    apply read_items_canonical in Hl as [-> Hl]. case_bool_decide; simplify_eq/=. done.
  - intros ((? & ? & ? & Hl) & Hne & ->). codec_run.
    rewrite read_items_serialize by (done || lia). simpl. rewrite bool_decide_false by done.
    by destruct v.
Qed.

(** ** Timestamps *)

Lemma land_timestamp_mask t : is_u64 t → Z.land t timestamp_mask = t / 16 * 16.
Proof.
  intros Ht. change timestamp_mask with (Z.ldiff (Z.ones 64) (Z.ones 4)).
  rewrite !Z.ldiff_land, Z.land_assoc, <- Z.ldiff_land, Z.land_ones by lia.
  rewrite Z.mod_small by exact Ht. rewrite Z.ldiff_ones_r by lia.
  by rewrite Z.shiftl_mul_pow2, Z.shiftr_div_pow2 by lia.
Qed.

Lemma lor_low_bits k d : 0 <= d < 16 → Z.lor (k * 16) d = k * 16 + d.
Proof.
  intros Hd. change 16 with (2 ^ 4). rewrite <- Z.shiftl_mul_pow2 by lia.
  assert (Hz : Z.land (Z.shiftl k 4) d = 0).
  { apply Z.bits_inj'. intros i Hi. rewrite Z.land_spec, Z.bits_0.
    destruct (Z.ltb_spec i 4); [by rewrite Z.shiftl_spec_low |].
    rewrite <- (Z.mod_small d (2 ^ 4)), Z.mod_pow2_bits_high by lia. apply andb_false_r. }
  by rewrite <- Z.lxor_lor, <- Z.add_nocarry_lxor.
Qed.

Lemma packed_timestamp_value t d :
  is_u64 t → 0 <= d <= duration_max → packed_timestamp t d = t / 16 * 16 + d.
Proof.
  intros Ht Hd. unfold packed_timestamp, duration_max in *.
  rewrite land_timestamp_mask, lor_low_bits by (done || lia). done.
Qed.

(** Packing a 64-bit timestamp with a duration of at most 15 fits 64 bits,
    gives the duration back, and gives the timestamp rounded down to 16 ms unless it
    is maximal with the maximal duration, which is the final vote. *)
Theorem vote_timestamp_packing t d blocks account_a sig :
  is_u64 t → 0 <= d <= duration_max →
  let v := Vote (packed_timestamp t d) blocks account_a sig in
  is_u64 (vt_timestamp_m v) ∧ duration_bits v = d ∧
  vote_duration v = 2 ^ (d + 4) ∧ 16 <= vote_duration v <= 524288 ∧
  (t < timestamp_max → vote_timestamp v = t / 16 * 16 ∧ t - 16 < vote_timestamp v <= t) ∧
  (vote_timestamp v = u64_max ↔ timestamp_max <= t ∧ d = duration_max).
Proof.
  intros Ht Hd v. assert (Hv : vt_timestamp_m v = t / 16 * 16 + d) by (by apply packed_timestamp_value).
  unfold duration_max, timestamp_max in *. unfold is_u64, u64_mod in *.
  pose proof (Z.div_mod t 16 ltac:(lia)). pose proof (Z.mod_pos_bound t 16 ltac:(lia)).
  assert (Hb : duration_bits v = d).
  { unfold duration_bits. rewrite Hv. change (u64_max - timestamp_mask) with (Z.ones 4).
    rewrite Z.land_ones by lia. change (2 ^ 4) with 16. rewrite Z.add_comm, Z_mod_plus_full.
    apply Z.mod_small. lia. }
  assert (Hmask : vote_timestamp v =
    if t / 16 * 16 + d =? u64_max then u64_max else t / 16 * 16).
  { unfold vote_timestamp. rewrite Hv. destruct (Z.eqb_spec (t / 16 * 16 + d) u64_max) as [-> |]; [done |].
    rewrite land_timestamp_mask by (unfold is_u64, u64_mod; lia). f_equal.
    rewrite Z.div_add_l, (Z.div_small d) by lia. lia. }
  assert (Hdur : vote_duration v = 2 ^ (d + 4)).
  { unfold vote_duration. rewrite Hb, Z.shiftl_1_l. apply Z.mod_small. split; [lia |].
    apply Z.pow_lt_mono_r; lia. }
  assert (Hp : 2 ^ 4 <= 2 ^ (d + 4) <= 2 ^ 19) by (split; apply Z.pow_le_mono_r; lia).
  unfold u64_max, u64_mod in *. rewrite Hmask, Hv, Hb, Hdur. split_and!; try lia.
  - intros Hlt. rewrite (proj2 (Z.eqb_neq _ _)) by lia. lia.
  - destruct (Z.eqb_spec (t / 16 * 16 + d) (18446744073709551616 - 1)); lia.
Qed.

(** ** The format with the type in the header *)

(** What a receiver sees of an item: under [not_a_block] every item is a hash. *)
Definition item_sent `{Crypto} (type : block_type) (i : vote_item) : vote_item :=
  match i with
  | vote_block_hash h => vote_block_hash h
  | vote_block b => if bool_decide (type = bt_not_a_block) then vote_block_hash (block_hash b) else i
  end.

(** The items that may be sent under a type: hashes under [not_a_block] only, and
    blocks under their own type or as hashes. *)
Definition item_fits (type : block_type) (i : vote_item) : Prop :=
  match i with
  | vote_block_hash _ => type = bt_not_a_block
  | vote_block b => type = bt_not_a_block ∨ type = block_type_of b
  end.

Definition vote_sent `{Crypto} (type : block_type) (v : vote) : vote :=
  Vote (vt_timestamp_m v) (map (item_sent type) (vt_blocks v)) (vt_account v) (vt_signature v).

Section typed.
Context {C : Crypto} {CL : CryptoLaws C}.

Lemma block_hash_range b : is_u256 (block_hash b).
Proof.
  unfold block_hash, is_u256. pose proof (of_be_range (blake2b 32 (hash_input b))) as Hr.
  by rewrite blake2b_length in Hr.
Qed.

Lemma item_hash_range i : item_wf i → is_u256 (item_hash i).
Proof. destruct i; simpl; [intros; apply block_hash_range | done]. Qed.

Lemma item_sent_hash type i : item_hash (item_sent type i) = item_hash i.
Proof. destruct i; simpl; [by case_bool_decide | done]. Qed.

Lemma item_serialize_typed_nonempty type i : (1 <= length (item_serialize_typed type i))%nat.
Proof.
  destruct i as [b | h]; simpl; [case_bool_decide |]; rewrite ?length_to_be; try lia.
  rewrite length_block_serialize. destruct b; simpl; lia.
Qed.

(** One round of the loop. *)
Lemma read_items_typed_step fuel type i s :
  item_wf i → item_fits type i →
  read_items_typed (S fuel) type (item_serialize_typed type i ++ s) =
  (l ← read_items_typed fuel type s; Some (item_sent type i :: l)).
Proof.
  intros Hwf Hfit. cbn [read_items_typed].
  rewrite bool_decide_false.
  2: { intros Hn%(f_equal length). rewrite length_app in Hn.
       pose proof (item_serialize_typed_nonempty type i). simpl in Hn. lia. }
  destruct i as [b | h]; simpl in *.
  - case_bool_decide as Ht.
    + by rewrite read_be256 by apply block_hash_range.
    + destruct Hfit as [? | ->]; [done |].
      pose proof (deserialize_block_typed_serialize b s Hwf) as Hd. simpl in Hd. by rewrite Hd.
  - rewrite bool_decide_true by done. by rewrite read_be256.
Qed.

Lemma read_items_typed_serialize fuel type l :
  Forall item_wf l → Forall (item_fits type) l →
  (length (concat (map (item_serialize_typed type) l)) < fuel)%nat →
  read_items_typed fuel type (concat (map (item_serialize_typed type) l)) =
  Some (map (item_sent type) l).
Proof.
  revert fuel. induction l as [| i l IH]; intros [| fuel] Hwf Hfit Hf; try (simpl in Hf; lia); [done |].
  apply Forall_cons in Hwf as [? ?], Hfit as [? ?]. cbn [map concat] in *.
  pose proof (item_serialize_typed_nonempty type i). rewrite length_app in Hf.
  rewrite read_items_typed_step, IH by (done || lia). done.
Qed.

Lemma vote_sent_prefixed type v :
  type ≠ bt_not_a_block ∨ prefixed v = true → prefixed (vote_sent type v) = prefixed v.
Proof.
  unfold prefixed, vote_sent. simpl. rewrite length_map. destruct (vt_blocks v) as [| [b | h] l]; simpl;
    intros Hp; [done | | done].
  case_bool_decide; simpl; [| done]. destruct Hp as [? | Hp]; [done |]. destruct l; simpl in *; done.
Qed.

Lemma vote_read_typed_serialize v type :
  vote_wf v → vt_blocks v ≠ [] → Forall (item_fits type) (vt_blocks v) →
  vote_read_typed (vote_serialize_typed v type) type = Some (vote_sent type v).
Proof.
  intros (? & ? & ? & Hwf) Hne Hfit.
  unfold vote_read_typed, vote_serialize_typed. rewrite read_be256 by done. cbn [mbind option_bind].
  rewrite read_be512 by done. cbn [mbind option_bind]. rewrite read_le64 by done.
  cbn [mbind option_bind]. rewrite read_items_typed_serialize by (done || lia).
  cbn [mbind option_bind]. rewrite bool_decide_false; [done |]. by destruct (vt_blocks v).
Qed.

(** What the typed reader accepts: hashes only, or blocks of the type only. *)
Lemma read_items_typed_canonical fuel type s l :
  read_items_typed fuel type s = Some l →
  s = concat (map (item_serialize_typed type) l) ∧ Forall item_wf l ∧
  Forall (λ i, match i with
               | vote_block b => type = block_type_of b ∧ type ≠ bt_not_a_block
               | vote_block_hash _ => type = bt_not_a_block
               end) l.
Proof.
  revert s l. induction fuel as [| fuel IH]; intros s l Hr; [done |]. cbn [read_items_typed] in Hr.
  case_bool_decide as Hnil; [by simplify_eq |]. case_bool_decide as Ht.
  - parse_inv Hr. destruct (read_items_typed fuel type _) as [l' |] eqn:Hl; simplify_eq/=.
    apply IH in Hl as (-> & Hwf & Hfit). split_and!; [done | by constructor | by constructor].
  - destruct (deserialize_block_typed (Some type) s) as [[b s1] |] eqn:Hb; cbn [mbind option_bind] in Hr; [| done].
    destruct (read_items_typed fuel type s1) as [l' |] eqn:Hl; cbn [mbind option_bind] in Hr; [| done].
    injection Hr as <-.
    apply IH in Hl as (-> & Hwf & Hfit).
    apply deserialize_block_typed_inv in Hb as (Htb & -> & Hb). injection Htb as Htb.
    split_and!; [| by constructor | by constructor]. simpl. by rewrite bool_decide_false.
Qed.

#[local] Arguments read_items_typed : simpl never.

Lemma vote_read_typed_canonical s type v :
  vote_read_typed s type = Some v →
  s = vote_serialize_typed v type ∧ vote_wf v ∧ vt_blocks v ≠ [].
Proof.
  unfold vote_read_typed, vote_serialize_typed. intros Hp. parse_inv Hp.
  destruct (read_items_typed _ _ _) as [items |] eqn:Hl; simplify_eq/=.
  apply read_items_typed_canonical in Hl as (-> & Hwf & _). case_bool_decide; simplify_eq/=.
  split_and!; done.
Qed.

(** A vote sent with the block type in the header is read back with its
    timestamp, account, signature and the same block hashes, blocks becoming hashes
    under not_a_block; its signature check is unchanged when the type is a block
    type or the vote is hashed with the prefix. *)
Theorem vote_typed_roundtrip v type :
  vote_wf v → vt_blocks v ≠ [] → Forall (item_fits type) (vt_blocks v) →
  vote_read_typed (vote_serialize_typed v type) type = Some (vote_sent type v) ∧
  map item_hash (vt_blocks (vote_sent type v)) = map item_hash (vt_blocks v) ∧
  (type ≠ bt_not_a_block ∨ prefixed v = true →
   vote_validate (vote_sent type v) = vote_validate v).
Proof.
  intros Hwf Hne Hfit. split_and!.
  - by apply vote_read_typed_serialize.
  - simpl. rewrite map_map. apply map_ext. intros i. apply item_sent_hash.
  - intros Hp. unfold vote_validate, vote_hash, vote_hash_input.
    rewrite vote_sent_prefixed by done. simpl. rewrite map_map.
    rewrite (map_ext (λ x, to_be 32 (item_hash (item_sent type x))) (λ i, to_be 32 (item_hash i))); [done |].
    intros i. by rewrite item_sent_hash.
Qed.
End typed.

(** ** What is signed, and what identifies a vote *)

Lemma concat_to_be_inj l l' s s' :
  Forall is_u256 l → Forall is_u256 l' → length l = length l' →
  concat (map (to_be 32) l) ++ s = concat (map (to_be 32) l') ++ s' → l = l' ∧ s = s'.
Proof.
  intros Hl. revert l'. induction Hl as [| x l Hx Hl IH]; intros [| y l'] Hl' Hlen He; try done.
  apply Forall_cons in Hl' as [Hy Hl']. simpl in *. rewrite <- !app_assoc in He.
  apply to_be_app_inj256 in He as [-> He]; [| done..]. destruct (IH l') as [-> ->]; auto.
Qed.

Lemma length_concat_to_be l : length (concat (map (to_be 32) l)) = (32 * length l)%nat.
Proof. induction l; simpl; [done |]. rewrite length_app, length_to_be. lia. Qed.

(** The leading bytes of a big-endian number are its high bits. *)
Lemma take_to_be k n z :
  (k <= n)%nat → take k (to_be n z) = to_be k (Z.shiftr z (8 * Z.of_nat (n - k))).
Proof.
  intros Hk. Transparent to_be. unfold to_be. Opaque to_be.
  rewrite firstn_rev, length_le_split, skipn_le_split by lia. do 2 f_equal; lia.
Qed.

Section signed.
Context {C : Crypto} {CL : CryptoLaws C}.

Lemma vote_hash_input_hashes v :
  vote_hash_input v = (if prefixed v then hash_prefix else []) ++
    concat (map (to_be 32) (map item_hash (vt_blocks v))) ++ to_le 8 (vt_timestamp_m v).
Proof. unfold vote_hash_input. by rewrite map_map. Qed.

Lemma item_hashes_range v : vote_wf v → Forall is_u256 (map item_hash (vt_blocks v)).
Proof.
  intros (_ & _ & _ & Hl). apply Forall_map. eapply Forall_impl; [done |]. apply item_hash_range.
Qed.

(** The bytes a vote is signed over are equal for two votes exactly when they
    name the same block hashes in order, carry the same timestamp and duration bits
    and agree on the prefix. *)
Theorem vote_signature_covers v w :
  vote_wf v → vote_wf w →
  vote_hash_input v = vote_hash_input w ↔
  map item_hash (vt_blocks v) = map item_hash (vt_blocks w) ∧
  vt_timestamp_m v = vt_timestamp_m w ∧ prefixed v = prefixed w.
Proof.
  intros Hv Hw. pose proof (item_hashes_range v Hv). pose proof (item_hashes_range w Hw).
  destruct Hv as (Hvt & _), Hw as (Hwt & _). rewrite !vote_hash_input_hashes. split.
  - intros He. pose proof (f_equal length He) as Hl.
    rewrite !length_app, !length_concat_to_be, !length_to_le in Hl.
    assert (Hp : prefixed v = prefixed w).
    { destruct (prefixed v), (prefixed w); simpl in Hl; lia || done. }
    rewrite Hp in He, Hl. apply app_inv_head in He.
    apply concat_to_be_inj in He as [Hh He]; [| done | done | lia]. split_and!; [done | | done].
    pose proof (read_le64 _ [] Hvt) as Hr. rewrite He, read_le64 in Hr by done. congruence.
  - intros (-> & -> & ->). done.
Qed.

(** The digest that identifies a vote covers only the first eight bytes of the
    account and of the signature: votes that agree on these and on the rest have the
    same digest. *)
Theorem vote_full_hash_truncates v account_a sig :
  vt_account v / 2 ^ 192 = account_a / 2 ^ 192 → vt_signature v / 2 ^ 448 = sig / 2 ^ 448 →
  vote_full_hash (Vote (vt_timestamp_m v) (vt_blocks v) account_a sig) = vote_full_hash v.
Proof.
  intros Ha Hs. unfold vote_full_hash. simpl.
  change (vote_hash (Vote _ _ _ _)) with (vote_hash v).
  rewrite !take_to_be by lia.
  change (8 * Z.of_nat (32 - 8)) with 192. change (8 * Z.of_nat (64 - 8)) with 448.
  by rewrite !Z.shiftr_div_pow2, Ha, Hs by lia.
Qed.
End signed.

(** ** Witnesses *)

Lemma vote_timestamp_packing_witness :
  duration_bits (Vote (packed_timestamp 1000 3) [vote_block_hash 7] 5 0) = 3.
Proof.
  apply (vote_timestamp_packing 1000 3 [vote_block_hash 7] 5 0).
  - vm_compute. split; congruence.
  - vm_compute. split; congruence.
Defined.
