(* ===== verification/NetworkFilter.v ===== *)
(** * The duplicate filter of the network ([secure/network_filter.cpp])

    A directly mapped cache of digests: a packet is a duplicate when the slot of
    its digest holds that digest.  [siphash] (CryptoPP, keyed at random when the
    filter is made) is an argument. *)

From S2P Require Import Prelude.

Abbreviation network_filter := (list Z).

Definition filter_new (size_a : nat) : network_filter := replicate size_a 0.

(** [get_element]: the slot; an empty filter divides by zero. *)
Definition get_element (items : network_filter) (hash_a : Z) : outcome (nat * Z) :=
  let index := Z.to_nat (hash_a mod Z.of_nat (length items)) in
  element ← of_option (items !! index);
  Ok (index, element).

(** [apply]: whether the digest was there, and the digest. *)
Definition filter_apply (siphash : bytes → Z) (items : network_filter) (bytes_a : bytes) :
    outcome (bool * Z * network_filter) :=
  let digest := siphash bytes_a in
  '(index, element) ← get_element items digest;
  let existed := element =? digest in
  Ok (existed, digest, if existed then items else <[index := digest]> items).

(** [clear (digest)]. *)
Definition filter_clear (items : network_filter) (digest_a : Z) : outcome network_filter :=
  '(index, element) ← get_element items digest_a;
  Ok (if element =? digest_a then <[index := 0]> items else items).

(** [clear (digests)]. *)
Fixpoint filter_clear_many (items : network_filter) (digests_a : list Z) : outcome network_filter :=
  match digests_a with
  | [] => Ok items
  | digest :: digests_a =>
      items ← filter_clear items digest;
      filter_clear_many items digests_a
  end.

(** [clear (bytes)] and, with its serialization, [clear (object)]. *)
Definition filter_clear_bytes (siphash : bytes → Z) (items : network_filter) (bytes_a : bytes) :
    outcome network_filter :=
  filter_clear items (siphash bytes_a).

Definition filter_clear_all (items : network_filter) : network_filter := replicate (length items) 0.

(** ** What the filter answers *)

Definition slot_of (n : nat) (digest : Z) : nat := Z.to_nat (digest mod Z.of_nat n).

Lemma slot_lt n digest : (0 < n)%nat → (slot_of n digest < n)%nat.
Proof. intros Hn. unfold slot_of. pose proof (Z.mod_pos_bound digest (Z.of_nat n)). lia. Qed.

Lemma get_element_ok items digest :
  items ≠ [] → ∃ x, items !! slot_of (length items) digest = Some x ∧
    get_element items digest = Ok (slot_of (length items) digest, x).
Proof.
  intros Hne. destruct (lookup_lt_is_Some_2 items (slot_of (length items) digest)) as [x Hx].
  { apply slot_lt. destruct items; [done | simpl; lia]. }
  exists x. split; [done |]. unfold get_element. fold (slot_of (length items) digest). by rewrite Hx.
Qed.

(** One operation on the filter. *)
Inductive filter_op := op_apply (m : bytes) | op_clear (digest : Z).

Definition filter_run (siphash : bytes → Z) (items : network_filter) (o : filter_op) :
    outcome network_filter :=
  match o with
  | op_apply m => '(_, _, items) ← filter_apply siphash items m; Ok items
  | op_clear d => filter_clear items d
  end.

(** An operation leaves a slot alone unless its digest belongs there. *)
Definition spares (siphash : bytes → Z) (n : nat) (digest : Z) (o : filter_op) : Prop :=
  match o with
  | op_apply m => siphash m = digest ∨ slot_of n (siphash m) ≠ slot_of n digest
  | op_clear d => d ≠ digest
  end.

Lemma filter_run_spares siphash items o digest :
  items ≠ [] → spares siphash (length items) digest o →
  items !! slot_of (length items) digest = Some digest →
  ∃ items', filter_run siphash items o = Ok items' ∧ length items' = length items ∧
    items' !! slot_of (length items) digest = Some digest.
Proof.
  intros Hne Hs Hd. destruct o as [m | d]; simpl in *.
  - unfold filter_apply. destruct (get_element_ok items (siphash m) Hne) as (x & Hx & ->). simpl.
    eexists. split; [done |]. destruct (Z.eqb_spec x (siphash m)) as [-> | Hn]; [done |].
    rewrite length_insert. split; [done |]. destruct Hs as [Hs | Hs]; [congruence |].
    by rewrite list_lookup_insert_ne.
  - unfold filter_clear. destruct (get_element_ok items d Hne) as (x & Hx & ->). simpl.
    eexists. split; [done |]. destruct (Z.eqb_spec x d) as [-> | Hn]; [| done].
    rewrite length_insert. split; [done |]. rewrite list_lookup_insert_ne; [done |].
    intros He. rewrite He, Hd in Hx. congruence.
Qed.

Fixpoint filter_runs (siphash : bytes → Z) (items : network_filter) (l : list filter_op) :
    outcome network_filter :=
  match l with
  | [] => Ok items
  | o :: l => items ← filter_run siphash items o; filter_runs siphash items l
  end.

Lemma filter_runs_spares siphash l items digest :
  items ≠ [] → Forall (spares siphash (length items) digest) l →
  items !! slot_of (length items) digest = Some digest →
  ∃ items', filter_runs siphash items l = Ok items' ∧ length items' = length items ∧
    items' !! slot_of (length items) digest = Some digest.
Proof.
  revert items. induction l as [| o l IH]; intros items Hne Hl Hd; [by exists items |].
  apply Forall_cons in Hl as [Ho Hl].
  destruct (filter_run_spares siphash items o digest Hne Ho Hd) as (items1 & Hr & Hlen & Hd1).
  simpl. rewrite Hr. simpl. destruct (IH items1) as (items2 & Hr2 & Hlen2 & Hd2).
  - intros ->. by destruct items.
  - by rewrite Hlen.
  - by rewrite Hlen.
  - exists items2. rewrite Hr2, Hlen2, Hlen in *. done.
Qed.

(** A packet seen before is reported as a duplicate as long as no packet with
    another digest took its slot and its digest was not cleared; a packet is
    reported only when its digest is in the filter. *)
Lemma filter_reports_duplicates siphash items m l :
  items ≠ [] → Forall (spares siphash (length items) (siphash m)) l →
  ∃ existed items1 items2, filter_apply siphash items m = Ok (existed, siphash m, items1) ∧
    (existed = true → siphash m ∈ items) ∧
    filter_runs siphash items1 l = Ok items2 ∧
    filter_apply siphash items2 m = Ok (true, siphash m, items2).
Proof.
  intros Hne Hl. unfold filter_apply at 1.
  destruct (get_element_ok items (siphash m) Hne) as (x & Hx & ->). simpl.
  set (items1 := if x =? siphash m then items else _).
  assert (H1 : length items1 = length items ∧
    items1 !! slot_of (length items) (siphash m) = Some (siphash m)).
  { unfold items1. destruct (Z.eqb_spec x (siphash m)) as [-> | Hn]; [done |].
    rewrite length_insert, list_lookup_insert_eq; [done |]. by eapply lookup_lt_Some. }
  destruct H1 as [Hlen H1].
  destruct (filter_runs_spares siphash l items1 (siphash m)) as (items2 & Hr & Hlen2 & H2).
  - intros Hnil. rewrite Hnil in Hlen. by destruct items.
  - by rewrite Hlen.
  - by rewrite Hlen.
  - exists (x =? siphash m), items1, items2. split_and!; [done | | done |].
    + intros ?%Z.eqb_eq. subst x. by eapply list_elem_of_lookup_2.
    + unfold filter_apply. destruct (get_element_ok items2 (siphash m)) as (y & Hy & ->).
      { intros Hnil. rewrite Hnil in Hlen2. rewrite Hlen in Hlen2. by destruct items. }
      rewrite Hlen2 in Hy. rewrite H2 in Hy. injection Hy as <-. simpl. by rewrite Z.eqb_refl.
Qed.
