(* ===== verification/RepWeights.v ===== *)
(** * Representative weights ([lib/rep_weights.cpp])

    The in-memory map from representatives to delegated weight.  All amounts
    are [uint128_t]: a subtraction is the addition of [0 - amount], which
    wraps. *)

From S2P Require Import Prelude.

Abbreviation rep_weights := (gmap Z Z).

Definition rw_get (w : rep_weights) (account_a : Z) : Z := default 0 (w !! account_a).

(** [put]: assign when the key exists, [emplace] when it does not. *)
Definition rw_put (w : rep_weights) (account_a representation_a : Z) : rep_weights :=
  <[account_a := representation_a]> w.

Definition representation_add (w : rep_weights) (source_rep_a amount_a : Z) : rep_weights :=
  rw_put w source_rep_a (wrap128 (rw_get w source_rep_a + amount_a)).

Definition representation_add_dual (w : rep_weights) (rep_1 amount_1 rep_2 amount_2 : Z) :
    rep_weights :=
  if negb (rep_1 =? rep_2) then
    let w := rw_put w rep_1 (wrap128 (rw_get w rep_1 + amount_1)) in
    rw_put w rep_2 (wrap128 (rw_get w rep_2 + amount_2))
  else representation_add w rep_1 (wrap128 (amount_1 + amount_2)).

Definition representation_put (w : rep_weights) (account_a representation_a : Z) : rep_weights :=
  rw_put w account_a representation_a.

Definition representation_get (w : rep_weights) (account_a : Z) : Z := rw_get w account_a.

(** [copy_from]: add every entry of the other map, in its iteration order. *)
Definition copy_from (w : rep_weights) (other : list (Z * Z)) : rep_weights :=
  fold_left (λ w '(k, v), rw_put w k (wrap128 (rw_get w k + v))) other w.

(** ** Lemmas *)

Lemma rw_get_put w a v r : rw_get (rw_put w a v) r = if decide (r = a) then v else rw_get w r.
Proof.
  unfold rw_get, rw_put. rewrite lookup_insert.
  repeat case_decide; simplify_eq; done.
Qed.

Lemma rw_get_add w a v r :
  rw_get (representation_add w a v) r =
  if decide (r = a) then wrap128 (rw_get w a + v) else rw_get w r.
Proof. apply rw_get_put. Qed.

(** The dual update is two single updates, also when the two representatives
    coincide and even though the source takes a different branch then. *)
Lemma rw_get_add_dual w r1 a1 r2 a2 r :
  rw_get (representation_add_dual w r1 a1 r2 a2) r =
  rw_get (representation_add (representation_add w r1 a1) r2 a2) r.
Proof.
  unfold representation_add_dual. destruct (Z.eqb_spec r1 r2) as [<- | Hne]; simpl; [| done].
  rewrite !rw_get_add. repeat case_decide; simplify_eq; [| done].
  by rewrite wrap128_add_r, wrap128_add_l, Z.add_assoc.
Qed.

Lemma rw_get_copy_from w l r :
  rw_get (copy_from w l) r =
  fold_left (λ acc '(k, v), if decide (r = k) then wrap128 (acc + v) else acc) l (rw_get w r).
Proof.
  unfold copy_from. revert w. induction l as [| [k v] l IH]; intros w; simpl; [done |].
  rewrite IH, rw_get_put. f_equal. case_decide; subst; done.
Qed.

(** Adding and then subtracting an amount, as a rollback does. *)
Lemma representation_add_cancel w a v r :
  is_u128 (rw_get w a) →
  rw_get (representation_add (representation_add w a v) a (wrap128 (0 - v))) r = rw_get w r.
Proof.
  intros Hw. rewrite !rw_get_add. repeat case_decide; simplify_eq; [| done].
  rewrite wrap128_add_r, wrap128_add_l.
  rewrite <- (wrap128_small (rw_get w _)) at 2 by done. f_equal. lia.
Qed.

(** *** Updates of a table of 128-bit weights, uniformly in the representative *)

Section in_range.
Context (w : rep_weights) (Hw : ∀ r, is_u128 (rw_get w r)).

Lemma rw_get_add_range a v r : is_u128 (rw_get (representation_add w a v) r).
Proof using Hw. rewrite rw_get_add. case_decide; [auto with widths | apply Hw]. Qed.

Lemma rw_get_add_delta a v r :
  rw_get (representation_add w a v) r =
  wrap128 (rw_get w r + if decide (a = r) then v else 0).
Proof using Hw.
  rewrite rw_get_add. repeat case_decide; simplify_eq; [done |].
  by rewrite Z.add_0_r, wrap128_small.
Qed.
End in_range.

Lemma rw_get_add_dual_delta w r1 a1 r2 a2 r :
  (∀ r, is_u128 (rw_get w r)) →
  rw_get (representation_add_dual w r1 a1 r2 a2) r =
  wrap128 (rw_get w r + (if decide (r1 = r) then a1 else 0) + (if decide (r2 = r) then a2 else 0)).
Proof.
  intros Hw. rewrite rw_get_add_dual, rw_get_add_delta by (intros; by apply rw_get_add_range).
  by rewrite rw_get_add_delta, wrap128_add_l by done.
Qed.
