(* ===== verification/EpochsWork.v ===== *)
(** * Epochs and work thresholds ([lib/epoch.cpp], [lib/config.hpp], [lib/config.cpp])

    The table of epoch links and signers, and the proof-of-work thresholds a
    block has to meet. *)

From S2P Require Import Prelude Blocks.

(** ** Epochs *)

Record epoch_info := EpochInfo { epoch_signer_key : Z; epoch_link_value : Z }.

(** [epochs_m], as the sequence its iteration visits. *)
Abbreviation epochs := (list (epoch * epoch_info)).

(** [epochs_m[epoch_a] = ...]: replaces the entry of the epoch or adds one. *)
Definition epochs_add (es : epochs) (e : epoch) (signer lnk : Z) : epochs :=
  (e, EpochInfo signer lnk) :: filter (λ x, x.1 ≠ e) es.

(** [epochs_m.at]: throws when the epoch has no entry. *)
Definition epochs_at (es : epochs) (e : epoch) : option epoch_info :=
  snd <$> find (λ x, x.1 =? e) es.

Definition epochs_link (es : epochs) (e : epoch) : option Z :=
  epoch_link_value <$> epochs_at es e.

Definition epochs_signer (es : epochs) (e : epoch) : option Z :=
  epoch_signer_key <$> epochs_at es e.

Definition epochs_is_epoch_link (es : epochs) (lnk : Z) : bool :=
  existsb (λ x, epoch_link_value x.2 =? lnk) es.

(** [epochs::epoch]: the first entry with that link; [None] is the [end]
    iterator, which the callers exclude by testing [is_epoch_link] first. *)
Definition epochs_epoch (es : epochs) (lnk : Z) : option epoch :=
  fst <$> find (λ x, epoch_link_value x.2 =? lnk) es.

(** [is_sequential]: one version higher; the sum is an [int], it does not wrap. *)
Definition is_sequential (epoch_a new_epoch_a : epoch) : bool :=
  (epoch_0 <=? epoch_a) && (new_epoch_a =? epoch_a + 1).

(** ** Work thresholds *)

Record work_thresholds := WorkThresholds {
  wt_epoch_1 : Z;
  wt_epoch_2 : Z;
  wt_epoch_2_receive : Z;
}.

(** The constructor derives [base] and [entry] from the three values. *)
Definition wt_base (w : work_thresholds) : Z :=
  Z.max (wt_epoch_1 w) (Z.max (wt_epoch_2 w) (wt_epoch_2_receive w)).
Definition wt_entry (w : work_thresholds) : Z :=
  Z.min (wt_epoch_1 w) (Z.min (wt_epoch_2 w) (wt_epoch_2_receive w)).

Definition publish_full : work_thresholds :=
  WorkThresholds 0xf000000000000000 0xf000000000000000 0xf000000000000000.
Definition publish_beta : work_thresholds :=
  WorkThresholds 0xf000000000000000 0xf000000000000000 0xf000000000000000.
Definition publish_dev : work_thresholds :=
  WorkThresholds 0xf000000000000000 0xf000000000000000 0xf000000000000000.

(** [work_version]: blocks only have version 1. *)
Inductive work_version : Type := work_unspecified | work_1.

(** [threshold_entry]. *)
Definition threshold_entry (w : work_thresholds) (v : work_version) (t : block_type) : Z :=
  if bool_decide (t = bt_state) then
    match v with work_1 => wt_entry w | work_unspecified => u64_max end
  else wt_epoch_1 w.

(** [threshold (block_details)]; an epoch outside the enumeration keeps the
    maximum. *)
Definition threshold_details (w : work_thresholds) (d : block_details) : Z :=
  if details_epoch d =? epoch_2 then
    if is_receive d || is_epoch d then wt_epoch_2_receive w else wt_epoch_2 w
  else if (details_epoch d =? epoch_1) || (details_epoch d =? epoch_0) then wt_epoch_1 w
  else u64_max.

Definition threshold (w : work_thresholds) (v : work_version) (d : block_details) : Z :=
  match v with work_1 => threshold_details w d | work_unspecified => u64_max end.

Definition threshold_base (w : work_thresholds) (v : work_version) : Z :=
  match v with work_1 => wt_base w | work_unspecified => u64_max end.

Section difficulty.
Context `{Crypto}.

(** [value]: the 8-byte digest of nonce and root, read in host order. *)
Definition work_value (rt work : Z) : Z := of_le (blake2b 8 (to_le 8 work ++ to_be 32 rt)).

Definition difficulty (v : work_version) (rt work : Z) : Z :=
  match v with work_1 => work_value rt work | work_unspecified => 0 end.

Definition block_difficulty (b : block) : Z := difficulty work_1 (root b) (block_work b).

(** [validate_entry]: true is an error. *)
Definition validate_entry (w : work_thresholds) (b : block) : bool :=
  block_difficulty b <? threshold_entry w work_1 (block_type_of b).

(** The work check of the ledger processor. *)
Definition sufficient_work (w : work_thresholds) (b : block) (d : block_details) : bool :=
  threshold w work_1 d <=? block_difficulty b.
End difficulty.

(** ** Lemmas *)

Lemma is_epoch_link_epoch es lnk :
  epochs_is_epoch_link es lnk = true ↔ is_Some (epochs_epoch es lnk).
Proof.
  unfold epochs_is_epoch_link, epochs_epoch. rewrite existsb_exists. split.
  - intros (x & Hx & He).
    destruct (find _ es) eqn:Hf; [by eexists |].
    pose proof (find_none _ _ Hf x Hx). simpl in *. congruence.
  - intros [e He]. destruct (find _ es) as [x |] eqn:Hf; [| done].
    apply find_some in Hf as [? ?]. by exists x.
Qed.

(** An epoch found by its link has a signer. *)
Lemma epochs_epoch_signer es lnk e :
  epochs_epoch es lnk = Some e → is_Some (epochs_signer es e).
Proof.
  unfold epochs_epoch, epochs_signer, epochs_at. intros He.
  destruct (find _ es) as [x |] eqn:Hf; simplify_eq/=. apply find_some in Hf as [Hin _].
  destruct (find (λ y, y.1 =? x.1) es) as [y |] eqn:Hg; [by eexists |].
  pose proof (find_none _ _ Hg x Hin). simpl in *. lia.
Qed.

(** Work that suffices for a block in the ledger also passes the entry check of
    the network: the entry threshold filters out no acceptable block. *)
Theorem entry_work_is_necessary `{Crypto} w b d :
  wt_epoch_1 w <= u64_max → wt_epoch_2 w <= u64_max → wt_epoch_2_receive w <= u64_max →
  (block_type_of b ≠ bt_state → details_epoch d = epoch_0) →
  sufficient_work w b d = true → validate_entry w b = false.
Proof.
  unfold sufficient_work, validate_entry, threshold, threshold_details, threshold_entry,
    wt_entry. intros Hm1 Hm2 Hm3 Hd Hs. case_bool_decide as Ht.
  - repeat case_match; lia.
  - rewrite (Hd Ht) in Hs. simpl in Hs. lia.
Qed.
