(* ===== verification/Messages.v ===== *)
(** * Network messages ([node/common.hpp], [node/common.cpp])

    The message header with its extension bits, the payloads of all message
    kinds, and the parser of datagrams. *)

From S2P Require Import Prelude Blocks BlockCodec EpochsWork Vote NetworkFilter.

(** ** Header *)

(** [enum class message_type : uint8_t]; a header holds any byte. *)
Definition mt_keepalive : Z := 0x2.
Definition mt_publish : Z := 0x3.
Definition mt_confirm_req : Z := 0x4.
Definition mt_confirm_ack : Z := 0x5.
Definition mt_bulk_pull : Z := 0x6.
Definition mt_bulk_push : Z := 0x7.
Definition mt_frontier_req : Z := 0x8.
Definition mt_node_id_handshake : Z := 0x0a.
Definition mt_bulk_pull_account : Z := 0x0b.
Definition mt_telemetry_req : Z := 0x0c.
Definition mt_telemetry_ack : Z := 0x0d.

(** [extensions] is a bitset of 16 bits. *)
Record message_header := MessageHeader {
  mh_network : Z;
  mh_version_max : Z;
  mh_version_using : Z;
  mh_version_min : Z;
  mh_type : Z;
  mh_extensions : Z;
}.

(** What messages use of [network_constants]. *)
Record network_constants := NetworkConstants {
  nc_current_network : Z;
  nc_protocol_version : Z;
  nc_protocol_version_min : Z;
  nc_work : work_thresholds;
}.

Definition header_new (c : network_constants) (type_a : Z) : message_header :=
  MessageHeader (nc_current_network c) (nc_protocol_version c) (nc_protocol_version c)
    (nc_protocol_version_min c) type_a 0.

(** The network is big endian, the extensions are in native order. *)
Definition header_serialize (h : message_header) : bytes :=
  to_be 2 (mh_network h) ++ to_be 1 (mh_version_max h) ++ to_be 1 (mh_version_using h) ++
  to_be 1 (mh_version_min h) ++ to_be 1 (mh_type h) ++ to_le 2 (mh_extensions h).

Definition header_deserialize (s : bytes) : option (message_header * bytes) :=
  '(network, s) ← read_be 2 s;
  '(version_max, s) ← read_be 1 s;
  '(version_using, s) ← read_be 1 s;
  '(version_min, s) ← read_be 1 s;
  '(type, s) ← read_be 1 s;
  '(extensions_l, s) ← read_le 2 s;
  Some (MessageHeader network version_max version_using version_min type extensions_l, s).

Definition header_size : nat := 8.

Definition block_type_mask : Z := 0x0f00.
Definition count_mask : Z := 0xf000.
Definition telemetry_size_mask : Z := 0x3ff.

(** Complement and assignment of a bitset of 16 bits. *)
Definition bits16 (z : Z) : Z := z mod 2 ^ 16.
Definition without (mask extensions : Z) : Z := Z.land extensions (2 ^ 16 - 1 - mask).

Definition set_extensions (e : Z) (h : message_header) : message_header :=
  MessageHeader (mh_network h) (mh_version_max h) (mh_version_using h) (mh_version_min h)
    (mh_type h) e.

(** [block_type ()], a cast of four bits: [None] is no enumerator. *)
Definition header_block_type (h : message_header) : option block_type :=
  block_type_of_code (Z.shiftr (Z.land (mh_extensions h) block_type_mask) 8).

Definition block_type_set (type_a : block_type) (h : message_header) : message_header :=
  set_extensions (Z.lor (without block_type_mask (mh_extensions h))
                    (bits16 (Z.shiftl (block_type_code type_a) 8))) h.

Definition count_get (h : message_header) : Z := Z.shiftr (Z.land (mh_extensions h) count_mask) 12.

Definition count_set (count_a : Z) (h : message_header) : message_header :=
  set_extensions (Z.lor (without count_mask (mh_extensions h)) (bits16 (Z.shiftl count_a 12))) h.

Definition flag_set (flag_a : Z) (h : message_header) : message_header :=
  set_extensions (Z.setbit (mh_extensions h) flag_a) h.

Definition bulk_pull_is_count_present (h : message_header) : bool :=
  (mh_type h =? mt_bulk_pull) && Z.testbit (mh_extensions h) 0.
Definition frontier_req_is_only_confirmed_present (h : message_header) : bool :=
  (mh_type h =? mt_frontier_req) && Z.testbit (mh_extensions h) 1.
Definition node_id_handshake_is_query (h : message_header) : bool :=
  (mh_type h =? mt_node_id_handshake) && Z.testbit (mh_extensions h) 0.
Definition node_id_handshake_is_response (h : message_header) : bool :=
  (mh_type h =? mt_node_id_handshake) && Z.testbit (mh_extensions h) 1.

(** ** Payloads *)

(** [telemetry_data]; the timestamp is in nanoseconds. *)
Record telemetry_data := TelemetryData {
  td_signature : Z;
  td_node_id : Z;
  td_block_count : Z;
  td_cemented_count : Z;
  td_unchecked_count : Z;
  td_account_count : Z;
  td_bandwidth_cap : Z;
  td_peer_count : Z;
  td_protocol_version : Z;
  td_uptime : Z;
  td_genesis_block : Z;
  td_major_version : Z;
  td_minor_version : Z;
  td_patch_version : Z;
  td_pre_release_version : Z;
  td_maker : Z;
  td_timestamp : Z;
  td_active_difficulty : Z;
  td_unknown_data : bytes;
}.

Definition telemetry_latest_size : Z := 202.

(** The message classes.  An endpoint is an IPv6 address and a port. *)
Inductive payload :=
| pl_keepalive (peers : list (Z * Z))
| pl_publish (b : block) (digest : Z)
| pl_confirm_req_block (b : block)
| pl_confirm_req_roots (roots_hashes : list (Z * Z))
| pl_confirm_ack (v : vote)
| pl_bulk_pull (start end_a count : Z)
| pl_bulk_push
| pl_frontier_req (start age count : Z)
| pl_node_id_handshake (query : option Z) (response : option (Z * Z))
| pl_bulk_pull_account (account minimum_amount flags : Z)
| pl_telemetry_req
| pl_telemetry_ack (data : option telemetry_data).

Record message := Message { msg_header : message_header; msg_payload : payload }.

(** ** Reading *)

(** [for (i < 8) ...]: address and port of a peer. *)
Fixpoint read_peers (n : nat) (s : bytes) : option (list (Z * Z) * bytes) :=
  match n with
  | O => Some ([], s)
  | S n =>
      '(address, s) ← read_be 16 s;
      '(port, s) ← read_le 2 s;
      '(l, s) ← read_peers n s;
      Some ((address, port) :: l, s)
  end.

Definition keepalive_deserialize (s : bytes) : option (payload * bytes) :=
  '(peers, s) ← read_peers 8 s; Some (pl_keepalive peers, s).

(** A block that was read is replaced by the one in use, where the constructor is
    given the uniquers. *)
Definition unique_at {A} (unique : A → uniquers → A * uniquers) (x : A) (u : option uniquers) :
    A * option uniquers :=
  match u with Some u => let '(x, u) := unique x u in (x, Some u) | None => (x, None) end.

(** The digest is the one the duplicate filter computed, 0 otherwise. *)
Definition publish_deserialize `{Crypto} (u : option uniquers) (h : message_header) (digest_a : Z) (s : bytes) :
    option (payload * bytes * option uniquers) :=
  '(b, s) ← deserialize_block_typed (header_block_type h) s;
  let '(b, u) := unique_at block_unique b u in
  Some (pl_publish b digest_a, s, u).

(** The loop over [count] pairs; a pair of zeros is read and dropped. *)
Fixpoint read_roots (n : nat) (s : bytes) : option (list (Z * Z) * bytes) :=
  match n with
  | O => Some ([], s)
  | S n =>
      '(block_hash, s) ← read_be 32 s;
      '(root, s) ← read_be 32 s;
      '(l, s) ← read_roots n s;
      Some (if negb (block_hash =? 0) || negb (root =? 0) then (block_hash, root) :: l else l, s)
  end.

Definition confirm_req_deserialize `{Crypto} (u : option uniquers) (h : message_header) (s : bytes) :
    option (payload * bytes * option uniquers) :=
  if bool_decide (header_block_type h = Some bt_not_a_block) then
    '(roots_hashes, s) ← read_roots (Z.to_nat (count_get h)) s;
    if bool_decide (roots_hashes = []) || negb (Z.of_nat (length roots_hashes) =? count_get h)
    then None else Some (pl_confirm_req_roots roots_hashes, s, u)
  else
    '(b, s) ← deserialize_block_typed (header_block_type h) s;
    let '(b, u) := unique_at block_unique b u in
    Some (pl_confirm_req_block b, s, u).

(** The vote reads to the end of the stream; under a type that is no enumerator
    no block is read and the empty vote is an error.  The vote that was read is
    replaced by the one in use with the same key. *)
Definition confirm_ack_deserialize `{Crypto} (u : option uniquers) (h : message_header) (s : bytes) :
    option (payload * bytes * option uniquers) :=
  type ← header_block_type h;
  v ← vote_read_typed s type;
  let '(v, u) := unique_at vote_unique v u in
  Some (pl_confirm_ack v, [], u).

Definition frontier_req_deserialize (s : bytes) : option (payload * bytes) :=
  '(start, s) ← read_be 32 s;
  '(age, s) ← read_le 4 s;
  '(count, s) ← read_le 4 s;
  Some (pl_frontier_req start age count, s).

(** The extended parameters are a zero byte, the count, and three bytes. *)
Definition bulk_pull_deserialize (h : message_header) (s : bytes) : option (payload * bytes) :=
  '(start, s) ← read_be 32 s;
  '(end_a, s) ← read_be 32 s;
  if Z.testbit (mh_extensions h) 0 then
    '(front, s) ← read_be 1 s;
    '(count, s) ← read_le 4 s;
    '(_, s) ← read_be 3 s;
    if negb (front =? 0) then None else Some (pl_bulk_pull start end_a count, s)
  else Some (pl_bulk_pull start end_a 0, s).

Definition bulk_pull_account_deserialize (s : bytes) : option (payload * bytes) :=
  '(account, s) ← read_be 32 s;
  '(minimum_amount, s) ← read_be 16 s;
  '(flags, s) ← read_be 1 s;
  Some (pl_bulk_pull_account account minimum_amount flags, s).

Definition read_query (present : bool) (s : bytes) : option (option Z * bytes) :=
  if present then '(q, s) ← read_be 32 s; Some (Some q, s) else Some (None, s).

Definition read_response (present : bool) (s : bytes) : option (option (Z * Z) * bytes) :=
  if present then
    '(a, s) ← read_be 32 s;
    '(sig, s) ← read_be 64 s;
    Some (Some (a, sig), s)
  else Some (None, s).

Definition node_id_handshake_deserialize (h : message_header) (s : bytes) : option (payload * bytes) :=
  '(query, s) ← read_query (node_id_handshake_is_query h) s;
  '(response, s) ← read_response (node_id_handshake_is_response h) s;
  Some (pl_node_id_handshake query response, s).

(** [telemetry_data::deserialize]; the payload length is all of the extensions. *)
Definition telemetry_data_deserialize (s : bytes) (payload_length_a : Z) :
    option (telemetry_data * bytes) :=
  '(signature, s) ← read_be 64 s;
  '(node_id, s) ← read_be 32 s;
  '(block_count, s) ← read_be 8 s;
  '(cemented_count, s) ← read_be 8 s;
  '(unchecked_count, s) ← read_be 8 s;
  '(account_count, s) ← read_be 8 s;
  '(bandwidth_cap, s) ← read_be 8 s;
  '(peer_count, s) ← read_be 4 s;
  '(protocol_version, s) ← read_be 1 s;
  '(uptime, s) ← read_be 8 s;
  '(genesis_block, s) ← read_be 32 s;
  '(major_version, s) ← read_be 1 s;
  '(minor_version, s) ← read_be 1 s;
  '(patch_version, s) ← read_be 1 s;
  '(pre_release_version, s) ← read_be 1 s;
  '(maker, s) ← read_be 1 s;
  '(timestamp_l, s) ← read_be 8 s;
  '(active_difficulty, s) ← read_be 8 s;
  '(unknown_data, s) ←
    (if telemetry_latest_size <? payload_length_a
     then read_bytes (Z.to_nat (payload_length_a - telemetry_latest_size)) s else Some ([], s));
  Some (TelemetryData signature node_id block_count cemented_count unchecked_count account_count
          bandwidth_cap peer_count protocol_version uptime genesis_block major_version
          minor_version patch_version pre_release_version maker (timestamp_l * 1000000)
          active_difficulty unknown_data, s).

Definition telemetry_size (h : message_header) : Z := Z.land (mh_extensions h) telemetry_size_mask.

Definition telemetry_ack_deserialize (h : message_header) (s : bytes) : option (payload * bytes) :=
  if telemetry_size h =? 0 then Some (pl_telemetry_ack None, s)
  else '(d, s) ← telemetry_data_deserialize s (mh_extensions h); Some (pl_telemetry_ack (Some d), s).

(** ** Writing *)

Definition telemetry_serialize_without_signature (d : telemetry_data) : bytes :=
  to_be 32 (td_node_id d) ++ to_be 8 (td_block_count d) ++ to_be 8 (td_cemented_count d) ++
  to_be 8 (td_unchecked_count d) ++ to_be 8 (td_account_count d) ++ to_be 8 (td_bandwidth_cap d) ++
  to_be 4 (td_peer_count d) ++ to_be 1 (td_protocol_version d) ++ to_be 8 (td_uptime d) ++
  to_be 32 (td_genesis_block d) ++ to_be 1 (td_major_version d) ++ to_be 1 (td_minor_version d) ++
  to_be 1 (td_patch_version d) ++ to_be 1 (td_pre_release_version d) ++ to_be 1 (td_maker d) ++
  to_be 8 (Z.quot (td_timestamp d) 1000000) ++ to_be 8 (td_active_difficulty d) ++ td_unknown_data d.

Definition telemetry_data_serialize (d : telemetry_data) : bytes :=
  to_be 64 (td_signature d) ++ telemetry_serialize_without_signature d.

(** The payload part of the [serialize] methods. *)
Definition keepalive_serialize (peers : list (Z * Z)) : bytes :=
  concat (map (λ x, to_be 16 x.1 ++ to_le 2 x.2) peers).

Definition roots_hashes_serialize (roots_hashes : list (Z * Z)) : bytes :=
  concat (map (λ x, to_be 32 x.1 ++ to_be 32 x.2) roots_hashes).

Definition bulk_pull_serialize (h : message_header) (start end_a count : Z) : bytes :=
  to_be 32 start ++ to_be 32 end_a ++
  (if Z.testbit (mh_extensions h) 0 then to_be 1 0 ++ to_le 4 count ++ to_be 3 0 else []).

Definition frontier_req_serialize (start age count : Z) : bytes :=
  to_be 32 start ++ to_le 4 age ++ to_le 4 count.

Definition node_id_handshake_serialize (query : option Z) (response : option (Z * Z)) : bytes :=
  match query with Some q => to_be 32 q | None => [] end ++
  match response with Some (a, s) => to_be 32 a ++ to_be 64 s | None => [] end.

Definition bulk_pull_account_serialize (account minimum_amount flags : Z) : bytes :=
  to_be 32 account ++ to_be 16 minimum_amount ++ to_be 1 flags.

Definition telemetry_ack_serialize (data : option telemetry_data) : bytes :=
  match data with Some d => telemetry_data_serialize d | None => [] end.

Arguments keepalive_serialize peers /.
Arguments roots_hashes_serialize roots_hashes /.
Arguments bulk_pull_serialize h start end_a count /.
Arguments frontier_req_serialize start age count /.
Arguments node_id_handshake_serialize query response /.
Arguments bulk_pull_account_serialize account minimum_amount flags /.
Arguments telemetry_ack_serialize data /.

Section messages.
Context `{Crypto}.

(** [publish::serialize] and [confirm_req::serialize] write their block, [bulk_push] and
    [telemetry_req] nothing. *)
Definition payload_serialize (h : message_header) (p : payload) : bytes :=
  match p with
  | pl_keepalive peers => keepalive_serialize peers
  | pl_publish b _ | pl_confirm_req_block b => block_serialize b
  | pl_confirm_req_roots l => roots_hashes_serialize l
  | pl_confirm_ack v => vote_serialize_typed v (default bt_invalid (header_block_type h))
  | pl_bulk_pull start end_a count => bulk_pull_serialize h start end_a count
  | pl_bulk_push | pl_telemetry_req => []
  | pl_frontier_req start age count => frontier_req_serialize start age count
  | pl_node_id_handshake query response => node_id_handshake_serialize query response
  | pl_bulk_pull_account account minimum_amount flags =>
      bulk_pull_account_serialize account minimum_amount flags
  | pl_telemetry_ack data => telemetry_ack_serialize data
  end.

Definition message_serialize (m : message) : bytes :=
  header_serialize (msg_header m) ++ payload_serialize (msg_header m) (msg_payload m).

(** ** Constructors *)

Definition keepalive_new (c : network_constants) (peers : list (Z * Z)) : message :=
  Message (header_new c mt_keepalive) (pl_keepalive peers).

Definition publish_new (c : network_constants) (b : block) : message :=
  Message (block_type_set (block_type_of b) (header_new c mt_publish)) (pl_publish b 0).

Definition confirm_req_new_block (c : network_constants) (b : block) : message :=
  Message (block_type_set (block_type_of b) (header_new c mt_confirm_req)) (pl_confirm_req_block b).

Definition confirm_req_new_roots (c : network_constants) (roots_hashes_a : list (Z * Z)) : message :=
  Message (count_set (Z.of_nat (length roots_hashes_a) mod u8_mod)
             (block_type_set bt_not_a_block (header_new c mt_confirm_req)))
    (pl_confirm_req_roots roots_hashes_a).

(** A vote on nothing has no first block. *)
Definition confirm_ack_new (c : network_constants) (v : vote) : outcome message :=
  first_vote_block ← of_option (head (vt_blocks v));
  let h := header_new c mt_confirm_ack in
  Ok (Message (match first_vote_block with
               | vote_block_hash _ =>
                   count_set (Z.of_nat (length (vt_blocks v)) mod u8_mod) (block_type_set bt_not_a_block h)
               | vote_block b => block_type_set (block_type_of b) h
               end) (pl_confirm_ack v)).

(** [set_count_present], which callers use together with a non-zero count. *)
Definition set_count_present (value_a : bool) (h : message_header) : message_header :=
  set_extensions (if value_a then Z.setbit (mh_extensions h) 0 else Z.clearbit (mh_extensions h) 0) h.

Definition bulk_pull_new (c : network_constants) (start end_a count : Z) (count_present : bool) : message :=
  Message (set_count_present count_present (header_new c mt_bulk_pull)) (pl_bulk_pull start end_a count).

Definition bulk_push_new (c : network_constants) : message :=
  Message (header_new c mt_bulk_push) pl_bulk_push.

Definition frontier_req_new (c : network_constants) (start age count : Z) : message :=
  Message (header_new c mt_frontier_req) (pl_frontier_req start age count).

Definition bulk_pull_account_new (c : network_constants) (account minimum_amount flags : Z) : message :=
  Message (header_new c mt_bulk_pull_account) (pl_bulk_pull_account account minimum_amount flags).

Definition node_id_handshake_new (c : network_constants) (query : option Z) (response : option (Z * Z)) :
    message :=
  let h := header_new c mt_node_id_handshake in
  let h := match query with Some _ => flag_set 0 h | None => h end in
  let h := match response with Some _ => flag_set 1 h | None => h end in
  Message h (pl_node_id_handshake query response).

Definition telemetry_req_new (c : network_constants) : message :=
  Message (header_new c mt_telemetry_req) pl_telemetry_req.

(** Without data the size stays zero. *)
Definition telemetry_ack_new (c : network_constants) (data : option telemetry_data) : message :=
  let h := header_new c mt_telemetry_ack in
  Message (match data with
           | Some d => set_extensions (Z.lor (without telemetry_size_mask (mh_extensions h))
               (bits16 (telemetry_latest_size + Z.of_nat (length (td_unknown_data d))))) h
           | None => h
           end) (pl_telemetry_ack data).

(** ** Sizes *)

Definition confirm_req_size (type_a : option block_type) (count : Z) : Z :=
  match type_a with
  | Some bt_invalid => 0
  | Some bt_not_a_block => count * (32 + 32)
  | Some t => Z.of_nat (block_size t)
  | None => 0
  end.

Definition confirm_ack_size (type_a : option block_type) (count : Z) : Z :=
  32 + 64 + 8 +
  match type_a with
  | Some bt_invalid => 0
  | Some bt_not_a_block => count * 32
  | Some t => Z.of_nat (block_size t)
  | None => 0
  end.

Definition node_id_handshake_size (h : message_header) : Z :=
  (if node_id_handshake_is_query h then 32 else 0) +
  (if node_id_handshake_is_response h then 32 + 64 else 0).

(** [payload_length_bytes]. *)
Definition payload_length_bytes (h : message_header) : Z :=
  let t := mh_type h in
  if t =? mt_bulk_pull then 64 + (if bulk_pull_is_count_present h then 8 else 0)
  else if (t =? mt_bulk_push) || (t =? mt_telemetry_req) then 0
  else if t =? mt_frontier_req then 40
  else if t =? mt_bulk_pull_account then 49
  else if t =? mt_keepalive then 8 * (16 + 2)
  else if t =? mt_publish then from_option (λ t, Z.of_nat (block_size t)) 0 (header_block_type h)
  else if t =? mt_confirm_ack then confirm_ack_size (header_block_type h) (count_get h)
  else if t =? mt_confirm_req then confirm_req_size (header_block_type h) (count_get h)
  else if t =? mt_node_id_handshake then node_id_handshake_size h
  else if t =? mt_telemetry_ack then telemetry_size h
  else 0.

(** ** The parser of datagrams *)

Inductive parse_status :=
| ps_success | ps_insufficient_work | ps_invalid_header | ps_invalid_message_type
| ps_invalid_keepalive_message | ps_invalid_publish_message | ps_invalid_confirm_req_message
| ps_invalid_confirm_ack_message | ps_invalid_node_id_handshake_message
| ps_invalid_telemetry_req_message | ps_invalid_telemetry_ack_message | ps_outdated_version
| ps_duplicate_publish_message.

Definition max_safe_udp_message_size : nat := 508.

Definition at_end (s : bytes) : bool := bool_decide (s = []).

(** The status, and the message the visitor is called with. *)
Abbreviation parsed := (parse_status * option message)%type.

Definition parse_keepalive (s : bytes) (h : message_header) : parsed :=
  match keepalive_deserialize s with
  | Some (p, s) => if at_end s then (ps_success, Some (Message h p))
                   else (ps_invalid_keepalive_message, None)
  | None => (ps_invalid_keepalive_message, None)
  end.

Definition parse_publish (u : uniquers) (c : network_constants) (s : bytes) (h : message_header) (digest_a : Z) :
    parsed * uniquers :=
  match publish_deserialize (Some u) h digest_a s with
  | Some (pl_publish b d, s, u') =>
      (if at_end s then
         if negb (validate_entry (nc_work c) b) then (ps_success, Some (Message h (pl_publish b d)))
         else (ps_insufficient_work, None)
       else (ps_invalid_publish_message, None), default u u')
  | _ => ((ps_invalid_publish_message, None), u)
  end.

Definition parse_confirm_req (u : uniquers) (c : network_constants) (s : bytes) (h : message_header) :
    parsed * uniquers :=
  match confirm_req_deserialize (Some u) h s with
  | Some (p, s, u') =>
      (if at_end s then
         match p with
         | pl_confirm_req_block b =>
             if negb (validate_entry (nc_work c) b) then (ps_success, Some (Message h p))
             else (ps_insufficient_work, None)
         | _ => (ps_success, Some (Message h p))
         end
       else (ps_invalid_confirm_req_message, None), default u u')
  | None => ((ps_invalid_confirm_req_message, None), u)
  end.

(** The work is checked for the blocks of the vote that is handed on. *)
Definition parse_confirm_ack (u : uniquers) (c : network_constants) (s : bytes) (h : message_header) :
    parsed * uniquers :=
  match confirm_ack_deserialize (Some u) h s with
  | Some (pl_confirm_ack v, s, u') =>
      (if at_end s then
         if existsb (λ i, match i with
                          | vote_block b => validate_entry (nc_work c) b
                          | vote_block_hash _ => false
                          end) (vt_blocks v)
         then (ps_insufficient_work, None)
         else (ps_success, Some (Message h (pl_confirm_ack v)))
       else (ps_invalid_confirm_ack_message, None), default u u')
  | _ => ((ps_invalid_confirm_ack_message, None), u)
  end.

Definition parse_node_id_handshake (s : bytes) (h : message_header) : parsed :=
  match node_id_handshake_deserialize h s with
  | Some (p, s) => if at_end s then (ps_success, Some (Message h p))
                   else (ps_invalid_node_id_handshake_message, None)
  | None => (ps_invalid_node_id_handshake_message, None)
  end.

Definition parse_telemetry_req (s : bytes) (h : message_header) : parsed :=
  if at_end s then (ps_success, Some (Message h pl_telemetry_req))
  else (ps_invalid_telemetry_req_message, None).

(** The end of the stream is not checked. *)
Definition parse_telemetry_ack (s : bytes) (h : message_header) : parsed :=
  match telemetry_ack_deserialize h s with
  | Some (p, _) => (ps_success, Some (Message h p))
  | None => (ps_invalid_telemetry_ack_message, None)
  end.

(** [deserialize_buffer]; a datagram that is too long is dropped without a status. *)
Definition deserialize_buffer (siphash : bytes → Z) (c : network_constants) (items : network_filter) (u : uniquers)
    (buffer : bytes) : outcome (parsed * network_filter * uniquers) :=
  if bool_decide (max_safe_udp_message_size < length buffer)%nat then Ok ((ps_success, None), items, u) else
  match header_deserialize buffer with
  | None => Ok ((ps_invalid_header, None), items, u)
  | Some (h, s) =>
      let t := mh_type h in
      if mh_version_using h <? nc_protocol_version_min c then Ok ((ps_outdated_version, None), items, u)
      else if t =? mt_keepalive then Ok (parse_keepalive s h, items, u)
      else if t =? mt_publish then
        '(existed, digest, items) ← filter_apply siphash items (drop header_size buffer);
        if (existed : bool) then Ok ((ps_duplicate_publish_message, None), items, u)
        else let '(r, u) := parse_publish u c s h digest in Ok (r, items, u)
      else if t =? mt_confirm_req then let '(r, u) := parse_confirm_req u c s h in Ok (r, items, u)
      else if t =? mt_confirm_ack then let '(r, u) := parse_confirm_ack u c s h in Ok (r, items, u)
      else if t =? mt_node_id_handshake then Ok (parse_node_id_handshake s h, items, u)
      else if t =? mt_telemetry_req then Ok (parse_telemetry_req s h, items, u)
      else if t =? mt_telemetry_ack then Ok (parse_telemetry_ack s h, items, u)
      else Ok ((ps_invalid_message_type, None), items, u)
  end.
End messages.
