(* ===== verification/MessageTheorems.v ===== *)
(** * What the message codecs guarantee

    A message made by its constructor is read back as it was and has the length
    its header announces; the parser of datagrams hands a message to the visitor
    only when the datagram is its serialization, and hands on every message that
    fits a datagram, has work and is no duplicate. *)

From S2P Require Import Prelude Blocks BlockCodec EpochsWork Vote NetworkFilter Messages.

(** ** Well-formed messages *)

Definition is_u16 (z : Z) : Prop := 0 <= z < 2 ^ 16.
Definition is_u32 (z : Z) : Prop := 0 <= z < 2 ^ 32.

Definition header_wf (h : message_header) : Prop :=
  is_u16 (mh_network h) ∧ is_u8 (mh_version_max h) ∧ is_u8 (mh_version_using h) ∧
  is_u8 (mh_version_min h) ∧ is_u8 (mh_type h) ∧ is_u16 (mh_extensions h).

Definition constants_wf (c : network_constants) : Prop :=
  is_u16 (nc_current_network c) ∧ is_u8 (nc_protocol_version c) ∧ is_u8 (nc_protocol_version_min c).

(** The timestamp is a whole number of milliseconds, and the data fit the size
    field of the header. *)
Definition telemetry_wf (d : telemetry_data) : Prop :=
  is_u512 (td_signature d) ∧ is_u256 (td_node_id d) ∧ is_u64 (td_block_count d) ∧
  is_u64 (td_cemented_count d) ∧ is_u64 (td_unchecked_count d) ∧ is_u64 (td_account_count d) ∧
  is_u64 (td_bandwidth_cap d) ∧ is_u32 (td_peer_count d) ∧ is_u8 (td_protocol_version d) ∧
  is_u64 (td_uptime d) ∧ is_u256 (td_genesis_block d) ∧ is_u8 (td_major_version d) ∧
  is_u8 (td_minor_version d) ∧ is_u8 (td_patch_version d) ∧ is_u8 (td_pre_release_version d) ∧
  is_u8 (td_maker d) ∧ (∃ ms, is_u64 ms ∧ td_timestamp d = ms * 1000000) ∧
  is_u64 (td_active_difficulty d) ∧
  telemetry_latest_size + Z.of_nat (length (td_unknown_data d)) <= telemetry_size_mask.

Section built.
Context `{Crypto} (c : network_constants).

(** The messages the constructors make from values that fit their types. *)
Inductive built : message → Prop :=
| built_keepalive peers :
    length peers = 8%nat → Forall (λ x, is_u128 x.1 ∧ is_u16 x.2) peers →
    built (keepalive_new c peers)
| built_publish b : block_wf b → built (publish_new c b)
| built_confirm_req_block b : block_wf b → built (confirm_req_new_block c b)
| built_confirm_req_roots l :
    (0 < length l < 16)%nat →
    Forall (λ x, is_u256 x.1 ∧ is_u256 x.2 ∧ (x.1 ≠ 0 ∨ x.2 ≠ 0)) l →
    built (confirm_req_new_roots c l)
| built_confirm_ack_block v b m :
    vote_wf v → vt_blocks v = [vote_block b] → confirm_ack_new c v = Ok m → built m
| built_confirm_ack_hashes v m :
    vote_wf v → (0 < length (vt_blocks v) < 16)%nat →
    Forall (λ i, which i = true) (vt_blocks v) → confirm_ack_new c v = Ok m → built m
| built_bulk_pull start end_a count :
    is_u256 start → is_u256 end_a → is_u32 count →
    built (bulk_pull_new c start end_a count (negb (count =? 0)))
| built_bulk_push : built (bulk_push_new c)
| built_frontier_req start age count :
    is_u256 start → is_u32 age → is_u32 count → built (frontier_req_new c start age count)
| built_node_id_handshake query response :
    (∀ q, query = Some q → is_u256 q) →
    (∀ r, response = Some r → is_u256 r.1 ∧ is_u512 r.2) →
    built (node_id_handshake_new c query response)
| built_bulk_pull_account account minimum_amount flags :
    is_u256 account → is_u128 minimum_amount → is_u8 flags →
    built (bulk_pull_account_new c account minimum_amount flags)
| built_telemetry_req : built (telemetry_req_new c)
| built_telemetry_ack data :
    (∀ d, data = Some d → telemetry_wf d) → built (telemetry_ack_new c data).

(** The constructor from a stream of the class that a header type stands for. *)
Definition payload_deserialize (h : message_header) (s : bytes) : option (payload * bytes) :=
  let t := mh_type h in
  if t =? mt_keepalive then keepalive_deserialize s
  else if t =? mt_publish then fst <$> publish_deserialize None h 0 s
  else if t =? mt_confirm_req then fst <$> confirm_req_deserialize None h s
  else if t =? mt_confirm_ack then fst <$> confirm_ack_deserialize None h s
  else if t =? mt_bulk_pull then bulk_pull_deserialize h s
  else if t =? mt_bulk_push then Some (pl_bulk_push, s)
  else if t =? mt_frontier_req then frontier_req_deserialize s
  else if t =? mt_node_id_handshake then node_id_handshake_deserialize h s
  else if t =? mt_bulk_pull_account then bulk_pull_account_deserialize s
  else if t =? mt_telemetry_req then Some (pl_telemetry_req, s)
  else if t =? mt_telemetry_ack then telemetry_ack_deserialize h s
  else None.
End built.

(** ** Codec lemmas *)

Lemma read_be16 z s : is_u16 z → read_be 2 (to_be 2 z ++ s) = Some (z, s).
Proof. exact (read_be_app 2 z s). Qed.
Lemma read_le16 z s : is_u16 z → read_le 2 (to_le 2 z ++ s) = Some (z, s).
Proof. exact (read_le_app 2 z s). Qed.
Lemma read_be32 z s : is_u32 z → read_be 4 (to_be 4 z ++ s) = Some (z, s).
Proof. exact (read_be_app 4 z s). Qed.
Lemma read_le32 z s : is_u32 z → read_le 4 (to_le 4 z ++ s) = Some (z, s).
Proof. exact (read_le_app 4 z s). Qed.

(** Consume one encoded field after the other. *)
Ltac read_run :=
  repeat first
    [ rewrite <- !app_assoc
    | rewrite read_be16 by done | rewrite read_le16 by done | rewrite read_be32 by done
    | rewrite read_le32 by done | rewrite read_be8 by done | rewrite read_be64 by done
    | rewrite read_le64 by done | rewrite read_be128 by done | rewrite read_be256 by done
    | rewrite read_be512 by done
    | progress cbn [mbind option_bind] ].

Lemma header_roundtrip h s :
  header_wf h → header_deserialize (header_serialize h ++ s) = Some (h, s).
Proof.
  intros (? & ? & ? & ? & ? & ?). unfold header_deserialize, header_serialize. read_run. by destruct h.
Qed.

Lemma length_header_serialize h : length (header_serialize h) = header_size.
Proof. unfold header_serialize. by rewrite !length_app, !length_to_be, length_to_le. Qed.

Lemma header_deserialize_inv s h s' :
  header_deserialize s = Some (h, s') → s = header_serialize h ++ s' ∧ header_wf h.
Proof.
  unfold header_deserialize, header_serialize. intros Hp. parse_inv Hp. simplify_eq/=.
  rewrite <- !app_assoc. done.
Qed.

Lemma read_peers_serialize peers s :
  Forall (λ x, is_u128 x.1 ∧ is_u16 x.2) peers →
  read_peers (length peers) (concat (map (λ x, to_be 16 x.1 ++ to_le 2 x.2) peers) ++ s) = Some (peers, s).
Proof.
  intros Hp. induction Hp as [| [a p] peers [Ha Hport] Hp IH]; [done |]. cbn [length map concat read_peers fst snd].
  simpl in Ha, Hport. read_run. rewrite IH. done.
Qed.

Lemma read_peers_inv n s l s' :
  read_peers n s = Some (l, s') →
  s = concat (map (λ x, to_be 16 x.1 ++ to_le 2 x.2) l) ++ s' ∧ length l = n.
Proof.
  revert s l. induction n as [| n IH]; intros s l Hr; cbn [read_peers] in Hr; [by simplify_eq |].
  parse_inv Hr. destruct (read_peers n _) as [[l' s1] |] eqn:Hl; simplify_eq/=.
  apply IH in Hl as [-> <-]. rewrite <- !app_assoc. done.
Qed.

Lemma read_roots_serialize l s :
  Forall (λ x, is_u256 x.1 ∧ is_u256 x.2 ∧ (x.1 ≠ 0 ∨ x.2 ≠ 0)) l →
  read_roots (length l) (concat (map (λ x, to_be 32 x.1 ++ to_be 32 x.2) l) ++ s) = Some (l, s).
Proof.
  intros Hp. induction Hp as [| [a p] l (Ha & Hr & Hz) Hp IH]; [done |].
  cbn [length map concat read_roots fst snd] in *. simpl in Ha, Hr, Hz. read_run. rewrite IH.
  cbn [mbind option_bind]. replace (negb (a =? 0) || negb (p =? 0)) with true by lia. done.
Qed.

Lemma read_roots_inv n s l s' :
  read_roots n s = Some (l, s') → length l = n →
  s = concat (map (λ x, to_be 32 x.1 ++ to_be 32 x.2) l) ++ s'.
Proof.
  revert s l. induction n as [| n IH]; intros s l Hr Hn; cbn [read_roots] in Hr; [by simplify_eq |].
  parse_inv Hr. destruct (read_roots n _) as [[l' s1] |] eqn:Hl; simplify_eq/=.
  assert (Hle : ∀ m s l s', read_roots m s = Some (l, s') → (length l <= m)%nat).
  { clear. induction m as [| m IH]; intros s l s' Hr; cbn [read_roots] in Hr; [by simplify_eq/= |].
    parse_inv Hr. destruct (read_roots m _) as [[l' s1] |] eqn:Hl; simplify_eq/=. apply IH in Hl.
    destruct (_ || _); simpl; lia. }
  pose proof (Hle _ _ _ _ Hl). destruct (_ || _); simpl in Hn; [| lia].
  apply IH in Hl as ->; [| lia]. simpl. rewrite <- !app_assoc. done.
Qed.

(** ** Extension bits *)

Lemma block_type_header c t bt :
  bt ≠ bt_invalid →
  let h := block_type_set bt (header_new c t) in
  header_block_type h = Some bt ∧ is_u16 (mh_extensions h).
Proof. intros Hb. destruct bt; vm_compute; repeat split; congruence. Qed.

Lemma count_header c t n :
  0 <= n < 16 →
  let h := count_set n (block_type_set bt_not_a_block (header_new c t)) in
  header_block_type h = Some bt_not_a_block ∧ count_get h = n ∧ is_u16 (mh_extensions h).
Proof.
  intros Hn h. subst h.
  assert (Hc : n ∈ seqZ 0 16) by (apply elem_of_seqZ; lia). clear Hn.
  change (seqZ 0 16) with [0; 1; 2; 3; 4; 5; 6; 7; 8; 9; 10; 11; 12; 13; 14; 15] in Hc.
  repeat (apply elem_of_cons in Hc as [-> | Hc]; [vm_compute; repeat split; congruence |]).
  by apply elem_of_nil in Hc.
Qed.

Lemma telemetry_header c d :
  telemetry_wf d →
  let h := msg_header (telemetry_ack_new c (Some d)) in
  let n := telemetry_latest_size + Z.of_nat (length (td_unknown_data d)) in
  mh_extensions h = n ∧ telemetry_size h = n ∧ is_u16 n.
Proof.
  intros Hd. assert (Hn : telemetry_latest_size + Z.of_nat (length (td_unknown_data d)) <= 0x3ff)
    by apply Hd. cbv zeta. set (n := telemetry_latest_size + _) in *.
  assert (He : mh_extensions (msg_header (telemetry_ack_new c (Some d))) = n).
  { change (Z.lor (without telemetry_size_mask 0) (bits16 n) = n). unfold without, bits16.
    rewrite Z.land_0_l, Z.lor_0_l. apply Z.mod_small. unfold n, telemetry_latest_size in *. lia. }
  unfold telemetry_size. rewrite He. unfold telemetry_size_mask. change 0x3ff with (Z.ones 10).
  unfold is_u16, n, telemetry_latest_size in *. rewrite Z.land_ones, Z.mod_small by lia. lia.
Qed.

Lemma built_header_wf `{Crypto} c m : constants_wf c → built c m → header_wf (msg_header m).
Proof.
  intros (Hn & Hv & Hm) Hb.
  assert (Hnew : ∀ t e, is_u8 t → is_u16 e → header_wf (set_extensions e (header_new c t)))
    by (intros; split_and!; done).
  destruct Hb as [peers | b | b | l Hl | v b m Hv' Hb' He | v m Hv' Hl Hw He | start end_a count | | |
    query response | | | data Hd]; simpl.
  all: try (split_and!; done).
  - apply Hnew; [done |]. by apply (block_type_header c mt_publish); destruct b.
  - apply Hnew; [done |]. by apply (block_type_header c mt_confirm_req); destruct b.
  - rewrite Z.mod_small by (unfold u8_mod; lia). apply Hnew; [done |].
    apply (count_header c mt_confirm_req). lia.
  - unfold confirm_ack_new in He. rewrite Hb' in He. simpl in He. simplify_eq/=.
    apply Hnew; [done |]. by apply (block_type_header c mt_confirm_ack); destruct b.
  - unfold confirm_ack_new in He. destruct (vt_blocks v) as [| i l] eqn:Hi; [simpl in Hl; lia |].
    simpl in He. apply Forall_cons in Hw as [Hw _]. destruct i; [done |]. simplify_eq/=.
    rewrite Z.mod_small by (unfold u8_mod; simpl in Hl; lia). apply Hnew; [done |].
    apply (count_header c mt_confirm_ack). simpl in Hl. lia.
  - apply Hnew; [done |]. by destruct (negb _).
  - destruct query, response; split_and!; done.
  - destruct data as [d |]; [| split_and!; done]. apply Hnew; [done |].
    destruct (telemetry_header c d (Hd d eq_refl)) as (Hext & _ & Hr). simpl in Hext. by rewrite Hext.
Qed.

(** ** Round trips *)

Lemma telemetry_data_roundtrip d s :
  telemetry_wf d →
  telemetry_data_deserialize (telemetry_data_serialize d ++ s)
    (telemetry_latest_size + Z.of_nat (length (td_unknown_data d))) = Some (d, s) ∧
  Z.of_nat (length (telemetry_data_serialize d)) =
    telemetry_latest_size + Z.of_nat (length (td_unknown_data d)).
Proof.
  intros (? & ? & ? & ? & ? & ? & ? & ? & ? & ? & ? & ? & ? & ? & ? & ? & (ms & Hms & Hts) & ? & _).
  unfold telemetry_data_deserialize, telemetry_data_serialize, telemetry_serialize_without_signature.
  split.
  - rewrite Hts, Z.quot_mul by lia. read_run.
    assert (Hu : (if telemetry_latest_size <? telemetry_latest_size + Z.of_nat (length (td_unknown_data d))
      then read_bytes (Z.to_nat (telemetry_latest_size + Z.of_nat (length (td_unknown_data d)) -
        telemetry_latest_size)) (td_unknown_data d ++ s) else Some ([], td_unknown_data d ++ s)) =
      Some (td_unknown_data d, s)).
    { destruct (Z.ltb_spec telemetry_latest_size
        (telemetry_latest_size + Z.of_nat (length (td_unknown_data d)))) as [Hl | Hl].
      - apply read_bytes_app. lia.
      - destruct (td_unknown_data d); [done | simpl in Hl; lia]. }
    rewrite Hu. cbn [mbind option_bind]. rewrite <- Hts. by destruct d.
  - rewrite !length_app, !length_to_be. unfold telemetry_latest_size. lia.
Qed.

Lemma vote_sent_same `{Crypto} type v :
  Forall (λ i, match i with vote_block _ => type ≠ bt_not_a_block | _ => True end) (vt_blocks v) →
  vote_sent type v = v.
Proof.
  intros Hv. unfold vote_sent. destruct v as [t l a s]. simpl in *. f_equal.
  induction Hv as [| [b | h] l Hb Hl IH]; simpl; [done | |].
  - rewrite bool_decide_false by done. by f_equal.
  - by f_equal.
Qed.

Lemma length_concat_const {A} (f : A → bytes) (n : nat) (l : list A) :
  (∀ x, length (f x) = n) → length (concat (map f l)) = (n * length l)%nat.
Proof. intros Hf. induction l as [| x l IH]; simpl; [lia |]. rewrite length_app, Hf, IH. lia. Qed.

(** Reading a payload back, and its length. *)
Definition payload_ok `{Crypto} (m : message) : Prop :=
  payload_deserialize (msg_header m) (payload_serialize (msg_header m) (msg_payload m)) =
    Some (msg_payload m, []) ∧
  Z.of_nat (length (payload_serialize (msg_header m) (msg_payload m))) =
    payload_length_bytes (msg_header m).

Section roundtrip.
Context {C : Crypto} {CL : CryptoLaws C} (c : network_constants).

Lemma block_typed_end b :
  block_wf b → deserialize_block_typed (Some (block_type_of b)) (block_serialize b) = Some (b, []).
Proof.
  intros Hb. pose proof (deserialize_block_typed_serialize b [] Hb) as Hd. by rewrite app_nil_r in Hd.
Qed.

Lemma keepalive_ok peers :
  length peers = 8%nat → Forall (λ x, is_u128 x.1 ∧ is_u16 x.2) peers → payload_ok (keepalive_new c peers).
Proof.
  intros Hl Hp. split.
  - pose proof (read_peers_serialize peers [] Hp) as Hr. rewrite app_nil_r, Hl in Hr.
    change (keepalive_deserialize (concat (map (λ x, to_be 16 x.1 ++ to_le 2 x.2) peers)) =
      Some (pl_keepalive peers, [])). unfold keepalive_deserialize. by rewrite Hr.
  - simpl. rewrite (length_concat_const _ 18), Hl; [done |]. intros x.
    by rewrite length_app, length_to_be, length_to_le.
Qed.

Lemma publish_ok b : block_wf b → payload_ok (publish_new c b).
Proof.
  intros Hb. destruct (block_type_header c mt_publish (block_type_of b)) as [Ht _]; [by destruct b |].
  split.
  - change (fst <$> publish_deserialize None (block_type_set (block_type_of b) (header_new c mt_publish)) 0
      (block_serialize b) = Some (pl_publish b 0, [])).
    unfold publish_deserialize. by rewrite Ht, block_typed_end.
  - unfold payload_length_bytes. simpl msg_header. simpl mh_type. simpl. rewrite Ht. simpl.
    by rewrite length_block_serialize.
Qed.

Lemma confirm_req_block_ok b : block_wf b → payload_ok (confirm_req_new_block c b).
Proof.
  intros Hb. destruct (block_type_header c mt_confirm_req (block_type_of b)) as [Ht _]; [by destruct b |].
  split.
  - change (fst <$> confirm_req_deserialize None (block_type_set (block_type_of b) (header_new c mt_confirm_req))
      (block_serialize b) = Some (pl_confirm_req_block b, [])).
    unfold confirm_req_deserialize. rewrite Ht, bool_decide_false by (by destruct b).
    by rewrite block_typed_end.
  - unfold payload_length_bytes. simpl. rewrite Ht, length_block_serialize. by destruct b.
Qed.

Lemma confirm_req_roots_ok l :
  (0 < length l < 16)%nat → Forall (λ x, is_u256 x.1 ∧ is_u256 x.2 ∧ (x.1 ≠ 0 ∨ x.2 ≠ 0)) l →
  payload_ok (confirm_req_new_roots c l).
Proof.
  intros Hl Hr. unfold confirm_req_new_roots. rewrite Z.mod_small by (unfold u8_mod; lia).
  destruct (count_header c mt_confirm_req (Z.of_nat (length l))) as (Ht & Hc & _); [lia |].
  set (h := count_set _ _) in *. split; cbn [msg_header msg_payload payload_serialize].
  - change (fst <$> confirm_req_deserialize None h (concat (map (λ x, to_be 32 x.1 ++ to_be 32 x.2) l)) =
      Some (pl_confirm_req_roots l, [])).
    unfold confirm_req_deserialize. rewrite Ht, Hc, bool_decide_true, Nat2Z.id by done.
    pose proof (read_roots_serialize l [] Hr) as Hd. rewrite app_nil_r in Hd. rewrite Hd.
    cbn [mbind option_bind]. rewrite Z.eqb_refl, bool_decide_false; [done |]. by intros ->; simpl in Hl; lia.
  - unfold roots_hashes_serialize. rewrite (length_concat_const _ 64) by (intros; by rewrite length_app, !length_to_be).
    unfold payload_length_bytes. change (mh_type h) with mt_confirm_req. simpl. rewrite Ht, Hc. simpl. lia.
Qed.

Lemma confirm_ack_ok v m :
  vote_wf v →
  ((∃ b, vt_blocks v = [vote_block b]) ∨
   (0 < length (vt_blocks v) < 16)%nat ∧ Forall (λ i, which i = true) (vt_blocks v)) →
  confirm_ack_new c v = Ok m → payload_ok m.
Proof.
  intros Hv Hb Hm.
  assert (∃ h type, m = Message h (pl_confirm_ack v) ∧ mh_type h = mt_confirm_ack ∧
    header_block_type h = Some type ∧ Forall (item_fits type) (vt_blocks v) ∧
    Forall (λ i, match i with vote_block _ => type ≠ bt_not_a_block | _ => True end) (vt_blocks v) ∧
    vt_blocks v ≠ [] ∧
    Z.of_nat (length (concat (map (item_serialize_typed type) (vt_blocks v)))) =
      match type with bt_not_a_block => count_get h * 32 | t => Z.of_nat (block_size t) end ∧
    type ≠ bt_invalid) as (h & type & -> & Hty & Ht & Hfit & Hsame & Hne & Hlen & Hinv).
  { unfold confirm_ack_new in Hm. destruct Hb as [[b Hb] | [Hl Hw]].
    - rewrite Hb in Hm. simpl in Hm. simplify_eq.
      destruct (block_type_header c mt_confirm_ack (block_type_of b)) as [Ht _]; [by destruct b |].
      eexists _, (block_type_of b). rewrite Hb.
      split_and!; [done | done | done | constructor; [by right | constructor] | | done | | by destruct b].
      + rewrite Forall_singleton. by destruct b.
      + simpl. rewrite app_nil_r, bool_decide_false by (by destruct b).
        rewrite length_block_serialize. by destruct b.
    - destruct (vt_blocks v) as [| i l] eqn:Hi; [simpl in Hl; lia |]. rewrite <- Hi in *.
      assert (Hm' : m = Message (count_set (Z.of_nat (length (vt_blocks v)) mod u8_mod)
        (block_type_set bt_not_a_block (header_new c mt_confirm_ack))) (pl_confirm_ack v)).
      { rewrite Hi in Hm, Hw |- *. apply Forall_cons in Hw as [Hw _]. destruct i; [done |]. by simplify_eq/=. }
      rewrite Hm', Z.mod_small by (unfold u8_mod; lia).
      destruct (count_header c mt_confirm_ack (Z.of_nat (length (vt_blocks v)))) as (Ht & Hc & _); [lia |].
      eexists _, bt_not_a_block. split_and!; [done | done | done | | | by rewrite Hi | | done].
      + eapply Forall_impl; [exact Hw |]. by intros [].
      + eapply Forall_impl; [exact Hw |]. by intros [].
      + rewrite Hc, (length_concat_const _ 32); [lia |].
        intros [b | h]; simpl; by rewrite length_to_be. }
  split; cbn [msg_header msg_payload payload_serialize]; rewrite Ht; cbn [from_option default].
  - unfold payload_deserialize. rewrite Hty. cbn. unfold confirm_ack_deserialize. rewrite Ht.
    cbn [mbind option_bind]. rewrite vote_read_typed_serialize by done. cbn [mbind option_bind].
    by rewrite vote_sent_same.
  - unfold payload_length_bytes. rewrite Hty. cbn. rewrite Ht. unfold vote_serialize_typed, confirm_ack_size.
    rewrite !length_app, !length_to_be, length_to_le, !Nat2Z.inj_add, Hlen. destruct type; [done | lia..].
Qed.

Lemma bulk_pull_ok start end_a count :
  is_u256 start → is_u256 end_a → is_u32 count →
  payload_ok (bulk_pull_new c start end_a count (negb (count =? 0))).
Proof.
  intros Hs He Hc. unfold bulk_pull_new. destruct (Z.eqb_spec count 0) as [-> | Hn]; cbn [negb];
    (split; [unfold payload_deserialize, bulk_pull_deserialize |]; simpl).
  - read_run. done.
  - by rewrite !length_app, !length_to_be.
  - read_run. rewrite <- (app_nil_r (to_be 3 0)), (read_be_app 3 0) by done. done.
  - by rewrite !length_app, !length_to_be, length_to_le.
Qed.

Lemma frontier_req_ok start age count :
  is_u256 start → is_u32 age → is_u32 count → payload_ok (frontier_req_new c start age count).
Proof.
  intros. split; [unfold payload_deserialize, frontier_req_deserialize |]; simpl.
  - read_run. rewrite <- (app_nil_r (to_le 4 count)), read_le32 by done. done.
  - by rewrite !length_app, !length_to_le, length_to_be.
Qed.

Lemma bulk_pull_account_ok account minimum_amount flags :
  is_u256 account → is_u128 minimum_amount → is_u8 flags →
  payload_ok (bulk_pull_account_new c account minimum_amount flags).
Proof.
  intros. split; [unfold payload_deserialize, bulk_pull_account_deserialize |]; simpl.
  - read_run. rewrite <- (app_nil_r (to_be 1 flags)), read_be8 by done. done.
  - by rewrite !length_app, !length_to_be.
Qed.

Lemma node_id_handshake_ok query response :
  (∀ q, query = Some q → is_u256 q) → (∀ r, response = Some r → is_u256 r.1 ∧ is_u512 r.2) →
  payload_ok (node_id_handshake_new c query response).
Proof.
  intros Hq Hr.
  destruct query as [q |], response as [[a sg] |]; unfold node_id_handshake_new;
    try (specialize (Hq q eq_refl)); try (destruct (Hr (a, sg) eq_refl) as [Ha Hs]; simpl in Ha, Hs);
    (split; [unfold payload_deserialize, node_id_handshake_deserialize |]; simpl);
    rewrite ?app_nil_r; rewrite ?length_app, ?length_to_be; try done.
  - read_run. rewrite <- (app_nil_r (to_be 64 sg)), read_be512 by done. done.
  - rewrite <- (app_nil_r (to_be 32 q)), read_be256 by done. done.
  - read_run. rewrite <- (app_nil_r (to_be 64 sg)), read_be512 by done. done.
Qed.

Lemma telemetry_ack_ok data :
  (∀ d, data = Some d → telemetry_wf d) → payload_ok (telemetry_ack_new c data).
Proof.
  intros Hd. destruct data as [d |]; [| by vm_compute].
  destruct (telemetry_header c d (Hd d eq_refl)) as (He & Hs & Hr).
  destruct (telemetry_data_roundtrip d [] (Hd d eq_refl)) as [Hp Hl]. rewrite app_nil_r in Hp.
  set (h := msg_header (telemetry_ack_new c (Some d))) in *. split.
  - change (telemetry_ack_deserialize h (telemetry_data_serialize d) = Some (pl_telemetry_ack (Some d), [])).
    unfold telemetry_ack_deserialize. rewrite Hs, He.
    rewrite (proj2 (Z.eqb_neq _ _)) by (unfold telemetry_latest_size; lia). by rewrite Hp.
  - change (Z.of_nat (length (telemetry_data_serialize d)) = telemetry_size h). by rewrite Hl, Hs.
Qed.

Lemma built_payload_ok m : built c m → payload_ok m.
Proof.
  intros [peers | b | b | l | v b m' | v m' | | | | | | | ]; auto using keepalive_ok, publish_ok,
    confirm_req_block_ok, confirm_req_roots_ok, bulk_pull_ok, frontier_req_ok, bulk_pull_account_ok,
    node_id_handshake_ok, telemetry_ack_ok.
  - eapply confirm_ack_ok; [done | | done]. left. by exists b.
  - eapply confirm_ack_ok; [done | | done]. by right.
  - by vm_compute.
  - by vm_compute.
Qed.

(** A message that a constructor makes from values of their types reads back as
    the same header and payload with nothing left over, and its length is the header
    size plus the payload length its header announces. *)
Theorem message_roundtrip m :
  constants_wf c → built c m →
  header_deserialize (message_serialize m) =
    Some (msg_header m, payload_serialize (msg_header m) (msg_payload m)) ∧
  payload_deserialize (msg_header m) (payload_serialize (msg_header m) (msg_payload m)) =
    Some (msg_payload m, []) ∧
  Z.of_nat (length (message_serialize m)) =
    Z.of_nat header_size + payload_length_bytes (msg_header m).
Proof.
  intros Hc Hm. pose proof (built_header_wf c m Hc Hm) as Hh.
  destruct (built_payload_ok m Hm) as [Hd Hl]. split_and!; [by apply header_roundtrip | done |].
  unfold message_serialize. rewrite length_app, length_header_serialize, Nat2Z.inj_add. by rewrite Hl.
Qed.

(** ** The parser *)

(** The blocks whose work the parser checks. *)
Definition payload_blocks (p : payload) : list block :=
  match p with
  | pl_publish b _ | pl_confirm_req_block b => [b]
  | pl_confirm_ack v => omap (λ i, match i with vote_block b => Some b | _ => None end) (vt_blocks v)
  | _ => []
  end.

Definition works (p : payload) : Prop :=
  ∀ b, b ∈ payload_blocks p → validate_entry (nc_work c) b = false.

Lemma vote_works v :
  works (pl_confirm_ack v) ↔
  existsb (λ i, match i with
                | vote_block b => validate_entry (nc_work c) b
                | vote_block_hash _ => false
                end) (vt_blocks v) = false.
Proof.
  unfold works. simpl. induction (vt_blocks v) as [| [b | h] l IH]; simpl.
  - split; [done |]. intros _ b Hb. by apply elem_of_nil in Hb.
  - rewrite orb_false_iff, <- IH. setoid_rewrite elem_of_cons. naive_solver.
  - exact IH.
Qed.

(** What the uniquers make of a payload. *)
Definition payload_unique (p : payload) (u : uniquers) : payload * uniquers :=
  match p with
  | pl_publish b d => let '(b, u) := block_unique b u in (pl_publish b d, u)
  | pl_confirm_req_block b => let '(b, u) := block_unique b u in (pl_confirm_req_block b, u)
  | pl_confirm_ack v => let '(v, u) := vote_unique v u in (pl_confirm_ack v, u)
  | _ => (p, u)
  end.

Lemma publish_unique u h d s :
  publish_deserialize (Some u) h d s =
  '(p, s', _) ← publish_deserialize None h d s; Some ((payload_unique p u).1, s', Some (payload_unique p u).2).
Proof.
  unfold publish_deserialize. destruct (deserialize_block_typed _ s) as [[b s1] |]; [| done]. simpl.
  by destruct (block_unique b u).
Qed.

Lemma confirm_req_unique u h s :
  confirm_req_deserialize (Some u) h s =
  '(p, s', _) ← confirm_req_deserialize None h s; Some ((payload_unique p u).1, s', Some (payload_unique p u).2).
Proof.
  unfold confirm_req_deserialize. case_bool_decide.
  - destruct (read_roots _ s) as [[l s1] |]; [| done]. simpl. by destruct (_ || _).
  - destruct (deserialize_block_typed _ s) as [[b s1] |]; [| done]. simpl. by destruct (block_unique b u).
Qed.

Lemma confirm_ack_unique u h s :
  confirm_ack_deserialize (Some u) h s =
  '(p, s', _) ← confirm_ack_deserialize None h s; Some ((payload_unique p u).1, s', Some (payload_unique p u).2).
Proof.
  unfold confirm_ack_deserialize. destruct (header_block_type h); [| done]. simpl.
  destruct (vote_read_typed s _) as [v |]; [| done]. simpl. by destruct (vote_unique v u).
Qed.

(** A handler of the parser: what it visits is what it read, to the last byte, as the
    uniquers have it. *)
Definition handles (r : parse_status * option message * uniquers) (u : uniquers) (h : message_header) (s : bytes) : Prop :=
  ∀ st m u', r = (st, Some m, u') →
    st = ps_success ∧ msg_header m = h ∧ works (msg_payload m) ∧
    ∃ p, payload_unique p u = (msg_payload m, u') ∧
      (mh_type h ≠ mt_telemetry_ack → s = payload_serialize h p).

Ltac visit Hr := unfold at_end in Hr; case_bool_decide; simplify_eq/=.

Lemma parse_keepalive_handles u s h : handles (parse_keepalive s h, u) u h s.
Proof.
  intros st m u' Hr. unfold parse_keepalive, keepalive_deserialize in Hr.
  destruct (read_peers 8 s) as [[l s1] |] eqn:Hl; cbn [mbind option_bind] in Hr; [| done].
  apply read_peers_inv in Hl as [-> _]. visit Hr. split_and!; try done; [by intros b ?%elem_of_nil |].
  exists (pl_keepalive l). by rewrite app_nil_r.
Qed.

Lemma parse_publish_handles u s h d : handles (parse_publish u c s h d) u h s.
Proof.
  intros st m u' Hr. unfold parse_publish in Hr. rewrite publish_unique in Hr. unfold publish_deserialize in Hr.
  destruct (deserialize_block_typed (header_block_type h) s) as [[b s1] |] eqn:Hb; cbn [mbind option_bind] in Hr; [| done].
  apply deserialize_block_typed_inv in Hb as (_ & -> & _). simpl in Hr. destruct (block_unique b u) as [b' u1] eqn:Hu.
  simpl in Hr. visit Hr. destruct (validate_entry (nc_work c) b') eqn:Hw; simplify_eq/=.
  split_and!; try done; [by intros b0 ->%list_elem_of_singleton |].
  exists (pl_publish b d). simpl. by rewrite Hu, app_nil_r.
Qed.

Lemma parse_confirm_req_handles u s h : handles (parse_confirm_req u c s h) u h s.
Proof.
  intros st m u' Hr. unfold parse_confirm_req in Hr. rewrite confirm_req_unique in Hr. unfold confirm_req_deserialize in Hr.
  case_bool_decide as Ht.
  - destruct (read_roots _ s) as [[l s1] |] eqn:Hl; cbn [mbind option_bind] in Hr; [| done].
    destruct (_ || _) eqn:Hn; [done |]. apply orb_false_iff in Hn as [_ Hn].
    apply read_roots_inv in Hl as ->; [| lia]. simpl in Hr. visit Hr. split_and!; try done; [by intros b ?%elem_of_nil |].
    exists (pl_confirm_req_roots l). by rewrite app_nil_r.
  - destruct (deserialize_block_typed (header_block_type h) s) as [[b s1] |] eqn:Hb; cbn [mbind option_bind] in Hr; [| done].
    apply deserialize_block_typed_inv in Hb as (_ & -> & _). simpl in Hr. destruct (block_unique b u) as [b' u1] eqn:Hu.
    simpl in Hr. visit Hr. destruct (validate_entry (nc_work c) b') eqn:Hw; simplify_eq/=.
    split_and!; try done; [by intros b0 ->%list_elem_of_singleton |].
    exists (pl_confirm_req_block b). simpl. by rewrite Hu, app_nil_r.
Qed.

Lemma parse_confirm_ack_handles u s h : handles (parse_confirm_ack u c s h) u h s.
Proof.
  intros st m u' Hr. unfold parse_confirm_ack in Hr. rewrite confirm_ack_unique in Hr. unfold confirm_ack_deserialize in Hr.
  destruct (header_block_type h) as [type |] eqn:Ht; cbn [mbind option_bind] in Hr; [| done].
  destruct (vote_read_typed s type) as [v |] eqn:Hv; cbn [mbind option_bind] in Hr; [| done].
  apply vote_read_typed_canonical in Hv as (-> & _). simpl in Hr. destruct (vote_unique v u) as [v' u1] eqn:Hu.
  simpl in Hr. destruct (existsb _ _) eqn:Hw; simplify_eq/=.
  split_and!; [done | done | by apply vote_works |]. exists (pl_confirm_ack v). simpl. by rewrite Hu, Ht.
Qed.

Lemma read_query_inv present s q s' :
  read_query present s = Some (q, s') → s = match q with Some q => to_be 32 q | None => [] end ++ s'.
Proof.
  unfold read_query. destruct present; intros Hr; [parse_inv Hr |]; by simplify_eq/=.
Qed.

Lemma read_response_inv present s r s' :
  read_response present s = Some (r, s') →
  s = match r with Some (a, sg) => to_be 32 a ++ to_be 64 sg | None => [] end ++ s'.
Proof.
  unfold read_response. destruct present; intros Hr; [parse_inv Hr |]; simplify_eq/=; [| done].
  by rewrite <- app_assoc.
Qed.

Lemma parse_node_id_handshake_handles u s h : handles (parse_node_id_handshake s h, u) u h s.
Proof.
  intros st m u' Hr. unfold parse_node_id_handshake, node_id_handshake_deserialize in Hr.
  destruct (read_query _ s) as [[q s1] |] eqn:Hq; cbn [mbind option_bind] in Hr; [| done].
  destruct (read_response _ s1) as [[r s2] |] eqn:Hs; cbn [mbind option_bind] in Hr; [| done].
  apply read_query_inv in Hq as ->. apply read_response_inv in Hs as ->. visit Hr.
  split_and!; [done | done | by intros b ?%elem_of_nil |]. exists (pl_node_id_handshake q r). by rewrite app_nil_r.
Qed.

Lemma parse_telemetry_handles u s h :
  handles (parse_telemetry_req s h, u) u h s ∧
  (mh_type h = mt_telemetry_ack → handles (parse_telemetry_ack s h, u) u h s).
Proof.
  split.
  - intros st m u' Hr. unfold parse_telemetry_req in Hr. visit Hr.
    split_and!; try done; [by intros b ?%elem_of_nil | by exists pl_telemetry_req].
  - intros Ht st m u' Hr. unfold parse_telemetry_ack, telemetry_ack_deserialize in Hr.
    destruct (telemetry_size h =? 0).
    + simplify_eq/=. split_and!; try done; [by intros b ?%elem_of_nil | by exists (pl_telemetry_ack None)].
    + destruct (telemetry_data_deserialize _ _) as [[d s1] |]; cbn [mbind option_bind] in Hr; simplify_eq/=.
      split_and!; try done; [by intros b ?%elem_of_nil | by exists (pl_telemetry_ack (Some d))].
Qed.

Definition udp_type (t : Z) : Prop :=
  t ∈ [mt_keepalive; mt_publish; mt_confirm_req; mt_confirm_ack; mt_node_id_handshake;
       mt_telemetry_req; mt_telemetry_ack].

Lemma visited_is (r r' : parse_status * option message) (items items' : network_filter) (u u' : uniquers) :
  Ok (r, items, u) = Ok (r', items', u') → (r, u) = (r', u').
Proof. by intros [= -> _ ->]. Qed.

Lemma deserialize_buffer_sound siphash items u buffer st m items' u' :
  deserialize_buffer siphash c items u buffer = Ok ((st, Some m), items', u') →
  st = ps_success ∧ (length buffer <= max_safe_udp_message_size)%nat ∧ udp_type (mh_type (msg_header m)) ∧
  nc_protocol_version_min c <= mh_version_using (msg_header m) ∧ works (msg_payload m) ∧
  ∃ p, payload_unique p u = (msg_payload m, u') ∧
    (mh_type (msg_header m) ≠ mt_telemetry_ack → buffer = message_serialize (Message (msg_header m) p)).
Proof.
  unfold deserialize_buffer. case_bool_decide as Hlen; [done |].
  destruct (header_deserialize buffer) as [[h s] |] eqn:Hh; [| done].
  apply header_deserialize_inv in Hh as [-> _].
  destruct (Z.ltb_spec (mh_version_using h) (nc_protocol_version_min c)); [done |].
  intros Hr.
  assert (Hd : udp_type (mh_type h) ∧ ∃ r, handles r u h s ∧ r = (st, Some m, u')).
  { unfold udp_type.
    repeat match type of Hr with context [if ?t =? ?u then _ else _] => destruct (Z.eqb_spec t u) as [Ht | ?] end;
      [| destruct (filter_apply _ _ _) as [[[[] digest] items1] |]; cbn [mbind outcome_bind] in Hr | ..];
      try match type of Hr with context [let '(_, _) := ?x in _] => destruct x as [r1 u1] eqn:Hx end;
      try discriminate Hr; apply visited_is in Hr; (split; [rewrite Ht; set_solver |]); eexists;
      (split; [| first [etrans; [exact Hx | exact Hr] | exact Hr]]);
      auto using parse_keepalive_handles, parse_publish_handles, parse_confirm_req_handles,
        parse_confirm_ack_handles, parse_node_id_handshake_handles; by apply parse_telemetry_handles. }
  destruct Hd as (Hudp & r & Hd & ->). destruct (Hd st m u' eq_refl) as (-> & <- & Hw & p & Hp & Hs).
  split_and!; [done | lia | done | done | done |]. exists p. split; [done |].
  intros Ht. unfold message_serialize. simpl. by rewrite Hs at 1.
Qed.

(** The digest of the filter is kept with a published block. *)
Definition with_digest (d : Z) (m : message) : message :=
  match msg_payload m with
  | pl_publish b _ => Message (msg_header m) (pl_publish b d)
  | _ => m
  end.

(** A payload that reads back under its header is visited. *)
Section handled.
Context (h : message_header) (p : payload) (s : bytes) (u : uniquers).
Context (Hd : payload_deserialize h s = Some (p, [])) (Hw : works (payload_unique p u).1).

Ltac under_type Ht f := unfold payload_deserialize in Hd; rewrite Ht in Hd; change (f = Some (p, [])) in Hd.

Lemma keepalive_visited :
  mh_type h = mt_keepalive → parse_keepalive s h = (ps_success, Some (Message h p)).
Proof using Hd. intros Ht. under_type Ht (keepalive_deserialize s). unfold parse_keepalive. by rewrite Hd. Qed.

Lemma publish_visited d :
  mh_type h = mt_publish →
  parse_publish u c s h d = (ps_success, Some (with_digest d (Message h (payload_unique p u).1)), (payload_unique p u).2).
Proof using Hd Hw.
  intros Ht. under_type Ht (fst <$> publish_deserialize None h 0 s).
  unfold parse_publish, publish_deserialize in *.
  destruct (deserialize_block_typed _ s) as [[b s1] |]; simplify_eq/=. destruct (block_unique b u) as [b' u'] eqn:Hu.
  simpl in *. by rewrite (Hw b') by (by apply list_elem_of_singleton).
Qed.

Lemma confirm_req_visited :
  mh_type h = mt_confirm_req →
  parse_confirm_req u c s h = (ps_success, Some (Message h (payload_unique p u).1), (payload_unique p u).2).
Proof using Hd Hw.
  intros Ht. under_type Ht (fst <$> confirm_req_deserialize None h s). unfold parse_confirm_req.
  rewrite confirm_req_unique. destruct (confirm_req_deserialize None h s) as [[[p1 s1] o] |]; [| done].
  simpl in Hd. injection Hd as -> ->. simpl. destruct p; simpl in *; try done.
  - by destruct (block_unique b u).
  - destruct (block_unique b u) as [b' u'] eqn:Hu. simpl in *. by rewrite (Hw b') by (by apply list_elem_of_singleton).
  - by destruct (vote_unique v u).
Qed.

Lemma confirm_ack_visited :
  mh_type h = mt_confirm_ack →
  parse_confirm_ack u c s h = (ps_success, Some (Message h (payload_unique p u).1), (payload_unique p u).2).
Proof using Hd Hw.
  intros Ht. under_type Ht (fst <$> confirm_ack_deserialize None h s). unfold parse_confirm_ack, confirm_ack_deserialize in *.
  destruct (header_block_type h); simplify_eq/=. destruct (vote_read_typed s _) as [v |]; simplify_eq/=.
  destruct (vote_unique v u) as [v' u'] eqn:Hu. simpl in *. by rewrite (proj1 (vote_works v')) by done.
Qed.

Lemma node_id_handshake_visited :
  mh_type h = mt_node_id_handshake → parse_node_id_handshake s h = (ps_success, Some (Message h p)).
Proof using Hd.
  intros Ht. under_type Ht (node_id_handshake_deserialize h s). unfold parse_node_id_handshake. by rewrite Hd.
Qed.

Lemma telemetry_req_visited :
  mh_type h = mt_telemetry_req → parse_telemetry_req s h = (ps_success, Some (Message h p)).
Proof using Hd.
  intros Ht. under_type Ht (Some (pl_telemetry_req, s)). clear Hw. unfold parse_telemetry_req. by simplify_eq.
Qed.

Lemma telemetry_ack_visited :
  mh_type h = mt_telemetry_ack → parse_telemetry_ack s h = (ps_success, Some (Message h p)).
Proof using Hd.
  intros Ht. under_type Ht (telemetry_ack_deserialize h s). unfold parse_telemetry_ack. by rewrite Hd.
Qed.
End handled.

Lemma filter_apply_new siphash items s :
  items ≠ [] → items !! slot_of (length items) (siphash s) ≠ Some (siphash s) →
  ∃ items', filter_apply siphash items s = Ok (false, siphash s, items').
Proof.
  intros Hne Hs. unfold filter_apply. destruct (get_element_ok items (siphash s) Hne) as (x & Hx & ->).
  simpl. rewrite (proj2 (Z.eqb_neq x (siphash s))) by congruence. by eexists.
Qed.

Lemma built_version m : built c m → mh_version_using (msg_header m) = nc_protocol_version c.
Proof.
  intros [peers | b | b | l | v b m' _ Hb He | v m' _ _ _ He | ? ? count | | | [] [] | | | []]; try done.
  - unfold confirm_ack_new in He. rewrite Hb in He. simpl in He. by simplify_eq/=.
  - unfold confirm_ack_new in He. destruct (vt_blocks v) as [| [] l]; simpl in He; by simplify_eq/=.
Qed.

(** The payload is of the class that the type of the header stands for. *)
Lemma read_class h s p s' :
  payload_deserialize h s = Some (p, s') → udp_type (mh_type h) →
  match p with
  | pl_publish _ _ => mh_type h = mt_publish
  | pl_confirm_req_block _ => mh_type h = mt_confirm_req
  | pl_confirm_ack _ => mh_type h = mt_confirm_ack
  | _ => True
  end.
Proof.
  intros Hd Ht. unfold udp_type in Ht. rewrite !elem_of_cons, elem_of_nil in Ht. unfold payload_deserialize in Hd.
  destruct Ht as [Ht | [Ht | [Ht | [Ht | [Ht | [Ht | [Ht | []]]]]]]]; rewrite Ht in Hd |- *;
    cbn [Z.eqb Pos.eqb mt_keepalive mt_publish mt_confirm_req mt_confirm_ack mt_bulk_pull mt_bulk_push mt_frontier_req
      mt_node_id_handshake mt_bulk_pull_account mt_telemetry_req mt_telemetry_ack] in Hd.
  - unfold keepalive_deserialize in Hd. destruct (read_peers _ _) as [[]|]; by simplify_eq/=.
  - unfold publish_deserialize in Hd. destruct (deserialize_block_typed _ _) as [[]|]; by simplify_eq/=.
  - unfold confirm_req_deserialize in Hd. case_bool_decide.
    + destruct (read_roots _ _) as [[]|]; [| done]. cbn [mbind option_bind] in Hd. destruct (_ || _); by simplify_eq/=.
    + destruct (deserialize_block_typed _ _) as [[]|]; by simplify_eq/=.
  - unfold confirm_ack_deserialize in Hd. destruct (header_block_type h); [| done]. simpl in Hd.
    destruct (vote_read_typed _ _); by simplify_eq/=.
  - unfold node_id_handshake_deserialize in Hd. destruct (read_query _ _) as [[q s1] |]; [| done]. simpl in Hd.
    destruct (read_response _ _) as [[]|]; by simplify_eq/=.
  - by simplify_eq.
  - unfold telemetry_ack_deserialize in Hd. destruct (_ =? _); [by simplify_eq |].
    destruct (telemetry_data_deserialize _ _) as [[]|]; by simplify_eq/=.
Qed.

Lemma other_unique p u :
  match p with pl_publish _ _ | pl_confirm_req_block _ | pl_confirm_ack _ => False | _ => True end →
  payload_unique p u = (p, u).
Proof. by destruct p. Qed.

Lemma deserialize_buffer_complete siphash items u m :
  let s := payload_serialize (msg_header m) (msg_payload m) in
  let p := (payload_unique (msg_payload m) u).1 in
  constants_wf c → built c m → nc_protocol_version_min c <= nc_protocol_version c →
  udp_type (mh_type (msg_header m)) → (length (message_serialize m) <= max_safe_udp_message_size)%nat →
  works p →
  items ≠ [] →
  (mh_type (msg_header m) = mt_publish →
    items !! slot_of (length items) (siphash s) ≠ Some (siphash s)) →
  ∃ items', deserialize_buffer siphash c items u (message_serialize m) =
    Ok ((ps_success, Some (with_digest (siphash s) (Message (msg_header m) p))), items', (payload_unique (msg_payload m) u).2).
Proof.
  intros s p Hc Hm Hv Ht Hlen Hw Hne Hs. destruct (built_payload_ok m Hm) as [Hd _]. fold s in Hd.
  pose proof (built_header_wf c m Hc Hm) as Hh. pose proof (read_class _ _ _ _ Hd Ht) as Hcl.
  unfold deserialize_buffer. rewrite bool_decide_false by lia.
  unfold message_serialize. rewrite header_roundtrip by done. fold s.
  rewrite (built_version m Hm), (proj2 (Z.ltb_ge _ _)) by done.
  rewrite drop_app_length' by (by rewrite length_header_serialize).
  destruct m as [h p0]. cbn [msg_header msg_payload] in *. unfold p in *.
  unfold udp_type in Ht. rewrite !elem_of_cons, elem_of_nil in Ht.
  destruct Ht as [Ht | [Ht | [Ht | [Ht | [Ht | [Ht | [Ht | []]]]]]]]; rewrite Ht in Hcl |- *;
    cbn [Z.eqb Pos.eqb mt_keepalive mt_publish mt_confirm_req mt_confirm_ack mt_node_id_handshake
      mt_telemetry_req mt_telemetry_ack].
  all: try (rewrite (other_unique p0 u) by (by destruct p0); eexists; do 2 f_equal).
  - rewrite (keepalive_visited h p0 s Hd Ht). by destruct p0.
  - destruct (filter_apply_new siphash items s Hne (Hs Ht)) as [items1 ->]. cbn [mbind outcome_bind].
    rewrite (publish_visited h p0 s u Hd Hw (siphash s) Ht). by eexists.
  - rewrite (confirm_req_visited h p0 s u Hd Hw Ht). eexists. do 3 f_equal. destruct p0; try done. simpl.
    by destruct (block_unique b u).
  - rewrite (confirm_ack_visited h p0 s u Hd Hw Ht). eexists. do 3 f_equal. destruct p0; try done. simpl.
    by destruct (vote_unique v u).
  - rewrite (node_id_handshake_visited h p0 s Hd Ht). by destruct p0.
  - rewrite (telemetry_req_visited h p0 s Hd Ht). by destruct p0.
  - rewrite (telemetry_ack_visited h p0 s Hd Ht). by destruct p0.
Qed.

(** ** What a uniquer may hand on *)

(** The tables are keyed by the full hashes. *)
Definition uniquers_ok (u : uniquers) : Prop :=
  (∀ k b, uq_blocks u !! k = Some b → block_full_hash b = k) ∧
  (∀ k v, uq_votes u !! k = Some v → vote_full_hash v = k).

(** The payload handed on agrees with the one that was read in the full hashes. *)
Definition alike (p p' : payload) : Prop :=
  match p, p' with
  | pl_publish b d, pl_publish b' d' => block_full_hash b' = block_full_hash b ∧ d' = d
  | pl_confirm_req_block b, pl_confirm_req_block b' => block_full_hash b' = block_full_hash b
  | pl_confirm_ack v, pl_confirm_ack v' =>
      vote_full_hash v' = vote_full_hash v ∨
      ∃ b b' rest, vt_blocks v = vote_block b :: rest ∧ block_full_hash b' = block_full_hash b ∧
        vote_full_hash v' = vote_full_hash (Vote (vt_timestamp_m v) (vote_block b' :: rest) (vt_account v) (vt_signature v))
  | _, _ => p = p'
  end.

Lemma block_unique_ok b u b' u' :
  uniquers_ok u → block_unique b u = (b', u') → block_full_hash b' = block_full_hash b ∧ uniquers_ok u'.
Proof.
  intros [Hb Hv]. unfold block_unique. destruct (uq_blocks u !! _) as [b0 |] eqn:E; intros [= <- <-].
  - split; [by apply Hb | done].
  - split; [done |]. split; [| done]. intros k b1. simpl. rewrite lookup_insert_Some.
    intros [[<- <-] | [_ ?]]; [done | by apply Hb].
Qed.

Lemma vote_unique_ok v u v' u' :
  uniquers_ok u → vote_unique v u = (v', u') → alike (pl_confirm_ack v) (pl_confirm_ack v') ∧ uniquers_ok u'.
Proof.
  intros Hu. unfold vote_unique. case_bool_decide; [intros [= <- <-]; by split; [left |] |].
  destruct (vote_unique_block v u) as [v1 u1] eqn:H1.
  assert (uniquers_ok u1 ∧ ∀ w, vote_full_hash w = vote_full_hash v1 → alike (pl_confirm_ack v) (pl_confirm_ack w)) as [Hu1 Hw].
  { unfold vote_unique_block in H1. destruct (vt_blocks v) as [| [b | h] rest] eqn:Hbl; try (injection H1 as <- <-; split; [done | by left]).
    destruct (block_unique b u) as [b' u2] eqn:Hbu. injection H1 as <- <-.
    destruct (block_unique_ok b u b' u2 Hu Hbu) as [Hf ?]. split; [done |]. intros w Hw. right. by exists b, b', rest. }
  destruct (uq_votes u1 !! _) as [v0 |] eqn:E; intros [= <- <-].
  - split; [| done]. apply Hw. by apply Hu1.
  - split; [by apply Hw |]. split; [apply Hu1 |]. intros k v2. simpl. rewrite lookup_insert_Some.
    intros [[<- <-] | [_ ?]]; [done | by apply Hu1].
Qed.

Lemma payload_unique_ok p u p' u' :
  uniquers_ok u → payload_unique p u = (p', u') → alike p p' ∧ uniquers_ok u'.
Proof.
  intros Hu. destruct p; simpl; try (by intros [= <- <-]).
  - destruct (block_unique b u) as [b' u1] eqn:Hb. intros [= <- <-]. by destruct (block_unique_ok _ _ _ _ Hu Hb).
  - destruct (block_unique b u) as [b' u1] eqn:Hb. intros [= <- <-]. by destruct (block_unique_ok _ _ _ _ Hu Hb).
  - destruct (vote_unique v u) as [v' u1] eqn:Hv. intros [= <- <-]. by apply (vote_unique_ok v u v').
Qed.

Lemma payload_unique_empty p : (payload_unique p (Uniquers ∅ ∅)).1 = p.
Proof.
  assert (Hb : ∀ b, block_unique b (Uniquers ∅ ∅) = (b, Uniquers {[block_full_hash b := b]} ∅)).
  { intros b. unfold block_unique. simpl. by rewrite lookup_empty. }
  destruct p; simpl; rewrite ?Hb; try done. unfold vote_unique. case_bool_decide; [done |].
  unfold vote_unique_block. destruct v as [t [| [b | h] l] a sg]; simpl; rewrite ?Hb; simpl; by rewrite lookup_empty.
Qed.

(** C39: The datagram parser hands a message to its visitor only when the datagram
    is at most 508 bytes, of a supported version, of one of the seven types it
    handles (bulk pulls and pushes, frontier requests and account pulls are refused)
    and (telemetry replies apart) exactly the serialization of a message of which
    the block or vote was replaced by the one in use with the same full hash, if
    there is one, and when every block handed on has enough work; and it hands on,
    with that replacement, every message of these types that a constructor makes and
    that meets the conditions and, if it publishes a block, is not in the duplicate
    filter. With nothing in use the message is that of the datagram. (The full hash
    of a vote covers 8 bytes of account and signature only.) *)
Theorem datagram_parser_exact siphash items u :
  constants_wf c → nc_protocol_version_min c <= nc_protocol_version c → items ≠ [] → uniquers_ok u →
  (∀ buffer st m items' u',
    deserialize_buffer siphash c items u buffer = Ok ((st, Some m), items', u') →
    st = ps_success ∧ (length buffer <= max_safe_udp_message_size)%nat ∧ udp_type (mh_type (msg_header m)) ∧
    nc_protocol_version_min c <= mh_version_using (msg_header m) ∧ works (msg_payload m) ∧ uniquers_ok u' ∧
    ∃ p, payload_unique p u = (msg_payload m, u') ∧ alike p (msg_payload m) ∧
      (mh_type (msg_header m) ≠ mt_telemetry_ack → buffer = message_serialize (Message (msg_header m) p))) ∧
  (∀ m, built c m → udp_type (mh_type (msg_header m)) →
    (length (message_serialize m) <= max_safe_udp_message_size)%nat →
    let s := payload_serialize (msg_header m) (msg_payload m) in
    let p := (payload_unique (msg_payload m) u).1 in
    works p →
    (mh_type (msg_header m) = mt_publish →
      items !! slot_of (length items) (siphash s) ≠ Some (siphash s)) →
    ∃ items' u', deserialize_buffer siphash c items u (message_serialize m) =
      Ok ((ps_success, Some (with_digest (siphash s) (Message (msg_header m) p))), items', u')) ∧
  (∀ p, (payload_unique p (Uniquers ∅ ∅)).1 = p).
Proof.
  intros Hc Hv Hne Hu. split_and!.
  - intros buffer st m items' u' Hr.
    destruct (deserialize_buffer_sound _ _ _ _ _ _ _ _ Hr) as (-> & ? & ? & ? & ? & p & Hp & Hs).
    destruct (payload_unique_ok _ _ _ _ Hu Hp). split_and!; try done. by exists p.
  - intros m Hm Ht Hlen s p Hw Hs. destruct (deserialize_buffer_complete siphash items u m) as [items' Hi]; try done. eauto.
  - apply payload_unique_empty.
Qed.
End roundtrip.
