(* ===== verification/Store.v ===== *)
(** * The ledger tables ([secure/store/*_partial.hpp], [secure/store_partial.hpp])

    The tables of the block store that the ledger reads and writes, as finite
    maps, with one operation per method of the [*_store_partial] templates.
    A [del] of a key that is not there fails its [release_assert_success]
    (LMDB answers [MDB_NOTFOUND]) and ends the process; so does dereferencing
    the missing raw value of a predecessor.  The byte layout behind the block
    table is in [BlockStoreRaw]. *)

From S2P Require Import Prelude Blocks BlockCodec Common.

(** A block as the table returns it: with its sideband ([block_w_sideband]). *)
Abbreviation block_w_sideband := (block * block_sideband)%type.

Record store := Store {
  st_blocks : gmap Z block_w_sideband;
  st_accounts : gmap Z account_info;
  st_pending : gmap pending_key pending_info;
  st_frontiers : gmap Z Z;
  st_pruned : gset Z;
  st_confirmation_height : gmap Z confirmation_height_info;
}.

Definition set_blocks f (s : store) : store :=
  Store (f (st_blocks s)) (st_accounts s) (st_pending s) (st_frontiers s) (st_pruned s)
    (st_confirmation_height s).
Definition set_accounts f (s : store) : store :=
  Store (st_blocks s) (f (st_accounts s)) (st_pending s) (st_frontiers s) (st_pruned s)
    (st_confirmation_height s).
Definition set_pending f (s : store) : store :=
  Store (st_blocks s) (st_accounts s) (f (st_pending s)) (st_frontiers s) (st_pruned s)
    (st_confirmation_height s).
Definition set_frontiers f (s : store) : store :=
  Store (st_blocks s) (st_accounts s) (st_pending s) (f (st_frontiers s)) (st_pruned s)
    (st_confirmation_height s).
Definition set_pruned f (s : store) : store :=
  Store (st_blocks s) (st_accounts s) (st_pending s) (st_frontiers s) (f (st_pruned s))
    (st_confirmation_height s).
Definition set_confirmation_height f (s : store) : store :=
  Store (st_blocks s) (st_accounts s) (st_pending s) (st_frontiers s) (st_pruned s)
    (f (st_confirmation_height s)).

(** [del] of the generic store: the key has to exist. *)
Definition checked_delete {K A} `{Countable K} (k : K) (m : gmap K A) : outcome (gmap K A) :=
  match m !! k with
  | Some _ => Ok (delete k m)
  | None => Aborted
  end.

(** ** Blocks *)

Definition block_get (s : store) (hash_a : Z) : option block_w_sideband := st_blocks s !! hash_a.

Definition block_exists (s : store) (hash_a : Z) : bool := bool_decide (is_Some (st_blocks s !! hash_a)).

(** [block_predecessor_set::fill_value] and [successor_clear] rewrite the
    successor field of a stored block. *)
Definition block_set_successor (s : store) (hash_a succ : Z) : outcome store :=
  match st_blocks s !! hash_a with
  | Some (b, sb) => Ok (set_blocks <[hash_a := (b, set_successor succ sb)]> s)
  | None => Aborted
  end.

(** Which blocks have a predecessor to fill ([block_predecessor_set]). *)
Definition has_predecessor (b : block) : bool :=
  match b with
  | send_block _ _ _ | receive_block _ _ _ | change_block _ _ _ => true
  | open_block _ _ _ => false
  | state_block h _ _ => negb (state_previous h =? 0)
  end.

(** [block_store_partial::put]: serialize, put, then fill the predecessor. *)
Definition block_put `{Crypto} (s : store) (hash_a : Z) (b : block) (sb : block_sideband) :
    outcome store :=
  let s := set_blocks <[hash_a := (b, sideband_stored (block_type_of b) sb)]> s in
  if has_predecessor b then block_set_successor s (previous b) (block_hash b) else Ok s.

Definition block_successor (s : store) (hash_a : Z) : Z :=
  match st_blocks s !! hash_a with Some (_, sb) => sb_successor sb | None => 0 end.

Definition block_successor_clear (s : store) (hash_a : Z) : outcome store :=
  block_set_successor s hash_a 0.

Definition block_del (s : store) (hash_a : Z) : outcome store :=
  m ← checked_delete hash_a (st_blocks s); Ok (set_blocks (λ _, m) s).

Definition block_count_of (s : store) : nat := size (st_blocks s).

(** [account_calculated]: the account field, or the one of the sideband for the
    kinds that have none. *)
Definition account_calculated (b : block_w_sideband) : Z :=
  if account b.1 =? 0 then sb_account b.2 else account b.1.

(** [block_store::account]; a missing block is dereferenced. *)
Definition block_account (s : store) (hash_a : Z) : outcome Z :=
  b ← of_option (block_get s hash_a); Ok (account_calculated b).

Definition balance_calculated (b : block_w_sideband) : Z :=
  match b.1 with
  | open_block _ _ _ | receive_block _ _ _ | change_block _ _ _ => sb_balance b.2
  | send_block h _ _ => send_balance h
  | state_block h _ _ => state_balance h
  end.

Definition store_balance (s : store) (hash_a : Z) : outcome Z :=
  b ← of_option (block_get s hash_a); Ok (balance_calculated b).

Definition block_version (s : store) (hash_a : Z) : epoch :=
  match block_get s hash_a with
  | Some (state_block _ _ _, sb) => details_epoch (sb_details sb)
  | _ => epoch_0
  end.

Definition account_height (s : store) (hash_a : Z) : outcome Z :=
  b ← of_option (block_get s hash_a); Ok (sb_height b.2).

(** ** Accounts, frontiers, confirmation heights, pruned hashes *)

Definition account_put (s : store) (account_a : Z) (info : account_info) : store :=
  set_accounts <[account_a := info]> s.
Definition account_get (s : store) (account_a : Z) : option account_info :=
  st_accounts s !! account_a.
Definition account_del (s : store) (account_a : Z) : outcome store :=
  m ← checked_delete account_a (st_accounts s); Ok (set_accounts (λ _, m) s).
Definition account_exists (s : store) (account_a : Z) : bool :=
  bool_decide (is_Some (st_accounts s !! account_a)).

Definition frontier_put (s : store) (hash_a account_a : Z) : store :=
  set_frontiers <[hash_a := account_a]> s.
Definition frontier_get (s : store) (hash_a : Z) : Z := default 0 (st_frontiers s !! hash_a).
Definition frontier_del (s : store) (hash_a : Z) : outcome store :=
  m ← checked_delete hash_a (st_frontiers s); Ok (set_frontiers (λ _, m) s).

Definition confirmation_height_put (s : store) (account_a : Z) (c : confirmation_height_info) :
    store :=
  set_confirmation_height <[account_a := c]> s.
(** The out parameter: a miss leaves height 0 and frontier 0. *)
Definition confirmation_height_get (s : store) (account_a : Z) : confirmation_height_info :=
  default default_confirmation_height_info (st_confirmation_height s !! account_a).
Definition confirmation_height_del (s : store) (account_a : Z) : outcome store :=
  m ← checked_delete account_a (st_confirmation_height s);
  Ok (set_confirmation_height (λ _, m) s).

Definition pruned_put (s : store) (hash_a : Z) : store := set_pruned (λ p, {[hash_a]} ∪ p) s.
Definition pruned_exists (s : store) (hash_a : Z) : bool := bool_decide (hash_a ∈ st_pruned s).
Definition pruned_count (s : store) : nat := size (st_pruned s).

(** ** Pending entries *)

Definition pending_put (s : store) (k : pending_key) (p : pending_info) : store :=
  set_pending <[k := p]> s.
Definition pending_get (s : store) (k : pending_key) : option pending_info := st_pending s !! k.
Definition pending_del (s : store) (k : pending_key) : outcome store :=
  m ← checked_delete k (st_pending s); Ok (set_pending (λ _, m) s).

(** The order of the table: keys are compared as 64 big endian bytes. *)
Definition key_le (a b : pending_key) : bool :=
  (a.1 <? b.1) || (a.1 =? b.1) && (a.2 <=? b.2).

(** [pending.begin (key)]: the smallest key not below [k]. *)
Definition pending_begin (s : store) (k : pending_key) : option pending_key :=
  map_fold (λ k' _ acc,
    if key_le k k' then
      match acc with
      | Some best => if key_le k' best then Some k' else Some best
      | None => Some k'
      end
    else acc) None (st_pending s).

Definition pending_exists (s : store) (k : pending_key) : bool :=
  match pending_begin s k with Some k' => bool_decide (k' = k) | None => false end.

Definition pending_any (s : store) (account_a : Z) : bool :=
  match pending_begin s (account_a, 0) with Some k => k.1 =? account_a | None => false end.

(** [store_partial::root_exists]. *)
Definition root_exists (s : store) (root_a : Z) : bool :=
  block_exists s root_a || account_exists s root_a.

(** ** Lemmas *)

Lemma key_le_refl k : key_le k k = true.
Proof. unfold key_le. lia. Qed.

Lemma key_le_trans a b c : key_le a b = true → key_le b c = true → key_le a c = true.
Proof. unfold key_le. lia. Qed.

Lemma key_le_total a b : key_le a b = false → key_le b a = true.
Proof. unfold key_le. lia. Qed.

Lemma key_le_antisym a b : key_le a b = true → key_le b a = true → a = b.
Proof. destruct a, b; unfold key_le; simpl; intros. f_equal; lia. Qed.

(** [pending_begin] is a lower bound search. *)
Lemma pending_begin_spec s k :
  match pending_begin s k with
  | Some k' => is_Some (st_pending s !! k') ∧ key_le k k' = true ∧
      ∀ k'', is_Some (st_pending s !! k'') → key_le k k'' = true → key_le k' k'' = true
  | None => ∀ k'', is_Some (st_pending s !! k'') → key_le k k'' = false
  end.
Proof.
  unfold pending_begin. generalize (st_pending s) as m. clear s.
  apply (map_fold_weak_ind (λ (r : option pending_key) (m : gmap pending_key pending_info),
    match r with
    | Some k' => is_Some (m !! k') ∧ key_le k k' = true ∧
        ∀ k'', is_Some (m !! k'') → key_le k k'' = true → key_le k' k'' = true
    | None => ∀ k'', is_Some (m !! k'') → key_le k k'' = false
    end)).
  - intros k'' [? ?]. by simplify_map_eq.
  - intros j x m r Hj Hr.
    assert (Hins : ∀ k'', is_Some (<[j:=x]> m !! k'') → k'' = j ∨ is_Some (m !! k'')).
    { intros k''. rewrite lookup_insert. case_decide; eauto. }
    assert (Hold : ∀ k'', is_Some (m !! k'') → is_Some (<[j:=x]> m !! k'')).
    { intros k''. rewrite lookup_insert. case_decide; eauto. }
    destruct (key_le k j) eqn:Hkj; destruct r as [best |].
    + destruct Hr as (H1 & H2 & H3). destruct (key_le j best) eqn:Hjb.
      * split_and!; [by simplify_map_eq | done |].
        intros k'' [-> | Hk'']%Hins Hle; [apply key_le_refl |].
        apply (key_le_trans _ best); auto.
      * split_and!; [by auto | done |]. intros k'' [-> | ?]%Hins Hle; auto using key_le_total.
    + split_and!; [by simplify_map_eq | done |].
      intros k'' [-> | Hk'']%Hins Hle; [apply key_le_refl |].
      rewrite Hr in Hle; done.
    + destruct Hr as (H1 & H2 & H3). split_and!; [by auto | done |].
      intros k'' [-> | ?]%Hins Hle; [congruence | auto].
    + intros k'' [-> | ?]%Hins; auto.
Qed.

Lemma pending_exists_spec s k : pending_exists s k = bool_decide (is_Some (st_pending s !! k)).
Proof.
  unfold pending_exists. pose proof (pending_begin_spec s k) as Hs.
  destruct (pending_begin s k) as [k' |].
  - destruct Hs as (H1 & H2 & H3). case_bool_decide; simplify_eq.
    + by rewrite bool_decide_true.
    + rewrite bool_decide_false; [done |]. intros Hk.
      pose proof (H3 k Hk (key_le_refl k)). by apply H, key_le_antisym.
  - rewrite bool_decide_false; [done |]. intros Hk%Hs. by rewrite key_le_refl in Hk.
Qed.

(** Hashes are unsigned, so the search from hash 0 sees every entry. *)
Lemma pending_any_spec s account_a :
  (∀ k, is_Some (st_pending s !! k) → 0 <= k.2) →
  pending_any s account_a = true ↔ ∃ h, is_Some (st_pending s !! (account_a, h)).
Proof.
  intros Hpos. unfold pending_any. pose proof (pending_begin_spec s (account_a, 0)) as Hs.
  destruct (pending_begin s (account_a, 0)) as [k |].
  - destruct Hs as (H1 & H2 & H3). rewrite Z.eqb_eq. split.
    + intros <-. exists k.2. by destruct k.
    + intros [h Hh]. pose proof (Hpos _ Hh). simpl in *.
      assert (key_le k (account_a, h) = true) by (apply H3; unfold key_le; simpl; lia || done).
      unfold key_le in *; simpl in *; lia.
  - split; [done |]. intros [h Hh]. pose proof (Hpos _ Hh) as Hp. apply Hs in Hh.
    unfold key_le in Hh; simpl in *; lia.
Qed.
