(* ===== verification/BlockStoreRaw.v ===== *)
(** * The block table as bytes ([secure/store/block_store_partial.hpp])

    The blocks table holds, under the hash, the type byte, the block and the
    sideband; the successor of a block is rewritten in place, at an offset
    computed from the end of the entry.  The theorem relates this table to the
    map of blocks and sidebands the ledger model uses ([Store]). *)

From S2P Require Import Prelude Blocks BlockCodec Common Store.

(** The raw table; an absent key reads as an empty value. *)
Abbreviation raw_table := (gmap Z bytes).

(** ** Operations *)

Definition block_raw_get (t : raw_table) (hash_a : Z) : bytes := default [] (t !! hash_a).

Definition raw_put (t : raw_table) (data : bytes) (hash_a : Z) : raw_table := <[hash_a := data]> t.

(** [block_type_from_raw]: the first byte, cast to the enumeration; a byte that
    is no enumerator behaves like [invalid] in every test of the sideband. *)
Definition block_type_from_raw (data : bytes) : outcome block_type :=
  match read_be 1 data with
  | Some (z, _) => Ok (default bt_invalid (block_type_of_code z))
  | None => Aborted
  end.

(** [block_successor_offset]. *)
Definition block_successor_offset (entry_size : nat) (t : block_type) : nat :=
  (entry_size - sideband_size t)%nat.

(** Overwrite [data] at [off] with [new], as [std::copy] and [std::fill_n] do. *)
Definition splice (data : bytes) (off : nat) (new : bytes) : bytes :=
  take off data ++ new ++ drop (off + length new) data.

Definition raw_successor (t : raw_table) (hash_a : Z) : outcome Z :=
  let value := block_raw_get t hash_a in
  if bool_decide (value = []) then Ok 0 else
  ty ← block_type_from_raw value;
  '(succ, _) ← of_option (read_be 32 (drop (block_successor_offset (length value) ty) value));
  Ok succ.

Definition raw_successor_clear (t : raw_table) (hash_a : Z) : outcome raw_table :=
  let value := block_raw_get t hash_a in
  ty ← block_type_from_raw value;
  Ok (raw_put t (splice value (block_successor_offset (length value) ty) (to_be 32 0)) hash_a).

(** [block_store_partial::get]. *)
Definition raw_get (t : raw_table) (hash_a : Z) : outcome (option block_w_sideband) :=
  let value := block_raw_get t hash_a in
  if bool_decide (value = []) then Ok None else
  '(z, s) ← of_option (read_be 1 value);
  '(b, s) ← of_option (deserialize_block_typed (block_type_of_code z) s);
  '(sb, _) ← of_option (sideband_deserialize (default bt_invalid (block_type_of_code z)) s);
  Ok (Some (b, sb)).

Definition raw_get_no_sideband (t : raw_table) (hash_a : Z) : option block :=
  let value := block_raw_get t hash_a in
  if bool_decide (value = []) then None else fst <$> deserialize_block value.

Definition raw_exists (t : raw_table) (hash_a : Z) : bool :=
  negb (bool_decide (block_raw_get t hash_a = [])).

Section put.
Context `{Crypto}.

(** [block_predecessor_set::fill_value]. *)
Definition fill_value (t : raw_table) (b : block) : outcome raw_table :=
  let value := block_raw_get t (previous b) in
  ty ← block_type_from_raw value;
  Ok (raw_put t (splice value (block_successor_offset (length value) ty) (to_be 32 (block_hash b)))
        (previous b)).

(** [block_predecessor_set] visiting a block. *)
Definition predecessor_visit (t : raw_table) (b : block) : outcome raw_table :=
  match b with
  | send_block _ _ _ | receive_block _ _ _ | change_block _ _ _ => fill_value t b
  | open_block _ _ _ => Ok t
  | state_block h _ _ => if negb (state_previous h =? 0) then fill_value t b else Ok t
  end.

(** [block_store_partial::put]. *)
Definition raw_block_put (t : raw_table) (hash_a : Z) (b : block) (sb : block_sideband) :
    outcome raw_table :=
  predecessor_visit
    (raw_put t (serialize_block b ++ sideband_serialize (block_type_of b) sb) hash_a) b.
End put.

(** ** Refinement *)

(** A stored entry: fields in range, and a sideband as the format can hold it. *)
Definition entry_wf (e : block_w_sideband) : Prop :=
  block_wf e.1 ∧ sideband_wf e.2 ∧ sideband_stored (block_type_of e.1) e.2 = e.2.

Definition encode_entry (e : block_w_sideband) : bytes :=
  serialize_block e.1 ++ sideband_serialize (block_type_of e.1) e.2.

(** The bytes represent the map. *)
Record refines (t : raw_table) (m : gmap Z block_w_sideband) : Prop := {
  rf_bytes : ∀ k, t !! k = encode_entry <$> m !! k;
  rf_wf : ∀ k e, m !! k = Some e → entry_wf e;
}.

Lemma sideband_stored_idem t sb : sideband_stored t (sideband_stored t sb) = sideband_stored t sb.
Proof. destruct t, sb; done. Qed.

Lemma sideband_serialize_stored t sb :
  sideband_serialize t (sideband_stored t sb) = sideband_serialize t sb.
Proof. destruct t, sb; done. Qed.

Lemma sideband_stored_wf t sb : sideband_wf sb → sideband_wf (sideband_stored t sb).
Proof.
  intros (? & ? & ? & ? & ? & ? & ?). unfold sideband_wf. destruct t; simpl; done.
Qed.

Lemma encode_entry_type e :
  block_type_from_raw (encode_entry e) = Ok (block_type_of e.1).
Proof.
  unfold block_type_from_raw, encode_entry, serialize_block. rewrite <- !app_assoc.
  rewrite read_be8 by (by destruct e as [[] ?]). by rewrite block_type_of_code_code.
Qed.

Lemma encode_entry_nonempty e : encode_entry e ≠ [].
Proof.
  unfold encode_entry, serialize_block. intros Hn%(f_equal length).
  rewrite !length_app, length_to_be in Hn. simpl in Hn. lia.
Qed.

(** The offset computed from the end is where the sideband starts. *)
Lemma encode_entry_offset e :
  block_successor_offset (length (encode_entry e)) (block_type_of e.1) = length (serialize_block e.1).
Proof.
  unfold block_successor_offset, encode_entry. rewrite length_app, length_sideband_serialize. lia.
Qed.

(** Overwriting there is exactly a change of the successor field. *)
Lemma splice_successor e succ :
  splice (encode_entry e) (length (serialize_block e.1)) (to_be 32 succ) =
  encode_entry (e.1, set_successor succ e.2).
Proof.
  unfold splice, encode_entry. simpl. rewrite take_app_length. f_equal.
  rewrite <- drop_drop, drop_app_length, length_to_be.
  unfold sideband_serialize at 2. simpl. f_equal.
Qed.

Lemma set_successor_wf e succ : is_u256 succ → entry_wf e → entry_wf (e.1, set_successor succ e.2).
Proof.
  intros Hs (Hb & (? & ? & ? & ? & ? & ? & ?) & Hst). split_and!; [done | done |].
  transitivity (set_successor succ (sideband_stored (block_type_of e.1) e.2)); [done |].
  by rewrite Hst.
Qed.

Section refinement.
Context (t : raw_table) (m : gmap Z block_w_sideband) (Hr : refines t m).

Lemma refines_raw_get k : block_raw_get t k = from_option encode_entry [] (m !! k).
Proof using Hr. unfold block_raw_get. rewrite (rf_bytes t m Hr). by destruct (m !! k). Qed.

Lemma refines_insert k e : entry_wf e → refines (raw_put t (encode_entry e) k) (<[k := e]> m).
Proof using Hr.
  intros He. split.
  - intros k'. unfold raw_put. rewrite !lookup_insert. case_decide; [done |]. apply Hr.
  - intros k' e'. rewrite lookup_insert_Some. intros [[_ <-] | [_ Hk]]; [done |].
    by apply (rf_wf t m Hr k').
Qed.

Lemma refines_get k : raw_get t k = Ok (m !! k).
Proof using Hr.
  unfold raw_get. rewrite refines_raw_get. destruct (m !! k) as [[b sb] |] eqn:Hk; simpl; [| done].
  rewrite bool_decide_false by apply encode_entry_nonempty.
  destruct (rf_wf t m Hr k _ Hk) as (Hb & Hsb & Hst). simpl in *.
  unfold encode_entry, serialize_block. simpl. rewrite <- !app_assoc.
  rewrite read_be8 by (by destruct b). simpl. rewrite block_type_of_code_code. cbn [default].
  rewrite deserialize_block_typed_serialize by done. simpl.
  rewrite <- (app_nil_r (sideband_serialize _ _)), sideband_roundtrip_lemma by done. simpl.
  by rewrite Hst.
Qed.

Lemma refines_exists k : raw_exists t k = bool_decide (is_Some (m !! k)).
Proof using Hr.
  unfold raw_exists. rewrite refines_raw_get. destruct (m !! k) as [e |]; simpl.
  - by rewrite bool_decide_false by apply encode_entry_nonempty.
  - done.
Qed.

Lemma refines_successor k : raw_successor t k = Ok (from_option (λ e, sb_successor e.2) 0 (m !! k)).
Proof using Hr.
  unfold raw_successor. rewrite refines_raw_get. destruct (m !! k) as [e |] eqn:Hk; simpl; [| done].
  rewrite bool_decide_false by apply encode_entry_nonempty.
  rewrite encode_entry_type. simpl. rewrite encode_entry_offset.
  destruct (rf_wf t m Hr k _ Hk) as (_ & (Hs & _) & _).
  unfold encode_entry. rewrite drop_app_length. unfold sideband_serialize.
  by rewrite read_be256.
Qed.

(** Rewriting the successor field in place. *)
Lemma refines_set_successor k e succ :
  m !! k = Some e → is_u256 succ →
  block_type_from_raw (block_raw_get t k) = Ok (block_type_of e.1) ∧
  refines (raw_put t (splice (block_raw_get t k)
             (block_successor_offset (length (block_raw_get t k)) (block_type_of e.1))
             (to_be 32 succ)) k) (<[k := (e.1, set_successor succ e.2)]> m).
Proof using Hr.
  intros Hk Hs. rewrite refines_raw_get, Hk. simpl. split; [apply encode_entry_type |].
  rewrite encode_entry_offset, splice_successor. apply refines_insert.
  apply set_successor_wf; [done |]. by apply (rf_wf t m Hr k).
Qed.
End refinement.

(** C37: The byte table of the block store, with successors rewritten in place at an
    offset from the end of the entry, implements the abstract map of blocks and
    sidebands under get, exists, successor, put and successor_clear. *)
Theorem block_table_refines `{Crypto} t s b sb hash_a :
  refines t (st_blocks s) → block_wf b → sideband_wf sb → is_u256 (block_hash b) →
  raw_get t hash_a = Ok (block_get s hash_a) ∧
  raw_exists t hash_a = block_exists s hash_a ∧
  raw_successor t hash_a = Ok (block_successor s hash_a) ∧
  (∀ s', block_put s (block_hash b) b sb = Ok s' →
     ∃ t', raw_block_put t (block_hash b) b sb = Ok t' ∧ refines t' (st_blocks s')) ∧
  (∀ s', block_successor_clear s hash_a = Ok s' →
     ∃ t', raw_successor_clear t hash_a = Ok t' ∧ refines t' (st_blocks s')).
Proof.
  intros Hr Hb Hsb Hh. split_and!.
  - by apply refines_get.
  - by apply refines_exists.
  - rewrite (refines_successor t _ Hr). unfold block_successor.
    by destruct (st_blocks s !! hash_a) as [[] |].
  - intros s' Hp.
    assert (Hr1 : refines (raw_put t (serialize_block b ++ sideband_serialize (block_type_of b) sb)
                     (block_hash b))
                    (<[block_hash b := (b, sideband_stored (block_type_of b) sb)]> (st_blocks s))).
    { replace (serialize_block b ++ _)
        with (encode_entry (b, sideband_stored (block_type_of b) sb))
        by (unfold encode_entry; simpl; by rewrite sideband_serialize_stored).
      apply refines_insert; [done |]. split_and!; [done | by apply sideband_stored_wf |].
      apply sideband_stored_idem. }
    assert (Hfill : has_predecessor b = true → ∃ t', fill_value
        (raw_put t (serialize_block b ++ sideband_serialize (block_type_of b) sb) (block_hash b)) b
        = Ok t' ∧ refines t' (st_blocks s')).
    { intros Hp'. unfold block_put in Hp. rewrite Hp' in Hp. unfold block_set_successor in Hp.
      simpl in Hp. destruct (<[_ := _]> _ !! previous b) as [[pb psb] |] eqn:Hk in Hp; [| done].
      simplify_eq. destruct (refines_set_successor _ _ Hr1 _ _ _ Hk Hh) as [Ht Hr2].
      unfold fill_value. rewrite Ht. simpl. eexists. split; [done |]. exact Hr2. }
    unfold raw_block_put, predecessor_visit, block_put in *.
    destruct b; simpl in *; auto; simplify_eq; try (by eexists).
    destruct (negb _); [by auto |]. simplify_eq. by eexists.
  - intros s' Hc. unfold block_successor_clear, block_set_successor in Hc.
    destruct (st_blocks s !! hash_a) as [[pb psb] |] eqn:Hk; [| done]. simplify_eq.
    assert (Hz : is_u256 0) by done.
    destruct (refines_set_successor _ _ Hr _ _ _ Hk Hz) as [Ht Hr2].
    unfold raw_successor_clear. rewrite Ht. simpl. eexists. split; [done |]. exact Hr2.
Qed.
