(* ===== verification/Ledger.v ===== *)
(** * The ledger and its block processor ([secure/ledger.cpp])

    The state of [vxldollar::ledger] (tables and in-memory cache), the
    [ledger_processor] visitor that validates and applies one block, and
    [ledger::process].  The code is the release build: [debug_assert] is a no-op
    there.  Statistics counters are left out.  [t_sideband] and [t_modified] are
    the two readings of [seconds_since_epoch] a processed block makes. *)

From S2P Require Import Prelude Blocks BlockCodec Common RepWeights EpochsWork Store.

(** ** State *)

(** [ledger_cache]. *)
Record ledger_cache := LedgerCache {
  lc_rep_weights : rep_weights;
  lc_cemented_count : Z;
  lc_block_count : Z;
  lc_pruned_count : Z;
  lc_account_count : Z;
  lc_final_votes_canary : bool;
}.

Record ledger := Ledger {
  lg_store : store;
  lg_cache : ledger_cache;
  lg_pruning : bool;
}.

(** [ledger_constants]: what processing reads of it. *)
Record ledger_constants := LedgerConstants {
  lk_work : work_thresholds;
  lk_genesis : block;
  lk_epochs : epochs;
  lk_canary_account : Z;
  lk_canary_height : Z;
}.

Definition burn_account : Z := 0.

(** [constants.genesis_amount]: the largest 128-bit number. *)
Definition genesis_amount : Z := u128_max.

Definition with_store (s : store) (L : ledger) : ledger := Ledger s (lg_cache L) (lg_pruning L).
Definition with_cache (c : ledger_cache) (L : ledger) : ledger :=
  Ledger (lg_store L) c (lg_pruning L).

Definition set_rep_weights (f : rep_weights → rep_weights) (L : ledger) : ledger :=
  let c := lg_cache L in
  with_cache (LedgerCache (f (lc_rep_weights c)) (lc_cemented_count c) (lc_block_count c)
    (lc_pruned_count c) (lc_account_count c) (lc_final_votes_canary c)) L.
Definition set_block_count (f : Z → Z) (L : ledger) : ledger :=
  let c := lg_cache L in
  with_cache (LedgerCache (lc_rep_weights c) (lc_cemented_count c) (f (lc_block_count c))
    (lc_pruned_count c) (lc_account_count c) (lc_final_votes_canary c)) L.
Definition set_account_count (f : Z → Z) (L : ledger) : ledger :=
  let c := lg_cache L in
  with_cache (LedgerCache (lc_rep_weights c) (lc_cemented_count c) (lc_block_count c)
    (lc_pruned_count c) (f (lc_account_count c)) (lc_final_votes_canary c)) L.

(** ** Lookups *)

(** [block_or_pruned_exists]. *)
Definition block_or_pruned_exists (L : ledger) (hash_a : Z) : bool :=
  if pruned_exists (lg_store L) hash_a then true else block_exists (lg_store L) hash_a.

(** [ledger::balance]: 0 for the zero hash; the block has to exist otherwise
    ([release_assert]). *)
Definition balance (L : ledger) (hash_a : Z) : outcome Z :=
  if hash_a =? 0 then Ok 0 else store_balance (lg_store L) hash_a.

(** The [account_info] an out parameter holds after [account.get]. *)
Definition account_info_or_default (L : ledger) (account_a : Z) : account_info :=
  default default_account_info (account_get (lg_store L) account_a).

(** ** Account table updates *)

(** [ledger::update_account]. *)
Definition update_account (L : ledger) (account_a : Z) (old_a new_a : account_info) :
    outcome ledger :=
  if negb (ai_head new_a =? 0) then
    let L := if (ai_head old_a =? 0) && (ai_open_block new_a =? ai_head new_a)
             then set_account_count (λ n, wrap64 (n + 1)) L else L in
    s ← (if negb (ai_head old_a =? 0) && negb (ai_epoch old_a =? ai_epoch new_a)
         then account_del (lg_store L) account_a else Ok (lg_store L));
    Ok (with_store (account_put s account_a new_a) L)
  else
    s ← account_del (lg_store L) account_a;
    Ok (set_account_count (λ n, wrap64 (n - 1)) (with_store s L)).

(** [frontier.del] when the head has a frontier entry. *)
Definition clear_frontier (s : store) (head : Z) : outcome store :=
  if negb (frontier_get s head =? 0) then frontier_del s head else Ok s.

Section processor.
Context `{Crypto} (constants : ledger_constants).

Definition is_epoch_link (link_a : Z) : bool := epochs_is_epoch_link (lk_epochs constants) link_a.

(** [ledger::epoch_signer]: [epochs.signer (epochs.epoch (link))]. *)
Definition epoch_signer (link_a : Z) : outcome Z :=
  e ← of_option (epochs_epoch (lk_epochs constants) link_a);
  of_option (epochs_signer (lk_epochs constants) e).

Definition reject (L : ledger) (code : process_result) (v : signature_verification)
    (previous_balance : option Z) : outcome (process_return * ledger) :=
  Ok (ProcessReturn code v previous_balance, L).

Definition legacy_details : block_details := BlockDetails epoch_0 false false false.

(** [ledger_processor::send_block]. *)
Definition processor_send_block (L : ledger) (h : send_hashables) (signature work : Z)
    (verified : signature_verification) (t_sideband t_modified : Z) :
    outcome (process_return * ledger) :=
  let b := send_block h signature work in
  let hash := block_hash b in
  if block_or_pruned_exists L hash then reject L old verified None else
  match block_get (lg_store L) (send_previous h) with
  | None => reject L gap_previous verified None
  | Some (previous_b, _) =>
  if negb (valid_predecessor b previous_b) then reject L block_position verified None else
  let account := frontier_get (lg_store L) (send_previous h) in
  if account =? 0 then reject L fork verified None else
  if negb (bool_decide (verified = sv_valid)) && validate_message account hash signature
  then reject L bad_signature verified None else
  if negb (sufficient_work (lk_work constants) b legacy_details)
  then reject L insufficient_work verified None else
  let info := account_info_or_default L account in
  if ai_balance info <? send_balance h then reject L negative_spend sv_valid None else
  let amount := ai_balance info - send_balance h in
  let L := set_rep_weights (λ w, representation_add w (ai_representative info)
                                   (wrap128 (0 - amount))) L in
  let block_count := wrap64 (ai_block_count info + 1) in
  s ← block_put (lg_store L) hash b
        (BlockSideband 0 account (send_balance h) block_count t_sideband legacy_details epoch_0);
  let L := with_store s L in
  L ← update_account L account info
        (AccountInfo hash (ai_representative info) (ai_open_block info) (send_balance h)
           t_modified block_count epoch_0);
  let s := pending_put (lg_store L) (send_destination h, hash)
             (PendingInfo account amount epoch_0) in
  s ← frontier_del s (send_previous h);
  let s := frontier_put s hash account in
  Ok (ProcessReturn progress sv_valid (Some (ai_balance info)), with_store s L)
  end.

(** [ledger_processor::receive_block]. *)
Definition processor_receive_block (L : ledger) (h : receive_hashables) (signature work : Z)
    (verified : signature_verification) (t_sideband t_modified : Z) :
    outcome (process_return * ledger) :=
  let b := receive_block h signature work in
  let hash := block_hash b in
  if block_or_pruned_exists L hash then reject L old verified None else
  match block_get (lg_store L) (receive_previous h) with
  | None => reject L gap_previous verified None
  | Some (previous_b, _) =>
  if negb (valid_predecessor b previous_b) then reject L block_position verified None else
  let account := frontier_get (lg_store L) (receive_previous h) in
  if account =? 0 then
    reject L (if block_exists (lg_store L) (receive_previous h) then fork else gap_previous)
      verified None
  else
  if negb (bool_decide (verified = sv_valid)) && validate_message account hash signature
  then reject L bad_signature verified None else
  if negb (block_or_pruned_exists L (receive_source h))
  then reject L gap_source sv_valid None else
  let info := account_info_or_default L account in
  if negb (ai_head info =? receive_previous h) then reject L gap_previous sv_valid None else
  let key := (account, receive_source h) in
  match pending_get (lg_store L) key with
  | None => reject L unreceivable sv_valid None
  | Some pending =>
  if negb (pi_epoch pending =? epoch_0) then reject L unreceivable sv_valid None else
  if negb (sufficient_work (lk_work constants) b legacy_details)
  then reject L insufficient_work sv_valid None else
  let new_balance := wrap128 (ai_balance info + pi_amount pending) in
  s ← pending_del (lg_store L) key;
  let block_count := wrap64 (ai_block_count info + 1) in
  s ← block_put s hash b
        (BlockSideband 0 account new_balance block_count t_sideband legacy_details epoch_0);
  let L := with_store s L in
  L ← update_account L account info
        (AccountInfo hash (ai_representative info) (ai_open_block info) new_balance
           t_modified block_count epoch_0);
  let L := set_rep_weights (λ w, representation_add w (ai_representative info)
                                   (pi_amount pending)) L in
  s ← frontier_del (lg_store L) (receive_previous h);
  let s := frontier_put s hash account in
  Ok (ProcessReturn progress sv_valid (Some (ai_balance info)), with_store s L)
  end end.

(** [ledger_processor::open_block]. *)
Definition processor_open_block (L : ledger) (h : open_hashables) (signature work : Z)
    (verified : signature_verification) (t_sideband t_modified : Z) :
    outcome (process_return * ledger) :=
  let b := open_block h signature work in
  let hash := block_hash b in
  if block_or_pruned_exists L hash then reject L old verified None else
  if negb (bool_decide (verified = sv_valid)) && validate_message (open_account h) hash signature
  then reject L bad_signature verified None else
  if negb (block_or_pruned_exists L (open_source h)) then reject L gap_source sv_valid None else
  match account_get (lg_store L) (open_account h) with
  | Some _ => reject L fork sv_valid None
  | None =>
  let info := default_account_info in
  let key := (open_account h, open_source h) in
  match pending_get (lg_store L) key with
  | None => reject L unreceivable sv_valid None
  | Some pending =>
  if open_account h =? burn_account then reject L opened_burn_account sv_valid None else
  if negb (pi_epoch pending =? epoch_0) then reject L unreceivable sv_valid None else
  if negb (sufficient_work (lk_work constants) b legacy_details)
  then reject L insufficient_work sv_valid None else
  s ← pending_del (lg_store L) key;
  s ← block_put s hash b
        (BlockSideband 0 (open_account h) (pi_amount pending) 1 t_sideband legacy_details epoch_0);
  let L := with_store s L in
  L ← update_account L (open_account h) info
        (AccountInfo hash (open_representative h) hash (pi_amount pending) t_modified 1 epoch_0);
  let L := set_rep_weights (λ w, representation_add w (open_representative h)
                                   (pi_amount pending)) L in
  let s := frontier_put (lg_store L) hash (open_account h) in
  Ok (ProcessReturn progress sv_valid (Some 0), with_store s L)
  end end.

(** [ledger_processor::change_block]. *)
Definition processor_change_block (L : ledger) (h : change_hashables) (signature work : Z)
    (verified : signature_verification) (t_sideband t_modified : Z) :
    outcome (process_return * ledger) :=
  let b := change_block h signature work in
  let hash := block_hash b in
  if block_or_pruned_exists L hash then reject L old verified None else
  match block_get (lg_store L) (change_previous h) with
  | None => reject L gap_previous verified None
  | Some (previous_b, _) =>
  if negb (valid_predecessor b previous_b) then reject L block_position verified None else
  let account := frontier_get (lg_store L) (change_previous h) in
  if account =? 0 then reject L fork verified None else
  let info := account_info_or_default L account in
  if negb (bool_decide (verified = sv_valid)) && validate_message account hash signature
  then reject L bad_signature verified None else
  if negb (sufficient_work (lk_work constants) b legacy_details)
  then reject L insufficient_work verified None else
  let block_count := wrap64 (ai_block_count info + 1) in
  s ← block_put (lg_store L) hash b
        (BlockSideband 0 account (ai_balance info) block_count t_sideband legacy_details epoch_0);
  let L := with_store s L in
  balance ← balance L (change_previous h);
  let L := set_rep_weights (λ w, representation_add_dual w (change_representative h) balance
                                   (ai_representative info) (wrap128 (0 - balance))) L in
  L ← update_account L account info
        (AccountInfo hash (change_representative h) (ai_open_block info) (ai_balance info)
           t_modified block_count epoch_0);
  s ← frontier_del (lg_store L) (change_previous h);
  let s := frontier_put s hash account in
  Ok (ProcessReturn progress sv_valid (Some (ai_balance info)), with_store s L)
  end.
(** *** State blocks *)

(** The local variables of [state_block_impl] and the code reached so far. *)
Record state_checks := StateChecks {
  sc_code : process_result;
  sc_epoch : epoch;
  sc_source_epoch : epoch;
  sc_is_send : bool;
  sc_is_receive : bool;
  sc_amount : Z;
}.

(** The position of the block in its account chain. *)
Definition state_position (L : ledger) (h : state_hashables) : state_checks :=
  match account_get (lg_store L) (state_account h) with
  | Some info =>
      let e := ai_epoch info in
      if state_previous h =? 0
      then StateChecks fork e epoch_0 false false (state_balance h) else
      if negb (block_exists (lg_store L) (state_previous h))
      then StateChecks gap_previous e epoch_0 false false (state_balance h) else
      let send := state_balance h <? ai_balance info in
      StateChecks (if state_previous h =? ai_head info then progress else fork) e epoch_0
        send (negb send && negb (state_link h =? 0))
        (if send then ai_balance info - state_balance h else state_balance h - ai_balance info)
  | None =>
      if negb (state_previous h =? 0)
      then StateChecks gap_previous epoch_0 epoch_0 false false (state_balance h)
      else StateChecks (if negb (state_link h =? 0) then progress else gap_source)
             epoch_0 epoch_0 false true (state_balance h)
  end.

(** The link of a block that is not a send: a pending entry to receive, or
    nothing and then the balance stays. *)
Definition state_link_check (L : ledger) (h : state_hashables) (c : state_checks) : state_checks :=
  let set code := StateChecks code (sc_epoch c) (sc_source_epoch c) (sc_is_send c)
                    (sc_is_receive c) (sc_amount c) in
  if bool_decide (sc_code c = progress) && negb (sc_is_send c) then
    if negb (state_link h =? 0) then
      if negb (block_or_pruned_exists L (state_link h)) then set gap_source else
      match pending_get (lg_store L) (state_account h, state_link h) with
      | None => set unreceivable
      | Some pending =>
          StateChecks (if sc_amount c =? pi_amount pending then progress else balance_mismatch)
            (Z.max (sc_epoch c) (pi_epoch pending)) (pi_epoch pending) (sc_is_send c)
            (sc_is_receive c) (sc_amount c)
      end
    else set (if sc_amount c =? 0 then progress else balance_mismatch)
  else c.

Definition state_previous_balance (L : ledger) (h : state_hashables) : Z :=
  match account_get (lg_store L) (state_account h) with
  | Some info => ai_balance info
  | None => 0
  end.

(** The writes of an accepted state block. *)
Definition state_block_commit (L : ledger) (h : state_hashables) (signature work : Z)
    (c : state_checks) (t_sideband t_modified : Z) : outcome ledger :=
  let b := state_block h signature work in
  let hash := block_hash b in
  let info := account_info_or_default L (state_account h) in
  let block_count := wrap64 (ai_block_count info + 1) in
  s ← block_put (lg_store L) hash b
        (BlockSideband 0 (state_account h) 0 block_count t_sideband
           (BlockDetails (sc_epoch c) (sc_is_send c) (sc_is_receive c) false)
           (sc_source_epoch c));
  let L := with_store s L in
  let L :=
    if negb (ai_head info =? 0) then
      set_rep_weights (λ w, representation_add_dual w (ai_representative info)
        (wrap128 (0 - ai_balance info)) (state_representative h) (state_balance h)) L
    else
      set_rep_weights (λ w, representation_add w (state_representative h) (state_balance h)) L in
  s ← (if sc_is_send c then
         Ok (pending_put (lg_store L) (state_link h, hash)
               (PendingInfo (state_account h) (sc_amount c) (sc_epoch c)))
       else if negb (state_link h =? 0) then
         pending_del (lg_store L) (state_account h, state_link h)
       else Ok (lg_store L));
  let L := with_store s L in
  L ← update_account L (state_account h) info
        (AccountInfo hash (state_representative h)
           (if ai_open_block info =? 0 then hash else ai_open_block info)
           (state_balance h) t_modified block_count (sc_epoch c));
  s ← clear_frontier (lg_store L) (ai_head info);
  Ok (with_store s L).

(** [ledger_processor::state_block_impl]. *)
Definition state_block_impl (L : ledger) (h : state_hashables) (signature work : Z)
    (verified : signature_verification) (t_sideband t_modified : Z) :
    outcome (process_return * ledger) :=
  let b := state_block h signature work in
  let hash := block_hash b in
  if block_or_pruned_exists L hash then reject L old verified None else
  if negb (bool_decide (verified = sv_valid)) && validate_message (state_account h) hash signature
  then reject L bad_signature verified None else
  if state_account h =? 0 then reject L opened_burn_account sv_valid None else
  let c := state_link_check L h (state_position L h) in
  let previous_balance := Some (state_previous_balance L h) in
  if negb (bool_decide (sc_code c = progress))
  then reject L (sc_code c) sv_valid previous_balance else
  if negb (sufficient_work (lk_work constants) b
             (BlockDetails (sc_epoch c) (sc_is_send c) (sc_is_receive c) false))
  then reject L insufficient_work sv_valid previous_balance else
  L ← state_block_commit L h signature work c t_sideband t_modified;
  Ok (ProcessReturn progress sv_valid previous_balance, L).

(** The account part of [epoch_block_impl]: an existing account is extended at
    its head with its representative; an unopened one needs something
    pending. *)
Definition epoch_position (L : ledger) (h : state_hashables) : process_result :=
  match account_get (lg_store L) (state_account h) with
  | Some info =>
      if state_previous h =? 0 then fork else
      if negb (state_previous h =? ai_head info) then fork else
      if negb (state_representative h =? ai_representative info)
      then representative_mismatch else progress
  | None =>
      if negb (state_representative h =? 0) then representative_mismatch else
      if negb (pending_any (lg_store L) (state_account h))
      then gap_epoch_open_pending else progress
  end.

(** The writes of an accepted epoch block. *)
Definition epoch_block_commit (L : ledger) (h : state_hashables) (signature work : Z)
    (e : epoch) (t_sideband t_modified : Z) : outcome ledger :=
  let b := state_block h signature work in
  let hash := block_hash b in
  let info := account_info_or_default L (state_account h) in
  let block_count := wrap64 (ai_block_count info + 1) in
  s ← block_put (lg_store L) hash b
        (BlockSideband 0 (state_account h) 0 block_count t_sideband
           (BlockDetails e false false true) epoch_0);
  let L := with_store s L in
  L ← update_account L (state_account h) info
        (AccountInfo hash (state_representative h)
           (if ai_open_block info =? 0 then hash else ai_open_block info)
           (ai_balance info) t_modified block_count e);
  s ← clear_frontier (lg_store L) (ai_head info);
  Ok (with_store s L).

(** [ledger_processor::epoch_block_impl]. *)
Definition epoch_block_impl (L : ledger) (h : state_hashables) (signature work : Z)
    (verified : signature_verification) (t_sideband t_modified : Z) :
    outcome (process_return * ledger) :=
  let b := state_block h signature work in
  let hash := block_hash b in
  if block_or_pruned_exists L hash then reject L old verified None else
  signer ← epoch_signer (state_link h);
  if negb (bool_decide (verified = sv_valid_epoch)) && validate_message signer hash signature
  then reject L bad_signature verified None else
  if state_account h =? 0 then reject L opened_burn_account sv_valid_epoch None else
  let previous_balance := Some (state_previous_balance L h) in
  let code := epoch_position L h in
  if negb (bool_decide (code = progress))
  then reject L code sv_valid_epoch previous_balance else
  let info := account_info_or_default L (state_account h) in
  e ← of_option (epochs_epoch (lk_epochs constants) (state_link h));
  let upgrade :=
    match account_get (lg_store L) (state_account h) with
    | None => 0 <? e
    | Some info => is_sequential (ai_epoch info) e
    end in
  if negb upgrade then reject L block_position sv_valid_epoch previous_balance else
  if negb (state_balance h =? ai_balance info)
  then reject L balance_mismatch sv_valid_epoch previous_balance else
  if negb (sufficient_work (lk_work constants) b (BlockDetails e false false true))
  then reject L insufficient_work sv_valid_epoch previous_balance else
  L ← epoch_block_commit L h signature work e t_sideband t_modified;
  Ok (ProcessReturn progress sv_valid_epoch previous_balance, L).

(** [validate_epoch_block]: the code and verification state it leaves in
    [result], and whether the balance is unchanged. *)
Definition validate_epoch_block (L : ledger) (h : state_hashables) (signature work : Z)
    (verified : signature_verification) :
    outcome (process_result * signature_verification * bool) :=
  let hash := block_hash (state_block h signature work) in
  if negb (state_previous h =? 0) then
    if block_exists (lg_store L) (state_previous h) then
      prev_balance ← balance L (state_previous h);
      Ok (progress, verified, state_balance h =? prev_balance)
    else if bool_decide (verified = sv_unknown) then
      if validate_message (state_account h) hash signature then
        signer ← epoch_signer (state_link h);
        if validate_message signer hash signature
        then Ok (bad_signature, sv_invalid, state_balance h =? 0)
        else Ok (gap_previous, sv_valid_epoch, state_balance h =? 0)
      else Ok (gap_previous, sv_valid, state_balance h =? 0)
    else Ok (gap_previous, verified, state_balance h =? 0)
  else Ok (progress, verified, state_balance h =? 0).

(** [ledger_processor::state_block]. *)
Definition processor_state_block (L : ledger) (h : state_hashables) (signature work : Z)
    (verified : signature_verification) (t_sideband t_modified : Z) :
    outcome (process_return * ledger) :=
  '(code, verified, is_epoch_block) ←
    (if is_epoch_link (state_link h) then validate_epoch_block L h signature work verified
     else Ok (progress, verified, false));
  if bool_decide (code = progress) then
    if (is_epoch_block : bool)
    then epoch_block_impl L h signature work verified t_sideband t_modified
    else state_block_impl L h signature work verified t_sideband t_modified
  else reject L code verified None.

(** [block_a.visit (processor)]. *)
Definition processor_visit (L : ledger) (b : block) (verified : signature_verification)
    (t_sideband t_modified : Z) : outcome (process_return * ledger) :=
  match b with
  | send_block h s w => processor_send_block L h s w verified t_sideband t_modified
  | receive_block h s w => processor_receive_block L h s w verified t_sideband t_modified
  | open_block h s w => processor_open_block L h s w verified t_sideband t_modified
  | change_block h s w => processor_change_block L h s w verified t_sideband t_modified
  | state_block h s w => processor_state_block L h s w verified t_sideband t_modified
  end.

(** [ledger::process]. *)
Definition process (L : ledger) (b : block) (verified : signature_verification)
    (t_sideband t_modified : Z) : outcome (process_return * ledger) :=
  '(result, L) ← processor_visit L b verified t_sideband t_modified;
  Ok (result, if bool_decide (pr_code result = progress)
              then set_block_count (λ n, wrap64 (n + 1)) L else L).

(** [store_partial::initialize]: the tables and cache of a new ledger. *)
Definition empty_store : store := Store ∅ ∅ ∅ ∅ ∅ ∅.
Definition empty_cache : ledger_cache := LedgerCache ∅ 0 0 0 0 false.

Definition genesis_sideband (t : Z) : block_sideband :=
  BlockSideband 0 (account (lk_genesis constants)) u128_max 1 t default_details epoch_0.

Definition initialize (t_genesis t_modified : Z) : outcome ledger :=
  let g := lk_genesis constants in
  let hash := block_hash g in
  s ← block_put empty_store hash g (genesis_sideband t_genesis);
  let s := confirmation_height_put s (account g) (ConfirmationHeightInfo 1 hash) in
  let s := account_put s (account g)
             (AccountInfo hash (account g) hash u128_max t_modified 1 epoch_0) in
  let s := frontier_put s hash (account g) in
  Ok (Ledger s
        (LedgerCache (representation_put ∅ (account g) u128_max) 1 1 0 1
           (bool_decide (lk_canary_account constants = account g) &&
            (lk_canary_height constants <=? 1)))
        false).
End processor.
