(* ===== verification/LedgerApply.v ===== *)
(** * What an accepted block does to the ledger

    The branches of the block processor that accept a block all have the same
    effect: the block is appended to the chain of one account.  [apply_block] is
    that effect as a function of the block, and the lemmas of this file bring
    the writes of the processor (block table, account table, frontiers) into
    that form. *)

From S2P Require Import Prelude Blocks BlockCodec Common RepWeights EpochsWork Store Ledger.

Section apply.
Context `{Crypto}.

(** The block table after [block_store::put]. *)
Definition new_blocks (m : gmap Z block_w_sideband) (b : block) (sb : block_sideband) :
    gmap Z block_w_sideband :=
  let m := <[block_hash b := (b, sideband_stored (block_type_of b) sb)]> m in
  if has_predecessor b
  then alter (λ e, (e.1, set_successor (block_hash b) e.2)) (previous b) m else m.

Definition is_legacy (b : block) : bool := negb (bool_decide (block_type_of b = bt_state)).

(** The frontier table: the old head leaves it, a legacy block enters it. *)
Definition new_frontiers (m : gmap Z Z) (b : block) (account_a old_head : Z) : gmap Z Z :=
  let m := delete old_head m in
  if is_legacy b then <[block_hash b := account_a]> m else m.

Definition apply_block (L : ledger) (b : block) (sb : block_sideband) (account_a : Z)
    (new : account_info) (pending : gmap pending_key pending_info) (w : rep_weights) : ledger :=
  let s := lg_store L in
  let c := lg_cache L in
  Ledger
    (Store (new_blocks (st_blocks s) b sb) (<[account_a := new]> (st_accounts s)) pending
       (new_frontiers (st_frontiers s) b account_a (ai_head (account_info_or_default L account_a)))
       (st_pruned s) (st_confirmation_height s))
    (LedgerCache w (lc_cemented_count c) (lc_block_count c) (lc_pruned_count c)
       (match st_accounts s !! account_a with
        | Some _ => lc_account_count c
        | None => wrap64 (lc_account_count c + 1)
        end) (lc_final_votes_canary c))
    (lg_pruning L).

(** ** The block table *)

Lemma block_put_new s b sb :
  (has_predecessor b = true → is_Some (st_blocks s !! previous b)) →
  block_put s (block_hash b) b sb = Ok (set_blocks (λ m, new_blocks m b sb) s).
Proof.
  intros Hp. unfold block_put, new_blocks. destruct (has_predecessor b); [| done].
  destruct (Hp eq_refl) as [[pb psb] Hpb]. unfold block_set_successor. simpl.
  destruct (decide (block_hash b = previous b)) as [He | Hne].
  - rewrite <- He, lookup_insert_eq. unfold set_blocks; simpl. do 2 f_equal.
    rewrite alter_insert_eq. by rewrite insert_insert_eq.
  - rewrite lookup_insert_ne, Hpb by done. unfold set_blocks; simpl. do 2 f_equal.
    rewrite alter_insert_ne by done. rewrite insert_insert_ne by done. f_equal.
    apply map_eq. intros k. rewrite lookup_alter, lookup_insert.
    case_decide; simplify_eq; [by rewrite Hpb | done].
Qed.

(** Two entries that differ in the successor at most. *)
Definition same_entry (e e' : block_w_sideband) : Prop :=
  ∃ succ, e' = (e.1, set_successor succ e.2).

Lemma same_entry_refl e : same_entry e e.
Proof. exists (sb_successor e.2). by destruct e as [? []]. Qed.

Lemma same_entry_balance e e' : same_entry e e' → balance_calculated e' = balance_calculated e.
Proof. intros [? ->]. by destruct e as [[] ?]. Qed.
Lemma same_entry_account e e' : same_entry e e' → account_calculated e' = account_calculated e.
Proof. by intros [? ->]. Qed.
Lemma same_entry_block e e' : same_entry e e' → e'.1 = e.1.
Proof. by intros [? ->]. Qed.
Lemma same_entry_height e e' : same_entry e e' → sb_height e'.2 = sb_height e.2.
Proof. by intros [? ->]. Qed.

Lemma same_entry_details e e' : same_entry e e' → sb_details e'.2 = sb_details e.2.
Proof. by intros [? ->]. Qed.

Section new_blocks.
Context (m : gmap Z block_w_sideband) (b : block) (sb : block_sideband).
Context (Hfresh : m !! block_hash b = None).
Context (Hprev : has_predecessor b = true → is_Some (m !! previous b)).

Let m' := new_blocks m b sb.
Let e := (b, sideband_stored (block_type_of b) sb).

Lemma new_blocks_self : m' !! block_hash b = Some e.
Proof using Hfresh Hprev.
  unfold m', new_blocks. destruct (has_predecessor b) eqn:Hp; [| apply lookup_insert_eq].
  rewrite lookup_alter_ne, lookup_insert_eq; [done |].
  intros He. destruct (Hprev eq_refl) as [? ?]. congruence.
Qed.

Lemma new_blocks_other k e0 :
  m !! k = Some e0 → ∃ e', m' !! k = Some e' ∧ same_entry e0 e'.
Proof using Hfresh Hprev.
  intros Hk. assert (k ≠ block_hash b) by congruence.
  unfold m', new_blocks. destruct (has_predecessor b).
  - rewrite lookup_alter. case_decide as Hp; simplify_eq;
      rewrite lookup_insert_ne, Hk by congruence; simpl.
    + eexists; split; [done | by eexists].
    + eexists; split; [done | apply same_entry_refl].
  - rewrite lookup_insert_ne, Hk by congruence. eexists; split; [done | apply same_entry_refl].
Qed.

Lemma new_blocks_inv k e' :
  m' !! k = Some e' →
  k = block_hash b ∧ e' = e ∨ ∃ e0, m !! k = Some e0 ∧ same_entry e0 e'.
Proof using Hfresh Hprev.
  intros Hk. destruct (decide (k = block_hash b)) as [-> | Hne].
  - left. rewrite new_blocks_self in Hk. by simplify_eq.
  - right. unfold m', new_blocks in Hk.
    destruct (has_predecessor b).
    + rewrite lookup_alter in Hk.
      case_decide as Hp; simplify_eq; rewrite lookup_insert_ne in Hk by congruence.
      * apply fmap_Some in Hk as (e0 & He0 & ->). exists e0. split; [done | by eexists].
      * exists e'. split; [done | apply same_entry_refl].
    + rewrite lookup_insert_ne in Hk by congruence. exists e'. split; [done | apply same_entry_refl].
Qed.

Lemma new_blocks_is_Some k :
  is_Some (m' !! k) ↔ k = block_hash b ∨ is_Some (m !! k).
Proof using Hfresh Hprev.
  split.
  - intros [e' He']. apply new_blocks_inv in He' as [[-> _] | (e0 & He0 & _)]; eauto.
  - intros [-> | [e0 He0]].
    + rewrite new_blocks_self. by eexists.
    + destruct (new_blocks_other _ _ He0) as (e' & -> & _). by eexists.
Qed.

Lemma new_blocks_size : size m' = S (size m).
Proof using Hfresh.
  clear Hprev. unfold m', new_blocks. destruct (has_predecessor b); rewrite ?size_alter;
    by rewrite map_size_insert_None.
Qed.
End new_blocks.

(** ** The account table *)

Lemma update_account_existing L a old new :
  st_accounts (lg_store L) !! a = Some old → ai_head old ≠ 0 → ai_head new ≠ 0 →
  update_account L a old new = Ok (with_store (account_put (lg_store L) a new) L).
Proof.
  intros Hold Ho Hn. unfold update_account.
  rewrite (proj2 (Z.eqb_neq _ _) Hn), (proj2 (Z.eqb_neq _ _) Ho). simpl.
  destruct (negb _); [| done].
  unfold account_del, checked_delete. rewrite Hold. simpl.
  unfold account_put, set_accounts; simpl. by rewrite insert_delete_eq.
Qed.

Lemma update_account_open L a new :
  st_accounts (lg_store L) !! a = None → ai_head new ≠ 0 → ai_open_block new = ai_head new →
  update_account L a default_account_info new =
  Ok (set_account_count (λ n, wrap64 (n + 1)) (with_store (account_put (lg_store L) a new) L)).
Proof.
  intros Hold Hn Ho. unfold update_account.
  by rewrite (proj2 (Z.eqb_neq _ _) Hn), Ho, (Z.eqb_refl (ai_head new)).
Qed.

(** ** Frontiers *)

Lemma frontier_del_ok s k a :
  st_frontiers s !! k = Some a → frontier_del s k = Ok (set_frontiers (delete k) s).
Proof. intros Hk. unfold frontier_del, checked_delete. by rewrite Hk. Qed.

Lemma pending_del_ok s k p :
  st_pending s !! k = Some p → pending_del s k = Ok (set_pending (delete k) s).
Proof. intros Hk. unfold pending_del, checked_delete. by rewrite Hk. Qed.

Lemma clear_frontier_ok s k :
  (∀ a, st_frontiers s !! k = Some a → a ≠ 0) →
  clear_frontier s k = Ok (set_frontiers (delete k) s).
Proof.
  intros Hnz. unfold clear_frontier, frontier_get.
  destruct (st_frontiers s !! k) as [a |] eqn:Hk; simpl.
  - rewrite (proj2 (Z.eqb_neq _ _) (Hnz a eq_refl)). simpl. by eapply frontier_del_ok.
  - f_equal. destruct s; simpl in *.
    unfold set_frontiers; simpl. by rewrite delete_id.
Qed.

Lemma frontier_get_nonzero s k :
  frontier_get s k ≠ 0 → st_frontiers s !! k = Some (frontier_get s k).
Proof. unfold frontier_get. by destruct (st_frontiers s !! k). Qed.
End apply.
