(* ===== verification/LedgerInvariant.v ===== *)
(** * The ledger invariant

    What holds of every ledger the node builds, and the one lemma by which an
    accepted block keeps it.  An accepted block is described by an [effect] on
    the pending table (a spend, a receive, or none) and a [valid_step]; every
    branch of the processor is brought into that form in [LedgerSteps]. *)

From S2P Require Import Prelude Blocks BlockCodec Common RepWeights EpochsWork Store Ledger.
From S2P Require Import LedgerApply.

(** ** Effects *)

Inductive effect : Type :=
| Spend (dest amount : Z) (e : epoch)
| Collect (src : Z) (p : pending_info)
| Idle.

Definition apply_effect (eff : effect) (account_a hash : Z)
    (m : gmap pending_key pending_info) : gmap pending_key pending_info :=
  match eff with
  | Spend dest amount e => <[(dest, hash) := PendingInfo account_a amount e]> m
  | Collect src _ => delete (account_a, src) m
  | Idle => m
  end.

(** What the effect adds to the balance of the account. *)
Definition credit (eff : effect) : Z :=
  match eff with
  | Spend _ amount _ => - amount
  | Collect _ p => pi_amount p
  | Idle => 0
  end.

Definition effect_ok (m : gmap pending_key pending_info) (account_a : Z) (eff : effect) : Prop :=
  match eff with
  | Spend _ amount _ => 0 <= amount
  | Collect src p => m !! (account_a, src) = Some p
  | Idle => True
  end.

(** The weight the account entry gives to representative [r]. *)
Definition rep_balance (r : Z) (i : account_info) : Z :=
  if decide (ai_representative i = r) then ai_balance i else 0.

(** The coins of the ledger: held by accounts, or sent and not yet received. *)
Definition supply (s : store) : Z :=
  sum_map ai_balance (st_accounts s) + sum_map pi_amount (st_pending s).

(** ** The invariant *)

Section invariant.
Context `{Crypto}.

(** An account entry agrees with the head block of its chain. *)
Record account_ok (s : store) (a : Z) (i : account_info) : Prop := {
  ao_account : a ≠ 0;
  ao_head : ai_head i ≠ 0;
  ao_open : ai_open_block i ≠ 0;
  ao_balance : is_u128 (ai_balance i);
  ao_entry : ∃ e, st_blocks s !! ai_head i = Some e ∧ account_calculated e = a ∧
    balance_calculated e = ai_balance i ∧ sb_height e.2 = ai_block_count i ∧
    details_epoch (sb_details e.2) = ai_epoch i ∧
    (is_legacy e.1 = true → st_frontiers s !! ai_head i = Some a);
}.

Record ledger_inv (L : ledger) : Prop := {
  inv_accounts : ∀ a i, st_accounts (lg_store L) !! a = Some i → account_ok (lg_store L) a i;
  inv_frontiers : ∀ k a, st_frontiers (lg_store L) !! k = Some a →
    ∃ i e, st_accounts (lg_store L) !! a = Some i ∧ ai_head i = k ∧
      st_blocks (lg_store L) !! k = Some e ∧ is_legacy e.1 = true;
  inv_blocks : ∀ k e, st_blocks (lg_store L) !! k = Some e →
    k ≠ 0 ∧ k = block_hash e.1 ∧ is_Some (st_accounts (lg_store L) !! account_calculated e);
  inv_pruned : ∀ k, k ∈ st_pruned (lg_store L) → k ≠ 0 ∧ st_blocks (lg_store L) !! k = None;
  inv_pending : ∀ k p, st_pending (lg_store L) !! k = Some p →
    0 <= pi_amount p ∧ block_or_pruned_exists L k.2 = true;
  inv_supply : supply (lg_store L) = genesis_amount;
  inv_weights : ∀ r, rw_get (lc_rep_weights (lg_cache L)) r =
    sum_map (rep_balance r) (st_accounts (lg_store L));
  inv_block_count : lc_block_count (lg_cache L) =
    wrap64 (Z.of_nat (size (st_blocks (lg_store L)) + size (st_pruned (lg_store L))));
  inv_account_count : lc_account_count (lg_cache L) =
    wrap64 (Z.of_nat (size (st_accounts (lg_store L))));
  inv_chain_lengths : lc_block_count (lg_cache L) =
    wrap64 (sum_map ai_block_count (st_accounts (lg_store L)));
  inv_cemented : lc_cemented_count (lg_cache L) =
    wrap64 (sum_map ch_height (st_confirmation_height (lg_store L)));
}.

Lemma exists_true L k :
  block_or_pruned_exists L k = true ↔
  k ∈ st_pruned (lg_store L) ∨ is_Some (st_blocks (lg_store L) !! k).
Proof.
  unfold block_or_pruned_exists, pruned_exists, block_exists.
  repeat case_bool_decide; naive_solver.
Qed.

Lemma exists_false L k :
  block_or_pruned_exists L k = false ↔
  (k ∉ st_pruned (lg_store L)) ∧ st_blocks (lg_store L) !! k = None.
Proof.
  rewrite <- not_true_iff_false, exists_true, eq_None_not_Some. tauto.
Qed.

(** *** Consequences *)

Section consequences.
Context (L : ledger) (HL : ledger_inv L).

Lemma inv_sums :
  0 <= sum_map ai_balance (st_accounts (lg_store L)) <= genesis_amount ∧
  0 <= sum_map pi_amount (st_pending (lg_store L)) <= genesis_amount.
Proof using HL.
  pose proof (inv_supply L HL) as Hs. unfold supply in Hs.
  assert (0 <= sum_map ai_balance (st_accounts (lg_store L))).
  { apply sum_map_nonneg. intros a i Hi. by apply (ao_balance _ _ _ (inv_accounts L HL a i Hi)). }
  assert (0 <= sum_map pi_amount (st_pending (lg_store L))).
  { apply sum_map_nonneg. intros k p Hp. by apply (inv_pending L HL k p Hp). }
  lia.
Qed.

Lemma inv_pending_le k p :
  st_pending (lg_store L) !! k = Some p →
  pi_amount p + sum_map ai_balance (st_accounts (lg_store L)) <= genesis_amount.
Proof using HL.
  intros Hp. pose proof (inv_supply L HL) as Hs. unfold supply in Hs.
  assert (pi_amount p <= sum_map pi_amount (st_pending (lg_store L))); [| lia].
  apply (sum_map_lookup_le _ _ k); [| done]. intros. by eapply inv_pending.
Qed.

Lemma inv_balance_le a i :
  st_accounts (lg_store L) !! a = Some i →
  0 <= ai_balance i <= sum_map ai_balance (st_accounts (lg_store L)).
Proof using HL.
  intros Hi. split; [by apply (inv_accounts L HL a i Hi) |].
  apply (sum_map_lookup_le _ _ a); [| done].
  intros a' i' Hi'. by apply (inv_accounts L HL a' i' Hi').
Qed.

(** A receivable amount always fits on top of any balance. *)
Lemma inv_receivable_fits k p a i :
  st_pending (lg_store L) !! k = Some p → st_accounts (lg_store L) !! a = Some i →
  is_u128 (ai_balance i + pi_amount p).
Proof using HL.
  intros Hp Hi. pose proof (inv_pending_le k p Hp). pose proof (inv_balance_le a i Hi).
  pose proof (proj1 (inv_pending L HL k p Hp)). unfold is_u128, genesis_amount, u128_max in *. lia.
Qed.

Lemma inv_pending_range k p :
  st_pending (lg_store L) !! k = Some p → is_u128 (pi_amount p).
Proof using HL.
  intros Hp. pose proof (inv_pending_le k p Hp). pose proof (proj1 inv_sums).
  pose proof (proj1 (inv_pending L HL k p Hp)). unfold is_u128, genesis_amount, u128_max in *. lia.
Qed.

Lemma inv_weight_range r : is_u128 (rw_get (lc_rep_weights (lg_cache L)) r).
Proof using HL.
  rewrite (inv_weights L HL). pose proof inv_sums as [[_ Hs] _].
  split.
  - apply sum_map_nonneg. intros a i Hi. pose proof (inv_balance_le a i Hi).
    unfold rep_balance. case_decide; lia.
  - assert (sum_map (rep_balance r) (st_accounts (lg_store L)) <=
            sum_map ai_balance (st_accounts (lg_store L))).
    { apply sum_map_le. intros a i Hi. pose proof (inv_balance_le a i Hi).
      unfold rep_balance. case_decide; lia. }
    unfold genesis_amount, u128_max in *. lia.
Qed.

(** Heads belong to one account each. *)
Lemma inv_heads_distinct a i a' i' :
  st_accounts (lg_store L) !! a = Some i → st_accounts (lg_store L) !! a' = Some i' →
  ai_head i = ai_head i' → a = a'.
Proof using HL.
  intros Hi Hi' He.
  destruct (ao_entry _ _ _ (inv_accounts L HL a i Hi)) as (e & ? & <- & _).
  destruct (ao_entry _ _ _ (inv_accounts L HL a' i' Hi')) as (e' & ? & <- & _).
  congruence.
Qed.

(** The frontier table answers with the account whose head it is. *)
Lemma inv_frontier_get k :
  frontier_get (lg_store L) k ≠ 0 →
  ∃ i, st_accounts (lg_store L) !! frontier_get (lg_store L) k = Some i ∧ ai_head i = k.
Proof using HL.
  intros Hf. apply frontier_get_nonzero in Hf.
  apply (inv_frontiers L HL) in Hf as (i & e & ? & ? & _). eauto.
Qed.

Lemma inv_frontier_nonzero k a : st_frontiers (lg_store L) !! k = Some a → a ≠ 0.
Proof using HL.
  intros Hf. apply (inv_frontiers L HL) in Hf as (i & e & Hi & _).
  by apply (inv_accounts L HL a i Hi).
Qed.

Lemma inv_block_zero : st_blocks (lg_store L) !! 0 = None.
Proof using HL.
  destruct (st_blocks (lg_store L) !! 0) as [e |] eqn:He; [| done].
  by destruct (inv_blocks L HL 0 e He).
Qed.

Lemma inv_exists_zero : block_or_pruned_exists L 0 = false.
Proof using HL.
  apply exists_false. split; [| apply inv_block_zero].
  intros Hz. by apply (inv_pruned L HL) in Hz as [? _].
Qed.

Lemma inv_frontier_zero : delete 0 (st_frontiers (lg_store L)) = st_frontiers (lg_store L).
Proof using HL.
  apply delete_id. destruct (st_frontiers (lg_store L) !! 0) as [a |] eqn:Hf; [| done].
  apply (inv_frontiers L HL) in Hf as (i & e & _ & _ & He & _).
  by rewrite inv_block_zero in He.
Qed.
End consequences.

(** ** Accepted blocks *)

(** The side conditions under which appending [b] to the chain of [a] is
    sound: the block is new, extends the head (or opens the account), and the
    account entry, the pending table and the weights move together. *)
Record valid_step (L : ledger) (b : block) (sb : block_sideband) (a : Z) (new : account_info)
    (eff : effect) (w : rep_weights) : Prop := {
  vs_fresh : block_or_pruned_exists L (block_hash b) = false;
  vs_hash : block_hash b ≠ 0;
  vs_prev : has_predecessor b = true → is_Some (st_blocks (lg_store L) !! previous b);
  vs_account : a ≠ 0;
  vs_position : ∀ i, st_accounts (lg_store L) !! a = Some i → previous b = ai_head i;
  vs_head : ai_head new = block_hash b;
  vs_open : ai_open_block new =
    from_option ai_open_block (block_hash b) (st_accounts (lg_store L) !! a);
  vs_count : ai_block_count new = wrap64 (ai_block_count (account_info_or_default L a) + 1);
  vs_range : is_u128 (ai_balance new);
  vs_effect : effect_ok (st_pending (lg_store L)) a eff;
  vs_balance : ai_balance new = ai_balance (account_info_or_default L a) + credit eff;
  vs_successor : sb_successor sb = 0;
  vs_entry_account : account_calculated (b, sideband_stored (block_type_of b) sb) = a;
  vs_entry_balance :
    balance_calculated (b, sideband_stored (block_type_of b) sb) = ai_balance new;
  vs_entry_height : sb_height (sideband_stored (block_type_of b) sb) = ai_block_count new;
  vs_entry_epoch :
    details_epoch (sb_details (sideband_stored (block_type_of b) sb)) = ai_epoch new;
  vs_weights : ∀ r, rw_get w r =
    wrap128 (rw_get (lc_rep_weights (lg_cache L)) r -
             rep_balance r (account_info_or_default L a) + rep_balance r new);
}.

(** The ledger after an accepted block. *)
Definition step_block (L : ledger) (b : block) (sb : block_sideband) (a : Z)
    (new : account_info) (eff : effect) (w : rep_weights) : ledger :=
  set_block_count (λ n, wrap64 (n + 1))
    (apply_block L b sb a new
       (apply_effect eff a (block_hash b) (st_pending (lg_store L))) w).

Section step.
Context (L : ledger) (HL : ledger_inv L).
Context (b : block) (sb : block_sideband) (a : Z) (new : account_info) (eff : effect)
  (w : rep_weights).
Context (HV : valid_step L b sb a new eff w).

Local Abbreviation L' := (step_block L b sb a new eff w).
Local Abbreviation old := (account_info_or_default L a).

Lemma step_fresh : st_blocks (lg_store L) !! block_hash b = None.
Proof using HV. by apply exists_false, HV. Qed.

(** Summing any function of the account entries that is 0 on the default. *)
Lemma step_sum_accounts f :
  f default_account_info = 0 →
  sum_map f (<[a := new]> (st_accounts (lg_store L))) =
  sum_map f (st_accounts (lg_store L)) - f old + f new.
Proof using.
  intros Hf. unfold account_info_or_default, account_get.
  destruct (st_accounts (lg_store L) !! a) as [i |] eqn:Hi; simpl.
  - by apply sum_map_update.
  - rewrite sum_map_insert, Hf by done. lia.
Qed.

Lemma step_pending_fresh dest :
  st_pending (lg_store L) !! (dest, block_hash b) = None.
Proof using HL HV.
  destruct (st_pending (lg_store L) !! (dest, block_hash b)) as [p |] eqn:Hp; [| done].
  apply (inv_pending L HL) in Hp as [_ Hp]. simpl in Hp. by rewrite (vs_fresh _ _ _ _ _ _ _ HV) in Hp.
Qed.

Lemma step_supply : supply (lg_store L') = supply (lg_store L).
Proof using HL HV.
  unfold step_block, supply; simpl. rewrite step_sum_accounts by done.
  pose proof (vs_balance _ _ _ _ _ _ _ HV) as Hb.
  pose proof (vs_effect _ _ _ _ _ _ _ HV) as He.
  pose proof step_pending_fresh as Hfr. destruct eff; simpl in *.
  - rewrite sum_map_insert by apply Hfr. simpl. lia.
  - rewrite (sum_map_delete _ _ _ p) by done. lia.
  - lia.
Qed.

Lemma step_pending k p :
  st_pending (lg_store L') !! k = Some p →
  0 <= pi_amount p ∧ block_or_pruned_exists L' k.2 = true.
Proof using HL HV.
  assert (Hex : ∀ h, h = block_hash b ∨ block_or_pruned_exists L h = true →
                     block_or_pruned_exists L' h = true).
  { intros h Hh. apply exists_true. unfold step_block; simpl.
    rewrite new_blocks_is_Some by (apply step_fresh || apply HV).
    rewrite exists_true in Hh. tauto. }
  pose proof (vs_effect _ _ _ _ _ _ _ HV) as He.
  unfold step_block; simpl. destruct eff; simpl in *.
  - rewrite lookup_insert_Some. intros [[<- <-] | [_ Hp]]; simpl; [by auto |].
    apply (inv_pending L HL) in Hp as [? ?]. auto.
  - rewrite lookup_delete_Some. intros [_ Hp].
    apply (inv_pending L HL) in Hp as [? ?]. auto.
  - intros Hp. apply (inv_pending L HL) in Hp as [? ?]. auto.
Qed.

Lemma step_weights r :
  rw_get w r = sum_map (rep_balance r) (<[a := new]> (st_accounts (lg_store L))).
Proof using HL HV.
  rewrite (vs_weights _ _ _ _ _ _ _ HV), (inv_weights L HL).
  assert (Hd : ∀ r, rep_balance r default_account_info = 0)
    by (intros; unfold rep_balance; by case_decide).
  rewrite step_sum_accounts by done. apply wrap128_small.
  rewrite <- step_sum_accounts by done.
  pose proof step_supply as Hs. rewrite (inv_supply L HL) in Hs.
  unfold step_block, supply in Hs; simpl in Hs.
  assert (Hnn : ∀ k i, <[a := new]> (st_accounts (lg_store L)) !! k = Some i →
                       0 <= ai_balance i).
  { intros k i. rewrite lookup_insert_Some. intros [[_ <-] | [_ Hi]].
    - apply (vs_range _ _ _ _ _ _ _ HV).
    - apply (inv_accounts L HL _ _ Hi). }
  assert (0 <= sum_map pi_amount (st_pending (lg_store L')))
    by (apply sum_map_nonneg; intros; by eapply step_pending).
  unfold step_block in *; simpl in *.
  split.
  - apply sum_map_nonneg. intros k i Hi%Hnn. unfold rep_balance. case_decide; lia.
  - apply Z.le_lt_trans with (sum_map ai_balance (<[a := new]> (st_accounts (lg_store L)))).
    + apply sum_map_le. intros k i Hi%Hnn. unfold rep_balance. case_decide; lia.
    + unfold genesis_amount, u128_max in *. lia.
Qed.

(** The old head of the account is no other account's head. *)
Lemma step_other_head a' i' :
  a' ≠ a → st_accounts (lg_store L) !! a' = Some i' →
  ai_head i' ≠ ai_head old ∧ ai_head i' ≠ block_hash b.
Proof using HL HV.
  intros Hne Hi'. pose proof (inv_accounts L HL _ _ Hi') as Ho. split.
  - unfold account_info_or_default, account_get.
    destruct (st_accounts (lg_store L) !! a) as [i |] eqn:Hi; simpl.
    + intros He. by apply Hne, (inv_heads_distinct L HL a' i' a i).
    + apply Ho.
  - intros He. destruct (ao_entry _ _ _ Ho) as (e & He' & _).
    rewrite He, step_fresh in He'. done.
Qed.

Lemma step_accounts a' i' :
  st_accounts (lg_store L') !! a' = Some i' → account_ok (lg_store L') a' i'.
Proof using HL HV.
  unfold step_block; simpl. rewrite lookup_insert_Some.
  assert (Hself : new_blocks (st_blocks (lg_store L)) b sb !! block_hash b =
                  Some (b, sideband_stored (block_type_of b) sb))
    by (apply new_blocks_self; [apply step_fresh | apply HV]).
  intros [[<- <-] | [Hne Hi]].
  - pose proof HV as []. split; try done; [congruence | |].
    + rewrite vs_open0. destruct (st_accounts (lg_store L) !! a) as [i |] eqn:Hi; simpl; [| done].
      apply (inv_accounts L HL _ _ Hi).
    + eexists. simpl. rewrite vs_head0, Hself. split_and!; try done.
      simpl. intros Hl. unfold new_frontiers. rewrite Hl. apply lookup_insert_eq.
  - pose proof (inv_accounts L HL _ _ Hi) as Ho.
    destruct (step_other_head a' i') as [Hh1 Hh2]; [done.. |].
    destruct Ho as [? ? ? ? (e & He & Hacc & Hbal & Hht & Hep & Hleg)]. split; try done.
    destruct (new_blocks_other _ b sb step_fresh (vs_prev _ _ _ _ _ _ _ HV) _ _ He)
      as (e' & He' & Hsame).
    exists e'. simpl. rewrite (same_entry_account _ _ Hsame), (same_entry_balance _ _ Hsame),
      (same_entry_height _ _ Hsame), (same_entry_details _ _ Hsame), (same_entry_block _ _ Hsame).
    split_and!; try done. intros Hl.
    unfold new_frontiers. destruct (is_legacy b);
      rewrite ?lookup_insert_ne, lookup_delete_ne by congruence; auto.
Qed.

Lemma step_frontiers k a' :
  st_frontiers (lg_store L') !! k = Some a' →
  ∃ i e, st_accounts (lg_store L') !! a' = Some i ∧ ai_head i = k ∧
    st_blocks (lg_store L') !! k = Some e ∧ is_legacy e.1 = true.
Proof using HL HV.
  unfold step_block; simpl. intros Hf.
  assert (k = block_hash b ∧ a' = a ∧ is_legacy b = true ∨
          k ≠ ai_head old ∧ st_frontiers (lg_store L) !! k = Some a') as [(-> & -> & Hl) | [Hk Hf']].
  { unfold new_frontiers in Hf.
    destruct (is_legacy b); [apply lookup_insert_Some in Hf as [[<- <-] | [_ Hf]]; [by left |] |];
      right; apply lookup_delete_Some in Hf as [? ?]; split; congruence. }
  - exists new, (b, sideband_stored (block_type_of b) sb). rewrite lookup_insert_eq.
    rewrite new_blocks_self by (apply step_fresh || apply HV). split_and!; try done. apply HV.
  - apply (inv_frontiers L HL) in Hf' as (i & e & Hi & <- & He & Hl).
    destruct (new_blocks_other _ b sb step_fresh (vs_prev _ _ _ _ _ _ _ HV) _ _ He)
      as (e' & He' & Hsame).
    exists i, e'. rewrite (same_entry_block _ _ Hsame). split_and!; try done.
    rewrite lookup_insert_ne; [done |]. intros <-. apply Hk.
    unfold account_info_or_default, account_get. by rewrite Hi.
Qed.

(** Appending a valid block keeps the invariant. *)
Lemma step_block_inv : ledger_inv L'.
Proof using HL HV.
  assert (Hnew : ∀ k, is_Some (st_blocks (lg_store L') !! k) ↔
                      k = block_hash b ∨ is_Some (st_blocks (lg_store L) !! k))
    by (intros; apply new_blocks_is_Some; [apply step_fresh | apply HV]).
  split.
  - apply step_accounts.
  - apply step_frontiers.
  - intros k e Hk. unfold step_block in Hk |- *; simpl in Hk |- *.
    rewrite lookup_insert_is_Some'.
    apply new_blocks_inv in Hk as [[-> ->] | (e0 & He0 & Hs)];
      [| | apply step_fresh | apply HV].
    + split_and!; [apply HV | done | left; symmetry; apply HV].
    + rewrite (same_entry_block _ _ Hs), (same_entry_account _ _ Hs).
      apply (inv_blocks L HL) in He0. tauto.
  - intros k Hk. split; [by apply (inv_pruned L HL) |].
    apply eq_None_not_Some. rewrite Hnew. intros [-> | Hs].
    + pose proof (vs_fresh _ _ _ _ _ _ _ HV) as Hf. by apply exists_false in Hf as [? _].
    + apply (inv_pruned L HL) in Hk as [_ Hk]. rewrite Hk in Hs. by destruct Hs.
  - apply step_pending.
  - rewrite step_supply. apply HL.
  - apply step_weights.
  - unfold step_block; simpl. rewrite (inv_block_count L HL), wrap64_add_l.
    rewrite new_blocks_size by apply step_fresh. f_equal. lia.
  - unfold step_block; simpl. rewrite (inv_account_count L HL).
    destruct (st_accounts (lg_store L) !! a) eqn:Ha.
    + by rewrite map_size_insert, Ha.
    + rewrite map_size_insert, Ha, wrap64_add_l. f_equal. lia.
  - unfold step_block; simpl. rewrite (inv_chain_lengths L HL), step_sum_accounts by done.
    rewrite (vs_count _ _ _ _ _ _ _ HV), wrap64_add_l, wrap64_add_r. f_equal. lia.
  - apply (inv_cemented L HL).
Qed.
End step.
End invariant.
