(* ===== verification/LedgerSteps.v ===== *)
(** * The branches of the block processor

    Each visitor method of [ledger_processor], run on a ledger that satisfies
    the invariant, either rejects the block and leaves the ledger as it is, or
    appends the block as described by [accepted].  No branch ends the process:
    every deletion finds its key and every predecessor is there. *)

From S2P Require Import Prelude Blocks BlockCodec Common RepWeights EpochsWork Store Ledger.
From S2P Require Import LedgerApply LedgerInvariant.

Section steps.
Context `{Crypto} (constants : ledger_constants).

(** The caller vouches for the signature, or it verifies under [signer]. *)
Definition authorised (v vouched : signature_verification) (signer : Z) (b : block) : Prop :=
  v = vouched ∨ validate_message signer (block_hash b) (block_signature b) = false.

(** The owner of the account signed, or the block is an epoch upgrade: signed
    by the epoch signer and without any effect on balance or delegation. *)
Definition signed (L : ledger) (b : block) (v : signature_verification) (a : Z)
    (new : account_info) (eff : effect) : Prop :=
  authorised v sv_valid a b ∨
  (is_epoch_link constants (link b) = true ∧
   (∃ signer, epoch_signer constants (link b) = Ok signer ∧
              authorised v sv_valid_epoch signer b) ∧
   eff = Idle ∧
   ai_balance new = ai_balance (account_info_or_default L a) ∧
   ai_representative new = ai_representative (account_info_or_default L a)).

(** Does the block name a representative? *)
Definition names_representative (b : block) : bool :=
  match b with send_block _ _ _ | receive_block _ _ _ => false | _ => true end.

(** The effect is the one the fields of the block ask for. *)
Definition block_effect (b : block) (sb : block_sideband) (eff : effect) : Prop :=
  match b, eff with
  | send_block h _ _, Spend dest _ _ => dest = send_destination h
  | receive_block h _ _, Collect src p => src = receive_source h ∧ pi_epoch p = epoch_0
  | open_block h _ _, Collect src p => src = open_source h ∧ pi_epoch p = epoch_0
  | change_block _ _ _, Idle => True
  | state_block h _ _, Spend dest amount _ => dest = state_link h ∧ 0 < amount
  | state_block h _ _, Collect src p =>
      src = state_link h ∧ src ≠ 0 ∧ sb_source_epoch sb = pi_epoch p
  | state_block h _ _, Idle => state_link h = 0 ∨ is_epoch_link constants (state_link h) = true
  | _, _ => False
  end.

Record accepted (L : ledger) (b : block) (v : signature_verification) (a : Z)
    (sb : block_sideband) (new : account_info) (eff : effect) (w : rep_weights) : Prop := {
  ac_step : valid_step L b sb a new eff w;
  ac_signed : signed L b v a new eff;
  ac_work : sufficient_work (lk_work constants) b (sb_details sb) = true;
  ac_first : st_accounts (lg_store L) !! a = None →
    has_predecessor b = false ∨ is_epoch_link constants (link b) = true ∧ account b = a;
  ac_effect : block_effect b sb eff;
  ac_rep : ai_representative new =
    if names_representative b then representative b
    else ai_representative (account_info_or_default L a);
  ac_legacy : is_legacy b = true → ∀ i, st_accounts (lg_store L) !! a = Some i →
    st_frontiers (lg_store L) !! ai_head i = Some a;
  ac_legacy_epoch : is_legacy b = true → details_epoch (sb_details sb) = epoch_0;
}.

(** Rejected without a trace, or accepted. *)
Definition step_result (L : ledger) (b : block) (v : signature_verification)
    (out : outcome (process_return * ledger)) : Prop :=
  (∃ r, out = Ok (r, L) ∧ pr_code r ≠ progress) ∨
  (∃ a sb new eff w v', accepted L b v a sb new eff w ∧
     out = Ok (ProcessReturn progress v' (Some (ai_balance (account_info_or_default L a))),
               apply_block L b sb a new
                 (apply_effect eff a (block_hash b) (st_pending (lg_store L))) w)).

Lemma step_reject L b v code v' p :
  code ≠ progress → step_result L b v (reject L code v' p).
Proof. intros Hc. left. eexists. split; [done |]. done. Qed.

Lemma not_validated v vouched signer b :
  negb (bool_decide (v = vouched)) &&
    validate_message signer (block_hash b) (block_signature b) = false →
  authorised v vouched signer b.
Proof.
  unfold authorised. case_bool_decide; simpl; [by left | by right].
Qed.

Lemma info_existing L a i :
  st_accounts (lg_store L) !! a = Some i → account_info_or_default L a = i.
Proof. intros Hi. unfold account_info_or_default, account_get. by rewrite Hi. Qed.

Lemma info_missing L a :
  st_accounts (lg_store L) !! a = None → account_info_or_default L a = default_account_info.
Proof. intros Hi. unfold account_info_or_default, account_get. by rewrite Hi. Qed.

(** Take the guards of a handler one by one; the rejecting side is closed. *)
Ltac pass_guard :=
  match goal with
  | |- step_result _ _ _ (if ?c then reject _ _ _ _ else _) =>
      let E := fresh "G" in
      destruct c eqn:E; [by (apply step_reject; repeat case_match) |]
  end.

(** The weight equation of [valid_step]. *)
Ltac weights HL :=
  intros ?;
  rewrite ?rw_get_add_dual_delta, ?rw_get_add_delta by (intros; by apply inv_weight_range);
  unfold rep_balance; simpl; repeat case_decide; simplify_eq;
  rewrite ?wrap128_add_m, ?wrap128_add_r; try (by apply wrap128_small, inv_weight_range);
  f_equal; simpl in *; lia.

(** The remaining side conditions, with the account entry [Hi] known. *)
Ltac side Hi :=
  rewrite ?(info_existing _ _ _ Hi), ?(info_missing _ _ Hi), ?Hi; simpl;
  try (intros; simplify_eq; done || lia).

(** The shape of the effect of a legacy block. *)
Ltac shape := simpl; repeat split; done || lia.

Section branch.
Context (L : ledger) (HL : ledger_inv L).

(** *** Send *)

Lemma send_step h s w v t1 t2 :
  let b := send_block h s w in
  block_wf b → block_hash b ≠ 0 →
  step_result L b v (processor_send_block constants L h s w v t1 t2).
Proof using HL.
  intros b (_ & _ & _ & _ & Hwf) Hnz. unfold processor_send_block. fold b. pass_guard.
  destruct (block_get (lg_store L) (send_previous h)) as [[pb psb] |] eqn:Hp;
    [| by apply step_reject].
  repeat pass_guard.
  destruct (inv_frontier_get L HL (send_previous h)) as (i & Hi & Hh); [lia |].
  set (acc := frontier_get (lg_store L) (send_previous h)) in *.
  assert (Hfr : st_frontiers (lg_store L) !! send_previous h = Some acc)
    by (apply frontier_get_nonzero; lia).
  rewrite (info_existing _ _ _ Hi) in *.
  pose proof (inv_accounts L HL _ _ Hi) as Hok.
  right. exists acc.
  eexists _, _, (Spend (send_destination h) (ai_balance i - send_balance h) epoch_0), _, _.
  split; cycle 1.
  - rewrite block_put_new by (intros _; by exists (pb, psb)). simpl.
    erewrite update_account_existing; [| done | apply Hok | done]. simpl.
    erewrite frontier_del_ok; [| done]. simpl.
    unfold apply_block. rewrite (info_existing _ _ _ Hi), Hi, Hh. reflexivity.
  - split; [| by left; apply not_validated | by apply negb_false_iff | congruence || by left
      | shape | side Hi | side Hi; intros; congruence | done].
    split; simpl; try done; side Hi. weights HL.
Qed.

(** *** Receive *)

Lemma receive_step h s w v t1 t2 :
  let b := receive_block h s w in
  block_hash b ≠ 0 →
  step_result L b v (processor_receive_block constants L h s w v t1 t2).
Proof using HL.
  intros b Hnz. unfold processor_receive_block. fold b. pass_guard.
  destruct (block_get (lg_store L) (receive_previous h)) as [[pb psb] |] eqn:Hp;
    [| by apply step_reject].
  repeat pass_guard.
  destruct (inv_frontier_get L HL (receive_previous h)) as (i & Hi & Hh); [lia |].
  set (acc := frontier_get (lg_store L) (receive_previous h)) in *.
  assert (Hfr : st_frontiers (lg_store L) !! receive_previous h = Some acc)
    by (apply frontier_get_nonzero; lia).
  rewrite (info_existing _ _ _ Hi) in *.
  destruct (pending_get (lg_store L) (acc, receive_source h)) as [p |] eqn:Hpend;
    [| by apply step_reject].
  repeat pass_guard.
  pose proof (inv_accounts L HL _ _ Hi) as Hok.
  pose proof (inv_receivable_fits L HL _ _ _ _ Hpend Hi) as Hfit.
  rewrite (wrap128_small _ Hfit).
  right. exists acc. eexists _, _, (Collect (receive_source h) p), _, _. split; cycle 1.
  - erewrite pending_del_ok by done. simpl.
    rewrite block_put_new by (intros _; by exists (pb, psb)). simpl.
    erewrite update_account_existing; [| done | apply Hok | done]. simpl.
    erewrite frontier_del_ok; [| done]. simpl.
    unfold apply_block. rewrite (info_existing _ _ _ Hi), Hi, Hh. reflexivity.
  - split; [| by left; apply not_validated | by apply negb_false_iff | congruence || by left
      | shape | side Hi | side Hi; intros; congruence | done].
    split; simpl; try done; side Hi. weights HL.
Qed.

(** *** Open *)

Lemma open_step h s w v t1 t2 :
  let b := open_block h s w in
  block_hash b ≠ 0 →
  step_result L b v (processor_open_block constants L h s w v t1 t2).
Proof using HL.
  intros b Hnz. unfold processor_open_block. fold b. repeat pass_guard.
  assert (Hi : st_accounts (lg_store L) !! open_account h = None) by done.
  destruct (pending_get (lg_store L) (open_account h, open_source h)) as [p |] eqn:Hpend;
    [| by apply step_reject].
  repeat pass_guard.
  pose proof (inv_pending_range L HL _ _ Hpend) as Hp0.
  right. exists (open_account h). eexists _, _, (Collect (open_source h) p), _, _.
  split; cycle 1.
  - erewrite pending_del_ok by done. cbn [mbind outcome_bind].
    rewrite block_put_new by done. simpl.
    rewrite update_account_open by done. simpl.
    unfold apply_block, burn_account in *. rewrite (info_missing _ _ Hi), Hi. simpl.
    unfold new_frontiers. simpl. rewrite (inv_frontier_zero L HL). reflexivity.
  - split; [| by left; apply not_validated | by apply negb_false_iff | congruence || by left
      | shape | side Hi | side Hi; intros; congruence | done].
    unfold burn_account in *.
    split; simpl; try done; side Hi; [| weights HL].
    unfold account_calculated. simpl. by rewrite G3.
Qed.

(** *** Change *)

Lemma change_step h s w v t1 t2 :
  let b := change_block h s w in
  block_hash b ≠ 0 →
  step_result L b v (processor_change_block constants L h s w v t1 t2).
Proof using HL.
  intros b Hnz. unfold processor_change_block. fold b. pass_guard.
  destruct (block_get (lg_store L) (change_previous h)) as [[pb psb] |] eqn:Hp;
    [| by apply step_reject].
  repeat pass_guard.
  destruct (inv_frontier_get L HL (change_previous h)) as (i & Hi & Hh); [lia |].
  set (acc := frontier_get (lg_store L) (change_previous h)) in *.
  assert (Hfr : st_frontiers (lg_store L) !! change_previous h = Some acc)
    by (apply frontier_get_nonzero; lia).
  rewrite (info_existing _ _ _ Hi) in *.
  pose proof (inv_accounts L HL _ _ Hi) as Hok.
  rewrite block_put_new by (intros _; by exists (pb, psb)). cbn [mbind outcome_bind].
  set (sb := BlockSideband _ _ _ _ _ _ _). unfold balance.
  destruct (ao_entry _ _ _ Hok) as (e & He & _ & Hbal & _).
  assert (Hz : (change_previous h =? 0) = false)
    by (apply Z.eqb_neq; rewrite <- Hh; apply Hok).
  destruct (new_blocks_other (st_blocks (lg_store L)) b sb) with (k := ai_head i) (e0 := e)
    as (e' & He' & Hsame); [by apply exists_false | by intros _; exists (pb, psb) | done |].
  rewrite Hz. unfold store_balance, block_get. simpl. rewrite <- Hh, He'. simpl.
  rewrite (same_entry_balance _ _ Hsame), Hbal.
  right. exists acc. eexists _, _, Idle, _, _. split; cycle 1.
  - erewrite update_account_existing; [| done | apply Hok | done]. simpl.
    erewrite frontier_del_ok; [| rewrite Hh; done]. simpl.
    unfold apply_block. rewrite (info_existing _ _ _ Hi), Hi. reflexivity.
  - split; [| by left; apply not_validated | by apply negb_false_iff | congruence || by left
      | shape | side Hi | side Hi; intros; congruence | done].
    split; simpl; try done; side Hi; [apply Hok | weights HL].
Qed.

(** *** State *)

(** What the checks of [state_block_impl] establish when they end in
    [progress]: the position in the chain and the effect on the pending
    table. *)
Definition state_effect (h : state_hashables) (c : state_checks) (eff : effect) : Prop :=
  match eff with
  | Spend dest amount e =>
      sc_is_send c = true ∧ dest = state_link h ∧ amount = sc_amount c ∧ e = sc_epoch c ∧
      0 < amount
  | Collect src p =>
      sc_is_send c = false ∧ state_link h ≠ 0 ∧ src = state_link h ∧
      sc_source_epoch c = pi_epoch p
  | Idle => sc_is_send c = false ∧ state_link h = 0
  end.

Lemma state_checks_progress h :
  let c := state_link_check L h (state_position L h) in
  sc_code c = progress →
  ∃ eff, state_effect h c eff ∧ effect_ok (st_pending (lg_store L)) (state_account h) eff ∧
    state_balance h = ai_balance (account_info_or_default L (state_account h)) + credit eff ∧
    (state_previous h ≠ 0 → is_Some (st_blocks (lg_store L) !! state_previous h)) ∧
    state_previous h = ai_head (account_info_or_default L (state_account h)).
Proof using.
  unfold state_link_check, state_position, account_info_or_default, account_get.
  destruct (st_accounts (lg_store L) !! state_account h) as [i |] eqn:Hi; simpl.
  - destruct (state_previous h =? 0) eqn:Hp0; simpl; [done |].
    destruct (block_exists (lg_store L) (state_previous h)) eqn:Hpb; simpl; [| done].
    apply bool_decide_eq_true in Hpb.
    destruct (state_previous h =? ai_head i) eqn:Hh; simpl; [| done].
    destruct (state_balance h <? ai_balance i) eqn:Hb; simpl.
    + intros _. exists (Spend (state_link h) (ai_balance i - state_balance h) (ai_epoch i)).
      simpl. split_and!; try done; lia.
    + destruct (state_link h =? 0) eqn:Hl; simpl.
      * destruct (_ - _ =? 0) eqn:Ha; simpl; [| done]. intros _. exists Idle. simpl.
        split_and!; try done; lia.
      * destruct (block_or_pruned_exists L (state_link h)); simpl; [| done].
        unfold pending_get. destruct (st_pending (lg_store L) !! _) as [p |] eqn:Hpd; simpl; [| done].
        destruct (_ - _ =? pi_amount p) eqn:Ha; simpl; [| done]. intros _.
        exists (Collect (state_link h) p). simpl. split_and!; try done; lia.
  - destruct (state_previous h =? 0) eqn:Hp0; simpl; [| done].
    destruct (state_link h =? 0) eqn:Hl; simpl; [done |].
    destruct (block_or_pruned_exists L (state_link h)); simpl; [| done].
    unfold pending_get. destruct (st_pending (lg_store L) !! _) as [p |] eqn:Hpd; simpl; [| done].
    destruct (state_balance h =? pi_amount p) eqn:Ha; simpl; [| done]. intros _.
    exists (Collect (state_link h) p). simpl. split_and!; try done; lia.
Qed.

(** The account entry and sideband an accepted state block leaves. *)
Definition state_new_info (h : state_hashables) (hash modified : Z) (e : epoch) : account_info :=
  let info := account_info_or_default L (state_account h) in
  AccountInfo hash (state_representative h)
    (from_option ai_open_block hash (st_accounts (lg_store L) !! state_account h))
    (state_balance h) modified (wrap64 (ai_block_count info + 1)) e.

Definition state_sideband (h : state_hashables) (t : Z) (d : block_details)
    (source_epoch : epoch) : block_sideband :=
  BlockSideband 0 (state_account h) 0
    (wrap64 (ai_block_count (account_info_or_default L (state_account h)) + 1)) t d source_epoch.

(** The weights after an accepted state block. *)
Definition state_weights (h : state_hashables) : rep_weights :=
  let info := account_info_or_default L (state_account h) in
  if ai_head info =? 0
  then representation_add (lc_rep_weights (lg_cache L)) (state_representative h)
         (state_balance h)
  else representation_add_dual (lc_rep_weights (lg_cache L)) (ai_representative info)
         (wrap128 (0 - ai_balance info)) (state_representative h) (state_balance h).

(** The account and frontier updates at the end of both state handlers. *)
Lemma state_finish L1 h hash modified e :
  hash ≠ 0 →
  st_accounts (lg_store L1) = st_accounts (lg_store L) →
  st_frontiers (lg_store L1) = st_frontiers (lg_store L) →
  let info := account_info_or_default L (state_account h) in
  (L2 ← update_account L1 (state_account h) info
          (AccountInfo hash (state_representative h)
             (if ai_open_block info =? 0 then hash else ai_open_block info)
             (state_balance h) modified (wrap64 (ai_block_count info + 1)) e);
   s ← clear_frontier (lg_store L2) (ai_head info);
   Ok (with_store s L2)) =
  Ok (with_store
        (set_frontiers (delete (ai_head info))
           (account_put (lg_store L1) (state_account h) (state_new_info h hash modified e)))
        (match st_accounts (lg_store L) !! state_account h with
         | Some _ => L1
         | None => set_account_count (λ n, wrap64 (n + 1)) L1
         end)).
Proof using HL.
  intros Hnz Ha Hf info. unfold info, state_new_info. rewrite <- Ha.
  destruct (st_accounts (lg_store L1) !! state_account h) as [i |] eqn:Hi; simpl.
  - rewrite Ha in Hi. rewrite (info_existing _ _ _ Hi).
    pose proof (inv_accounts L HL _ _ Hi) as Hok.
    rewrite (proj2 (Z.eqb_neq _ _) (ao_open _ _ _ Hok)).
    erewrite update_account_existing; [| by rewrite Ha | apply Hok | done]. simpl.
    rewrite clear_frontier_ok; [done |]. simpl. rewrite Hf. apply (inv_frontier_nonzero L HL).
  - pose proof Hi as Hi'. rewrite Ha in Hi. rewrite (info_missing _ _ Hi). simpl.
    rewrite update_account_open by done. simpl.
    rewrite clear_frontier_ok; [done |]. simpl. rewrite Hf. apply (inv_frontier_nonzero L HL).
Qed.

Lemma state_commit_apply h s w c eff t1 t2 :
  let b := state_block h s w in
  block_hash b ≠ 0 → state_effect h c eff →
  effect_ok (st_pending (lg_store L)) (state_account h) eff →
  (state_previous h ≠ 0 → is_Some (st_blocks (lg_store L) !! state_previous h)) →
  state_block_commit L h s w c t1 t2 =
  Ok (apply_block L b
        (state_sideband h t1 (BlockDetails (sc_epoch c) (sc_is_send c) (sc_is_receive c) false)
           (sc_source_epoch c))
        (state_account h) (state_new_info h (block_hash b) t2 (sc_epoch c))
        (apply_effect eff (state_account h) (block_hash b) (st_pending (lg_store L)))
        (state_weights h)).
Proof using HL.
  intros b Hnz He Hok Hprev. unfold state_block_commit. fold b.
  rewrite block_put_new; cycle 1.
  { simpl. intros Hp. apply Hprev. lia. }
  cbn [mbind outcome_bind].
  match goal with |- context [if negb (ai_head ?i =? 0) then ?x else ?y] =>
    set (L1 := if negb (ai_head i =? 0) then x else y) end.
  assert (HL1 : lg_store L1 =
                set_blocks (λ m, new_blocks m b (state_sideband h t1
                  (BlockDetails (sc_epoch c) (sc_is_send c) (sc_is_receive c) false)
                  (sc_source_epoch c))) (lg_store L))
    by (unfold L1; by destruct (negb _)).
  assert (Hpend : (if sc_is_send c then
                     Ok (pending_put (lg_store L1) (state_link h, block_hash b)
                           (PendingInfo (state_account h) (sc_amount c) (sc_epoch c)))
                   else if negb (state_link h =? 0) then
                     pending_del (lg_store L1) (state_account h, state_link h)
                   else Ok (lg_store L1)) =
                  Ok (set_pending (apply_effect eff (state_account h) (block_hash b)) (lg_store L1))).
  { destruct eff; simpl in He; destruct_and?; simplify_eq.
    - by rewrite H0.
    - rewrite H0, (proj2 (Z.eqb_neq _ _) H2). simpl. eapply pending_del_ok. by rewrite HL1.
    - rewrite H0, H1. simpl. by destruct (lg_store L1). }
  rewrite Hpend. cbn [mbind outcome_bind].
  rewrite state_finish by (done || by simpl; rewrite HL1).
  unfold apply_block, state_weights. simpl. rewrite HL1. unfold L1, with_store. simpl.
  destruct (st_accounts (lg_store L) !! state_account h); destruct (ai_head _ =? 0); done.
Qed.

Lemma state_previous_balance_old h :
  state_previous_balance L h = ai_balance (account_info_or_default L (state_account h)).
Proof using.
  unfold state_previous_balance, account_info_or_default, account_get.
  by destruct (st_accounts (lg_store L) !! state_account h).
Qed.

Lemma state_valid_step h s w d source_epoch eff t1 t2 :
  let b := state_block h s w in
  is_u128 (state_balance h) → block_hash b ≠ 0 →
  block_or_pruned_exists L (block_hash b) = false → state_account h ≠ 0 →
  effect_ok (st_pending (lg_store L)) (state_account h) eff →
  state_balance h = ai_balance (account_info_or_default L (state_account h)) + credit eff →
  (state_previous h ≠ 0 → is_Some (st_blocks (lg_store L) !! state_previous h)) →
  state_previous h = ai_head (account_info_or_default L (state_account h)) →
  valid_step L b (state_sideband h t1 d source_epoch) (state_account h)
    (state_new_info h (block_hash b) t2 (details_epoch d)) eff (state_weights h).
Proof using HL.
  intros b Hwf Hnz Hfresh Ha Hok Hbal Hprev Hpos.
  split; try done; unfold state_new_info, state_sideband; simpl.
  - intros Hp. apply Hprev. lia.
  - intros i Hi. by rewrite Hpos, (info_existing _ _ _ Hi).
  - unfold account_calculated. simpl. by rewrite (proj2 (Z.eqb_neq _ _) Ha).
  - intros r. unfold state_weights.
    destruct (st_accounts (lg_store L) !! state_account h) as [i |] eqn:Hi.
    + rewrite (info_existing _ _ _ Hi).
      rewrite (proj2 (Z.eqb_neq _ _) (ao_head _ _ _ (inv_accounts L HL _ _ Hi))).
      revert r. weights HL.
    + rewrite (info_missing _ _ Hi). simpl. revert r. weights HL.
Qed.

Lemma state_step h s w v t1 t2 :
  let b := state_block h s w in
  block_wf b → block_hash b ≠ 0 →
  step_result L b v (state_block_impl constants L h s w v t1 t2).
Proof using HL.
  intros b (_ & _ & _ & _ & _ & Hwf & _) Hnz. unfold state_block_impl. fold b. do 3 pass_guard.
  set (c := state_link_check L h (state_position L h)).
  destruct (decide (sc_code c = progress)) as [Hc | Hc];
    [| rewrite bool_decide_false by done; by apply step_reject].
  rewrite bool_decide_true by done. cbn [negb]. pass_guard.
  destruct (state_checks_progress h Hc) as (eff & He & Hok & Hbal & Hprev & Hpos). fold c in He.
  erewrite state_commit_apply by done. cbn [mbind outcome_bind].
  right. exists (state_account h). eexists _, _, eff, _, _. split; cycle 1.
  { fold b. rewrite state_previous_balance_old. reflexivity. }
  split; [| by left; apply not_validated | by apply negb_false_iff | | | done | done | done];
    cycle 1.
  { intros Hn. rewrite (info_missing _ _ Hn) in Hpos. left. simpl in *. lia. }
  { destruct eff; simpl in He |- *; destruct_and?; simplify_eq; auto. }
  apply (state_valid_step h s w
    (BlockDetails (sc_epoch c) (sc_is_send c) (sc_is_receive c) false)); done || lia.
Qed.

(** *** Epoch *)

Lemma epoch_signer_ok lnk :
  is_epoch_link constants lnk = true → ∃ signer, epoch_signer constants lnk = Ok signer.
Proof using.
  unfold is_epoch_link, epoch_signer. intros Hl.
  destruct (proj1 (is_epoch_link_epoch _ _) Hl) as [e He]. rewrite He. simpl.
  destruct (epochs_epoch_signer _ _ _ He) as [k ->]. by exists k.
Qed.

Lemma epoch_commit_apply h s w e t1 t2 :
  let b := state_block h s w in
  block_hash b ≠ 0 →
  state_balance h = ai_balance (account_info_or_default L (state_account h)) →
  (state_previous h ≠ 0 → is_Some (st_blocks (lg_store L) !! state_previous h)) →
  epoch_block_commit L h s w e t1 t2 =
  Ok (apply_block L b (state_sideband h t1 (BlockDetails e false false true) epoch_0)
        (state_account h) (state_new_info h (block_hash b) t2 e)
        (st_pending (lg_store L)) (lc_rep_weights (lg_cache L))).
Proof using HL.
  intros b Hnz Hbal Hprev. unfold epoch_block_commit. fold b.
  rewrite block_put_new; cycle 1.
  { simpl. intros Hp. apply Hprev. lia. }
  cbn [mbind outcome_bind]. rewrite <- Hbal.
  rewrite state_finish by done. unfold apply_block, with_store.
  destruct (st_accounts (lg_store L) !! state_account h); simpl; do 2 f_equal;
    by destruct (lg_cache L).
Qed.

Lemma epoch_step h s w v t1 t2 :
  let b := state_block h s w in
  block_wf b → block_hash b ≠ 0 → is_epoch_link constants (state_link h) = true →
  (state_previous h ≠ 0 → is_Some (st_blocks (lg_store L) !! state_previous h)) →
  step_result L b v (epoch_block_impl constants L h s w v t1 t2).
Proof using HL.
  intros b (_ & _ & _ & _ & _ & Hwf & _) Hnz Hlink Hprev.
  unfold epoch_block_impl. fold b. pass_guard.
  destruct (epoch_signer_ok _ Hlink) as [signer Hsig]. rewrite Hsig. cbn [mbind outcome_bind].
  do 2 pass_guard.
  destruct (decide (epoch_position L h = progress)) as [Hc | Hc];
    [| rewrite bool_decide_false by done; by apply step_reject].
  rewrite bool_decide_true by done. cbn [negb].
  destruct (proj1 (is_epoch_link_epoch _ _) Hlink) as [e ->]. cbn [mbind outcome_bind of_option].
  do 3 pass_guard.
  assert (Hbal : state_balance h = ai_balance (account_info_or_default L (state_account h))) by lia.
  erewrite epoch_commit_apply by done. cbn [mbind outcome_bind].
  right. exists (state_account h). eexists _, _, Idle, _, _. split; cycle 1.
  { fold b. rewrite state_previous_balance_old. reflexivity. }
  assert (Hpos : (∀ i, st_accounts (lg_store L) !! state_account h = Some i →
                   state_previous h = ai_head i) ∧
                 state_representative h =
                 ai_representative (account_info_or_default L (state_account h))).
  { revert Hc. unfold epoch_position, account_info_or_default, account_get.
    destruct (st_accounts (lg_store L) !! state_account h) as [i |]; simpl; intros Hc.
    - split; [intros ? [= <-] |]; repeat case_match; try done; lia.
    - split; [done |]. repeat case_match; try done; lia. }
  destruct Hpos as [Hpos Hrep].
  split; [| right; split_and!; try done; exists signer; by split; [| apply not_validated] |
           by apply negb_false_iff | by right | by right | done | done | done].
  assert (Ha : (state_account h =? 0) = false) by done.
  split; try done; unfold state_new_info, state_sideband; simpl.
  - intros Hp. apply Hprev. lia.
  - lia.
  - lia.
  - unfold account_calculated. simpl. by rewrite Ha.
  - intros r. unfold rep_balance. simpl. rewrite Hrep, Hbal.
    case_decide; symmetry; rewrite wrap128_small; try lia.
    all: pose proof (inv_weight_range L HL r); unfold is_u128 in *; lia.
Qed.

Lemma state_visit_step h s w v t1 t2 :
  let b := state_block h s w in
  block_wf b → block_hash b ≠ 0 →
  step_result L b v (processor_state_block constants L h s w v t1 t2).
Proof using HL.
  intros b Hwf Hnz. unfold processor_state_block.
  destruct (is_epoch_link constants (state_link h)) eqn:Hlink; [| by apply state_step].
  destruct (epoch_signer_ok _ Hlink) as [signer Hsig].
  unfold validate_epoch_block. rewrite Hsig. fold b.
  destruct (state_previous h =? 0) eqn:Hp0; cbn [negb mbind outcome_bind].
  { rewrite bool_decide_true by done.
    destruct (state_balance h =? 0); [apply epoch_step; by lia || done | by apply state_step]. }
  destruct (block_exists (lg_store L) (state_previous h)) eqn:Hp.
  - apply bool_decide_eq_true in Hp as [e He].
    unfold balance, store_balance, block_get. rewrite Hp0, He. simpl.
    destruct (state_balance h =? _); [| by apply state_step]. apply epoch_step; done.
  - cbn [mbind outcome_bind]. repeat case_match; simplify_eq/=;
      try (rewrite bool_decide_false by done); by apply step_reject.
Qed.

(** The whole visitor. *)
Lemma visit_step b v t1 t2 :
  block_wf b → block_hash b ≠ 0 →
  step_result L b v (processor_visit constants L b v t1 t2).
Proof using HL.
  intros Hwf Hnz. destruct b; simpl.
  - by apply send_step.
  - by apply receive_step.
  - by apply open_step.
  - by apply change_step.
  - by apply state_visit_step.
Qed.

(** [ledger::process] rejects the block and changes nothing, or appends it. *)
Lemma process_step b v t1 t2 :
  block_wf b → block_hash b ≠ 0 →
  (∃ r, process constants L b v t1 t2 = Ok (r, L) ∧ pr_code r ≠ progress) ∨
  (∃ a sb new eff w v', accepted L b v a sb new eff w ∧
     process constants L b v t1 t2 =
     Ok (ProcessReturn progress v' (Some (ai_balance (account_info_or_default L a))),
         step_block L b sb a new eff w)).
Proof using HL.
  intros Hwf Hnz. unfold process.
  destruct (visit_step b v t1 t2 Hwf Hnz) as
    [(r & -> & Hr) | (a & sb & new & eff & w & v' & Hacc & ->)]; simpl.
  - left. exists r. by rewrite bool_decide_false.
  - right. by exists a, sb, new, eff, w, v'.
Qed.
End branch.
End steps.
