(* ===== verification/LedgerTheorems.v ===== *)
(** * What block processing guarantees

    The properties of [ledger::process] over any sequence of blocks: it never
    ends the process, a rejected block leaves no trace, the coin supply and the
    delegated weights are exact, nothing moves without the owner's signature, a
    send is received once, and of two blocks that compete for a root one is
    refused.  The last part relates the ledger to an abstract account book. *)

From S2P Require Import Prelude Blocks BlockCodec Common RepWeights EpochsWork Store Ledger.
From S2P Require Import LedgerApply LedgerInvariant LedgerSteps.

(** ** Runs *)

Section runs.
Context `{Crypto} (constants : ledger_constants).

(** One call of [ledger::process] with a block that fits its C++ types and
    whose digest is not the reserved value 0. *)
Inductive ledger_step (L L' : ledger) : Prop :=
| ledger_step_process b v t1 t2 r :
    block_wf b → block_hash b ≠ 0 →
    process constants L b v t1 t2 = Ok (r, L') → ledger_step L L'.

(** The genesis block: an open block of a real account. *)
Definition genesis_ok : Prop :=
  match lk_genesis constants with
  | open_block h _ _ => open_account h ≠ 0
  | _ => False
  end ∧ block_hash (lk_genesis constants) ≠ 0.

(** The ledgers a node can reach from a new database by processing blocks. *)
Inductive reachable : ledger → Prop :=
| reachable_init t1 t2 L :
    genesis_ok → initialize constants t1 t2 = Ok L → reachable L
| reachable_step L L' : reachable L → ledger_step L L' → reachable L'.

Lemma initialize_ok t1 t2 : genesis_ok → ∃ L, initialize constants t1 t2 = Ok L ∧ ledger_inv L.
Proof.
  intros [Hg Hnz]. unfold initialize, genesis_sideband.
  destruct (lk_genesis constants) as [| | h s w | |] eqn:Eg; try done.
  set (b := open_block h s w) in *. cbn [account]. unfold block_put. simpl.
  eexists. split; [reflexivity |].
  assert (Hz : (open_account h =? 0) = false) by lia.
  split; simpl.
  - intros a i. rewrite lookup_insert_Some. intros [[<- <-] | [_ ?]]; [| by simplify_map_eq].
    split; try done. simpl. eexists. rewrite !lookup_insert_eq.
    split_and!; try done. unfold account_calculated. simpl. by rewrite Hz.
  - intros k a. rewrite lookup_insert_Some. intros [[<- <-] | [_ ?]]; [| by simplify_map_eq].
    eexists _, _. rewrite !lookup_insert_eq. done.
  - intros k e. rewrite lookup_insert_Some. intros [[<- <-] | [_ ?]]; [| by simplify_map_eq].
    split_and!; try done. unfold account_calculated. simpl. rewrite Hz. simpl.
    rewrite lookup_insert_eq. by eexists.
  - set_solver.
  - intros k p ?. by simplify_map_eq.
  - unfold supply. simpl. rewrite sum_map_insert, !sum_map_empty by done. done.
  - intros r. rewrite sum_map_insert, sum_map_empty by done. unfold rep_balance. simpl.
    unfold representation_put. rewrite rw_get_put. repeat case_decide; simplify_eq; done.
  - rewrite map_size_insert_None by done. done.
  - rewrite map_size_insert_None by done. done.
  - by rewrite sum_map_insert, sum_map_empty by done.
  - by rewrite sum_map_insert, sum_map_empty by done.
Qed.

Lemma ledger_step_cases L L' :
  ledger_inv L → ledger_step L L' →
  L' = L ∨ ∃ b v a sb new eff w,
    accepted constants L b v a sb new eff w ∧ L' = step_block L b sb a new eff w.
Proof.
  intros HL [b v t1 t2 r Hwf Hnz Hp].
  destruct (process_step constants L HL b v t1 t2 Hwf Hnz)
    as [(r' & Hr & _) | (a & sb & new & eff & w & v' & Hacc & Hr)];
    rewrite Hr in Hp; simplify_eq; [by left | right; by eauto 10].
Qed.

Lemma ledger_step_inv L L' : ledger_inv L → ledger_step L L' → ledger_inv L'.
Proof.
  intros HL Hs. destruct (ledger_step_cases L L' HL Hs)
    as [-> | (b & v & a & sb & new & eff & w & Hacc & ->)]; [done |].
  apply step_block_inv; [done | apply Hacc].
Qed.

Lemma ledger_steps_inv L L' : ledger_inv L → rtc ledger_step L L' → ledger_inv L'.
Proof. intros HL Hs. induction Hs; [done |]. eauto using ledger_step_inv. Qed.

Lemma reachable_inv L : reachable L → ledger_inv L.
Proof.
  induction 1 as [t1 t2 L Hg Hi | L L' _ IH Hs]; [| by eapply ledger_step_inv].
  destruct (initialize_ok t1 t2 Hg) as (L0 & Hi' & Hinv). rewrite Hi in Hi'. by simplify_eq.
Qed.

(** A property that every accepted block keeps holds along a run. *)
Lemma rtc_ledger_step_ind (P : ledger → Prop) L L' :
  (∀ L b v a sb new eff w, ledger_inv L → P L → accepted constants L b v a sb new eff w →
     P (step_block L b sb a new eff w)) →
  ledger_inv L → P L → rtc ledger_step L L' → P L'.
Proof.
  intros Hstep HL HP Hs. induction Hs as [L | L L1 L2 Hs1 _ IH]; [done |].
  apply IH; [by eapply ledger_step_inv |].
  destruct (ledger_step_cases L L1 HL Hs1) as [-> | (b & v & a & sb & new & eff & w & Hacc & ->)];
    [done | by eapply Hstep].
Qed.

(** *** Monotone facts *)

Lemma step_exists L b v a sb new eff w k :
  accepted constants L b v a sb new eff w →
  block_or_pruned_exists L k = true →
  block_or_pruned_exists (step_block L b sb a new eff w) k = true.
Proof.
  intros Hacc Hk. pose proof (ac_step _ _ _ _ _ _ _ _ _ Hacc) as HV.
  apply exists_true. simpl. rewrite new_blocks_is_Some by (by eapply step_fresh || apply HV).
  apply exists_true in Hk. tauto.
Qed.

Lemma step_exists_self L b v a sb new eff w :
  accepted constants L b v a sb new eff w →
  block_or_pruned_exists (step_block L b sb a new eff w) (block_hash b) = true.
Proof.
  intros Hacc. pose proof (ac_step _ _ _ _ _ _ _ _ _ Hacc) as HV.
  apply exists_true. simpl. rewrite new_blocks_is_Some by (by eapply step_fresh || apply HV). auto.
Qed.

(** [k] is the hash of a stored block that is no head (any more). *)
Definition buried (L : ledger) (k : Z) : Prop :=
  block_or_pruned_exists L k = true ∧
  ∀ a i, st_accounts (lg_store L) !! a = Some i → ai_head i ≠ k.

Lemma step_buried L b v a sb new eff w k :
  accepted constants L b v a sb new eff w → buried L k →
  buried (step_block L b sb a new eff w) k.
Proof.
  intros Hacc [Hk Hh]. split; [by eapply step_exists |].
  pose proof (ac_step _ _ _ _ _ _ _ _ _ Hacc) as HV. intros a' i'. simpl.
  rewrite lookup_insert_Some. intros [[_ <-] | [_ Hi]]; [| by eapply Hh].
  rewrite (vs_head _ _ _ _ _ _ _ HV). intros <-. by rewrite (vs_fresh _ _ _ _ _ _ _ HV) in Hk.
Qed.

(** The root of an accepted block is taken: its account is open, and its
    predecessor is no head. *)
Definition root_taken (L : ledger) (b : block) : Prop :=
  if has_predecessor b then buried L (previous b)
  else is_Some (st_accounts (lg_store L) !! root b).

(** A block without predecessor has its account as root. *)
Lemma first_block_root L b sb a new eff w :
  valid_step L b sb a new eff w → has_predecessor b = false → root b = a ∧ previous b = 0.
Proof.
  intros HV. pose proof (vs_account _ _ _ _ _ _ _ HV) as Ha.
  pose proof (vs_entry_account _ _ _ _ _ _ _ HV) as He. unfold account_calculated in He.
  destruct b; simpl in *; try done; intros Hp.
  - destruct (_ =? 0) in He; simpl in He; [lia | done].
  - assert (Hz : (state_previous h =? 0) = true) by lia. rewrite Hz.
    split; [| lia]. destruct (_ =? 0) in He; simpl in He; [lia | done].
Qed.

Lemma accepted_root_taken L b v a sb new eff w :
  ledger_inv L → accepted constants L b v a sb new eff w →
  is_Some (st_accounts (lg_store L) !! a) ∨ is_epoch_link constants (link b) = false →
  root_taken (step_block L b sb a new eff w) b.
Proof.
  intros HL Hacc Hopen. pose proof (ac_step _ _ _ _ _ _ _ _ _ Hacc) as HV.
  unfold root_taken. destruct (has_predecessor b) eqn:Hp.
  - split.
    + eapply step_exists; [done |]. apply exists_true. right. by apply HV.
    + intros a' i'. simpl. rewrite lookup_insert_Some.
      assert (is_Some (st_accounts (lg_store L) !! a)) as [i Hi].
      { destruct Hopen as [? | Hl]; [done |].
        destruct (st_accounts (lg_store L) !! a) eqn:Ha; [done |].
        destruct (ac_first _ _ _ _ _ _ _ _ _ Hacc Ha) as [Hf | [Hf _]]; congruence. }
      pose proof (vs_position _ _ _ _ _ _ _ HV i Hi) as Hpos.
      intros [[_ <-] | [Hne Hi']].
      * rewrite (vs_head _ _ _ _ _ _ _ HV). intros He.
        destruct (vs_prev _ _ _ _ _ _ _ HV Hp) as [e Hpe]. rewrite <- He in Hpe.
        by rewrite (step_fresh L b sb a new eff w HV) in Hpe.
      * rewrite Hpos. intros He. by apply Hne, (inv_heads_distinct L HL a i a' i').
  - simpl. rewrite lookup_insert_is_Some'. left. symmetry. by eapply first_block_root.
Qed.

Lemma step_root_taken L b v a sb new eff w b0 :
  accepted constants L b v a sb new eff w → root_taken L b0 →
  root_taken (step_block L b sb a new eff w) b0.
Proof.
  intros Hacc. unfold root_taken. destruct (has_predecessor b0); [by eapply step_buried |].
  intros Hs. simpl. rewrite lookup_insert_is_Some'. auto.
Qed.

(** No block is accepted at a taken root. *)
Lemma root_taken_refused L b v a sb new eff w b0 :
  ledger_inv L → accepted constants L b v a sb new eff w →
  qualified_root b = qualified_root b0 →
  is_Some (st_accounts (lg_store L) !! a) ∨ is_epoch_link constants (link b) = false →
  ¬ root_taken L b0.
Proof.
  intros HL Hacc. unfold qualified_root. intros [= Hr Hp] Hopen Ht.
  pose proof (ac_step _ _ _ _ _ _ _ _ _ Hacc) as HV.
  assert (Hfirst : previous b = 0 → has_predecessor b = false).
  { intros Hz. destruct (has_predecessor b) eqn:Hb; [| done].
    destruct (vs_prev _ _ _ _ _ _ _ HV Hb) as [e He]. rewrite Hz in He.
    by rewrite (inv_block_zero L HL) in He. }
  unfold root_taken in Ht. rewrite <- Hr, <- Hp in Ht.
  destruct (has_predecessor b0) eqn:Hb0.
  - destruct Ht as [Hex Hhead].
    assert (is_Some (st_accounts (lg_store L) !! a)) as [i Hi].
    { destruct Hopen as [? | Hl]; [done |].
      destruct (st_accounts (lg_store L) !! a) eqn:Ha; [done |].
      destruct (ac_first _ _ _ _ _ _ _ _ _ Hacc Ha) as [Hf | [Hf _]]; [| congruence].
      destruct (first_block_root _ _ _ _ _ _ _ HV Hf) as [_ Hz].
      rewrite Hz, (inv_exists_zero L HL) in Hex. done. }
    apply (Hhead a i Hi). symmetry. by apply HV.
  - assert (Hz : previous b = 0).
    { rewrite Hp. destruct b0; simpl in *; try done. lia. }
    destruct (first_block_root _ _ _ _ _ _ _ HV (Hfirst Hz)) as [Hra _].
    rewrite Hra in Ht. destruct Ht as [i Hi].
    pose proof (vs_position _ _ _ _ _ _ _ HV i Hi) as Hpos.
    apply (ao_head _ _ _ (inv_accounts L HL _ _ Hi)). congruence.
Qed.
End runs.

(** ** Theorems *)

Section guarantees.
Context `{Crypto} (constants : ledger_constants).
Implicit Types L : ledger.

(** C1: On a reachable ledger, processing any well-formed block with a non-zero hash
    ends without hitting a release assertion; a code other than progress leaves
    store and cache untouched, and progress adds the block, absent before, as the
    head of one account with matching balance and height, and reports the balance
    that account had. *)
Theorem process_total_and_atomic L b v t1 t2 :
  reachable constants L → block_wf b → block_hash b ≠ 0 →
  ∃ r L', process constants L b v t1 t2 = Ok (r, L') ∧
    (pr_code r ≠ progress → L' = L) ∧
    (pr_code r = progress →
     ∃ a i sb, block_get (lg_store L) (block_hash b) = None ∧
       block_get (lg_store L') (block_hash b) = Some (b, sb) ∧ sb_successor sb = 0 ∧
       account_get (lg_store L') a = Some i ∧ ai_head i = block_hash b ∧
       account_calculated (b, sb) = a ∧ balance_calculated (b, sb) = ai_balance i ∧
       sb_height sb = ai_block_count i ∧
       pr_previous_balance r = Some (ai_balance (account_info_or_default L a))).
Proof.
  intros HL%reachable_inv Hwf Hnz.
  destruct (process_step constants L HL b v t1 t2 Hwf Hnz)
    as [(r & -> & Hr) | (a & sb & new & eff & w & v' & Hacc & ->)].
  - exists r, L. done.
  - eexists _, _. split; [done |]. split; [done |]. intros _.
    pose proof (ac_step _ _ _ _ _ _ _ _ _ Hacc) as HV.
    exists a, new, (sideband_stored (block_type_of b) sb). pose proof HV as [].
    split_and!; try done; simpl.
    + by eapply step_fresh.
    + apply new_blocks_self; [by eapply step_fresh | done].
    + apply lookup_insert_eq.
Qed.

(** C2: On every ledger reachable from genesis, account balances and pending amounts
    together are exactly the genesis amount, so no accepted block creates or
    destroys coins. *)
Theorem coin_supply_conserved L :
  reachable constants L →
  sum_map ai_balance (st_accounts (lg_store L)) + sum_map pi_amount (st_pending (lg_store L)) =
    genesis_amount ∧
  (∀ a i, account_get (lg_store L) a = Some i → 0 <= ai_balance i <= genesis_amount) ∧
  (∀ k p, pending_get (lg_store L) k = Some p → 0 <= pi_amount p <= genesis_amount).
Proof.
  intros HL%reachable_inv. split_and!.
  - apply (inv_supply L HL).
  - intros a i Hi. pose proof (inv_balance_le L HL _ _ Hi). pose proof (inv_sums L HL). lia.
  - intros k p Hp. pose proof (inv_pending_range L HL _ _ Hp) as Hr.
    unfold is_u128, genesis_amount, u128_max in *. lia.
Qed.

(** C7: The cached weight of a representative is, on every reachable ledger, the sum
    of the balances of the accounts that name it. *)
Theorem representative_weights_exact L r :
  reachable constants L →
  representation_get (lc_rep_weights (lg_cache L)) r =
    sum_map (λ i, if decide (ai_representative i = r) then ai_balance i else 0)
      (st_accounts (lg_store L)).
Proof. intros HL%reachable_inv. apply (inv_weights L HL). Qed.

(** C4: An accepted block changes the account table at one account only. Either that
    account signed the block, and only pending entries of that account or created by
    the block change, or the epoch signer did, and pending entries, balance and
    representative are unchanged. *)
Theorem changes_are_authorised L b v t1 t2 r L' :
  reachable constants L → block_wf b → block_hash b ≠ 0 →
  process constants L b v t1 t2 = Ok (r, L') → pr_code r = progress →
  ∃ a,
    (∀ a', a' ≠ a → account_get (lg_store L') a' = account_get (lg_store L) a') ∧
    (authorised v sv_valid a b ∧
       (∀ k, pending_get (lg_store L') k ≠ pending_get (lg_store L) k →
          k.1 = a ∨ k.2 = block_hash b)
     ∨ (∃ signer, epoch_signer constants (link b) = Ok signer ∧
                  authorised v sv_valid_epoch signer b) ∧
       st_pending (lg_store L') = st_pending (lg_store L) ∧
       ai_balance (account_info_or_default L' a) = ai_balance (account_info_or_default L a) ∧
       ai_representative (account_info_or_default L' a) =
         ai_representative (account_info_or_default L a)).
Proof.
  intros HL%reachable_inv Hwf Hnz Hp Hr.
  destruct (process_step constants L HL b v t1 t2 Hwf Hnz)
    as [(r' & Hp' & ?) | (a & sb & new & eff & w & v' & Hacc & Hp')];
    rewrite Hp' in Hp; simplify_eq.
  exists a. split; [intros; by apply lookup_insert_ne |].
  destruct (ac_signed _ _ _ _ _ _ _ _ _ Hacc) as [Hs | (_ & Hs & -> & Hb & Hrep)].
  - left. split; [done |]. intros k. unfold pending_get; simpl. destruct eff; simpl; [| | done].
    + intros Hk. right. destruct (decide (k = (dest, block_hash b))) as [-> | Hne]; [done |].
      by rewrite lookup_insert_ne in Hk.
    + intros Hk. left. destruct (decide (k = (a, src))) as [-> | Hne]; [done |].
      by rewrite lookup_delete_ne in Hk.
  - right. unfold account_info_or_default at 1 3, account_get; simpl.
    rewrite lookup_insert_eq. done.
Qed.

(** C6: A pending entry consumed by an accepted block never comes back in any later
    ledger reached by processing, so a send is received at most once. *)
Theorem send_received_at_most_once L b v t1 t2 r L' a s p L'' :
  reachable constants L → block_wf b → block_hash b ≠ 0 →
  process constants L b v t1 t2 = Ok (r, L') →
  pending_get (lg_store L) (a, s) = Some p → pending_get (lg_store L') (a, s) = None →
  rtc (ledger_step constants) L' L'' →
  pending_get (lg_store L'') (a, s) = None.
Proof.
  intros HL%reachable_inv Hwf Hnz Hpr Hp Hn Hrun.
  assert (Hstep : ledger_step constants L L') by (by apply (ledger_step_process constants L L' b v t1 t2 r)).
  pose proof (ledger_step_inv constants _ _ HL Hstep) as HL'.
  assert (Hex : block_or_pruned_exists L' s = true).
  { apply (inv_pending L HL) in Hp as [_ Hp]. simpl in Hp.
    destruct (ledger_step_cases constants L L' HL Hstep)
      as [-> | (? & ? & ? & ? & ? & ? & ? & Hacc & ->)]; [done | by eapply step_exists]. }
  enough (pending_get (lg_store L'') (a, s) = None ∧ block_or_pruned_exists L'' s = true) by tauto.
  revert Hrun.
  apply (rtc_ledger_step_ind constants
    (λ L, pending_get (lg_store L) (a, s) = None ∧ block_or_pruned_exists L s = true)); [| done..].
  intros L0 b0 v0 a0 sb new eff w _ [Hn0 Hex0] Hacc.
  split; [| by eapply step_exists].
  pose proof (ac_step _ _ _ _ _ _ _ _ _ Hacc) as HV. unfold pending_get in *; simpl.
  destruct eff; simpl; [| rewrite lookup_delete_None; by right | done].
  rewrite lookup_insert_ne; [done |]. intros [= _ He].
  pose proof (vs_fresh _ _ _ _ _ _ _ HV) as Hf. congruence.
Qed.

(** C5: Once a block that is no epoch block is accepted, no later ledger reached by
    processing accepts a block with the same qualified root that is no epoch block,
    signed or not: a fork is refused without any change. *)
Theorem conflicting_root_refused L b v t1 t2 r L' L'' b' v' t1' t2' :
  reachable constants L → block_wf b → block_hash b ≠ 0 → block_wf b' → block_hash b' ≠ 0 →
  process constants L b v t1 t2 = Ok (r, L') → pr_code r = progress →
  rtc (ledger_step constants) L' L'' →
  qualified_root b' = qualified_root b →
  is_epoch_link constants (link b) = false → is_epoch_link constants (link b') = false →
  ∃ r', process constants L'' b' v' t1' t2' = Ok (r', L'') ∧ pr_code r' ≠ progress.
Proof.
  intros HL%reachable_inv Hwf Hnz Hwf' Hnz' Hp Hr Hrun Hroot Hl Hl'.
  assert (Hstep : ledger_step constants L L') by (by apply (ledger_step_process constants L L' b v t1 t2 r)).
  pose proof (ledger_step_inv constants _ _ HL Hstep) as HL'.
  destruct (process_step constants L HL b v t1 t2 Hwf Hnz)
    as [(r0 & Hp' & ?) | (a & sb & new & eff & w & vv & Hacc & Hp')];
    rewrite Hp' in Hp; simplify_eq.
  assert (Ht : root_taken L'' b).
  { revert Hrun. apply (rtc_ledger_step_ind constants (λ L, root_taken L b)); [| done |].
    - intros. by eapply step_root_taken.
    - eapply accepted_root_taken; eauto. }
  pose proof (ledger_steps_inv constants _ _ HL' Hrun) as HL''.
  destruct (process_step constants L'' HL'' b' v' t1' t2' Hwf' Hnz')
    as [(r0 & Hp'' & ?) | (a0 & sb0 & new0 & eff0 & w0 & vv0 & Hacc0 & _)]; [by eauto |].
  exfalso. apply (root_taken_refused constants _ _ _ _ _ _ _ _ b HL'' Hacc0); try done; [| by right].
  unfold qualified_root. congruence.
Qed.

(** The derived tables and counters agree with the chains on every reachable
    ledger: the frontier table has exactly the heads of legacy kinds, every account
    head is a block of that account with its balance, height and epoch, and the
    block and account counts are the sizes of the tables. *)
Theorem ledger_indices_exact L :
  reachable constants L →
  (∀ k a, a ≠ 0 → frontier_get (lg_store L) k = a ↔
     ∃ i b sb, account_get (lg_store L) a = Some i ∧ ai_head i = k ∧
       block_get (lg_store L) k = Some (b, sb) ∧ block_type_of b ≠ bt_state) ∧
  (∀ a i, account_get (lg_store L) a = Some i →
     ∃ b sb, block_get (lg_store L) (ai_head i) = Some (b, sb) ∧
       account_calculated (b, sb) = a ∧ balance_calculated (b, sb) = ai_balance i ∧
       sb_height sb = ai_block_count i ∧ details_epoch (sb_details sb) = ai_epoch i) ∧
  lc_block_count (lg_cache L) = wrap64 (Z.of_nat (block_count_of (lg_store L) + pruned_count (lg_store L))) ∧
  lc_account_count (lg_cache L) = wrap64 (Z.of_nat (size (st_accounts (lg_store L)))).
Proof.
  intros HL%reachable_inv. split_and!; [| | apply HL..].
  - intros k a Ha. split.
    + intros Hf. rewrite <- Hf in Ha |- *. apply frontier_get_nonzero in Ha as Hk.
      apply (inv_frontiers L HL) in Hk as (i & [b sb] & Hi & Hh & He & Hl).
      exists i, b, sb. split_and!; try done. simpl in Hl. unfold is_legacy in Hl.
      intros Ht. by rewrite Ht in Hl.
    + intros (i & b & sb & Hi & <- & Hb & Ht).
      destruct (ao_entry _ _ _ (inv_accounts L HL _ _ Hi)) as (e & He & _ & _ & _ & _ & Hl).
      unfold block_get in Hb. rewrite He in Hb. simplify_eq. unfold frontier_get.
      rewrite Hl; [done |]. simpl. unfold is_legacy. by rewrite bool_decide_false.
  - intros a i Hi.
    destruct (ao_entry _ _ _ (inv_accounts L HL _ _ Hi)) as ([b sb] & He & ? & ? & ? & ? & _).
    by exists b, sb.
Qed.
End guarantees.
