(* ===== verification/AccountBook.v ===== *)
(** * The ledger as an account book

    The abstract contract of the block lattice: a book of balances, delegations
    and receivable amounts, changed by transactions of one account.  Every
    accepted block is one transaction of the book ([process_refines_book]), and
    a well-formed transaction offered as a state block is accepted
    ([state_send_accepted], [state_receive_accepted]). *)

From S2P Require Import Prelude Blocks BlockCodec Common RepWeights EpochsWork Store Ledger.
From S2P Require Import LedgerApply LedgerInvariant LedgerSteps LedgerTheorems.

(** ** The abstract machine *)

Record book := Book {
  bk_balance : gmap Z Z;
  bk_delegate : gmap Z Z;
  bk_receivable : gmap pending_key Z;
}.

Inductive transfer : Type :=
| Pay (dest id amount : Z)
| Take (id : Z)
| Keep.

(** A transaction: the account, the delegate it names, what it moves. *)
Record book_tx := BookTx { tx_account : Z; tx_delegate : Z; tx_transfer : transfer }.

Definition book_exec (bk : book) (tx : book_tx) : option book :=
  let a := tx_account tx in
  let bal := default 0 (bk_balance bk !! a) in
  let set_account bal' :=
    Book (<[a := bal']> (bk_balance bk)) (<[a := tx_delegate tx]> (bk_delegate bk)) in
  match tx_transfer tx with
  | Pay dest id amount =>
      if (0 <=? amount) && (amount <=? bal) && bool_decide (bk_receivable bk !! (dest, id) = None)
      then Some (set_account (bal - amount) (<[(dest, id) := amount]> (bk_receivable bk)))
      else None
  | Take id =>
      amount ← bk_receivable bk !! (a, id);
      Some (set_account (bal + amount) (delete (a, id) (bk_receivable bk)))
  | Keep => Some (set_account bal (bk_receivable bk))
  end.

(** The total of a book does not depend on what is executed. *)
Definition book_total (bk : book) : Z :=
  sum_map id (bk_balance bk) + sum_map id (bk_receivable bk).

Lemma book_exec_total bk tx bk' : book_exec bk tx = Some bk' → book_total bk' = book_total bk.
Proof.
  assert (Hset : ∀ m a (v : Z), sum_map id (<[a := v]> m) =
                                sum_map id m - default 0 ((m : gmap Z Z) !! a) + v).
  { intros m a v. destruct (m !! a) as [x |] eqn:Hx; simpl.
    - by rewrite (sum_map_update _ _ _ x).
    - rewrite sum_map_insert by done. unfold id. lia. }
  unfold book_exec, book_total. destruct tx as [a d [dest i amount | i |]]; simpl.
  - destruct (_ && _ && _) eqn:Hg; intros; simplify_eq; simpl.
    rewrite !andb_true_iff, bool_decide_eq_true in Hg. destruct Hg as [_ Hg].
    rewrite Hset, sum_map_insert by done. unfold id. lia.
  - destruct (bk_receivable bk !! (a, i)) as [amount |] eqn:Hr; intros; simplify_eq/=.
    rewrite Hset, (sum_map_delete _ _ _ amount) by done. unfold id. lia.
  - intros; simplify_eq/=. rewrite Hset. lia.
Qed.

(** ** Abstraction *)

Definition book_of (L : ledger) : book :=
  Book (ai_balance <$> st_accounts (lg_store L)) (ai_representative <$> st_accounts (lg_store L))
    (pi_amount <$> st_pending (lg_store L)).

Definition transfer_of (hash : Z) (eff : effect) : transfer :=
  match eff with
  | Spend dest amount _ => Pay dest hash amount
  | Collect src _ => Take src
  | Idle => Keep
  end.

Section refinement.
Context `{Crypto} (constants : ledger_constants).

Lemma book_of_balance L a :
  default 0 (bk_balance (book_of L) !! a) = ai_balance (account_info_or_default L a).
Proof.
  unfold book_of, account_info_or_default, account_get; simpl. rewrite lookup_fmap.
  by destruct (st_accounts (lg_store L) !! a).
Qed.

Lemma step_block_book L b sb a new eff w :
  ledger_inv L → valid_step L b sb a new eff w →
  book_exec (book_of L) (BookTx a (ai_representative new) (transfer_of (block_hash b) eff)) =
  Some (book_of (step_block L b sb a new eff w)).
Proof.
  intros HL HV. pose proof (vs_balance _ _ _ _ _ _ _ HV) as Hb.
  pose proof (vs_effect _ _ _ _ _ _ _ HV) as He.
  pose proof (vs_range _ _ _ _ _ _ _ HV) as [Hpos _].
  pose proof (step_pending_fresh L HL b sb a new eff w HV) as Hfresh.
  unfold book_exec. cbn [tx_account tx_delegate tx_transfer]. rewrite book_of_balance.
  assert (Hnew : book_of (step_block L b sb a new eff w) =
    Book (<[a := ai_balance new]> (bk_balance (book_of L)))
      (<[a := ai_representative new]> (bk_delegate (book_of L)))
      (pi_amount <$> apply_effect eff a (block_hash b) (st_pending (lg_store L))))
    by (unfold book_of; simpl; by rewrite !fmap_insert).
  rewrite Hnew, Hb. destruct eff; simpl in *.
  - rewrite lookup_fmap, Hfresh, bool_decide_true by done.
    replace (0 <=? amount) with true by lia.
    replace (amount <=? _) with true by lia. simpl. by rewrite fmap_insert.
  - rewrite lookup_fmap, He. simpl. by rewrite fmap_delete.
  - by rewrite Z.add_0_r.
Qed.

(** C3: Processing a block refines the abstract account book: an accepted block is
    one transfer (pay, take or keep) of the book of balances, delegates and pending
    entries, made by the account that signed it or, for an epoch block, one that
    keeps balance and delegate; a refused block is no transfer. *)
Theorem process_refines_book L b v t1 t2 :
  reachable constants L → block_wf b → block_hash b ≠ 0 →
  ∃ r L', process constants L b v t1 t2 = Ok (r, L') ∧
    (pr_code r ≠ progress → book_of L' = book_of L) ∧
    (pr_code r = progress →
     ∃ tx, book_exec (book_of L) tx = Some (book_of L') ∧
       (authorised v sv_valid (tx_account tx) b ∨
        is_epoch_link constants (link b) = true ∧ tx_transfer tx = Keep ∧
        tx_delegate tx = default 0 (bk_delegate (book_of L) !! tx_account tx))).
Proof.
  intros HL%reachable_inv Hwf Hnz.
  destruct (process_step constants L HL b v t1 t2 Hwf Hnz)
    as [(r & -> & Hr) | (a & sb & new & eff & w & v' & Hacc & ->)].
  - by exists r, L.
  - eexists _, _. split; [done |]. split; [done |]. intros _.
    exists (BookTx a (ai_representative new) (transfer_of (block_hash b) eff)).
    split; [by apply step_block_book, Hacc |].
    destruct (ac_signed _ _ _ _ _ _ _ _ _ Hacc) as [Hs | (Hl & _ & -> & _ & Hrep)]; [by left |].
    right. simpl. split_and!; [done.. |]. rewrite Hrep, lookup_fmap.
    unfold account_info_or_default, account_get.
    by destruct (st_accounts (lg_store L) !! a).
Qed.

(** ** Acceptance *)

(** What every state block on an open account needs. *)
Record state_offer (L : ledger) (h : state_hashables) (s w : Z) (i : account_info) : Prop := {
  so_account : account_get (lg_store L) (state_account h) = Some i;
  so_previous : state_previous h = ai_head i;
  so_fresh : block_or_pruned_exists L (block_hash (state_block h s w)) = false;
  so_signature :
    validate_message (state_account h) (block_hash (state_block h s w)) s = false;
  so_plain : is_epoch_link constants (state_link h) = false;
}.

(** Checks that end in [progress] lead to the transaction they describe. *)
Lemma state_offer_accepted L h s w i t1 t2 c :
  ledger_inv L → block_hash (state_block h s w) ≠ 0 → is_u128 (state_balance h) →
  state_offer L h s w i →
  state_link_check L h (state_position L h) = c → sc_code c = progress →
  sufficient_work (lk_work constants) (state_block h s w)
    (BlockDetails (sc_epoch c) (sc_is_send c) (sc_is_receive c) false) = true →
  ∃ r L' eff, process constants L (state_block h s w) sv_unknown t1 t2 = Ok (r, L') ∧
    pr_code r = progress ∧ state_effect h c eff ∧
    book_exec (book_of L)
      (BookTx (state_account h) (state_representative h)
         (transfer_of (block_hash (state_block h s w)) eff)) = Some (book_of L').
Proof.
  intros HL Hnz Hu [] Hc Hcode Hwork. unfold process. simpl. unfold processor_state_block.
  rewrite so_plain0. simpl. unfold state_block_impl. rewrite so_fresh0, so_signature0, Hc. simpl.
  pose proof (ao_account _ _ _ (inv_accounts L HL _ _ so_account0)) as Ha.
  rewrite (proj2 (Z.eqb_neq _ _) Ha), Hcode, bool_decide_true, Hwork by done. simpl.
  rewrite <- Hc in Hcode.
  destruct (state_checks_progress L h Hcode) as (eff & He & Hok & Hbal & Hprev & Hpos).
  rewrite Hc in He. rewrite (state_commit_apply L HL h s w c eff) by done. simpl.
  eexists _, _, eff. split_and!; [done.. |].
  apply (step_block_book L (state_block h s w) _ (state_account h)
    (state_new_info L h (block_hash (state_block h s w)) t2 (sc_epoch c)) eff
    (state_weights L h)); [done |].
  apply (state_valid_step L HL h s w
    (BlockDetails (sc_epoch c) (sc_is_send c) (sc_is_receive c) false)); done.
Qed.

(** The position check succeeds on the head of an open account. *)
Lemma state_position_head L h s w i :
  ledger_inv L → state_offer L h s w i →
  state_position L h =
    let send := state_balance h <? ai_balance i in
    StateChecks progress (ai_epoch i) epoch_0 send (negb send && negb (state_link h =? 0))
      (if send then ai_balance i - state_balance h else state_balance h - ai_balance i).
Proof.
  intros HL []. unfold state_position. rewrite so_account0, so_previous0.
  pose proof (inv_accounts L HL _ _ so_account0) as Hok.
  rewrite (proj2 (Z.eqb_neq _ _) (ao_head _ _ _ Hok)), Z.eqb_refl.
  destruct (ao_entry _ _ _ Hok) as (e & He & _). unfold block_exists.
  by rewrite He, bool_decide_true.
Qed.

(** A signed state block at the head of its account with enough work and a
    smaller balance is accepted and moves exactly the difference into a pending
    entry of the destination. *)
Theorem state_send_accepted L h s w i t1 t2 :
  reachable constants L → block_hash (state_block h s w) ≠ 0 → state_offer L h s w i →
  0 <= state_balance h < ai_balance i →
  sufficient_work (lk_work constants) (state_block h s w)
    (BlockDetails (ai_epoch i) true false false) = true →
  ∃ r L', process constants L (state_block h s w) sv_unknown t1 t2 = Ok (r, L') ∧
    pr_code r = progress ∧
    book_exec (book_of L)
      (BookTx (state_account h) (state_representative h)
         (Pay (state_link h) (block_hash (state_block h s w)) (ai_balance i - state_balance h))) =
    Some (book_of L').
Proof.
  intros HL%reachable_inv Hnz Ho Hbal Hwork.
  pose proof (inv_accounts L HL _ _ (so_account _ _ _ _ _ Ho)) as [_ _ _ [_ Hmax] _].
  assert (Hc : state_link_check L h (state_position L h) =
               StateChecks progress (ai_epoch i) epoch_0 true false (ai_balance i - state_balance h)).
  { rewrite (state_position_head L h s w i HL Ho).
    by rewrite (proj2 (Z.ltb_lt _ _) (proj2 Hbal)). }
  destruct (state_offer_accepted L h s w i t1 t2 _ HL Hnz ltac:(split; lia) Ho Hc)
    as (r & L' & eff & Hp & Hr & He & Hbk); [done.. |].
  exists r, L'. split_and!; [done.. |]. destruct eff; simpl in He; destruct_and?; by simplify_eq.
Qed.

(** A signed state block at the head of its account whose link is a pending
    entry of that account, with the balance raised by that amount, is accepted and
    consumes the entry. *)
Theorem state_receive_accepted L h s w i p t1 t2 :
  reachable constants L → block_hash (state_block h s w) ≠ 0 → state_offer L h s w i →
  state_link h ≠ 0 → pending_get (lg_store L) (state_account h, state_link h) = Some p →
  state_balance h = ai_balance i + pi_amount p →
  sufficient_work (lk_work constants) (state_block h s w)
    (BlockDetails (Z.max (ai_epoch i) (pi_epoch p)) false true false) = true →
  ∃ r L', process constants L (state_block h s w) sv_unknown t1 t2 = Ok (r, L') ∧
    pr_code r = progress ∧
    book_exec (book_of L)
      (BookTx (state_account h) (state_representative h) (Take (state_link h))) =
    Some (book_of L').
Proof.
  intros HL%reachable_inv Hnz Ho Hlink Hp Hbal Hwork.
  pose proof (inv_pending L HL _ _ Hp) as [Hp0 Hex]. simpl in Hex.
  pose proof (inv_receivable_fits L HL _ _ _ _ Hp (so_account _ _ _ _ _ Ho)) as Hfit.
  assert (Hc : state_link_check L h (state_position L h) =
               StateChecks progress (Z.max (ai_epoch i) (pi_epoch p)) (pi_epoch p) false true
                 (state_balance h - ai_balance i)).
  { rewrite (state_position_head L h s w i HL Ho).
    replace (state_balance h <? ai_balance i) with false by lia.
    unfold state_link_check. simpl. rewrite (proj2 (Z.eqb_neq _ _) Hlink), Hex, Hp. simpl.
    by replace (_ =? pi_amount p) with true by lia. }
  destruct (state_offer_accepted L h s w i t1 t2 _ HL Hnz ltac:(by rewrite Hbal) Ho Hc)
    as (r & L' & eff & Hpr & Hr & He & Hbk); [done.. |].
  exists r, L'. split_and!; [done.. |]. destruct eff; simpl in He; destruct_and?; by simplify_eq.
Qed.
End refinement.
