(* ===== verification/Rollback.v ===== *)
(** * Rolling blocks back ([secure/ledger.cpp], [secure/store.cpp])

    [ledger::rollback] and its [rollback_visitor], with the walk of the
    [representative_visitor] it uses.  The loops have fuel: a [run] ends with a
    value, by a crash (null dereference or failed [release_assert]), or without
    fuel.  [clock h] is the reading of [seconds_since_epoch] made while block
    [h] is rolled back. *)

From S2P Require Import Prelude Blocks BlockCodec Common RepWeights EpochsWork Store Ledger.

(** ** Computations with fuel *)

Inductive run_result (A : Type) : Type :=
| Done (a : A)
| Crashed
| OutOfFuel.
Arguments Done {A} a.
Arguments Crashed {A}.
Arguments OutOfFuel {A}.

#[export] Instance run_ret : MRet run_result := λ A a, Done a.
#[export] Instance run_bind : MBind run_result := λ A B k m,
  match m with Done a => k a | Crashed => Crashed | OutOfFuel => OutOfFuel end.

(** An aborting computation as a run. *)
Definition lift {A} (o : outcome A) : run_result A :=
  match o with Ok a => Done a | Aborted => Crashed end.

Section rollback.
Context `{Crypto} (constants : ledger_constants) (clock : Z → Z).

(** ** Queries *)

(** [representative_visitor::compute]: down the chain to the block that names
    the representative. *)
Fixpoint representative_compute (fuel : nat) (s : store) (current : Z) : run_result Z :=
  match fuel with
  | O => OutOfFuel
  | S fuel =>
      '(b, _) ← lift (of_option (block_get s current));
      match b with
      | send_block _ _ _ | receive_block _ _ _ => representative_compute fuel s (previous b)
      | open_block _ _ _ | change_block _ _ _ | state_block _ _ _ =>
          if block_hash b =? 0 then representative_compute fuel s current
          else Done (block_hash b)
      end
  end.

(** [ledger::representative]; the walk visits each block once at most. *)
Definition ledger_representative (L : ledger) (hash_a : Z) : run_result Z :=
  representative_compute (S (size (st_blocks (lg_store L)))) (lg_store L) hash_a.

(** [ledger::amount (hash)]. *)
Definition amount (L : ledger) (hash_a : Z) : outcome Z :=
  '(b, _) ← of_option (block_get (lg_store L) hash_a);
  block_balance ← balance L hash_a;
  previous_balance ← balance L (previous b);
  Ok (if previous_balance <? block_balance then block_balance - previous_balance
      else previous_balance - block_balance).

(** [ledger::account_safe]; the error flag is not looked at by its callers here. *)
Definition account_safe (L : ledger) (hash_a : Z) : outcome Z :=
  if negb (lg_pruning L) then block_account (lg_store L) hash_a
  else Ok (from_option account_calculated 0 (block_get (lg_store L) hash_a)).

(** [ledger::latest]. *)
Definition latest (L : ledger) (account_a : Z) : Z :=
  from_option ai_head 0 (account_get (lg_store L) account_a).

(** ** The visitor *)

(** The list of rolled back blocks and the ledger. *)
Definition rollback_out : Type := bool * ledger * list block_w_sideband.

(** [while (!error && !(pending entry there)) error = rollback (latest (dest))]. *)
Fixpoint unreceive (rb : ledger → Z → list block_w_sideband → run_result rollback_out)
    (fuel : nat) (there : ledger → bool) (dest : Z) (L : ledger)
    (list_a : list block_w_sideband) : run_result rollback_out :=
  match fuel with
  | O => OutOfFuel
  | S fuel =>
      if there L then Done (false, L, list_a) else
      '(error, L, list_a) ← rb L (latest L dest) list_a;
      if (error : bool) then Done (true, L, list_a)
      else unreceive rb fuel there dest L list_a
  end.

(** [rollback_visitor::send_block]. *)
Definition rollback_send_block
    (rb : ledger → Z → list block_w_sideband → run_result rollback_out) (fuel : nat)
    (L : ledger) (h : send_hashables) (hash : Z) (list_a : list block_w_sideband) :
    run_result rollback_out :=
  let key := (send_destination h, hash) in
  '(error, L, list_a) ←
    unreceive rb fuel (λ L, bool_decide (is_Some (pending_get (lg_store L) key)))
      (send_destination h) L list_a;
  if (error : bool) then Done (true, L, list_a) else
  pending ← lift (of_option (pending_get (lg_store L) key));
  let info := account_info_or_default L (pi_source pending) in
  s ← lift (pending_del (lg_store L) key);
  let L := set_rep_weights (λ w, representation_add w (ai_representative info)
                                   (pi_amount pending)) (with_store s L) in
  balance ← lift (balance L (send_previous h));
  L ← lift (update_account L (pi_source pending) info
        (AccountInfo (send_previous h) (ai_representative info) (ai_open_block info) balance
           (clock hash) (wrap64 (ai_block_count info - 1)) epoch_0));
  s ← lift (block_del (lg_store L) hash);
  s ← lift (frontier_del s hash);
  let s := frontier_put s (send_previous h) (pi_source pending) in
  s ← lift (block_successor_clear s (send_previous h));
  Done (false, with_store s L, list_a).

(** [rollback_visitor::receive_block]. *)
Definition rollback_receive_block (L : ledger) (h : receive_hashables) (hash : Z) : run_result ledger :=
  amount ← lift (amount L hash);
  destination_account ← lift (block_account (lg_store L) hash);
  source_account ← lift (account_safe L (receive_source h));
  let info := account_info_or_default L destination_account in
  let L := set_rep_weights (λ w, representation_add w (ai_representative info)
                                   (wrap128 (0 - amount))) L in
  balance ← lift (balance L (receive_previous h));
  L ← lift (update_account L destination_account info
        (AccountInfo (receive_previous h) (ai_representative info) (ai_open_block info) balance
           (clock hash) (wrap64 (ai_block_count info - 1)) epoch_0));
  s ← lift (block_del (lg_store L) hash);
  let s := pending_put s (destination_account, receive_source h)
             (PendingInfo source_account amount epoch_0) in
  s ← lift (frontier_del s hash);
  let s := frontier_put s (receive_previous h) destination_account in
  s ← lift (block_successor_clear s (receive_previous h));
  Done (with_store s L).

(** [rollback_visitor::open_block]. *)
Definition rollback_open_block (L : ledger) (h : open_hashables) (hash : Z) : run_result ledger :=
  amount ← lift (amount L hash);
  destination_account ← lift (block_account (lg_store L) hash);
  source_account ← lift (account_safe L (open_source h));
  let L := set_rep_weights (λ w, representation_add w (open_representative h)
                                   (wrap128 (0 - amount))) L in
  L ← lift (update_account L destination_account default_account_info default_account_info);
  s ← lift (block_del (lg_store L) hash);
  let s := pending_put s (destination_account, open_source h)
             (PendingInfo source_account amount epoch_0) in
  s ← lift (frontier_del s hash);
  Done (with_store s L).

(** [rollback_visitor::change_block]. *)
Definition rollback_change_block (L : ledger) (h : change_hashables) (hash : Z) : run_result ledger :=
  rep_block ← ledger_representative L (change_previous h);
  account ← lift (block_account (lg_store L) (change_previous h));
  let info := account_info_or_default L account in
  balance ← lift (balance L (change_previous h));
  '(rb, _) ← lift (of_option (block_get (lg_store L) rep_block));
  let L := set_rep_weights (λ w, representation_add_dual w (change_representative h)
             (wrap128 (0 - balance)) (representative rb) balance) L in
  s ← lift (block_del (lg_store L) hash);
  let L := with_store s L in
  L ← lift (update_account L account info
        (AccountInfo (change_previous h) (representative rb) (ai_open_block info)
           (ai_balance info) (clock hash) (wrap64 (ai_block_count info - 1)) epoch_0));
  s ← lift (frontier_del (lg_store L) hash);
  let s := frontier_put s (change_previous h) account in
  s ← lift (block_successor_clear s (change_previous h));
  Done (with_store s L).

(** [rollback_visitor::state_block], first part: the representative before the
    block, and the weights moved back to it. *)
Definition rollback_state_weights (L : ledger) (h : state_hashables) (balance : Z) :
    run_result (Z * ledger) :=
  rep_block_hash ← (if negb (state_previous h =? 0)
                    then ledger_representative L (state_previous h) else Done 0);
  if negb (rep_block_hash =? 0) then
    '(rb, _) ← lift (of_option (block_get (lg_store L) rep_block_hash));
    Done (representative rb,
          set_rep_weights (λ w, representation_add_dual w (representative rb) balance
            (state_representative h) (wrap128 (0 - state_balance h))) L)
  else
    Done (0, set_rep_weights (λ w, representation_add w (state_representative h)
                                     (wrap128 (0 - state_balance h))) L).

(** Second part: the pending entry.  The error of a nested rollback is a local
    variable in the source: it ends the loop but not the visitor. *)
Definition rollback_state_pending
    (rb : ledger → Z → list block_w_sideband → run_result rollback_out) (fuel : nat)
    (L : ledger) (h : state_hashables) (source_epoch : epoch) (hash balance : Z)
    (list_a : list block_w_sideband) : run_result (ledger * list block_w_sideband) :=
  let error := bool_decide (account_get (lg_store L) (state_account h) = None) in
  if state_balance h <? balance then
    let key := (state_link h, hash) in
    '(_, L, list_a) ←
      (if (error : bool) then Done (true, L, list_a) else
       unreceive rb fuel (λ L, pending_exists (lg_store L) key) (state_link h) L list_a);
    s ← lift (pending_del (lg_store L) key);
    Done (with_store s L, list_a)
  else if negb (state_link h =? 0) && negb (is_epoch_link constants (state_link h)) then
    source_account ← lift (account_safe L (state_link h));
    Done (with_store (pending_put (lg_store L) (state_account h, state_link h)
            (PendingInfo source_account (wrap128 (state_balance h - balance)) source_epoch)) L,
          list_a)
  else Done (L, list_a).

(** The whole visitor method; [info] is read before the pending entry is
    restored. *)
Definition rollback_state_block
    (rb : ledger → Z → list block_w_sideband → run_result rollback_out) (fuel : nat)
    (L : ledger) (h : state_hashables) (source_epoch : epoch) (hash : Z)
    (list_a : list block_w_sideband) : run_result rollback_out :=
  balance ← lift (balance L (state_previous h));
  '(representative, L) ← rollback_state_weights L h balance;
  let info := account_info_or_default L (state_account h) in
  '(L, list_a) ← rollback_state_pending rb fuel L h source_epoch hash balance list_a;
  let previous_version := block_version (lg_store L) (state_previous h) in
  L ← lift (update_account L (state_account h) info
        (AccountInfo (state_previous h) representative (ai_open_block info) balance (clock hash)
           (wrap64 (ai_block_count info - 1)) previous_version));
  s ← (match block_get (lg_store L) (state_previous h) with
       | Some (pb, _) =>
           s ← lift (block_successor_clear (lg_store L) (state_previous h));
           Done (if block_type_code (block_type_of pb) <? block_type_code bt_state
                 then frontier_put s (state_previous h) (state_account h) else s)
       | None => Done (lg_store L)
       end);
  s ← lift (block_del s hash);
  Done (false, with_store s L, list_a).

(** [block->visit (rollback)]. *)
Definition rollback_visit
    (rb : ledger → Z → list block_w_sideband → run_result rollback_out) (fuel : nat)
    (L : ledger) (e : block_w_sideband) (list_a : list block_w_sideband) : run_result rollback_out :=
  let hash := block_hash e.1 in
  match e.1 with
  | send_block h _ _ => rollback_send_block rb fuel L h hash list_a
  | receive_block h _ _ => L ← rollback_receive_block L h hash; Done (false, L, list_a)
  | open_block h _ _ => L ← rollback_open_block L h hash; Done (false, L, list_a)
  | change_block h _ _ => L ← rollback_change_block L h hash; Done (false, L, list_a)
  | state_block h _ _ => rollback_state_block rb fuel L h (sb_source_epoch e.2) hash list_a
  end.

(** ** The loop *)

(** The body of [ledger::rollback] once account and height of the target are
    known; [info] is the variable that survives from one round to the next. *)
Fixpoint rollback_loop (fuel : nat) (account_l block_account_height block_a : Z)
    (info : account_info) (L : ledger) (list_a : list block_w_sideband) : run_result rollback_out :=
  match fuel with
  | O => OutOfFuel
  | S fuel =>
      if negb (block_exists (lg_store L) block_a) then Done (false, L, list_a) else
      if ch_height (confirmation_height_get (lg_store L) account_l) <? block_account_height then
        let info := default info (account_get (lg_store L) account_l) in
        e ← lift (of_option (block_get (lg_store L) (ai_head info)));
        '(error, L, list_a) ←
          rollback_visit
            (λ L hash_a list_a,
               account_l ← lift (block_account (lg_store L) hash_a);
               height ← lift (account_height (lg_store L) hash_a);
               rollback_loop fuel account_l height hash_a default_account_info L list_a)
            fuel L e (list_a ++ [e]);
        if (error : bool) then Done (true, L, list_a)
        else rollback_loop fuel account_l block_account_height block_a info
               (set_block_count (λ n, wrap64 (n - 1)) L) list_a
      else Done (true, L, list_a)
  end.

(** [ledger::rollback]. *)
Definition rollback (fuel : nat) (L : ledger) (block_a : Z) (list_a : list block_w_sideband) :
    run_result rollback_out :=
  account_l ← lift (block_account (lg_store L) block_a);
  height ← lift (account_height (lg_store L) block_a);
  rollback_loop fuel account_l height block_a default_account_info L list_a.
End rollback.
