(* ===== verification/RollbackTheorems.v ===== *)
(** * What rolling back guarantees

    Rolling the last block of an account back restores the ledger the block was
    applied to, up to the timestamps of the account entries and the way the
    weight table represents a weight of zero ([ledger_equiv]); a block at or
    below the confirmation height is never rolled back.  The chain invariant
    adds to [ledger_inv] what the undo needs: heads have no successor, the walk
    to the block that names the representative ends at the right block, and
    pending entries name the account of their send. *)

From S2P Require Import Prelude Blocks BlockCodec Common RepWeights EpochsWork Store Ledger.
From S2P Require Import LedgerApply LedgerInvariant LedgerSteps LedgerTheorems AccountBook.
From S2P Require Import Rollback.

(** ** Equivalence of ledgers *)

(** Account entries up to the time of their last change. *)
Definition account_equiv (i j : account_info) : Prop :=
  ai_head i = ai_head j ∧ ai_representative i = ai_representative j ∧
  ai_open_block i = ai_open_block j ∧ ai_balance i = ai_balance j ∧
  ai_block_count i = ai_block_count j ∧ ai_epoch i = ai_epoch j.

Record ledger_equiv (L1 L2 : ledger) : Prop := {
  eqv_blocks : st_blocks (lg_store L1) = st_blocks (lg_store L2);
  eqv_accounts : ∀ a, option_Forall2 account_equiv
    (st_accounts (lg_store L1) !! a) (st_accounts (lg_store L2) !! a);
  eqv_pending : st_pending (lg_store L1) = st_pending (lg_store L2);
  eqv_frontiers : st_frontiers (lg_store L1) = st_frontiers (lg_store L2);
  eqv_pruned : st_pruned (lg_store L1) = st_pruned (lg_store L2);
  eqv_confirmation :
    st_confirmation_height (lg_store L1) = st_confirmation_height (lg_store L2);
  eqv_weights : ∀ r, rw_get (lc_rep_weights (lg_cache L1)) r =
    rw_get (lc_rep_weights (lg_cache L2)) r;
  eqv_cemented : lc_cemented_count (lg_cache L1) = lc_cemented_count (lg_cache L2);
  eqv_block_count : lc_block_count (lg_cache L1) = lc_block_count (lg_cache L2);
  eqv_pruned_count : lc_pruned_count (lg_cache L1) = lc_pruned_count (lg_cache L2);
  eqv_account_count : lc_account_count (lg_cache L1) = lc_account_count (lg_cache L2);
  eqv_canary : lc_final_votes_canary (lg_cache L1) = lc_final_votes_canary (lg_cache L2);
  eqv_pruning : lg_pruning L1 = lg_pruning L2;
}.

#[export] Instance account_equiv_equivalence : Equivalence account_equiv.
Proof.
  split; unfold account_equiv.
  - done.
  - intros ???. naive_solver.
  - intros ????[]; naive_solver congruence.
Qed.

#[export] Instance ledger_equiv_equivalence : Equivalence ledger_equiv.
Proof.
  split.
  - intros L. split; try done.
  - intros L1 L2 []. split; done || (intros a; by symmetry).
  - intros L1 L2 L3 [] []. split; try congruence.
    intros a. etransitivity; [apply eqv_accounts0 | apply eqv_accounts1].
Qed.

(** The account book does not see the difference. *)
#[export] Instance book_of_proper : Proper (ledger_equiv ==> eq) book_of.
Proof.
  intros L1 L2 []. unfold book_of. f_equal; [| | by rewrite eqv_pending0].
  - apply map_eq. intros a. rewrite !lookup_fmap.
    destruct (eqv_accounts0 a) as [i j (_ & _ & _ & Hb & _) |]; simpl; congruence.
  - apply map_eq. intros a. rewrite !lookup_fmap.
    destruct (eqv_accounts0 a) as [i j (_ & Hr & _) |]; simpl; congruence.
Qed.

(** ** The chain invariant *)

Section chain.
Context `{Crypto} (constants : ledger_constants).

(** [rep_at m n k r]: [r] is the block naming the representative at [k], [n]
    steps down the chain. *)
Inductive rep_at (m : gmap Z block_w_sideband) : nat → Z → Z → Prop :=
| rep_here k e : m !! k = Some e → names_representative e.1 = true → rep_at m 0 k k
| rep_prev n k e r : m !! k = Some e → names_representative e.1 = false →
    rep_at m n (previous e.1) r → rep_at m (S n) k r.

Lemma rep_at_compute s n k r fuel :
  (∀ k e, st_blocks s !! k = Some e → k ≠ 0 ∧ k = block_hash e.1) →
  rep_at (st_blocks s) n k r → (n < fuel)%nat → representative_compute fuel s k = Done r.
Proof.
  intros Hk Hr. revert fuel. induction Hr as [k [b sb] Hb Hn | n k [b sb] r Hb Hn _ IH];
    intros [| fuel] Hf; try lia; simpl; unfold block_get; rewrite Hb; simpl.
  - destruct (Hk _ _ Hb) as [Hz He]. simpl in He. rewrite He in Hz.
    destruct b; try done; rewrite (proj2 (Z.eqb_neq _ _) Hz); by rewrite He.
  - destruct b; try done; apply IH; lia.
Qed.

Lemma rep_at_mono m m' n k r :
  (∀ k e, m !! k = Some e → ∃ e', m' !! k = Some e' ∧ same_entry e e') →
  rep_at m n k r → rep_at m' n k r.
Proof.
  intros Hm Hr. induction Hr as [k e He Hn | n k e r He Hn _ IH];
    destruct (Hm _ _ He) as (e' & He' & Hs); rewrite <- (same_entry_block _ _ Hs) in *.
  - by eapply rep_here.
  - by eapply rep_prev.
Qed.

Record chain_inv (L : ledger) : Prop := {
  ci_inv : ledger_inv L;
  ci_successor : ∀ a i e, st_accounts (lg_store L) !! a = Some i →
    st_blocks (lg_store L) !! ai_head i = Some e → sb_successor e.2 = 0;
  ci_count : ∀ a i, st_accounts (lg_store L) !! a = Some i → is_u64 (ai_block_count i);
  ci_rep : ∀ a i, st_accounts (lg_store L) !! a = Some i →
    ∃ n r e, rep_at (st_blocks (lg_store L)) n (ai_head i) r ∧
      (n < size (st_blocks (lg_store L)))%nat ∧
      st_blocks (lg_store L) !! r = Some e ∧ representative e.1 = ai_representative i;
  ci_source : ∀ k p, st_pending (lg_store L) !! k = Some p →
    ∃ e, st_blocks (lg_store L) !! k.2 = Some e ∧ account_calculated e = pi_source p;
  ci_legacy : ∀ k e, st_blocks (lg_store L) !! k = Some e → is_legacy e.1 = true →
    details_epoch (sb_details e.2) = epoch_0;
  ci_previous : ∀ k e, st_blocks (lg_store L) !! k = Some e → has_predecessor e.1 = true →
    buried L (previous e.1);
}.

(** An epoch block for an unopened account has no predecessor.  The processor
    does not check this. *)
Definition epoch_open_ok (L : ledger) (b : block) : Prop :=
  is_epoch_link constants (link b) = true → account_get (lg_store L) (account b) = None →
  previous b = 0.

(** [initialize] credits the weight to the genesis account, whatever the block says. *)
Definition genesis_represents_itself : Prop :=
  representative (lk_genesis constants) = account (lk_genesis constants).

(** The ledgers reached without such an epoch block. *)
Inductive chain_reachable : ledger → Prop :=
| chain_init t1 t2 L :
    genesis_ok constants → genesis_represents_itself →
    initialize constants t1 t2 = Ok L → chain_reachable L
| chain_step L b v t1 t2 r L' :
    chain_reachable L → epoch_open_ok L b → block_wf b → block_hash b ≠ 0 →
    process constants L b v t1 t2 = Ok (r, L') → chain_reachable L'.

(** A block that starts the chain of its account has no predecessor. *)
Definition first_ok (L : ledger) (b : block) (a : Z) : Prop :=
  st_accounts (lg_store L) !! a = None → has_predecessor b = false.

Lemma legacy_stored_epoch b sb :
  is_legacy b = true →
  details_epoch (sb_details (sideband_stored (block_type_of b) sb)) = epoch_0.
Proof. by destruct b. Qed.

Lemma accepted_buries_previous L b v a sb new eff w :
  ledger_inv L → accepted constants L b v a sb new eff w → first_ok L b a →
  has_predecessor b = true → buried (step_block L b sb a new eff w) (previous b).
Proof.
  intros HL Hacc Hfirst Hp. pose proof (ac_step _ _ _ _ _ _ _ _ _ Hacc) as HV.
  destruct (st_accounts (lg_store L) !! a) as [i |] eqn:Ha; [| by rewrite (Hfirst Ha) in Hp].
  assert (Hroot : root_taken (step_block L b sb a new eff w) b)
    by (eapply accepted_root_taken; [done.. |]; left; by eexists).
  unfold root_taken in Hroot. by rewrite Hp in Hroot.
Qed.

(** An accepted block keeps the chain invariant, field by field. *)
Section chain_step.
Context L b v a sb new eff w (HC : chain_inv L) (Hacc : accepted constants L b v a sb new eff w)
  (Hfirst : first_ok L b a).

Local Abbreviation L' := (step_block L b sb a new eff w).

Local Lemma HV : valid_step L b sb a new eff w.
Proof using Hacc. exact (ac_step _ _ _ _ _ _ _ _ _ Hacc). Qed.

Local Lemma Hself :
  st_blocks (lg_store L') !! block_hash b = Some (b, sideband_stored (block_type_of b) sb).
Proof using Hacc.
  apply new_blocks_self; [eapply step_fresh; exact HV | apply (vs_prev _ _ _ _ _ _ _ HV)].
Qed.

Local Lemma Hother k e :
  st_blocks (lg_store L) !! k = Some e → ∃ e', st_blocks (lg_store L') !! k = Some e' ∧ same_entry e e'.
Proof using Hacc.
  apply new_blocks_other; [eapply step_fresh; exact HV | apply (vs_prev _ _ _ _ _ _ _ HV)].
Qed.

Local Lemma Hcases k e :
  st_blocks (lg_store L') !! k = Some e →
  (k = block_hash b ∧ e = (b, sideband_stored (block_type_of b) sb)) ∨
  ∃ e0, st_blocks (lg_store L) !! k = Some e0 ∧ same_entry e0 e.
Proof using Hacc.
  apply new_blocks_inv; [eapply step_fresh; exact HV | apply (vs_prev _ _ _ _ _ _ _ HV)].
Qed.

Lemma step_successor a' i' e :
  st_accounts (lg_store L') !! a' = Some i' → st_blocks (lg_store L') !! ai_head i' = Some e →
  sb_successor e.2 = 0.
Proof using HC Hacc Hfirst.
  pose proof (ci_inv L HC) as HL. simpl. rewrite lookup_insert_Some. intros [[<- <-] | [Hne Hi]].
  - rewrite (vs_head _ _ _ _ _ _ _ HV). pose proof Hself as Hb. simpl in Hb. rewrite Hb.
    intros [= <-]. simpl. apply HV.
  - destruct (ao_entry _ _ _ (inv_accounts L HL _ _ Hi)) as (e0 & He0 & _).
    pose proof (ci_successor L HC _ _ _ Hi He0) as Hsucc.
    pose proof (step_fresh L b sb a new eff w HV) as Hfresh.
    unfold new_blocks. destruct (has_predecessor b) eqn:Hp.
    + assert (previous b ≠ ai_head i').
      { destruct (st_accounts (lg_store L) !! a) as [i |] eqn:Ha; [| by rewrite (Hfirst Ha) in Hp].
        rewrite (vs_position _ _ _ _ _ _ _ HV i Ha).
        intros He. by apply Hne, (inv_heads_distinct L HL a i a' i'). }
      rewrite lookup_alter_ne, lookup_insert_ne, He0 by congruence. by intros [= <-].
    + rewrite lookup_insert_ne, He0 by congruence. by intros [= <-].
Qed.

Lemma step_rep a' i' :
  st_accounts (lg_store L') !! a' = Some i' →
  ∃ n r e, rep_at (st_blocks (lg_store L')) n (ai_head i') r ∧
    (n < size (st_blocks (lg_store L')))%nat ∧
    st_blocks (lg_store L') !! r = Some e ∧ representative e.1 = ai_representative i'.
Proof using HC Hacc Hfirst.
  pose proof (step_fresh L b sb a new eff w HV) as Hfresh.
  pose proof Hself as Hself. pose proof Hother as Hother. simpl in *.
  rewrite lookup_insert_Some, new_blocks_size by done. intros [[<- <-] | [_ Hi]].
  - rewrite (vs_head _ _ _ _ _ _ _ HV), (ac_rep _ _ _ _ _ _ _ _ _ Hacc).
    destruct (names_representative b) eqn:Hn.
    { exists 0%nat, (block_hash b), (b, sideband_stored (block_type_of b) sb).
      split_and!; [by eapply rep_here | lia | done | done]. }
    destruct (st_accounts (lg_store L) !! a) as [i |] eqn:Ha; cycle 1.
    { pose proof (Hfirst Ha) as Hp. by destruct b. }
    destruct (ci_rep L HC a i Ha) as (n & r & e & Hr & Hlen & He & Hre).
    destruct (Hother _ _ He) as (e' & He' & Hs).
    exists (S n), r, e'. split_and!; [| lia | done |].
    + eapply rep_prev; [done | done |]. simpl. rewrite (vs_position _ _ _ _ _ _ _ HV i Ha).
      by eapply rep_at_mono.
    + by rewrite (same_entry_block _ _ Hs), (info_existing _ _ _ Ha).
  - destruct (ci_rep L HC a' i' Hi) as (n & r & e & Hr & Hlen & He & Hre).
    destruct (Hother _ _ He) as (e' & He' & Hs).
    exists n, r, e'. split_and!; [by eapply rep_at_mono | lia | done |].
    by rewrite (same_entry_block _ _ Hs).
Qed.

Lemma step_source k p :
  st_pending (lg_store L') !! k = Some p →
  ∃ e, st_blocks (lg_store L') !! k.2 = Some e ∧ account_calculated e = pi_source p.
Proof using HC Hacc.
  intros Hp.
  assert (k.2 = block_hash b ∧ pi_source p = a ∨ st_pending (lg_store L) !! k = Some p)
    as [[-> ->] | Hp'].
  { destruct eff; simpl in Hp; [| apply lookup_delete_Some in Hp; tauto | by auto].
    apply lookup_insert_Some in Hp as [[<- <-] | [_ ?]]; auto. }
  - eexists. split; [apply Hself |]. apply HV.
  - destruct (ci_source L HC _ _ Hp') as (e & He & Hs).
    destruct (Hother _ _ He) as (e' & He' & Hsame).
    exists e'. by rewrite (same_entry_account _ _ Hsame).
Qed.

Lemma step_chain_inv : chain_inv L'.
Proof using HC Hacc Hfirst.
  pose proof (ci_inv L HC) as HL. split.
  - apply step_block_inv; [done | exact HV].
  - apply step_successor.
  - intros a' i'. simpl. rewrite lookup_insert_Some. intros [[<- <-] | [_ Hi]].
    + rewrite (vs_count _ _ _ _ _ _ _ HV). auto with widths.
    + by eapply ci_count.
  - apply step_rep.
  - apply step_source.
  - intros k e [[-> ->] | (e0 & He0 & Hs)]%Hcases Hl.
    + by apply legacy_stored_epoch.
    + rewrite (same_entry_details _ _ Hs). rewrite (same_entry_block _ _ Hs) in Hl.
      by apply (ci_legacy L HC _ _ He0).
  - intros k e [[-> ->] | (e0 & He0 & Hs)]%Hcases Hp.
    + simpl in Hp |- *. by eapply accepted_buries_previous.
    + rewrite (same_entry_block _ _ Hs) in Hp |- *.
      eapply step_buried; [exact Hacc |]. by apply (ci_previous L HC _ _ He0).
Qed.
End chain_step.

Lemma accepted_first_ok L b v a sb new eff w :
  accepted constants L b v a sb new eff w → epoch_open_ok L b → first_ok L b a.
Proof.
  intros Hacc Hep Ha. pose proof (ac_step _ _ _ _ _ _ _ _ _ Hacc) as HV.
  destruct (ac_first _ _ _ _ _ _ _ _ _ Hacc Ha) as [? | [Hl Hb]]; [done |].
  rewrite <- Hb in Ha. pose proof (Hep Hl Ha) as Hp. pose proof (vs_account _ _ _ _ _ _ _ HV).
  destruct b; simpl in *; try done; lia.
Qed.

Lemma initialize_chain t1 t2 L :
  genesis_ok constants → genesis_represents_itself →
  initialize constants t1 t2 = Ok L → chain_inv L.
Proof.
  unfold genesis_represents_itself. intros Hg Hself Hi. destruct (initialize_ok constants t1 t2 Hg) as (L0 & Hi' & HL).
  rewrite Hi in Hi'. simplify_eq. split; [done |..]; destruct Hg as [Hg Hnz];
    unfold initialize, genesis_sideband in Hi;
    destruct (lk_genesis constants) as [| | h s w | |] eqn:Eg; try done;
    unfold block_put in Hi; simpl in Hi; simplify_eq/=.
  - intros a i e. rewrite lookup_insert_Some. intros [[_ <-] | [_ ?]]; [| by simplify_map_eq].
    simpl. rewrite lookup_insert_eq. by intros [= <-].
  - intros a i. rewrite lookup_insert_Some. intros [[_ <-] | [_ ?]]; [done | by simplify_map_eq].
  - intros a i. rewrite lookup_insert_Some. intros [[_ <-] | [_ ?]]; [| by simplify_map_eq].
    simpl. eexists 0%nat, _, _. rewrite map_size_insert_None by done.
    split_and!; [eapply rep_here | simpl; lia | |]; rewrite ?lookup_insert_eq; done.
  - intros k p ?. by simplify_map_eq.
  - intros k e. rewrite lookup_insert_Some. intros [[_ <-] | [_ ?]]; [done | by simplify_map_eq].
  - intros k e. rewrite lookup_insert_Some. intros [[_ <-] | [_ ?]]; [done | by simplify_map_eq].
Qed.

Lemma chain_reachable_inv L : chain_reachable L → chain_inv L.
Proof.
  induction 1 as [t1 t2 L Hg Hi | L b v t1 t2 r L' _ IH Hep Hwf Hnz Hp].
  - by eapply initialize_chain.
  - destruct (process_step constants L (ci_inv L IH) b v t1 t2 Hwf Hnz)
      as [(r' & Hr & _) | (a & sb & new & eff & w & v' & Hacc & Hr)];
      rewrite Hr in Hp; simplify_eq; [done |].
    eapply step_chain_inv; [done.. |]. by eapply accepted_first_ok.
Qed.
End chain.

(** ** Undoing one block *)

Lemma effect_cases (eff : effect) :
  (∃ dest amt ep, eff = Spend dest amt ep) ∨ (∃ src p, eff = Collect src p) ∨ eff = Idle.
Proof. destruct eff; eauto 10. Qed.

(** The effect of an accepted block, by kind. *)
Lemma ac_effect_send `{Crypto} constants L b v a sb new eff w h s k :
  accepted constants L b v a sb new eff w → b = send_block h s k →
  ∃ amount e, eff = Spend (send_destination h) amount e.
Proof. intros [_ _ _ _ He _ _] ->. destruct eff; simpl in He; subst; done || eauto. Qed.

Lemma ac_effect_receive `{Crypto} constants L b v a sb new eff w h s k :
  accepted constants L b v a sb new eff w → b = receive_block h s k →
  ∃ p, eff = Collect (receive_source h) p ∧ pi_epoch p = epoch_0.
Proof. intros [_ _ _ _ He _ _] ->. destruct eff; simpl in He; try done. destruct He; subst; eauto. Qed.

Lemma ac_effect_open `{Crypto} constants L b v a sb new eff w h s k :
  accepted constants L b v a sb new eff w → b = open_block h s k →
  ∃ p, eff = Collect (open_source h) p ∧ pi_epoch p = epoch_0.
Proof. intros [_ _ _ _ He _ _] ->. destruct eff; simpl in He; try done. destruct He; subst; eauto. Qed.

Lemma ac_effect_change `{Crypto} constants L b v a sb new eff w h s k :
  accepted constants L b v a sb new eff w → b = change_block h s k → eff = Idle.
Proof. intros [_ _ _ _ He _ _] ->. by destruct eff. Qed.

Section undo.
Context `{Crypto} (constants : ledger_constants) (clock : Z → Z).
Context (L : ledger) (HC : chain_inv L).
Context (b : block) (v : signature_verification) (a : Z) (sb : block_sideband)
  (new : account_info) (eff : effect) (w : rep_weights).
Context (Hacc : accepted constants L b v a sb new eff w) (Hfirst : first_ok L b a).

Local Abbreviation L' := (step_block L b sb a new eff w).
Local Abbreviation m := (st_blocks (lg_store L)).
Local Abbreviation m' := (new_blocks m b sb).
Local Abbreviation e := (b, sideband_stored (block_type_of b) sb).
Local Abbreviation old := (account_info_or_default L a).

Lemma undo_valid : valid_step L b sb a new eff w.
Proof using Hacc. apply Hacc. Qed.

Lemma undo_fresh : m !! block_hash b = None.
Proof using Hacc. exact (step_fresh L b sb a new eff w undo_valid). Qed.

Lemma undo_self : m' !! block_hash b = Some e.
Proof using Hacc. exact (new_blocks_self _ b sb undo_fresh (vs_prev _ _ _ _ _ _ _ undo_valid)). Qed.

(** Either the block opens the account, or the account has a head. *)
Lemma undo_position :
  st_accounts (lg_store L) !! a = None ∧ has_predecessor b = false ∧ previous b = 0 ∨
  ∃ i pe, st_accounts (lg_store L) !! a = Some i ∧ previous b = ai_head i ∧ previous b ≠ 0 ∧
    has_predecessor b = true ∧ m !! previous b = Some pe ∧ sb_successor pe.2 = 0 ∧
    previous b ≠ block_hash b ∧ old = i ∧
    m' !! previous b = Some (pe.1, set_successor (block_hash b) pe.2) ∧
    balance_calculated pe = ai_balance i ∧ account_calculated pe = a ∧
    details_epoch (sb_details pe.2) = ai_epoch i ∧
    (is_legacy pe.1 = true ↔ st_frontiers (lg_store L) !! previous b = Some a) ∧
    (is_legacy pe.1 = false → st_frontiers (lg_store L) !! previous b = None).
Proof using HC Hacc Hfirst.
  pose proof (ci_inv L HC) as HL. pose proof undo_valid as HV.
  destruct (st_accounts (lg_store L) !! a) as [i |] eqn:Hi.
  - right. pose proof (inv_accounts L HL _ _ Hi) as Hok.
    pose proof (vs_position _ _ _ _ _ _ _ HV i Hi) as Hpos.
    destruct (ao_entry _ _ _ Hok) as (pe & Hpe & Ha & Hb & Hh & He & Hl).
    assert (Hnz : previous b ≠ 0) by (rewrite Hpos; apply Hok).
    assert (Hp : has_predecessor b = true).
    { destruct (has_predecessor b) eqn:Hp; [done |].
      by destruct (first_block_root _ _ _ _ _ _ _ HV Hp) as [_ ?]. }
    assert (Hne : previous b ≠ block_hash b).
    { pose proof undo_fresh. rewrite Hpos. congruence. }
    exists i, pe. rewrite Hpos in *. split_and!; try done.
    + by apply (ci_successor L HC a i).
    + by apply info_existing.
    + unfold new_blocks. rewrite Hp, Hpos, lookup_alter_eq, lookup_insert_ne, Hpe by done. done.
    + split; [done |]. intros Hf. apply (inv_frontiers L HL) in Hf as (i' & e' & _ & _ & He' & ?). congruence.
    + intros Hleg. destruct (st_frontiers (lg_store L) !! ai_head i) as [a' |] eqn:Hf; [| done].
      apply (inv_frontiers L HL) in Hf as (i' & e' & _ & _ & He' & ?). congruence.
  - left. pose proof (Hfirst Hi) as Hp. split_and!; [done | done |].
    by destruct (first_block_root _ _ _ _ _ _ _ HV Hp).
Qed.

(** *** Tables *)

Lemma undo_delete : delete (block_hash b) (new_blocks m b sb) =
  if has_predecessor b
  then alter (λ e, (e.1, set_successor (block_hash b) e.2)) (previous b) m else m.
Proof using HC Hacc Hfirst.
  pose proof undo_fresh as Hf. unfold new_blocks.
  destruct undo_position as [(_ & -> & _) | (i & pe & _ & _ & _ & -> & _ & _ & Hne & _)].
  - by rewrite delete_insert_eq, delete_id.
  - rewrite alter_insert_ne, delete_insert_eq by done. apply delete_id.
    by rewrite lookup_alter_ne.
Qed.

(** [block.del], then [successor_clear]. *)
Lemma undo_clear_after s :
  has_predecessor b = true → st_blocks s = delete (block_hash b) m' →
  block_successor_clear s (previous b) = Ok (set_blocks (λ _, m) s).
Proof using HC Hacc Hfirst.
  intros Hp Hs. rewrite undo_delete, Hp in Hs.
  destruct undo_position as [(_ & Hp' & _) | (i & pe & _ & _ & _ & _ & Hpe & Hsucc & _)];
    [congruence |].
  unfold block_successor_clear, block_set_successor. rewrite Hs, lookup_alter_eq, Hpe. simpl.
  unfold set_blocks. do 2 f_equal. rewrite Hs. apply map_eq. intros k.
  rewrite lookup_insert, lookup_alter. case_decide; simplify_eq.
  - rewrite Hpe. destruct pe as [pb []]. simpl in *. by subst.
  - done.
Qed.

(** [successor_clear], then [block.del]. *)
Lemma undo_clear_before s :
  has_predecessor b = true → st_blocks s = m' →
  block_successor_clear s (previous b) = Ok (set_blocks (λ _, <[block_hash b := e]> m) s).
Proof using HC Hacc Hfirst.
  intros Hp Hs.
  destruct undo_position as [(_ & Hp' & _) | (i & pe & _ & _ & _ & _ & Hpe & Hsucc & Hne & _ & Hpe' & _)];
    [congruence |].
  unfold block_successor_clear, block_set_successor. rewrite Hs, Hpe'.
  unfold set_blocks. do 2 f_equal. rewrite Hs. apply map_eq. intros k.
  unfold new_blocks. rewrite Hp, lookup_insert. case_decide; simplify_eq.
  - rewrite lookup_insert_ne, Hpe by done. destruct pe as [pb []]. simpl in *. by subst.
  - by rewrite lookup_alter_ne.
Qed.

Lemma undo_block_del s :
  is_Some (st_blocks s !! block_hash b) →
  block_del s (block_hash b) = Ok (set_blocks (delete (block_hash b)) s).
Proof using. intros [x Hx]. unfold block_del, checked_delete. by rewrite Hx. Qed.

(** *** Balances and weights *)

Lemma undo_balance L1 :
  st_blocks (lg_store L1) = m' → balance L1 (previous b) = Ok (ai_balance old).
Proof using HC Hacc Hfirst.
  intros Hs. unfold balance, store_balance, block_get. rewrite Hs.
  destruct undo_position as [(Ha & _ & ->) |
    (i & pe & _ & _ & Hnz & _ & _ & _ & _ & -> & Hpe' & Hb & _)].
  - by rewrite (info_missing _ _ Ha).
  - rewrite (proj2 (Z.eqb_neq _ _) Hnz), Hpe'. simpl. rewrite <- Hb. by destruct pe as [[] ?].
Qed.

Lemma undo_weight_range r : is_u128 (rw_get w r).
Proof using Hacc. rewrite (vs_weights _ _ _ _ _ _ _ undo_valid). auto with widths. Qed.

(** Subtracting what the entry gives now and adding what it gave before. *)
Lemma undo_weights w1 :
  (∀ r, rw_get w1 r = wrap128 (rw_get w r - rep_balance r new + rep_balance r old)) →
  ∀ r, rw_get w1 r = rw_get (lc_rep_weights (lg_cache L)) r.
Proof using HC Hacc.
  intros Hw r. rewrite Hw, (vs_weights _ _ _ _ _ _ _ undo_valid).
  pose proof (inv_weight_range L (ci_inv L HC) r) as Hr.
  set (x := rw_get (lc_rep_weights (lg_cache L)) r) in *.
  rewrite <- (wrap128_small x) at 2 by done.
  replace (wrap128 (x - rep_balance r old + rep_balance r new) - rep_balance r new + rep_balance r old)
    with (wrap128 (x - rep_balance r old + rep_balance r new) + (rep_balance r old - rep_balance r new))
    by lia.
  rewrite wrap128_add_l. f_equal. lia.
Qed.

(** *** Accounts and frontiers *)

Lemma undo_count i : st_accounts (lg_store L) !! a = Some i →
  wrap64 (ai_block_count new - 1) = ai_block_count i.
Proof using HC Hacc.
  intros Hi. rewrite (vs_count _ _ _ _ _ _ _ undo_valid), (info_existing _ _ _ Hi).
  replace (wrap64 (ai_block_count i + 1) - 1) with (wrap64 (ai_block_count i + 1) + -1) by lia.
  rewrite wrap64_add_l. replace (ai_block_count i + 1 + -1) with (ai_block_count i) by lia.
  apply wrap64_small. by apply (ci_count L HC a).
Qed.

(** The frontier table after a legacy block was undone. *)
Lemma undo_frontiers_legacy i :
  st_accounts (lg_store L) !! a = Some i → is_legacy b = true →
  <[previous b := a]> (delete (block_hash b)
    (new_frontiers (st_frontiers (lg_store L)) b a (ai_head old))) = st_frontiers (lg_store L).
Proof using HC Hacc.
  intros Hi Hl. rewrite (info_existing _ _ _ Hi). unfold new_frontiers. rewrite Hl.
  pose proof (ac_legacy _ _ _ _ _ _ _ _ _ Hacc Hl i Hi) as Hf.
  rewrite (vs_position _ _ _ _ _ _ _ undo_valid i Hi).
  rewrite delete_insert_eq. apply map_eq. intros k. rewrite lookup_insert.
  case_decide; simplify_eq; [done |].
  rewrite lookup_delete. case_decide; simplify_eq; [| by rewrite lookup_delete_ne].
  destruct (st_frontiers (lg_store L) !! block_hash b) as [a' |] eqn:Hf'; [| done].
  apply (inv_frontiers L (ci_inv L HC)) in Hf' as (? & ? & _ & _ & He & _).
  by rewrite undo_fresh in He.
Qed.

Lemma undo_accounts i inf :
  st_accounts (lg_store L) !! a = Some i → account_equiv inf i →
  ∀ a', option_Forall2 account_equiv
    (<[a := inf]> (<[a := new]> (st_accounts (lg_store L))) !! a') (st_accounts (lg_store L) !! a').
Proof using Hacc Hfirst.
  intros Hi Heq a'. rewrite insert_insert_eq, lookup_insert. case_decide; simplify_eq; [| done].
  rewrite Hi. by constructor.
Qed.

Lemma undo_accounts_new :
  st_accounts (lg_store L) !! a = None →
  delete a (<[a := new]> (st_accounts (lg_store L))) = st_accounts (lg_store L).
Proof using. intros Ha. by rewrite delete_insert_eq, delete_id. Qed.

Lemma undo_block_count :
  wrap64 (wrap64 (lc_block_count (lg_cache L) + 1) - 1) = lc_block_count (lg_cache L).
Proof using HC.
  rewrite (inv_block_count L (ci_inv L HC)). set (n := Z.of_nat _).
  replace (wrap64 (wrap64 n + 1) - 1) with (wrap64 (wrap64 n + 1) + -1) by lia.
  rewrite wrap64_add_l. replace (wrap64 n + 1 + -1) with (wrap64 n) by lia.
  apply wrap64_small. auto with widths.
Qed.

Lemma undo_account_count :
  wrap64 (wrap64 (lc_account_count (lg_cache L) + 1) - 1) = lc_account_count (lg_cache L).
Proof using HC.
  rewrite (inv_account_count L (ci_inv L HC)). set (n := Z.of_nat _).
  replace (wrap64 (wrap64 n + 1) - 1) with (wrap64 (wrap64 n + 1) + -1) by lia.
  rewrite wrap64_add_l. replace (wrap64 n + 1 + -1) with (wrap64 n) by lia.
  apply wrap64_small. auto with widths.
Qed.

Lemma undo_entry i rep bal t ep :
  st_accounts (lg_store L) !! a = Some i →
  rep = ai_representative i → bal = ai_balance i → ep = ai_epoch i →
  account_equiv
    (AccountInfo (previous b) rep (ai_open_block new) bal t (wrap64 (ai_block_count new - 1)) ep) i.
Proof using HC Hacc.
  intros Hi -> -> ->. split_and!; simpl; try done.
  - by apply (vs_position _ _ _ _ _ _ _ undo_valid).
  - by rewrite (vs_open _ _ _ _ _ _ _ undo_valid), Hi.
  - by apply undo_count.
Qed.

Lemma undo_legacy_epoch i :
  st_accounts (lg_store L) !! a = Some i → is_legacy b = true → ai_epoch i = epoch_0.
Proof using HC Hacc.
  intros Hi Hl. pose proof (ci_inv L HC) as HL.
  pose proof (ac_legacy _ _ _ _ _ _ _ _ _ Hacc Hl i Hi) as Hf.
  apply (inv_frontiers L HL) in Hf as (i' & pe & _ & _ & Hpe & Hpl).
  destruct (ao_entry _ _ _ (inv_accounts L HL _ _ Hi)) as (pe' & Hpe' & _ & _ & _ & <- & _).
  rewrite Hpe in Hpe'. simplify_eq. by apply (ci_legacy L HC (ai_head i)).
Qed.

(** The visitor on the block just applied. *)
Definition undone (out : run_result rollback_out) (l : list block_w_sideband) : Prop :=
  ∃ L1, out = Done (false, L1, l) ∧ ledger_equiv (set_block_count (λ n, wrap64 (n - 1)) L1) L.

(** The new weights of an undo, from the deltas of the weight table. *)
Ltac undo_delta Hold :=
  apply undo_weights; intros ?; rewrite Hold;
  rewrite ?rw_get_add_dual_delta, ?rw_get_add_delta by (intros; apply undo_weight_range);
  unfold rep_balance; simpl; repeat case_decide; simplify_eq;
  rewrite ?wrap128_add_m, ?wrap128_add_r; try (by apply wrap128_small, undo_weight_range);
  f_equal; simpl in *; try congruence; lia.

Lemma undo_send rb n l h s k :
  b = send_block h s k →
  undone (rollback_visit constants clock rb (S n) L' e l) l.
Proof using HC Hacc Hfirst.
  intros Eb. pose proof (ci_inv L HC) as HL. pose proof undo_valid as HV.
  assert (Hvis : rollback_visit constants clock rb (S n) L' e l =
                 rollback_send_block clock rb (S n) L' h (block_hash b) l) by (by rewrite Eb).
  rewrite Hvis. clear Hvis.
  assert (Hprev : send_previous h = previous b) by (by rewrite Eb).
  assert (Hleg : is_legacy b = true) by (by rewrite Eb).
  destruct (ac_effect_send _ _ _ _ _ _ _ _ _ _ _ _ Hacc Eb) as (amt & ep & Heff).
  destruct undo_position as [(_ & Hp & _) |
    (i & pe & Hi & Hpos & Hnz & Hp & Hpe & Hsucc & Hne & Hold & Hpe' & Hbal & Hpa & Hep & Hfr & _)];
    [by rewrite Eb in Hp |].
  unfold rollback_send_block. cbn [unreceive]. rewrite Hprev.
  assert (Hpend : pending_get (lg_store L') (send_destination h, block_hash b) =
                  Some (PendingInfo a amt ep)).
  { unfold pending_get. simpl. rewrite Heff. apply lookup_insert_eq. }
  rewrite Hpend, bool_decide_true by (by eexists). cbn [mbind run_bind]. rewrite Hpend.
  cbn [of_option lift mbind run_bind pi_source pi_amount].
  erewrite pending_del_ok by exact Hpend. cbn [lift mbind run_bind].
  rewrite undo_balance by done. cbn [lift mbind run_bind].
  assert (Hnew : account_info_or_default L' a = new)
    by (apply info_existing; apply lookup_insert_eq).
  rewrite Hnew.
  erewrite update_account_existing;
    [| apply lookup_insert_eq | rewrite (vs_head _ _ _ _ _ _ _ HV); apply HV | done].
  cbn [lift mbind run_bind].
  rewrite undo_block_del by (simpl; rewrite undo_self; by eexists). cbn [lift mbind run_bind].
  assert (Hfd : st_frontiers (lg_store L') !! block_hash b = Some a).
  { simpl. unfold new_frontiers. rewrite Hleg. apply lookup_insert_eq. }
  erewrite frontier_del_ok by exact Hfd. cbn [lift mbind run_bind].
  rewrite undo_clear_after by done. cbn [lift mbind run_bind].
  assert (Hr : ai_representative new = ai_representative i).
  { rewrite (ac_rep _ _ _ _ _ _ _ _ _ Hacc), Eb. simpl. by rewrite Hold. }
  eexists. split; [reflexivity |]. split; simpl; try done.
  - apply undo_accounts with i; [done |]. rewrite Hold.
    apply undo_entry; try done. symmetry. by apply undo_legacy_epoch.
  - rewrite Heff. simpl. rewrite delete_insert_eq. apply delete_id.
    exact (step_pending_fresh L HL b sb a new eff w HV _).
  - by apply undo_frontiers_legacy with i.
  - pose proof (vs_balance _ _ _ _ _ _ _ HV) as Hb. rewrite Heff, Hold in Hb. simpl in Hb.
    rewrite Hr. undo_delta Hold.
  - apply undo_block_count.
  - by rewrite Hi.
Qed.

(** *** What the other kinds read *)

Lemma undo_info : account_info_or_default L' a = new.
Proof using. apply info_existing, lookup_insert_eq. Qed.

Lemma undo_head_nonzero : ai_head new ≠ 0.
Proof using Hacc. rewrite (vs_head _ _ _ _ _ _ _ undo_valid). apply undo_valid. Qed.

Lemma undo_account : block_account (lg_store L') (block_hash b) = Ok a.
Proof using Hacc.
  unfold block_account, block_get. simpl. rewrite undo_self. simpl. f_equal. apply undo_valid.
Qed.

Lemma undo_self_balance : balance L' (block_hash b) = Ok (ai_balance new).
Proof using Hacc.
  unfold balance, store_balance, block_get. simpl.
  rewrite (proj2 (Z.eqb_neq _ _) (vs_hash _ _ _ _ _ _ _ undo_valid)), undo_self. simpl. f_equal.
  apply undo_valid.
Qed.

(** The amount of a block that received [p]. *)
Lemma undo_amount src p : eff = Collect src p → amount L' (block_hash b) = Ok (pi_amount p).
Proof using HC Hacc Hfirst.
  intros Heff. unfold amount, block_get. simpl. rewrite undo_self. cbn [of_option mbind outcome_bind].
  rewrite undo_self_balance. cbn [mbind outcome_bind]. rewrite undo_balance by done.
  cbn [mbind outcome_bind]. f_equal.
  pose proof (vs_balance _ _ _ _ _ _ _ undo_valid) as Hb.
  pose proof (vs_effect _ _ _ _ _ _ _ undo_valid) as He. rewrite Heff in Hb, He. simpl in Hb, He.
  pose proof (proj1 (inv_pending L (ci_inv L HC) _ _ He)).
  destruct (Z.ltb_spec (ai_balance old) (ai_balance new)); lia.
Qed.

(** The account of the send that [p] came from. *)
Lemma undo_source L1 src p :
  eff = Collect src p → st_blocks (lg_store L1) = m' → account_safe L1 src = Ok (pi_source p).
Proof using HC Hacc.
  intros Heff Hs. pose proof (vs_effect _ _ _ _ _ _ _ undo_valid) as He. rewrite Heff in He.
  simpl in He. destruct (ci_source L HC _ _ He) as (se & Hse & Hsrc). simpl in Hse.
  destruct (new_blocks_other _ b sb undo_fresh (vs_prev _ _ _ _ _ _ _ undo_valid) _ _ Hse)
    as (se' & Hse' & Hsame).
  unfold account_safe, block_account, block_get. rewrite Hs, Hse'. simpl.
  rewrite (same_entry_account _ _ Hsame), Hsrc. by destruct (negb _).
Qed.

Lemma undo_collect src p :
  eff = Collect src p →
  <[(a, src) := PendingInfo (pi_source p) (pi_amount p) (pi_epoch p)]>
    (apply_effect eff a (block_hash b) (st_pending (lg_store L))) = st_pending (lg_store L).
Proof using Hacc.
  intros Heff. pose proof (vs_effect _ _ _ _ _ _ _ undo_valid) as He. rewrite Heff in He |- *.
  simpl in He |- *. replace (PendingInfo _ _ _) with p by (by destruct p).
  by rewrite insert_delete_eq, insert_id.
Qed.

Lemma undo_frontier_del s :
  is_legacy b = true →
  st_frontiers s = new_frontiers (st_frontiers (lg_store L)) b a (ai_head old) →
  frontier_del s (block_hash b) = Ok (set_frontiers (delete (block_hash b)) s).
Proof using.
  intros Hleg Hs. eapply frontier_del_ok. rewrite Hs. unfold new_frontiers. rewrite Hleg.
  apply lookup_insert_eq.
Qed.

Lemma undo_receive rb n l h s k :
  b = receive_block h s k →
  undone (rollback_visit constants clock rb n L' e l) l.
Proof using HC Hacc Hfirst.
  intros Eb. pose proof undo_valid as HV.
  assert (Hvis : rollback_visit constants clock rb n L' e l =
                 (L1 ← rollback_receive_block clock L' h (block_hash b); Done (false, L1, l)))
    by (by rewrite Eb).
  rewrite Hvis. clear Hvis.
  assert (Hprev : receive_previous h = previous b) by (by rewrite Eb).
  assert (Hleg : is_legacy b = true) by (by rewrite Eb).
  destruct (ac_effect_receive _ _ _ _ _ _ _ _ _ _ _ _ Hacc Eb) as (p & Heff & Hpe0).
  destruct undo_position as [(_ & Hp & _) | (i & pe & Hi & _ & Hnz & Hp & _ & _ & _ & Hold & _)];
    [by rewrite Eb in Hp |].
  assert (Hr : ai_representative new = ai_representative i).
  { rewrite (ac_rep _ _ _ _ _ _ _ _ _ Hacc), Eb. simpl. by rewrite Hold. }
  unfold rollback_receive_block. rewrite (undo_amount _ _ Heff), undo_account, Hprev.
  cbn [lift mbind run_bind]. rewrite (undo_source _ _ _ Heff) by done. cbn [lift mbind run_bind].
  rewrite undo_info.
  rewrite undo_balance by done. cbn [lift mbind run_bind].
  erewrite update_account_existing; [| apply lookup_insert_eq | apply undo_head_nonzero | done].
  cbn [lift mbind run_bind].
  rewrite undo_block_del by (simpl; rewrite undo_self; by eexists). cbn [lift mbind run_bind].
  rewrite undo_frontier_del by done. cbn [lift mbind run_bind].
  rewrite undo_clear_after by done. cbn [lift mbind run_bind].
  eexists. split; [reflexivity |]. split; simpl; try done.
  - apply undo_accounts with i; [done |]. rewrite Hold.
    apply undo_entry; try done. symmetry. by apply undo_legacy_epoch.
  - rewrite <- Hpe0. by apply undo_collect.
  - by apply undo_frontiers_legacy with i.
  - pose proof (vs_balance _ _ _ _ _ _ _ HV) as Hb. rewrite Heff, Hold in Hb. simpl in Hb.
    rewrite Hr. undo_delta Hold.
  - apply undo_block_count.
  - by rewrite Hi.
Qed.

(** [update_account] with a zero head removes the new account. *)
Lemma undo_remove L1 old_a rep o bal t c ep :
  st_accounts (lg_store L) !! a = None →
  st_accounts (lg_store L1) = <[a := new]> (st_accounts (lg_store L)) →
  update_account L1 a old_a (AccountInfo 0 rep o bal t c ep) =
  Ok (set_account_count (λ n, wrap64 (n - 1))
        (with_store (set_accounts (λ _, st_accounts (lg_store L)) (lg_store L1)) L1)).
Proof using.
  intros Hn H1. unfold update_account, account_del, checked_delete. simpl.
  rewrite H1, lookup_insert_eq. simpl. by rewrite undo_accounts_new.
Qed.

Lemma undo_open rb n l h s k :
  b = open_block h s k →
  undone (rollback_visit constants clock rb n L' e l) l.
Proof using HC Hacc Hfirst.
  intros Eb. pose proof undo_valid as HV. pose proof (ci_inv L HC) as HL.
  assert (Hvis : rollback_visit constants clock rb n L' e l =
                 (L1 ← rollback_open_block L' h (block_hash b); Done (false, L1, l)))
    by (by rewrite Eb).
  rewrite Hvis. clear Hvis.
  assert (Hleg : is_legacy b = true) by (by rewrite Eb).
  destruct (ac_effect_open _ _ _ _ _ _ _ _ _ _ _ _ Hacc Eb) as (p & Heff & Hpe0).
  destruct undo_position as [(Ha & Hp & Hz) | (i & pe & _ & _ & _ & Hp & _)];
    [| by rewrite Eb in Hp].
  assert (Hr : ai_representative new = open_representative h).
  { by rewrite (ac_rep _ _ _ _ _ _ _ _ _ Hacc), Eb. }
  unfold rollback_open_block. rewrite (undo_amount _ _ Heff), undo_account.
  cbn [lift mbind run_bind]. rewrite (undo_source _ _ _ Heff) by done. cbn [lift mbind run_bind].
  unfold default_account_info at 2. rewrite undo_remove by done. cbn [lift mbind run_bind].
  rewrite undo_block_del by (simpl; rewrite undo_self; by eexists). cbn [lift mbind run_bind].
  rewrite undo_frontier_del by done. cbn [lift mbind run_bind].
  eexists. split; [reflexivity |]. split; simpl; try done.
  - by rewrite undo_delete, Hp.
  - rewrite <- Hpe0. by apply undo_collect.
  - rewrite (info_missing _ _ Ha). unfold new_frontiers. rewrite Hleg. simpl.
    rewrite delete_insert_eq, (inv_frontier_zero L HL). apply delete_id.
    destruct (st_frontiers (lg_store L) !! block_hash b) as [a' |] eqn:Hf'; [| done].
    apply (inv_frontiers L HL) in Hf' as (? & ? & _ & _ & He & _). by rewrite undo_fresh in He.
  - pose proof (vs_balance _ _ _ _ _ _ _ HV) as Hb. rewrite Heff, (info_missing _ _ Ha) in Hb.
    simpl in Hb. rewrite <- Hr.
    undo_delta (info_missing L a Ha).
  - apply undo_block_count.
  - rewrite Ha. apply undo_account_count.
Qed.

(** The walk from the predecessor ends at the block naming the representative
    the account had. *)
Lemma undo_representative i L1 :
  st_accounts (lg_store L) !! a = Some i → st_blocks (lg_store L1) = m' →
  ∃ r re, ledger_representative L1 (previous b) = Done r ∧ r ≠ 0 ∧ m' !! r = Some re ∧
    representative re.1 = ai_representative i.
Proof using HC Hacc.
  intros Hi Hs. pose proof (vs_prev _ _ _ _ _ _ _ undo_valid) as Hprev.
  pose proof (new_blocks_other _ b sb undo_fresh Hprev) as Hother.
  destruct (ci_rep L HC a i Hi) as (n & r & re & Hr & Hlen & Hre & Hrep).
  destruct (Hother _ _ Hre) as (re' & Hre' & Hsame).
  assert (Hk : ∀ k0 e0, m' !! k0 = Some e0 → k0 ≠ 0 ∧ k0 = block_hash e0.1).
  { intros k0 e0 He0.
    pose proof (step_block_inv L (ci_inv L HC) b sb a new eff w undo_valid) as HL'.
    by destruct (inv_blocks _ HL' k0 e0 He0) as (? & ? & _). }
  exists r, re'. split_and!; [| by apply (Hk r re') | done |].
  - unfold ledger_representative. eapply rep_at_compute.
    + by rewrite Hs.
    + rewrite Hs, (vs_position _ _ _ _ _ _ _ undo_valid i Hi). by eapply rep_at_mono.
    + rewrite Hs, new_blocks_size by exact undo_fresh. lia.
  - by rewrite (same_entry_block _ _ Hsame).
Qed.

Lemma undo_change rb n l h s k :
  b = change_block h s k →
  undone (rollback_visit constants clock rb n L' e l) l.
Proof using HC Hacc Hfirst.
  intros Eb. pose proof undo_valid as HV.
  assert (Hvis : rollback_visit constants clock rb n L' e l =
                 (L1 ← rollback_change_block clock L' h (block_hash b); Done (false, L1, l)))
    by (by rewrite Eb).
  rewrite Hvis. clear Hvis.
  assert (Hprev : change_previous h = previous b) by (by rewrite Eb).
  assert (Hleg : is_legacy b = true) by (by rewrite Eb).
  pose proof (ac_effect_change _ _ _ _ _ _ _ _ _ _ _ _ Hacc Eb) as Heff.
  destruct undo_position as [(_ & Hp & _) |
    (i & pe & Hi & _ & Hnz & Hp & _ & _ & _ & Hold & Hpe' & _ & Hpa & _)];
    [by rewrite Eb in Hp |].
  assert (Hr : change_representative h = ai_representative new).
  { by rewrite (ac_rep _ _ _ _ _ _ _ _ _ Hacc), Eb. }
  destruct (undo_representative i L' Hi eq_refl) as (r & [rb0 rsb] & Hwalk & _ & Hrb & Hrep).
  simpl in Hrep.
  assert (Hpacc : block_account (lg_store L') (previous b) = Ok a).
  { unfold block_account, block_get. simpl. rewrite Hpe'. by rewrite <- Hpa. }
  pose proof (vs_balance _ _ _ _ _ _ _ HV) as Hb. rewrite Heff, Hold in Hb. simpl in Hb.
  unfold rollback_change_block. rewrite Hprev, Hwalk. cbn [lift mbind run_bind].
  rewrite Hpacc. cbn [lift mbind run_bind]. rewrite undo_balance by done.
  cbn [lift mbind run_bind]. unfold block_get. simpl. rewrite Hrb. cbn [of_option lift mbind run_bind].
  rewrite undo_info. rewrite undo_block_del by (simpl; rewrite undo_self; by eexists).
  cbn [lift mbind run_bind].
  erewrite update_account_existing; [| apply lookup_insert_eq | apply undo_head_nonzero | done].
  cbn [lift mbind run_bind].
  rewrite undo_frontier_del by done. cbn [lift mbind run_bind].
  rewrite undo_clear_after by done. cbn [lift mbind run_bind].
  eexists. split; [reflexivity |]. split; simpl; try done.
  - apply undo_accounts with i; [done |].
    apply undo_entry; try done; [lia |]. symmetry. by apply undo_legacy_epoch.
  - by rewrite Heff.
  - by apply undo_frontiers_legacy with i.
  - rewrite Hr, Hold, Hrep. undo_delta Hold.
  - apply undo_block_count.
  - by rewrite Hi.
Qed.

(** The frontier table after a state block was undone. *)
Lemma undo_frontiers_state i pe :
  st_accounts (lg_store L) !! a = Some i → is_legacy b = false → m !! previous b = Some pe →
  (if is_legacy pe.1 then insert (previous b) a else id)
    (new_frontiers (st_frontiers (lg_store L)) b a (ai_head old)) = st_frontiers (lg_store L).
Proof using HC Hacc Hfirst.
  intros Hi Hl Hpe.
  destruct undo_position as [(Hn & _) |
    (i' & pe' & Hi' & Hpos & _ & _ & Hpe' & _ & _ & Hold & _ & _ & _ & _ & Hfr & Hfr')];
    [congruence |].
  rewrite Hold. unfold new_frontiers. rewrite Hl, <- Hpos.
  assert (pe' = pe) as -> by congruence. destruct (is_legacy pe.1).
  - rewrite insert_delete_eq. apply insert_id. by apply Hfr.
  - apply delete_id. by apply Hfr'.
Qed.

Section state.
Context (h : state_hashables) (s k : Z) (Eb : b = state_block h s k).
Context (Hlink : ∀ src p, eff = Collect src p → is_epoch_link constants (state_link h) = false).

Lemma undo_state_fields :
  state_account h = a ∧ state_balance h = ai_balance new ∧ state_previous h = previous b ∧
  state_representative h = ai_representative new ∧ is_legacy b = false.
Proof using Eb Hacc.
  pose proof undo_valid as HV. pose proof (vs_entry_account _ _ _ _ _ _ _ HV) as Ha.
  pose proof (vs_entry_balance _ _ _ _ _ _ _ HV) as Hb. pose proof (vs_account _ _ _ _ _ _ _ HV).
  pose proof (ac_rep _ _ _ _ _ _ _ _ _ Hacc) as Hr.
  rewrite Eb in Ha, Hb, Hr |- *. unfold account_calculated in Ha. simpl in *.
  destruct (Z.eqb_spec (state_account h) 0) as [Hz | _] in Ha; simpl in Ha; [congruence |].
  split_and!; try done.
Qed.

Lemma undo_state_pending rb n l L1 :
  st_blocks (lg_store L1) = m' →
  st_accounts (lg_store L1) = <[a := new]> (st_accounts (lg_store L)) →
  st_pending (lg_store L1) = apply_effect eff a (block_hash b) (st_pending (lg_store L)) →
  rollback_state_pending constants rb (S n) L1 h (sb_source_epoch sb) (block_hash b)
    (ai_balance old) l =
  Done (with_store (set_pending (λ _, st_pending (lg_store L)) (lg_store L1)) L1, l).
Proof using Eb HC Hacc Hlink.
  intros Hbl Hac Hpd. pose proof undo_valid as HV. pose proof (ci_inv L HC) as HL.
  destruct undo_state_fields as (Ha & Hbal & Hprev & Hrep & _).
  pose proof (vs_balance _ _ _ _ _ _ _ HV) as Hb.
  pose proof (vs_range _ _ _ _ _ _ _ HV) as Hrange.
  pose proof (vs_effect _ _ _ _ _ _ _ HV) as Hok.
  pose proof (ac_effect _ _ _ _ _ _ _ _ _ Hacc) as Hshape.
  assert (Hsh : block_effect constants (state_block h s k) sb eff) by (by rewrite <- Eb).
  clear Hshape. unfold rollback_state_pending. rewrite Ha, Hbal.
  unfold account_get. rewrite Hac, lookup_insert_eq, bool_decide_false by done.
  destruct (effect_cases eff) as [(dest & amt & ep & Heff) | [(src & p & Heff) | Heff]];
    rewrite Heff in Hsh, Hb, Hok, Hpd; simpl in Hsh, Hb, Hok, Hpd.
  - destruct Hsh as [-> Hamt]. replace (ai_balance new <? _) with true by lia.
    assert (Hl : st_pending (lg_store L1) !! (state_link h, block_hash b) =
                 Some (PendingInfo a amt ep)) by (rewrite Hpd; apply lookup_insert_eq).
    cbn [unreceive]. rewrite pending_exists_spec, bool_decide_true by (by rewrite Hl).
    cbn [mbind run_bind]. erewrite pending_del_ok by exact Hl. cbn [lift mbind run_bind].
    unfold set_pending. rewrite Hpd. rewrite delete_insert_eq, delete_id; [done |].
    exact (step_pending_fresh L HL b sb a new eff w HV _).
  - destruct Hsh as (-> & Hnz & Hse). replace (ai_balance new <? _) with false.
    2:{ pose proof (proj1 (inv_pending L HL _ _ Hok)). lia. }
    rewrite (proj2 (Z.eqb_neq _ _) Hnz), (Hlink _ _ Heff). simpl.
    rewrite (undo_source L1 _ p Heff) by done. simpl.
    unfold with_store, pending_put, set_pending. do 4 f_equal. rewrite Hpd, Hse.
    replace (wrap128 (ai_balance new - ai_balance old)) with (pi_amount p); cycle 1.
    { rewrite Hb. rewrite Z.add_simpl_l, wrap128_small; [done |].
      by apply (inv_pending_range L HL (a, state_link h)). }
    rewrite <- (undo_collect _ p Heff) at 2. by rewrite Heff.
  - replace (ai_balance new <? _) with false by lia.
    replace (negb (state_link h =? 0) && negb (is_epoch_link constants (state_link h)))
      with false by (destruct Hsh as [-> | ->]; by rewrite ?andb_false_r).
    unfold with_store, set_pending. rewrite <- Hpd. by destruct L1 as [[] ? ?].
Qed.

Lemma undo_state_existing rb n l i :
  st_accounts (lg_store L) !! a = Some i →
  undone (rollback_state_block constants clock rb (S n) L' h (sb_source_epoch sb)
            (block_hash b) l) l.
Proof using Eb HC Hacc Hfirst Hlink.
  intros Hi. pose proof undo_valid as HV.
  destruct undo_state_fields as (Ha & Hbal & Hprev & Hrep & Hleg).
  destruct undo_position as [(Hn & _) |
    (i' & pe & Hi' & _ & Hnz & Hp & Hpe & _ & Hne & Hold & Hpe' & _ & _ & Hep & Hfr & Hfr')];
    [congruence |].
  rewrite Hi in Hi'. injection Hi' as <-.
  destruct (undo_representative i L' Hi eq_refl) as (r & [rb0 rsb] & Hwalk & Hr0 & Hrb & Hr).
  simpl in Hr. unfold rollback_state_block, rollback_state_weights.
  rewrite Hprev, (proj2 (Z.eqb_neq _ _) Hnz). cbn [negb]. rewrite undo_balance by done.
  cbn [lift mbind run_bind]. rewrite Hwalk. cbn [lift mbind run_bind].
  rewrite (proj2 (Z.eqb_neq _ _) Hr0). cbn [negb].
  assert (Hrb' : block_get (lg_store L') r = Some (rb0, rsb)) by exact Hrb.
  rewrite Hrb'. cbn [of_option lift mbind run_bind].
  rewrite undo_state_pending by done. cbn [lift mbind run_bind].
  match goal with |- context [account_info_or_default ?x (state_account h)] =>
    replace (account_info_or_default x (state_account h)) with new
      by (rewrite Ha; symmetry; apply info_existing, lookup_insert_eq) end.
  rewrite Ha. erewrite update_account_existing;
    [| apply lookup_insert_eq | apply undo_head_nonzero | done].
  cbn [lift mbind run_bind].
  assert (Hver : ∀ s0, st_blocks s0 = m' → block_version s0 (previous b) = ai_epoch i).
  { intros s0 Hs0. unfold block_version, block_get. rewrite Hs0, Hpe'. rewrite <- Hep.
    destruct (is_legacy pe.1) eqn:El; [rewrite (ci_legacy L HC _ _ Hpe El) |];
      by destruct pe as [[] ?]. }
  assert (Hget : ∀ s0, st_blocks s0 = m' →
            block_get s0 (previous b) = Some (pe.1, set_successor (block_hash b) pe.2))
    by (intros s0 Hs0; unfold block_get; by rewrite Hs0).
  rewrite Hver, Hget, undo_clear_before by done. cbn [lift mbind run_bind].
  rewrite undo_block_del by (case_match; simpl; rewrite lookup_insert_eq; by eexists).
  cbn [lift mbind run_bind]. eexists. split; [reflexivity |].
  replace (block_type_code (block_type_of pe.1) <? block_type_code bt_state)
    with (is_legacy pe.1) by (by destruct pe as [[] ?]).
  assert (Hdel : delete (block_hash b) (<[block_hash b := e]> m) = m)
    by (rewrite delete_insert_eq; apply delete_id, undo_fresh).
  split; simpl; try by destruct (is_legacy pe.1).
  - destruct (is_legacy pe.1); apply undo_accounts with i; try done; rewrite Hold;
      by apply undo_entry.
  - pose proof (undo_frontiers_state i pe Hi Hleg Hpe) as Hf. by destruct (is_legacy pe.1).
  - rewrite Hbal, Hrep, Hr, Hold. destruct (is_legacy pe.1); undo_delta Hold.
  - destruct (is_legacy pe.1); apply undo_block_count.
  - destruct (is_legacy pe.1); simpl; by rewrite Hi.
Qed.

Lemma undo_state_new rb n l :
  st_accounts (lg_store L) !! a = None →
  undone (rollback_state_block constants clock rb (S n) L' h (sb_source_epoch sb)
            (block_hash b) l) l.
Proof using Eb HC Hacc Hfirst Hlink.
  intros Hn. pose proof undo_valid as HV. pose proof (ci_inv L HC) as HL.
  destruct undo_state_fields as (Ha & Hbal & Hprev & Hrep & Hleg).
  destruct undo_position as [(_ & Hp & Hz) | (i' & pe & Hi' & _)]; [| congruence].
  unfold rollback_state_block, rollback_state_weights.
  rewrite Hprev, undo_balance by done. cbn [lift mbind run_bind]. rewrite Hz.
  cbn [Z.eqb negb mbind run_bind].
  rewrite undo_state_pending by done. cbn [lift mbind run_bind].
  match goal with |- context [account_info_or_default ?x (state_account h)] =>
    replace (account_info_or_default x (state_account h)) with new
      by (rewrite Ha; symmetry; apply info_existing, lookup_insert_eq) end.
  rewrite Ha, undo_remove by done. cbn [lift mbind run_bind].
  assert (Hget : ∀ s0, st_blocks s0 = m' → block_get s0 0 = None).
  { intros s0 Hs0. unfold block_get. rewrite Hs0.
    exact (inv_block_zero _ (step_block_inv L HL b sb a new eff w HV)). }
  rewrite Hget by done. cbn [lift mbind run_bind].
  rewrite undo_block_del by (simpl; rewrite undo_self; by eexists).
  cbn [lift mbind run_bind]. eexists. split; [reflexivity |]. split; simpl; try done.
  - by rewrite undo_delete, Hp.
  - rewrite (info_missing _ _ Hn). unfold new_frontiers. rewrite Hleg. apply inv_frontier_zero, HL.
  - rewrite Hbal, Hrep. pose proof (info_missing L a Hn) as Hold. undo_delta Hold.
  - apply undo_block_count.
  - rewrite Hn. apply undo_account_count.
Qed.

Lemma undo_state rb n l : undone (rollback_visit constants clock rb (S n) L' e l) l.
Proof using Eb HC Hacc Hfirst Hlink.
  assert (Hvis : rollback_visit constants clock rb (S n) L' e l =
                 rollback_state_block constants clock rb (S n) L' h (sb_source_epoch sb)
                   (block_hash b) l) by (by rewrite Eb).
  rewrite Hvis. destruct (st_accounts (lg_store L) !! a) as [i |] eqn:Hi.
  - by apply undo_state_existing with i.
  - by apply undo_state_new.
Qed.
End state.
End undo.

(** ** Theorems *)

Section rollback_theorems.
Context `{Crypto} (constants : ledger_constants) (clock : Z → Z).

Lemma undo_visit L b v a sb new eff w rb n l :
  chain_inv L → accepted constants L b v a sb new eff w → first_ok L b a →
  (∀ src p, eff = Collect src p → is_legacy b = false →
     is_epoch_link constants (link b) = false) →
  undone L (rollback_visit constants clock rb (S n) (step_block L b sb a new eff w)
              (b, sideband_stored (block_type_of b) sb) l) l.
Proof.
  intros HC Hacc Hf Hl. destruct b as [h s k | h s k | h s k | h s k | h s k].
  - by eapply undo_send.
  - by eapply undo_receive.
  - by eapply undo_open.
  - by eapply undo_change.
  - eapply undo_state; try done. intros src p He. by apply (Hl src p He).
Qed.

(** C8: Rolling back a block that has just been accepted, whatever its kind,
    succeeds, returns that block and gives back a ledger equivalent to the one
    before: the same tables, weights and counts (modification times apart).
    Conditions: the ledger was reached by processing blocks of which none, this one
    included, is an epoch block that opens an account on a predecessor of another
    account (the processor accepts such blocks); the block is above the confirmation
    height; and for an epoch block the link is not a block hash. *)
Theorem rollback_undoes_process L b v t1 t2 r L' fuel :
  chain_reachable constants L → block_wf b → block_hash b ≠ 0 → epoch_open_ok constants L b →
  (is_epoch_link constants (link b) = true → block_or_pruned_exists L (link b) = false) →
  process constants L b v t1 t2 = Ok (r, L') → pr_code r = progress →
  (∀ e, block_get (lg_store L') (block_hash b) = Some e →
     ch_height (confirmation_height_get (lg_store L') (account_calculated e)) < sb_height e.2) →
  (2 <= fuel)%nat →
  ∃ L'' e, rollback constants clock fuel L' (block_hash b) [] = Done (false, L'', [e]) ∧
    e.1 = b ∧ ledger_equiv L'' L.
Proof.
  intros HC%chain_reachable_inv Hwf Hnz Hep Hlk Hp Hr Hconf Hfuel.
  pose proof (ci_inv L HC) as HL.
  destruct (process_step constants L HL b v t1 t2 Hwf Hnz)
    as [(r' & Hp' & ?) | (a & sb & new & eff & w & v' & Hacc & Hp')];
    rewrite Hp' in Hp; simplify_eq.
  pose proof (accepted_first_ok constants _ _ _ _ _ _ _ _ Hacc Hep) as Hf.
  pose proof (ac_step _ _ _ _ _ _ _ _ _ Hacc) as HV.
  assert (Hself : block_get (lg_store (step_block L b sb a new eff w)) (block_hash b) =
                  Some (b, sideband_stored (block_type_of b) sb))
    by exact (undo_self constants L b v a sb new eff w Hacc).
  assert (Hcoll : ∀ src p, eff = Collect src p → is_legacy b = false →
                           is_epoch_link constants (link b) = false).
  { intros src p He Hleg. destruct (is_epoch_link constants (link b)) eqn:Hl; [| done].
    pose proof (vs_effect _ _ _ _ _ _ _ HV) as Hok. rewrite He in Hok.
    apply (inv_pending L HL) in Hok as [_ Hex]. simpl in Hex.
    pose proof (ac_effect _ _ _ _ _ _ _ _ _ Hacc) as Hs. rewrite He in Hs.
    destruct b; try done. simpl in Hs, Hlk. destruct Hs as [-> _]. by rewrite Hlk in Hex. }
  specialize (Hconf _ Hself). destruct fuel as [| [| n]]; [lia | lia |].
  unfold rollback, block_account, account_height. rewrite Hself. cbn [of_option lift mbind outcome_bind run_bind].
  rewrite (vs_entry_account _ _ _ _ _ _ _ HV) in Hconf |- *. cbn [snd] in Hconf |- *.
  cbn [rollback_loop].
  assert (Hex : block_exists (lg_store (step_block L b sb a new eff w)) (block_hash b) = true).
  { unfold block_exists. apply bool_decide_eq_true. unfold block_get in Hself. by rewrite Hself. }
  rewrite Hex. cbn [negb]. rewrite (proj2 (Z.ltb_lt _ _) Hconf).
  assert (Hacct : account_get (lg_store (step_block L b sb a new eff w)) a = Some new)
    by apply lookup_insert_eq.
  rewrite Hacct. change (default default_account_info (Some new)) with new. rewrite (vs_head _ _ _ _ _ _ _ HV), Hself.
  cbn [of_option lift mbind run_bind app].
  edestruct undo_visit as (L1 & Hv & Heq); [exact HC | exact Hacc | exact Hf | exact Hcoll |].
  unfold id in *. rewrite Hv. cbn [mbind run_bind].
  assert (Hgone : block_exists (lg_store (set_block_count (λ n, wrap64 (n - 1)) L1))
                    (block_hash b) = false).
  { unfold block_exists. rewrite (eqv_blocks _ _ Heq). apply bool_decide_eq_false.
    apply eq_None_not_Some. by eapply undo_fresh. }
  rewrite Hgone. eexists _, _. split; [reflexivity |]. done.
Qed.

(** A rollback of a block at or below the confirmation height of its account
    fails and changes nothing. *)
Theorem rollback_respects_confirmation fuel L k e l :
  block_get (lg_store L) k = Some e →
  sb_height e.2 <= ch_height (confirmation_height_get (lg_store L) (account_calculated e)) →
  (1 <= fuel)%nat →
  rollback constants clock fuel L k l = Done (true, L, l).
Proof.
  intros He Hh Hf. unfold rollback, block_account, account_height. rewrite He. simpl.
  destruct fuel as [| fuel]; [lia |]. simpl. unfold block_exists.
  rewrite bool_decide_true by (unfold block_get in He; by rewrite He). simpl.
  by rewrite (proj2 (Z.ltb_ge _ _) Hh).
Qed.
End rollback_theorems.
