(* ===== verification/ConfirmationHeight.v ===== *)
(** * The unbounded confirmation height processor
      ([node/confirmation_height_unbounded.cpp])

    Confirming a block cements it together with everything it depends on: the
    blocks below it in its account chain and, for each receive among them, the
    chain of the send.  The processor walks these chains with a stack of receive
    blocks, collects the writes in memory and writes them in batches.

    The details of a receive are shared between the stack ([shared_ptr]) and the
    map from the blocks below the receive ([weak_ptr]); they live in a heap of
    their own, a pointer is a position in it, and a weak pointer can be locked
    while the stack or the local variable still holds the object.  A vector used
    as a stack has its last element at the head of the list.  An iterator moved
    out of its container, a null pointer dereferenced and a failed
    [release_assert] are [Aborted].  Between two rounds of [process] the tables
    change only by the processor's own writes. *)

From S2P Require Import Prelude Blocks BlockCodec Common RepWeights EpochsWork Store Ledger Rollback.

(** ** Data *)

(** [conf_height_details]. *)
Record conf_height_details := ConfHeightDetails {
  cd_account : Z;
  cd_hash : Z;
  cd_height : Z;
  cd_num_blocks_confirmed : Z;
  cd_block_callback_data : list Z;
  cd_source_block_callback_data : list Z;
}.

(** [confirmed_iterated_pair]. *)
Record confirmed_iterated_pair := ConfirmedIteratedPair {
  ci_confirmed_height : Z;
  ci_iterated_height : Z;
}.

(** [receive_source_pair]: the details and the hash of the send. *)
Abbreviation receive_source_pair := (nat * Z)%type.

(** What the observers are told. *)
Inductive cement_event :=
| ev_cemented (blocks : list (option block_w_sideband))
| ev_already_cemented (hash : Z).

(** The members of the processor, the ledger it works on and the heap. *)
Record unbounded := Unbounded {
  ub_ledger : ledger;
  ub_heap : list conf_height_details;
  ub_confirmed_iterated_pairs : gmap Z confirmed_iterated_pair;
  ub_pending_writes : list conf_height_details;
  ub_implicit_receive_cemented_mapping : gmap Z nat;
  ub_block_cache : gmap Z (option block_w_sideband);
  ub_events : list cement_event;
}.

Definition unbounded_new (L : ledger) : unbounded := Unbounded L [] ∅ [] ∅ ∅ [].

Definition ub_set_heap f (u : unbounded) : unbounded :=
  Unbounded (ub_ledger u) (f (ub_heap u)) (ub_confirmed_iterated_pairs u) (ub_pending_writes u)
    (ub_implicit_receive_cemented_mapping u) (ub_block_cache u) (ub_events u).
Definition ub_set_pairs f (u : unbounded) : unbounded :=
  Unbounded (ub_ledger u) (ub_heap u) (f (ub_confirmed_iterated_pairs u)) (ub_pending_writes u)
    (ub_implicit_receive_cemented_mapping u) (ub_block_cache u) (ub_events u).
Definition ub_set_writes f (u : unbounded) : unbounded :=
  Unbounded (ub_ledger u) (ub_heap u) (ub_confirmed_iterated_pairs u) (f (ub_pending_writes u))
    (ub_implicit_receive_cemented_mapping u) (ub_block_cache u) (ub_events u).
Definition ub_set_mapping f (u : unbounded) : unbounded :=
  Unbounded (ub_ledger u) (ub_heap u) (ub_confirmed_iterated_pairs u) (ub_pending_writes u)
    (f (ub_implicit_receive_cemented_mapping u)) (ub_block_cache u) (ub_events u).
Definition ub_set_cache f (u : unbounded) : unbounded :=
  Unbounded (ub_ledger u) (ub_heap u) (ub_confirmed_iterated_pairs u) (ub_pending_writes u)
    (ub_implicit_receive_cemented_mapping u) (f (ub_block_cache u)) (ub_events u).
Definition ub_notify (e : cement_event) (u : unbounded) : unbounded :=
  Unbounded (ub_ledger u) (ub_heap u) (ub_confirmed_iterated_pairs u) (ub_pending_writes u)
    (ub_implicit_receive_cemented_mapping u) (ub_block_cache u) (ub_events u ++ [e]).

(** [pending_empty]. *)
Definition pending_empty (u : unbounded) : bool := bool_decide (ub_pending_writes u = []).

(** [clear_process_vars]. *)
Definition clear_process_vars (u : unbounded) : unbounded :=
  Unbounded (ub_ledger u) (ub_heap u) ∅ (ub_pending_writes u) ∅ ∅ (ub_events u).

(** [has_iterated_over_block]. *)
Definition has_iterated_over_block (u : unbounded) (hash_a : Z) : bool :=
  bool_decide (is_Some (ub_block_cache u !! hash_a)).

(** [get_block_and_sideband]: a miss is cached too. *)
Definition get_block_and_sideband (u : unbounded) (hash_a : Z) : option block_w_sideband * unbounded :=
  match ub_block_cache u !! hash_a with
  | Some b => (b, u)
  | None => let b := block_get (lg_store (ub_ledger u)) hash_a in
            (b, ub_set_cache <[hash_a := b]> u)
  end.

(** Erase the last [n] elements. *)
Definition erase_last {A} (n : Z) (l : list A) : outcome (list A) :=
  if (0 <=? n) && (n <=? Z.of_nat (length l)) then Ok (take (length l - Z.to_nat n) l) else Aborted.

(** Assign from the range that ends [skip] elements before the end and has [n]. *)
Definition slice_last {A} (skip n : Z) (l : list A) : outcome (list A) :=
  if (0 <=? skip) && (0 <=? n) && (skip + n <=? Z.of_nat (length l)) then
    let end_it := (length l - Z.to_nat skip)%nat in
    Ok (drop (end_it - Z.to_nat n) (take end_it l))
  else Aborted.

Definition add_callback (hash : Z) (d : conf_height_details) : conf_height_details :=
  ConfHeightDetails (cd_account d) (cd_hash d) (cd_height d) (wrap64 (cd_num_blocks_confirmed d + 1))
    (cd_block_callback_data d ++ [hash]) (cd_source_block_callback_data d).
Definition set_source_callbacks (l : list Z) (d : conf_height_details) : conf_height_details :=
  ConfHeightDetails (cd_account d) (cd_hash d) (cd_height d) (cd_num_blocks_confirmed d)
    (cd_block_callback_data d) l.
Definition set_confirmed (n : Z) (l : list Z) (d : conf_height_details) : conf_height_details :=
  ConfHeightDetails (cd_account d) (cd_hash d) (cd_height d) n l (cd_source_block_callback_data d).

Section processor.
Context `{Crypto} (constants : ledger_constants).

(** ** Collecting the receives of a chain *)

(** What the loop of [collect_unconfirmed_receive_and_sources_for_account] changes. *)
Record collect_state := CollectState {
  co_proc : unbounded;
  co_receive_source_pairs : list receive_source_pair;
  co_block_callback_data : list Z;
  co_orig_block_callback_data : list Z;
  co_is_original_block : bool;
  co_hit_receive : bool;
}.

(** The source of a block that the walk treats as a receive. *)
Definition walk_source (s : store) (b : block) : option Z :=
  let source_a := if source b =? 0 then link b else source b in
  if negb (source_a =? 0) && negb (is_epoch_link constants source_a) && block_exists s source_a
  then Some source_a else None.

(** A receive is pushed; the callbacks gathered above it belong to the receive
    whose source is being walked. *)
Definition collect_receive (account_a hash block_height source_a : Z) (c : collect_state) :
    outcome collect_state :=
  let u := co_proc c in
  '(u, callbacks) ←
    (if negb (co_hit_receive c) && negb (bool_decide (co_block_callback_data c = [])) then
       match co_receive_source_pairs c with
       | [] => Aborted
       | (d, _) :: _ =>
           Ok (ub_set_heap (alter (set_source_callbacks (co_block_callback_data c)) d) u, [])
       end
     else Ok (u, co_block_callback_data c));
  let details := ConfHeightDetails account_a hash block_height 1 [hash] [] in
  Ok (CollectState (ub_set_heap (λ h, h ++ [details]) u)
    ((length (ub_heap u), source_a) :: co_receive_source_pairs c) callbacks
    (co_orig_block_callback_data c) false true).

(** Any other block is remembered for the observers. *)
Definition collect_other (hash : Z) (c : collect_state) : outcome collect_state :=
  if co_is_original_block c then
    Ok (CollectState (co_proc c) (co_receive_source_pairs c) (co_block_callback_data c)
      (co_orig_block_callback_data c ++ [hash]) true (co_hit_receive c))
  else if negb (co_hit_receive c) then
    Ok (CollectState (co_proc c) (co_receive_source_pairs c) (co_block_callback_data c ++ [hash])
      (co_orig_block_callback_data c) false false)
  else
    match co_receive_source_pairs c with
    | [] => Aborted
    | (d, _) :: _ =>
        Ok (CollectState
          (ub_set_mapping <[hash := d]> (ub_set_heap (alter (add_callback hash) d) (co_proc c)))
          (co_receive_source_pairs c) (co_block_callback_data c) (co_orig_block_callback_data c)
          false true)
    end.

(** The loop, with [num_to_confirm] blocks to go. *)
Fixpoint collect (stopped : bool) (num_to_confirm : nat) (confirmation_height_a account_a : Z)
    (first : option block_w_sideband) (hash : Z) (c : collect_state) : outcome collect_state :=
  match num_to_confirm with
  | O => Ok c
  | S n =>
      if (hash =? 0) || stopped then Ok c else
      let '(b, u) :=
        match first with
        | Some b => (Some b, ub_set_cache <[hash := Some b]> (co_proc c))
        | None => get_block_and_sideband (co_proc c) hash
        end in
      let c := CollectState u (co_receive_source_pairs c) (co_block_callback_data c)
        (co_orig_block_callback_data c) (co_is_original_block c) (co_hit_receive c) in
      match b with
      | Some b =>
          c ← match walk_source (lg_store (ub_ledger u)) b.1 with
              | Some source_a =>
                  collect_receive account_a hash
                    (confirmation_height_a + Z.of_nat num_to_confirm) source_a c
              | None => collect_other hash c
              end;
          collect stopped n confirmation_height_a account_a None (previous b.1) c
      | None => collect stopped n confirmation_height_a account_a None hash c
      end
  end.

(** ** Preparing the writes *)

(** [confirmed_iterated_pairs] of an account whose chain is confirmed up to a height. *)
Definition confirm_pair (account_a height : Z) (iterated_height : Z) (u : unbounded) : unbounded :=
  ub_set_pairs (λ m,
    match m !! account_a with
    | Some p => <[account_a := ConfirmedIteratedPair height
                   (if iterated_height <? height then height else ci_iterated_height p)]> m
    | None => <[account_a := ConfirmedIteratedPair height height]> m
    end) u.

(** [weak_ptr::lock]: the object is alive while the stack or the local pointer holds it. *)
Definition lock (u : unbounded) (pairs : list receive_source_pair) (receive_details : option nat) (hash : Z) :
    outcome conf_height_details :=
  match ub_implicit_receive_cemented_mapping u !! hash with
  | Some d => if bool_decide (d ∈ map fst pairs) || bool_decide (receive_details = Some d)
              then of_option (ub_heap u !! d) else Aborted
  | None => Aborted
  end.

(** The callbacks of the blocks of the current chain that become confirmed. *)
Definition chain_callbacks (u : unbounded) (pairs : list receive_source_pair) (receive_details : option nat)
    (already_traversed : bool) (current confirmation_height num_blocks_confirmed : Z)
    (block_callback_data orig_block_callback_data : list Z) : outcome (list Z * unbounded) :=
  if negb (bool_decide (block_callback_data = [])) then Ok (block_callback_data, u)
  else
    match receive_details with
    | None => Ok (orig_block_callback_data, u)
    | Some d =>
        details ← of_option (ub_heap u !! d);
        callbacks ←
          (if already_traversed && bool_decide (cd_source_block_callback_data details = []) then
             above ← lock u pairs receive_details current;
             slice_last (cd_num_blocks_confirmed above - (cd_height above - confirmation_height))
               num_blocks_confirmed (cd_block_callback_data above)
           else Ok (cd_source_block_callback_data details));
        callbacks ← erase_last (Z.of_nat (length callbacks) - num_blocks_confirmed) callbacks;
        Ok (callbacks, ub_set_heap (alter (set_source_callbacks []) d) u)
    end.

(** The receive block, with the blocks below it that are not yet confirmed. *)
Definition prepare_receive (d : nat) (u : unbounded) : outcome unbounded :=
  details ← of_option (ub_heap u !! d);
  match ub_confirmed_iterated_pairs u !! cd_account details with
  | Some p =>
      let u := ub_set_pairs <[cd_account details :=
        ConfirmedIteratedPair (cd_height details) (ci_iterated_height p)]> u in
      let num_blocks_confirmed := wrap64 (cd_height details - ci_confirmed_height p) in
      callbacks ← erase_last (cd_num_blocks_confirmed details - num_blocks_confirmed)
                    (cd_block_callback_data details);
      let details := set_confirmed num_blocks_confirmed callbacks details in
      Ok (ub_set_writes (λ w, w ++ [details]) (ub_set_heap <[d := details]> u))
  | None =>
      Ok (ub_set_writes (λ w, w ++ [details]) (ub_set_pairs <[cd_account details :=
        ConfirmedIteratedPair (cd_height details) (cd_height details)]> u))
  end.

(** [prepare_iterated_blocks_for_cementing]. *)
Definition prepare (pairs : list receive_source_pair) (block_height confirmation_height iterated_height account_a : Z)
    (receive_details : option nat) (already_traversed : bool) (current : Z)
    (block_callback_data orig_block_callback_data : list Z) (u : unbounded) : outcome unbounded :=
  u ← (if confirmation_height <? block_height then
         let u := confirm_pair account_a block_height iterated_height u in
         let num_blocks_confirmed := block_height - confirmation_height in
         '(callbacks, u) ← chain_callbacks u pairs receive_details already_traversed current
           confirmation_height num_blocks_confirmed block_callback_data orig_block_callback_data;
         Ok (ub_set_writes (λ w, w ++
           [ConfHeightDetails account_a current block_height num_blocks_confirmed callbacks []]) u)
       else Ok u);
  match receive_details with
  | Some d => prepare_receive d u
  | None => Ok u
  end.

(** ** Cementing *)

Definition set_cemented_count (f : Z → Z) (L : ledger) : ledger :=
  let c := lg_cache L in
  with_cache (LedgerCache (lc_rep_weights c) (f (lc_cemented_count c)) (lc_block_count c)
    (lc_pruned_count c) (lc_account_count c) (lc_final_votes_canary c)) L.

(** One pending write: the new ledger and the blocks it cements. *)
Definition cement_write (block_cache : gmap Z (option block_w_sideband)) (L : ledger)
    (pending : conf_height_details) : outcome (ledger * list (option block_w_sideband)) :=
  let confirmation_height := ch_height (confirmation_height_get (lg_store L) (cd_account pending)) in
  if confirmation_height <? cd_height pending then
    match block_get (lg_store L) (cd_hash pending) with
    | None =>
        if lg_pruning L && pruned_exists (lg_store L) (cd_hash pending) then Ok (L, []) else Aborted
    | Some _ =>
        blocks ← of_option (mapM (λ h, block_cache !! h) (reverse (cd_block_callback_data pending)));
        Ok (with_store (confirmation_height_put (lg_store L) (cd_account pending)
              (ConfirmationHeightInfo (cd_height pending) (cd_hash pending)))
            (set_cemented_count (λ n, wrap64 (n + cd_num_blocks_confirmed pending)) L), blocks)
    end
  else Ok (L, []).

Fixpoint cement_writes (block_cache : gmap Z (option block_w_sideband)) (L : ledger)
    (pending_writes : list conf_height_details) : outcome (ledger * list (option block_w_sideband)) :=
  match pending_writes with
  | [] => Ok (L, [])
  | pending :: rest =>
      '(L, blocks) ← cement_write block_cache L pending;
      '(L, more) ← cement_writes block_cache L rest;
      Ok (L, blocks ++ more)
  end.

(** [cement_blocks]; an error ends the process at the [release_assert]. *)
Definition cement_blocks (u : unbounded) : outcome unbounded :=
  '(L, cemented_blocks) ← cement_writes (ub_block_cache u) (ub_ledger u) (ub_pending_writes u);
  Ok (ub_notify (ev_cemented cemented_blocks)
    (Unbounded L (ub_heap u) (ub_confirmed_iterated_pairs u) []
       (ub_implicit_receive_cemented_mapping u) (ub_block_cache u) (ub_events u))).

(** ** Processing a block *)

Definition unbounded_cutoff : Z := 16384.

(** What a round of the loop sees of the world: the stop flag while it works and at
    its end, the timer, the queue of blocks to process and the writer lock of the
    database. *)
Record round_env := RoundEnv {
  re_stopped : bool;
  re_stopped_at_end : bool;
  re_min_time_exceeded : bool;
  re_no_pending : bool;
  re_write_queue_free : bool;
}.

(** The local variables of [process]. *)
Record process_vars := ProcessVars {
  pv_proc : unbounded;
  pv_receive_source_pairs : list receive_source_pair;
  pv_receive_details : option nat;
  pv_current : Z;
  pv_orig_block_callback_data : list Z;
  pv_first_iter : bool;
}.

(** The write at the end of a round. *)
Definition maybe_cement (batch_write_size : Z) (r : round_env) (pairs : list receive_source_pair) (u : unbounded) :
    outcome unbounded :=
  let max_write_size_reached := unbounded_cutoff <=? Z.of_nat (length (ub_pending_writes u)) in
  let finished_iterating := bool_decide (pairs = []) in
  let should_output := finished_iterating && (re_no_pending r || re_min_time_exceeded r) in
  let total := fold_left (λ total d, wrap64 (total + cd_num_blocks_confirmed d)) (ub_pending_writes u) 0 in
  let force_write := batch_write_size <? total in
  if (max_write_size_reached || should_output || force_write) && negb (pending_empty u) then
    if re_write_queue_free r || force_write then cement_blocks u else Ok u
  else Ok u.

(** The block a round works on. *)
Definition next_block (original_hash : Z) (v : process_vars) : option nat * Z :=
  match pv_receive_source_pairs v with
  | (d, source_hash) :: _ => (Some d, source_hash)
  | [] =>
      match pv_receive_details v with
      | Some _ => (None, original_hash)
      | None => (None, pv_current v)
      end
  end.

(** The heights known of an account: confirmed, and iterated over. *)
Definition known_confirmed (u : unbounded) (account_a : Z) : Z :=
  match ub_confirmed_iterated_pairs u !! account_a with
  | Some p => ci_confirmed_height p
  | None => ch_height (confirmation_height_get (lg_store (ub_ledger u)) account_a)
  end.
Definition known_iterated (u : unbounded) (account_a : Z) : Z :=
  match ub_confirmed_iterated_pairs u !! account_a with
  | Some p => Z.max (ci_confirmed_height p) (ci_iterated_height p)
  | None => ch_height (confirmation_height_get (lg_store (ub_ledger u)) account_a)
  end.

(** After a walk that found receives only the iterated height is known. *)
Definition note_iterated (account_a block_height confirmation_height iterated_height : Z) (u : unbounded) : unbounded :=
  if iterated_height <? block_height then
    ub_set_pairs (λ m,
      match m !! account_a with
      | Some p => <[account_a := ConfirmedIteratedPair (ci_confirmed_height p) block_height]> m
      | None => <[account_a := ConfirmedIteratedPair confirmation_height block_height]> m
      end) u
  else u.

(** One round; the flag tells whether the loop goes on. *)
Definition process_round (batch_write_size : Z) (r : round_env) (original_block : block_w_sideband)
    (v : process_vars) : outcome (process_vars * bool) :=
  let original_hash := block_hash original_block.1 in
  let '(receive_details, current) := next_block original_hash v in
  let '(b, u) :=
    if pv_first_iter v
    then (Some original_block, ub_set_cache <[original_hash := Some original_block]> (pv_proc v))
    else get_block_and_sideband (pv_proc v) current in
  b ← of_option b;
  let account_a := account_calculated b in
  let block_height := sb_height b.2 in
  let confirmation_height := known_confirmed u account_a in
  let u := if bool_decide (ub_confirmed_iterated_pairs u !! account_a = None) && pv_first_iter v &&
                (block_height <=? confirmation_height)
           then ub_notify (ev_already_cemented original_hash) u else u in
  let iterated_height := known_iterated u account_a in
  let already_traversed := block_height <=? iterated_height in
  let c := CollectState u (pv_receive_source_pairs v) [] (pv_orig_block_callback_data v)
             (current =? original_hash) false in
  c ← (if already_traversed then Ok c
       else collect (re_stopped r) (Z.to_nat (block_height - iterated_height)) iterated_height account_a
              (Some b) current c);
  let vars u pairs := ProcessVars u pairs receive_details current (co_orig_block_callback_data c) false in
  if re_stopped r then Ok (vars (co_proc c) (co_receive_source_pairs c), false) else
  '(u, pairs) ←
    (if bool_decide (length (pv_receive_source_pairs v) = length (co_receive_source_pairs c)) then
       u ← prepare (co_receive_source_pairs c) block_height confirmation_height iterated_height account_a
             receive_details already_traversed current (co_block_callback_data c)
             (co_orig_block_callback_data c) (co_proc c);
       Ok (u, tail (co_receive_source_pairs c))
     else Ok (note_iterated account_a block_height confirmation_height iterated_height (co_proc c),
              co_receive_source_pairs c));
  u ← maybe_cement batch_write_size r pairs u;
  Ok (vars u pairs, (negb (bool_decide (pairs = [])) || negb (current =? original_hash)) &&
    negb (re_stopped_at_end r)).

Fixpoint process_loop (fuel : nat) (batch_write_size : Z) (rounds : nat → round_env)
    (original_block : block_w_sideband) (v : process_vars) : run_result process_vars :=
  match fuel with
  | O => OutOfFuel
  | S fuel =>
      '(v, continue) ← lift (process_round batch_write_size (rounds fuel) original_block v);
      if (continue : bool) then process_loop fuel batch_write_size rounds original_block v else Done v
  end.

(** [process]. *)
Definition unbounded_process (fuel : nat) (batch_write_size : Z) (rounds : nat → round_env)
    (original_block : block_w_sideband) (u : unbounded) : run_result unbounded :=
  let u := if pending_empty u then clear_process_vars u else u in
  v ← process_loop fuel batch_write_size rounds original_block
        (ProcessVars u [] None (block_hash original_block.1) [] true);
  Done (pv_proc v).
End processor.
