(* ===== verification/Chains.v ===== *)
(** * Account chains and dependencies

    The shape of the block table that confirmation relies on: heights count the
    blocks of an account from one, a block lies one above its predecessor, and
    following predecessors and sources never returns to the start.  From this the
    walks of the confirmation height processor are described: the blocks below a
    block in its chain, and what a block depends on. *)

From S2P Require Import Prelude Blocks BlockCodec Common RepWeights EpochsWork Store Ledger Rollback.
From S2P Require Import ConfirmationHeight.

Section chains.
Context `{Crypto} (constants : ledger_constants) (s : store).

Definition stored (k : Z) : Prop := is_Some (st_blocks s !! k).
Definition chain_of (k : Z) : Z := from_option account_calculated 0 (st_blocks s !! k).
Definition height_of (k : Z) : Z := from_option (λ e, sb_height e.2) 0 (st_blocks s !! k).
Definition previous_of (k : Z) : Z := from_option (λ e, previous e.1) 0 (st_blocks s !! k).
Definition source_of (k : Z) : option Z := st_blocks s !! k ≫= λ e, walk_source constants s e.1.

(** A block depends on its predecessor and, if it is a receive, on its source. *)
Definition depends (k y : Z) : Prop :=
  stored k ∧ stored y ∧ (1 < height_of k ∧ y = previous_of k ∨ source_of k = Some y).

(** The chains above the heights [floor], below which blocks may be pruned; [rank]
    decreases along dependencies. *)
Record chains (floor : Z → Z) (rank : Z → nat) : Prop := {
  ch_key : ∀ k e, st_blocks s !! k = Some e →
    k ≠ 0 ∧ block_hash e.1 = k ∧ 1 <= sb_height e.2 < u64_mod;
  ch_floor : ∀ a, 0 <= floor a;
  ch_stored : ∀ k, stored k → floor (chain_of k) + 1 < height_of k → stored (previous_of k);
  ch_previous : ∀ k, stored k → 1 < height_of k → stored (previous_of k) →
    chain_of (previous_of k) = chain_of k ∧ height_of (previous_of k) = height_of k - 1;
  ch_unique : ∀ k k', stored k → stored k' → chain_of k = chain_of k' → height_of k = height_of k' → k = k';
  ch_rank : ∀ k y, depends k y → (rank y < rank k)%nat;
}.

(** The [n] blocks from [k] downwards. *)
Fixpoint down (n : nat) (k : Z) : list Z :=
  match n with
  | O => []
  | S n => k :: down n (previous_of k)
  end.

(** The blocks of the chain of [k] above height [h], up to [k]. *)
Definition span (k h : Z) : list Z := down (Z.to_nat (height_of k - h)) k.

Lemma walk_source_stored b y : walk_source constants s b = Some y → stored y.
Proof.
  unfold walk_source. destruct (negb _ && negb _ && _) eqn:Hs; [| done]. intros [= <-].
  apply andb_true_iff in Hs as [_ Hs]. by apply bool_decide_eq_true in Hs.
Qed.

Lemma stored_source k y : source_of k = Some y → stored k ∧ stored y.
Proof.
  unfold source_of. destruct (st_blocks s !! k) as [e |] eqn:Hk; [| done]. simpl. intros He.
  split; [by exists e | by eapply walk_source_stored].
Qed.

Lemma receive_stored k y : source_of k = Some y → stored k.
Proof. apply stored_source. Qed.

Lemma depends_source k y : source_of k = Some y → depends k y.
Proof. intros Hs. destruct (stored_source k y Hs). unfold depends. auto. Qed.

Lemma length_down n k : length (down n k) = n.
Proof. revert k. induction n; intros k; simpl; auto. Qed.

Section ranked.
Context (floor : Z → Z) (rank : Z → nat) (HC : chains floor rank).

Lemma height_pos k : stored k → 1 <= height_of k < u64_mod.
Proof using HC.
  intros [e He]. unfold height_of. rewrite He. simpl. by destruct (ch_key _ _ HC k e He) as (_ & _ & ?).
Qed.

Lemma stored_nonzero k : stored k → k ≠ 0.
Proof using HC. intros [e He]. by apply (ch_key _ _ HC k e He). Qed.

Lemma above_floor k :
  stored k → floor (chain_of k) + 1 < height_of k →
  stored (previous_of k) ∧ chain_of (previous_of k) = chain_of k ∧
  height_of (previous_of k) = height_of k - 1 ∧ depends k (previous_of k).
Proof using HC.
  intros Hk Hf. pose proof (ch_floor _ _ HC (chain_of k)) as H0.
  pose proof (ch_stored _ _ HC k Hk Hf) as Hs.
  destruct (ch_previous _ _ HC k Hk ltac:(lia) Hs). split_and!; try done.
  split_and!; [done | done |]. left. split; [lia | done].
Qed.

(** Going down a chain reaches every stored block above the floor. *)
Lemma walk_down n k y :
  stored k → stored y → chain_of y = chain_of k → floor (chain_of k) < height_of y →
  height_of k = height_of y + Z.of_nat n →
  rtc depends k y ∧ ∀ m, (0 < m)%nat → down (n + m) k = down n k ++ down m y.
Proof using HC.
  revert k. induction n as [| n IH]; intros k Hk Hy Hc Hf Hh.
  - assert (k = y) as -> by (apply (ch_unique _ _ HC); [done.. | by rewrite Hc | lia]).
    split; [constructor |]. done.
  - destruct (above_floor k Hk ltac:(lia)) as (Hp & Hpc & Hph & Hd).
    destruct (IH (previous_of k) Hp Hy) as [Hr Hl]; [congruence.. | lia |].
    split; [by eapply rtc_l |]. intros m Hm. simpl. f_equal. by apply Hl.
Qed.

Lemma walk_rtc k y :
  stored k → stored y → chain_of y = chain_of k → floor (chain_of k) < height_of y <= height_of k →
  rtc depends k y.
Proof using HC.
  intros Hk Hy Hc Hh. apply (walk_down (Z.to_nat (height_of k - height_of y))); try done; lia.
Qed.

Lemma rank_rtc k y : rtc depends k y → (rank y <= rank k)%nat.
Proof using HC. induction 1 as [| k y z Hd _ IH]; [lia |]. apply (ch_rank _ _ HC) in Hd. lia. Qed.

Lemma walk_rank k y :
  stored k → stored y → chain_of y = chain_of k → floor (chain_of k) < height_of y <= height_of k →
  (rank y <= rank k)%nat.
Proof using HC. intros. by apply rank_rtc, walk_rtc. Qed.

Lemma walk_rank_lt k y :
  stored k → stored y → chain_of y = chain_of k → floor (chain_of k) < height_of y < height_of k →
  (rank y < rank k)%nat.
Proof using HC.
  intros Hk Hy Hc Hh. destruct (above_floor k Hk ltac:(lia)) as (Hp & Hpc & Hph & Hd).
  apply (ch_rank _ _ HC) in Hd. assert (rank y <= rank (previous_of k))%nat; [| lia].
  apply walk_rank; [done | done | congruence | rewrite Hpc; lia].
Qed.

Lemma source_rank k y : source_of k = Some y → (rank y < rank k)%nat.
Proof using HC. intros Hs. by apply (ch_rank _ _ HC), depends_source. Qed.

(** A block below another in rank, in the same chain, is below it in height. *)
Lemma rank_height k y :
  stored k → stored y → chain_of y = chain_of k → floor (chain_of k) < height_of y →
  (rank k < rank y)%nat → height_of k < height_of y.
Proof using HC.
  intros Hk Hy Hc Hf Hr. destruct (Z.lt_ge_cases (height_of k) (height_of y)); [done |].
  pose proof (walk_rank k y Hk Hy Hc ltac:(lia)). lia.
Qed.

(** ** Spans *)

Lemma length_span k h : h <= height_of k → Z.of_nat (length (span k h)) = height_of k - h.
Proof using. intros Hh. unfold span. rewrite length_down. lia. Qed.

Lemma span_nil k h : height_of k <= h → span k h = [].
Proof using. intros Hh. unfold span. by replace (Z.to_nat (height_of k - h)) with O by lia. Qed.

Lemma span_split k y h :
  stored k → stored y → chain_of y = chain_of k → floor (chain_of k) < height_of y <= height_of k →
  h <= height_of y → span k h = span k (height_of y) ++ span y h.
Proof using HC.
  intros Hk Hy Hc Hh Hle. destruct (Z.eq_dec h (height_of y)) as [-> | Hne].
  - by rewrite (span_nil y), app_nil_r.
  - destruct (walk_down (Z.to_nat (height_of k - height_of y)) k y) as [_ Hd]; [done.. | lia | lia |].
    unfold span. rewrite <- Hd by lia. f_equal. lia.
Qed.

Lemma span_one k : span k (height_of k - 1) = [k].
Proof using. unfold span. by replace (Z.to_nat (height_of k - (height_of k - 1))) with 1%nat by lia. Qed.

Lemma span_snoc k y :
  stored k → stored y → chain_of y = chain_of k → floor (chain_of k) < height_of y <= height_of k →
  span k (height_of y - 1) = span k (height_of y) ++ [y].
Proof using HC. intros. rewrite (span_split k y) by (done || lia). by rewrite span_one. Qed.

(** The block of a chain at a height between the floor and a stored block. *)
Lemma block_at k h :
  stored k → floor (chain_of k) < h <= height_of k →
  ∃ y, stored y ∧ chain_of y = chain_of k ∧ height_of y = h.
Proof using HC.
  intros Hk Hh. remember (Z.to_nat (height_of k - h)) as n eqn:Hn.
  revert k Hk Hh Hn. induction n as [| n IH]; intros k Hk Hh Hn; [exists k; split_and!; done || lia |].
  destruct (above_floor k Hk ltac:(lia)) as (Hp & Hpc & Hph & _).
  destruct (IH (previous_of k) Hp) as (y & Hy & Hyc & Hyh); [rewrite Hpc; lia | lia |].
  exists y. split_and!; congruence.
Qed.

Lemma elem_of_span k h y :
  stored k → floor (chain_of k) <= h →
  y ∈ span k h ↔ stored y ∧ chain_of y = chain_of k ∧ h < height_of y <= height_of k.
Proof using HC.
  intros Hk Hf. unfold span.
  destruct (Z.le_gt_cases (height_of k) h) as [Hle | Hgt].
  { replace (Z.to_nat (height_of k - h)) with O by lia. simpl. rewrite elem_of_nil. split; [done | lia]. }
  remember (Z.to_nat (height_of k - h)) as n eqn:Hn.
  revert k Hk Hf Hgt Hn. induction n as [| n IH]; intros k Hk Hf Hgt Hn; [lia |].
  simpl. rewrite elem_of_cons. destruct n as [| n].
  - simpl. rewrite elem_of_nil. split.
    + intros [-> | []]. split_and!; [done | done | lia | lia].
    + intros (Hy & Hc & Hh). left. apply (ch_unique _ _ HC); [done.. | lia].
  - destruct (above_floor k Hk ltac:(lia)) as (Hp & Hpc & Hph & _).
    rewrite IH by (done || rewrite ?Hpc; lia). rewrite Hpc. split.
    + intros [-> | (Hy & Hc & Hh)]; [split_and!; done || lia |]. split_and!; done || lia.
    + intros (Hy & Hc & Hh). destruct (Z.eq_dec (height_of y) (height_of k)).
      * left. by apply (ch_unique _ _ HC).
      * right. split_and!; done || lia.
Qed.

Lemma span_cons k h :
  stored k → floor (chain_of k) <= h → h + 1 < height_of k →
  span k h = k :: span (previous_of k) h.
Proof using HC.
  intros Hk Hf Hh. destruct (above_floor k Hk ltac:(lia)) as (_ & _ & Hph & _). unfold span. rewrite Hph.
  by replace (Z.to_nat (height_of k - h)) with (S (Z.to_nat (height_of k - 1 - h))) by lia.
Qed.

(** ** Orders of cementing *)

(** The blocks [l] can be cemented one after the other when those in [base] are. *)
Inductive announces (base : Z → Prop) : list Z → Prop :=
| announces_nil : announces base []
| announces_snoc l k :
    announces base l → stored k → ¬ base k → k ∉ l →
    (∀ y, depends k y → base y ∨ y ∈ l) → announces base (l ++ [k]).

Lemma announces_NoDup base l : announces base l → NoDup l.
Proof using.
  induction 1 as [| l k _ IH _ _ Hk _]; [constructor |]. apply NoDup_app. split_and!; [done | | apply NoDup_singleton].
  intros x Hx ->%list_elem_of_singleton. done.
Qed.

Lemma announces_elem base l k : announces base l → k ∈ l → stored k ∧ ¬ base k.
Proof using.
  induction 1 as [| l j _ IH Hs Hb _ _]; [by intros ?%elem_of_nil |].
  rewrite elem_of_app, list_elem_of_singleton. intros [? | ->]; auto.
Qed.

Lemma announces_order base l l1 k l2 y :
  announces base l → l = l1 ++ k :: l2 → depends k y → base y ∨ y ∈ l1.
Proof using.
  intros Hl. revert l2. induction Hl as [| l j Hl IH _ _ _ Hd]; intros l2 He Hy; [by destruct l1 |].
  destruct l2 as [| j' l2 _] using rev_ind.
  - apply app_inj_tail in He as [<- <-]. auto.
  - rewrite app_comm_cons, app_assoc in He. apply app_inj_tail in He as [He _]. by eapply IH.
Qed.

Lemma announces_closed base l k y :
  announces base l → k ∈ l → depends k y → base y ∨ y ∈ l.
Proof using.
  induction 1 as [| l k' _ IH _ _ _ Hd]; [by intros ?%elem_of_nil |].
  rewrite !elem_of_app, list_elem_of_singleton. intros [Hk | ->] Hy.
  - destruct (IH Hk Hy); auto.
  - destruct (Hd y Hy); auto.
Qed.

Lemma announces_span base l k h :
  announces base l → stored k → floor (chain_of k) <= h →
  (∀ y, y ∈ span k h → ¬ base y ∧ (y ∉ l) ∧ (∀ z, source_of y = Some z → base z ∨ z ∈ l)) →
  (∀ y, stored y → chain_of y = chain_of k → height_of y = h → base y ∨ y ∈ l) →
  announces base (l ++ reverse (span k h)).
Proof using HC.
  intros Hl Hk Hf Hy Hbase.
  destruct (Z.le_gt_cases (height_of k) h) as [Hle | Hgt].
  { by rewrite span_nil, app_nil_r by done. }
  remember (Z.to_nat (height_of k - h - 1)) as n eqn:Hn.
  revert k Hk Hf Hy Hbase Hgt Hn. induction n as [| n IH]; intros k Hk Hf Hy Hbase Hgt Hn.
  - replace h with (height_of k - 1) in Hy, Hbase |- * by lia. rewrite span_one in Hy |- *.
    destruct (Hy k) as (Hb & Hkl & Hs); [by apply list_elem_of_singleton |].
    apply announces_snoc; [done.. |]. intros y (_ & Hys & [[H1 ->] | Hs']); [| auto].
    destruct (ch_previous _ _ HC k Hk H1 Hys). auto.
  - destruct (above_floor k Hk ltac:(lia)) as (Hp & Hpc & Hph & _).
    rewrite span_cons in Hy |- * by (done || lia). rewrite reverse_cons, app_assoc.
    destruct (Hy k) as (Hb & Hkl & Hs); [apply list_elem_of_here |].
    apply announces_snoc; [| done.. | |].
    + apply IH; rewrite ?Hpc; [done | done | | | lia | lia].
      * intros y Hyin. apply Hy. by right.
      * rewrite <- Hpc. intros y Hys Hyc Hyh. apply Hbase; congruence.
    + rewrite elem_of_app, elem_of_reverse. intros [Hin | Hin]; [done |].
      apply elem_of_span in Hin as (_ & _ & Hin); [lia | done | by rewrite Hpc].
    + intros y (_ & Hys & [[H1 ->] | Hs']).
      * right. apply elem_of_app. right. apply elem_of_reverse, elem_of_span; [done | by rewrite Hpc |].
        split_and!; done || lia.
      * destruct (Hs y Hs'); [by left |]. right. apply elem_of_app. by left.
Qed.
End ranked.
End chains.
