(* ===== verification/CementWalk.v ===== *)
(** * Walking a chain for its receives

    What the loop of [collect_unconfirmed_receive_and_sources_for_account] finds
    between two heights of a chain: the receive blocks, lowest on top of the
    stack, each with the blocks below it down to the next one, and the blocks above
    the highest receive for the observers. *)

From S2P Require Import Prelude Blocks BlockCodec Common RepWeights EpochsWork Store Ledger Rollback.
From S2P Require Import ConfirmationHeight Chains.

(** A stack entry with what is known of it: the receive, its source, the height down
    to which its details reach and the callbacks of the walk from its source. *)
Record frame := Frame {
  fr_id : nat;
  fr_receive : Z;
  fr_source : Z;
  fr_low : Z;
  fr_callbacks : list Z;
}.

Definition fr_pair (f : frame) : receive_source_pair := (fr_id f, fr_source f).

Section walk.
Context `{Crypto} (constants : ledger_constants) (s : store).
Context (floor : Z → Z) (rank : Z → nat) (HC : chains constants s floor rank).

Abbreviation stored := (stored s).
Abbreviation chain_of := (chain_of s).
Abbreviation height_of := (height_of s).
Abbreviation previous_of := (previous_of s).
Abbreviation source_of := (source_of constants s).
Abbreviation span := (span s).

Definition fr_details (f : frame) : conf_height_details :=
  ConfHeightDetails (chain_of (fr_receive f)) (fr_receive f) (height_of (fr_receive f))
    (height_of (fr_receive f) - fr_low f) (span (fr_receive f) (fr_low f)) (fr_callbacks f).

(** The processor reads the blocks of [s]. *)
Definition reads (u : unbounded) : Prop :=
  st_blocks (lg_store (ub_ledger u)) = st_blocks s ∧
  ∀ k b, ub_block_cache u !! k = Some b → b = st_blocks s !! k.

Lemma walk_source_reads u b :
  reads u → walk_source constants (lg_store (ub_ledger u)) b = walk_source constants s b.
Proof using. intros [Hb _]. unfold walk_source, block_exists. by rewrite Hb. Qed.

(** What a walk over the heights above [lo] up to [hi] of the chain [a] leaves alone
    and what it adds. *)
Record grown (a lo hi : Z) (u u' : unbounded) : Prop := {
  gr_ledger : ub_ledger u' = ub_ledger u;
  gr_pairs : ub_confirmed_iterated_pairs u' = ub_confirmed_iterated_pairs u;
  gr_writes : ub_pending_writes u' = ub_pending_writes u;
  gr_events : ub_events u' = ub_events u;
  gr_reads : reads u';
  gr_cache : ∀ k, is_Some (ub_block_cache u !! k) → is_Some (ub_block_cache u' !! k);
  gr_cached : ∀ k, stored k → chain_of k = a → lo < height_of k <= hi → is_Some (ub_block_cache u' !! k);
  gr_mapping : ∀ k,
    ub_implicit_receive_cemented_mapping u' !! k = ub_implicit_receive_cemented_mapping u !! k ∨
    stored k ∧ chain_of k = a ∧ lo < height_of k <= hi;
}.

(** The frames of the receives above [it] up to [top] in chain [a]. *)
Record batch (a it top : Z) (heap : list conf_height_details) (mapping : gmap Z nat) (G : list frame) :
    Prop := {
  ba_frame : ∀ f, f ∈ G →
    fr_callbacks f = [] ∧ chain_of (fr_receive f) = a ∧ source_of (fr_receive f) = Some (fr_source f) ∧
    heap !! fr_id f = Some (fr_details f) ∧
    it <= fr_low f < height_of (fr_receive f) ∧ height_of (fr_receive f) <= top ∧
    (fr_low f = it ∨ ∃ f', f' ∈ G ∧ fr_low f = height_of (fr_receive f')) ∧
    ∀ k, stored k → chain_of k = a → fr_low f < height_of k < height_of (fr_receive f) →
      source_of k = None ∧ mapping !! k = Some (fr_id f);
  ba_ids : NoDup (map fr_id G);
  ba_sorted : StronglySorted (λ f f', height_of (fr_receive f) < height_of (fr_receive f')) G;
  ba_complete : ∀ k y, source_of k = Some y → chain_of k = a → it < height_of k <= top →
    ∃ f, f ∈ G ∧ fr_receive f = k;
}.

Lemma cache_insert u k :
  reads u →
  reads (ub_set_cache <[k := st_blocks s !! k]> u) ∧
  is_Some (<[k := st_blocks s !! k]> (ub_block_cache u) !! k) ∧
  ∀ j, is_Some (ub_block_cache u !! j) → is_Some (<[k := st_blocks s !! k]> (ub_block_cache u) !! j).
Proof using.
  intros [Hb Hc]. split_and!.
  - split; [done |]. simpl. intros j b. destruct (decide (j = k)) as [-> | Hne].
    + rewrite lookup_insert_eq. by intros [= <-].
    + rewrite lookup_insert_ne by done. apply Hc.
  - rewrite lookup_insert_eq. eauto.
  - intros j Hj. destruct (decide (j = k)) as [-> | Hne]; [rewrite lookup_insert_eq; eauto |].
    by rewrite lookup_insert_ne.
Qed.

Lemma get_block_ok u k :
  reads u →
  ∃ f, get_block_and_sideband u k = (st_blocks s !! k, ub_set_cache f u) ∧ reads (ub_set_cache f u) ∧
    is_Some (f (ub_block_cache u) !! k) ∧
    ∀ j, is_Some (ub_block_cache u !! j) → is_Some (f (ub_block_cache u) !! j).
Proof using.
  intros Hr. unfold get_block_and_sideband. destruct (ub_block_cache u !! k) as [b |] eqn:Hk.
  - destruct Hr as [Hb Hc]. rewrite (Hc k b Hk). exists id. split_and!; [by destruct u | done | | done].
    simpl. rewrite Hk. eauto.
  - unfold block_get. rewrite (proj1 Hr). eexists. split; [done |]. by apply cache_insert.
Qed.

Lemma block_fields k b :
  st_blocks s !! k = Some b →
  stored k ∧ chain_of k = account_calculated b ∧ height_of k = sb_height b.2 ∧
  previous_of k = previous b.1 ∧ source_of k = walk_source constants s b.1.
Proof using.
  intros Hb. unfold Chains.stored, Chains.chain_of, Chains.height_of, Chains.previous_of, Chains.source_of.
  rewrite Hb. simpl. eauto.
Qed.

Lemma grown_nothing a lo hi u : reads u → hi <= lo → grown a lo hi u u.
Proof using. intros Hr Hle. split; try done; [lia | by left]. Qed.

(** One block at height [hi], then the rest of the walk. *)
Lemma grown_step a lo hi k u u1 u' :
  stored k → chain_of k = a → height_of k = hi → lo < hi →
  ub_ledger u1 = ub_ledger u → ub_confirmed_iterated_pairs u1 = ub_confirmed_iterated_pairs u →
  ub_pending_writes u1 = ub_pending_writes u → ub_events u1 = ub_events u →
  (∀ j, is_Some (ub_block_cache u !! j) → is_Some (ub_block_cache u1 !! j)) →
  is_Some (ub_block_cache u1 !! k) →
  (∀ j, j ≠ k → ub_implicit_receive_cemented_mapping u1 !! j = ub_implicit_receive_cemented_mapping u !! j) →
  grown a lo (hi - 1) u1 u' → grown a lo hi u u'.
Proof using HC.
  intros Hk Ha Hh Hlo Hl Hp Hw He Hc Hck Hm [? ? ? ? ? Hc1 Hc2 Hm1]. split; try congruence.
  - intros j Hj. by apply Hc1, Hc.
  - intros j Hj Hja Hjh. destruct (Z.eq_dec (height_of j) hi) as [He' | Hne].
    + assert (j = k) as -> by (apply (ch_unique _ _ _ _ HC); [done.. | congruence | congruence]).
      by apply Hc1.
    + apply Hc2; [done.. | lia].
  - intros j. destruct (decide (j = k)) as [-> | Hne]; [right; split_and!; done || lia |].
    destruct (Hm1 j) as [-> | (? & ? & ?)]; [left; by apply Hm | right; split_and!; done || lia].
Qed.

(** A batch below a receive that lies above it. *)
Lemma batch_snoc a it top heap mapping G d r y :
  batch a it top heap mapping G → stored r → chain_of r = a → source_of r = Some y →
  it <= top < height_of r → heap !! d = Some (fr_details (Frame d r y top [])) →
  (∀ k, stored k → chain_of k = a → top < height_of k < height_of r →
    source_of k = None ∧ mapping !! k = Some d) →
  d ∉ map fr_id G → (∃ f, f ∈ G ∧ height_of (fr_receive f) = top) →
  batch a it (height_of r) heap mapping (G ++ [Frame d r y top []]).
Proof using HC.
  intros [Hfr Hnd Hso Hco] Hr Ha Hs Htop Hheap Hbet Hid (f0 & Hf0 & Hf0h).
  assert (Hin : Frame d r y top [] ∈ G ++ [Frame d r y top []])
    by (apply elem_of_app; right; by apply list_elem_of_singleton).
  split.
  - intros f [Hf | ->%list_elem_of_singleton]%elem_of_app.
    + destruct (Hfr f Hf) as (? & ? & ? & ? & ? & ? & Hl & ?). split_and!; try done || lia.
      destruct Hl as [? | (f' & ? & ?)]; [by left |]. right. exists f'. rewrite elem_of_app. auto.
    + simpl. split_and!; try done || lia. right. exists f0. rewrite elem_of_app. auto.
  - rewrite map_app. apply NoDup_app. split_and!; [done | | apply NoDup_singleton].
    by intros i Hi ->%list_elem_of_singleton.
  - apply StronglySorted_app; split_and!; [| done | repeat constructor].
    intros f f' Hf ->%list_elem_of_singleton. destruct (Hfr f Hf) as (? & ? & ? & ? & ? & ? & _). simpl. lia.
  - intros k y' Hk Hka Hkh. destruct (Z.le_gt_cases (height_of k) top).
    + destruct (Hco k y' Hk Hka ltac:(lia)) as (f & Hf & <-). exists f. rewrite elem_of_app. auto.
    + exists (Frame d r y top []). split; [done |]. simpl.
      destruct (Z.eq_dec (height_of k) (height_of r)).
      * symmetry. apply (ch_unique _ _ _ _ HC); [by eapply receive_stored | done | congruence | done].
      * destruct (Hbet k) as [Hno _]; [by eapply receive_stored | done | lia | congruence].
Qed.

(** The walk below a receive that has been pushed. *)
Lemma collect_hit n it a hash c d y rest r :
  floor a <= it → stored r → chain_of r = a → it + Z.of_nat n < height_of r →
  ((0 < n)%nat → stored hash ∧ chain_of hash = a ∧ height_of hash = it + Z.of_nat n) →
  co_hit_receive c = true → co_is_original_block c = false → co_receive_source_pairs c = (d, y) :: rest →
  reads (co_proc c) → source_of r = Some y →
  ub_heap (co_proc c) !! d = Some (fr_details (Frame d r y (it + Z.of_nat n) [])) →
  (∀ k, stored k → chain_of k = a → it + Z.of_nat n < height_of k < height_of r →
    source_of k = None ∧ ub_implicit_receive_cemented_mapping (co_proc c) !! k = Some d) →
  ∃ c' G, collect constants false n it a None hash c = Ok c' ∧
    co_receive_source_pairs c' = map fr_pair G ++ rest ∧
    co_block_callback_data c' = co_block_callback_data c ∧
    co_orig_block_callback_data c' = co_orig_block_callback_data c ∧
    grown a it (it + Z.of_nat n) (co_proc c) (co_proc c') ∧
    (∃ G' low, G = G' ++ [Frame d r y low []]) ∧
    (length (ub_heap (co_proc c)) <= length (ub_heap (co_proc c')))%nat ∧
    (∀ i, (i < length (ub_heap (co_proc c)))%nat → i ≠ d →
      ub_heap (co_proc c') !! i = ub_heap (co_proc c) !! i) ∧
    (∀ f, f ∈ G → fr_id f = d ∨ (length (ub_heap (co_proc c)) <= fr_id f)%nat) ∧
    batch a it (height_of r) (ub_heap (co_proc c')) (ub_implicit_receive_cemented_mapping (co_proc c')) G.
Proof using HC.
  intros Hf Hr Ha. revert hash c d y rest r Hr Ha.
  induction n as [| n IH]; intros hash c d y rest r Hr Ha Hn Hhash Hhit Horig Hpairs Hreads Hsrc Hheap Hbet.
  - replace (it + Z.of_nat 0) with it in * by lia.
    exists c, [Frame d r y it []]. split_and!; simpl; try done.
    + by apply grown_nothing.
    + exists [], it. done.
    + intros f ->%list_elem_of_singleton. by left.
    + split.
      * intros f ->%list_elem_of_singleton. simpl. split_and!; try done || lia; by left.
      * apply NoDup_singleton.
      * repeat constructor.
      * intros k y' Hk Hka Hkh. exists (Frame d r y it []). split; [by apply list_elem_of_singleton |]. simpl.
        destruct (Z.eq_dec (height_of k) (height_of r)) as [He | Hne].
        -- symmetry. apply (ch_unique _ _ _ _ HC); [by eapply receive_stored | done | congruence | done].
        -- destruct (Hbet k) as [Hno _]; [by eapply receive_stored | done | lia | congruence].
  - destruct Hhash as (Hst & Hca & Hhe); [lia |].
    pose proof (stored_nonzero _ _ _ _ HC hash Hst) as Hnz.
    destruct Hst as [b Hb]. destruct (block_fields hash b Hb) as (Hst & _ & _ & Hpb & Hsb).
    cbn [collect]. rewrite (proj2 (Z.eqb_neq hash 0) Hnz). cbn [orb].
    destruct (get_block_ok (co_proc c) hash Hreads) as (g & Hget & Hr1 & Hck & Hcs).
    rewrite Hget, Hb. rewrite walk_source_reads, <- Hsb by done.
    assert (Hnext : (0 < n)%nat → stored (previous b.1) ∧ chain_of (previous b.1) = a ∧
      height_of (previous b.1) = it + Z.of_nat n).
    { intros Hn0. rewrite <- Hpb. destruct (above_floor _ _ _ _ HC hash Hst) as (? & ? & ? & _); [rewrite Hca; lia |].
      split_and!; [done | congruence | lia]. }
    destruct (source_of hash) as [y' |] eqn:Hs'.
    + (* another receive *)
      unfold collect_receive. cbn [co_hit_receive]. rewrite Hhit. cbn [negb andb mbind outcome_bind].
      set (c1 := CollectState _ _ _ _ _ _).
      destruct (IH (previous b.1) c1 (length (ub_heap (co_proc c))) y' ((d, y) :: rest) hash)
        as (c' & G & Hc & Hp' & Hcb & Hor & Hgr & (G' & low & HG) & Hlen & Hold & Hids & Hba); try done.
      { lia. }
      { by rewrite <- Hpairs. }
      { simpl. rewrite lookup_app_r, Nat.sub_diag by lia. simpl. unfold fr_details. simpl.
        replace (it + Z.of_nat n) with (height_of hash - 1) by lia.
        rewrite (span_one s hash), Hca. do 2 f_equal; lia. }
      { intros; lia. }
      assert (Hd : (d < length (ub_heap (co_proc c)))%nat) by (by eapply lookup_lt_Some).
      assert (Hl1 : length (ub_heap (co_proc c1)) = S (length (ub_heap (co_proc c))))
        by (simpl; rewrite length_app; simpl; lia).
      rewrite Hl1 in Hlen, Hids. rewrite Hl1 in Hold.
      assert (Hgr' : grown a it (it + Z.of_nat (S n)) (co_proc c) (co_proc c')).
      { apply (grown_step _ _ _ hash _ (co_proc c1)); try done; [lia |].
        replace (it + Z.of_nat (S n) - 1) with (it + Z.of_nat n) by lia. done. }
      exists c', (G ++ [Frame d r y (it + Z.of_nat (S n)) []]).
      split_and!; [done | by rewrite Hp', map_app, <- app_assoc | by rewrite Hcb | by rewrite Hor | done
        | by eexists _, _ | lia | | |].
      * intros i Hi Hid. rewrite Hold by lia. simpl. by rewrite lookup_app_l.
      * intros f [Hin | ->%list_elem_of_singleton]%elem_of_app; [| by left].
        right. destruct (Hids f Hin); lia.
      * rewrite Hhe in Hba. apply batch_snoc; try done.
        -- lia.
        -- rewrite Hold by lia. simpl. by rewrite lookup_app_l.
        -- intros k Hk Hka Hkh. destruct (Hbet k Hk Hka Hkh) as [? Hm]. split; [done |].
           destruct (gr_mapping _ _ _ _ _ Hgr k) as [-> | (_ & _ & ?)]; [| lia]. done.
        -- intros (f & Hfd & Hin)%list_elem_of_fmap. destruct (Hids f Hin); lia.
        -- exists (Frame (length (ub_heap (co_proc c))) hash y' low []). rewrite HG. split; [| done].
           apply elem_of_app. right. by apply list_elem_of_singleton.
    + (* a block below the receive *)
      unfold collect_other. cbn [co_is_original_block co_hit_receive co_receive_source_pairs].
      rewrite Horig, Hhit, Hpairs. cbn [negb mbind outcome_bind].
      set (c1 := CollectState _ _ _ _ _ _).
      destruct (IH (previous b.1) c1 d y rest r)
        as (c' & G & Hc & Hp' & Hcb & Hor & Hgr & Hlast & Hlen & Hold & Hids & Hba); try done.
      { lia. }
      { simpl. rewrite list_lookup_alter_eq, Hheap. simpl. unfold add_callback, fr_details. simpl. do 2 f_equal.
        - rewrite wrap64_small; [lia |]. pose proof (height_pos _ _ _ _ HC r Hr). 
          pose proof (ch_floor _ _ _ _ HC a). unfold is_u64. lia.
        - replace (it + Z.of_nat n) with (height_of hash - 1) by lia. rewrite <- Hhe. symmetry.
          apply (span_snoc _ _ _ _ HC); [done | done | congruence | rewrite Ha; lia]. }
      { simpl. intros k Hk Hka Hkh. destruct (Z.eq_dec (height_of k) (height_of hash)) as [He | Hne].
        - assert (k = hash) as -> by (apply (ch_unique _ _ _ _ HC); [done.. | congruence | done]).
          split; [done | by rewrite lookup_insert_eq].
        - destruct (Hbet k Hk Hka ltac:(lia)) as [? Hm]. split; [done |].
          by rewrite lookup_insert_ne by congruence. }
      assert (Hl1 : length (ub_heap (co_proc c1)) = length (ub_heap (co_proc c)))
        by (simpl; by rewrite length_alter).
      rewrite Hl1 in Hlen, Hids. rewrite Hl1 in Hold.
      exists c', G. split_and!; [done | done | by rewrite Hcb | by rewrite Hor | | done | done | | done | done].
      * apply (grown_step _ _ _ hash _ (co_proc c1)); try done; [lia | |].
        -- intros j Hj. simpl. by rewrite lookup_insert_ne by done.
        -- replace (it + Z.of_nat (S n) - 1) with (it + Z.of_nat n) by lia. done.
      * intros i Hi Hid. rewrite Hold by done. simpl. by rewrite list_lookup_alter_ne.
Qed.

(** The blocks above the highest receive go to the original block or to the details
    on top of the stack. *)
Definition callbacks_left (c c' : collect_state) (l : list Z) (hit : bool) : Prop :=
  if co_is_original_block c then
    co_orig_block_callback_data c' = co_orig_block_callback_data c ++ l ∧
    co_block_callback_data c' = [] ∧
    (∀ i, (i < length (ub_heap (co_proc c)))%nat → ub_heap (co_proc c') !! i = ub_heap (co_proc c) !! i)
  else
    co_orig_block_callback_data c' = co_orig_block_callback_data c ∧
    if hit then
      co_block_callback_data c' = [] ∧
      ∃ d y rest, co_receive_source_pairs c = (d, y) :: rest ∧ (d < length (ub_heap (co_proc c)))%nat ∧
        ub_heap (co_proc c') !! d =
          set_source_callbacks (co_block_callback_data c ++ l) <$> ub_heap (co_proc c) !! d ∧
        ∀ i, (i < length (ub_heap (co_proc c)))%nat → i ≠ d →
          ub_heap (co_proc c') !! i = ub_heap (co_proc c) !! i
    else
      co_block_callback_data c' = co_block_callback_data c ++ l ∧
      ub_heap (co_proc c') = ub_heap (co_proc c).

(** Where callbacks can go when the walk starts. *)
Definition callbacks_room (c : collect_state) : Prop :=
  if co_is_original_block c then co_block_callback_data c = []
  else ∃ d y rest details, co_receive_source_pairs c = (d, y) :: rest ∧
    ub_heap (co_proc c) !! d = Some details ∧ cd_source_block_callback_data details = [].

Definition no_receive (a lo hi : Z) : Prop :=
  ∀ k, stored k → chain_of k = a → lo < height_of k <= hi → source_of k = None.

(** Pushing the first receive of a walk. *)
Lemma collect_first_receive a hash h y c :
  co_hit_receive c = false → callbacks_room c →
  ∃ c1, collect_receive a hash h y c = Ok c1 ∧ callbacks_left c c1 [] true ∧
    co_hit_receive c1 = true ∧ co_is_original_block c1 = false ∧
    co_receive_source_pairs c1 = (length (ub_heap (co_proc c)), y) :: co_receive_source_pairs c ∧
    (∃ l, co_proc c1 = ub_set_heap (λ _, l) (co_proc c)) ∧
    length (ub_heap (co_proc c1)) = S (length (ub_heap (co_proc c))) ∧
    ub_heap (co_proc c1) !! length (ub_heap (co_proc c)) = Some (ConfHeightDetails a hash h 1 [hash] []).
Proof using.
  intros Hhit Hroom. unfold collect_receive, callbacks_room, callbacks_left in *. rewrite Hhit. cbn [negb andb].
  destruct (co_is_original_block c).
  - rewrite Hroom. cbn [mbind outcome_bind bool_decide negb]. eexists. split; [done |]. simpl.
    split_and!; try done.
    + by rewrite app_nil_r.
    + intros i Hi. by rewrite lookup_app_l.
    + by eexists.
    + rewrite length_app. simpl. lia.
    + by rewrite lookup_app_r, Nat.sub_diag by lia.
  - destruct Hroom as (d & y0 & rest & details & Hp & Hd & Hs). rewrite Hp, app_nil_r.
    assert (Hlt : (d < length (ub_heap (co_proc c)))%nat) by (by eapply lookup_lt_Some).
    case_bool_decide as Hcb; cbn [mbind outcome_bind negb]; (eexists; split; [done |]); simpl.
    + rewrite Hcb. split_and!; try done.
      * exists d, y0, rest. split_and!; [done | done | | by intros; rewrite lookup_app_l].
        rewrite lookup_app_l, Hd by done. simpl. by destruct details; simpl in *; subst.
      * by eexists.
      * rewrite length_app. simpl. lia.
      * by rewrite lookup_app_r, Nat.sub_diag by lia.
    + rewrite length_alter. split_and!; try done.
      * exists d, y0, rest. split_and!; [done | done | |].
        -- by rewrite lookup_app_l, list_lookup_alter_eq by (by rewrite length_alter).
        -- intros i Hi Hid. by rewrite lookup_app_l, list_lookup_alter_ne by (done || by rewrite length_alter).
      * by eexists.
      * rewrite length_app, length_alter. simpl. lia.
      * by rewrite lookup_app_r, length_alter, Nat.sub_diag by (rewrite length_alter; lia).
Qed.

(** A block above the first receive. *)
Lemma collect_other_ok hash c :
  co_hit_receive c = false → callbacks_room c →
  ∃ c1, collect_other hash c = Ok c1 ∧ co_proc c1 = co_proc c ∧
    co_receive_source_pairs c1 = co_receive_source_pairs c ∧ co_hit_receive c1 = false ∧ callbacks_room c1 ∧
    ∀ c' l hit, callbacks_left c1 c' l hit → callbacks_left c c' (hash :: l) hit.
Proof using.
  intros Hhit Hroom. unfold collect_other, callbacks_left, callbacks_room in *. rewrite Hhit. cbn [negb].
  destruct (co_is_original_block c) eqn:Ho; (eexists; split; [done |]); simpl; split_and!; try done.
  - intros c' l _. by rewrite <- app_assoc.
  - intros c' l hit. by rewrite <- app_assoc.
Qed.

Lemma no_receive_extend a lo hi k :
  stored k → chain_of k = a → height_of k = hi → source_of k = None → no_receive a lo (hi - 1) → no_receive a lo hi.
Proof using HC.
  intros Hk Ha Hh Hs Hn j Hj Hja Hjh. destruct (Z.eq_dec (height_of j) hi) as [He | Hne].
  - assert (j = k) as -> by (apply (ch_unique _ _ _ _ HC); [done.. | congruence | congruence]). done.
  - apply Hn; [done.. | lia].
Qed.

(** The whole walk: there is no receive, or the receives form a batch below [r]. *)
Lemma collect_walk n it a hash c first :
  floor a <= it → ((0 < n)%nat → stored hash ∧ chain_of hash = a ∧ height_of hash = it + Z.of_nat n) →
  co_hit_receive c = false → reads (co_proc c) → (∀ b, first = Some b → st_blocks s !! hash = Some b) →
  callbacks_room c →
  ∃ c', collect constants false n it a first hash c = Ok c' ∧
    grown a it (it + Z.of_nat n) (co_proc c) (co_proc c') ∧
    (no_receive a it (it + Z.of_nat n) ∧ co_receive_source_pairs c' = co_receive_source_pairs c ∧
     (∃ g, co_proc c' = ub_set_cache g (co_proc c)) ∧ callbacks_left c c' (down s n hash) false ∨
     ∃ r y G, source_of r = Some y ∧ chain_of r = a ∧ it < height_of r <= it + Z.of_nat n ∧
       no_receive a (height_of r) (it + Z.of_nat n) ∧
       co_receive_source_pairs c' = map fr_pair G ++ co_receive_source_pairs c ∧
       (∃ G' f, G = G' ++ [f] ∧ fr_receive f = r) ∧
       batch a it (height_of r) (ub_heap (co_proc c')) (ub_implicit_receive_cemented_mapping (co_proc c')) G ∧
       (∀ f, f ∈ G → (length (ub_heap (co_proc c)) <= fr_id f)%nat) ∧
       callbacks_left c c' (down s (Z.to_nat (it + Z.of_nat n - height_of r)) hash) true).
Proof using HC.
  intros Hf. revert hash c first. induction n as [| n IH]; intros hash c first Hhash Hhit Hreads Hfirst Hroom.
  { exists c. split_and!; [done | apply grown_nothing; [done | lia] |]. left.
    split_and!; [intros k ? ? ?; lia | done | by exists id; destruct (co_proc c) |]. unfold callbacks_left, callbacks_room in *. rewrite app_nil_r. simpl. destruct (co_is_original_block c); [done |].
    by rewrite app_nil_r. }
  destruct Hhash as (Hst & Hca & Hhe); [lia |].
  pose proof (stored_nonzero _ _ _ _ HC hash Hst) as Hnz.
  destruct Hst as [b Hb]. destruct (block_fields hash b Hb) as (Hst & _ & _ & Hpb & Hsb).
  assert (Hnext : (0 < n)%nat → stored (previous b.1) ∧ chain_of (previous b.1) = a ∧
    height_of (previous b.1) = it + Z.of_nat n).
  { intros Hn0. rewrite <- Hpb. destruct (above_floor _ _ _ _ HC hash Hst) as (? & ? & ? & _); [rewrite Hca; lia |].
    split_and!; [done | congruence | lia]. }
  cbn [collect]. rewrite (proj2 (Z.eqb_neq hash 0) Hnz). cbn [orb].
  assert (Hget : ∃ g, (match first with
      | Some b => (Some b, ub_set_cache <[hash := Some b]> (co_proc c))
      | None => get_block_and_sideband (co_proc c) hash
      end) = (Some b, ub_set_cache g (co_proc c)) ∧ reads (ub_set_cache g (co_proc c)) ∧
      is_Some (g (ub_block_cache (co_proc c)) !! hash) ∧
      ∀ j, is_Some (ub_block_cache (co_proc c) !! j) → is_Some (g (ub_block_cache (co_proc c)) !! j)).
  { destruct first as [b' |].
    - pose proof (Hfirst b' eq_refl) as Hb'. rewrite Hb in Hb'. injection Hb' as <-. rewrite <- Hb.
      eexists. split; [done |]. by apply cache_insert.
    - destruct (get_block_ok (co_proc c) hash Hreads) as (g & Hg & Hr). rewrite Hb in Hg. by exists g. }
  destruct Hget as (g & -> & Hr1 & Hck & Hcs). rewrite walk_source_reads, <- Hsb by done.
  set (c0 := CollectState _ _ _ _ _ _).
  destruct (source_of hash) as [y |] eqn:Hs.
  - destruct (collect_first_receive a hash (it + Z.of_nat (S n)) y c0 Hhit Hroom)
      as (c1 & -> & Hleft & Hhit1 & Ho1 & Hp1 & (l & Hl) & Hlen1 & Hd1). cbn [mbind outcome_bind].
    destruct (collect_hit n it a (previous b.1) c1 (length (ub_heap (co_proc c))) y (co_receive_source_pairs c) hash)
      as (c' & G & Hc & Hp' & Hcb & Hor & Hgr & (G' & low & HG) & Hlen & Hold & Hids & Hba); try done.
    { lia. }
    { by rewrite Hl. }
    { etrans; [exact Hd1 |]. unfold fr_details. simpl. replace (it + Z.of_nat n) with (height_of hash - 1) by lia.
      rewrite (span_one s hash), Hca. do 2 f_equal; lia. }
    { intros; lia. }
    exists c'. split; [done |]. split.
    { apply (grown_step _ _ _ hash _ (co_proc c1)); rewrite ?Hl; try done; [lia |].
      replace (it + Z.of_nat (S n) - 1) with (it + Z.of_nat n) by lia. by rewrite <- Hl. }
    right. exists hash, y, G.
    split_and!; [done | done | lia | lia | | done | | done | |].
    + intros k ? ? ?. lia.
    + by eexists _, _.
    + intros f Hin. rewrite Hlen1 in Hids. simpl in Hids. destruct (Hids f Hin); lia.
    + rewrite Hhe, Z.sub_diag. simpl. rewrite Hlen1 in Hold. simpl in Hold. revert Hleft. unfold callbacks_left. simpl.
      rewrite Hcb, Hor. destruct (co_is_original_block c).
      * intros (? & ? & Hi). split_and!; [done | done |]. intros i Hlt. rewrite Hold by lia. by apply Hi.
      * intros (? & ? & d & y0 & rest & Hp & Hlt & Hd & Hi). split_and!; [done | done |]. exists d, y0, rest.
        split_and!; [done | done | rewrite Hold by lia; done |].
        intros i Hi' Hne. rewrite Hold by lia. by apply Hi.
  - destruct (collect_other_ok hash c0 Hhit Hroom) as (c1 & -> & Hu & Hp & Hh1 & Hroom1 & Hleft).
    cbn [mbind outcome_bind].
    destruct (IH (previous b.1) c1 None Hnext Hh1) as (c' & Hc & Hgr & Hres); [by rewrite Hu | done | done |].
    replace (it + Z.of_nat n) with (it + Z.of_nat (S n) - 1) in Hgr, Hres by lia.
    exists c'. split; [done |]. split.
    { apply (grown_step _ _ _ hash _ (co_proc c1)); rewrite ?Hu; try done; [lia |]. by rewrite <- Hu. }
    destruct Hres as [(Hno & Hp' & (g' & Hg') & Hl) | (r & y & G & Hr & Hra & Hrh & Hno & Hp' & HG & Hba & Hids & Hl)].
    + left. split_and!; [by eapply no_receive_extend | by rewrite Hp', Hp | by exists (g' ∘ g); rewrite Hg', Hu |].
      simpl. rewrite Hpb.
      by apply (Hleft c' _ false).
    + right. exists r, y, G. rewrite Hu in Hids.
      split_and!; [done | done | lia | lia | by eapply no_receive_extend | by rewrite Hp', Hp | done | done | done |].
      replace (Z.to_nat (it + Z.of_nat (S n) - height_of r))
        with (S (Z.to_nat (it + Z.of_nat (S n) - 1 - height_of r))) by lia. simpl. rewrite Hpb.
      by apply (Hleft c' _ true).
Qed.
End walk.
