(* ===== verification/CementInvariant.v ===== *)
(** * The invariant of the confirmation height processor

    What holds between two rounds of [unbounded_process]: the heights known in
    memory cement a set of blocks closed under dependencies, the pending writes
    lead the table to these heights and name exactly the blocks they cement, and
    the stack lists every receive between the confirmed and the iterated heights,
    each above (in the order of dependencies) the ones that wait for it. *)

From S2P Require Import Prelude Blocks BlockCodec Common RepWeights EpochsWork Store Ledger Rollback.
From S2P Require Import LedgerInvariant ConfirmationHeight Chains CementWalk.

(** ** Updates of functions *)

Definition update (f : Z → Z) (a v : Z) : Z → Z := λ x, if decide (x = a) then v else f x.

Lemma update_eq f a v : update f a v a = v.
Proof. unfold update. by rewrite decide_True. Qed.
Lemma update_ne f a v x : x ≠ a → update f a v x = f x.
Proof. intros. unfold update. by rewrite decide_False. Qed.

Definition table_height (L : ledger) (a : Z) : Z := ch_height (confirmation_height_get (lg_store L) a).

Section invariant.
Context `{Crypto} (constants : ledger_constants) (s : store).
Context (floor : Z → Z) (rank : Z → nat) (HC : chains constants s floor rank).

Abbreviation stored := (stored s).
Abbreviation chain_of := (chain_of s).
Abbreviation height_of := (height_of s).
Abbreviation previous_of := (previous_of s).
Abbreviation source_of := (source_of constants s).
Abbreviation depends := (depends constants s).
Abbreviation span := (span s).
Abbreviation announces := (announces constants s).
Abbreviation reads := (reads s).
Abbreviation fr_details := (fr_details s).
Abbreviation no_receive := (no_receive constants s).

(** ** Pending writes *)

(** A write that raises the height of its account from [h]. *)
Record write_ok (cache : gmap Z (option block_w_sideband)) (h : Z → Z) (p : conf_height_details) : Prop := {
  wo_stored : stored (cd_hash p);
  wo_account : cd_account p = chain_of (cd_hash p);
  wo_height : cd_height p = height_of (cd_hash p);
  wo_above : floor (cd_account p) <= h (cd_account p) < cd_height p;
  wo_count : cd_num_blocks_confirmed p = cd_height p - h (cd_account p);
  wo_callbacks : cd_block_callback_data p = span (cd_hash p) (h (cd_account p));
  wo_cached : ∀ k, k ∈ cd_block_callback_data p → is_Some (cache !! k);
}.

Fixpoint writes_ok (cache : gmap Z (option block_w_sideband)) (h : Z → Z) (w : list conf_height_details)
    (conf : Z → Z) : Prop :=
  match w with
  | [] => ∀ a, h a = conf a
  | p :: w => write_ok cache h p ∧ writes_ok cache (update h (cd_account p) (cd_height p)) w conf
  end.

Lemma write_ok_ext cache h h' p : (∀ a, h a = h' a) → write_ok cache h p → write_ok cache h' p.
Proof using. intros He [? ? ? ? ? ? ?]. split; rewrite <- ?He; done. Qed.

Lemma write_ok_cache cache cache' h p :
  (∀ k, is_Some (cache !! k) → is_Some (cache' !! k)) → write_ok cache h p → write_ok cache' h p.
Proof using. intros Hc [? ? ? ? ? ? ?]. split; auto. Qed.

Lemma writes_ok_ext cache h h' w conf conf' :
  (∀ a, h a = h' a) → (∀ a, conf a = conf' a) → writes_ok cache h w conf → writes_ok cache h' w conf'.
Proof using.
  revert h h'. induction w as [| p w IH]; simpl; intros h h' Hh Hc.
  - intros Hw a. by rewrite <- Hh, <- Hc.
  - intros [Hp Hw]. split; [by eapply write_ok_ext |]. eapply IH; [| done | done].
    intros a. unfold update. by case_decide.
Qed.

Lemma writes_ok_cache cache cache' h w conf :
  (∀ k, is_Some (cache !! k) → is_Some (cache' !! k)) → writes_ok cache h w conf → writes_ok cache' h w conf.
Proof using.
  intros Hc. revert h. induction w as [| p w IH]; simpl; intros h; [done |].
  intros [Hp Hw]. split; [by eapply write_ok_cache | by apply IH].
Qed.

Lemma writes_ok_snoc cache h w conf p :
  writes_ok cache h w conf → write_ok cache conf p →
  writes_ok cache h (w ++ [p]) (update conf (cd_account p) (cd_height p)).
Proof using.
  revert h. induction w as [| q w IH]; simpl; intros h.
  - intros Hh Hp. split; [eapply write_ok_ext; [| done]; done |]. intros a. unfold update. by case_decide.
  - intros [Hq Hw] Hp. split; [done | by apply IH].
Qed.

(** The blocks a list of writes cements, in order. *)
Definition written (w : list conf_height_details) : list Z :=
  concat (map (λ p, reverse (cd_block_callback_data p)) w).

Lemma written_snoc w p : written (w ++ [p]) = written w ++ reverse (cd_block_callback_data p).
Proof using. unfold written. rewrite map_app, concat_app. simpl. by rewrite app_nil_r. Qed.

(** Cementing touches the heights and the count of cemented blocks. *)
Record cemented_ledger (L L' : ledger) : Prop := {
  cl_inv : ledger_inv L → ledger_inv L';
  cl_blocks : st_blocks (lg_store L') = st_blocks (lg_store L);
  cl_accounts : st_accounts (lg_store L') = st_accounts (lg_store L);
  cl_pending : st_pending (lg_store L') = st_pending (lg_store L);
  cl_frontier : ∀ a, confirmation_height_get (lg_store L') a = confirmation_height_get (lg_store L) a ∨
    stored (ch_frontier (confirmation_height_get (lg_store L') a)) ∧
    chain_of (ch_frontier (confirmation_height_get (lg_store L') a)) = a ∧
    height_of (ch_frontier (confirmation_height_get (lg_store L') a)) = table_height L' a;
  cl_mono : ∀ a, table_height L a <= table_height L' a;
}.

Lemma cemented_ledger_refl L : cemented_ledger L L.
Proof using. split; auto. intros a. lia. Qed.

Lemma cemented_ledger_trans L1 L2 L3 :
  cemented_ledger L1 L2 → cemented_ledger L2 L3 → cemented_ledger L1 L3.
Proof using.
  intros [? ? ? ? Hf1 Hm1] [? ? ? ? Hf2 Hm2]. split; try congruence; [auto | |].
  - intros a. destruct (Hf2 a) as [He | ?]; [| by right]. unfold table_height. rewrite He. apply Hf1.
  - intros a. specialize (Hm1 a). specialize (Hm2 a). lia.
Qed.

Lemma confirmation_height_get_put st a c a' :
  confirmation_height_get (confirmation_height_put st a c) a' =
  if decide (a' = a) then c else confirmation_height_get st a'.
Proof using.
  unfold confirmation_height_get. simpl. case_decide as Ha; [subst; by rewrite lookup_insert_eq |].
  by rewrite lookup_insert_ne.
Qed.

(** Writing the height of a stored block. *)
Lemma cement_put_ok L k n :
  stored k → table_height L (chain_of k) <= height_of k → n = height_of k - table_height L (chain_of k) →
  let L' := with_store (confirmation_height_put (lg_store L) (chain_of k) (ConfirmationHeightInfo (height_of k) k))
    (set_cemented_count (λ c, wrap64 (c + n)) L) in
  (∀ a, table_height L' a = update (table_height L) (chain_of k) (height_of k) a) ∧ cemented_ledger L L'.
Proof using.
  intros Hs Hle -> L'.
  assert (Ht : ∀ a, table_height L' a = update (table_height L) (chain_of k) (height_of k) a).
  { intros a. unfold table_height, L'. simpl. rewrite confirmation_height_get_put. unfold update. by case_decide. }
  split; [exact Ht |].
  split; try done.
  - intros HLi. split; simpl; try apply HLi.
    { intros a i Hi. destruct (inv_accounts L HLi a i Hi). by split. }
    rewrite (inv_cemented L HLi). unfold wrap64. rewrite Zplus_mod_idemp_l. f_equal.
    unfold table_height, confirmation_height_get.
    destruct (st_confirmation_height (lg_store L) !! chain_of k) as [c |] eqn:Hx; simpl.
    + rewrite (sum_map_update _ _ _ c) by done. simpl. lia.
    + rewrite sum_map_insert by done. simpl. lia.
  - intros a. unfold table_height, L'. simpl. rewrite confirmation_height_get_put.
    case_decide as Haa; [| by left]. right. simpl. by subst a.
  - intros a. rewrite Ht. unfold update. case_decide; [by subst a | lia].
Qed.

Lemma cement_write_ok cache L h p :
  write_ok cache h p → (∀ a, table_height L a = h a) → st_blocks (lg_store L) = st_blocks s →
  (∀ k b, cache !! k = Some b → b = st_blocks s !! k) →
  ∃ L', cement_write cache L p =
      Ok (L', map (λ k, st_blocks s !! k) (reverse (cd_block_callback_data p))) ∧
    (∀ a, table_height L' a = update h (cd_account p) (cd_height p) a) ∧ cemented_ledger L L'.
Proof using HC.
  intros [Hs Ha Hh Hab Hn Hcb Hca] HL Hb Hc. unfold cement_write. fold (table_height L (cd_account p)).
  rewrite HL, (proj2 (Z.ltb_lt _ _)) by lia. unfold block_get. rewrite Hb. pose proof Hs as [e He]. rewrite He.
  assert (Hm : mapM (λ k, cache !! k) (reverse (cd_block_callback_data p)) =
    Some (map (λ k, st_blocks s !! k) (reverse (cd_block_callback_data p)))).
  { apply mapM_Some_2. assert (Hin : ∀ k, k ∈ reverse (cd_block_callback_data p) → is_Some (cache !! k))
      by (intros k Hk; by apply Hca, elem_of_reverse).
    induction (reverse (cd_block_callback_data p)) as [| k l IH]; simpl; constructor.
    - destruct (Hin k (list_elem_of_here _ _)) as [b Hk]. rewrite Hk. f_equal. by apply Hc.
    - apply IH. intros j Hj. apply Hin. by right. }
  rewrite Hm. cbn [of_option mbind outcome_bind]. eexists. split; [done |]. rewrite Ha, Hh in *.
  destruct (cement_put_ok L (cd_hash p) (cd_num_blocks_confirmed p) Hs) as [Ht Hk]; [rewrite HL; lia | by rewrite HL |].
  split; [| done]. intros a. rewrite Ht. unfold update. by case_decide.
Qed.

Lemma cement_writes_ok cache w L h conf :
  writes_ok cache h w conf → (∀ a, table_height L a = h a) → st_blocks (lg_store L) = st_blocks s →
  (∀ k b, cache !! k = Some b → b = st_blocks s !! k) →
  ∃ L', cement_writes cache L w = Ok (L', map (λ k, st_blocks s !! k) (written w)) ∧
    (∀ a, table_height L' a = conf a) ∧ cemented_ledger L L'.
Proof using HC.
  revert L h. induction w as [| p w IH]; simpl; intros L h.
  - intros Hh HL Hb Hc. exists L. split_and!; [done | by intros; rewrite HL | apply cemented_ledger_refl].
  - intros [Hp Hw] HL Hb Hc. destruct (cement_write_ok cache L h p Hp HL Hb Hc) as (L1 & -> & HL1 & Hk1).
    cbn [mbind outcome_bind]. destruct (IH L1 _ Hw HL1) as (L2 & -> & HL2 & Hk2); [by rewrite (cl_blocks _ _ Hk1) | done |].
    exists L2. cbn [mbind outcome_bind]. split_and!; [| done | by eapply cemented_ledger_trans].
    unfold written. simpl. by rewrite map_app.
Qed.

(** ** The loop *)

Section loop.
Context (orig : Z) (conf0 : Z → Z) (L0 : ledger) (announced0 : list (option block_w_sideband)).

(** What was cemented at the start. *)
Definition base (k : Z) : Prop := height_of k <= conf0 (chain_of k).

Context (Horig : stored orig) (Hbase : ∀ k y, depends k y → base k → base y).

(** When the original is cemented the walk has cemented its dependencies and no more. *)
Lemma closure_exact conf l :
  announces base l → (∀ k, stored k → height_of k <= conf (chain_of k) ↔ base k ∨ k ∈ l) →
  (∀ k, k ∈ l → rtc depends orig k) → height_of orig <= conf (chain_of orig) →
  (∀ k y, depends k y → height_of k <= conf (chain_of k) → height_of y <= conf (chain_of y)) ∧
  (∀ k, stored k → height_of k <= conf (chain_of k) ↔ base k ∨ rtc depends orig k) ∧
  (∀ k, k ∈ l ↔ stored k ∧ ¬ base k ∧ rtc depends orig k).
Proof using Horig Hbase.
  intros Hl Hc Hr Ho.
  assert (Hcl : ∀ k y, depends k y → height_of k <= conf (chain_of k) → height_of y <= conf (chain_of y)).
  { intros k y Hd Hk. pose proof Hd as (Hks & Hys & _). apply Hc; [done |]. apply Hc in Hk; [| done].
    destruct Hk as [Hk | Hk]; [left; by eapply Hbase | by eapply announces_closed]. }
  assert (Hreach : ∀ k, rtc depends orig k → stored k ∧ height_of k <= conf (chain_of k)).
  { apply rtc_ind_r; [done |]. intros y z _ Hd [_ IH]. split; [apply Hd | by eapply Hcl]. }
  split_and!; [done | |].
  - intros k Hk. split.
    + intros Hh. apply Hc in Hh as [? | ?]; [by left | right; by apply Hr | done].
    + intros [? | ?]; [apply Hc; auto | by apply Hreach].
  - intros k. split.
    + intros Hk. destruct (announces_elem constants s base l k Hl Hk). auto.
    + intros (Hks & Hb & Hk). apply Hreach in Hk as [_ Hk]. apply Hc in Hk as [? | ?]; done.
Qed.

Definition event_blocks (e : cement_event) : list (option block_w_sideband) :=
  match e with ev_cemented l => l | ev_already_cemented _ => [] end.

(** What the observers were told, or will be when the pending writes are done. *)
Definition announced (u : unbounded) : list (option block_w_sideband) :=
  concat (map event_blocks (ub_events u)) ++ map (λ k, st_blocks s !! k) (written (ub_pending_writes u)).

(** The chain of [x] has been walked down to [h], where [callbacks] end. *)
Definition walked (iter : Z → Z) (x : Z) (callbacks : list Z) (h : Z) : Prop :=
  h <= height_of x ∧ height_of x = iter (chain_of x) ∧ callbacks = span x h ∧
  no_receive (chain_of x) h (height_of x).

Record frame_ok (conf iter : Z → Z) (heap : list conf_height_details) (mapping : gmap Z nat) (f : frame) :
    Prop := {
  fo_source : source_of (fr_receive f) = Some (fr_source f);
  fo_heap : heap !! fr_id f = Some (fr_details f);
  fo_height : conf (chain_of (fr_receive f)) < height_of (fr_receive f) <= iter (chain_of (fr_receive f));
  fo_low : floor (chain_of (fr_receive f)) <= fr_low f < height_of (fr_receive f);
  fo_between : ∀ k, stored k → chain_of k = chain_of (fr_receive f) →
    fr_low f < height_of k < height_of (fr_receive f) → source_of k = None ∧ mapping !! k = Some (fr_id f);
  fo_reach : rtc depends orig (fr_receive f);
}.

(** A goal of the walk: a block to cement and the callbacks collected for it.  The
    original block is the first goal, the source of every stacked receive another. *)
Abbreviation goal := (Z * list Z)%type.
Definition goal_of (f : frame) : goal := (fr_source f, fr_callbacks f).
Definition top_goal (G : list frame) (og : goal) : goal :=
  match G with [] => og | f :: _ => goal_of f end.

(** A frame lies in the stack for the frame below it (they come from the same walk)
    or for the goal below it, whose chain it is the highest receive of. *)
Fixpoint linked (iter : Z → Z) (G : list frame) (og : goal) : Prop :=
  match G with
  | [] => True
  | f :: G =>
      (match G with
       | [] => False
       | f' :: _ => fr_callbacks f' = [] ∧ chain_of (fr_receive f') = chain_of (fr_receive f)
       end ∨
       chain_of (fr_receive f) = chain_of (top_goal G og).1 ∧
       walked iter (top_goal G og).1 (top_goal G og).2 (height_of (fr_receive f))) ∧
      linked iter G og
  end.

Record loop_inv (u : unbounded) (conf iter : Z → Z) (G : list frame) (og : goal) (l : list Z) : Prop := {
  li_conf : ∀ a, known_confirmed u a = conf a;
  li_iter : ∀ a, known_iterated u a = iter a;
  li_reads : reads u;
  li_ledger : cemented_ledger L0 (ub_ledger u);
  li_cached : ∀ k, stored k → conf (chain_of k) < height_of k <= iter (chain_of k) →
    is_Some (ub_block_cache u !! k);
  li_floor : ∀ a, floor a <= conf a;
  li_announces : announces base l;
  li_cemented : ∀ k, stored k → height_of k <= conf (chain_of k) ↔ base k ∨ k ∈ l;
  li_announced : announced u = announced0 ++ map (λ k, st_blocks s !! k) l;
  li_reach : ∀ k, k ∈ l → rtc depends orig k;
  li_writes : writes_ok (ub_block_cache u) (table_height (ub_ledger u)) (ub_pending_writes u) conf;
  li_original : og.1 = orig;
  li_frames : ∀ f, f ∈ G →
    frame_ok conf iter (ub_heap u) (ub_implicit_receive_cemented_mapping u) f;
  li_ids : NoDup (map fr_id G);
  li_sorted : StronglySorted (λ f f', (rank (fr_receive f) < rank (fr_receive f'))%nat) G;
  li_complete : ∀ k y, source_of k = Some y → conf (chain_of k) < height_of k <= iter (chain_of k) →
    ∃ f, f ∈ G ∧ fr_receive f = k;
  li_progress : ∀ a, conf a < iter a →
    (∃ f, f ∈ G ∧ chain_of (fr_receive f) = a) ∨
    chain_of (top_goal G og).1 = a ∧ walked iter (top_goal G og).1 (top_goal G og).2 (conf a);
  li_low : ∀ f, f ∈ G → fr_low f <= conf (chain_of (fr_receive f)) ∨
    ∃ f', f' ∈ G ∧ chain_of (fr_receive f') = chain_of (fr_receive f) ∧ fr_low f = height_of (fr_receive f');
  li_linked : linked iter G og;
  li_top : (top_goal G og).2 = [] ∨
    walked iter (top_goal G og).1 (top_goal G og).2 (conf (chain_of (top_goal G og).1));
}.

Section facts.
Context (u : unbounded) (conf iter : Z → Z) (G : list frame) (og : goal) (l : list Z).
Context (HI : loop_inv u conf iter G og l).

Abbreviation x := (top_goal G og).1.

Lemma conf_le_iter a : conf a <= iter a.
Proof using HI.
  rewrite <- (li_conf _ _ _ _ _ _ HI), <- (li_iter _ _ _ _ _ _ HI). unfold known_confirmed, known_iterated.
  case_match; lia.
Qed.

Lemma frame_stored f : f ∈ G → stored (fr_receive f).
Proof using HI. intros Hf. eapply receive_stored, (fo_source _ _ _ _ _ (li_frames _ _ _ _ _ _ HI f Hf)). Qed.

Lemma top_stored : stored x.
Proof using HI Horig.
  unfold top_goal. destruct G as [| f G'] eqn:HG; [by rewrite (li_original _ _ _ _ _ _ HI) |]. simpl.
  eapply stored_source, (fo_source _ _ _ _ _ (li_frames _ _ _ _ _ _ HI f (list_elem_of_here _ _))).
Qed.

Lemma top_reach : rtc depends orig x.
Proof using HI.
  unfold top_goal. destruct G as [| f G'] eqn:HG; [by rewrite (li_original _ _ _ _ _ _ HI) |]. simpl.
  pose proof (li_frames _ _ _ _ _ _ HI f (list_elem_of_here _ _)) as Hf.
  eapply rtc_r; [apply (fo_reach _ _ _ _ _ Hf) |]. eapply depends_source, (fo_source _ _ _ _ _ Hf).
Qed.

(** The goal comes before every stacked receive. *)
Lemma top_rank f : f ∈ G → (rank x < rank (fr_receive f))%nat.
Proof using HI HC.
  intros Hf. unfold top_goal. pose proof (li_sorted _ _ _ _ _ _ HI) as Hs.
  pose proof (li_frames _ _ _ _ _ _ HI) as Hfr.
  destruct G as [| f0 G']; [by apply elem_of_nil in Hf |]. simpl.
  assert (Hr : (rank (fr_source f0) < rank (fr_receive f0))%nat).
  { eapply source_rank; [done |]. apply (fo_source _ _ _ _ _ (Hfr f0 (list_elem_of_here _ _))). }
  apply elem_of_cons in Hf as [-> | Hf]; [done |].
  apply StronglySorted_inv in Hs as [_ Hs]. rewrite Forall_forall in Hs.
  specialize (Hs f Hf). simpl in Hs. lia.
Qed.

Lemma frame_above_floor f : f ∈ G → floor (chain_of (fr_receive f)) < height_of (fr_receive f).
Proof using HI.
  intros Hf. pose proof (fo_height _ _ _ _ _ (li_frames _ _ _ _ _ _ HI f Hf)).
  pose proof (li_floor _ _ _ _ _ _ HI (chain_of (fr_receive f))). lia.
Qed.

Lemma top_below f : f ∈ G → chain_of (fr_receive f) = chain_of x → height_of x < height_of (fr_receive f).
Proof using HI HC Horig.
  intros Hf Hc. apply (rank_height _ _ _ _ HC); [exact top_stored | by apply frame_stored | done | | by apply top_rank].
  rewrite <- Hc. by apply frame_above_floor.
Qed.

(** A chain that is not walked up to the goal has nothing in progress. *)
Lemma top_idle :
  iter (chain_of x) < height_of x →
  conf (chain_of x) = iter (chain_of x) ∧ (∀ f, f ∈ G → chain_of (fr_receive f) ≠ chain_of x) ∧
  (top_goal G og).2 = [].
Proof using HI HC Horig.
  intros Hlt.
  assert (Hno : ∀ f, f ∈ G → chain_of (fr_receive f) ≠ chain_of x).
  { intros f Hf Hc. pose proof (top_below f Hf Hc).
    pose proof (fo_height _ _ _ _ _ (li_frames _ _ _ _ _ _ HI f Hf)) as Hh. rewrite Hc in Hh. lia. }
  split_and!; [| done |].
  - pose proof (conf_le_iter (chain_of x)).
    destruct (Z.lt_ge_cases (conf (chain_of x)) (iter (chain_of x))) as [Hl | Hl]; [| lia].
    destruct (li_progress _ _ _ _ _ _ HI _ Hl) as [(f & Hf & Hc) | (_ & _ & Hw & _)]; [by destruct (Hno f Hf) | lia].
  - destruct (li_top _ _ _ _ _ _ HI) as [? | (_ & Hw & _)]; [done | lia].
Qed.

(** The receives of the goal's chain up to it are confirmed. *)
Lemma top_no_receive :
  height_of x <= iter (chain_of x) ∨ no_receive (chain_of x) (iter (chain_of x)) (height_of x) →
  no_receive (chain_of x) (conf (chain_of x)) (height_of x).
Proof using HI HC Horig.
  intros Hor k Hk Hc Hh. destruct (source_of k) as [y |] eqn:Hs; [| done].
  destruct (Z.le_gt_cases (height_of k) (iter (chain_of x))) as [Hle | Hgt].
  - destruct (li_complete _ _ _ _ _ _ HI k y Hs) as (f & Hf & <-); [rewrite Hc; lia |].
    pose proof (top_below f Hf Hc). lia.
  - destruct Hor as [? | Hn]; [lia |]. rewrite <- Hs. apply Hn; [done.. | lia].
Qed.
End facts.

(** ** Steps *)

Lemma linked_ext iter iter' G og :
  (∀ f, f ∈ G → iter' (chain_of (fr_receive f)) = iter (chain_of (fr_receive f))) →
  linked iter G og → linked iter' G og.
Proof using.
  induction G as [| f G IH]; simpl; [done |]. intros He [Hf HG]. split.
  - destruct Hf as [Hf | (Hc & Hw1 & Hw2 & Hw3 & Hw4)]; [by left |]. right. split; [done |]. unfold walked.
    split_and!; [done | | done | done]. rewrite Hw2, <- Hc. symmetry. apply He. by left.
  - apply IH; [| done]. intros f' Hf'. apply He. by right.
Qed.

(** Reading blocks and telling observers about none. *)
Lemma loop_inv_read u u' conf iter G og l :
  loop_inv u conf iter G og l → reads u' →
  ub_ledger u' = ub_ledger u → ub_heap u' = ub_heap u →
  ub_confirmed_iterated_pairs u' = ub_confirmed_iterated_pairs u →
  ub_pending_writes u' = ub_pending_writes u →
  ub_implicit_receive_cemented_mapping u' = ub_implicit_receive_cemented_mapping u →
  (∀ k, is_Some (ub_block_cache u !! k) → is_Some (ub_block_cache u' !! k)) →
  concat (map event_blocks (ub_events u')) = concat (map event_blocks (ub_events u)) →
  loop_inv u' conf iter G og l.
Proof using.
  intros HI Hr Hl Hh Hp Hw Hm Hc He. destruct HI. split; try done.
  - intros a. unfold known_confirmed. rewrite Hp, Hl. apply li_conf0.
  - intros a. unfold known_iterated. rewrite Hp, Hl. apply li_iter0.
  - by rewrite Hl.
  - auto.
  - unfold announced. by rewrite He, Hw.
  - rewrite Hl, Hw. by eapply writes_ok_cache.
  - intros f Hf. rewrite Hh, Hm. auto.
Qed.

(** The goal on top with other callbacks. *)
Definition set_callbacks (c : list Z) (f : frame) : frame :=
  Frame (fr_id f) (fr_receive f) (fr_source f) (fr_low f) c.
Definition set_top (c : list Z) (G : list frame) : list frame :=
  match G with [] => [] | f :: G => set_callbacks c f :: G end.
Definition set_og (c : list Z) (G : list frame) (og : goal) : goal :=
  match G with [] => (og.1, c) | _ => og end.

Lemma elem_of_set_top c G f :
  f ∈ set_top c G → ∃ f', f' ∈ G ∧ fr_id f' = fr_id f ∧ fr_receive f' = fr_receive f ∧
    fr_source f' = fr_source f ∧ fr_low f' = fr_low f.
Proof using.
  destruct G as [| f0 G]; simpl; [by intros ?%elem_of_nil |]. intros [-> | Hf]%elem_of_cons.
  - exists f0. split; [by left | done].
  - exists f. split; [by right | done].
Qed.

Lemma elem_of_set_top_2 c G f :
  f ∈ G → ∃ f', f' ∈ set_top c G ∧ fr_receive f' = fr_receive f.
Proof using.
  destruct G as [| f0 G]; simpl; [by intros ?%elem_of_nil |]. intros [-> | Hf]%elem_of_cons.
  - exists (set_callbacks c f0). split; [by left | done].
  - exists f. split; [by right | done].
Qed.

Lemma top_goal_set c G og : top_goal (set_top c G) (set_og c G og) = ((top_goal G og).1, c).
Proof using. by destruct G. Qed.

(** The blocks a confirmation adds to the order of cementing. *)
Lemma announces_confirm u conf iter G og l k :
  loop_inv u conf iter G og l → stored k → conf (chain_of k) < height_of k →
  (∀ y, y ∈ span k (conf (chain_of k)) → ∀ z, source_of y = Some z → height_of z <= conf (chain_of z)) →
  let l' := l ++ reverse (span k (conf (chain_of k))) in
  announces base l' ∧
  ∀ j, stored j → height_of j <= update conf (chain_of k) (height_of k) (chain_of j) ↔ base j ∨ j ∈ l'.
Proof using HC.
  intros HI Hk Hlt Hsrc. pose proof (li_cemented _ _ _ _ _ _ HI) as Hcem.
  pose proof (li_floor _ _ _ _ _ _ HI (chain_of k)) as Hfl. simpl. split.
  - apply (announces_span _ _ _ _ HC); [apply HI | done | done | |].
    + intros y Hy. apply (elem_of_span _ _ _ _ HC) in Hy as Hy'; [| done | done].
      destruct Hy' as (Hys & Hyc & Hyh). pose proof (Hcem y Hys) as Hcy. rewrite Hyc in Hcy.
      assert (¬ (base y ∨ y ∈ l)) as Hno by (rewrite <- Hcy; lia).
      split_and!; [tauto | tauto |]. intros z Hz. apply Hcem; [by eapply stored_source |]. by eapply Hsrc.
    + intros y Hys Hyc Hyh. apply Hcem; [done |]. rewrite Hyc. lia.
  - intros j Hj. rewrite elem_of_app, elem_of_reverse, (elem_of_span _ _ _ _ HC) by done.
    destruct (decide (chain_of j = chain_of k)) as [Hc | Hc].
    + rewrite Hc, update_eq. pose proof (Hcem j Hj) as Hcj. rewrite Hc in Hcj.
      destruct (Z.le_gt_cases (height_of j) (conf (chain_of k))).
      * split; [intros _ | intros _; lia]. destruct (proj1 Hcj) as [? | ?]; [lia | by left | by right; left].
      * split; [intros ?; right; right; split_and!; done || lia |].
        intros [Hb | [Hb | (_ & _ & ?)]]; [| | lia]; assert (height_of j <= conf (chain_of k)) by (apply Hcj; auto); lia.
    + rewrite update_ne by done. rewrite (Hcem j Hj). split; [tauto |]. intros [? | [? | (_ & ? & _)]]; tauto.
Qed.

(** The goal on top is confirmed. *)
Lemma confirm_goal u u' conf iter G og l :
  loop_inv u conf iter G og l →
  let x := (top_goal G og).1 in
  let a := chain_of x in
  conf a < height_of x → no_receive a (conf a) (height_of x) →
  (∀ k, k ∈ span x (conf a) → is_Some (ub_block_cache u !! k)) →
  ub_ledger u' = ub_ledger u → ub_block_cache u' = ub_block_cache u → ub_events u' = ub_events u →
  ub_implicit_receive_cemented_mapping u' = ub_implicit_receive_cemented_mapping u →
  ub_pending_writes u' = ub_pending_writes u ++
    [ConfHeightDetails a x (height_of x) (height_of x - conf a) (span x (conf a)) []] →
  (∀ f, f ∈ set_top [] G → ub_heap u' !! fr_id f = Some (fr_details f)) →
  (∀ b, known_confirmed u' b = update conf a (height_of x) b) →
  (∀ b, known_iterated u' b = update iter a (Z.max (iter a) (height_of x)) b) →
  loop_inv u' (update conf a (height_of x)) (update iter a (Z.max (iter a) (height_of x)))
    (set_top [] G) (set_og [] G og) (l ++ reverse (span x (conf a))).
Proof using HC Horig.
  intros HI x a Hlt Hno Hcache Hl Hca Hev Hm Hw Hheap Hkc Hki.
  pose proof (top_stored _ _ _ _ _ _ HI) as Hx. fold x in Hx.
  pose proof (top_below _ _ _ _ _ _ HI) as Hbelow. fold x a in Hbelow.
  pose proof (li_floor _ _ _ _ _ _ HI) as Hfl.
  destruct (announces_confirm _ _ _ _ _ _ x HI Hx Hlt) as [Han Hcem].
  { intros y Hy z Hz. apply (elem_of_span _ _ _ _ HC) in Hy as (? & ? & ?); [| done | apply Hfl].
    rewrite Hno in Hz by done. done. }
  assert (Hge : ∀ b, conf b <= update conf a (height_of x) b)
    by (intros b; unfold update; case_decide; subst; lia).
  assert (Hran : ∀ k, update conf a (height_of x) (chain_of k) < height_of k <=
      update iter a (Z.max (iter a) (height_of x)) (chain_of k) →
    conf (chain_of k) < height_of k <= iter (chain_of k)).
  { intros k. unfold update. case_decide as Hk; [rewrite Hk |]; lia. }
  split; try done.
  - destruct (li_reads _ _ _ _ _ _ HI). split; [by rewrite Hl | by rewrite Hca].
  - rewrite Hl. apply HI.
  - intros k Hk Hh. rewrite Hca. apply (li_cached _ _ _ _ _ _ HI); [done |]. by apply Hran.
  - intros b. specialize (Hge b). specialize (Hfl b). lia.
  - unfold announced. rewrite Hev, Hw, written_snoc, !map_app, !app_assoc. f_equal. apply (li_announced _ _ _ _ _ _ HI).
  - intros k [Hk | Hk]%elem_of_app; [by apply (li_reach _ _ _ _ _ _ HI) |]. rewrite elem_of_reverse in Hk.
    apply (elem_of_span _ _ _ _ HC) in Hk as (Hks & Hkc' & Hkh); [| done | apply Hfl].
    etrans; [apply (top_reach _ _ _ _ _ _ HI) |]. fold x. specialize (Hfl a).
    apply (walk_rtc _ _ _ _ HC); [done.. |]. fold a. unfold a in *. lia.
  - rewrite Hl, Hca, Hw. apply (writes_ok_snoc _ _ _ _ (ConfHeightDetails _ _ _ _ _ _)); [apply HI |].
    split; simpl; done.
  - destruct G; simpl; apply HI.
  - intros f Hf. destruct (elem_of_set_top [] G f Hf) as (f' & Hf' & Hid & Hr & Hs & Hlow).
    pose proof (li_frames _ _ _ _ _ _ HI f' Hf') as [Hsrc _ Hh Hlo Hbt Hre].
    rewrite Hm. rewrite Hr, Hs in *. rewrite Hlow, Hid in *. split; try done; [by apply Hheap |].
    unfold update. case_decide as Hc; [| done].
    pose proof (Hbelow f' Hf') as Hb. rewrite Hr in Hb. specialize (Hb Hc). rewrite Hc in Hh. lia.
  - replace (map fr_id (set_top [] G)) with (map fr_id G) by (by destruct G). apply HI.
  - pose proof (li_sorted _ _ _ _ _ _ HI) as Hso. destruct G as [| f G']; [done |]. simpl.
    apply StronglySorted_inv in Hso as [Hso Hfa]. by constructor.
  - intros k y Hk Hh. destruct (li_complete _ _ _ _ _ _ HI k y Hk (Hran k Hh)) as (f & Hf & <-).
    destruct (elem_of_set_top_2 [] G f Hf) as (f' & ? & ?). eauto.
  - intros b Hb. left.
    assert (Hbi : conf b < iter b ∧ (b = a → height_of x < iter a)).
    { revert Hb. unfold update. case_decide as Hba; [subst b | by intros; split]. lia. }
    destruct Hbi as [Hbi Hba]. destruct (li_progress _ _ _ _ _ _ HI b Hbi) as [(f & Hf & Hc) | (Hc & _ & Hw' & _)].
    + destruct (elem_of_set_top_2 [] G f Hf) as (f' & ? & Hr). exists f'. rewrite Hr. done.
    + fold x a in Hc, Hw'. specialize (Hba (eq_sym Hc)). lia.
  - intros f Hf. destruct (elem_of_set_top [] G f Hf) as (f' & Hf' & Hid & Hr & Hs & Hlow).
    pose proof (li_low _ _ _ _ _ _ HI f' Hf') as Hl'. rewrite Hr, Hlow in Hl'.
    destruct Hl' as [Hl' | (g & Hg & Hgc & Hgl)]; [left; specialize (Hge (chain_of (fr_receive f))); lia |].
    right. destruct (elem_of_set_top_2 [] G g Hg) as (g' & Hg' & Hgr). exists g'. rewrite Hgr. done.
  - assert (Hlk : linked (update iter a (Z.max (iter a) (height_of x))) G og).
    { eapply linked_ext, HI. intros f Hf. unfold update. case_decide as Hc; [| done].
      pose proof (Hbelow f Hf Hc). pose proof (fo_height _ _ _ _ _ (li_frames _ _ _ _ _ _ HI f Hf)) as Hh.
      rewrite Hc in *. lia. }
    by destruct G as [| f G'].
  - left. by rewrite top_goal_set.
Qed.

Section pop.
Context (u : unbounded) (conf iter : Z → Z) (f : frame) (G : list frame) (og : goal) (l : list Z).
Context (HI : loop_inv u conf iter (f :: G) og l).

Abbreviation r := (fr_receive f).
Abbreviation a := (chain_of (fr_receive f)).

Lemma pop_stored : stored r.
Proof using HI. apply (frame_stored _ _ _ _ _ _ HI). by left. Qed.

Lemma pop_height : floor a <= conf a < height_of r ∧ height_of r <= iter a.
Proof using HI.
  pose proof (fo_height _ _ _ _ _ (li_frames _ _ _ _ _ _ HI f (list_elem_of_here _ _))).
  pose proof (li_floor _ _ _ _ _ _ HI a). lia.
Qed.

(** The receives below, in the stack, come later in the order of dependencies. *)
Lemma pop_above f' : f' ∈ G → chain_of (fr_receive f') = a → height_of r < height_of (fr_receive f').
Proof using HI HC.
  intros Hf' Hc. apply (rank_height _ _ _ _ HC); [exact pop_stored | | done | |].
  - apply (frame_stored _ _ _ _ _ _ HI). by right.
  - rewrite <- Hc. apply (frame_above_floor _ _ _ _ _ _ HI). by right.
  - pose proof (li_sorted _ _ _ _ _ _ HI) as Hs. apply StronglySorted_inv in Hs as [_ Hs].
    rewrite Forall_forall in Hs. by apply Hs.
Qed.

Lemma pop_low : fr_low f <= conf a.
Proof using HI HC.
  destruct (li_low _ _ _ _ _ _ HI f (list_elem_of_here _ _)) as [? | (f' & Hf' & Hc & Hl)]; [done |].
  pose proof (fo_low _ _ _ _ _ (li_frames _ _ _ _ _ _ HI f (list_elem_of_here _ _))).
  apply elem_of_cons in Hf' as [-> | Hf']; [lia |]. pose proof (pop_above f' Hf' Hc). lia.
Qed.

Lemma pop_sources k y :
  k ∈ span r (conf a) → source_of k = Some y → k = r.
Proof using HI HC.
  intros Hk Hs. destruct pop_height as [[Hfl Hh] Hit].
  apply (elem_of_span _ _ _ _ HC) in Hk as (Hks & Hkc & Hkh); [| exact pop_stored | done].
  destruct (li_complete _ _ _ _ _ _ HI k y Hs) as (f' & Hf' & <-); [rewrite Hkc; lia |].
  apply elem_of_cons in Hf' as [-> | Hf']; [done |]. pose proof (pop_above f' Hf' Hkc). lia.
Qed.

(** The receive on top is confirmed when its source is. *)
Lemma pop_receive u' p :
  height_of (fr_source f) <= conf (chain_of (fr_source f)) →
  ub_ledger u' = ub_ledger u → ub_block_cache u' = ub_block_cache u → ub_events u' = ub_events u →
  ub_implicit_receive_cemented_mapping u' = ub_implicit_receive_cemented_mapping u →
  ub_pending_writes u' = ub_pending_writes u ++ [p] →
  cd_account p = a → cd_hash p = r → cd_height p = height_of r →
  cd_num_blocks_confirmed p = height_of r - conf a → cd_block_callback_data p = span r (conf a) →
  (∀ f', f' ∈ G → ub_heap u' !! fr_id f' = ub_heap u !! fr_id f') →
  (∀ b, known_confirmed u' b = update conf a (height_of r) b) →
  (∀ b, known_iterated u' b = iter b) →
  loop_inv u' (update conf a (height_of r)) iter G og (l ++ reverse (span r (conf a))).
Proof using HC HI.
  intros Hsrc Hl Hca Hev Hm Hw Hpa Hph Hphe Hpn Hpc Hheap Hkc Hki.
  destruct pop_height as [[Hfl Hlt] Hit]. pose proof pop_stored as Hr.
  pose proof (li_frames _ _ _ _ _ _ HI f (list_elem_of_here _ _)) as Hf.
  destruct (announces_confirm _ _ _ _ _ _ r HI Hr Hlt) as [Han Hcem].
  { intros y Hy z Hz. rewrite (pop_sources y z Hy Hz) in Hz. rewrite (fo_source _ _ _ _ _ Hf) in Hz. by injection Hz as <-. }
  assert (Hge : ∀ b, conf b <= update conf a (height_of r) b)
    by (intros b; unfold update; case_decide; subst; lia).
  assert (Hnew : ∀ k, update conf a (height_of r) (chain_of k) < height_of k → conf (chain_of k) < height_of k ∧ k ≠ r).
  { intros k Hk. specialize (Hge (chain_of k)). split; [lia |]. intros ->. rewrite update_eq in Hk. lia. }
  split; try done.
  - destruct (li_reads _ _ _ _ _ _ HI). split; [by rewrite Hl | by rewrite Hca].
  - rewrite Hl. apply HI.
  - intros k Hk Hh. rewrite Hca. apply (li_cached _ _ _ _ _ _ HI); [done |]. destruct (Hnew k); lia.
  - intros b. specialize (Hge b). pose proof (li_floor _ _ _ _ _ _ HI b). lia.
  - unfold announced. rewrite Hev, Hw, written_snoc, Hpc, !map_app, !app_assoc. f_equal.
    apply (li_announced _ _ _ _ _ _ HI).
  - intros k [Hk | Hk]%elem_of_app; [by apply (li_reach _ _ _ _ _ _ HI) |]. rewrite elem_of_reverse in Hk.
    apply (elem_of_span _ _ _ _ HC) in Hk as (Hks & Hkc' & Hkh); [| done | done].
    etrans; [apply (fo_reach _ _ _ _ _ Hf) |]. apply (walk_rtc _ _ _ _ HC); [done.. | lia].
  - rewrite Hl, Hca, Hw, <- Hpa, <- Hphe. apply writes_ok_snoc; [apply HI |].
    split; rewrite ?Hpa, ?Hph, ?Hphe, ?Hpc; try done. intros k Hk.
    apply (elem_of_span _ _ _ _ HC) in Hk as (Hks & Hkc' & Hkh); [| done | done].
    apply (li_cached _ _ _ _ _ _ HI); [done |]. rewrite Hkc'. lia.
  - apply HI.
  - intros f' Hf'. assert (Hin : f' ∈ f :: G) by (by right).
    pose proof (li_frames _ _ _ _ _ _ HI f' Hin) as [Hs Hhp Hh Hlo Hbt Hre].
    rewrite Hm. split; try done; [by rewrite Hheap |].
    unfold update. case_decide as Hc; [| done]. pose proof (pop_above f' Hf' Hc). lia.
  - pose proof (li_ids _ _ _ _ _ _ HI) as Hn. simpl in Hn. by apply NoDup_cons in Hn as [_ Hn].
  - pose proof (li_sorted _ _ _ _ _ _ HI) as Hs. by apply StronglySorted_inv in Hs as [Hs _].
  - intros k y Hk Hh. destruct (Hnew k) as [Hc Hne]; [lia |].
    destruct (li_complete _ _ _ _ _ _ HI k y Hk) as (f' & [-> | Hf']%elem_of_cons & <-); [lia | done |]. eauto.
  - intros b Hb. destruct (decide (b = a)) as [-> | Hba].
    + rewrite update_eq in *. destruct (li_linked _ _ _ _ _ _ HI) as [[Hk | [Hk1 Hk2]] _]; [| by right].
      left. destruct G as [| f' G']; [done |]. exists f'. split; [by left | by apply Hk].
    + rewrite update_ne in * by done.
      destruct (li_progress _ _ _ _ _ _ HI b Hb) as [(f' & [-> | Hf']%elem_of_cons & Hc) | (Hc & _ & Hw2 & _)];
        [done | by left; eauto |].
      simpl in Hc, Hw2. rewrite Hc in Hw2, Hsrc. lia.
  - intros f' Hf'. assert (Hin : f' ∈ f :: G) by (by right).
    destruct (li_low _ _ _ _ _ _ HI f' Hin) as [Hlo | (g & [-> | Hg]%elem_of_cons & Hgc & Hgl)].
    + left. specialize (Hge (chain_of (fr_receive f'))). lia.
    + left. rewrite <- Hgc, update_eq. lia.
    + right. eauto.
  - by destruct (li_linked _ _ _ _ _ _ HI) as [_ Hk].
  - destruct (li_linked _ _ _ _ _ _ HI) as [[Hk | [Hk1 Hk2]] _].
    + left. destruct G as [| f' G']; [done | by apply Hk].
    + right. by rewrite <- Hk1, update_eq.
Qed.
End pop.

Lemma linked_push iter a G' f G og :
  (∀ g, g ∈ G' ++ [f] → fr_callbacks g = [] ∧ chain_of (fr_receive g) = a) →
  linked iter G og → chain_of (top_goal G og).1 = a →
  walked iter (top_goal G og).1 (top_goal G og).2 (height_of (fr_receive f)) →
  linked iter ((G' ++ [f]) ++ G) og.
Proof using.
  intros Hg HG Hc Hw. induction G' as [| g G' IH].
  - destruct (Hg f) as [_ Hfa]; [by left |]. simpl. split; [| done]. right. by rewrite Hfa, Hc.
  - assert (HG' : ∀ g', g' ∈ G' ++ [f] → fr_callbacks g' = [] ∧ chain_of (fr_receive g') = a)
      by (intros g' Hin; apply Hg; by right).
    destruct (Hg g) as [_ Hga]; [by left |]. simpl. split; [| by apply IH]. left. rewrite Hga.
    destruct G' as [| g' G'']; simpl in *; apply HG'; by left.
Qed.

(** The receives of a walk go on the stack. *)
Lemma push_batch u u' conf iter G og l Gn G' f :
  loop_inv u conf iter G og l →
  let x := (top_goal G og).1 in
  let a := chain_of x in
  let c := span x (height_of (fr_receive f)) in
  iter a < height_of x → Gn = G' ++ [f] → height_of (fr_receive f) <= height_of x →
  no_receive a (height_of (fr_receive f)) (height_of x) →
  batch constants s a (iter a) (height_of (fr_receive f)) (ub_heap u') (ub_implicit_receive_cemented_mapping u') Gn →
  (∀ g, g ∈ Gn → (length (ub_heap u) <= fr_id g)%nat) →
  reads u' → ub_ledger u' = ub_ledger u → ub_pending_writes u' = ub_pending_writes u → ub_events u' = ub_events u →
  (∀ k, is_Some (ub_block_cache u !! k) → is_Some (ub_block_cache u' !! k)) →
  (∀ k, stored k → chain_of k = a → iter a < height_of k <= height_of x → is_Some (ub_block_cache u' !! k)) →
  (∀ k, ub_implicit_receive_cemented_mapping u' !! k = ub_implicit_receive_cemented_mapping u !! k ∨
    stored k ∧ chain_of k = a ∧ iter a < height_of k <= height_of x) →
  (∀ g, g ∈ set_top c G → ub_heap u' !! fr_id g = Some (fr_details g)) →
  (∀ b, known_confirmed u' b = conf b) →
  (∀ b, known_iterated u' b = update iter a (height_of x) b) →
  loop_inv u' conf (update iter a (height_of x)) (Gn ++ set_top c G) (set_og c G og) l.
Proof using HC Horig.
  intros HI x a c Hlt HGn Hfx Hnor Hba Hids Hr Hl Hw Hev Hca Hcd Hmp Hheap Hkc Hki.
  pose proof (top_stored _ _ _ _ _ _ HI) as Hx. fold x in Hx.
  destruct (top_idle _ _ _ _ _ _ HI Hlt) as (Hci & Hidle & Hcb). fold x a in Hci, Hidle.
  pose proof (li_floor _ _ _ _ _ _ HI) as Hfl.
  assert (Hup : ∀ b, iter b <= update iter a (height_of x) b)
    by (intros b; unfold update; case_decide; subst; lia).
  assert (Hfa : ∀ g, g ∈ G → update iter a (height_of x) (chain_of (fr_receive g)) = iter (chain_of (fr_receive g)))
    by (intros g Hg; apply update_ne; by apply Hidle).
  assert (Hnew : ∀ g, g ∈ Gn → stored (fr_receive g) ∧ (rank (fr_receive g) <= rank x)%nat ∧ rtc depends x (fr_receive g)).
  { intros g Hg. destruct (ba_frame _ _ _ _ _ _ _ _ Hba g Hg) as (_ & Hgc & Hgs & _ & Hgl & Hgh & _).
    specialize (Hfl a). assert (Hgst : stored (fr_receive g)) by (by eapply receive_stored).
    assert (Hrt : rtc depends x (fr_receive g))
      by (apply (walk_rtc _ _ _ _ HC); [done | done | done | unfold a in *; lia]).
    split_and!; [done | by eapply rank_rtc | done]. }
  assert (Hcov : ∀ k, conf (chain_of k) < height_of k <= update iter a (height_of x) (chain_of k) →
    conf (chain_of k) < height_of k <= iter (chain_of k) ∨ chain_of k = a ∧ iter a < height_of k <= height_of x).
  { intros k. unfold update. case_decide as Hk; [| by left]. rewrite Hk. right. split; [done | lia]. }
  split; try done; try apply HI.
  - rewrite Hl. apply HI.
  - intros k Hk Hh. destruct (Hcov k Hh) as [? | [? ?]]; [| by apply Hcd]. by apply Hca, (li_cached _ _ _ _ _ _ HI).
  - unfold announced. rewrite Hev, Hw. apply HI.
  - rewrite Hl, Hw. eapply writes_ok_cache; [exact Hca |]. apply HI.
  - destruct G; apply HI.
  - intros g [Hg | Hg]%elem_of_app.
    + destruct (ba_frame _ _ _ _ _ _ _ _ Hba g Hg) as (_ & Hgc & Hgs & Hgh & Hgl & Hgt & _ & Hgb).
      destruct (Hnew g Hg) as (_ & _ & Hrt). specialize (Hfl a).
      split; rewrite ?Hgc, ?update_eq; try done; [lia | lia |]. etrans; [apply (top_reach _ _ _ _ _ _ HI) | done].
    + destruct (elem_of_set_top c G g Hg) as (g' & Hg' & Hid & Hgr & Hgs & Hglow).
      pose proof (li_frames _ _ _ _ _ _ HI g' Hg') as [Hs _ Hh Hlo Hbt Hre].
      pose proof (Hfa g' Hg') as Hit. pose proof (Hidle g' Hg') as Hne.
      rewrite Hgr in *. rewrite Hgs, Hglow, Hid in *. split; try done; [by apply Hheap | by rewrite Hit |].
      intros k Hk Hkch Hkh. destruct (Hmp k) as [-> | (_ & Hka & _)]; [by apply Hbt | congruence].
  - rewrite map_app. apply NoDup_app. split_and!; [apply Hba | |].
    + intros i (g & -> & Hg)%list_elem_of_fmap (g2 & Hid2 & Hg2)%list_elem_of_fmap.
      destruct (elem_of_set_top c G g2 Hg2) as (g' & Hg' & Hid & _).
      pose proof (fo_heap _ _ _ _ _ (li_frames _ _ _ _ _ _ HI g' Hg')) as Hlk. apply lookup_lt_Some in Hlk.
      specialize (Hids g Hg). lia.
    + replace (map fr_id (set_top c G)) with (map fr_id G) by (by destruct G). apply HI.
  - apply StronglySorted_app. split_and!.
    + intros g g2 Hg Hg2. destruct (elem_of_set_top c G g2 Hg2) as (g' & Hg' & _ & Hgr & _).
      pose proof (top_rank _ _ _ _ _ _ HI g' Hg') as Hrk. rewrite Hgr in Hrk. fold x in Hrk.
      destruct (Hnew g Hg) as (_ & ? & _). lia.
    + eapply StronglySorted_impl; [| apply Hba]. simpl. intros g g2 Hg Hg2 Hh.
      destruct (ba_frame _ _ _ _ _ _ _ _ Hba g Hg) as (_ & Hgc & _ & _ & Hgl & _).
      destruct (ba_frame _ _ _ _ _ _ _ _ Hba g2 Hg2) as (_ & Hgc2 & _).
      specialize (Hfl a). apply (walk_rank_lt _ _ _ _ HC); [by apply Hnew.. | congruence | rewrite Hgc2; lia].
    + pose proof (li_sorted _ _ _ _ _ _ HI) as Hso. destruct G as [| g0 G0]; [done |]. simpl.
      apply StronglySorted_inv in Hso as [Hso Hfo]. by constructor.
  - intros k y Hk Hh. destruct (Hcov k Hh) as [Ho | [Ha Hn]].
    + destruct (li_complete _ _ _ _ _ _ HI k y Hk Ho) as (g & Hg & <-).
      destruct (elem_of_set_top_2 c G g Hg) as (g' & Hg' & Hgr). exists g'. rewrite elem_of_app. auto.
    + destruct (Z.le_gt_cases (height_of k) (height_of (fr_receive f))) as [Hle | Hgt].
      * destruct (ba_complete _ _ _ _ _ _ _ _ Hba k y Hk Ha ltac:(lia)) as (g & Hg & <-).
        exists g. rewrite elem_of_app. auto.
      * rewrite Hnor in Hk; [done | by eapply receive_stored | done | lia].
  - intros b Hb. left. unfold update in Hb. case_decide as Hba'.
    + subst b. exists f. rewrite HGn, !elem_of_app. split; [left; right; by left |].
      by apply (ba_frame _ _ _ _ _ _ _ _ Hba); rewrite HGn, elem_of_app; right; left.
    + destruct (li_progress _ _ _ _ _ _ HI b Hb) as [(g & Hg & Hgc) | (Hgc & _)]; [| done].
      destruct (elem_of_set_top_2 c G g Hg) as (g' & Hg' & Hgr). exists g'. rewrite elem_of_app, Hgr. auto.
  - intros g [Hg | Hg]%elem_of_app.
    + destruct (ba_frame _ _ _ _ _ _ _ _ Hba g Hg) as (_ & Hgc & _ & _ & _ & _ & Hgl & _). rewrite Hgc.
      destruct Hgl as [-> | (g' & Hg' & ->)]; [left; lia |]. right. exists g'.
      rewrite elem_of_app. split_and!; [by left | | done]. by apply (ba_frame _ _ _ _ _ _ _ _ Hba).
    + destruct (elem_of_set_top c G g Hg) as (g' & Hg' & Hid & Hgr & Hgs & Hglow).
      pose proof (li_low _ _ _ _ _ _ HI g' Hg') as Hlo. rewrite Hgr, Hglow in Hlo.
      destruct Hlo as [? | (g2 & Hg2 & Hc2 & Hl2)]; [by left |]. right.
      destruct (elem_of_set_top_2 c G g2 Hg2) as (g3 & Hg3 & Hgr3). exists g3. rewrite elem_of_app, Hgr3. auto.
  - rewrite HGn. apply (linked_push _ a).
    + intros g Hg. rewrite <- HGn in Hg. destruct (ba_frame _ _ _ _ _ _ _ _ Hba g Hg) as (? & ? & _). done.
    + eapply (linked_ext iter).
      { intros g Hg. destruct (elem_of_set_top c G g Hg) as (g' & Hg' & _ & <- & _). by apply Hfa. }
      pose proof (li_linked _ _ _ _ _ _ HI). by destruct G.
    + by rewrite top_goal_set.
    + rewrite top_goal_set. simpl. unfold walked. fold x a. rewrite update_eq. done.
  - left. rewrite HGn. destruct G' as [| g G']; simpl;
      apply (ba_frame _ _ _ _ _ _ _ _ Hba); rewrite HGn; by left.
Qed.
End loop.
End invariant.

Arguments li_conf {_ constants s floor rank orig conf0 L0 announced0 u conf iter G og l} _.
Arguments li_iter {_ constants s floor rank orig conf0 L0 announced0 u conf iter G og l} _.
Arguments li_reads {_ constants s floor rank orig conf0 L0 announced0 u conf iter G og l} _.
Arguments li_ledger {_ constants s floor rank orig conf0 L0 announced0 u conf iter G og l} _.
Arguments li_cached {_ constants s floor rank orig conf0 L0 announced0 u conf iter G og l} _.
Arguments li_floor {_ constants s floor rank orig conf0 L0 announced0 u conf iter G og l} _.
Arguments li_announces {_ constants s floor rank orig conf0 L0 announced0 u conf iter G og l} _.
Arguments li_cemented {_ constants s floor rank orig conf0 L0 announced0 u conf iter G og l} _.
Arguments li_announced {_ constants s floor rank orig conf0 L0 announced0 u conf iter G og l} _.
Arguments li_reach {_ constants s floor rank orig conf0 L0 announced0 u conf iter G og l} _.
Arguments li_writes {_ constants s floor rank orig conf0 L0 announced0 u conf iter G og l} _.
Arguments li_original {_ constants s floor rank orig conf0 L0 announced0 u conf iter G og l} _.
Arguments li_frames {_ constants s floor rank orig conf0 L0 announced0 u conf iter G og l} _.
Arguments li_ids {_ constants s floor rank orig conf0 L0 announced0 u conf iter G og l} _.
Arguments li_sorted {_ constants s floor rank orig conf0 L0 announced0 u conf iter G og l} _.
Arguments li_complete {_ constants s floor rank orig conf0 L0 announced0 u conf iter G og l} _.
Arguments li_progress {_ constants s floor rank orig conf0 L0 announced0 u conf iter G og l} _.
Arguments li_low {_ constants s floor rank orig conf0 L0 announced0 u conf iter G og l} _.
Arguments li_linked {_ constants s floor rank orig conf0 L0 announced0 u conf iter G og l} _.
Arguments li_top {_ constants s floor rank orig conf0 L0 announced0 u conf iter G og l} _.
Arguments fo_source {constants s floor orig conf iter heap mapping f} _.
Arguments fo_heap {constants s floor orig conf iter heap mapping f} _.
Arguments fo_height {constants s floor orig conf iter heap mapping f} _.
Arguments fo_low {constants s floor orig conf iter heap mapping f} _.
Arguments fo_between {constants s floor orig conf iter heap mapping f} _.
Arguments fo_reach {constants s floor orig conf iter heap mapping f} _.
