(* ===== verification/CementRound.v ===== *)
(** * One round of the confirmation height processor

    Every round keeps the invariant: it pushes the receives of the chain it walks,
    or confirms its goal and pops the receive that waited for it; what it computes
    for the observers is exactly the blocks that become confirmed. *)

From S2P Require Import Prelude Blocks BlockCodec Common RepWeights EpochsWork Store Ledger Rollback.
From S2P Require Import LedgerInvariant ConfirmationHeight Chains CementWalk CementInvariant.

Lemma erase_last_ok {A} (n : Z) (l : list A) :
  0 <= n <= Z.of_nat (length l) → erase_last n l = Ok (take (length l - Z.to_nat n) l).
Proof.
  intros Hn. unfold erase_last. rewrite (proj2 (Z.leb_le _ _)), (proj2 (Z.leb_le _ _)) by lia. done.
Qed.

Lemma slice_last_ok {A} (skip n : Z) (l : list A) :
  0 <= skip → 0 <= n → skip + n <= Z.of_nat (length l) →
  slice_last skip n l = Ok (drop (length l - Z.to_nat skip - Z.to_nat n) (take (length l - Z.to_nat skip) l)).
Proof.
  intros H1 H2 H3. unfold slice_last. rewrite !(proj2 (Z.leb_le _ _)) by lia. done.
Qed.

Section round.
Context `{Crypto} (constants : ledger_constants) (s : store).
Context (floor : Z → Z) (rank : Z → nat) (HC : chains constants s floor rank).
Context (orig : Z) (conf0 : Z → Z) (L0 : ledger) (announced0 : list (option block_w_sideband)).
Context (Horig : stored s orig).

Abbreviation stored := (stored s).
Abbreviation chain_of := (chain_of s).
Abbreviation height_of := (height_of s).
Abbreviation source_of := (source_of constants s).
Abbreviation depends := (depends constants s).
Abbreviation span := (span s).
Abbreviation reads := (reads s).
Abbreviation fr_details := (fr_details s).
Abbreviation no_receive := (no_receive constants s).
Abbreviation loop_inv := (loop_inv constants s floor rank orig conf0 L0 announced0).

(** ** Heights in memory *)

Lemma confirm_pair_confirmed u a h it b :
  known_confirmed (confirm_pair a h it u) b = update (known_confirmed u) a h b.
Proof using.
  unfold known_confirmed, confirm_pair, update. simpl.
  destruct (ub_confirmed_iterated_pairs u !! a) as [p |] eqn:Hp; case_decide as Hb; subst;
    rewrite ?lookup_insert_eq, ?lookup_insert_ne by done; done.
Qed.

Lemma confirm_pair_iterated u a h b :
  known_confirmed u a < h →
  known_iterated (confirm_pair a h (known_iterated u a) u) b =
  update (known_iterated u) a (Z.max (known_iterated u a) h) b.
Proof using.
  unfold known_confirmed, known_iterated, confirm_pair, update. simpl.
  destruct (ub_confirmed_iterated_pairs u !! a) as [p |] eqn:Hp; intros Hc; case_decide as Hb; subst;
    rewrite ?lookup_insert_eq, ?lookup_insert_ne by done; simpl; try done; [| lia].
  destruct (Z.ltb_spec (ci_confirmed_height p `max` ci_iterated_height p) h); lia.
Qed.

Lemma note_iterated_known u a h :
  known_iterated u a < h →
  let u' := note_iterated a h (known_confirmed u a) (known_iterated u a) u in
  (∀ b, known_confirmed u' b = known_confirmed u b) ∧
  (∀ b, known_iterated u' b = update (known_iterated u) a h b) ∧
  ∃ f, u' = ub_set_pairs f u.
Proof using.
  intros Hh u'. unfold u', note_iterated. rewrite (proj2 (Z.ltb_lt _ _)) by done.
  unfold known_confirmed, known_iterated, update in *. simpl in *. split_and!; [| | by eexists].
  - intros b. destruct (ub_confirmed_iterated_pairs u !! a) as [p |] eqn:Hp; destruct (decide (b = a)) as [-> | Hb];
      rewrite ?lookup_insert_eq, ?lookup_insert_ne by done; rewrite ?Hp; done.
  - intros b. destruct (ub_confirmed_iterated_pairs u !! a) as [p |] eqn:Hp; destruct (decide (b = a)) as [-> | Hb];
      rewrite ?lookup_insert_eq, ?lookup_insert_ne by done; rewrite ?Hp; simpl; try done; lia.
Qed.

(** ** Callbacks *)

Lemma take_down n m k : (m <= n)%nat → take m (down s n k) = down s m k.
Proof using.
  revert m k. induction n as [| n IH]; intros m k Hm; [by destruct m; [| lia] |].
  destruct m as [| m]; simpl; [done |]. f_equal. apply IH. lia.
Qed.

(** The upper part of a span. *)
Lemma take_span k low h :
  low <= h <= height_of k → take (Z.to_nat (height_of k - h)) (span k low) = span k h.
Proof using. intros Hh. apply take_down. lia. Qed.

Lemma erase_span k low h :
  low <= h <= height_of k → erase_last (h - low) (span k low) = Ok (span k h).
Proof using.
  intros Hh. rewrite erase_last_ok by (rewrite length_span by lia; lia). f_equal.
  rewrite <- (take_span k low h) by done. f_equal. pose proof (length_span s k low). lia.
Qed.

(** The part of a span between two heights. *)
Lemma slice_span k x low h :
  stored k → stored x → chain_of x = chain_of k → floor (chain_of k) <= low →
  low <= h → h < height_of x <= height_of k →
  slice_last (h - low) (height_of x - h) (span k low) = Ok (span x h).
Proof using HC.
  intros Hk Hx Hc Hf Hl Hh. assert (Hlen : Z.of_nat (length (span k low)) = height_of k - low)
    by (apply length_span; lia).
  rewrite slice_last_ok by lia. f_equal.
  replace (length (span k low) - Z.to_nat (h - low))%nat with (Z.to_nat (height_of k - h)) by lia.
  rewrite take_span by lia.
  rewrite (span_split _ _ _ _ HC k x h) by (done || lia).
  rewrite drop_app_length'; [done |]. pose proof (length_span s k (height_of x)). lia.
Qed.

Lemma erase_none {A} (n : Z) (l : list A) :
  n = Z.of_nat (length l) → erase_last (Z.of_nat (length l) - n) l = Ok l.
Proof using. intros ->. rewrite Z.sub_diag, erase_last_ok by lia. by rewrite Nat.sub_0_r, firstn_all. Qed.

Lemma set_top_nil G og : (top_goal G og).2 = [] → set_top [] G = G.
Proof using. destruct G as [| f G']; simpl; [done |]. destruct f. simpl. by intros ->. Qed.

Section confirm.
Context (u : unbounded) (conf iter : Z → Z) (G : list frame) (og : Z * list Z) (l : list Z).
Context (HI : loop_inv u conf iter G og l).

Abbreviation x := (top_goal G og).1.
Abbreviation a := (chain_of (top_goal G og).1).

(** In a chain with a stacked receive, one reaches down to the confirmed height. *)
Lemma lowest_frame b :
  (∃ g, g ∈ G ∧ chain_of (fr_receive g) = b) → ∃ g, g ∈ G ∧ chain_of (fr_receive g) = b ∧ fr_low g <= conf b.
Proof using HI HC.
  intros (g & Hg & Hb). remember (Z.to_nat (height_of (fr_receive g))) as n eqn:Hn.
  revert g Hg Hb Hn. induction n as [n IH] using lt_wf_ind. intros g Hg Hb ->.
  destruct (li_low HI g Hg) as [Hl | (g' & Hg' & Hc & Hl)].
  - exists g. rewrite Hb in Hl. done.
  - eapply (IH _ _ g'); [done | congruence | done]. Unshelve.
    pose proof (fo_low (li_frames HI g Hg)) as Hlo.
    rewrite Hl in Hlo. destruct Hlo as [Hl1 Hl2].
    pose proof (frame_above_floor _ _ _ _ _ _ _ _ _ _ _ _ _ _ HI g' Hg') as Hf.
    pose proof (ch_floor _ _ _ _ HC (chain_of (fr_receive g'))). lia.
Qed.

Lemma heap_set_top_nil :
  (top_goal G og).2 = [] → ∀ f, f ∈ set_top [] G → ub_heap u !! fr_id f = Some (fr_details f).
Proof using HI.
  intros Hc f. rewrite (set_top_nil _ og) by done. intros Hf.
  apply (fo_heap (li_frames HI f Hf)).
Qed.

Lemma heap_clear_top f0 G' :
  G = f0 :: G' →
  ∀ f, f ∈ set_top [] G → alter (set_source_callbacks []) (fr_id f0) (ub_heap u) !! fr_id f = Some (fr_details f).
Proof using HI.
  intros HG f Hf. pose proof (li_ids HI) as Hnd. pose proof (li_frames HI) as Hfr. rewrite HG in *.
  simpl in Hnd. apply NoDup_cons in Hnd as [Hni _]. apply elem_of_cons in Hf as [-> | Hf].
  - simpl. rewrite list_lookup_alter_eq, (fo_heap (Hfr f0 (list_elem_of_here _ _))). done.
  - rewrite list_lookup_alter_ne; [apply (fo_heap (Hfr f (list_elem_of_further _ _ _ Hf))) |].
    intros He. apply Hni. rewrite He. apply list_elem_of_fmap. eauto.
Qed.

(** The callbacks of a goal that was walked before. *)
Lemma chain_callbacks_traversed v :
  ub_heap v = ub_heap u →
  ub_implicit_receive_cemented_mapping v = ub_implicit_receive_cemented_mapping u →
  conf a < height_of x <= iter a →
  ∃ heap, chain_callbacks v (map fr_pair G) (fr_id <$> head G) true x (conf a) (height_of x - conf a) [] og.2 =
      Ok (span x (conf a), ub_set_heap (λ _, heap) v) ∧
    ∀ f, f ∈ set_top [] G → heap !! fr_id f = Some (fr_details f).
Proof using HI HC Horig.
  intros Hh Hm Hlt. unfold chain_callbacks.
  rewrite (bool_decide_true ([] = [])) by done. cbn [negb].
  assert (Hlen : Z.of_nat (length (span x (conf a))) = height_of x - conf a) by (apply length_span; lia).
  assert (Hne : span x (conf a) ≠ []) by (intros Hnil; rewrite Hnil in Hlen; simpl in Hlen; lia).
  assert (Hor : (∃ g, g ∈ G ∧ chain_of (fr_receive g) = a) ∨ (top_goal G og).2 = span x (conf a)).
  { destruct (li_progress HI a) as [? | (_ & _ & _ & Hw & _)]; [lia | by left | by right]. }
  assert (HGc : G = [] ∨ ∃ f G', G = f :: G') by (destruct G; eauto).
  destruct HGc as [HG | (f & G' & HG)].
  - exists (ub_heap v). rewrite HG in Hor |- *. destruct Hor as [(g & Hg & _) | Hw]; [by apply elem_of_nil in Hg |].
    simpl in *. rewrite Hw. split; [by destruct v |]. by intros f ?%elem_of_nil.
  - assert (Hf : f ∈ G) by (rewrite HG; by left).
    pose proof (fo_heap (li_frames HI f Hf)) as Hfh.
    replace (fr_id <$> head G) with (Some (fr_id f)) by (by rewrite HG). rewrite Hh, Hfh.
    cbn [of_option mbind outcome_bind fr_details cd_source_block_callback_data].
    exists (alter (set_source_callbacks []) (fr_id f) (ub_heap u)).
    split; [| by apply (heap_clear_top f G')]. unfold ub_set_heap at 1. rewrite <- Hh.
    match goal with |- (?o ≫= _) = _ => assert (Ho : o = Ok (span x (conf a))); [| rewrite Ho] end.
    2:{ cbn [mbind outcome_bind]. by rewrite erase_none by done. }
    destruct (decide (fr_callbacks f = [])) as [Hnil | Hcb].
    + destruct Hor as [Hg | Hw]; [| destruct Hne; rewrite <- Hw; by rewrite HG].
      apply lowest_frame in Hg as (g & Hg & Hgc & Hgl). pose proof (li_frames HI g Hg) as Hgo.
      pose proof (top_below _ _ _ _ HC _ _ _ _ Horig _ _ _ _ _ _ HI g Hg Hgc) as Hgx.
      pose proof (top_stored _ _ _ _ _ _ _ _ Horig _ _ _ _ _ _ HI) as Hx.
      pose proof (frame_stored _ _ _ _ _ _ _ _ _ _ _ _ _ _ HI g Hg) as Hgs.
      rewrite bool_decide_true by done. cbn [andb]. unfold lock. rewrite Hm.
      destruct (fo_between Hgo x Hx (eq_sym Hgc) ltac:(lia)) as [_ ->].
      rewrite (bool_decide_true (fr_id g ∈ map fst (map fr_pair G))).
      2:{ rewrite map_map. apply list_elem_of_fmap. by exists g. }
      cbn [orb]. rewrite Hh, (fo_heap Hgo).
      cbn [of_option mbind outcome_bind fr_details cd_num_blocks_confirmed cd_height cd_block_callback_data].
      replace (height_of (fr_receive g) - fr_low g - (height_of (fr_receive g) - conf a))
        with (conf a - fr_low g) by lia.
      apply slice_span; [done | done | done | apply (fo_low Hgo) | done | lia].
    + rewrite bool_decide_false by done. rewrite andb_false_r. f_equal.
      destruct (li_top HI) as [Hn | (_ & _ & Hw & _)]; [by rewrite HG in Hn |]. rewrite <- Hw. by rewrite HG.
Qed.

(** The part of [prepare] that confirms the chain of the goal. *)
Lemma confirm_chain already cb ocb :
  height_of x <= iter a ∨ no_receive a (iter a) (height_of x) →
  (∀ k, k ∈ span x (conf a) → is_Some (ub_block_cache u !! k)) →
  already = (height_of x <=? iter a) →
  (if already then cb = [] ∧ ocb = og.2
   else if bool_decide (G = []) then cb = [] ∧ ocb = span x (iter a) else cb = span x (iter a)) →
  ∃ u' conf' iter' G' og' l',
    (if conf a <? height_of x then
       let v := confirm_pair a (height_of x) (iter a) u in
       '(callbacks, v) ← chain_callbacks v (map fr_pair G) (fr_id <$> head G) already x (conf a)
         (height_of x - conf a) cb ocb;
       Ok (ub_set_writes (λ w, w ++
         [ConfHeightDetails a x (height_of x) (height_of x - conf a) callbacks []]) v)
     else Ok u) = Ok u' ∧
    loop_inv u' conf' iter' G' og' l' ∧ (G' = G ∨ G' = set_top [] G) ∧ (G ≠ [] → og' = og) ∧
    height_of x <= conf' a ∧ ∀ b, conf b <= conf' b ∧ iter b <= iter' b.
Proof using HI HC Horig.
  intros Hwalk Hcache Hal Hcb. destruct (Z.ltb_spec (conf a) (height_of x)) as [Hlt | Hge].
  2:{ exists u, conf, iter, G, og, l. split_and!; try done. by left. }
  pose proof (top_no_receive _ _ _ _ HC _ _ _ _ Horig _ _ _ _ _ _ HI Hwalk) as Hno.
  assert (Hcc : ∃ heap, chain_callbacks (confirm_pair a (height_of x) (iter a) u) (map fr_pair G) (fr_id <$> head G)
      already x (conf a) (height_of x - conf a) cb ocb =
      Ok (span x (conf a), ub_set_heap (λ _, heap) (confirm_pair a (height_of x) (iter a) u)) ∧
    ∀ f, f ∈ set_top [] G → heap !! fr_id f = Some (fr_details f)).
  { destruct (Z.leb_spec (height_of x) (iter a)) as [Hit | Hit]; subst already.
    - destruct Hcb as [-> ->]. by apply chain_callbacks_traversed.
    - destruct (top_idle _ _ _ _ HC _ _ _ _ Horig _ _ _ _ _ _ HI Hit) as (Hci & _ & Hnil).
      exists (ub_heap u). split; [| by apply heap_set_top_nil]. unfold chain_callbacks.
      assert (Hid : ∀ w, ub_set_heap (λ _, ub_heap w) w = w) by (by intros []).
      case_bool_decide as HG.
      + destruct Hcb as [-> ->]. rewrite (bool_decide_true ([] = [])) by done. rewrite HG in *. simpl in *.
        rewrite Hci. do 2 f_equal; by destruct u.
      + subst cb. rewrite bool_decide_false; cbn [negb].
        * rewrite Hci. do 2 f_equal; by destruct u.
        * intros Hn. pose proof (length_span s x (iter a)) as Hl. rewrite Hn in Hl. simpl in Hl. lia. }
  destruct Hcc as (heap & Hcc & Hheap). cbv zeta. rewrite Hcc. cbn [mbind outcome_bind].
  eexists _, _, _, (set_top [] G), (set_og [] G og), _. split; [done |]. split.
  { apply (confirm_goal _ _ _ _ HC _ _ _ _ Horig u); try done.
    - intros b. etrans; [apply confirm_pair_confirmed |]. unfold update. by rewrite (li_conf HI).
    - intros b. assert (Hk : known_confirmed u a < height_of x) by (by rewrite (li_conf HI)).
      pose proof (confirm_pair_iterated u a (height_of x) b Hk) as Hi. rewrite (li_iter HI a) in Hi.
      etrans; [exact Hi |]. unfold update. by rewrite (li_iter HI). }
  split_and!; [by right | by destruct G | by rewrite update_eq |].
  intros b. unfold update. case_decide; subst; lia.
Qed.
End confirm.

(** The part of [prepare] that confirms the receive on top. *)
Lemma confirm_receive u conf iter f G og l :
  loop_inv u conf iter (f :: G) og l → height_of (fr_source f) <= conf (chain_of (fr_source f)) →
  ∃ u' conf' l', prepare_receive (fr_id f) u = Ok u' ∧ loop_inv u' conf' iter G og l' ∧ ∀ b, conf b <= conf' b.
Proof using HC.
  intros HI Hsrc. set (r := fr_receive f). set (a := chain_of r).
  pose proof (pop_stored _ _ _ _ _ _ _ _ _ _ _ _ _ _ _ HI) as Hr.
  destruct (pop_height _ _ _ _ _ _ _ _ _ _ _ _ _ _ _ HI) as [[Hfl Hlt] Hit].
  pose proof (pop_low _ _ _ _ HC _ _ _ _ _ _ _ _ _ _ _ HI) as Hlow. fold r a in Hr, Hfl, Hlt, Hit, Hlow.
  pose proof (li_frames HI f (list_elem_of_here _ _)) as Hf.
  unfold prepare_receive. rewrite (fo_heap Hf). cbn [of_option mbind outcome_bind fr_details cd_account cd_height].
  fold r a. destruct (ub_confirmed_iterated_pairs u !! a) as [p |] eqn:Hp.
  2:{ pose proof (li_conf HI a) as Hc. pose proof (li_iter HI a) as Hi.
      unfold known_confirmed, known_iterated in Hc, Hi. rewrite Hp in Hc, Hi. lia. }
  assert (Hpc : ci_confirmed_height p = conf a).
  { rewrite <- (li_conf HI a). unfold known_confirmed. by rewrite Hp. }
  assert (Hpi : ci_iterated_height p = iter a).
  { pose proof (li_iter HI a) as Hi. unfold known_iterated in Hi. rewrite Hp in Hi. lia. }
  pose proof (height_pos _ _ _ _ HC r Hr) as Hpos. pose proof (ch_floor _ _ _ _ HC a) as Hf0.
  rewrite Hpc, wrap64_small by (unfold is_u64; lia).
  change (cd_num_blocks_confirmed (fr_details f)) with (height_of r - fr_low f).
  change (cd_block_callback_data (fr_details f)) with (span r (fr_low f)).
  replace (height_of r - fr_low f - (height_of r - conf a)) with (conf a - fr_low f) by lia.
  rewrite erase_span by lia. cbn [mbind outcome_bind].
  eexists _, _, _. split; [done |]. split; [eapply (pop_receive _ _ _ _ HC); try done |].
  - intros f' Hf'. simpl. rewrite list_lookup_insert_ne; [done |].
    pose proof (li_ids HI) as Hnd. simpl in Hnd. apply NoDup_cons in Hnd as [Hni _].
    intros He. apply Hni. rewrite He. apply list_elem_of_fmap. eauto.
  - intros b. unfold known_confirmed, update. simpl. fold r a. case_decide as Hb; [subst; by rewrite lookup_insert_eq |].
    rewrite lookup_insert_ne by done. apply (li_conf HI).
  - intros b. unfold known_iterated. simpl. destruct (decide (b = a)) as [-> | Hb].
    + rewrite lookup_insert_eq. simpl. lia.
    + rewrite lookup_insert_ne by done. apply (li_iter HI).
  - intros b. unfold update. fold r a. case_decide; subst; lia.
Qed.

(** [prepare] confirms the goal, then the receive that waited for it. *)
Lemma prepare_ok u conf iter G og l already cb ocb :
  loop_inv u conf iter G og l →
  let x := (top_goal G og).1 in
  let a := chain_of x in
  height_of x <= iter a ∨ no_receive a (iter a) (height_of x) →
  (∀ k, k ∈ span x (conf a) → is_Some (ub_block_cache u !! k)) →
  already = (height_of x <=? iter a) →
  (if already then cb = [] ∧ ocb = og.2
   else if bool_decide (G = []) then cb = [] ∧ ocb = span x (iter a) else cb = span x (iter a)) →
  ∃ u' conf' iter' og' l',
    prepare (map fr_pair G) (height_of x) (conf a) (iter a) a (fr_id <$> head G) already x cb ocb u = Ok u' ∧
    loop_inv u' conf' iter' (tail G) og' l' ∧ (G ≠ [] → og' = og) ∧ height_of x <= conf' a ∧
    ∀ b, iter b <= iter' b.
Proof using HC Horig.
  intros HI x a Hwalk Hcache Hal Hcb.
  destruct (confirm_chain u conf iter G og l HI already cb ocb Hwalk Hcache Hal Hcb)
    as (u1 & conf1 & iter1 & G1 & og1 & l1 & Hu1 & HI1 & HG1 & Hog1 & Hx1 & Hmono).
  unfold prepare. fold x a in Hu1, Hx1 |- *. cbv zeta in Hu1 |- *. rewrite Hu1. cbn [mbind outcome_bind].
  destruct G as [| f G]; simpl.
  - exists u1, conf1, iter1, og1, l1. split_and!; try done; [by destruct HG1; subst G1 | intros b; apply Hmono].
  - assert (∃ f1, G1 = f1 :: G ∧ fr_id f1 = fr_id f ∧ fr_source f1 = x) as (f1 & -> & Hid & Hs).
    { destruct HG1; subst G1; eexists; by split_and!. }
    destruct (confirm_receive u1 conf1 iter1 f1 G og1 l1 HI1) as (u2 & conf2 & l2 & Hu2 & HI2 & Hm2).
    { by rewrite Hs. }
    rewrite <- Hid, Hu2. exists u2, conf2, iter1, og1, l2. split_and!; [done | done | by auto | |].
    + specialize (Hm2 a). lia.
    + intros b. apply Hmono.
Qed.
End round.
