(* ===== verification/CementTheorems.v ===== *)
(** * What cementing guarantees

    Processing a block ends, never aborts, and cements exactly the block and what
    it depends on; the observers are told of every block that becomes cemented,
    once, after the blocks it depends on. *)

From S2P Require Import Prelude Blocks BlockCodec Common RepWeights EpochsWork Store Ledger Rollback.
From S2P Require Import LedgerInvariant ConfirmationHeight Chains CementWalk CementInvariant CementRound.

(** The node is not shut down meanwhile. *)
Definition never_stopped (rounds : nat → round_env) : Prop :=
  ∀ n, re_stopped (rounds n) = false ∧ re_stopped_at_end (rounds n) = false.

Section theorems.
Context `{Crypto} (constants : ledger_constants) (s : store).
Context (floor : Z → Z) (rank : Z → nat) (HC : chains constants s floor rank).

Abbreviation stored := (stored s).
Abbreviation chain_of := (chain_of s).
Abbreviation height_of := (height_of s).
Abbreviation source_of := (source_of constants s).
Abbreviation depends := (depends constants s).
Abbreviation span := (span s).
Abbreviation reads := (reads s).
Abbreviation fr_details := (fr_details s).
Abbreviation no_receive := (no_receive constants s).

(** ** Termination measure *)

(** The receives above the iterated heights. *)
Definition unwalked (iter : Z → Z) : gset Z :=
  filter (λ k, is_Some (source_of k) ∧ iter (chain_of k) < height_of k) (dom (st_blocks s)).

Lemma unwalked_mono iter iter' : (∀ b, iter b <= iter' b) → (size (unwalked iter') <= size (unwalked iter))%nat.
Proof using.
  intros Hi. apply subseteq_size. intros k. unfold unwalked. rewrite !elem_of_filter. intros [[? Hk] ?].
  specialize (Hi (chain_of k)). split; [split; [done | lia] | done].
Qed.

Lemma unwalked_push iter iter' (l : list Z) :
  (∀ b, iter b <= iter' b) → NoDup l →
  (∀ k, k ∈ l → is_Some (source_of k) ∧ iter (chain_of k) < height_of k <= iter' (chain_of k)) →
  (size (unwalked iter') + length l <= size (unwalked iter))%nat.
Proof using.
  intros Hi Hnd Hl. rewrite <- (size_list_to_set (C := gset Z) l Hnd), <- size_union.
  - apply subseteq_size. intros k. unfold unwalked. rewrite elem_of_union, elem_of_list_to_set, !elem_of_filter.
    intros [[[? Hk] ?] | Hk].
    + specialize (Hi (chain_of k)). split; [split; [done | lia] | done].
    + destruct (Hl k Hk) as [[y Hy] Hh]. split; [split; [by exists y | lia] |].
      apply elem_of_dom. by eapply receive_stored.
  - intros k. unfold unwalked. rewrite elem_of_filter, elem_of_list_to_set. intros [[_ Hk] _] Hkl.
    destruct (Hl k Hkl) as [_ ?]. lia.
Qed.

Section run.
Context (orig : Z) (conf0 : Z → Z) (L0 : ledger) (announced0 : list (option block_w_sideband)).
Context (e0 : block_w_sideband) (He0 : st_blocks s !! orig = Some e0).

Abbreviation loop_inv := (loop_inv constants s floor rank orig conf0 L0 announced0).

Lemma orig_stored : stored orig.
Proof using He0. by exists e0. Qed.

Lemma orig_hash : block_hash e0.1 = orig.
Proof using He0 HC. by apply (ch_key _ _ _ _ HC orig e0). Qed.

(** ** Writing the pending heights *)

Lemma cement_inv u conf iter G og l :
  loop_inv u conf iter G og l →
  ∃ u', cement_blocks u = Ok u' ∧ loop_inv u' conf iter G og l ∧ ub_pending_writes u' = [] ∧
    ∀ a, table_height (ub_ledger u') a = conf a.
Proof using HC.
  intros HI. unfold cement_blocks.
  destruct (cement_writes_ok _ _ _ _ HC (ub_block_cache u) (ub_pending_writes u) (ub_ledger u) _ conf (li_writes HI))
    as (L' & -> & HL & Hk); [done | apply (li_reads HI) | apply (li_reads HI) |].
  cbn [mbind outcome_bind]. eexists. split; [done |]. split; [| done].
  assert (Hnone : ∀ a, ub_confirmed_iterated_pairs u !! a = None → iter a = conf a).
  { intros a Ha. rewrite <- (li_iter HI a), <- (li_conf HI a). unfold known_iterated, known_confirmed. by rewrite Ha. }
  split; try apply HI.
  - intros a. rewrite <- (li_conf HI a). unfold known_confirmed. simpl.
    destruct (ub_confirmed_iterated_pairs u !! a) as [p |] eqn:Hp; [done |].
    fold (table_height L' a). rewrite HL, <- (li_conf HI a). unfold known_confirmed. by rewrite Hp.
  - intros a. rewrite <- (li_iter HI a). unfold known_iterated. simpl.
    destruct (ub_confirmed_iterated_pairs u !! a) as [p |] eqn:Hp; [done |].
    fold (table_height L' a). rewrite HL, <- (Hnone a Hp), <- (li_iter HI a). unfold known_iterated. by rewrite Hp.
  - destruct (li_reads HI) as [Hb Hc]. split; [| done]. simpl. by rewrite (cl_blocks _ _ _ Hk).
  - simpl. eapply cemented_ledger_trans; [apply HI | done].
  - rewrite <- (li_announced HI). unfold announced. simpl. rewrite map_app, concat_app. simpl.
    by rewrite app_nil_r, app_nil_r.
  - done.
Qed.

Lemma maybe_cement_inv bws r pairs u conf iter G og l :
  loop_inv u conf iter G og l →
  ∃ u', maybe_cement bws r pairs u = Ok u' ∧ loop_inv u' conf iter G og l.
Proof using HC.
  intros HI. destruct (cement_inv u conf iter G og l HI) as (u' & Hu & HI' & _). unfold maybe_cement.
  destruct (_ && _); [destruct (_ || _) |]; eauto.
Qed.

(** ** Rounds *)

Record vars_inv (v : process_vars) (conf iter : Z → Z) (G : list frame) (og : Z * list Z) (l : list Z) : Prop := {
  vi_inv : loop_inv (pv_proc v) conf iter G og l;
  vi_pairs : pv_receive_source_pairs v = map fr_pair G;
  vi_callbacks : pv_orig_block_callback_data v = og.2;
  vi_next : next_block orig v = (fr_id <$> head G, (top_goal G og).1);
  vi_first : pv_first_iter v = true → G = [];
}.

Definition measure (iter : Z → Z) (G : list frame) : nat := (3 * size (unwalked iter) + 2 * length G)%nat.

(** The goal is the original block only when the stack is empty. *)
Lemma goal_original u conf iter G og l :
  loop_inv u conf iter G og l → (top_goal G og).1 = orig ↔ G = [].
Proof using HC He0.
  intros HI. split; [| intros ->; apply (li_original HI)]. intros Ho.
  destruct G as [| f G']; [done |]. exfalso.
  assert (Hf : f ∈ f :: G') by (by left).
  pose proof (top_rank _ _ _ _ HC _ _ _ _ _ _ _ _ _ _ HI f Hf) as Hr. rewrite Ho in Hr.
  pose proof (rank_rtc _ _ _ _ HC _ _ (fo_reach (li_frames HI f Hf))). lia.
Qed.

(** Reading the block of the round. *)
Lemma round_read v conf iter G og l :
  vars_inv v conf iter G og l →
  let x := (top_goal G og).1 in
  ∃ b g, st_blocks s !! x = Some b ∧
    (if pv_first_iter v
     then (Some e0, ub_set_cache <[orig := Some e0]> (pv_proc v))
     else get_block_and_sideband (pv_proc v) x) = (Some b, ub_set_cache g (pv_proc v)) ∧
    loop_inv (ub_set_cache g (pv_proc v)) conf iter G og l ∧
    ∀ h, loop_inv (ub_notify (ev_already_cemented h) (ub_set_cache g (pv_proc v))) conf iter G og l.
Proof using HC He0.
  intros [HI Hp Hc Hn Hf] x.
  assert (Hev : ∀ u, loop_inv u conf iter G og l → ∀ h, loop_inv (ub_notify (ev_already_cemented h) u) conf iter G og l).
  { intros u Hu h. eapply loop_inv_read; [exact Hu | apply (li_reads Hu) | done.. |]. simpl. rewrite map_app, concat_app. simpl. by rewrite app_nil_r. }
  pose proof (top_stored _ _ _ _ _ _ _ _ orig_stored _ _ _ _ _ _ HI) as Hx. fold x in Hx.
  destruct (pv_first_iter v).
  - assert (Hxo : x = orig) by (by apply (goal_original _ _ _ _ _ _ HI), Hf).
    destruct (cache_insert s (pv_proc v) orig (li_reads HI)) as (Hr & Hs & Hm). rewrite He0 in Hr, Hs, Hm.
    exists e0, <[orig := Some e0]>. split_and!; [by rewrite Hxo | done | |]; [| apply Hev]; by (eapply loop_inv_read; [exact HI | ..]).
  - destruct Hx as [b Hb]. destruct (get_block_ok s (pv_proc v) x (li_reads HI)) as (g & Hg & Hr & Hs & Hm).
    rewrite Hb in Hg. eexists b, g.
    split_and!; [done | done | |]; [| apply Hev]; by (eapply loop_inv_read; [exact HI | ..]).
Qed.

(** The end of a round that does not walk, or walks without finding a receive. *)
Lemma round_confirm bws r u conf iter G og l already cb ocb :
  loop_inv u conf iter G og l →
  let x := (top_goal G og).1 in
  let a := chain_of x in
  height_of x <= iter a ∨ no_receive a (iter a) (height_of x) →
  (∀ k, k ∈ span x (conf a) → is_Some (ub_block_cache u !! k)) →
  already = (height_of x <=? iter a) →
  (if already then cb = [] ∧ ocb = og.2
   else if bool_decide (G = []) then cb = [] ∧ ocb = span x (iter a) else cb = span x (iter a)) →
  ∃ u1 u2 conf' iter' og' l',
    prepare (map fr_pair G) (height_of x) (conf a) (iter a) a (fr_id <$> head G) already x cb ocb u = Ok u1 ∧
    maybe_cement bws r (map fr_pair (tail G)) u1 = Ok u2 ∧
    loop_inv u2 conf' iter' (tail G) og' l' ∧ (G ≠ [] → og' = og) ∧ height_of x <= conf' a ∧
    ∀ b, iter b <= iter' b.
Proof using HC He0.
  intros HI x a Hwalk Hcache Hal Hcb.
  destruct (prepare_ok _ _ _ _ HC _ _ _ _ orig_stored u conf iter G og l already cb ocb HI Hwalk Hcache Hal Hcb)
    as (u1 & conf' & iter' & og' & l' & Hu1 & HI1 & Hrest).
  destruct (maybe_cement_inv bws r (map fr_pair (tail G)) u1 conf' iter' (tail G) og' l' HI1) as (u2 & Hu2 & HI2).
  exists u1, u2, conf', iter', og', l'. done.
Qed.

(** The callbacks above the highest receive are kept with the goal. *)
Lemma callbacks_kept u c c' conf iter G og l cb :
  loop_inv u conf iter G og l → (top_goal G og).2 = [] →
  co_proc c = u → co_receive_source_pairs c = map fr_pair G → co_block_callback_data c = [] →
  co_orig_block_callback_data c = og.2 → co_is_original_block c = ((top_goal G og).1 =? orig) →
  callbacks_left c c' cb true →
  co_orig_block_callback_data c' = (set_og cb G og).2 ∧
  ∀ g, g ∈ set_top cb G → ub_heap (co_proc c') !! fr_id g = Some (fr_details g).
Proof using HC He0.
  intros HI Hnil Hcu Hcp Hccb Hcor Hcio Hleft. pose proof (goal_original _ _ _ _ _ _ HI) as Hgo.
  unfold callbacks_left in Hleft. rewrite Hcio, Hcor, Hccb, Hcu, Hcp in Hleft.
  destruct G as [| f0 G0].
  - rewrite (proj2 (Z.eqb_eq _ _)) in Hleft by (by apply Hgo). destruct Hleft as (Ho & _). simpl in *.
    rewrite Ho, Hnil. split; [done |]. by intros g ?%elem_of_nil.
  - rewrite (proj2 (Z.eqb_neq _ _)) in Hleft by (rewrite Hgo; done).
    destruct Hleft as (Ho & _ & d & y & rest & Hp & Hd & Hhd & Hother). injection Hp as <- _ _.
    split; [done |]. pose proof (li_frames HI) as Hfr. pose proof (li_ids HI) as Hnd.
    simpl in Hnd. apply NoDup_cons in Hnd as [Hni _].
    intros g [-> | Hg]%elem_of_cons.
    + simpl. rewrite Hhd, (fo_heap (Hfr f0 (list_elem_of_here _ _))). done.
    + assert (Hg' : g ∈ f0 :: G0) by (by right). pose proof (fo_heap (Hfr g Hg')) as Hgh.
      rewrite Hother; [done | by eapply lookup_lt_Some |].
      intros He. apply Hni. rewrite <- He. apply list_elem_of_fmap. eauto.
Qed.

Lemma batch_measure a iter iter' top heap mapping Gn G :
  batch constants s a (iter a) top heap mapping Gn → (0 < length Gn)%nat → top <= iter' a →
  (∀ b, iter b <= iter' b) → (measure iter' (Gn ++ G) < measure iter G)%nat.
Proof using.
  intros Hba Hlen Htop Hi. unfold measure. rewrite length_app.
  assert (size (unwalked iter') + length (map fr_receive Gn) <= size (unwalked iter))%nat as Hs.
  { apply unwalked_push; [done | |].
    - pose proof (ba_sorted _ _ _ _ _ _ _ _ Hba) as Hso. clear -Hso.
      induction Hso as [| g Gn Hso IH Hall]; [constructor |]. simpl. apply NoDup_cons. split; [| done].
      intros (g' & Hg & Hin)%list_elem_of_fmap. rewrite Forall_forall in Hall. specialize (Hall g' Hin).
      simpl in Hall. rewrite Hg in Hall. lia.
    - intros k (g & -> & Hg)%list_elem_of_fmap.
      destruct (ba_frame _ _ _ _ _ _ _ _ Hba g Hg) as (_ & Hc & Hs & _ & Hl & Ht & _).
      split; [by eexists |]. rewrite Hc. lia. }
  rewrite length_map in Hs. lia.
Qed.

(** The end of a round that found receives. *)
Lemma round_push bws r u c c' conf iter G og l Gn rc y :
  loop_inv u conf iter G og l →
  let x := (top_goal G og).1 in
  let a := chain_of x in
  iter a < height_of x → co_proc c = u → co_receive_source_pairs c = map fr_pair G →
  co_block_callback_data c = [] → co_orig_block_callback_data c = og.2 → co_is_original_block c = (x =? orig) →
  grown s a (iter a) (height_of x) (co_proc c) (co_proc c') →
  source_of rc = Some y → chain_of rc = a → iter a < height_of rc <= height_of x →
  no_receive a (height_of rc) (height_of x) →
  (∃ G' f, Gn = G' ++ [f] ∧ fr_receive f = rc) →
  batch constants s a (iter a) (height_of rc) (ub_heap (co_proc c'))
    (ub_implicit_receive_cemented_mapping (co_proc c')) Gn →
  (∀ f, f ∈ Gn → (length (ub_heap (co_proc c)) <= fr_id f)%nat) →
  callbacks_left c c' (span x (height_of rc)) true →
  ∃ u2 iter' G2 og2,
    maybe_cement bws r (map fr_pair Gn ++ map fr_pair G)
      (note_iterated a (height_of x) (conf a) (iter a) (co_proc c')) = Ok u2 ∧
    loop_inv u2 conf iter' G2 og2 l ∧ map fr_pair G2 = map fr_pair Gn ++ map fr_pair G ∧
    co_orig_block_callback_data c' = og2.2 ∧ (measure iter' G2 < measure iter G)%nat.
Proof using HC He0.
  intros HI x a Hlt Hcu Hcp Hccb Hcor Hcio Hgr Hrs Hra Hrh Hno (G' & f & HGn & Hfr) Hba Hids Hleft.
  subst rc. destruct (top_idle _ _ _ _ HC _ _ _ _ orig_stored _ _ _ _ _ _ HI Hlt) as (_ & _ & Hnil).
  destruct (callbacks_kept u c c' conf iter G og l _ HI Hnil Hcu Hcp Hccb Hcor Hcio Hleft) as [Hor Hheap].
  rewrite Hcu in Hgr, Hids. destruct Hgr as [Hgl Hgp Hgw Hge Hgrd Hgc1 Hgc2 Hgm].
  assert (Hkc : ∀ b, known_confirmed (co_proc c') b = conf b)
    by (intros b; rewrite <- (li_conf HI b); unfold known_confirmed; by rewrite Hgp, Hgl).
  assert (Hki : ∀ b, known_iterated (co_proc c') b = iter b)
    by (intros b; rewrite <- (li_iter HI b); unfold known_iterated; by rewrite Hgp, Hgl).
  destruct (note_iterated_known (co_proc c') a (height_of x)) as (Hkc' & Hki' & g & Hu1); [by rewrite Hki |].
  rewrite Hkc, Hki in Hkc', Hki', Hu1. set (u1 := note_iterated _ _ _ _ _) in *.
  assert (HI1 : loop_inv u1 conf (update iter a (height_of x)) (Gn ++ set_top (span x (height_of (fr_receive f))) G)
    (set_og (span x (height_of (fr_receive f))) G og) l).
  { apply (push_batch _ _ _ _ HC _ _ _ _ orig_stored u u1 conf iter G og l Gn G' f HI); rewrite ?Hu1; try done; [apply Hrh | |].
    - intros b. rewrite <- Hu1, Hkc'. apply Hkc.
    - intros b. rewrite <- Hu1, Hki'. unfold update. by rewrite Hki. }
  destruct (maybe_cement_inv bws r (map fr_pair Gn ++ map fr_pair G) u1 _ _ _ _ _ HI1) as (u2 & Hu2 & HI2).
  eexists u2, _, _, _. split_and!; [done | exact HI2 | | done |].
  - rewrite map_app. f_equal. by destruct G.
  - apply Nat.lt_le_trans with (measure iter (set_top (span x (height_of (fr_receive f))) G)); [| by destruct G].
    eapply batch_measure; [exact Hba | rewrite HGn, length_app; simpl; lia | rewrite update_eq; lia |].
    intros b. unfold update. case_decide; subst; lia.
Qed.

(** After a round the loop is done, or goes on with a smaller measure. *)
Definition round_result (iter : Z → Z) (G : list frame) (res : process_vars * bool) : Prop :=
  ∃ conf' iter' G' og' l',
    loop_inv (pv_proc res.1) conf' iter' G' og' l' ∧
    if res.2 then vars_inv res.1 conf' iter' G' og' l' ∧ (measure iter' G' < measure iter G)%nat
    else G' = [] ∧ height_of orig <= conf' (chain_of orig).

(** The variables after a round. *)
Lemma round_vars u conf iter G og l rd current ocb :
  loop_inv u conf iter G og l → ocb = og.2 → (G = [] → is_Some rd) →
  vars_inv (ProcessVars u (map fr_pair G) rd current ocb false) conf iter G og l.
Proof using.
  intros HI -> Hrd. split; try done. unfold next_block. simpl. destruct G as [| f G']; [| done].
  destruct Hrd as [d ->]; [done |]. simpl. by rewrite (li_original HI).
Qed.

Lemma confirm_result iter G conf' iter' og' l' u rd ocb x :
  loop_inv u conf' iter' (tail G) og' l' → (x = orig ↔ G = []) → rd = fr_id <$> head G →
  (G ≠ [] → ocb = og'.2) → height_of x <= conf' (chain_of x) → (∀ b, iter b <= iter' b) →
  round_result iter G (ProcessVars u (map fr_pair (tail G)) rd x ocb false,
    negb (bool_decide (map fr_pair (tail G) = [])) || negb (x =? orig)).
Proof using.
  intros HI Hx Hrd Hocb Hc Hi. exists conf', iter', (tail G), og', l'. split; [done |]. simpl.
  destruct G as [| f G]; simpl in *.
  - rewrite (proj2 (Z.eqb_eq x orig)) by (by apply Hx). simpl. rewrite (proj2 Hx) in Hc by done. done.
  - rewrite (proj2 (Z.eqb_neq x orig)) by (rewrite Hx; done). rewrite orb_true_r.
    split; [apply round_vars; [done | by apply Hocb | intros _; rewrite Hrd; eauto] |].
    unfold measure. pose proof (unwalked_mono iter iter' Hi). simpl. lia.
Qed.

Lemma process_round_ok bws r v conf iter G og l :
  re_stopped r = false → vars_inv v conf iter G og l →
  ∃ v' more, process_round constants bws r e0 v = Ok (v', more && negb (re_stopped_at_end r)) ∧
    round_result iter G (v', more).
Proof using HC He0.
  intros Hst Hv. pose proof Hv as [_ Hp Hcb Hn _]. unfold process_round. rewrite orig_hash, Hn.
  destruct (round_read v conf iter G og l Hv) as (b & g & Hb & -> & HI1 & HIn).
  set (x := (top_goal G og).1) in *. set (a := chain_of x).
  destruct (block_fields constants s x b Hb) as (Hx & Ha & Hh & _ & _).
  cbn [of_option mbind outcome_bind]. rewrite <- Ha, <- Hh. fold a. rewrite (li_conf HI1 a).
  match goal with |- context [known_iterated ?w a] => set (u := w) end.
  assert (HI : loop_inv u conf iter G og l) by (unfold u; by destruct (_ && _ && _)).
  assert (Htl : tail (map fr_pair G) = map fr_pair (tail G)) by (by destruct G).
  clearbody u. clear HI1 HIn. rewrite (li_iter HI a). pose proof (goal_original _ _ _ _ _ _ HI) as Hgo. fold x in Hgo.
  destruct (Z.leb_spec (height_of x) (iter a)) as [Hal | Hal]; cbn [mbind outcome_bind co_receive_source_pairs
    co_proc co_block_callback_data co_orig_block_callback_data].
  - rewrite Hst, Hp, bool_decide_true by done.
    destruct (round_confirm bws r u conf iter G og l true [] (pv_orig_block_callback_data v) HI)
      as (u1 & u2 & conf' & iter' & og' & l' & Hu1 & Hu2 & HI2 & Hog & Hc2 & Hi2); try done.
    + by left.
    + intros k Hk. apply (elem_of_span _ _ _ _ HC) in Hk as (Hks & Hkc & Hkh); [| done | apply (li_floor HI)].
      apply (li_cached HI); [done |]. rewrite Hkc. split; [apply Hkh | etrans; [apply Hkh | exact Hal]].
    + symmetry. by apply Z.leb_le.
    + fold x in Hu1, Hc2. fold a in Hu1, Hc2. rewrite Hu1. cbn [mbind outcome_bind]. rewrite Htl, Hu2.
      cbn [mbind outcome_bind]. eexists _, _. split; [done |].
      eapply confirm_result; try done. intros HG. by rewrite Hcb, Hog.
  - destruct (top_idle _ _ _ _ HC _ _ _ _ orig_stored _ _ _ _ _ _ HI Hal) as (Hci & _ & Hnil). fold x a in Hci.
    set (c := CollectState _ _ _ _ _ _).
    assert (Hroom : callbacks_room c).
    { unfold callbacks_room, c. simpl. destruct (Z.eqb_spec x orig) as [Hxo | Hxo]; [done |].
      rewrite Hp. rewrite Hgo in Hxo. destruct G as [| f G']; [done |]. simpl.
      eexists _, _, _, _. split_and!; [done | apply (fo_heap (li_frames HI f (list_elem_of_here _ _))) |]. exact Hnil. }
    assert (Hn' : iter a + Z.of_nat (Z.to_nat (height_of x - iter a)) = height_of x) by lia.
    pose proof (li_floor HI a) as Hfl.
    destruct (collect_walk _ _ _ _ HC (Z.to_nat (height_of x - iter a)) (iter a) a x c (Some b))
      as (c' & Hc & Hgr & Hres); [lia | intros _; by rewrite Hn' | done | apply (li_reads HI) | by intros ? [= <-] | done |].
    rewrite Hst, Hc. cbn [mbind outcome_bind]. rewrite Hn' in Hgr, Hres.
    destruct Hres as [(Hno & Hpc & (gc & Hgc) & Hleft) | (rc & y & Gn & Hrs & Hra & Hrh & Hno & Hpc & HGn & Hba & Hids & Hleft)].
    + assert (HI' : loop_inv (co_proc c') conf iter G og l).
      { eapply loop_inv_read; [exact HI | apply Hgr | by rewrite Hgc.. | apply Hgr | by rewrite Hgc]. }
      assert (Hpc' : co_receive_source_pairs c' = map fr_pair G) by (by rewrite Hpc).
      rewrite Hpc', Hp, bool_decide_true by done.
      destruct (round_confirm bws r (co_proc c') conf iter G og l false (co_block_callback_data c')
        (co_orig_block_callback_data c') HI')
        as (u1 & u2 & conf' & iter' & og' & l' & Hu1 & Hu2 & HI2 & Hog & Hc2 & Hi2).
      * by right.
      * intros k Hk. apply (elem_of_span _ _ _ _ HC) in Hk as (Hks & Hkc & Hkh); [| done | done].
        apply (gr_cached _ _ _ _ _ _ Hgr); [done | done |]. fold x a in Hkh. rewrite Hci in Hkh. done.
      * symmetry. by apply Z.leb_gt.
      * revert Hleft. unfold callbacks_left. simpl. fold (span x (iter a)). fold x a.
        case_bool_decide as HG.
        -- rewrite (proj2 (Z.eqb_eq x orig)) by (by apply Hgo). intros (Ho & Hcb' & _). split; [done |].
           rewrite Ho, Hcb. rewrite HG in Hnil. simpl in Hnil. by rewrite Hnil.
        -- rewrite (proj2 (Z.eqb_neq x orig)) by (by rewrite Hgo). intros (_ & Hcb' & _). done.
      * fold x in Hu1, Hc2. fold a in Hu1, Hc2. rewrite Hu1. cbn [mbind outcome_bind]. rewrite Htl, Hu2.
        cbn [mbind outcome_bind]. eexists _, _. split; [done |].
        eapply confirm_result; try done. intros HG. revert Hleft. unfold callbacks_left. simpl.
        rewrite (proj2 (Z.eqb_neq x orig)) by (by rewrite Hgo). intros (Ho & _). by rewrite Ho, Hcb, Hog.
    + rewrite Hpc. cbn [c co_receive_source_pairs]. rewrite Hp, bool_decide_false.
      2:{ rewrite length_app, !length_map. destruct HGn as (G' & f & -> & _). rewrite length_app. simpl. lia. }
      destruct (round_push bws r u c c' conf iter G og l Gn rc y HI) as (u2 & iter' & G2 & og2 & Hu2 & HI2 & Hp2 & Ho2 & Hm2);
        try done. fold x in Hu2. fold a in Hu2. cbn [mbind outcome_bind]. rewrite Hu2. cbn [mbind outcome_bind].
      eexists _, _. split; [done |]. exists conf, iter', G2, og2, l. split; [done |].
      assert (HG2 : G2 ≠ []).
      { intros ->. destruct HGn as (G' & f & -> & _). simpl in Hp2. rewrite map_app in Hp2. by destruct G'. }
      rewrite <- Hp2. rewrite bool_decide_false by (by destruct G2). simpl. split; [| done].
      by apply round_vars.
Qed.

(** A round that sees the stop flag is the last. *)
Lemma process_round_stopped bws r v conf iter G og l :
  re_stopped r = true → vars_inv v conf iter G og l →
  ∃ v', process_round constants bws r e0 v = Ok (v', false).
Proof using HC He0.
  intros Hst Hv. pose proof Hv as [_ _ _ Hn _]. unfold process_round. rewrite orig_hash, Hn.
  destruct (round_read v conf iter G og l Hv) as (b & g & _ & -> & _). cbn [of_option mbind outcome_bind].
  rewrite Hst. destruct (_ <=? known_iterated _ _); [by eexists |].
  destruct (Z.to_nat _) as [| n]; cbn [collect]; [by eexists |]. rewrite orb_true_r. by eexists.
Qed.

Lemma process_loop_ends bws rounds fuel v conf iter G og l :
  vars_inv v conf iter G og l → (measure iter G < fuel)%nat →
  ∃ v', process_loop constants fuel bws rounds e0 v = Done v'.
Proof using HC He0.
  revert v conf iter G og l. induction fuel as [| fuel IH]; intros v conf iter G og l Hv Hm; [lia |]. simpl.
  destruct (re_stopped (rounds fuel)) eqn:Hst.
  - destruct (process_round_stopped bws (rounds fuel) v conf iter G og l Hst Hv) as (v' & ->). by eexists.
  - destruct (process_round_ok bws (rounds fuel) v conf iter G og l Hst Hv)
      as (v1 & more & -> & conf1 & iter1 & G1 & og1 & l1 & HI1 & Hres).
    cbn [lift mbind run_bind fst snd] in *. destruct more; [| by eexists].
    destruct (re_stopped_at_end (rounds fuel)); [by eexists |].
    destruct Hres as [Hv1 Hm1]. apply (IH v1 conf1 iter1 G1 og1 l1 Hv1). lia.
Qed.

Lemma process_loop_ok bws rounds fuel v conf iter G og l :
  never_stopped rounds → vars_inv v conf iter G og l → (measure iter G < fuel)%nat →
  ∃ v' conf' iter' og' l', process_loop constants fuel bws rounds e0 v = Done v' ∧
    loop_inv (pv_proc v') conf' iter' [] og' l' ∧ height_of orig <= conf' (chain_of orig).
Proof using HC He0.
  intros Hst. revert v conf iter G og l. induction fuel as [| fuel IH]; intros v conf iter G og l Hv Hm; [lia |].
  simpl. destruct (Hst fuel) as [Hst1 Hst2].
  destruct (process_round_ok bws (rounds fuel) v conf iter G og l Hst1 Hv)
    as (v1 & more & -> & conf1 & iter1 & G1 & og1 & l1 & HI1 & Hres).
  rewrite Hst2. cbn [lift mbind run_bind fst snd] in *. destruct more; cbn [negb andb].
  - destruct Hres as [Hv1 Hm1]. apply (IH v1 conf1 iter1 G1 og1 l1 Hv1). lia.
  - destruct Hres as [-> Ho]. exists v1, conf1, iter1, og1, l1. done.
Qed.
End run.

(** ** Between two blocks *)

(** The processor between two calls of [process]: the heights in memory cement a set
    closed under dependencies, to which the pending writes lead the table. *)
Record settled (u : unbounded) (conf : Z → Z) : Prop := {
  se_conf : ∀ a, known_confirmed u a = conf a;
  se_iter : ∀ a, known_iterated u a = conf a;
  se_reads : reads u;
  se_floor : ∀ a, floor a <= conf a;
  se_closed : ∀ k y, depends k y → height_of k <= conf (chain_of k) → height_of y <= conf (chain_of y);
  se_writes : writes_ok s floor (ub_block_cache u) (table_height (ub_ledger u)) (ub_pending_writes u) conf;
}.

Abbreviation announced := (announced s).

Lemma settled_start u conf orig :
  settled u conf → loop_inv constants s floor rank orig conf (ub_ledger u) (announced u) u conf conf [] (orig, []) [].
Proof using.
  intros [Hc Hi Hr Hf Hcl Hw]. split; try done.
  - apply cemented_ledger_refl.
  - intros. lia.
  - constructor.
  - intros k Hk. split; [by left |]. by intros [? | ?%elem_of_nil].
  - by rewrite app_nil_r.
  - by intros k ?%elem_of_nil.
  - by intros f ?%elem_of_nil.
  - constructor.
  - constructor.
  - intros. lia.
  - intros. lia.
  - by intros f ?%elem_of_nil.
  - by left.
Qed.

Lemma settled_clear u conf : settled u conf → pending_empty u = true → settled (clear_process_vars u) conf.
Proof using.
  intros [Hc Hi [Hb _] Hf Hcl Hw] Hp%bool_decide_eq_true. rewrite Hp in Hw. simpl in Hw.
  split; try done; simpl; rewrite ?Hp; done.
Qed.

Lemma loop_settled u conf iter og l orig conf0 L0 an0 :
  stored orig →
  (∀ k y, depends k y → height_of k <= conf0 (chain_of k) → height_of y <= conf0 (chain_of y)) →
  loop_inv constants s floor rank orig conf0 L0 an0 u conf iter [] og l →
  height_of orig <= conf (chain_of orig) → settled u conf.
Proof using.
  intros Hst Hcl HI Ho. split; try apply HI.
  - intros a. rewrite (li_iter HI). pose proof (conf_le_iter _ _ _ _ _ _ _ _ _ _ _ _ _ _ HI a).
    destruct (Z.lt_ge_cases (conf a) (iter a)) as [Hlt | ?]; [| lia].
    destruct (li_progress HI a Hlt) as [(f & Hf & _) | (Hc & _ & Hh & _)]; [by apply elem_of_nil in Hf |].
    simpl in Hc, Hh. rewrite (li_original HI) in Hc, Hh. rewrite Hc in Ho, Hh. lia.
  - apply (closure_exact constants s orig conf0 Hst Hcl conf l); [apply HI | apply HI | apply HI | done].
Qed.

(** ** Processing a block *)

Lemma unwalked_bound iter : (size (unwalked iter) <= size (st_blocks s))%nat.
Proof using. unfold unwalked. rewrite <- (size_dom (D := gset Z)). apply subseteq_size. intros k. rewrite elem_of_filter. tauto. Qed.

Lemma start_vars u conf orig e0 :
  st_blocks s !! orig = Some e0 → settled u conf →
  let u1 := if pending_empty u then clear_process_vars u else u in
  settled u1 conf ∧ announced u1 = announced u ∧ ub_ledger u1 = ub_ledger u ∧
  vars_inv orig conf (ub_ledger u1) (announced u1) (ProcessVars u1 [] None (block_hash e0.1) [] true) conf conf []
    (orig, []) [] ∧ (measure conf [] <= 3 * size (st_blocks s))%nat.
Proof using HC.
  intros He0 Hu u1.
  assert (Hu1 : settled u1 conf) by (unfold u1; destruct (pending_empty u) eqn:Hp; [by apply settled_clear | done]).
  split_and!; [done | unfold u1; by destruct (pending_empty u) | unfold u1; by destruct (pending_empty u) | |].
  - split; try done; [by apply settled_start |]. simpl. by rewrite (orig_hash _ _ He0).
  - unfold measure. pose proof (unwalked_bound conf). simpl. lia.
Qed.

Lemma process_cements u conf orig e0 bws rounds fuel :
  settled u conf → st_blocks s !! orig = Some e0 → never_stopped rounds →
  (3 * size (st_blocks s) < fuel)%nat →
  ∃ u' conf' l, unbounded_process constants fuel bws rounds e0 u = Done u' ∧ settled u' conf' ∧
    cemented_ledger s (ub_ledger u) (ub_ledger u') ∧
    (∀ k, stored k → height_of k <= conf' (chain_of k) ↔ height_of k <= conf (chain_of k) ∨ rtc depends orig k) ∧
    announced u' = announced u ++ map (λ k, st_blocks s !! k) l ∧
    announces constants s (λ k, height_of k <= conf (chain_of k)) l ∧
    (∀ k, k ∈ l ↔ stored k ∧ ¬ height_of k <= conf (chain_of k) ∧ rtc depends orig k).
Proof using HC.
  intros Hu He0 Hst Hfuel. destruct (start_vars u conf orig e0 He0 Hu) as (Hu1 & Han & Hl & Hv & Hm).
  unfold unbounded_process. set (u1 := if pending_empty u then _ else _) in *.
  destruct (process_loop_ok orig conf (ub_ledger u1) (announced u1) e0 He0 bws rounds fuel _ conf conf [] (orig, []) [] Hst Hv)
    as (v' & conf' & iter' & og' & l & -> & HI & Ho); [lia |]. cbn [mbind run_bind].
  assert (Hs : stored orig) by (by exists e0).
  pose proof (loop_settled _ _ _ _ _ _ _ _ _ Hs (se_closed _ _ Hu1) HI Ho) as Hu'.
  destruct (closure_exact constants s orig conf Hs (se_closed _ _ Hu1) conf' l) as (_ & Hex & Hel);
    [apply HI | apply HI | apply HI | done |].
  exists (pv_proc v'), conf', l. rewrite <- Han, <- Hl.
  split_and!; [done | done | apply (li_ledger HI) | done | apply (li_announced HI) | apply (li_announces HI) | done].
Qed.

Lemma settled_cement u conf :
  settled u conf →
  ∃ u', cement_blocks u = Ok u' ∧ settled u' conf ∧ ub_pending_writes u' = [] ∧
    (∀ a, table_height (ub_ledger u') a = conf a) ∧ cemented_ledger s (ub_ledger u) (ub_ledger u') ∧
    announced u' = announced u.
Proof using HC.
  intros Hu. pose proof (settled_start u conf 0 Hu) as HI.
  destruct (cement_inv _ _ _ _ _ _ _ _ _ _ HI) as (u' & Hc & HI' & Hp & Ht). exists u'.
  pose proof (li_announced HI') as Ha. rewrite app_nil_r in Ha.
  split_and!; [done | | done | done | apply (li_ledger HI') | done].
  split; [apply (li_conf HI') | | apply HI' | apply Hu | apply Hu | apply HI']. intros a. apply (li_iter HI').
Qed.

(** What the observers have been told. *)
Definition notified (u : unbounded) : list (option block_w_sideband) := concat (map event_blocks (ub_events u)).

Lemma announced_notified u : ub_pending_writes u = [] → announced u = notified u.
Proof using. intros Hp. unfold CementInvariant.announced, notified. rewrite Hp. apply app_nil_r. Qed.

(** Where the stored blocks form chains without dependency cycles, as they do
    on every ledger a node reaches, and whatever the stop flag, the timer, the queue
    and the writer lock answer in each round, processing a stored block from a state
    between two calls ends within three rounds per stored block and one more,
    without an iterator leaving its container, a dead pointer being locked or a
    release assertion failing. *)
Theorem cementing_terminates u conf orig e0 bws rounds fuel :
  settled u conf → st_blocks s !! orig = Some e0 → (3 * size (st_blocks s) < fuel)%nat →
  ∃ u', unbounded_process constants fuel bws rounds e0 u = Done u'.
Proof using HC.
  intros Hu He0 Hfuel. destruct (start_vars u conf orig e0 He0 Hu) as (_ & _ & _ & Hv & Hm).
  unfold unbounded_process. destruct (process_loop_ends orig _ _ _ e0 He0 bws rounds fuel _ _ _ _ _ _ Hv) as (v' & ->); [lia |].
  by eexists.
Qed.


(** C15: From a state with no pending writes, processing a stored block and writing
    out what remains tells the observers of exactly the newly cemented blocks, each
    once, and of no block before the blocks it depends on. *)
Theorem observers_told_in_order u conf orig e0 bws rounds fuel :
  settled u conf → ub_pending_writes u = [] → st_blocks s !! orig = Some e0 →
  never_stopped rounds → (3 * size (st_blocks s) < fuel)%nat →
  ∃ u1 u2 l, unbounded_process constants fuel bws rounds e0 u = Done u1 ∧ cement_blocks u1 = Ok u2 ∧
    notified u2 = notified u ++ map (λ k, st_blocks s !! k) l ∧ NoDup l ∧
    (∀ k, k ∈ l ↔ stored k ∧ ¬ height_of k <= conf (chain_of k) ∧ rtc depends orig k) ∧
    (∀ l1 k l2 y, l = l1 ++ k :: l2 → depends k y → height_of y <= conf (chain_of y) ∨ y ∈ l1).
Proof using HC.
  intros Hu Hp He0 Hst Hfuel.
  destruct (process_cements u conf orig e0 bws rounds fuel Hu He0 Hst Hfuel)
    as (u1 & conf1 & l & H1 & Hu1 & _ & _ & Han1 & Hl & Hel).
  destruct (settled_cement u1 conf1 Hu1) as (u2 & H2 & _ & Hp2 & _ & _ & Han2).
  exists u1, u2, l. rewrite <- !announced_notified by done. split_and!; [done | done | by rewrite Han2, Han1 | | done |].
  - by eapply announces_NoDup.
  - intros l1 k l2 y Hkl Hd. exact (announces_order constants s _ l l1 k l2 y Hl Hkl Hd).
Qed.
End theorems.
