(* ===== verification/CementRuns.v ===== *)
(** * Ledgers under processing and cementing

    The shape of the block table that cementing relies on is kept by every accepted
    block and by cementing itself, so in every ledger a node reaches by doing both
    the cemented blocks are closed under dependencies. *)

From S2P Require Import Prelude Blocks BlockCodec Common RepWeights EpochsWork Store Ledger Rollback.
From S2P Require Import LedgerApply LedgerInvariant LedgerSteps LedgerTheorems.
From S2P Require Import ConfirmationHeight Chains CementWalk CementInvariant CementTheorems.

Section runs.
Context `{Crypto} (constants : ledger_constants).

(** Blocks can be missing only at cemented heights, chains are no longer than their
    accounts say, and what is cemented is closed under dependencies. *)
Record confirmable (L : ledger) (rank : Z → nat) : Prop := {
  cf_chains : chains constants (lg_store L) (table_height L) rank;
  cf_count : ∀ k i, stored (lg_store L) k → st_accounts (lg_store L) !! chain_of (lg_store L) k = Some i →
    height_of (lg_store L) k <= ai_block_count i;
  cf_heights : ∀ a, table_height L a <= ai_block_count (account_info_or_default L a);
  cf_closed : ∀ k y, depends constants (lg_store L) k y →
    height_of (lg_store L) k <= table_height L (chain_of (lg_store L) k) →
    height_of (lg_store L) y <= table_height L (chain_of (lg_store L) y);
}.

(** No block of the table, nor [b] itself, contains the hash of [b]: what makes the
    dependencies acyclic is that a hash cannot be known before its block. *)
Definition names_hash (b : block) (h : Z) : Prop := previous b = h ∨ source b = h ∨ link b = h.
Definition unforeseen (L : ledger) (b : block) : Prop :=
  ¬ names_hash b (block_hash b) ∧ ∀ k e, st_blocks (lg_store L) !! k = Some e → ¬ names_hash e.1 (block_hash b).

(** ** An accepted block *)

Section step.
Context (L : ledger) (HL : ledger_inv L) (rank : Z → nat) (HF : confirmable L rank).
Context (b : block) (sb : block_sideband) (a : Z) (new : account_info) (eff : effect) (w : rep_weights).
Context (HV : valid_step L b sb a new eff w) (Hun : unforeseen L b).
Context (Hroom : ai_block_count (account_info_or_default L a) + 1 < u64_mod).

Abbreviation s := (lg_store L).
Abbreviation s' := (lg_store (step_block L b sb a new eff w)).
Abbreviation h := (block_hash b).

Lemma step_stored k : stored s' k ↔ k = h ∨ stored s k.
Proof using HV. apply new_blocks_is_Some; [by eapply step_fresh | apply HV]. Qed.

Lemma step_not_stored : ¬ stored s h.
Proof using HV. intros [e He]. pose proof (step_fresh L b sb a new eff w HV). congruence. Qed.

Lemma walk_source_old b0 :
  ¬ names_hash b0 h → walk_source constants s' b0 = walk_source constants s b0.
Proof using HV.
  intros Hn. unfold walk_source. set (t := if source b0 =? 0 then link b0 else source b0).
  assert (Ht : t ≠ h) by (intros He; apply Hn; unfold names_hash, t in *; destruct (source b0 =? 0); auto).
  assert (block_exists s' t = block_exists s t) as ->; [| done].
  unfold block_exists. apply bool_decide_ext. pose proof (step_stored t) as Hs. unfold stored in Hs. rewrite Hs. tauto.
Qed.

Lemma step_old k :
  stored s k →
  chain_of s' k = chain_of s k ∧ height_of s' k = height_of s k ∧ previous_of s' k = previous_of s k ∧
  source_of constants s' k = source_of constants s k ∧ ¬ previous_of s k = h.
Proof using HV Hun.
  intros [e He]. destruct (new_blocks_other _ b sb (step_fresh L b sb a new eff w HV) (vs_prev _ _ _ _ _ _ _ HV) _ _ He)
    as (e' & He' & Hs).
  assert (Hk : st_blocks s' !! k = Some e') by done.
  unfold chain_of, height_of, previous_of, source_of. rewrite Hk, He. simpl.
  rewrite (same_entry_account _ _ Hs), (same_entry_height _ _ Hs), (same_entry_block _ _ Hs).
  pose proof (proj2 Hun k e He) as Hn. split_and!; [done.. | |].
  - by apply walk_source_old.
  - intros Hp. apply Hn. by left.
Qed.

Lemma count_nonneg : 0 <= ai_block_count (account_info_or_default L a).
Proof using HL HF.
  unfold account_info_or_default, account_get. destruct (st_accounts s !! a) as [i |] eqn:Hi; simpl; [| done].
  destruct (ao_entry _ _ _ (inv_accounts L HL a i Hi)) as (e & He & _ & _ & <- & _).
  destruct (ch_key _ _ _ _ (cf_chains _ _ HF) _ _ He) as (_ & _ & ?). lia.
Qed.

Lemma count_new : ai_block_count new = ai_block_count (account_info_or_default L a) + 1.
Proof using HL HF HV Hroom.
  pose proof count_nonneg. rewrite (vs_count _ _ _ _ _ _ _ HV), wrap64_small; [done |]. unfold is_u64. lia.
Qed.

Lemma step_new :
  chain_of s' h = a ∧ height_of s' h = ai_block_count (account_info_or_default L a) + 1 ∧
  previous_of s' h = previous b ∧ source_of constants s' h = walk_source constants s b.
Proof using HV Hun Hroom HL HF.
  assert (Hk : st_blocks s' !! h = Some (b, sideband_stored (block_type_of b) sb))
    by (apply new_blocks_self; [by eapply step_fresh | apply HV]).
  unfold chain_of, height_of, previous_of, source_of. rewrite Hk.
  cbn [from_option mbind option_bind fst snd]. split_and!.
  - apply HV.
  - rewrite (vs_entry_height _ _ _ _ _ _ _ HV). exact count_new.
  - done.
  - by apply walk_source_old, Hun.
Qed.

(** The head of the account is the predecessor of the new block. *)
Lemma step_head i :
  st_accounts s !! a = Some i →
  stored s (previous b) ∧ chain_of s (previous b) = a ∧ height_of s (previous b) = ai_block_count i.
Proof using HV HL.
  intros Hi. rewrite (vs_position _ _ _ _ _ _ _ HV i Hi).
  destruct (ao_entry _ _ _ (inv_accounts L HL a i Hi)) as (e & He & Ha & _ & Hh & _).
  unfold stored, chain_of, height_of. rewrite He. simpl. eauto.
Qed.

Lemma stored_account k : stored s k → is_Some (st_accounts s !! chain_of s k).
Proof using HL. intros [e He]. unfold chain_of. rewrite He. by apply (inv_blocks L HL k e). Qed.

(** Heights of the chain are below that of the new block. *)
Lemma step_below k : stored s k → chain_of s k = a → height_of s k < height_of s' h.
Proof using HV Hun Hroom HL HF.
  intros Hk Hc. destruct step_new as (_ & -> & _). destruct (stored_account k Hk) as [i Hi].
  pose proof (cf_count _ _ HF k i Hk Hi). rewrite Hc in Hi.
  unfold account_info_or_default, account_get. rewrite Hi. simpl. lia.
Qed.

Definition new_rank (k : Z) : nat :=
  if decide (k = h) then S (max_list (rank <$> elements (dom (st_blocks s)))) else rank k.

Lemma new_rank_old k : stored s k → new_rank k = rank k ∧ (rank k < new_rank h)%nat.
Proof using HV.
  intros Hk. unfold new_rank. rewrite (decide_True _ _ (eq_refl h)), decide_False.
  - split; [done |]. apply Nat.lt_succ_r, max_list_elem_of_le, list_elem_of_fmap. exists k. split; [done |].
    by apply elem_of_elements, elem_of_dom.
  - intros ->. by apply step_not_stored.
Qed.

Lemma step_depends k y :
  depends constants s' k y → k = h ∧ stored s y ∨ depends constants s k y.
Proof using HV Hun Hroom HL HF.
  intros (Hk & Hy & Hd). apply step_stored in Hk, Hy. destruct Hk as [-> | Hk].
  - left. split; [done |]. destruct Hy as [-> | Hy]; [| done]. exfalso. destruct Hun as [Hself _].
    destruct step_new as (_ & _ & Hp & Hs). destruct Hd as [[_ Hd] | Hd].
    + apply Hself. left. congruence.
    + rewrite Hs in Hd. by apply step_not_stored, (walk_source_stored constants s b).
  - right. destruct (step_old k Hk) as (_ & Hh & Hp & Hs & Hne). rewrite Hh, Hp, Hs in Hd.
    assert (Hy' : stored s y).
    { destruct Hy as [-> | Hy]; [| done]. exfalso. destruct Hd as [[_ Hd] | Hd]; [by symmetry in Hd |].
      by apply step_not_stored, (stored_source constants s k). }
    done.
Qed.

Lemma step_chains : chains constants s' (table_height (step_block L b sb a new eff w)) new_rank.
Proof using HV Hun Hroom HL HF.
  pose proof (cf_chains _ _ HF) as HC.
  assert (Ht : ∀ a', table_height (step_block L b sb a new eff w) a' = table_height L a') by done.
  destruct step_new as (Hca & Hhe & Hpr & Hsr). pose proof (ch_floor _ _ _ _ HC) as Hfl.
  (* above height one the account exists *)
  assert (Hhead : 1 < height_of s' h → ∃ i, st_accounts s !! a = Some i ∧ height_of s' h = ai_block_count i + 1).
  { rewrite Hhe. unfold account_info_or_default, account_get. destruct (st_accounts s !! a) as [i |]; simpl; [eauto | lia]. }
  split.
  - intros k e Hk. apply new_blocks_inv in Hk as [[-> ->] | (e1 & He1 & Hs)]; [| | by eapply step_fresh | apply HV].
    + split; [apply HV |]. split; [done |]. pose proof count_nonneg.
      assert (Hhs : height_of s' h = sb_height (sideband_stored (block_type_of b) sb)).
      { unfold height_of. simpl st_blocks.
        by rewrite new_blocks_self by (by eapply step_fresh || apply HV). }
      cbn [snd]. rewrite <- Hhs, Hhe. lia.
    + rewrite (same_entry_block _ _ Hs), (same_entry_height _ _ Hs). by apply (ch_key _ _ _ _ HC).
  - apply Hfl.
  - intros k Hk Hh. rewrite Ht in Hh. apply step_stored in Hk as [-> | Hk].
    + rewrite Hca in Hh. specialize (Hfl a). destruct Hhead as (i & Hi & _); [lia |].
      rewrite Hpr. apply step_stored. right. by apply (step_head i).
    + destruct (step_old k Hk) as (Hc & Hhk & Hp & _). rewrite Hc, Hhk in Hh. rewrite Hp.
      apply step_stored. right. by apply (ch_stored _ _ _ _ HC).
  - intros k Hk Hh Hp. apply step_stored in Hk as [-> | Hk].
    + destruct (Hhead Hh) as (i & Hi & Hhi). destruct (step_head i Hi) as (Hps & Hpc & Hph). rewrite Hpr, Hca.
      destruct (step_old _ Hps) as (-> & -> & _). split; [done | lia].
    + destruct (step_old k Hk) as (Hc & Hhk & Hpk & _ & Hne). rewrite Hc, Hhk, Hpk in *.
      apply step_stored in Hp as [Hp | Hp]; [done |]. destruct (step_old _ Hp) as (-> & -> & _).
      by apply (ch_previous _ _ _ _ HC).
  - intros k k' Hk Hk' Hc Hh. apply step_stored in Hk, Hk'.
    destruct Hk as [-> | Hk], Hk' as [-> | Hk']; [done | | |].
    + exfalso. destruct (step_old k' Hk') as (Hc' & Hh' & _). rewrite Hca, Hc' in Hc.
      pose proof (step_below k' Hk' (eq_sym Hc)). lia.
    + exfalso. destruct (step_old k Hk) as (Hc' & Hh' & _). rewrite Hca, Hc' in Hc.
      pose proof (step_below k Hk Hc). lia.
    + destruct (step_old k Hk) as (Hc1 & Hh1 & _). destruct (step_old k' Hk') as (Hc2 & Hh2 & _).
      apply (ch_unique _ _ _ _ HC); congruence.
  - intros k y Hd. destruct (step_depends k y Hd) as [[-> Hy] | Hd'].
    + destruct (new_rank_old y Hy) as [-> ?]. done.
    + destruct (new_rank_old y) as [-> _]; [apply Hd' |]. destruct (new_rank_old k) as [-> _]; [apply Hd' |].
      by apply (ch_rank _ _ _ _ HC).
Qed.

Lemma step_confirmable : confirmable (step_block L b sb a new eff w) new_rank.
Proof using HV Hun Hroom HL HF.
  destruct step_new as (Hca & Hhe & _). split; [exact step_chains | | |].
  - intros k i Hk Hi. apply step_stored in Hk as [-> | Hk].
    + rewrite Hca in Hi. simpl in Hi. rewrite lookup_insert_eq in Hi. injection Hi as <-.
      rewrite count_new, Hhe. done.
    + destruct (step_old k Hk) as (Hc & Hh & _). rewrite Hc in Hi. rewrite Hh. simpl in Hi.
      apply lookup_insert_Some in Hi as [[Hak <-] | [_ Hi]]; [| by apply (cf_count _ _ HF)].
      pose proof (step_below k Hk (eq_sym Hak)). rewrite Hhe in *. rewrite count_new. lia.
  - intros a'. change (table_height L a' <= ai_block_count (account_info_or_default (step_block L b sb a new eff w) a')).
    pose proof (cf_heights _ _ HF a') as Hh. destruct (decide (a' = a)) as [-> | Hne].
    + assert (account_info_or_default (step_block L b sb a new eff w) a = new) as ->; [| rewrite count_new; lia].
      unfold account_info_or_default, account_get. simpl. by rewrite lookup_insert_eq.
    + assert (account_info_or_default (step_block L b sb a new eff w) a' = account_info_or_default L a') as ->; [| done].
      unfold account_info_or_default, account_get. simpl. by rewrite lookup_insert_ne.
  - intros k y Hd. change (height_of s' k <= table_height L (chain_of s' k) → height_of s' y <= table_height L (chain_of s' y)).
    destruct (step_depends k y Hd) as [[-> Hy] | Hd'].
    + rewrite Hca, Hhe. pose proof (cf_heights _ _ HF a). lia.
    + destruct (step_old k) as (-> & -> & _); [apply Hd' |]. destruct (step_old y) as (-> & -> & _); [apply Hd' |].
      by apply (cf_closed _ _ HF).
Qed.
End step.

(** ** Cementing *)

Lemma chains_blocks st st' floor rank :
  st_blocks st = st_blocks st' → chains constants st floor rank → chains constants st' floor rank.
Proof. destruct st, st'. simpl. intros ->. intros []. by split. Qed.

Lemma chains_floor st floor floor' rank :
  (∀ a, floor a <= floor' a) → chains constants st floor rank → chains constants st floor' rank.
Proof.
  intros Hf [Hk H0 Hs Hp Hu Hr]. split; try done.
  - intros a. specialize (Hf a). specialize (H0 a). lia.
  - intros k Hst Hh. apply Hs; [done |]. specialize (Hf (chain_of st k)). lia.
Qed.

Lemma settled_new L rank :
  confirmable L rank → settled constants (lg_store L) (table_height L) (unbounded_new L) (table_height L).
Proof. intros [HC _ _ Hcl]. by split. Qed.

(** A ledger with more cemented blocks, closed under dependencies. *)
Lemma cemented_confirmable L rank L' :
  ledger_inv L → confirmable L rank → cemented_ledger (lg_store L) L L' →
  (∀ a, table_height L a <= table_height L' a) →
  (∀ k y, depends constants (lg_store L) k y →
    height_of (lg_store L) k <= table_height L' (chain_of (lg_store L) k) →
    height_of (lg_store L) y <= table_height L' (chain_of (lg_store L) y)) →
  confirmable L' rank.
Proof.
  intros HL HF Hc Hmono Hcl.
  assert (Hb : st_blocks (lg_store L) = st_blocks (lg_store L')) by (symmetry; apply Hc).
  assert (Ha : st_accounts (lg_store L) = st_accounts (lg_store L')) by (symmetry; apply Hc).
  split.
  - apply (chains_blocks (lg_store L)); [done |]. by eapply chains_floor, HF.
  - intros k i. rewrite <- Ha. unfold stored, chain_of, height_of. rewrite <- Hb. apply (cf_count _ _ HF).
  - intros a. destruct (cl_frontier _ _ _ Hc a) as [He | (Hs & Hch & Hh)].
    + unfold table_height, account_info_or_default, account_get. rewrite He, <- Ha. apply (cf_heights _ _ HF).
    + rewrite <- Hh. destruct Hs as [e He]. pose proof (inv_blocks L HL _ _ He) as (_ & _ & [i Hi]).
      assert (Hci : st_accounts (lg_store L) !! a = Some i).
      { rewrite <- Hch. unfold chain_of. by rewrite He. }
      unfold account_info_or_default, account_get. rewrite <- Ha, Hci. simpl.
      apply (cf_count _ _ HF); [by exists e |]. by rewrite Hch.
  - intros k y Hd. unfold height_of, chain_of. rewrite <- Hb. apply Hcl.
    revert Hd. unfold depends, stored, height_of, previous_of, source_of, walk_source, block_exists. by rewrite <- Hb.
Qed.

Lemma settled_confirmable L rank u conf :
  ledger_inv L → confirmable L rank →
  settled constants (lg_store L) (table_height L) u conf → ub_pending_writes u = [] →
  cemented_ledger (lg_store L) L (ub_ledger u) → confirmable (ub_ledger u) rank.
Proof.
  intros HL HF Hu Hp Hc.
  assert (Ht : ∀ a, table_height (ub_ledger u) a = conf a) by (pose proof (se_writes _ _ _ _ _ Hu) as Hw; by rewrite Hp in Hw).
  apply (cemented_confirmable L); [done.. | |].
  - intros a. rewrite Ht. apply (se_floor _ _ _ _ _ Hu).
  - intros k y. rewrite !Ht. apply (se_closed _ _ _ _ _ Hu).
Qed.

(** ** Runs *)

(** A node processes a block, or cements a stored one. *)
Inductive node_step (L L' : ledger) : Prop :=
| node_process b v t1 t2 r :
    block_wf b → block_hash b ≠ 0 → unforeseen L b →
    (∀ a, ai_block_count (account_info_or_default L a) + 1 < u64_mod) →
    process constants L b v t1 t2 = Ok (r, L') → node_step L L'
| node_cement k e fuel bws rounds u1 u2 :
    st_blocks (lg_store L) !! k = Some e → never_stopped rounds →
    (3 * size (st_blocks (lg_store L)) < fuel)%nat →
    unbounded_process constants fuel bws rounds e (unbounded_new L) = Done u1 →
    cement_blocks u1 = Ok u2 → L' = ub_ledger u2 → node_step L L'.

Inductive node_reachable : ledger → Prop :=
| node_init t1 t2 L :
    genesis_ok constants → ¬ names_hash (lk_genesis constants) (block_hash (lk_genesis constants)) →
    initialize constants t1 t2 = Ok L → node_reachable L
| node_next L L' : node_reachable L → node_step L L' → node_reachable L'.

Lemma cement_confirmable L rank k e fuel bws rounds u1 u2 :
  ledger_inv L → confirmable L rank → st_blocks (lg_store L) !! k = Some e → never_stopped rounds →
  (3 * size (st_blocks (lg_store L)) < fuel)%nat →
  unbounded_process constants fuel bws rounds e (unbounded_new L) = Done u1 → cement_blocks u1 = Ok u2 →
  ledger_inv (ub_ledger u2) ∧ confirmable (ub_ledger u2) rank.
Proof.
  intros HL HF He Hst Hfuel H1 H2. pose proof (settled_new L rank HF) as Hu. pose proof (cf_chains _ _ HF) as HC.
  destruct (process_cements constants _ _ _ HC _ _ k e bws rounds fuel Hu He Hst Hfuel)
    as (u1' & conf1 & l & H1' & Hu1 & HL1 & _). rewrite H1 in H1'. injection H1' as <-.
  destruct (settled_cement constants _ _ _ HC u1 conf1 Hu1) as (u2' & H2' & Hu2 & Hp2 & _ & HL2 & _).
  rewrite H2 in H2'. injection H2' as <-.
  assert (Hc : cemented_ledger (lg_store L) L (ub_ledger u2)) by (by eapply cemented_ledger_trans).
  split; [by apply (cl_inv _ _ _ Hc) |]. by eapply settled_confirmable.
Qed.

Lemma init_confirmable t1 t2 L :
  genesis_ok constants → ¬ names_hash (lk_genesis constants) (block_hash (lk_genesis constants)) →
  initialize constants t1 t2 = Ok L → confirmable L (λ _, 0%nat).
Proof.
  intros [Hg Hnz] Hn. unfold initialize, genesis_sideband.
  destruct (lk_genesis constants) as [| | h s w | |] eqn:Eg; try done. set (b := open_block h s w) in *.
  unfold block_put. cbn [has_predecessor b mbind outcome_bind account]. intros [= <-].
  set (L := Ledger _ _ _). set (k0 := block_hash b) in *.
  assert (Hb : st_blocks (lg_store L) = {[k0 := (b, sideband_stored bt_open (genesis_sideband constants t1))]}).
  { unfold L, genesis_sideband. rewrite Eg. simpl. apply insert_empty. }
  assert (Hst : ∀ k, stored (lg_store L) k → k = k0).
  { intros k [e He]. rewrite Hb in He. by apply lookup_singleton_Some in He as [<- _]. }
  assert (Hk0 : chain_of (lg_store L) k0 = open_account h ∧ height_of (lg_store L) k0 = 1).
  { unfold chain_of, height_of. rewrite Hb, lookup_singleton_eq. simpl. unfold account_calculated. simpl.
    by rewrite (proj2 (Z.eqb_neq _ _)) by done. }
  destruct Hk0 as [Hc Hh].
  assert (Hdep : ∀ k y, ¬ depends constants (lg_store L) k y).
  { intros k y (Hk%Hst & Hy%Hst & Hd). subst. rewrite Hh in Hd. destruct Hd as [[? _] | Hd]; [lia |].
    unfold source_of, walk_source in Hd. rewrite Hb, lookup_singleton_eq in Hd. simpl in Hd.
    destruct (negb _ && negb _ && _); [| done]. injection Hd as Hd. apply Hn. unfold names_hash. simpl.
    destruct (open_source h =? 0); auto. }
  assert (Ht : ∀ a, table_height L a = if decide (a = open_account h) then 1 else 0).
  { intros a. unfold table_height, confirmation_height_get, L. simpl.
    rewrite lookup_insert. by repeat case_decide; subst. }
  split.
  - split.
    + intros k e He. rewrite Hb in He. apply lookup_singleton_Some in He as [<- <-]. simpl. unfold u64_mod. done.
    + intros a. rewrite Ht. case_decide; lia.
    + intros k Hk%Hst. subst. rewrite Hc, Hh, Ht, decide_True by done. lia.
    + intros k Hk%Hst. subst. rewrite Hh. lia.
    + intros k k' Hk%Hst Hk'%Hst _ _. congruence.
    + intros k y Hd. by apply Hdep in Hd.
  - intros k i Hk%Hst. subst. rewrite Hc, Hh. simpl. rewrite lookup_insert_eq. by intros [= <-].
  - intros a. rewrite Ht. unfold account_info_or_default, account_get. simpl.
    case_decide as Ha; [subst; by rewrite lookup_insert_eq |]. by rewrite lookup_insert_ne.
  - intros k y Hd. by apply Hdep in Hd.
Qed.

Lemma node_reachable_inv L : node_reachable L → ledger_inv L ∧ ∃ rank, confirmable L rank.
Proof.
  induction 1 as [t1 t2 L Hg Hn Hi | L L' _ [HL [rank HF]] Hs].
  - split; [| eexists; by eapply init_confirmable].
    destruct (initialize_ok constants t1 t2 Hg) as (L0 & Hi' & Hinv). rewrite Hi in Hi'. by injection Hi' as <-.
  - destruct Hs as [b v t1 t2 r Hwf Hnz Hun Hroom Hp | k e fuel bws rounds u1 u2 He Hst Hfuel H1 H2 ->].
    + destruct (process_step constants L HL b v t1 t2 Hwf Hnz)
        as [(r' & Hr & _) | (a & sb & new & eff & w & v' & Hacc & Hr)]; rewrite Hp in Hr; simplify_eq; [by eauto |].
      pose proof (ac_step _ _ _ _ _ _ _ _ _ Hacc) as HV. split; [by apply step_block_inv |].
      eexists. by eapply step_confirmable.
    + destruct (cement_confirmable L rank k e fuel bws rounds u1 u2) as [? ?]; eauto.
Qed.

(** Every ledger reached by processing blocks and cementing stored ones, in any
    order, satisfies the ledger invariant and has a cemented set closed under
    dependencies, and cementing any stored block of it ends and cements exactly its
    dependencies. *)
Theorem node_ledgers_cement L :
  node_reachable L →
  ledger_inv L ∧
  (∀ k y, depends constants (lg_store L) k y →
    height_of (lg_store L) k <= table_height L (chain_of (lg_store L) k) →
    height_of (lg_store L) y <= table_height L (chain_of (lg_store L) y)) ∧
  ∀ k e fuel bws rounds, st_blocks (lg_store L) !! k = Some e → never_stopped rounds →
    (3 * size (st_blocks (lg_store L)) < fuel)%nat →
    ∃ u1 u2, unbounded_process constants fuel bws rounds e (unbounded_new L) = Done u1 ∧
      cement_blocks u1 = Ok u2 ∧ node_reachable (ub_ledger u2) ∧
      ∀ j, stored (lg_store L) j →
        height_of (lg_store L) j <= table_height (ub_ledger u2) (chain_of (lg_store L) j) ↔
        height_of (lg_store L) j <= table_height L (chain_of (lg_store L) j) ∨
        rtc (depends constants (lg_store L)) k j.
Proof.
  intros HR. destruct (node_reachable_inv L HR) as (HL & rank & HF). pose proof (cf_chains _ _ HF) as HC.
  split_and!; [done | apply (cf_closed _ _ HF) |]. intros k e fuel bws rounds He Hst Hfuel.
  destruct (process_cements constants _ _ _ HC _ _ k e bws rounds fuel (settled_new L rank HF) He Hst Hfuel)
    as (u1 & conf1 & l & H1 & Hu1 & _ & Hc1 & _).
  destruct (settled_cement constants _ _ _ HC u1 conf1 Hu1) as (u2 & H2 & _ & _ & Ht & _).
  exists u1, u2. split_and!; [done | done | | by intros j Hj; rewrite Ht; apply Hc1].
  apply (node_next L); [done |]. by eapply node_cement.
Qed.
End runs.
