(* ===== verification/ConfirmationBounded.v ===== *)
(** * The bounded confirmation height processor
      ([node/confirmation_height_bounded.cpp])

    It cements the same blocks as the unbounded processor but goes up a chain
    from its cemented frontier, one receive at a time, so that what it keeps in
    memory is bounded: the stack of receives and the checkpoints are circular
    buffers of [max_items] entries that lose their oldest when full, and writes
    are forced when as many are pending.

    A buffer has its back at the head of the list.  What a round sees of the
    world is a [round_env] as for the unbounded processor, and the time each
    batch of writes took.  A null pointer dereferenced and a failed
    [release_assert] are [Aborted]; an error while cementing ends at one.  The
    counts of blocks of one write, [int] in the source, are not wrapped.  Between
    two rounds of [process] the tables change only by the processor's own
    writes. *)

From S2P Require Import Prelude Blocks BlockCodec Common RepWeights EpochsWork Store Ledger Rollback.
From S2P Require Import ConfirmationHeight.

(** ** Data *)

(** [top_and_next_hash]. *)
Record top_and_next_hash := TopAndNextHash {
  tn_top : Z;
  tn_next : option Z;
  tn_next_height : Z;
}.

(** [confirmed_info]. *)
Record confirmed_info := ConfirmedInfo {
  cn_confirmed_height : Z;
  cn_iterated_frontier : Z;
}.

(** [write_details]. *)
Record write_details := WriteDetails {
  wd_account : Z;
  wd_bottom_height : Z;
  wd_bottom_hash : Z;
  wd_top_height : Z;
  wd_top_hash : Z;
}.

(** [receive_chain_details]. *)
Record receive_chain_details := ReceiveChainDetails {
  rc_account : Z;
  rc_height : Z;
  rc_hash : Z;
  rc_top_level : Z;
  rc_next : option Z;
  rc_bottom_height : Z;
  rc_bottom_most : Z;
}.

(** [confirmation_height_bounded::receive_source_pair]. *)
Abbreviation bounded_pair := (receive_chain_details * Z)%type.

(** The members of the processor, the ledger it works on, the batch size it shares
    with its owner and what the observers were told. *)
Record bounded := Bounded {
  bd_ledger : ledger;
  bd_pending_writes : list write_details;
  bd_accounts_confirmed_info : gmap Z confirmed_info;
  bd_batch_write_size : Z;
  bd_events : list cement_event;
}.

(** [batch_write_size] starts at this value, which is also its minimum. *)
Definition minimum_batch_write_size : Z := 16384.

Definition bounded_new (L : ledger) : bounded := Bounded L [] ∅ minimum_batch_write_size [].

Definition bd_set_writes f (u : bounded) : bounded :=
  Bounded (bd_ledger u) (f (bd_pending_writes u)) (bd_accounts_confirmed_info u) (bd_batch_write_size u) (bd_events u).
Definition bd_set_info f (u : bounded) : bounded :=
  Bounded (bd_ledger u) (bd_pending_writes u) (f (bd_accounts_confirmed_info u)) (bd_batch_write_size u) (bd_events u).
Definition bd_notify (e : cement_event) (u : bounded) : bounded :=
  Bounded (bd_ledger u) (bd_pending_writes u) (bd_accounts_confirmed_info u) (bd_batch_write_size u)
    (bd_events u ++ [e]).

(** [pending_empty]. *)
Definition bounded_pending_empty (u : bounded) : bool := bool_decide (bd_pending_writes u = []).

(** [clear_process_vars]. *)
Definition bounded_clear_process_vars (u : bounded) : bounded := bd_set_info (λ _, ∅) u.

(** [circular_buffer::push_back]: a full buffer loses its front. *)
Definition push_back {A} (capacity : nat) (x : A) (l : list A) : list A := take capacity (x :: l).

(** ** Cementing *)

(** What [cement_blocks] changes: the tables, the blocks of the batch, the shared
    batch size, the number of batches timed so far and whether the write guard is held. *)
Record cement_state := CementState {
  cs_ledger : ledger;
  cs_cemented_blocks : list block_w_sideband;
  cs_events : list cement_event;
  cs_batch_write_size : Z;
  cs_batches : nat;
  cs_owned : bool;
}.

(** [write_confirmation_height]. *)
Definition write_confirmation_height (account_a num_blocks_cemented confirmation_height confirmed_frontier : Z)
    (L : ledger) : ledger :=
  with_store (confirmation_height_put (lg_store L) account_a
      (ConfirmationHeightInfo confirmation_height confirmed_frontier))
    (set_cemented_count (λ n, wrap64 (n + num_blocks_cemented)) L).

(** Milliseconds. *)
Definition maximum_batch_write_time : Z := 250.
Definition maximum_batch_write_time_increase_cutoff : Z := maximum_batch_write_time - maximum_batch_write_time / 5.

(** The batch size after a batch that took [time_spent_cementing]. *)
Definition reduce_batch (time_spent_cementing amount_to_change batch_write_size : Z) : Z :=
  if maximum_batch_write_time <? time_spent_cementing
  then Z.max minimum_batch_write_size (wrap64 (batch_write_size - amount_to_change)) else batch_write_size.
Definition adapt_batch (time_spent_cementing amount_to_change batch_write_size : Z) : Z :=
  if maximum_batch_write_time <? time_spent_cementing
  then reduce_batch time_spent_cementing amount_to_change batch_write_size
  else if time_spent_cementing <? maximum_batch_write_time_increase_cutoff
  then wrap64 (batch_write_size + amount_to_change) else batch_write_size.

(** The batch is full: write, tell the observers and start the next.  The guard is
    taken again if there are blocks left. *)
Definition flush_batch (times : nat → Z) (amount_to_change account_a num_blocks_cemented height
    new_cemented_frontier : Z) (blocks_left : bool) (c : cement_state) : cement_state :=
  CementState
    (write_confirmation_height account_a num_blocks_cemented height new_cemented_frontier (cs_ledger c)) []
    (cs_events c ++ [ev_cemented (map Some (cs_cemented_blocks c))])
    (adapt_batch (times (cs_batches c)) amount_to_change (cs_batch_write_size c))
    (S (cs_batches c)) blocks_left.

Definition batch_full (c : cement_state) : bool :=
  wrap64 (cs_batch_write_size c + cs_batch_write_size c / 10) <? Z.of_nat (length (cs_cemented_blocks c)).

Definition add_cemented (b : block_w_sideband) (c : cement_state) : cement_state :=
  CementState (cs_ledger c) (cs_cemented_blocks c ++ [b]) (cs_events c) (cs_batch_write_size c) (cs_batches c)
    (cs_owned c).

(** The loop up the chain of one pending write, with [remaining] blocks to go: the
    blocks already written and the last block reached. *)
Fixpoint cement_chain (times : nat → Z) (amount_to_change account_a start_height : Z) (only_pending : bool)
    (remaining : nat) (num_blocks_iterated total_blocks_cemented new_cemented_frontier : Z)
    (b : option block_w_sideband) (c : cement_state) : outcome (Z * Z * cement_state) :=
  match remaining with
  | O => Ok (total_blocks_cemented, new_cemented_frontier, c)
  | S rest =>
      b ← of_option b;
      let last_iteration := bool_decide (rest = O) in
      let c := add_cemented b c in
      let '(total_blocks_cemented, c) :=
        if batch_full c then
          let num_blocks_cemented := num_blocks_iterated - total_blocks_cemented + 1 in
          let total_blocks_cemented := total_blocks_cemented + num_blocks_cemented in
          (total_blocks_cemented,
           flush_batch times amount_to_change account_a num_blocks_cemented
             (wrap64 (start_height + total_blocks_cemented - 1)) new_cemented_frontier
             (negb (last_iteration && only_pending)) c)
        else (total_blocks_cemented, c) in
      if last_iteration then Ok (total_blocks_cemented, new_cemented_frontier, c)
      else
        let new_cemented_frontier := sb_successor b.2 in
        cement_chain times amount_to_change account_a start_height only_pending rest (num_blocks_iterated + 1)
          total_blocks_cemented new_cemented_frontier
          (block_get (lg_store (cs_ledger c)) new_cemented_frontier) c
  end.

Definition cs_map_ledger (f : ledger → ledger) (c : cement_state) : cement_state :=
  CementState (f (cs_ledger c)) (cs_cemented_blocks c) (cs_events c) (cs_batch_write_size c) (cs_batches c) (cs_owned c).

(** One pending write; [only_pending] when it is the last. *)
Definition cement_pending (times : nat → Z) (amount_to_change : Z) (pending : write_details)
    (only_pending : bool) (c : cement_state) : outcome cement_state :=
  let account_a := wd_account pending in
  let s := lg_store (cs_ledger c) in
  let info := confirmation_height_get s account_a in
  if ch_height info <? wd_top_height pending then
    '(new_cemented_frontier, num_blocks_confirmed, start_height) ←
      (if ch_height info <? wd_bottom_height pending then
         Ok (wd_bottom_hash pending, wrap64 (wd_top_height pending - wd_bottom_height pending + 1),
             wd_bottom_height pending)
       else
         b ← of_option (block_get s (ch_frontier info));
         Ok (sb_successor b.2, wd_top_height pending - ch_height info, wrap64 (ch_height info + 1)));
    '(total_blocks_cemented, new_cemented_frontier, c) ←
      cement_chain times amount_to_change account_a start_height only_pending (Z.to_nat num_blocks_confirmed)
        0 0 new_cemented_frontier (block_get s new_cemented_frontier) c;
    let num_blocks_cemented := wrap64 (num_blocks_confirmed - total_blocks_cemented) in
    Ok (if 0 <? num_blocks_cemented
        then cs_map_ledger (write_confirmation_height account_a num_blocks_cemented (wd_top_height pending)
               new_cemented_frontier) c
        else c)
  else Ok c.

(** The account leaves the memory once its last known height is written. *)
Definition forget_account (pending : write_details) (m : gmap Z confirmed_info) : gmap Z confirmed_info :=
  match m !! wd_account pending with
  | Some i => if cn_confirmed_height i =? wd_top_height pending then delete (wd_account pending) m else m
  | None => m
  end.

Fixpoint cement_all (times : nat → Z) (amount_to_change : Z) (pending_writes : list write_details)
    (m : gmap Z confirmed_info) (c : cement_state) : outcome (gmap Z confirmed_info * cement_state) :=
  match pending_writes with
  | [] => Ok (m, c)
  | pending :: rest =>
      c ← cement_pending times amount_to_change pending (bool_decide (rest = [])) c;
      cement_all times amount_to_change rest (forget_account pending m) c
  end.

(** [cement_blocks]. *)
Definition bounded_cement_blocks (times : nat → Z) (u : bounded) : outcome bounded :=
  let amount_to_change := bd_batch_write_size u / 10 in
  '(m, c) ← cement_all times amount_to_change (bd_pending_writes u) (bd_accounts_confirmed_info u)
    (CementState (bd_ledger u) [] (bd_events u) (bd_batch_write_size u) O true);
  let events := if cs_owned c && negb (bool_decide (cs_cemented_blocks c = []))
                then cs_events c ++ [ev_cemented (map Some (cs_cemented_blocks c))] else cs_events c in
  Ok (Bounded (cs_ledger c) [] m (reduce_batch (times (cs_batches c)) amount_to_change (cs_batch_write_size c))
    events).

(** ** Iterating over a chain *)

Section processor.
Context `{Crypto} (constants : ledger_constants) (max_items : nat).

(** [get_next_block]: where the walk goes on, and the receive that waits for it. *)
Definition get_next_block (next_in_receive_chain : option top_and_next_hash) (checkpoints : list Z)
    (receive_source_pairs : list bounded_pair) (original_hash : Z) :
    top_and_next_hash * option receive_chain_details :=
  match next_in_receive_chain with
  | Some next => (next, None)
  | None =>
      match receive_source_pairs with
      | (d, source_hash) :: _ => (TopAndNextHash source_hash (rc_next d) (wrap64 (rc_height d + 1)), Some d)
      | [] =>
          match checkpoints with
          | k :: _ => (TopAndNextHash k None 0, None)
          | [] => (TopAndNextHash original_hash None 0, None)
          end
      end
  end.

(** [get_least_unconfirmed_hash_from_top_level]: the hash and its height. *)
Definition get_least_unconfirmed_hash_from_top_level (s : store) (hash_a account_a : Z)
    (info : confirmation_height_info) (block_height : Z) : outcome (Z * Z) :=
  if negb (ch_height info =? 0) then
    if ch_height info <? block_height then
      b ← of_option (block_get s (ch_frontier info));
      Ok (sb_successor b.2, wrap64 (sb_height b.2 + 1))
    else Ok (hash_a, block_height)
  else
    i ← of_option (account_get s account_a);
    Ok (ai_open_block i, 1).

(** What [iterate] changes: the buffers, the topmost block that is no receive, and
    whether a receive was hit. *)
Record iterate_state := IterateState {
  it_checkpoints : list Z;
  it_receive_source_pairs : list bounded_pair;
  it_top_most_non_receive_block_hash : Z;
  it_hit_receive : bool;
}.

(** [iterate]: up from [hash] to the first receive or the top level. *)
Fixpoint iterate (fuel : nat) (stopped : bool) (s : store) (bottom_height bottom_hash top_level_hash account_a : Z)
    (hash : Z) (st : iterate_state) : run_result iterate_state :=
  if (hash =? 0) || stopped then Done st else
  match fuel with
  | O => OutOfFuel
  | S fuel =>
      b ← lift (of_option (block_get s hash));
      match walk_source constants s b.1 with
      | Some source_a =>
          let successor := sb_successor b.2 in
          let next := if negb (successor =? 0) && negb (successor =? top_level_hash) then Some successor else None in
          let pairs := push_back max_items
            (ReceiveChainDetails account_a (sb_height b.2) hash top_level_hash next bottom_height bottom_hash, source_a)
            (it_receive_source_pairs st) in
          let checkpoints := if (length pairs mod max_items =? 0)%nat
            then push_back max_items top_level_hash (it_checkpoints st) else it_checkpoints st in
          Done (IterateState checkpoints pairs (it_top_most_non_receive_block_hash st) true)
      | None =>
          let st := IterateState (it_checkpoints st) (it_receive_source_pairs st) hash (it_hit_receive st) in
          if hash =? top_level_hash then Done st
          else iterate fuel stopped s bottom_height bottom_hash top_level_hash account_a (sb_successor b.2) st
      end
  end.

(** ** Preparing the writes *)

Definition erase_checkpoint (hash : Z) (checkpoints : list Z) : list Z := filter (.≠ hash) checkpoints.

(** The blocks without receives, up to [top_most]. *)
Definition prepare_chain (top_most confirmation_height account_a bottom_height bottom_most : Z)
    (checkpoints : list Z) (u : bounded) : outcome (list Z * bounded) :=
  block_height ← account_height (lg_store (bd_ledger u)) top_most;
  Ok (if confirmation_height <? block_height then
        (erase_checkpoint top_most checkpoints,
         bd_set_writes (λ w, w ++ [WriteDetails account_a bottom_height bottom_most block_height top_most])
           (bd_set_info <[account_a := ConfirmedInfo block_height top_most]> u))
      else (checkpoints, u)).

(** The receive that waited, and the place to go on above it. *)
Definition prepare_pair (d : receive_chain_details) (checkpoints : list Z) (u : bounded) :
    option top_and_next_hash * list Z * bounded :=
  let u := bd_set_writes (λ w, w ++
      [WriteDetails (rc_account d) (rc_bottom_height d) (rc_bottom_most d) (rc_height d) (rc_hash d)])
    (bd_set_info <[rc_account d := ConfirmedInfo (rc_height d) (rc_hash d)]> u) in
  match rc_next d with
  | Some next => (Some (TopAndNextHash (rc_top_level d) (Some next) (wrap64 (rc_height d + 1))), checkpoints, u)
  | None => (None, erase_checkpoint (rc_hash d) checkpoints, u)
  end.

(** [prepare_iterated_blocks_for_cementing]. *)
Definition bounded_prepare (top_most : Z) (already_cemented : bool) (confirmation_height account_a bottom_height
    bottom_most : Z) (receive_details : option receive_chain_details) (checkpoints : list Z) (u : bounded) :
    outcome (option top_and_next_hash * list Z * bounded) :=
  '(checkpoints, u) ←
    (if already_cemented then Ok (checkpoints, u)
     else prepare_chain top_most confirmation_height account_a bottom_height bottom_most checkpoints u);
  Ok (match receive_details with
      | Some d => prepare_pair d checkpoints u
      | None => (None, checkpoints, u)
      end).

(** ** Processing a block *)

(** What a round sees of the world, and the time of each batch it writes. *)
Record bounded_env := BoundedEnv {
  be_round : round_env;
  be_times : nat → Z;
}.

(** The local variables of [process]. *)
Record bounded_vars := BoundedVars {
  bv_proc : bounded;
  bv_next_in_receive_chain : option top_and_next_hash;
  bv_checkpoints : list Z;
  bv_receive_source_pairs : list bounded_pair;
  bv_current : Z;
  bv_first_iter : bool;
}.

(** The height and the frontier known of an account. *)
Definition known_info (u : bounded) (account_a : Z) : confirmation_height_info :=
  match bd_accounts_confirmed_info u !! account_a with
  | Some i => ConfirmationHeightInfo (cn_confirmed_height i) (cn_iterated_frontier i)
  | None => confirmation_height_get (lg_store (bd_ledger u)) account_a
  end.

(** The lowest uncemented block of the chain below the one to process. *)
Definition chain_bottom (s : store) (next_in_receive_chain : option top_and_next_hash) (hash_to_process : top_and_next_hash)
    (b : block_w_sideband) (account_a : Z) (info : confirmation_height_info) : outcome (Z * Z) :=
  let current := tn_top hash_to_process in
  let block_height := sb_height b.2 in
  if (ch_height info <? block_height) && (1 <? block_height - ch_height info) then
    if block_height - ch_height info =? 2 then Ok (previous b.1, block_height - 1)
    else match next_in_receive_chain with
         | None => get_least_unconfirmed_hash_from_top_level s current account_a info block_height
         | Some _ => next ← of_option (tn_next hash_to_process); Ok (next, tn_next_height hash_to_process)
         end
  else Ok (current, block_height).

(** The write at the end of a round. *)
Definition bounded_maybe_cement (r : bounded_env) (finished_iterating : bool) (u : bounded) : outcome bounded :=
  let total := fold_left (λ total d, wrap64 (total + wrap64 (wd_top_height d - wd_bottom_height d + 1)))
    (bd_pending_writes u) 0 in
  let max_batch_write_size_reached := bd_batch_write_size u <=? total in
  let should_output := finished_iterating && (re_no_pending (be_round r) || re_min_time_exceeded (be_round r)) in
  let force_write := (max_items <=? length (bd_pending_writes u))%nat ||
                     (max_items <=? size (bd_accounts_confirmed_info u))%nat in
  if (max_batch_write_size_reached || should_output || force_write) && negb (bounded_pending_empty u) then
    if re_write_queue_free (be_round r) || force_write then bounded_cement_blocks (be_times r) u else Ok u
  else Ok u.

(** One round; the flag tells whether the loop goes on. *)
Definition bounded_round (fuel : nat) (r : bounded_env) (original_block : block_w_sideband) (v : bounded_vars) :
    run_result (bounded_vars * bool) :=
  let original_hash := block_hash original_block.1 in
  let u := bv_proc v in
  let s := lg_store (bd_ledger u) in
  let continue pairs current :=
    (negb (bool_decide (pairs = [])) || negb (current =? original_hash)) && negb (re_stopped_at_end (be_round r)) in
  let '(hash_to_process, receive_details) :=
    get_next_block (bv_next_in_receive_chain v) (bv_checkpoints v) (bv_receive_source_pairs v) original_hash in
  let top_level_hash := tn_top hash_to_process in
  match (if bv_first_iter v then Some original_block else block_get s top_level_hash) with
  | None =>
      if lg_pruning (bd_ledger u) && pruned_exists s top_level_hash then
        let pairs := tail (bv_receive_source_pairs v) in
        Done (BoundedVars u (bv_next_in_receive_chain v) (bv_checkpoints v) pairs top_level_hash (bv_first_iter v),
              continue pairs top_level_hash)
      else Crashed
  | Some b =>
      let account_a := account_calculated b in
      let info := known_info u account_a in
      let u := if bool_decide (bd_accounts_confirmed_info u !! account_a = None) && bv_first_iter v &&
                    (sb_height b.2 <=? ch_height info)
               then bd_notify (ev_already_cemented original_hash) u else u in
      let already_cemented := sb_height b.2 <=? ch_height info in
      '(current, block_height) ←
        lift (chain_bottom s (bv_next_in_receive_chain v) hash_to_process b account_a info);
      let st := IterateState (bv_checkpoints v) (bv_receive_source_pairs v) current false in
      st ← (if already_cemented then Done st
            else iterate fuel (re_stopped (be_round r)) s block_height current top_level_hash account_a current st);
      let pairs := it_receive_source_pairs st in
      let top_most := it_top_most_non_receive_block_hash st in
      if re_stopped (be_round r)
      then Done (BoundedVars u (bv_next_in_receive_chain v) (it_checkpoints st) pairs current (bv_first_iter v), false)
      else
        '(next, checkpoints, pairs, u) ← lift
          (if negb (it_hit_receive st) || bool_decide (length pairs = 1%nat) && negb (top_most =? current) then
             '(next, checkpoints, u) ← bounded_prepare top_most already_cemented (ch_height info) account_a
               block_height current receive_details (it_checkpoints st) u;
             let pairs := match bv_next_in_receive_chain v with Some _ => pairs | None => tail pairs end in
             u ← bounded_maybe_cement r (current =? original_hash) u;
             Ok (next, checkpoints, pairs, u)
           else Ok (None, it_checkpoints st, pairs, u));
        Done (BoundedVars u next checkpoints pairs current false, continue pairs current)
  end.

Fixpoint bounded_loop (fuel walk_fuel : nat) (rounds : nat → bounded_env) (original_block : block_w_sideband)
    (v : bounded_vars) : run_result bounded_vars :=
  match fuel with
  | O => OutOfFuel
  | S fuel =>
      '(v, continue) ← bounded_round walk_fuel (rounds fuel) original_block v;
      if (continue : bool) then bounded_loop fuel walk_fuel rounds original_block v else Done v
  end.

(** [process]. *)
Definition bounded_process (fuel walk_fuel : nat) (rounds : nat → bounded_env) (original_block : block_w_sideband)
    (u : bounded) : run_result bounded :=
  let u := if bounded_pending_empty u then bounded_clear_process_vars u else u in
  v ← bounded_loop fuel walk_fuel rounds original_block
        (BoundedVars u None [] [] (block_hash original_block.1) true);
  Done (bv_proc v).
End processor.

(** [max_items] of the source. *)
Definition bounded_max_items : nat := N.to_nat 131072.
