(* ===== verification/BoundedWrites.v ===== *)
(** * The writes of the bounded processor

    Cementing the pending writes of the bounded processor: the walk up a chain
    writes the height of its last block, in as many batches as the timer asks for,
    and tells the observers of every block it passes. *)

From S2P Require Import Prelude Blocks BlockCodec Common RepWeights EpochsWork Store Ledger Rollback.
From S2P Require Import LedgerInvariant ConfirmationHeight Chains CementInvariant ConfirmationBounded.

Section writes.
Context `{Crypto} (constants : ledger_constants) (s : store).
Context (floor : Z → Z) (rank : Z → nat) (HC : chains constants s floor rank).

Abbreviation stored := (stored s).
Abbreviation chain_of := (chain_of s).
Abbreviation height_of := (height_of s).
Abbreviation span := (span s).
Abbreviation cemented_ledger := (cemented_ledger s).
Abbreviation blocks_of l := (map (λ k, st_blocks s !! k) l).

(** ** Going up a chain *)

Definition successor_of (k : Z) : Z := from_option (λ e, sb_successor e.2) 0 (st_blocks s !! k).

(** The sidebands name the next block of the chain, the account its first. *)
Record upward : Prop := {
  up_successor : ∀ k y, stored k → stored y → chain_of y = chain_of k → height_of y = height_of k + 1 →
    successor_of k = y;
  up_open : ∀ k, stored k → height_of k = 1 →
    ∃ i, st_accounts s !! chain_of k = Some i ∧ ai_open_block i = k;
}.

(** A recorded frontier is the block at the recorded height. *)
Definition frontier_ok (a : Z) (i : confirmation_height_info) : Prop :=
  0 < ch_height i → stored (ch_frontier i) ∧ chain_of (ch_frontier i) = a ∧ height_of (ch_frontier i) = ch_height i.

Definition table_ok (L : ledger) : Prop := ∀ a, frontier_ok a (confirmation_height_get (lg_store L) a).

Context (Hup : upward).

Lemma go_up k x :
  stored k → stored x → chain_of k = chain_of x → floor (chain_of x) <= height_of k < height_of x →
  stored (successor_of k) ∧ chain_of (successor_of k) = chain_of x ∧ height_of (successor_of k) = height_of k + 1.
Proof using HC Hup.
  intros Hk Hx Hc Hh. destruct (block_at _ _ _ _ HC x (height_of k + 1)) as (y & Hy & Hyc & Hyh); [done | lia |].
  rewrite (up_successor Hup k y) by (done || congruence). done.
Qed.

Lemma cemented_table L L' : cemented_ledger L L' → table_ok L → table_ok L'.
Proof using.
  intros Hc Ht a. destruct (cl_frontier _ _ _ Hc a) as [-> | ?]; [apply Ht |]. by intros _.
Qed.

(** ** One pending write *)

(** What the observers have been told and the blocks of the open batch. *)
Definition cs_told (c : cement_state) : list (option block_w_sideband) :=
  concat (map event_blocks (cs_events c)) ++ map Some (cs_cemented_blocks c).

(** The guard is given up for good only after the last batch. *)
Definition guarded (c : cement_state) : Prop := cs_owned c = false → cs_cemented_blocks c = [].

(** What cementing one account from height [h] to [h'] does. *)
Record cements (c c' : cement_state) (a h' : Z) (l : list Z) : Prop := {
  ce_ledger : cemented_ledger (cs_ledger c) (cs_ledger c');
  ce_heights : ∀ x, table_height (cs_ledger c') x = update (table_height (cs_ledger c)) a h' x;
  ce_told : cs_told c' = cs_told c ++ blocks_of l;
}.

Lemma told_flush times amount a n h k left c :
  cs_told (flush_batch times amount a n h k left c) = cs_told c.
Proof using.
  unfold cs_told. simpl. rewrite map_app, concat_app. simpl. by rewrite !app_nil_r.
Qed.

Lemma update_update f a v w x : update (update f a v) a w x = update f a w x.
Proof using. unfold update. by case_decide. Qed.

Lemma write_height_ok L k n :
  stored k → table_height L (chain_of k) <= height_of k → n = height_of k - table_height L (chain_of k) →
  (∀ x, table_height (write_confirmation_height (chain_of k) n (height_of k) k L) x =
    update (table_height L) (chain_of k) (height_of k) x) ∧
  cemented_ledger L (write_confirmation_height (chain_of k) n (height_of k) k L).
Proof using. intros Hk Hle Hn. by apply cement_put_ok. Qed.

(** The walk over [remaining] blocks from [k] to [top], the account being cemented up
    to the blocks written so far. *)
Lemma cement_chain_ok times amount only_pending top h0 remaining k i total c :
  stored top → stored k → chain_of k = chain_of top → floor (chain_of top) <= h0 →
  height_of k = h0 + 1 + i → 0 <= total <= i → height_of top = height_of k + Z.of_nat remaining - 1 →
  (0 < remaining)%nat → table_height (cs_ledger c) (chain_of top) = h0 + total →
  st_blocks (lg_store (cs_ledger c)) = st_blocks s → cs_owned c = true →
  ∃ total' c', cement_chain times amount (chain_of top) (h0 + 1) only_pending remaining i total k
      (st_blocks s !! k) c = Ok (total', top, c') ∧
    0 <= total' <= height_of top - h0 ∧
    cements c c' (chain_of top) (h0 + total') (reverse (span top (height_of k - 1))) ∧
    guarded c' ∧ (cs_owned c' = true ∨ only_pending = true ∧ total' = height_of top - h0).
Proof using HC Hup.
  intros Htop. revert k i total c.
  induction remaining as [| rest IH]; intros k i total c Hk Hkc Hf Hh Htot Htoph Hrem Ht Hb Ho; [lia |].
  cbn [cement_chain]. pose proof Hk as [b Hkb]. rewrite Hkb. cbn [of_option mbind outcome_bind].
  pose proof (height_pos _ _ _ _ HC top Htop) as Hpos. pose proof (ch_floor _ _ _ _ HC (chain_of top)) as Hf0.
  set (c1 := add_cemented b c).
  assert (Hsnoc : reverse (span top (height_of k - 1)) = [k] ++ reverse (span top (height_of k))).
  { rewrite (span_snoc _ _ _ _ HC top k) by (done || rewrite ?Hkc; lia). by rewrite reverse_app. }
  assert (Htold1 : cs_told c1 = cs_told c ++ blocks_of [k]).
  { unfold cs_told, c1. simpl. by rewrite map_app, app_assoc, Hkb. }
  (* the state after the batch is possibly flushed *)
  set (full := if batch_full c1 then _ else _).
  assert (Hfull : ∃ total2 c2, full = (total2, c2) ∧ (total2 = total ∨ total2 = i + 1) ∧
    cemented_ledger (cs_ledger c) (cs_ledger c2) ∧
    (∀ x, table_height (cs_ledger c2) x = update (table_height (cs_ledger c)) (chain_of top) (h0 + total2) x) ∧
    cs_told c2 = cs_told c1 ∧ guarded c2 ∧
    (cs_owned c2 = true ∨ rest = O ∧ only_pending = true ∧ total2 = i + 1)).
  { unfold full. destruct (batch_full c1).
    - eexists _, _. split; [done |].
      replace (total + (i - total + 1)) with (i + 1) by lia.
      replace (wrap64 (h0 + 1 + (i + 1) - 1)) with (height_of k).
      2:{ rewrite wrap64_small; [lia |]. unfold is_u64. lia. }
      destruct (write_height_ok (cs_ledger c) k (i - total + 1) Hk) as [Hw1 Hw2]; [rewrite Hkc, Ht; lia.. |].
      split_and!; [by right | | | | done |].
      + simpl. rewrite <- Hkc. exact Hw2.
      + intros x. simpl. rewrite <- Hkc at 1. rewrite Hw1, Hkc. f_equal. lia.
      + apply told_flush.
      + simpl. case_bool_decide as Hr; [| by left]. subst rest. destruct only_pending; [| by left]. right. done.
    - eexists _, _. split; [done |]. split_and!; [by left | apply cemented_ledger_refl | | done | | by left].
      + intros x. simpl. unfold update. case_decide; [subst; done | done].
      + intros Ho'. simpl in Ho'. congruence. }
  destruct Hfull as (total2 & c2 & -> & Htot2 & Hl2 & Ht2 & Htold2 & Hg2 & Ho2).
  case_bool_decide as Hlast.
  - subst rest. assert (k = top) as -> by (apply (ch_unique _ _ _ _ HC); [done.. | lia]).
    exists total2, c2. split; [done |]. split; [lia |]. split.
    + split; [done | done |]. rewrite Htold2, Htold1. rewrite span_one. done.
    + split; [done |]. destruct Ho2 as [? | (_ & ? & ->)]; [by left | right]. split; [done | lia].
  - destruct Ho2 as [Ho2 | (? & _)]; [| done].
    destruct (go_up k top Hk Htop Hkc) as (Hy & Hyc & Hyh); [rewrite ?Hkc; lia |].
    assert (Hsucc : sb_successor b.2 = successor_of k) by (unfold successor_of; by rewrite Hkb).
    assert (Hb2 : st_blocks (lg_store (cs_ledger c2)) = st_blocks s) by (by rewrite (cl_blocks _ _ _ Hl2)).
    rewrite Hsucc. unfold block_get. rewrite Hb2.
    destruct (IH (successor_of k) (i + 1) total2 c2) as (total' & c' & -> & Htr & [Hl' Ht' Htold'] & Hrest);
      try done; try lia; [rewrite Ht2, update_eq; lia |].
    exists total', c'. split; [done |]. split; [done |]. split; [| done].
    split; [by eapply cemented_ledger_trans | |].
    + intros x. rewrite Ht'. unfold update. case_decide as Hx; [done |]. rewrite Ht2. unfold update.
      by rewrite decide_False.
    + rewrite Htold', Htold2, Htold1, Hsnoc, map_app, app_assoc. do 3 f_equal. f_equal. lia.
Qed.

(** A write that raises the height of its account from [h]; it may start below. *)
Record pending_ok (h : Z → Z) (p : write_details) : Prop := {
  po_stored : stored (wd_top_hash p);
  po_account : wd_account p = chain_of (wd_top_hash p);
  po_height : wd_top_height p = height_of (wd_top_hash p);
  po_above : floor (wd_account p) <= h (wd_account p) < wd_top_height p;
  po_bottom : stored (wd_bottom_hash p);
  po_bottom_chain : chain_of (wd_bottom_hash p) = wd_account p;
  po_bottom_height : wd_bottom_height p = height_of (wd_bottom_hash p);
  po_below : wd_bottom_height p <= h (wd_account p) + 1;
}.

Lemma cement_pending_ok times amount p only_pending c :
  pending_ok (table_height (cs_ledger c)) p → table_ok (cs_ledger c) →
  st_blocks (lg_store (cs_ledger c)) = st_blocks s → cs_owned c = true →
  ∃ c', cement_pending times amount p only_pending c = Ok c' ∧
    cements c c' (wd_account p) (wd_top_height p)
      (reverse (span (wd_top_hash p) (table_height (cs_ledger c) (wd_account p)))) ∧
    guarded c' ∧ (only_pending = false → cs_owned c' = true).
Proof using HC Hup.
  destruct p as [a bh bhash th top]. simpl. intros [Hs Ha Hth Hab Hbs Hbc Hbh Hbl] Htab Hb Ho. simpl in *. subst a th bh.
  set (h := table_height (cs_ledger c) (chain_of top)) in *. set (info := confirmation_height_get (lg_store (cs_ledger c)) (chain_of top)).
  assert (Hh : ch_height info = h) by done.
  pose proof (ch_floor _ _ _ _ HC (chain_of top)) as Hf0. pose proof (height_pos _ _ _ _ HC top Hs) as Hpos.
  pose proof (height_pos _ _ _ _ HC bhash Hbs) as Hbpos.
  unfold cement_pending. cbn [wd_account wd_top_height wd_bottom_height wd_bottom_hash]. fold info. rewrite Hh.
  rewrite (proj2 (Z.ltb_lt _ _)) by lia.
  (* where the walk starts *)
  set (start := if h <? height_of bhash then _ else _).
  assert (Hstart : ∃ k, start = Ok (k, height_of top - h, h + 1) ∧ stored k ∧ chain_of k = chain_of top ∧ height_of k = h + 1).
  { unfold start. destruct (Z.ltb_spec h (height_of bhash)) as [Hlt | Hge].
    - exists bhash. split; [| split_and!; done || lia].
      rewrite wrap64_small by (unfold is_u64; lia). do 2 f_equal; [f_equal; lia | lia].
    - destruct (Htab (chain_of top)) as (Hfs & Hfc & Hfh); [fold info; lia |]. fold info in Hfs, Hfc, Hfh.
      destruct (go_up (ch_frontier info) top) as (Hy & Hyc & Hyh); [done.. | lia |].
      exists (successor_of (ch_frontier info)). split; [| split_and!; done || lia].
      unfold block_get. rewrite Hb. unfold successor_of. destruct Hfs as [e ->].
      cbn [of_option mbind outcome_bind from_option]. rewrite wrap64_small by (unfold is_u64; lia). done. }
  destruct Hstart as (k & -> & Hks & Hkc & Hkh). cbn [mbind outcome_bind].
  unfold block_get. rewrite Hb.
  destruct (cement_chain_ok times amount only_pending top h (Z.to_nat (height_of top - h)) k 0 0 c)
    as (total & c1 & -> & Htr & [Hl1 Ht1 Htold1] & Hg1 & Ho1); try done; try lia.
  cbn [mbind outcome_bind]. eexists. split; [done |]. rewrite Hkh in Htold1.
  replace (h + 1 - 1) with h in Htold1 by lia.
  rewrite wrap64_small by (unfold is_u64; lia). destruct (Z.ltb_spec 0 (height_of top - h - total)) as [Hlt | Hge].
  - destruct (write_height_ok (cs_ledger c1) top (height_of top - h - total) Hs) as [Hw1 Hw2]; [rewrite Ht1, update_eq; lia.. |].
    split_and!; [| done |].
    + split; [by eapply cemented_ledger_trans | | done]. intros x. simpl. rewrite Hw1. unfold update.
      case_decide as Hx; [done |]. rewrite Ht1. unfold update. by rewrite decide_False.
    + intros Hop. simpl. destruct Ho1 as [? | [? _]]; [done | congruence].
  - split_and!; [| done |].
    + split; [done | | done]. intros x. rewrite Ht1. do 2 f_equal. lia.
    + intros Hop. destruct Ho1 as [? | [? _]]; [done | congruence].
Qed.

(** ** All pending writes *)

Fixpoint all_pending_ok (h : Z → Z) (w : list write_details) (conf : Z → Z) : Prop :=
  match w with
  | [] => ∀ a, h a = conf a
  | p :: w => pending_ok h p ∧ all_pending_ok (update h (wd_account p) (wd_top_height p)) w conf
  end.

(** The blocks they cement from the heights [h], in order. *)
Fixpoint pending_blocks (h : Z → Z) (w : list write_details) : list Z :=
  match w with
  | [] => []
  | p :: w => reverse (span (wd_top_hash p) (h (wd_account p))) ++
      pending_blocks (update h (wd_account p) (wd_top_height p)) w
  end.

Lemma update_ext f g a v x : (∀ x, f x = g x) → update f a v x = update g a v x.
Proof using. intros He. unfold update. case_decide; [done | apply He]. Qed.

Lemma pending_ok_ext h h' p : (∀ a, h a = h' a) → pending_ok h p → pending_ok h' p.
Proof using. intros He []. split; rewrite <- ?He; done. Qed.

Lemma all_pending_ok_ext h h' w conf conf' :
  (∀ a, h a = h' a) → (∀ a, conf a = conf' a) → all_pending_ok h w conf → all_pending_ok h' w conf'.
Proof using.
  revert h h'. induction w as [| p w IH]; simpl; intros h h' Hh Hc.
  - intros Hw a. by rewrite <- Hh, <- Hc.
  - intros [Hp Hw]. split; [by eapply pending_ok_ext |]. eapply IH; [| done | done].
    intros a. by apply update_ext.
Qed.

Lemma pending_blocks_ext h h' w : (∀ a, h a = h' a) → pending_blocks h w = pending_blocks h' w.
Proof using.
  revert h h'. induction w as [| p w IH]; simpl; intros h h' Hh; [done |]. rewrite Hh. f_equal.
  apply IH. intros a. by apply update_ext.
Qed.

Lemma all_pending_ok_snoc h w conf p :
  all_pending_ok h w conf → pending_ok conf p →
  all_pending_ok h (w ++ [p]) (update conf (wd_account p) (wd_top_height p)).
Proof using.
  revert h. induction w as [| q w IH]; simpl; intros h.
  - intros Hh Hp. split; [eapply pending_ok_ext; [| exact Hp]; done |]. intros a. by apply update_ext.
  - intros [Hq Hw] Hp. split; [done | by apply IH].
Qed.

Lemma pending_blocks_snoc h w conf p :
  all_pending_ok h w conf →
  pending_blocks h (w ++ [p]) = pending_blocks h w ++ reverse (span (wd_top_hash p) (conf (wd_account p))).
Proof using.
  revert h. induction w as [| q w IH]; simpl; intros h.
  - intros Hh. by rewrite Hh, app_nil_r.
  - intros [Hq Hw]. by rewrite (IH _ Hw), app_assoc.
Qed.

(** Forgetting accounts does not touch the others. *)
Lemma forget_lookup p m a : forget_account p m !! a = m !! a ∨ forget_account p m !! a = None.
Proof using.
  unfold forget_account. destruct (m !! wd_account p); [| by left]. destruct (_ =? _); [| by left].
  rewrite lookup_delete. case_decide; auto.
Qed.

Lemma cement_all_ok times amount w m c conf :
  all_pending_ok (table_height (cs_ledger c)) w conf → table_ok (cs_ledger c) →
  st_blocks (lg_store (cs_ledger c)) = st_blocks s → cs_owned c = true →
  ∃ m' c', cement_all times amount w m c = Ok (m', c') ∧ cemented_ledger (cs_ledger c) (cs_ledger c') ∧
    (∀ a, table_height (cs_ledger c') a = conf a) ∧
    cs_told c' = cs_told c ++ blocks_of (pending_blocks (table_height (cs_ledger c)) w) ∧ guarded c' ∧
    ∀ a, m' !! a = m !! a ∨ m' !! a = None.
Proof using HC Hup.
  revert m c. induction w as [| p w IH]; simpl; intros m c Hw Htab Hb Ho.
  - exists m, c. split_and!; [done | apply cemented_ledger_refl | done | by rewrite app_nil_r | | by left].
    intros Ho'. congruence.
  - destruct Hw as [Hp Hw].
    destruct (cement_pending_ok times amount p (bool_decide (w = [])) c Hp Htab Hb Ho) as (c1 & -> & [Hl1 Ht1 Htold1] & Hg1 & Ho1).
    cbn [mbind outcome_bind].
    assert (Hw1 : all_pending_ok (table_height (cs_ledger c1)) w conf).
    { eapply all_pending_ok_ext; [| done | exact Hw]. intros a. by rewrite Ht1. }
    assert (Hb1 : st_blocks (lg_store (cs_ledger c1)) = st_blocks s) by (by rewrite (cl_blocks _ _ _ Hl1)).
    pose proof (cemented_table _ _ Hl1 Htab) as Htab1.
    assert (Hblocks : cs_told c1 ++ blocks_of (pending_blocks (table_height (cs_ledger c1)) w) =
      cs_told c ++ blocks_of (reverse (span (wd_top_hash p) (table_height (cs_ledger c) (wd_account p))) ++
        pending_blocks (update (table_height (cs_ledger c)) (wd_account p) (wd_top_height p)) w)).
    { rewrite Htold1, map_app, app_assoc. f_equal. f_equal. by apply pending_blocks_ext. }
    destruct w as [| q w].
    + simpl in *. eexists _, _. split; [done |].
      split_and!; [done | done | by rewrite <- Hblocks, app_nil_r | done | by intros a; apply forget_lookup].
    + destruct (IH (forget_account p m) c1 Hw1 Htab1 Hb1) as (m' & c' & -> & Hl' & Ht' & Htold' & Hg' & Hm').
      { by apply Ho1. }
      exists m', c'. split_and!; [done | by eapply cemented_ledger_trans | done | | done |].
      * by rewrite Htold', Hblocks.
      * intros a. destruct (Hm' a) as [-> | ?]; [apply forget_lookup | by right].
Qed.

(** ** [cement_blocks] *)

Definition bounded_announced (u : bounded) : list (option block_w_sideband) :=
  concat (map event_blocks (bd_events u)) ++
  blocks_of (pending_blocks (table_height (bd_ledger u)) (bd_pending_writes u)).

(** The tables and the memory of the processor agree on where the chains are. *)
Record heights_ok (u : bounded) (conf : Z → Z) : Prop := {
  ho_blocks : st_blocks (lg_store (bd_ledger u)) = st_blocks s;
  ho_accounts : st_accounts (lg_store (bd_ledger u)) = st_accounts s;
  ho_conf : ∀ a, ch_height (known_info u a) = conf a;
  ho_frontier : ∀ a, frontier_ok a (known_info u a);
  ho_table : table_ok (bd_ledger u);
  ho_entry : ∀ a i, bd_accounts_confirmed_info u !! a = Some i → 0 < cn_confirmed_height i;
  ho_floor : ∀ a, floor a <= conf a;
  ho_writes : all_pending_ok (table_height (bd_ledger u)) (bd_pending_writes u) conf;
}.

(** Two frontiers at the same height are the same. *)
Lemma frontier_unique a i j :
  frontier_ok a i → frontier_ok a j → ch_height i = ch_height j → 0 < ch_height i → i = j.
Proof using HC.
  destruct i as [h k], j as [h' k']. unfold frontier_ok. simpl. intros Hi Hj <- Hpos.
  destruct (Hi Hpos) as (? & ? & ?), (Hj Hpos) as (? & ? & ?). f_equal.
  apply (ch_unique _ _ _ _ HC); congruence.
Qed.

Lemma bounded_cement_ok times u conf :
  heights_ok u conf →
  ∃ u', bounded_cement_blocks times u = Ok u' ∧ heights_ok u' conf ∧ bd_pending_writes u' = [] ∧
    cemented_ledger (bd_ledger u) (bd_ledger u') ∧ bounded_announced u' = bounded_announced u ∧
    (∀ a, table_height (bd_ledger u') a = conf a) ∧ ∀ a, known_info u' a = known_info u a.
Proof using HC Hup.
  intros [Hb Ha Hc Hf Ht He Hfl Hw]. unfold bounded_cement_blocks.
  set (c := CementState (bd_ledger u) [] (bd_events u) (bd_batch_write_size u) 0 true).
  destruct (cement_all_ok times (bd_batch_write_size u / 10) (bd_pending_writes u) (bd_accounts_confirmed_info u)
    c conf) as (m' & c' & -> & Hl & Hth & Htold & Hg & Hm); [done.. |].
  cbn [mbind outcome_bind]. eexists. split; [done |]. set (u' := Bounded _ _ _ _ _).
  assert (Hk : ∀ a, known_info u' a = known_info u a).
  { intros a. unfold known_info at 1. simpl. destruct (Hm a) as [Hma | Hma]; rewrite Hma.
    - unfold known_info. destruct (bd_accounts_confirmed_info u !! a) as [i |] eqn:Hi; [done |].
      destruct (cl_frontier _ _ _ Hl a) as [Heq | (Hs & Hch & Hhe)]; [done |].
      pose proof (Hth a) as Hta. pose proof (Hc a) as Hca. unfold known_info in Hca. rewrite Hi in Hca.
      pose proof (height_pos _ _ _ _ HC _ Hs). apply (frontier_unique a).
      + by intros _.
      + apply Ht.
      + fold (table_height (cs_ledger c') a). congruence.
      + fold (table_height (cs_ledger c') a). lia.
    - pose proof (cemented_table _ _ Hl Ht) as Ht'. destruct (Z.le_gt_cases (conf a) 0) as [Hz | Hpos].
      + unfold known_info. destruct (bd_accounts_confirmed_info u !! a) as [i |] eqn:Hi.
        { exfalso. specialize (Hc a). specialize (He a i Hi). unfold known_info in Hc. rewrite Hi in Hc. simpl in Hc. lia. }
        destruct (cl_frontier _ _ _ Hl a) as [Heq | (Hs & Hch & Hhe)]; [done |].
        pose proof (height_pos _ _ _ _ HC _ Hs). rewrite Hhe, Hth in *. lia.
      + apply (frontier_unique a); [apply Ht' | apply Hf | |]; fold (table_height (cs_ledger c') a); rewrite Hth, ?Hc; lia. }
  split_and!; [| done | done | | done | done].
  - split; [by rewrite <- Hb; apply Hl | by rewrite <- Ha; apply Hl | | | by eapply cemented_table | | done | done].
    + intros a. by rewrite Hk.
    + intros a. by rewrite Hk.
    + intros a i Hi. simpl in Hi. destruct (Hm a) as [Hma | Hma]; rewrite Hma in Hi; [by eapply He | done].
  - unfold bounded_announced. simpl. rewrite app_nil_r.
    assert (cs_told c = concat (map event_blocks (bd_events u))) as Hc0 by (unfold cs_told; simpl; by rewrite app_nil_r).
    rewrite Hc0 in Htold. fold (table_height (bd_ledger u)) in Htold. simpl in Htold. rewrite <- Htold. unfold cs_told.
    case_bool_decide as Hnil.
    + by rewrite Hnil, andb_false_r, app_nil_r.
    + destruct (cs_owned c') eqn:Hoc; [| by specialize (Hg Hoc)]. simpl.
      rewrite map_app, concat_app. simpl. by rewrite !app_nil_r.
Qed.
End writes.
