(* ===== verification/BoundedInvariant.v ===== *)
(** * The invariant of the bounded processor

    What holds between two rounds of [bounded_process]: as for the unbounded
    processor the heights known in memory cement a set closed under dependencies
    to which the pending writes lead the table.  The stack is a path: the receive
    of an entry lies in the chain of the goal below it, the first one above the
    known height of that chain, and its source is the goal above it. *)

From S2P Require Import Prelude Blocks BlockCodec Common RepWeights EpochsWork Store Ledger Rollback.
From S2P Require Import LedgerInvariant ConfirmationHeight Chains CementWalk CementInvariant.
From S2P Require Import ConfirmationBounded BoundedWrites.

Section invariant.
Context `{Crypto} (constants : ledger_constants) (s : store).
Context (floor : Z → Z) (rank : Z → nat) (HC : chains constants s floor rank) (Hup : upward s).

Abbreviation stored := (stored s).
Abbreviation chain_of := (chain_of s).
Abbreviation height_of := (height_of s).
Abbreviation previous_of := (previous_of s).
Abbreviation source_of := (source_of constants s).
Abbreviation successor_of := (successor_of s).
Abbreviation depends := (depends constants s).
Abbreviation span := (span s).
Abbreviation announces := (announces constants s).
Abbreviation no_receive := (no_receive constants s).
Abbreviation blocks_of l := (map (λ k, st_blocks s !! k) l).
Abbreviation heights_ok := (heights_ok s floor).
Abbreviation bounded_announced := (bounded_announced s).

Section loop.
Context (orig : Z) (conf0 : Z → Z) (L0 : ledger) (announced0 : list (option block_w_sideband)).
Context (Horig : stored orig).

Abbreviation base := (base s conf0).

(** The block the walk works for: the source of the topmost receive or the original. *)
Definition bounded_goal (P : list bounded_pair) : Z :=
  match P with [] => orig | (_, y) :: _ => y end.

(** A stacked receive is the next one of its chain. *)
Record pair_ok (conf : Z → Z) (d : receive_chain_details) (y : Z) : Prop := {
  pa_source : source_of (rc_hash d) = Some y;
  pa_account : rc_account d = chain_of (rc_hash d);
  pa_height : rc_height d = height_of (rc_hash d);
  pa_above : conf (rc_account d) < rc_height d;
  pa_bottom : stored (rc_bottom_most d);
  pa_bottom_chain : chain_of (rc_bottom_most d) = rc_account d;
  pa_bottom_height : rc_bottom_height d = height_of (rc_bottom_most d);
  pa_below : rc_bottom_height d <= conf (rc_account d) + 1;
  pa_first : no_receive (rc_account d) (conf (rc_account d)) (rc_height d - 1);
  pa_next : rc_next d = if negb (successor_of (rc_hash d) =? 0) && negb (successor_of (rc_hash d) =? rc_top_level d)
    then Some (successor_of (rc_hash d)) else None;
  pa_top : chain_of (rc_top_level d) = rc_account d;
  pa_top_height : rc_height d <= height_of (rc_top_level d);
}.

Fixpoint path (P : list bounded_pair) : Prop :=
  match P with
  | [] => True
  | (d, _) :: P => rc_top_level d = bounded_goal P ∧ path P
  end.

Record bounded_inv (u : bounded) (conf : Z → Z) (P : list bounded_pair) (l : list Z) : Prop := {
  bi_heights : heights_ok u conf;
  bi_ledger : cemented_ledger s L0 (bd_ledger u);
  bi_announces : announces base l;
  bi_cemented : ∀ k, stored k → height_of k <= conf (chain_of k) ↔ base k ∨ k ∈ l;
  bi_announced : bounded_announced u = announced0 ++ blocks_of l;
  bi_reach : ∀ k, k ∈ l → rtc depends orig k;
  bi_pairs : ∀ d y, (d, y) ∈ P → pair_ok conf d y;
  bi_path : path P;
}.

(** Where the walk goes on above a cemented receive, unless the goal is cemented too. *)
Definition next_ok (conf : Z → Z) (P : list bounded_pair) (next : option top_and_next_hash) : Prop :=
  match next with
  | None => True
  | Some n =>
      let x := bounded_goal P in
      tn_top n = x ∧
      (conf (chain_of x) < height_of x →
        ∃ k, tn_next n = Some k ∧ stored k ∧ chain_of k = chain_of x ∧
          height_of k = conf (chain_of x) + 1 ∧ tn_next_height n = height_of k)
  end.

(** ** The path *)

Section facts.
Context (u : bounded) (conf : Z → Z) (P : list bounded_pair) (l : list Z) (HI : bounded_inv u conf P l).

Lemma conf_floor a : floor a <= conf a.
Proof using HI. apply (ho_floor _ _ _ _ (bi_heights _ _ _ _ HI)). Qed.

Lemma goal_stored : stored (bounded_goal P).
Proof using HI Horig.
  destruct P as [| [d y] P'] eqn:HP; [done |]. simpl.
  eapply stored_source, (pa_source _ _ _ (bi_pairs _ _ _ _ HI d y (list_elem_of_here _ _))).
Qed.
End facts.

(** What goes down from the goal along a path of stacked receives: [f] does not grow
    along dependencies and shrinks at receives. *)
Lemma path_descends (f : Z → nat) conf P :
  (∀ a, floor a <= conf a) → (∀ k y, depends k y → (f y <= f k)%nat) →
  (∀ k y, source_of k = Some y → (f y < f k)%nat) →
  (∀ d y, (d, y) ∈ P → pair_ok conf d y) → path P →
  (length P + f (bounded_goal P) <= f orig)%nat ∧
  ∀ d y, (d, y) ∈ P → rtc depends orig (rc_hash d) ∧ (f (bounded_goal P) < f (rc_hash d))%nat.
Proof using HC Horig.
  intros Hfl Hd Hs Hp. assert (Hrtc : ∀ k y, rtc depends k y → (f y <= f k)%nat).
  { intros k y. induction 1 as [| k y z Hky _ IH]; [lia |]. specialize (Hd k y Hky). lia. }
  induction P as [| [d y] P IH]; simpl.
  { intros _. split; [lia |]. by intros d y ?%elem_of_nil. }
  intros [Htop HP]. destruct IH as [Hlen Hall]; [intros; apply Hp; by right | done |].
  pose proof (Hp d y (list_elem_of_here _ _)) as [Hsd Had Hhd Hab _ _ _ _ _ _ Htc Hth].
  assert (Hgs : stored (bounded_goal P)).
  { destruct P as [| [d' y'] P']; [done |]. simpl.
    eapply stored_source, (pa_source _ _ _ (Hp d' y' (list_elem_of_further _ _ _ (list_elem_of_here _ _)))). }
  assert (Hgr : rtc depends orig (bounded_goal P)).
  { destruct P as [| [d' y'] P']; [done |]. simpl. destruct (Hall d' y' (list_elem_of_here _ _)) as [Hr _].
    eapply rtc_r; [exact Hr |]. eapply depends_source.
    apply (pa_source _ _ _ (Hp d' y' (list_elem_of_further _ _ _ (list_elem_of_here _ _)))). }
  assert (Hr : rtc depends (bounded_goal P) (rc_hash d)).
  { rewrite <- Htop. eapply (walk_rtc _ _ _ _ HC); [by rewrite Htop | by eapply receive_stored | congruence |].
    rewrite Htc. specialize (Hfl (rc_account d)). lia. }
  pose proof (Hrtc _ _ Hr). specialize (Hs _ _ Hsd). split; [lia |].
  intros d1 y1 [[= -> ->] | Hin]%elem_of_cons.
  - split; [by etrans | done].
  - destruct (Hall d1 y1 Hin). split; [done | lia].
Qed.

Section facts2.
Context (u : bounded) (conf : Z → Z) (P : list bounded_pair) (l : list Z) (HI : bounded_inv u conf P l).

Lemma path_rank :
  ∀ d y, (d, y) ∈ P → rtc depends orig (rc_hash d) ∧ (rank (bounded_goal P) < rank (rc_hash d))%nat.
Proof using HC Horig HI.
  apply (path_descends rank conf P); [eapply conf_floor; exact HI | | | apply HI | apply HI].
  - intros k y Hd. pose proof (ch_rank _ _ _ _ HC k y Hd). lia.
  - intros k y. apply (source_rank _ _ _ _ HC).
Qed.

Lemma goal_reach : rtc depends orig (bounded_goal P).
Proof using HC Horig HI.
  pose proof path_rank as Hr. destruct P as [| [d y] P'] eqn:HP; [done |]. simpl.
  destruct (Hr d y (list_elem_of_here _ _)) as [Hd _]. eapply rtc_r; [exact Hd |].
  eapply depends_source, (pa_source _ _ _ (bi_pairs _ _ _ _ HI d y (list_elem_of_here _ _))).
Qed.

Lemma pair_stored d y : (d, y) ∈ P → stored (rc_hash d).
Proof using HI. intros Hd. eapply receive_stored, (pa_source _ _ _ (bi_pairs _ _ _ _ HI d y Hd)). Qed.
End facts2.

Lemma path_hashes conf P :
  (∀ a, floor a <= conf a) → (∀ d y, (d, y) ∈ P → pair_ok conf d y) → path P →
  NoDup (map (λ p, rc_hash p.1) P).
Proof using HC Horig.
  intros Hfl Hp HP. induction P as [| [d y] P IH]; simpl; [constructor |]. destruct HP as [Htop HP].
  assert (Hp' : ∀ d y, (d, y) ∈ P → pair_ok conf d y) by (intros; apply Hp; by right).
  constructor; [| by apply IH]. intros ([d' y'] & He & Hin)%list_elem_of_fmap. simpl in He.
  destruct (path_descends rank conf P) as [_ Hr]; try done.
  { intros k z Hd. pose proof (ch_rank _ _ _ _ HC k z Hd). lia. }
  { intros k z. apply (source_rank _ _ _ _ HC). }
  destruct (Hr d' y' Hin) as [_ Hlt]. rewrite <- He in Hlt.
  pose proof (Hp d y (list_elem_of_here _ _)) as [Hsd Had Hhd Hab _ _ _ _ _ _ Htc Hth].
  assert (Hgs : stored (rc_top_level d)).
  { rewrite Htop. destruct P as [| [d1 y1] P']; [done |]. simpl.
    eapply stored_source, (pa_source _ _ _ (Hp' d1 y1 (list_elem_of_here _ _))). }
  pose proof (walk_rank _ _ _ _ HC (rc_top_level d) (rc_hash d)) as Hw. rewrite Htc in Hw.
  specialize (Hfl (rc_account d)).
  assert (rank (rc_hash d) <= rank (rc_top_level d))%nat; [| rewrite Htop in *; lia].
  apply Hw; [done | by eapply receive_stored | congruence | lia].
Qed.

(** ** Raising a height *)

Definition prepared (k bottom_height bottom : Z) (u : bounded) : bounded :=
  bd_set_writes (λ w, w ++ [WriteDetails (chain_of k) bottom_height bottom (height_of k) k])
    (bd_set_info <[chain_of k := ConfirmedInfo (height_of k) k]> u).

Lemma known_prepared k bh b u a :
  known_info (prepared k bh b u) a =
  if decide (a = chain_of k) then ConfirmationHeightInfo (height_of k) k else known_info u a.
Proof using.
  unfold known_info, prepared. simpl. rewrite lookup_insert. by repeat case_decide; subst.
Qed.

(** A block whose receives below it, above the known height, have cemented sources
    can be prepared. *)
Lemma raise u conf P l k bottom :
  bounded_inv u conf P l → stored k → conf (chain_of k) < height_of k →
  (∀ j y, source_of j = Some y → chain_of j = chain_of k → conf (chain_of k) < height_of j <= height_of k →
    height_of y <= conf (chain_of y)) →
  rtc depends orig k → (∀ d y, (d, y) ∈ P → (rank k < rank (rc_hash d))%nat) →
  stored bottom → chain_of bottom = chain_of k → height_of bottom <= conf (chain_of k) + 1 →
  bounded_inv (prepared k (height_of bottom) bottom u) (update conf (chain_of k) (height_of k)) P
    (l ++ reverse (span k (conf (chain_of k)))).
Proof using HC.
  intros [Hh HL Han Hce Hann Hre Hpa Hpath] Hk Hlt Hsrc Hreach Hrank Hb Hbc Hbh.
  pose proof (ho_floor _ _ _ _ Hh) as Hfl. set (c := conf (chain_of k)) in *.
  assert (Hpend : pending_ok s floor conf (WriteDetails (chain_of k) (height_of bottom) bottom (height_of k) k)).
  { by split. }
  assert (Hin : ∀ j, j ∈ span k c ↔ stored j ∧ chain_of j = chain_of k ∧ c < height_of j <= height_of k).
  { intros j. apply (elem_of_span _ _ _ _ HC); [done |]. apply Hfl. }
  assert (Hce' : ∀ j, stored j →
    height_of j <= update conf (chain_of k) (height_of k) (chain_of j) ↔ base j ∨ j ∈ l ++ reverse (span k c)).
  { intros j Hj. rewrite elem_of_app, elem_of_reverse, Hin. specialize (Hce j Hj). unfold update.
    case_decide as Hjc; [| tauto]. rewrite Hjc in Hce. fold c in Hce.
    destruct (Z.le_gt_cases (height_of j) c); [| split; [intros ?; right; right; split_and!; done || lia |]].
    - split; [intros _; tauto | intros; lia].
    - intros [? | [? | (_ & _ & ?)]]; [assert (height_of j <= c) by tauto; lia.. | lia]. }
  split; try done.
  - destruct Hh as [Hbl Hac Hc Hf Ht He _ Hw]. split; try done.
    + intros a. rewrite known_prepared. unfold update. by case_decide.
    + intros a. rewrite known_prepared. case_decide; [subst; by intros _ | apply Hf].
    + intros a i. simpl. rewrite lookup_insert_Some. intros [[_ <-] | [_ Hi]]; [| by eapply He].
      simpl. pose proof (height_pos _ _ _ _ HC k Hk). lia.
    + intros a. unfold update. case_decide; [| done]. subst a. specialize (Hfl (chain_of k)). fold c in Hfl. lia.
    + by apply (all_pending_ok_snoc s floor _ _ _ _ Hw Hpend).
  - apply (announces_span _ _ _ _ HC); [done | done | apply Hfl | |].
    + intros j Hj. pose proof (proj1 (Hin j) Hj) as (Hjs & Hjc & Hjh). pose proof (Hce j Hjs) as Hj1. rewrite Hjc in Hj1. fold c in Hj1.
      split_and!; [intros ?; assert (height_of j <= c) by tauto; lia | intros ?; assert (height_of j <= c) by tauto; lia |].
      intros y Hy. apply Hce; [by eapply stored_source |]. by eapply Hsrc.
    + intros j Hj Hjc Hjh. apply (Hce j Hj). rewrite Hjc. fold c. lia.
  - unfold BoundedWrites.bounded_announced in *. simpl.
    rewrite (pending_blocks_snoc s floor _ _ _ _ (ho_writes _ _ _ _ Hh)). simpl. fold c.
    by rewrite !map_app, app_assoc, Hann, app_assoc.
  - intros j. rewrite elem_of_app, elem_of_reverse, Hin. intros [Hj | (Hj & Hjc & Hjh)]; [by apply Hre |].
    etrans; [exact Hreach |]. apply (walk_rtc _ _ _ _ HC); [done.. |]. specialize (Hfl (chain_of k)). fold c in Hfl. lia.
  - intros d y Hd. destruct (Hpa d y Hd) as [Hs Ha Hhd Hab Hb1 Hb2 Hb3 Hb4 Hfirst Hn Ht1 Ht2].
    assert (Hle : conf (rc_account d) <= update conf (chain_of k) (height_of k) (rc_account d)).
    { unfold update. case_decide as He; [rewrite He; fold c; lia | lia]. }
    split; try done.
    + unfold update. case_decide as He; [| done]. rewrite Hhd. apply (rank_height _ _ _ _ HC); [done | by eapply receive_stored | congruence | | by eapply Hrank].
      specialize (Hfl (rc_account d)). rewrite <- He. lia.
    + lia.
    + intros j Hj Hjc Hjh. apply Hfirst; [done | done | lia].
Qed.
End loop.
End invariant.
