(* ===== verification/BoundedRound.v ===== *)
(** * A round of the bounded processor

    One round of [bounded_process] keeps the invariant: it cements the goal and the
    receive that waits for it, or finds the next receive of the chain of the goal,
    and either way comes closer to the end. *)

From S2P Require Import Prelude Blocks BlockCodec Common RepWeights EpochsWork Store Ledger Rollback.
From S2P Require Import LedgerInvariant ConfirmationHeight Chains CementWalk CementInvariant.
From S2P Require Import ConfirmationBounded BoundedWrites BoundedInvariant.

Section round.
Context `{Crypto} (constants : ledger_constants) (max_items : nat) (s : store).
Context (floor : Z → Z) (rank : Z → nat) (HC : chains constants s floor rank) (Hup : upward s).

Abbreviation stored := (stored s).
Abbreviation chain_of := (chain_of s).
Abbreviation height_of := (height_of s).
Abbreviation previous_of := (previous_of s).
Abbreviation source_of := (source_of constants s).
Abbreviation successor_of := (successor_of s).
Abbreviation depends := (depends constants s).
Abbreviation span := (span s).
Abbreviation no_receive := (no_receive constants s).
Abbreviation iterate := (iterate constants max_items).
Abbreviation prepared := (prepared s).

(** ** Blocks left *)

Definition uncemented (conf : Z → Z) : gset Z :=
  filter (λ k, conf (chain_of k) < height_of k) (dom (st_blocks s)).

Lemma uncemented_raise conf k :
  stored k → conf (chain_of k) < height_of k →
  (size (uncemented (update conf (chain_of k) (height_of k))) < size (uncemented conf))%nat.
Proof using.
  intros Hk Hlt. apply subset_size. unfold uncemented. split.
  - intros j. rewrite !elem_of_filter. unfold update. intros [Hj ?]. split; [| done]. case_decide as He; [| done].
    rewrite He. lia.
  - intros Hsub. specialize (Hsub k). rewrite !elem_of_filter, update_eq, elem_of_dom in Hsub.
    destruct Hsub; [done | lia].
Qed.

Lemma span_size k h :
  stored k → floor (chain_of k) <= h → (length (span k h) <= size (st_blocks s))%nat.
Proof using HC.
  intros Hk Hf. assert (Hann : announces constants s (λ _, False) [] ) by constructor.
  assert (Hnd : NoDup (span k h)).
  { unfold Chains.span. remember (Z.to_nat (height_of k - h)) as n eqn:Hn.
    revert k Hk Hf Hn. induction n as [| n IH]; intros k Hk Hf Hn; simpl; [constructor |].
    destruct n as [| n]; [apply NoDup_singleton |].
    destruct (above_floor _ _ _ _ HC k Hk ltac:(lia)) as (Hp & Hpc & Hph & _).
    constructor; [| apply IH; [done | by rewrite Hpc | lia]].
    replace (S n) with (Z.to_nat (height_of (previous_of k) - h)) by lia. fold (span (previous_of k) h).
    intros Hin. apply (elem_of_span _ _ _ _ HC) in Hin as (_ & _ & ?); [lia | done | by rewrite Hpc]. }
  rewrite <- (size_list_to_set (C := gset Z) _ Hnd), <- (size_dom (D := gset Z)). apply subseteq_size.
  intros j. rewrite elem_of_list_to_set. intros Hj. apply (elem_of_span _ _ _ _ HC) in Hj as (Hj & _); [| done | done].
  by apply elem_of_dom.
Qed.

(** ** The walk up a chain *)

Definition found (x bottom R y : Z) : bounded_pair :=
  (ReceiveChainDetails (chain_of x) (height_of R) R x
     (if negb (successor_of R =? 0) && negb (successor_of R =? x) then Some (successor_of R) else None)
     (height_of bottom) bottom, y).

Definition found_state (x bottom R y top_most : Z) (st : iterate_state) : iterate_state :=
  let pairs := push_back max_items (found x bottom R y) (it_receive_source_pairs st) in
  IterateState (if (length pairs mod max_items =? 0)%nat then push_back max_items x (it_checkpoints st)
                else it_checkpoints st) pairs top_most true.

Lemma iterate_ok fuel s' x bottom k st :
  st_blocks s' = st_blocks s → stored x → stored k → chain_of k = chain_of x →
  floor (chain_of x) < height_of k <= height_of x → (Z.to_nat (height_of x - height_of k) < fuel)%nat →
  let run := iterate fuel false s' (height_of bottom) bottom x (chain_of x) k st in
  (no_receive (chain_of x) (height_of k - 1) (height_of x) ∧
   run = Done (IterateState (it_checkpoints st) (it_receive_source_pairs st) x (it_hit_receive st))) ∨
  ∃ R y top_most, source_of R = Some y ∧ chain_of R = chain_of x ∧ height_of k <= height_of R <= height_of x ∧
    no_receive (chain_of x) (height_of k - 1) (height_of R - 1) ∧
    (R = k ∧ top_most = it_top_most_non_receive_block_hash st ∨
     stored top_most ∧ chain_of top_most = chain_of x ∧ height_of top_most = height_of R - 1 ∧
     height_of k <= height_of top_most) ∧
    run = Done (found_state x bottom R y top_most st).
Proof using HC Hup.
  intros Hb Hx. revert k st. induction fuel as [| fuel IH]; intros k st Hk Hkc Hkh Hfuel run; [lia |].
  unfold run. cbn [ConfirmationBounded.iterate].
  rewrite (proj2 (Z.eqb_neq k 0)) by (by apply (stored_nonzero _ _ _ _ HC)). cbn [orb].
  pose proof Hk as [b Hkb]. unfold block_get. rewrite Hb, Hkb. cbn [of_option lift mbind run_bind].
  assert (Hw : walk_source constants s' b.1 = source_of k).
  { unfold Chains.source_of. rewrite Hkb. simpl. unfold walk_source, block_exists. by rewrite Hb. }
  assert (Hhk : sb_height b.2 = height_of k) by (unfold Chains.height_of; by rewrite Hkb).
  assert (Hsk : sb_successor b.2 = successor_of k) by (unfold BoundedWrites.successor_of; by rewrite Hkb).
  assert (Hunique : ∀ j, stored j → chain_of j = chain_of x → height_of j = height_of k → j = k).
  { intros j Hj Hjc Hjh. apply (ch_unique _ _ _ _ HC); congruence. }
  rewrite Hw. destruct (source_of k) as [y |] eqn:Hs.
  - right. exists k, y, (it_top_most_non_receive_block_hash st). rewrite Hhk, Hsk.
    split_and!; [done.. | lia | lia | | by left | done]. intros j Hj Hjc Hjh. lia.
  - destruct (Z.eqb_spec k x) as [-> | Hne].
    + left. split; [| done]. intros j Hj Hjc Hjh. by rewrite (Hunique j) by (done || lia).
    + assert (height_of k ≠ height_of x).
      { intros He. apply Hne. by apply (ch_unique _ _ _ _ HC). }
      destruct (go_up _ _ _ _ HC Hup k x Hk Hx Hkc) as (Hy & Hyc & Hyh); [lia |]. rewrite Hsk.
      set (st1 := IterateState _ _ _ _).
      destruct (IH (successor_of k) st1 Hy Hyc) as [[Hno ->] | (R & y & tm & HsR & HcR & HhR & Hno & Htm & ->)]; [lia.. | |].
      * left. split; [| done]. intros j Hj Hjc Hjh. destruct (Z.eq_dec (height_of j) (height_of k)).
        { by rewrite (Hunique j). } apply Hno; [done | done | lia].
      * right. exists R, y, tm. split_and!; [done | done | lia | lia | | | done].
        -- intros j Hj Hjc Hjh. destruct (Z.eq_dec (height_of j) (height_of k)).
           { by rewrite (Hunique j). } apply Hno; [done | done | lia].
        -- right. destruct Htm as [[-> ->] | (? & ? & ? & ?)]; [simpl | split_and!; done || lia].
           split_and!; done || lia.
Qed.

Section loop.
Context (orig : Z) (conf0 : Z → Z) (L0 : ledger) (announced0 : list (option block_w_sideband)).
Context (e0 : block_w_sideband) (He0 : st_blocks s !! orig = Some e0).

Abbreviation bounded_inv := (bounded_inv constants s floor orig conf0 L0 announced0).
Abbreviation goal := (bounded_goal orig).
Abbreviation next_ok := (next_ok s orig).

Lemma original_stored : stored orig.
Proof using He0. by exists e0. Qed.

(** ** Steps on the invariant *)

Lemma inv_notify u conf P l h :
  bounded_inv u conf P l → bounded_inv (bd_notify (ev_already_cemented h) u) conf P l.
Proof using.
  intros [Hh HL Han Hce Hann Hre Hpa Hpath]. split; try done.
  - destruct Hh. by split.
  - rewrite <- Hann. unfold bounded_announced. simpl. by rewrite map_app, concat_app, app_nil_r.
Qed.

Lemma inv_tail u conf p P l : bounded_inv u conf (p :: P) l → bounded_inv u conf P l.
Proof using.
  intros [Hh HL Han Hce Hann Hre Hpa Hpath]. destruct p as [d y]. split; try done; [| apply Hpath].
  intros. apply Hpa. by right.
Qed.

Lemma inv_push u conf P l bottom R y :
  bounded_inv u conf P l → source_of R = Some y → chain_of R = chain_of (goal P) →
  conf (chain_of R) < height_of R <= height_of (goal P) →
  no_receive (chain_of R) (conf (chain_of R)) (height_of R - 1) →
  stored bottom → chain_of bottom = chain_of R → height_of bottom <= conf (chain_of R) + 1 →
  bounded_inv u conf (found (goal P) bottom R y :: P) l.
Proof using.
  intros [Hh HL Han Hce Hann Hre Hpa Hpath] Hs Hc Hlt Hno Hb Hbc Hbh. split; try done.
  intros d y' [[= -> ->] | Hin]%elem_of_cons; [| by apply Hpa]. split; simpl; rewrite <- ?Hc; try done; lia.
Qed.

Lemma inv_cement r fin u conf P l :
  bounded_inv u conf P l →
  ∃ u', bounded_maybe_cement max_items r fin u = Ok u' ∧ bounded_inv u' conf P l.
Proof using HC Hup.
  intros HI. unfold bounded_maybe_cement. destruct (_ && _); [| by exists u]. destruct (_ || _); [| by exists u].
  pose proof HI as [Hh HL Han Hce Hann Hre Hpa Hpath].
  destruct (bounded_cement_ok _ _ _ _ HC Hup (be_times r) u conf Hh) as (u' & -> & Hh' & _ & HL' & Ha' & _).
  exists u'. split; [done |]. split; try done; [by eapply cemented_ledger_trans | congruence].
Qed.

Lemma stack_uncemented u conf P l : bounded_inv u conf P l → (length P <= size (uncemented conf))%nat.
Proof using HC He0.
  intros HI. pose proof (path_hashes _ _ _ _ HC orig original_stored conf P) as Hnd.
  assert (Hl : length P = length (map (λ p : bounded_pair, rc_hash p.1) P)) by (by rewrite length_map).
  rewrite Hl, <- (size_list_to_set (C := gset Z)).
  - apply subseteq_size. intros k. rewrite elem_of_list_to_set. intros ([d y] & -> & Hin)%list_elem_of_fmap. simpl.
    destruct (bi_pairs _ _ _ _ _ _ _ _ _ _ _ HI d y Hin) as [Hs Ha Hhd Hab _]. apply elem_of_filter.
    rewrite <- Ha, <- Hhd. split; [done |]. apply elem_of_dom. by eapply receive_stored.
  - apply Hnd; [intros a; by eapply conf_floor | apply HI | apply HI].
Qed.

(** The goal is cemented, with nothing to receive below it. *)
Lemma inv_goal u conf P l bottom :
  bounded_inv u conf P l → conf (chain_of (goal P)) < height_of (goal P) →
  no_receive (chain_of (goal P)) (conf (chain_of (goal P))) (height_of (goal P)) →
  stored bottom → chain_of bottom = chain_of (goal P) → height_of bottom <= conf (chain_of (goal P)) + 1 →
  ∃ l', bounded_inv (prepared (goal P) (height_of bottom) bottom u)
    (update conf (chain_of (goal P)) (height_of (goal P))) P l'.
Proof using HC He0.
  intros HI Hlt Hno Hb Hbc Hbh. eexists. eapply (raise _ _ _ _ HC); try done.
  - by eapply goal_stored, HI; apply original_stored.
  - intros j y Hs Hjc Hjh. rewrite (Hno j) in Hs; [done | by eapply receive_stored | done | done].
  - by eapply (goal_reach _ _ _ _ HC), HI; apply original_stored.
  - intros d y Hd. eapply (path_rank _ _ _ _ HC); [apply original_stored | done | done].
Qed.

(** The receive that waits for the cemented goal is cemented, and the walk goes on
    above it. *)
Lemma inv_receive u conf d y P l :
  bounded_inv u conf ((d, y) :: P) l → height_of y <= conf (chain_of y) →
  ∃ next l', prepare_pair d [] u =
      (next, [], prepared (rc_hash d) (rc_bottom_height d) (rc_bottom_most d) u) ∧
    bounded_inv (prepared (rc_hash d) (rc_bottom_height d) (rc_bottom_most d) u)
      (update conf (chain_of (rc_hash d)) (height_of (rc_hash d))) P l' ∧
    next_ok (update conf (chain_of (rc_hash d)) (height_of (rc_hash d))) P next.
Proof using HC He0 Hup.
  intros HI Hy. destruct (bi_pairs _ _ _ _ _ _ _ _ _ _ _ HI d y (list_elem_of_here _ _))
    as [Hs Ha Hhd Hab Hb Hbc Hbh Hbl Hno Hn Htc Hth].
  pose proof (bi_path _ _ _ _ _ _ _ _ _ _ _ HI) as [Htop _].
  pose proof (inv_tail _ _ _ _ _ HI) as HI1. pose proof original_stored as Ho.
  assert (HsR : stored (rc_hash d)) by (by eapply receive_stored).
  assert (Hgs : stored (goal P)) by (by eapply goal_stored, HI1).
  rewrite Ha, Hhd in *. set (R := rc_hash d) in *. rewrite Htop in Htc, Hth.
  assert (Hrk : (rank R <= rank (goal P))%nat).
  { apply (walk_rank _ _ _ _ HC); [done | done | done |]. rewrite Htc.
    pose proof (conf_floor _ _ _ _ _ _ _ _ _ _ _ HI (chain_of R)). lia. }
  pose proof (height_pos _ _ _ _ HC R HsR). pose proof (height_pos _ _ _ _ HC _ Hgs).
  exists ((λ k, TopAndNextHash (rc_top_level d) (Some k) (wrap64 (height_of R + 1))) <$> rc_next d). eexists.
  split_and!.
  - unfold prepare_pair. rewrite Ha, Hhd. fold R. by destruct (rc_next d).
  - rewrite Hbh. eapply (raise _ _ _ _ HC); try done; [| | |].
    + intros j z Hj Hjc Hjh. destruct (Z.eq_dec (height_of j) (height_of R)) as [He | Hne].
      * assert (j = R) as -> by (apply (ch_unique _ _ _ _ HC); [by eapply receive_stored | done..]). congruence.
      * rewrite (Hno j) in Hj; [done | by eapply receive_stored | done | lia].
    + eapply (path_rank _ _ _ _ HC); [done | exact HI | apply list_elem_of_here].
    + intros d' y' Hd'. destruct (path_rank _ _ _ _ HC _ _ _ _ Ho _ _ _ _ HI1 d' y' Hd') as [_ Hlt]. fold R. lia.
    + lia.
  - destruct (rc_next d) as [k |] eqn:Hnk; [| done]. split; [done |].
    intros Hlt. destruct (go_up _ _ _ _ HC Hup R (goal P)) as (Hks & Hkc & Hkh); [done.. | |].
    { pose proof (conf_floor _ _ _ _ _ _ _ _ _ _ _ HI (chain_of R)). rewrite Htc in *. rewrite update_eq in Hlt. lia. }
    assert (k = successor_of R) as -> by (destruct (_ && _); [by injection Hn | done]).
    exists (successor_of R). rewrite Htc, update_eq in *. simpl. rewrite wrap64_small by (unfold is_u64; lia).
    split_and!; done || lia.
Qed.

(** ** Parts of a round *)

Lemma goal_of_stored u conf P l : bounded_inv u conf P l → stored (goal P).
Proof using He0. intros HI. by eapply goal_stored, HI; apply original_stored. Qed.

(** The receive that waits for the goal, when the walk was not sent there from below. *)
Definition waiting (next : option top_and_next_hash) (P : list bounded_pair) : option receive_chain_details :=
  match next, P with None, (d, _) :: _ => Some d | _, _ => None end.

Lemma get_next_ok conf next P :
  next_ok conf P next →
  ∃ htp, get_next_block next [] P orig = (htp, waiting next P) ∧ tn_top htp = goal P ∧
    ∀ n, next = Some n → htp = n.
Proof using.
  unfold get_next_block, waiting. destruct next as [n |]; simpl.
  - intros [Ht _]. exists n. split_and!; [done | done | by intros ? [= ->]].
  - intros _. destruct P as [| [d y] P]; eexists; by split_and!.
Qed.

(** The chain of the goal is taken up right above its known height. *)
Lemma chain_bottom_ok u conf P l next htp b :
  bounded_inv u conf P l → next_ok conf P next → tn_top htp = goal P → (∀ n, next = Some n → htp = n) →
  st_blocks s !! goal P = Some b → conf (chain_of (goal P)) < height_of (goal P) →
  ∃ k, chain_bottom (lg_store (bd_ledger u)) next htp b (chain_of (goal P)) (known_info u (chain_of (goal P))) =
      Ok (k, height_of k) ∧
    stored k ∧ chain_of k = chain_of (goal P) ∧ height_of k = conf (chain_of (goal P)) + 1.
Proof using HC Hup He0.
  intros HI Hn Htop Hnx Hb Hlt. pose proof (goal_of_stored _ _ _ _ HI) as Hx. set (x := goal P) in *.
  pose proof (bi_heights _ _ _ _ _ _ _ _ _ _ _ HI) as [Hbl Hac Hcf Hfr _ _ Hfl _].
  assert (Hh : sb_height b.2 = height_of x) by (unfold Chains.height_of; by rewrite Hb).
  assert (Hp : previous b.1 = previous_of x) by (unfold Chains.previous_of; by rewrite Hb).
  pose proof (height_pos _ _ _ _ HC x Hx) as Hpos. pose proof (ch_floor _ _ _ _ HC (chain_of x)) as Hf0.
  specialize (Hfl (chain_of x)). specialize (Hcf (chain_of x)). specialize (Hfr (chain_of x)).
  unfold chain_bottom. rewrite Htop, Hh, Hp, Hcf. rewrite (proj2 (Z.ltb_lt _ _)) by lia. cbn [andb].
  destruct (Z.ltb_spec 1 (height_of x - conf (chain_of x))) as [H1 | H1].
  2:{ exists x. split_and!; [done.. | lia]. }
  destruct (Z.eqb_spec (height_of x - conf (chain_of x)) 2) as [H2 | H2].
  { destruct (above_floor _ _ _ _ HC x Hx) as (Hps & Hpc & Hph & _); [lia |].
    exists (previous_of x). split_and!; [by rewrite Hph | done | done | lia]. }
  destruct next as [n |].
  - destruct Hn as [_ Hn]. destruct (Hn Hlt) as (k & Hk & Hks & Hkc & Hkh & Hnh). rewrite (Hnx n) by done.
    rewrite Hk. exists k. cbn [of_option mbind outcome_bind]. rewrite Hnh. done.
  - unfold get_least_unconfirmed_hash_from_top_level. rewrite Hcf.
    destruct (Z.eqb_spec (conf (chain_of x)) 0) as [Hz | Hz]; cbn [negb].
    + destruct (block_at _ _ _ _ HC x 1) as (k & Hk & Hkc & Hkh); [done | lia |].
      destruct (up_open _ Hup k Hk Hkh) as (i & Hi & Ho). unfold account_get. rewrite Hac, <- Hkc, Hi.
      cbn [of_option mbind outcome_bind]. exists k. rewrite Ho, Hkh. split_and!; [done | done | done | rewrite Hkc; lia].
    + rewrite (proj2 (Z.ltb_lt _ _)) by lia. destruct Hfr as (Hfs & Hfc & Hfh); [lia |].
      destruct (go_up _ _ _ _ HC Hup (ch_frontier (known_info u (chain_of x))) x Hfs Hx Hfc) as (Hks & Hkc & Hkh); [lia |].
      exists (successor_of (ch_frontier (known_info u (chain_of x)))). rewrite Hkh.
      split_and!; [| done | done | lia].
      destruct Hfs as [e He]. unfold block_get. rewrite Hbl, He. cbn [of_option mbind outcome_bind].
      assert (height_of (ch_frontier (known_info u (chain_of x))) = sb_height e.2) as Hhe
        by (unfold Chains.height_of; by rewrite He).
      rewrite Hhe, wrap64_small by (unfold is_u64; lia). unfold BoundedWrites.successor_of. by rewrite He.
Qed.

(** Progress: blocks to cement, and whether a place to go on is remembered. *)
Definition remaining_work (conf : Z → Z) (next : option top_and_next_hash) : nat :=
  (3 * size (uncemented conf) + match next with Some _ => 1 | None => 0 end)%nat.

Definition popped (next : option top_and_next_hash) (P : list bounded_pair) : list bounded_pair :=
  match next with Some _ => P | None => tail P end.

(** The goal is cemented and so is what waited for it. *)
Lemma round_receive u conf P l next :
  bounded_inv u conf P l → height_of (goal P) <= conf (chain_of (goal P)) →
  ∃ nx u' conf' l',
    match waiting next P with Some d => prepare_pair d [] u | None => (None, [], u) end = (nx, [], u') ∧
    bounded_inv u' conf' (popped next P) l' ∧ next_ok conf' (popped next P) nx ∧
    (∀ a, conf a <= conf' a) ∧
    (remaining_work conf' nx + length P <= remaining_work conf None + length (popped next P))%nat ∧
    (next = None → P ≠ [] → (remaining_work conf' nx + length P < remaining_work conf None + length (popped next P))%nat).
Proof using HC Hup He0.
  intros HI Hx. unfold waiting, popped, remaining_work. destruct next as [n |]; [| destruct P as [| [d y] P]].
  - exists None, u, conf, l. split_and!; [done | done | done | lia | lia | done].
  - exists None, u, conf, l. split_and!; [done | done | done | lia | simpl; lia | done].
  - destruct (inv_receive u conf d y P l HI Hx) as (nx & l' & Hp & HI' & Hn). eexists nx, _, _, l'.
    destruct (bi_pairs _ _ _ _ _ _ _ _ _ _ _ HI d y (list_elem_of_here _ _)) as [Hs Ha Hhd Hab _].
    rewrite Ha, Hhd in Hab.
    pose proof (uncemented_raise conf (rc_hash d) ltac:(by eapply receive_stored) Hab) as Hw.
    split_and!; [exact Hp | exact HI' | exact Hn | | |].
    + intros a. unfold update. case_decide; [subst; lia | lia].
    + simpl. destruct nx; lia.
    + intros _ _. simpl. destruct nx; lia.
Qed.

(** No path of dependencies from the original passes [max_items] receives. *)
Context (depth : Z → nat) (Hdep : ∀ k y, depends k y → (depth y <= depth k)%nat).
Context (Hrec : ∀ k y, source_of k = Some y → (depth y < depth k)%nat) (Hmax : (depth orig < max_items)%nat).

(** The stack stays below the size of the buffers. *)
Lemma stack_small u conf P l : bounded_inv u conf P l → (length P < max_items)%nat.
Proof using HC Hdep Hrec Hmax He0.
  intros HI. destruct (path_descends _ _ _ _ HC orig original_stored depth conf P) as [Hlen _]; [| done | done | apply HI | apply HI |].
  - intros a. by eapply conf_floor.
  - lia.
Qed.


(** ** The round *)

Record bounded_vars_inv (v : bounded_vars) (conf : Z → Z) (P : list bounded_pair) (l : list Z) : Prop := {
  vi_inv : bounded_inv (bv_proc v) conf P l;
  vi_pairs : bv_receive_source_pairs v = P;
  vi_checkpoints : bv_checkpoints v = [];
  vi_next : next_ok conf P (bv_next_in_receive_chain v);
  vi_first : bv_first_iter v = true → P = [];
}.

(** How a round ends: closer to the end of the loop, or there. *)
Definition round_done (r : bounded_env) (conf : Z → Z) (next : option top_and_next_hash) (P : list bounded_pair)
    (res : run_result (bounded_vars * bool)) : Prop :=
  ∃ v' (more : bool) conf' P' l', res = Done (v', more) ∧ bounded_inv (bv_proc v') conf' P' l' ∧
    (re_stopped_at_end (be_round r) = true → more = false) ∧
    (re_stopped_at_end (be_round r) = false →
      if more then bounded_vars_inv v' conf' P' l' ∧
        (remaining_work conf' (bv_next_in_receive_chain v') + length P < remaining_work conf next + length P')%nat
      else P' = [] ∧ height_of orig <= conf' (chain_of orig)).

Lemma finish_round r conf next P u' nx conf' P' l' current :
  bounded_inv u' conf' P' l' → next_ok conf' P' nx →
  (P' = [] → current = orig → height_of orig <= conf' (chain_of orig)) →
  (P' ≠ [] ∨ current ≠ orig → (remaining_work conf' nx + length P < remaining_work conf next + length P')%nat) →
  round_done r conf next P
    (Done (BoundedVars u' nx [] P' current false,
      (negb (bool_decide (P' = [])) || negb (current =? orig)) && negb (re_stopped_at_end (be_round r)))).
Proof using.
  intros HI Hn Hend Hmore. eexists _, _, conf', P', l'. split; [done |]. split; [done |].
  destruct (re_stopped_at_end (be_round r)); [by rewrite andb_false_r |]. split; [done |]. intros _.
  rewrite andb_true_r. case_bool_decide as HP; [destruct (Z.eqb_spec current orig) as [Hc | Hc] |]; simpl.
  - auto.
  - split; [by split | auto].
  - split; [by split | auto].
Qed.

Lemma found_small x bottom R y tm st u conf l :
  bounded_inv u conf (found x bottom R y :: it_receive_source_pairs st) l →
  found_state x bottom R y tm st =
  IterateState (it_checkpoints st) (found x bottom R y :: it_receive_source_pairs st) tm true.
Proof using HC Hdep Hrec Hmax He0.
  intros HI. pose proof (stack_small _ _ _ _ HI) as Hs. unfold found_state, push_back.
  rewrite take_ge by (simpl in *; lia). rewrite Nat.mod_small by done. simpl. done.
Qed.

(** The part of a round after the walk. *)
Definition round_rest (r : bounded_env) (next : option top_and_next_hash) (already : bool)
    (confirmation_height account_a block_height current : Z) (rd : option receive_chain_details) (st : iterate_state)
    (u : bounded) : run_result (bounded_vars * bool) :=
  let pairs := it_receive_source_pairs st in
  let top_most := it_top_most_non_receive_block_hash st in
  '(nx, checkpoints, pairs, u) ← lift
    (if negb (it_hit_receive st) || bool_decide (length pairs = 1%nat) && negb (top_most =? current) then
       '(nx, checkpoints, u) ← bounded_prepare top_most already confirmation_height account_a
         block_height current rd (it_checkpoints st) u;
       let pairs := match next with Some _ => pairs | None => tail pairs end in
       u ← bounded_maybe_cement max_items r (current =? orig) u;
       Ok (nx, checkpoints, pairs, u)
     else Ok (None, it_checkpoints st, pairs, u));
  Done (BoundedVars u nx checkpoints pairs current false,
    (negb (bool_decide (pairs = [])) || negb (current =? orig)) && negb (re_stopped_at_end (be_round r))).

(** The goal was cemented before, or the walk reached it without a receive. *)
Lemma rest_goal r u conf P l next already top_most current :
  bounded_inv u conf P l → next_ok conf P next →
  (already = true ∧ height_of (goal P) <= conf (chain_of (goal P)) ∧ current = goal P ∨
   already = false ∧ conf (chain_of (goal P)) < height_of (goal P) ∧ top_most = goal P ∧
   no_receive (chain_of (goal P)) (conf (chain_of (goal P))) (height_of (goal P)) ∧
   stored current ∧ chain_of current = chain_of (goal P) ∧ height_of current = conf (chain_of (goal P)) + 1) →
  round_done r conf next P
    (round_rest r next already (conf (chain_of (goal P))) (chain_of (goal P)) (height_of current) current
       (waiting next P) (IterateState [] P top_most false) u).
Proof using HC Hup He0.
  clear Hmax.
  intros HI Hn Hcase. set (x := goal P) in *. pose proof (goal_of_stored _ _ _ _ HI) as Hx. fold x in Hx.
  (* the goal *)
  assert (∃ u1 conf1 l1, (if already then Ok ([], u) else prepare_chain top_most (conf (chain_of x)) (chain_of x)
      (height_of current) current [] u) = Ok ([], u1) ∧ bounded_inv u1 conf1 P l1 ∧
      height_of x <= conf1 (chain_of x) ∧ chain_of current = chain_of x ∧ height_of current <= height_of x ∧
      (size (uncemented conf1) <= size (uncemented conf))%nat ∧
      (already = false → (size (uncemented conf1) < size (uncemented conf))%nat))
    as (u1 & conf1 & l1 & Hprep & HI1 & Hx1 & Hcc & Hch & Hw1 & Hw2).
  { destruct Hcase as [(-> & Hle & ->) | (-> & Hlt & -> & Hno & Hcs & Hcc & Hch)].
    - exists u, conf, l. split_and!; [done | done | done | done | lia | lia | done].
    - destruct (inv_goal u conf P l current HI Hlt Hno Hcs Hcc) as (l1 & HI1); [fold x; lia |]. fold x in HI1.
      pose proof (uncemented_raise conf x Hx Hlt) as Hw.
      eexists _, _, l1. split; [| split; [exact HI1 |]].
      + unfold prepare_chain, account_height, block_get.
        rewrite (ho_blocks _ _ _ _ (bi_heights _ _ _ _ _ _ _ _ _ _ _ HI)).
        assert (Hh : ∀ e, st_blocks s !! x = Some e → sb_height e.2 = height_of x)
          by (intros e He; unfold Chains.height_of; by rewrite He).
        destruct Hx as [e He]. rewrite He. cbn [of_option mbind outcome_bind]. rewrite (Hh e He).
        by rewrite (proj2 (Z.ltb_lt _ _)) by lia.
      + rewrite update_eq. split_and!; [lia | done | lia | lia | intros _; lia]. }
  destruct (round_receive u1 conf1 P l1 next HI1 Hx1) as (nx & u2 & conf2 & l2 & Hrec2 & HI2 & Hn2 & Hge & Hm & Hm').
  unfold round_rest. cbn [it_hit_receive it_receive_source_pairs it_top_most_non_receive_block_hash it_checkpoints negb orb].
  unfold bounded_prepare. rewrite Hprep. cbn [mbind outcome_bind]. rewrite Hrec2.
  destruct (inv_cement r (current =? orig) u2 conf2 (popped next P) l2 HI2) as (u3 & Hu3 & HI3). rewrite Hu3.
  cbn [mbind outcome_bind lift run_bind]. change (match next with Some _ => P | None => tail P end) with (popped next P).
  eapply finish_round; [exact HI3 | exact Hn2 | |].
  - intros _ Hco. rewrite Hco in Hcc, Hch. specialize (Hge (chain_of x)). rewrite Hcc. lia.
  - intros Hmore. unfold remaining_work in *. destruct next as [n |]; simpl in Hm, Hm' |- *; [destruct nx; lia |].
    destruct already; [| specialize (Hw2 eq_refl); destruct nx; lia].
    assert (HP : P ≠ []).
    { intros HP. destruct Hcase as [(_ & _ & Hcur) | (? & _)]; [| done]. subst P. destruct Hmore; [done |].
      rewrite Hcur in *. done. }
    specialize (Hm' eq_refl HP). destruct nx; lia.
Qed.

(** The walk found a receive. *)
Lemma rest_receive r u conf P l next current R y top_most st :
  bounded_inv u conf P l → source_of R = Some y → chain_of R = chain_of (goal P) →
  conf (chain_of (goal P)) < height_of R <= height_of (goal P) →
  no_receive (chain_of (goal P)) (conf (chain_of (goal P))) (height_of R - 1) →
  stored current → chain_of current = chain_of (goal P) → height_of current = conf (chain_of (goal P)) + 1 →
  (R = current ∧ top_most = current ∨ stored top_most ∧ chain_of top_most = chain_of (goal P) ∧
    height_of top_most = height_of R - 1 ∧ height_of current <= height_of top_most) →
  it_receive_source_pairs st = P → it_checkpoints st = [] →
  round_done r conf next P
    (round_rest r next false (conf (chain_of (goal P))) (chain_of (goal P)) (height_of current) current
       (waiting next P) (found_state (goal P) current R y top_most st) u).
Proof using HC Hup Hdep Hrec Hmax He0.
  intros HI Hs HRc HRh Hno Hcs Hcc Hch Htm HP Hcp. set (x := goal P) in *.
  assert (HIp : bounded_inv u conf (found x current R y :: P) l).
  { apply inv_push; rewrite ?HRc; fold x; try done; lia. }
  rewrite (found_small x current R y top_most st u conf l) by (by rewrite HP). rewrite HP, Hcp.
  unfold round_rest. cbn [it_hit_receive it_receive_source_pairs it_top_most_non_receive_block_hash it_checkpoints negb orb].
  destruct (bool_decide _ && _) eqn:Hprep.
  2:{ cbn [lift mbind run_bind]. eapply finish_round; [exact HIp | done | done |].
      intros _. unfold remaining_work. simpl. destruct next; lia. }
  apply andb_true_iff in Hprep as [Hlen Hne]. apply bool_decide_eq_true in Hlen. apply negb_true_iff, Z.eqb_neq in Hne.
  subst x. destruct P as [| p P]; [| simpl in Hlen; lia]. cbn [bounded_goal] in *.
  destruct Htm as [[_ ?] | (Hts & Htc & Hth & Hle)]; [done |].
  assert (Hlt : height_of current < height_of top_most).
  { assert (height_of current ≠ height_of top_most); [| lia]. intros He. apply Hne.
    apply (ch_unique _ _ _ _ HC); congruence. }
  (* the blocks below the receive *)
  assert (∃ l', bounded_inv (prepared top_most (height_of current) current u)
    (update conf (chain_of top_most) (height_of top_most)) [] l') as [l' HI1].
  { eexists. apply (raise _ _ _ _ HC _ _ _ _ _ _ _ _ _ _ HI); rewrite ?Htc; try done; [lia | | | | lia].
    - intros j z Hj Hjc Hjh. rewrite (Hno j) in Hj; [done | by eapply receive_stored | done | lia].
    - apply (walk_rtc _ _ _ _ HC); [apply original_stored | done | done |].
      pose proof (conf_floor _ _ _ _ _ _ _ _ _ _ _ HI (chain_of orig)). lia.
    - by intros d z ?%elem_of_nil. }
  pose proof (uncemented_raise conf top_most Hts) as Hw. rewrite Htc in *. specialize (Hw ltac:(lia)).
  set (u1 := prepared _ _ _ u) in *. set (conf1 := update conf _ _) in *.
  assert (HI2 : bounded_inv u1 conf1 (popped next [found orig current R y]) l').
  { destruct next; [| done]. simpl. change orig with (goal []) at 2. apply inv_push; simpl; rewrite ?HRc; try done.
    - unfold conf1. rewrite update_eq. lia.
    - intros j Hj Hjc Hjh. unfold conf1 in Hjh. rewrite update_eq in Hjh. lia.
    - unfold conf1. rewrite update_eq. lia. }
  assert (Hwait : waiting next [] = None) by (by destruct next).
  unfold bounded_prepare, prepare_chain, account_height, block_get.
  rewrite (ho_blocks _ _ _ _ (bi_heights _ _ _ _ _ _ _ _ _ _ _ HI)), Hwait.
  assert (Hh : ∀ e, st_blocks s !! top_most = Some e → sb_height e.2 = height_of top_most)
    by (intros e He; unfold Chains.height_of; by rewrite He).
  pose proof Hts as [e He]. rewrite He. cbn [of_option mbind outcome_bind]. rewrite (Hh e He).
  rewrite (proj2 (Z.ltb_lt _ _)) by lia. cbn [erase_checkpoint filter list_filter mbind outcome_bind].
  assert (Hu1 : bd_set_writes (λ w, w ++ [WriteDetails (chain_of orig) (height_of current) current (height_of top_most) top_most])
    (bd_set_info <[chain_of orig := ConfirmedInfo (height_of top_most) top_most]> u) = u1)
    by (unfold u1, BoundedInvariant.prepared; by rewrite Htc).
  rewrite Hu1. destruct (inv_cement r (current =? orig) u1 conf1 _ l' HI2) as (u3 & -> & HI3).
  cbn [mbind outcome_bind lift run_bind].
  change (match next with Some _ => _ | None => _ end) with (popped next [found orig current R y]).
  eapply finish_round; [exact HI3 | done | |].
  - intros _ ->. lia.
  - intros _. unfold remaining_work. simpl. destruct next; simpl; lia.
Qed.
End loop.
End round.
