(* ===== verification/BoundedTheorems.v ===== *)
(** * Cementing with the bounded processor

    Processing a block with the bounded processor ends and cements exactly the
    block's dependencies, as the unbounded processor does: the two give the same
    table.  The walk upwards follows the successors of the sidebands, so unlike
    the other one it relies on them. *)

From S2P Require Import Prelude Blocks BlockCodec Common RepWeights EpochsWork Store Ledger Rollback.
From S2P Require Import LedgerInvariant ConfirmationHeight Chains CementWalk CementInvariant CementTheorems.
From S2P Require Import ConfirmationBounded BoundedWrites BoundedInvariant BoundedRound.

(** No round sees the stop flag. *)
Definition bounded_never_stopped (rounds : nat → bounded_env) : Prop := never_stopped (λ n, be_round (rounds n)).

Section theorems.
Context `{Crypto} (constants : ledger_constants) (max_items : nat) (s : store).
Context (floor : Z → Z) (rank : Z → nat) (HC : chains constants s floor rank) (Hup : upward s).

Abbreviation stored := (stored s).
Abbreviation chain_of := (chain_of s).
Abbreviation height_of := (height_of s).
Abbreviation source_of := (source_of constants s).
Abbreviation depends := (depends constants s).
Abbreviation heights_ok := (heights_ok s floor).
Abbreviation bounded_announced := (bounded_announced s).
Abbreviation bounded_process := (bounded_process constants max_items).
Abbreviation blocks_of l := (map (λ k, st_blocks s !! k) l).

(** No path of dependencies from a block passes as many receives as the buffers hold:
    [depth] counts the receives below. *)
Record shallow (depth : Z → nat) (orig : Z) : Prop := {
  sh_depends : ∀ k y, depends k y → (depth y <= depth k)%nat;
  sh_receive : ∀ k y, source_of k = Some y → (depth y < depth k)%nat;
  sh_bound : (depth orig < max_items)%nat;
}.

Section run.
Context (orig : Z) (conf0 : Z → Z) (L0 : ledger) (announced0 : list (option block_w_sideband)).
Context (e0 : block_w_sideband) (He0 : st_blocks s !! orig = Some e0).
Context (depth : Z → nat) (Hsh : shallow depth orig).
Context (walk_fuel : nat) (Hwf : (size (st_blocks s) <= walk_fuel)%nat).

Abbreviation bounded_inv := (bounded_inv constants s floor orig conf0 L0 announced0).
Abbreviation bounded_vars_inv := (bounded_vars_inv constants s floor orig conf0 L0 announced0).
Abbreviation round_done := (round_done constants s floor orig conf0 L0 announced0).
Abbreviation goal := (bounded_goal orig).
Abbreviation remaining_work := (remaining_work s).

Lemma original_hash : block_hash e0.1 = orig.
Proof using HC He0. by apply (ch_key _ _ _ _ HC orig e0). Qed.

(** What a round reads of the goal. *)
Lemma round_block v conf P l :
  bounded_vars_inv v conf P l →
  ∃ b, (if bv_first_iter v then Some e0 else block_get (lg_store (bd_ledger (bv_proc v))) (goal P)) = Some b ∧
    st_blocks s !! goal P = Some b ∧ account_calculated b = chain_of (goal P) ∧ sb_height b.2 = height_of (goal P).
Proof using He0.
  intros [HI _ _ _ Hfirst]. destruct (goal_of_stored _ _ _ _ _ _ _ _ He0 _ _ _ _ HI) as [b Hb]. exists b.
  unfold Chains.chain_of, Chains.height_of. rewrite Hb. split_and!; try done.
  destruct (bv_first_iter v); [| unfold block_get; by rewrite (ho_blocks _ _ _ _ (bi_heights _ _ _ _ _ _ _ _ _ _ _ HI))].
  rewrite Hfirst in Hb by done. simpl in Hb. congruence.
Qed.

(** The walk of a round whose goal is not cemented. *)
Lemma round_walk u conf P l k :
  bounded_inv u conf P l → conf (chain_of (goal P)) < height_of (goal P) →
  stored k → chain_of k = chain_of (goal P) → height_of k = conf (chain_of (goal P)) + 1 →
  floor (chain_of (goal P)) < height_of k <= height_of (goal P) ∧
  (Z.to_nat (height_of (goal P) - height_of k) < walk_fuel)%nat.
Proof using HC He0 Hwf.
  intros HI Hlt Hk Hkc Hkh. pose proof (goal_of_stored _ _ _ _ _ _ _ _ He0 _ _ _ _ HI) as Hx.
  pose proof (conf_floor _ _ _ _ _ _ _ _ _ _ _ HI (chain_of (goal P))) as Hfl. split; [lia |].
  pose proof (span_size _ _ _ _ HC (goal P) (height_of k - 1) Hx ltac:(lia)) as Hsp.
  assert (Hlen := length_span s (goal P) (height_of k - 1) ltac:(lia)). lia.
Qed.

Lemma bounded_round_ok r v conf P l :
  re_stopped (be_round r) = false → bounded_vars_inv v conf P l →
  round_done r conf (bv_next_in_receive_chain v) P (bounded_round constants max_items walk_fuel r e0 v).
Proof using HC Hup He0 Hsh Hwf.
  intros Hst Hv. pose proof Hv as [HI HP Hcp Hnx Hfirst]. destruct Hsh as [Hd1 Hd2 Hd3].
  destruct (round_block v conf P l Hv) as (b & Hread & Hb & Hacc & Hbh).
  unfold bounded_round. rewrite original_hash, HP, Hcp, Hst.
  destruct (get_next_ok s orig conf _ P Hnx) as (htp & -> & Htop & Hhtp). rewrite Htop, Hread, Hacc, Hbh.
  rewrite (ho_conf _ _ _ _ (bi_heights _ _ _ _ _ _ _ _ _ _ _ HI)). set (x := goal P) in *.
  set (u := if _ && _ then _ else bv_proc v).
  assert (HI1 : bounded_inv u conf P l) by (unfold u; destruct (_ && _); [by apply inv_notify | done]).
  destruct (Z.leb_spec (height_of x) (conf (chain_of x))) as [Hle | Hlt].
  - unfold chain_bottom. rewrite Hbh, Htop, (ho_conf _ _ _ _ (bi_heights _ _ _ _ _ _ _ _ _ _ _ HI)).
    rewrite (proj2 (Z.ltb_ge _ _)) by lia. cbn [andb lift mbind run_bind].
    eapply (rest_goal constants max_items s floor rank HC Hup orig conf0 L0 announced0 e0 He0 r u conf P l
      (bv_next_in_receive_chain v) true x x HI1 Hnx). left. done.
  - destruct (chain_bottom_ok _ _ _ _ HC Hup _ _ _ _ _ He0 _ _ _ _ _ htp b HI Hnx Htop Hhtp Hb Hlt)
      as (k & Hcb & Hk & Hkc & Hkh). fold x in Hcb, Hkc, Hkh. rewrite Hcb. cbn [lift mbind run_bind].
    destruct (round_walk u conf P l k HI1 Hlt Hk Hkc Hkh) as [Hrange Hfuel].
    set (st := IterateState [] P k false).
    destruct (iterate_ok constants max_items s floor rank HC Hup walk_fuel (lg_store (bd_ledger (bv_proc v))) x k k st)
      as [[Hno ->] | (R & y & tm & HsR & HcR & HhR & Hno & Htm & ->)]; try done.
    { apply (ho_blocks _ _ _ _ (bi_heights _ _ _ _ _ _ _ _ _ _ _ HI)). }
    { apply (goal_of_stored _ _ _ _ _ _ _ _ He0 _ _ _ _ HI). }
    + rewrite Hkh in Hno. replace (conf (chain_of x) + 1 - 1) with (conf (chain_of x)) in Hno by lia.
      cbn [mbind run_bind].
      eapply (rest_goal constants max_items s floor rank HC Hup orig conf0 L0 announced0 e0 He0 r u conf P l
        (bv_next_in_receive_chain v) false x k HI1 Hnx). right. done.
    + rewrite Hkh in Hno. replace (conf (chain_of x) + 1 - 1) with (conf (chain_of x)) in Hno by lia.
      cbn [mbind run_bind].
      eapply (rest_receive constants max_items s floor rank HC Hup orig conf0 L0 announced0 e0 He0 depth Hd1 Hd2 Hd3
        r u conf P l (bv_next_in_receive_chain v) k R y tm st HI1); try done. fold x. lia.
Qed.

(** A round that sees the stop flag is the last. *)
Lemma bounded_round_stopped r v conf P l :
  re_stopped (be_round r) = true → bounded_vars_inv v conf P l →
  ∃ v', bounded_round constants max_items walk_fuel r e0 v = Done (v', false).
Proof using HC Hup He0 Hwf.
  intros Hst Hv. pose proof Hv as [HI HP Hcp Hnx Hfirst].
  destruct (round_block v conf P l Hv) as (b & Hread & Hb & Hacc & Hbh).
  unfold bounded_round. rewrite original_hash, HP, Hcp, Hst.
  destruct (get_next_ok s orig conf _ P Hnx) as (htp & -> & Htop & Hhtp). rewrite Htop, Hread, Hacc, Hbh.
  rewrite (ho_conf _ _ _ _ (bi_heights _ _ _ _ _ _ _ _ _ _ _ HI)). set (x := goal P) in *.
  destruct (Z.leb_spec (height_of x) (conf (chain_of x))) as [Hle | Hlt].
  - unfold chain_bottom. rewrite Hbh, Htop, (ho_conf _ _ _ _ (bi_heights _ _ _ _ _ _ _ _ _ _ _ HI)).
    rewrite (proj2 (Z.ltb_ge _ _)) by lia. by eexists.
  - destruct (chain_bottom_ok _ _ _ _ HC Hup _ _ _ _ _ He0 _ _ _ _ _ htp b HI Hnx Htop Hhtp Hb Hlt)
      as (k & Hcb & _). fold x in Hcb. rewrite Hcb. cbn [lift mbind run_bind].
    destruct walk_fuel; cbn [iterate]; rewrite orb_true_r; by eexists.
Qed.

Lemma bounded_loop_ends rounds fuel v conf P l :
  bounded_vars_inv v conf P l → (remaining_work conf (bv_next_in_receive_chain v) < fuel + length P)%nat →
  ∃ v', bounded_loop constants max_items fuel walk_fuel rounds e0 v = Done v'.
Proof using HC Hup He0 Hsh Hwf.
  revert v conf P l. induction fuel as [| fuel IH]; intros v conf P l Hv Hm.
  { pose proof (stack_uncemented _ _ _ _ HC _ _ _ _ _ He0 _ _ _ _ (vi_inv _ _ _ _ _ _ _ _ _ _ _ Hv)) as Hs.
    unfold BoundedRound.remaining_work in Hm. lia. }
  simpl. destruct (re_stopped (be_round (rounds fuel))) eqn:Hst.
  - destruct (bounded_round_stopped (rounds fuel) v conf P l Hst Hv) as (v' & ->). by eexists.
  - destruct (bounded_round_ok (rounds fuel) v conf P l Hst Hv) as (v1 & more & conf1 & P1 & l1 & -> & _ & Hend & Hres).
    cbn [mbind run_bind]. destruct (re_stopped_at_end (be_round (rounds fuel))); [rewrite Hend by done; by eexists |].
    destruct more; [| by eexists]. destruct (Hres eq_refl) as [Hv1 Hm1]. apply (IH v1 conf1 P1 l1 Hv1). lia.
Qed.

Lemma bounded_loop_ok rounds fuel v conf P l :
  bounded_never_stopped rounds → bounded_vars_inv v conf P l →
  (remaining_work conf (bv_next_in_receive_chain v) < fuel + length P)%nat →
  ∃ v' conf' l', bounded_loop constants max_items fuel walk_fuel rounds e0 v = Done v' ∧
    bounded_inv (bv_proc v') conf' [] l' ∧ height_of orig <= conf' (chain_of orig).
Proof using HC Hup He0 Hsh Hwf.
  intros Hst. revert v conf P l. induction fuel as [| fuel IH]; intros v conf P l Hv Hm.
  { pose proof (stack_uncemented _ _ _ _ HC _ _ _ _ _ He0 _ _ _ _ (vi_inv _ _ _ _ _ _ _ _ _ _ _ Hv)) as Hs.
    unfold BoundedRound.remaining_work in Hm. lia. }
  simpl. destruct (Hst fuel) as [Hst1 Hst2].
  destruct (bounded_round_ok (rounds fuel) v conf P l Hst1 Hv) as (v1 & more & conf1 & P1 & l1 & -> & HI1 & _ & Hres).
  cbn [mbind run_bind]. destruct more.
  - destruct (Hres Hst2) as [Hv1 Hm1]. apply (IH v1 conf1 P1 l1 Hv1). lia.
  - destruct (Hres Hst2) as [-> Ho]. by exists v1, conf1, l1.
Qed.
End run.

(** ** Between two blocks *)

(** The processor between two calls of [process]. *)
Record bounded_settled (u : bounded) (conf : Z → Z) : Prop := {
  bs_heights : heights_ok u conf;
  bs_closed : ∀ k y, depends k y → height_of k <= conf (chain_of k) → height_of y <= conf (chain_of y);
}.

Lemma bounded_start u conf orig :
  bounded_settled u conf →
  bounded_inv constants s floor orig conf (bd_ledger u) (bounded_announced u) u conf [] [].
Proof using.
  intros [Hh Hcl]. split; [done | apply cemented_ledger_refl | constructor | | by rewrite app_nil_r | | | done].
  - intros k Hk. split; [by left |]. by intros [? | ?%elem_of_nil].
  - by intros k ?%elem_of_nil.
  - by intros d y ?%elem_of_nil.
Qed.

Lemma bounded_settled_clear u conf :
  bounded_settled u conf → bounded_pending_empty u = true → bounded_settled (bounded_clear_process_vars u) conf.
Proof using.
  intros [[Hb Ha Hc Hf Ht He Hfl Hw] Hcl] Hp%bool_decide_eq_true. rewrite Hp in Hw. simpl in Hw.
  assert (Hk : ∀ a, known_info (bounded_clear_process_vars u) a = confirmation_height_get (lg_store (bd_ledger u)) a) by done.
  split; [| done]. split; [done | done | | | done | done | done |].
  - intros a. by rewrite Hk, <- Hw.
  - intros a. rewrite Hk. apply Ht.
  - simpl. by rewrite Hp.
Qed.

Lemma uncemented_bound conf : (size (uncemented s conf) <= size (st_blocks s))%nat.
Proof using.
  unfold uncemented. rewrite <- (size_dom (D := gset Z)). apply subseteq_size. intros k. rewrite elem_of_filter. tauto.
Qed.

Lemma bounded_start_vars u conf orig e0 :
  st_blocks s !! orig = Some e0 → bounded_settled u conf →
  let u1 := if bounded_pending_empty u then bounded_clear_process_vars u else u in
  bounded_settled u1 conf ∧ bounded_announced u1 = bounded_announced u ∧ bd_ledger u1 = bd_ledger u ∧
  bounded_vars_inv constants s floor orig conf (bd_ledger u1) (bounded_announced u1)
    (BoundedVars u1 None [] [] (block_hash e0.1) true) conf [] [] ∧
  (remaining_work s conf None <= 3 * size (st_blocks s))%nat.
Proof using.
  intros He0 Hu u1.
  assert (Hu1 : bounded_settled u1 conf)
    by (unfold u1; destruct (bounded_pending_empty u) eqn:Hp; [by apply bounded_settled_clear | done]).
  split_and!; [done | unfold u1; by destruct (bounded_pending_empty u) | unfold u1; by destruct (bounded_pending_empty u) | |].
  - split; try done. by apply bounded_start.
  - unfold remaining_work. pose proof (uncemented_bound conf). lia.
Qed.

Lemma bounded_process_cements u conf orig e0 depth rounds fuel walk_fuel :
  bounded_settled u conf → st_blocks s !! orig = Some e0 → shallow depth orig → bounded_never_stopped rounds →
  (3 * size (st_blocks s) < fuel)%nat → (size (st_blocks s) <= walk_fuel)%nat →
  ∃ u' conf' l, bounded_process fuel walk_fuel rounds e0 u = Done u' ∧ bounded_settled u' conf' ∧
    cemented_ledger s (bd_ledger u) (bd_ledger u') ∧
    (∀ k, stored k → height_of k <= conf' (chain_of k) ↔ height_of k <= conf (chain_of k) ∨ rtc depends orig k) ∧
    bounded_announced u' = bounded_announced u ++ blocks_of l ∧
    announces constants s (λ k, height_of k <= conf (chain_of k)) l ∧
    (∀ k, k ∈ l ↔ stored k ∧ ¬ height_of k <= conf (chain_of k) ∧ rtc depends orig k).
Proof using HC Hup.
  intros Hu He0 Hsh Hst Hfuel Hwf. destruct (bounded_start_vars u conf orig e0 He0 Hu) as (Hu1 & Han & Hl & Hv & Hm).
  unfold ConfirmationBounded.bounded_process. set (u1 := if bounded_pending_empty u then _ else _) in *.
  destruct (bounded_loop_ok orig conf (bd_ledger u1) (bounded_announced u1) e0 He0 depth Hsh walk_fuel Hwf rounds fuel _ conf [] [] Hst Hv)
    as (v' & conf' & l & -> & HI & Ho); [simpl; lia |]. cbn [mbind run_bind].
  assert (Hs : stored orig) by (by exists e0).
  destruct (closure_exact constants s orig conf Hs (bs_closed _ _ Hu1) conf' l) as (Hcl & Hex & Hel);
    [apply HI | apply HI | apply HI | done |].
  exists (bv_proc v'), conf', l. rewrite <- Han, <- Hl.
  split_and!; [done | split; [apply HI | done] | apply HI | done | apply HI | apply HI | done].
Qed.

Lemma bounded_settled_cement times u conf :
  bounded_settled u conf →
  ∃ u', bounded_cement_blocks times u = Ok u' ∧ bounded_settled u' conf ∧ bd_pending_writes u' = [] ∧
    (∀ a, table_height (bd_ledger u') a = conf a) ∧ cemented_ledger s (bd_ledger u) (bd_ledger u') ∧
    bounded_announced u' = bounded_announced u.
Proof using HC Hup.
  intros [Hh Hcl]. destruct (bounded_cement_ok _ _ _ _ HC Hup times u conf Hh) as (u' & -> & Hh' & Hp & HL & Ha & Ht & _).
  exists u'. by split_and!.
Qed.

Definition bounded_notified (u : bounded) : list (option block_w_sideband) := concat (map event_blocks (bd_events u)).

Lemma bounded_announced_notified u : bd_pending_writes u = [] → bounded_announced u = bounded_notified u.
Proof using. intros Hp. unfold BoundedWrites.bounded_announced, bounded_notified. rewrite Hp. apply app_nil_r. Qed.

(** Whatever the stop flag, the timers, the queue and the writer lock answer, the
    processor ends within three rounds per stored block and one more. *)
Theorem bounded_terminates u conf orig e0 depth rounds fuel walk_fuel :
  bounded_settled u conf → st_blocks s !! orig = Some e0 → shallow depth orig →
  (3 * size (st_blocks s) < fuel)%nat → (size (st_blocks s) <= walk_fuel)%nat →
  ∃ u', bounded_process fuel walk_fuel rounds e0 u = Done u'.
Proof using HC Hup.
  intros Hu He0 Hsh Hfuel Hwf. destruct (bounded_start_vars u conf orig e0 He0 Hu) as (_ & _ & _ & Hv & Hm).
  unfold ConfirmationBounded.bounded_process.
  destruct (bounded_loop_ends orig _ _ _ e0 He0 depth Hsh walk_fuel Hwf rounds fuel _ _ _ _ Hv) as (v' & ->); [simpl; lia |].
  by eexists.
Qed.

(** The observers are told of exactly the newly cemented blocks, each once and after
    the blocks it depends on, however the writes are split into batches. *)
Theorem bounded_told_in_order u conf orig e0 depth rounds times fuel walk_fuel :
  bounded_settled u conf → bd_pending_writes u = [] → st_blocks s !! orig = Some e0 → shallow depth orig →
  bounded_never_stopped rounds → (3 * size (st_blocks s) < fuel)%nat → (size (st_blocks s) <= walk_fuel)%nat →
  ∃ u1 u2 l, bounded_process fuel walk_fuel rounds e0 u = Done u1 ∧ bounded_cement_blocks times u1 = Ok u2 ∧
    bounded_notified u2 = bounded_notified u ++ blocks_of l ∧ NoDup l ∧
    (∀ k, k ∈ l ↔ stored k ∧ ¬ height_of k <= conf (chain_of k) ∧ rtc depends orig k) ∧
    (∀ l1 k l2 y, l = l1 ++ k :: l2 → depends k y → height_of y <= conf (chain_of y) ∨ y ∈ l1).
Proof using HC Hup.
  intros Hu Hp He0 Hsh Hst Hfuel Hwf.
  destruct (bounded_process_cements u conf orig e0 depth rounds fuel walk_fuel Hu He0 Hsh Hst Hfuel Hwf)
    as (u1 & conf1 & l & H1 & Hu1 & _ & _ & Han1 & Hl & Hel).
  destruct (bounded_settled_cement times u1 conf1 Hu1) as (u2 & H2 & _ & Hp2 & _ & _ & Han2).
  exists u1, u2, l. rewrite <- !bounded_announced_notified by done.
  split_and!; [done | done | by rewrite Han2, Han1 | by eapply announces_NoDup | done |].
  intros l1 k l2 y Hkl Hd. exact (announces_order constants s _ l l1 k l2 y Hl Hkl Hd).
Qed.
End theorems.
