(* ===== verification/CementModes.v ===== *)
(** * Links along the chains

    The open block, the cemented frontier and the successors in the sidebands are
    where the chain has them.  An accepted block keeps this unless it is an epoch
    block that opens an account on a block of another chain, which takes over the
    successor of that block.  With these links the two processors agree. *)

From S2P Require Import Prelude Blocks BlockCodec Common RepWeights EpochsWork Store Ledger.
From S2P Require Import LedgerApply LedgerInvariant LedgerSteps LedgerTheorems Rollback.
From S2P Require Import RollbackTheorems ConfirmationHeight Chains CementWalk CementInvariant.
From S2P Require Import CementTheorems CementRuns ConfirmationBounded BoundedWrites.
From S2P Require Import BoundedInvariant BoundedTheorems.

Section links.
Context `{Crypto} (constants : ledger_constants).

(** The open block, the cemented frontier and the successors are where the chain has
    them. *)
Record linked (L : ledger) : Prop := {
  ln_open : ∀ a i, st_accounts (lg_store L) !! a = Some i → ∃ e,
    st_blocks (lg_store L) !! ai_open_block i = Some e ∧ account_calculated e = a ∧ sb_height e.2 = 1;
  ln_next : ∀ k e i, st_blocks (lg_store L) !! k = Some e →
    st_accounts (lg_store L) !! account_calculated e = Some i → sb_height e.2 < ai_block_count i → ∃ e',
    st_blocks (lg_store L) !! sb_successor e.2 = Some e' ∧ account_calculated e' = account_calculated e ∧
    sb_height e'.2 = sb_height e.2 + 1 ∧ previous e'.1 = k;
  ln_frontier : ∀ a, 0 < table_height L a → ∃ e,
    st_blocks (lg_store L) !! ch_frontier (confirmation_height_get (lg_store L) a) = Some e ∧
    account_calculated e = a ∧ sb_height e.2 = table_height L a;
  ln_balance : ∀ k e, st_blocks (lg_store L) !! k = Some e → is_u128 (balance_calculated e);
}.

Lemma previous_predecessor b : previous b ≠ 0 → has_predecessor b = true.
Proof. destruct b; simpl; try done. intros Hp. by apply negb_true_iff, Z.eqb_neq. Qed.

Section step.
Context (L : ledger) (HL : ledger_inv L) (rank : Z → nat) (HF : confirmable constants L rank) (Hln : linked L).
Context (b : block) (sb : block_sideband) (a : Z) (new : account_info) (eff : effect) (w : rep_weights).
Context (HV : valid_step L b sb a new eff w) (Hun : unforeseen L b).
Context (Hroom : ai_block_count (account_info_or_default L a) + 1 < u64_mod).
(** An unopened account is opened without predecessor. *)
Context (Hfirst : st_accounts (lg_store L) !! a = None → has_predecessor b = false).

Abbreviation s := (lg_store L).
Abbreviation s' := (lg_store (step_block L b sb a new eff w)).
Abbreviation h := (block_hash b).

(** An entry is the new one, the predecessor with its new successor, or an old one. *)
Lemma step_entry k e :
  st_blocks s' !! k = Some e →
  k = h ∧ e = (b, sideband_stored (block_type_of b) sb) ∨
  k = previous b ∧ has_predecessor b = true ∧
    (∃ e0, st_blocks s !! k = Some e0 ∧ e = (e0.1, set_successor h e0.2)) ∨
  st_blocks s !! k = Some e ∧ (has_predecessor b = true → k ≠ previous b).
Proof using HV.
  clear Hfirst. pose proof (step_fresh L b sb a new eff w HV) as Hf. simpl. unfold new_blocks.
  destruct (has_predecessor b) eqn:Hp; [rewrite lookup_alter; case_decide as Hk |].
  - subst k. destruct (vs_prev _ _ _ _ _ _ _ HV Hp) as [e0 He0].
    rewrite lookup_insert_ne, He0 by congruence. intros [= <-]. right. left. eauto.
  - rewrite lookup_insert_Some. intros [[<- <-] | [_ ?]]; [by left | right; right]. split; [done |]. by intros _ ->.
  - rewrite lookup_insert_Some. intros [[<- <-] | [_ ?]]; [by left | right; by right].
Qed.

Lemma step_entry_old k e0 : st_blocks s !! k = Some e0 → ∃ e, st_blocks s' !! k = Some e ∧ same_entry e0 e.
Proof using HV. intros He0. apply new_blocks_other; [by eapply step_fresh | apply HV | done]. Qed.

Lemma step_self : st_blocks s' !! h = Some (b, sideband_stored (block_type_of b) sb).
Proof using HV. apply new_blocks_self; [by eapply step_fresh | apply HV]. Qed.

Lemma count_step : ai_block_count new = ai_block_count (account_info_or_default L a) + 1.
Proof using HL HF HV Hroom. by eapply count_new. Qed.

Lemma known_account i : st_accounts s !! a = Some i → account_info_or_default L a = i.
Proof using. unfold account_info_or_default, account_get. by intros ->. Qed.

Lemma entry_heights k e i :
  st_blocks s !! k = Some e → st_accounts s !! account_calculated e = Some i → sb_height e.2 <= ai_block_count i.
Proof using HF.
  intros He Hi. pose proof (cf_count _ _ _ HF k i) as Hc. unfold stored, chain_of, height_of in Hc. rewrite He in Hc.
  simpl in Hc. by apply Hc.
Qed.

(** The predecessor is the head of the account. *)
Lemma step_on_head :
  has_predecessor b = true → ∃ i e, st_accounts s !! a = Some i ∧ previous b = ai_head i ∧
    st_blocks s !! previous b = Some e ∧ account_calculated e = a ∧ sb_height e.2 = ai_block_count i.
Proof using HL HV Hfirst.
  intros Hp. destruct (st_accounts s !! a) as [i |] eqn:Hi; [| by rewrite Hfirst in Hp].
  pose proof (vs_position _ _ _ _ _ _ _ HV i Hi) as Hpr.
  destruct (ao_entry _ _ _ (inv_accounts L HL a i Hi)) as (e & He & Ha & _ & Hh & _).
  exists i, e. rewrite Hpr. done.
Qed.

Lemma step_next k e i :
  st_blocks s' !! k = Some e → st_accounts s' !! account_calculated e = Some i → sb_height e.2 < ai_block_count i → ∃ e',
  st_blocks s' !! sb_successor e.2 = Some e' ∧ account_calculated e' = account_calculated e ∧
  sb_height e'.2 = sb_height e.2 + 1 ∧ previous e'.1 = k.
Proof using HL HF Hln HV Hun Hroom Hfirst.
  pose proof (vs_entry_account _ _ _ _ _ _ _ HV) as Hea. pose proof (vs_entry_height _ _ _ _ _ _ _ HV) as Heh.
  intros Hk. destruct (step_entry k e Hk) as [[-> ->] | [(-> & Hp & e0 & He0 & ->) | [Hk0 Hne]]].
  - rewrite Hea. change (st_accounts s') with (<[a := new]> (st_accounts s)). rewrite lookup_insert_eq.
    intros [= <-]. cbn [snd]. rewrite Heh. lia.
  - destruct (step_on_head Hp) as (i0 & e1 & Hi0 & Hpr & He1 & Hac & Hh). rewrite He0 in He1. injection He1 as <-.
    intros _ _. exists (b, sideband_stored (block_type_of b) sb). split; [exact step_self |].
    change (account_calculated (e0.1, set_successor h e0.2)) with (account_calculated e0). split; [congruence |].
    split; [| done]. cbn [snd]. rewrite Heh, count_step, (known_account i0 Hi0). simpl. by rewrite Hh.
  - assert (Hold : ∀ i0, st_accounts s !! account_calculated e = Some i0 → sb_height e.2 < ai_block_count i0 → ∃ e',
      st_blocks s' !! sb_successor e.2 = Some e' ∧ account_calculated e' = account_calculated e ∧
      sb_height e'.2 = sb_height e.2 + 1 ∧ previous e'.1 = k).
    { intros i0 Hi0 Hlt. destruct (ln_next _ Hln k e i0 Hk0 Hi0 Hlt) as (e' & He' & Hac & Hh & Hpr).
      destruct (step_entry_old _ _ He') as (e2 & He2 & Hs). exists e2.
      by rewrite (same_entry_account _ _ Hs), (same_entry_height _ _ Hs), (same_entry_block _ _ Hs). }
    simpl. rewrite lookup_insert_Some. intros [[Ha <-] | [_ Hi]]; [| by apply Hold].
    rewrite count_step. intros Hlt. destruct (st_accounts s !! a) as [i0 |] eqn:Hi0.
    + rewrite (known_account i0 Hi0) in Hlt. rewrite Ha in Hi0. apply (Hold i0 Hi0).
      pose proof (entry_heights k e i0 Hk0 Hi0) as Hle. assert (sb_height e.2 ≠ ai_block_count i0); [| lia]. intros Heq.
      rewrite <- Ha in Hi0. pose proof (vs_position _ _ _ _ _ _ _ HV i0 Hi0) as Hpr.
      pose proof (inv_accounts L HL a i0 Hi0) as Hok.
      destruct (ao_entry _ _ _ Hok) as (e1 & He1 & Hac1 & _ & Hh1 & _).
      apply Hne; [apply previous_predecessor; rewrite Hpr; apply Hok |]. rewrite Hpr.
      apply (ch_unique _ _ _ _ (cf_chains _ _ _ HF)); unfold stored, chain_of, height_of; rewrite ?Hk0, ?He1; simpl; [eauto.. | congruence | congruence].
    + exfalso. destruct (inv_blocks L HL k e Hk0) as (_ & _ & [i1 Hi1]). congruence.
Qed.

Lemma step_linked : linked (step_block L b sb a new eff w).
Proof using HL HF Hln HV Hun Hroom Hfirst.
  pose proof (vs_entry_account _ _ _ _ _ _ _ HV) as Hea. pose proof (vs_entry_height _ _ _ _ _ _ _ HV) as Heh. split.
  - intros a' i. simpl. rewrite lookup_insert_Some. intros [[<- <-] | [_ Hi]].
    + rewrite (vs_open _ _ _ _ _ _ _ HV). destruct (st_accounts s !! a) as [i |] eqn:Hi; simpl.
      * destruct (ln_open _ Hln a i Hi) as (e & He & Hac & Hh). destruct (step_entry_old _ _ He) as (e' & He' & Hs).
        exists e'. by rewrite (same_entry_account _ _ Hs), (same_entry_height _ _ Hs).
      * eexists. split; [exact step_self |]. split; [done |]. cbn [snd]. rewrite Heh, count_step.
        unfold account_info_or_default, account_get. by rewrite Hi.
    + destruct (ln_open _ Hln a' i Hi) as (e & He & Hac & Hh). destruct (step_entry_old _ _ He) as (e' & He' & Hs).
      exists e'. by rewrite (same_entry_account _ _ Hs), (same_entry_height _ _ Hs).
  - exact step_next.
  - intros a' Ht. destruct (ln_frontier _ Hln a' Ht) as (e & He & Hac & Hh). destruct (step_entry_old _ _ He) as (e' & He' & Hs).
    exists e'. by rewrite (same_entry_account _ _ Hs), (same_entry_height _ _ Hs).
  - intros k e Hk. destruct (step_entry k e Hk) as [[-> ->] | [(-> & Hp & e0 & He0 & ->) | [Hk0 Hne]]].
    + rewrite (vs_entry_balance _ _ _ _ _ _ _ HV). apply HV.
    + pose proof (ln_balance _ Hln _ _ He0). by destruct e0 as [[] ?].
    + by apply (ln_balance _ Hln k).
Qed.
End step.

Lemma cemented_linked L L' : cemented_ledger (lg_store L) L L' → linked L → linked L'.
Proof.
  intros Hc [Ho Hn Hf Hb]. split; rewrite ?(cl_blocks _ _ _ Hc), ?(cl_accounts _ _ _ Hc); [done | done | | done].
  intros a Ht. destruct (cl_frontier _ _ _ Hc a) as [He | ([e Hs] & Hch & Hh)].
  - unfold table_height in *. rewrite He in *. by apply Hf.
  - exists e. unfold chain_of, height_of in Hch, Hh. rewrite Hs in Hch, Hh. done.
Qed.

Lemma init_linked t1 t2 L : genesis_ok constants → initialize constants t1 t2 = Ok L → linked L.
Proof.
  intros [Hg Hnz]. unfold initialize, genesis_sideband.
  destruct (lk_genesis constants) as [| | h s w | |] eqn:Eg; try done. unfold block_put.
  cbn [has_predecessor mbind outcome_bind account]. intros [= <-]. simpl.
  assert (Hacc : ∀ sb, account_calculated (open_block h s w, sb) = open_account h).
  { intros sb. unfold account_calculated. simpl. by rewrite (proj2 (Z.eqb_neq _ _)) by done. }
  split; simpl.
  - intros a i. rewrite lookup_insert_Some, lookup_empty. intros [[<- <-] | [_ ?]]; [| done].
    eexists. simpl. rewrite lookup_insert_eq. split; [done |]. by rewrite Hacc.
  - intros k e i. rewrite lookup_insert_Some, lookup_empty. intros [[<- <-] | [_ ?]]; [| done].
    rewrite Hacc. rewrite lookup_insert_eq. intros [= <-]. simpl. lia.
  - intros a. unfold table_height, confirmation_height_get. simpl. rewrite lookup_insert.
    case_decide as Ha; simpl; [| rewrite lookup_empty; simpl; lia].
    intros _. eexists. rewrite lookup_insert_eq. split; [done |]. by rewrite Hacc.
  - intros k e. rewrite lookup_insert_Some, lookup_empty. intros [[<- <-] | [_ ?]]; [| done]. done.
Qed.
End links.

(** * The two confirmation height processors agree

    The bounded processor goes up a chain by the successors of the sidebands, which
    are right as long as no epoch block opens an account on a block of another
    chain.  Then, in every ledger a node reaches by processing blocks
    and cementing with either processor, both cement the same blocks. *)

Section modes.
Context `{Crypto} (constants : ledger_constants).

(** What the bounded processor relies on besides [confirmable]. *)
Record walkable (L : ledger) : Prop := {
  wk_up : upward (lg_store L);
  wk_table : table_ok (lg_store L) L;
}.

Lemma linked_walkable L rank : ledger_inv L → confirmable constants L rank → linked L → walkable L.
Proof.
  intros HL HF [Ho Hn Hf _]. pose proof (cf_chains _ _ _ HF) as HC.
  assert (Hst : ∀ k e, st_blocks (lg_store L) !! k = Some e → stored (lg_store L) k ∧
    chain_of (lg_store L) k = account_calculated e ∧ height_of (lg_store L) k = sb_height e.2).
  { intros k e He. unfold stored, chain_of, height_of. rewrite He. eauto. }
  split; [split |].
  - intros k y [e He] Hy Hc Hh. destruct (Hst k e He) as (_ & Hke & Hhe).
    pose proof (inv_blocks L HL k e He) as (_ & _ & [i Hi]).
    pose proof (cf_count _ _ _ HF y i Hy) as Hcnt. rewrite Hc, Hke in Hcnt. specialize (Hcnt Hi).
    destruct (Hn k e i He Hi) as (e' & He' & Ha' & Hh' & _); [lia |].
    destruct (Hst _ e' He') as (Hs2 & Hc2 & Hh2). unfold successor_of. rewrite He. simpl.
    apply (ch_unique _ _ _ _ HC); [done | done | congruence | lia].
  - intros k [e He] H1. destruct (Hst k e He) as (Hs & Hke & Hhe).
    pose proof (inv_blocks L HL k e He) as (_ & _ & [i Hi]). exists i. rewrite Hke. split; [done |].
    destruct (Ho _ i Hi) as (e' & He' & Ha' & Hh'). destruct (Hst _ e' He') as (Hs2 & Hc2 & Hh2).
    apply (ch_unique _ _ _ _ HC); [done | done | congruence | lia].
  - intros a Hpos. destruct (Hf a Hpos) as (e & He & Hac & Hh). destruct (Hst _ e He) as (Hs & Hc & Hhe).
    unfold table_height in Hh. split_and!; [done | congruence | congruence].
Qed.

(** ** The same table *)

(** Cementing the same blocks gives the same table. *)
Section same.
Context (L : ledger) (rank : Z → nat) (HC : chains constants (lg_store L) (table_height L) rank).
Context (HT : table_ok (lg_store L) L) (cemented : Z → Prop).

Abbreviation s := (lg_store L).

Definition cements_exactly (L' : ledger) : Prop :=
  cemented_ledger s L L' ∧
  ∀ k, stored s k → height_of s k <= table_height L' (chain_of s k) ↔
    height_of s k <= table_height L (chain_of s k) ∨ cemented k.

Lemma exact_le L1 L2 a : cements_exactly L1 → cements_exactly L2 → table_height L1 a <= table_height L2 a.
Proof using.
  intros [H1 E1] H2. destruct (cl_frontier _ _ _ H1 a) as [He | (Hs & Hc & Hh)].
  - unfold table_height at 1. rewrite He. apply (cl_mono _ _ _ (proj1 H2)).
  - rewrite <- Hh. rewrite <- Hc at 2. apply H2; [done |]. apply E1; [done |]. rewrite Hc. lia.
Qed.

Lemma same_table L1 L2 a :
  cements_exactly L1 → cements_exactly L2 →
  confirmation_height_get (lg_store L1) a = confirmation_height_get (lg_store L2) a.
Proof using HC HT.
  intros H1 H2. pose proof (exact_le L1 L2 a H1 H2) as Hle1. pose proof (exact_le L2 L1 a H2 H1) as Hle2.
  destruct H1 as [H1 _], H2 as [H2 _]. unfold table_height in *.
  pose proof (cemented_table _ _ _ H1 HT a) as T1. pose proof (cemented_table _ _ _ H2 HT a) as T2.
  destruct (Z.le_gt_cases (ch_height (confirmation_height_get (lg_store L1) a)) 0) as [Hz | Hpos].
  - destruct (cl_frontier _ _ _ H1 a) as [-> | (Hs & _ & Hh)].
    + destruct (cl_frontier _ _ _ H2 a) as [-> | (Hs & _ & Hh)]; [done |].
      pose proof (height_pos _ _ _ _ HC _ Hs). unfold table_height in Hh. lia.
    + pose proof (height_pos _ _ _ _ HC _ Hs). unfold table_height in Hh. lia.
  - by apply (frontier_unique _ _ _ _ HC a); [done | done | lia |].
Qed.
End same.

(** ** Runs *)

(** A block is cemented by one of the processors, started afresh, which then writes
    what remains. *)
Inductive cement_run (L : ledger) (k : Z) (L' : ledger) : Prop :=
| cement_unbounded e fuel bws rounds u1 u2 :
    st_blocks (lg_store L) !! k = Some e → never_stopped rounds →
    (3 * size (st_blocks (lg_store L)) < fuel)%nat →
    unbounded_process constants fuel bws rounds e (unbounded_new L) = Done u1 →
    cement_blocks u1 = Ok u2 → L' = ub_ledger u2 → cement_run L k L'
| cement_bounded e max_items depth fuel walk_fuel rounds times u1 u2 :
    st_blocks (lg_store L) !! k = Some e → shallow constants max_items (lg_store L) depth k →
    bounded_never_stopped rounds →
    (3 * size (st_blocks (lg_store L)) < fuel)%nat → (size (st_blocks (lg_store L)) <= walk_fuel)%nat →
    bounded_process constants max_items fuel walk_fuel rounds e (bounded_new L) = Done u1 →
    bounded_cement_blocks times u1 = Ok u2 → L' = bd_ledger u2 → cement_run L k L'.

(** A node without epoch blocks that open accounts on foreign blocks. *)
Inductive orderly : ledger → Prop :=
| orderly_init t1 t2 L :
    genesis_ok constants → ¬ names_hash (lk_genesis constants) (block_hash (lk_genesis constants)) →
    initialize constants t1 t2 = Ok L → orderly L
| orderly_process L b v t1 t2 r L' :
    orderly L → block_wf b → block_hash b ≠ 0 → unforeseen L b → epoch_open_ok constants L b →
    (∀ a, ai_block_count (account_info_or_default L a) + 1 < u64_mod) →
    process constants L b v t1 t2 = Ok (r, L') → orderly L'
| orderly_cement L k L' : orderly L → cement_run L k L' → orderly L'.

Lemma bounded_new_settled L rank :
  confirmable constants L rank → walkable L →
  bounded_settled constants (lg_store L) (table_height L) (bounded_new L) (table_height L).
Proof. intros [HC _ _ Hcl] [_ Ht]. split; [| done]. split; try done. Qed.

(** Both processors end and cement exactly the dependencies. *)
Lemma unbounded_exact L rank k e fuel bws rounds :
  confirmable constants L rank → st_blocks (lg_store L) !! k = Some e → never_stopped rounds →
  (3 * size (st_blocks (lg_store L)) < fuel)%nat →
  ∃ u1 u2, unbounded_process constants fuel bws rounds e (unbounded_new L) = Done u1 ∧ cement_blocks u1 = Ok u2 ∧
    cements_exactly L (rtc (depends constants (lg_store L)) k) (ub_ledger u2).
Proof.
  intros HF He Hst Hfuel. pose proof (settled_new constants L rank HF) as Hu. pose proof (cf_chains _ _ _ HF) as HC.
  destruct (process_cements constants _ _ _ HC _ _ k e bws rounds fuel Hu He Hst Hfuel)
    as (u1 & conf1 & l & H1 & Hu1 & HL1 & Hc1 & _).
  destruct (settled_cement constants _ _ _ HC u1 conf1 Hu1) as (u2 & H2 & _ & _ & Ht & HL2 & _).
  exists u1, u2. split_and!; [done | done | split; [by eapply cemented_ledger_trans |]].
  intros j Hj. rewrite Ht. by apply Hc1.
Qed.

Lemma bounded_exact L rank k e max_items depth fuel walk_fuel rounds times :
  confirmable constants L rank → walkable L → st_blocks (lg_store L) !! k = Some e →
  shallow constants max_items (lg_store L) depth k → bounded_never_stopped rounds →
  (3 * size (st_blocks (lg_store L)) < fuel)%nat → (size (st_blocks (lg_store L)) <= walk_fuel)%nat →
  ∃ u1 u2, bounded_process constants max_items fuel walk_fuel rounds e (bounded_new L) = Done u1 ∧
    bounded_cement_blocks times u1 = Ok u2 ∧
    cements_exactly L (rtc (depends constants (lg_store L)) k) (bd_ledger u2).
Proof.
  intros HF HW He Hsh Hst Hfuel Hwf. pose proof (bounded_new_settled L rank HF HW) as Hu.
  pose proof (cf_chains _ _ _ HF) as HC. pose proof (wk_up _ HW) as Hup.
  destruct (bounded_process_cements constants max_items _ _ _ HC Hup _ _ k e depth rounds fuel walk_fuel Hu He Hsh Hst Hfuel Hwf)
    as (u1 & conf1 & l & H1 & Hu1 & HL1 & Hc1 & _).
  destruct (bounded_settled_cement constants _ _ _ HC Hup times u1 conf1 Hu1) as (u2 & H2 & _ & _ & Ht & HL2 & _).
  exists u1, u2. split_and!; [done | done | split; [by eapply cemented_ledger_trans |]].
  intros j Hj. rewrite Ht. by apply Hc1.
Qed.

Lemma cement_run_exact L rank k L' :
  confirmable constants L rank → walkable L → cement_run L k L' →
  stored (lg_store L) k ∧ cements_exactly L (rtc (depends constants (lg_store L)) k) L'.
Proof.
  intros HF HW [e fuel bws rounds u1 u2 He Hst Hf H1 H2 -> | e mi depth fuel wf rounds times u1 u2 He Hsh Hst Hf Hwf H1 H2 ->];
    (split; [by exists e |]).
  - destruct (unbounded_exact L rank k e fuel bws rounds HF He Hst Hf) as (u1' & u2' & E1 & E2 & Hex). congruence.
  - destruct (bounded_exact L rank k e mi depth fuel wf rounds times HF HW He Hsh Hst Hf Hwf) as (u1' & u2' & E1 & E2 & Hex).
    congruence.
Qed.

(** What is cemented is closed under dependencies again. *)
Lemma exact_confirmable L rank k L' :
  ledger_inv L → confirmable constants L rank → stored (lg_store L) k →
  cements_exactly L (rtc (depends constants (lg_store L)) k) L' →
  ledger_inv L' ∧ confirmable constants L' rank.
Proof.
  intros HL HF Hk [Hc Hce]. split; [by apply (cl_inv _ _ _ Hc) |].
  apply (cemented_confirmable _ L); [done.. | apply Hc |].
  intros j y Hd Hj. pose proof Hd as (Hjs & Hys & _). apply Hce; [done |]. apply Hce in Hj; [| done].
  destruct Hj as [Hj | Hj]; [left; by eapply (cf_closed _ _ _ HF) | right]. by eapply rtc_r.
Qed.

Lemma orderly_inv L : orderly L → ledger_inv L ∧ linked L ∧ ∃ rank, confirmable constants L rank.
Proof.
  induction 1 as [t1 t2 L Hg Hn Hi | L b v t1 t2 r L' _ (HL & Hln & rank & HF) Hwf Hnz Hun Hep Hroom Hp
    | L k L' _ (HL & Hln & rank & HF) Hrun].
  - destruct (initialize_ok constants t1 t2 Hg) as (L0 & Hi' & Hinv). rewrite Hi in Hi'. injection Hi' as <-.
    split_and!; [done | by eapply init_linked | eexists; by eapply init_confirmable].
  - destruct (process_step constants L HL b v t1 t2 Hwf Hnz)
      as [(r' & Hr & _) | (a & sb & new & eff & w & v' & Hacc & Hr)]; rewrite Hp in Hr; simplify_eq; [by eauto |].
    pose proof (ac_step _ _ _ _ _ _ _ _ _ Hacc) as HV. pose proof (accepted_first_ok _ _ _ _ _ _ _ _ _ Hacc Hep) as Hf.
    split_and!; [by apply step_block_inv | by eapply step_linked | eexists; by eapply step_confirmable].
  - pose proof (linked_walkable L rank HL HF Hln) as HW.
    destruct (cement_run_exact L rank k L' HF HW Hrun) as [Hk Hex].
    destruct (exact_confirmable L rank k L' HL HF Hk Hex) as (? & ?).
    split_and!; [done | eapply cemented_linked; [apply Hex | done] | eauto].
Qed.

End modes.
