(* ===== verification/ConfirmationProcessor.v ===== *)
(** * The confirmation height processor ([node/confirmation_height_processor.cpp])

    The thread that takes the confirmed blocks one by one and has them cemented by
    one of the two processors.  They share the ledger, the observers and the batch
    size; each keeps its pending writes until they are written, and the thread
    must not let both have some at a time.

    The mutex makes every access to the members one step, so other threads act
    between the parts of [run] modelled here; while a block is processed they can
    only add to the queue, which the processors see as an answer of their
    environment.  A failed [debug_assert] of [run] is [Crashed]. *)

From S2P Require Import Prelude Blocks BlockCodec Common RepWeights EpochsWork Store Ledger.
From S2P Require Import LedgerInvariant Rollback ConfirmationHeight Chains CementWalk.
From S2P Require Import CementInvariant CementTheorems CementRuns ConfirmationBounded BoundedWrites.
From S2P Require Import BoundedInvariant BoundedTheorems CementModes.

(** [confirmation_height_mode]. *)
Inductive confirmation_height_mode := mode_automatic | mode_unbounded | mode_bounded.
#[export] Instance confirmation_height_mode_eq_dec : EqDecision confirmation_height_mode.
Proof. solve_decision. Defined.

(** The members, with the ledger and what the observers were told, which the two
    processors see as theirs while they run. *)
Record height_processor := HeightProcessor {
  hp_ledger : ledger;
  hp_events : list cement_event;
  hp_unbounded : unbounded;
  hp_bounded : bounded;
  hp_awaiting_processing : list block_w_sideband;
  hp_original_hashes_pending : gset Z;
  hp_original_block : option block_w_sideband;
  hp_paused : bool;
}.

Definition height_processor_new (L : ledger) : height_processor :=
  HeightProcessor L [] (unbounded_new L) (bounded_new L) [] ∅ None false.

(** The processors on the shared ledger and observers. *)
Definition shared_unbounded (p : height_processor) : unbounded :=
  let u := hp_unbounded p in
  Unbounded (hp_ledger p) (ub_heap u) (ub_confirmed_iterated_pairs u) (ub_pending_writes u)
    (ub_implicit_receive_cemented_mapping u) (ub_block_cache u) (hp_events p).
Definition shared_bounded (p : height_processor) : bounded :=
  let u := hp_bounded p in
  Bounded (hp_ledger p) (bd_pending_writes u) (bd_accounts_confirmed_info u) (bd_batch_write_size u) (hp_events p).

Definition after_unbounded (u : unbounded) (p : height_processor) : height_processor :=
  HeightProcessor (ub_ledger u) (ub_events u) u (hp_bounded p) (hp_awaiting_processing p)
    (hp_original_hashes_pending p) (hp_original_block p) (hp_paused p).
Definition after_bounded (u : bounded) (p : height_processor) : height_processor :=
  HeightProcessor (bd_ledger u) (bd_events u) (hp_unbounded p) u (hp_awaiting_processing p)
    (hp_original_hashes_pending p) (hp_original_block p) (hp_paused p).

Definition hp_set_awaiting f (p : height_processor) : height_processor :=
  HeightProcessor (hp_ledger p) (hp_events p) (hp_unbounded p) (hp_bounded p) (f (hp_awaiting_processing p))
    (hp_original_hashes_pending p) (hp_original_block p) (hp_paused p).
Definition hp_set_hashes f (p : height_processor) : height_processor :=
  HeightProcessor (hp_ledger p) (hp_events p) (hp_unbounded p) (hp_bounded p) (hp_awaiting_processing p)
    (f (hp_original_hashes_pending p)) (hp_original_block p) (hp_paused p).
Definition hp_set_block o (p : height_processor) : height_processor :=
  HeightProcessor (hp_ledger p) (hp_events p) (hp_unbounded p) (hp_bounded p) (hp_awaiting_processing p)
    (hp_original_hashes_pending p) o (hp_paused p).
Definition hp_set_paused o (p : height_processor) : height_processor :=
  HeightProcessor (hp_ledger p) (hp_events p) (hp_unbounded p) (hp_bounded p) (hp_awaiting_processing p)
    (hp_original_hashes_pending p) (hp_original_block p) o.

Definition pause (p : height_processor) : height_processor := hp_set_paused true p.
Definition unpause (p : height_processor) : height_processor := hp_set_paused false p.

Section processor.
Context `{Crypto} (constants : ledger_constants) (max_items : nat).

Definition awaits (hash_a : Z) (l : list block_w_sideband) : bool :=
  bool_decide (hash_a ∈ map (λ b, block_hash b.1) l).

(** [add]: the hash index is unique. *)
Definition height_processor_add (b : block_w_sideband) (p : height_processor) : height_processor :=
  hp_set_awaiting (λ l, if awaits (block_hash b.1) l then l else l ++ [b]) p.

Definition awaiting_processing_size (p : height_processor) : Z := Z.of_nat (length (hp_awaiting_processing p)).

Definition is_processing_added_block (hash_a : Z) (p : height_processor) : bool :=
  bool_decide (hash_a ∈ hp_original_hashes_pending p) || awaits hash_a (hp_awaiting_processing p).

Definition is_processing_block (hash_a : Z) (p : height_processor) : bool :=
  is_processing_added_block hash_a p || has_iterated_over_block (hp_unbounded p) hash_a.

Definition current (p : height_processor) : Z :=
  match hp_original_block p with Some b => block_hash b.1 | None => 0 end.

(** [set_next_hash], on a queue that is not empty. *)
Definition set_next_hash (b : block_w_sideband) (p : height_processor) : height_processor :=
  hp_set_awaiting tail (hp_set_hashes (λ h, {[block_hash b.1]} ∪ h) (hp_set_block (Some b) p)).

(** Which processor takes the block. *)
Definition blocks_within_automatic_unbounded_selection (L : ledger) : bool :=
  let c := lg_cache L in
  (lc_block_count c <? unbounded_cutoff) ||
  (wrap64 (lc_block_count c - unbounded_cutoff) <? lc_cemented_count c).

Definition use_unbounded (mode_a : confirmation_height_mode) (p : height_processor) : bool :=
  let valid_unbounded := bool_decide (mode_a = mode_automatic) &&
    blocks_within_automatic_unbounded_selection (hp_ledger p) && bounded_pending_empty (hp_bounded p) in
  let force_unbounded := negb (pending_empty (hp_unbounded p)) || bool_decide (mode_a = mode_unbounded) in
  force_unbounded || valid_unbounded.

(** [lock_and_cleanup]. *)
Definition lock_and_cleanup (p : height_processor) : height_processor :=
  HeightProcessor (hp_ledger p) (hp_events p) (clear_process_vars (hp_unbounded p))
    (bounded_clear_process_vars (hp_bounded p)) (hp_awaiting_processing p) ∅ None (hp_paused p).

(** What a pass of the loop sees of the world: the rounds of the processor that
    runs and the times of the final batch writes. *)
Record pass_env := PassEnv {
  pe_fuel : nat;
  pe_walk_fuel : nat;
  pe_rounds : nat → bounded_env;
  pe_times : nat → Z;
}.

(** The block is taken and processed. *)
Definition process_next (mode_a : confirmation_height_mode) (r : pass_env) (b : block_w_sideband) (p : height_processor) :
    run_result height_processor :=
  let p := if bounded_pending_empty (hp_bounded p) && pending_empty (hp_unbounded p)
           then hp_set_hashes (λ _, ∅) p else p in
  let p := set_next_hash b p in
  if use_unbounded mode_a p then
    if bounded_pending_empty (hp_bounded p) then
      u ← unbounded_process constants (pe_fuel r) (bd_batch_write_size (hp_bounded p)) (λ n, be_round (pe_rounds r n)) b
            (shared_unbounded p);
      Done (after_unbounded u p)
    else Crashed
  else
    if (bool_decide (mode_a = mode_bounded) || bool_decide (mode_a = mode_automatic)) && pending_empty (hp_unbounded p) then
      u ← bounded_process constants max_items (pe_fuel r) (pe_walk_fuel r) (pe_rounds r) b (shared_bounded p);
      Done (after_bounded u p)
    else Crashed.

(** The queue is empty: what is pending is written out. *)
Definition flush_pending (r : pass_env) (p : height_processor) : run_result height_processor :=
  if negb (bounded_pending_empty (hp_bounded p)) then
    if pending_empty (hp_unbounded p) then
      u ← lift (bounded_cement_blocks (pe_times r) (shared_bounded p));
      Done (lock_and_cleanup (after_bounded u p))
    else Crashed
  else if negb (pending_empty (hp_unbounded p)) then
    u ← lift (cement_blocks (shared_unbounded p));
    Done (lock_and_cleanup (after_unbounded u p))
  else Done (lock_and_cleanup p).

(** One pass of the loop of [run] that is not stopped; it may end in a wait. *)
Definition run_pass (mode_a : confirmation_height_mode) (r : pass_env) (p : height_processor) :
    run_result height_processor :=
  if hp_paused p then Done (hp_set_block None p)
  else match hp_awaiting_processing p with
       | b :: _ => process_next mode_a r b p
       | [] => flush_pending r p
       end.
End processor.

(** * What the confirmation height thread achieves

    Whatever the mode and however the two processors take turns, the thread never
    lets both have writes pending, an added block is reported as being processed
    until it is cemented, and when the queue is drained the cemented blocks are
    exactly the dependencies of the added ones.  Between the adds and passes of a
    run the tables change only by cementing. *)

Section thread.
Context `{Crypto} (constants : ledger_constants) (max_items : nat) (mode : confirmation_height_mode).
Context (L0 : ledger) (rank : Z → nat) (HF : confirmable constants L0 rank) (HW : walkable L0).

Abbreviation s := (lg_store L0).
Abbreviation stored := (stored s).
Abbreviation chain_of := (chain_of s).
Abbreviation height_of := (height_of s).
Abbreviation depends := (depends constants s).
Abbreviation settled := (settled constants s (table_height L0)).
Abbreviation bounded_settled := (bounded_settled constants s (table_height L0)).
Abbreviation run_pass := (run_pass constants max_items mode).

(** A block the thread can be given. *)
Definition addable (b : block_w_sideband) : Prop :=
  st_blocks s !! block_hash b.1 = Some b ∧ ∃ depth, shallow constants max_items s depth (block_hash b.1).

(** A pass that is not stopped, with enough fuel. *)
Definition good_env (r : pass_env) : Prop :=
  bounded_never_stopped (pe_rounds r) ∧ (3 * size (st_blocks s) < pe_fuel r)%nat ∧
  (size (st_blocks s) <= pe_walk_fuel r)%nat.

(** Which processor holds what the table does not have yet. *)
Inductive memory (p : height_processor) (conf : Z → Z) : Prop :=
| memory_idle :
    ub_pending_writes (hp_unbounded p) = [] → bd_pending_writes (hp_bounded p) = [] →
    (∀ a, table_height (hp_ledger p) a = conf a) → memory p conf
| memory_unbounded :
    bd_pending_writes (hp_bounded p) = [] → settled (shared_unbounded p) conf → memory p conf
| memory_bounded :
    ub_pending_writes (hp_unbounded p) = [] → bounded_settled (shared_bounded p) conf → memory p conf.

(** The thread after taking the blocks [taken]. *)
Record thread_inv (p : height_processor) (conf : Z → Z) (taken : list Z) : Prop := {
  ti_memory : memory p conf;
  ti_ledger : cemented_ledger s L0 (hp_ledger p);
  ti_floor : ∀ a, table_height L0 a <= conf a;
  ti_closed : ∀ k y, depends k y → height_of k <= conf (chain_of k) → height_of y <= conf (chain_of y);
  ti_exact : ∀ k, stored k → height_of k <= conf (chain_of k) ↔
    height_of k <= table_height L0 (chain_of k) ∨ ∃ x, x ∈ taken ∧ rtc depends x k;
  ti_pending : ∀ x, x ∈ taken → x ∈ hp_original_hashes_pending p ∨
    height_of x <= table_height (hp_ledger p) (chain_of x);
  ti_taken : ∀ x, x ∈ taken → stored x;
  ti_awaiting : ∀ b, b ∈ hp_awaiting_processing p → addable b;
  ti_mode : mode = mode_unbounded → bd_pending_writes (hp_bounded p) = [];
}.

Lemma memory_table p conf :
  memory p conf → ub_pending_writes (hp_unbounded p) = [] → bd_pending_writes (hp_bounded p) = [] →
  ∀ a, table_height (hp_ledger p) a = conf a.
Proof using.
  intros [_ _ Ht | _ Hs | _ Hs] Hu Hb; [done | |].
  - pose proof (se_writes _ _ _ _ _ Hs) as Hw. simpl in Hw. by rewrite Hu in Hw.
  - pose proof (ho_writes _ _ _ _ (bs_heights _ _ _ _ _ Hs)) as Hw. simpl in Hw. by rewrite Hb in Hw.
Qed.

(** The unbounded processor can go on while the other has nothing pending. *)
Lemma unbounded_ready p conf taken :
  thread_inv p conf taken → bd_pending_writes (hp_bounded p) = [] →
  ∃ u, (∀ fuel bws rounds e, unbounded_process constants fuel bws rounds e (shared_unbounded p) =
      unbounded_process constants fuel bws rounds e u) ∧ settled u conf ∧ ub_ledger u = hp_ledger p.
Proof using HF.
  intros HI Hb. destruct (decide (ub_pending_writes (hp_unbounded p) = [])) as [Hu | Hu].
  - pose proof (memory_table p conf (ti_memory _ _ _ HI) Hu Hb) as Ht.
    exists (clear_process_vars (shared_unbounded p)). split; [| split; [| done]].
    + intros. unfold unbounded_process, pending_empty. simpl. by rewrite !Hu.
    + split; [| | | apply HI | apply HI |]; simpl.
      * intros a. unfold known_confirmed. simpl. apply Ht.
      * intros a. unfold known_iterated. simpl. apply Ht.
      * split; [| done]. simpl. apply (ti_ledger _ _ _ HI).
      * by rewrite Hu.
  - exists (shared_unbounded p). split; [done |]. split; [| done].
    by destruct (ti_memory _ _ _ HI).
Qed.

Lemma bounded_ready p conf taken :
  thread_inv p conf taken → ub_pending_writes (hp_unbounded p) = [] →
  ∃ u, (∀ fuel wf rounds e, bounded_process constants max_items fuel wf rounds e (shared_bounded p) =
      bounded_process constants max_items fuel wf rounds e u) ∧ bounded_settled u conf ∧ bd_ledger u = hp_ledger p.
Proof using HF HW.
  intros HI Hu. destruct (decide (bd_pending_writes (hp_bounded p) = [])) as [Hb | Hb].
  - pose proof (memory_table p conf (ti_memory _ _ _ HI) Hu Hb) as Ht.
    exists (bounded_clear_process_vars (shared_bounded p)). split; [| split; [| done]].
    + intros. unfold bounded_process, bounded_pending_empty. simpl. by rewrite !Hb.
    + pose proof (cemented_table _ _ _ (ti_ledger _ _ _ HI) (wk_table _ HW)) as Htab.
      split; [| apply HI]. split; simpl; [apply (ti_ledger _ _ _ HI) | apply (ti_ledger _ _ _ HI) | | | done | | apply HI |].
      * intros a. apply Ht.
      * intros a. apply Htab.
      * done.
      * by rewrite Hb.
  - exists (shared_bounded p). split; [done |]. split; [| done].
    by destruct (ti_memory _ _ _ HI).
Qed.

(** ** A pass that takes a block *)

(** What a processor returns for a block it was given. *)
Definition processed (L : ledger) (x : Z) (conf conf' : Z → Z) (L' : ledger) : Prop :=
  cemented_ledger s L L' ∧ (∀ a, table_height L0 a <= conf' a) ∧
  (∀ k y, depends k y → height_of k <= conf' (chain_of k) → height_of y <= conf' (chain_of y)) ∧
  ∀ k, stored k → height_of k <= conf' (chain_of k) ↔ height_of k <= conf (chain_of k) ∨ rtc depends x k.

(** The invariant after the block [b] was taken and processed. *)
Lemma taken_inv p p' conf conf' taken b rest :
  thread_inv p conf taken → hp_awaiting_processing p = b :: rest →
  processed (hp_ledger p) (block_hash b.1) conf conf' (hp_ledger p') → memory p' conf' →
  (mode = mode_unbounded → bd_pending_writes (hp_bounded p') = []) →
  hp_awaiting_processing p' = rest →
  (hp_original_hashes_pending p' = {[block_hash b.1]} ∪ hp_original_hashes_pending p ∨
   hp_original_hashes_pending p' = {[block_hash b.1]} ∧ (∀ a, table_height (hp_ledger p) a = conf a)) →
  thread_inv p' conf' (block_hash b.1 :: taken).
Proof using HF HW.
  intros HI Hq (HL & Hfl & Hcl & Hex) Hm Hmode Hq' Hh. pose proof (cl_mono _ _ _ HL) as Hmono.
  destruct (ti_awaiting _ _ _ HI b) as [Hb _]; [rewrite Hq; apply list_elem_of_here |].
  split; try done.
  - eapply cemented_ledger_trans; [apply HI | done].
  - intros k Hk. rewrite Hex, (ti_exact _ _ _ HI) by done. setoid_rewrite elem_of_cons. split.
    + intros [[? | (x & ? & ?)] | ?]; [by left | right; eauto | right; eauto].
    + intros [? | (x & [-> | ?] & ?)]; [auto | auto | left; right; eauto].
  - intros x Hx. destruct Hh as [-> | [-> Ht]].
    + apply elem_of_cons in Hx as [-> | Hx]; [left; set_solver |].
      destruct (ti_pending _ _ _ HI x Hx) as [? | Hc]; [left; set_solver | right].
      specialize (Hmono (chain_of x)). lia.
    + apply elem_of_cons in Hx as [-> | Hx]; [left; set_solver |]. right.
      assert (height_of x <= conf (chain_of x)).
      { apply (ti_exact _ _ _ HI); [by apply (ti_taken _ _ _ HI) |]. right. by exists x. }
      specialize (Hmono (chain_of x)). rewrite Ht in Hmono. lia.
  - intros x [-> | Hx]%elem_of_cons; [by exists b | by apply (ti_taken _ _ _ HI)].
  - intros b' Hb'. apply (ti_awaiting _ _ _ HI). rewrite Hq. right. congruence.
Qed.

(** Writes pending nowhere. *)
Definition idle (p : height_processor) : bool :=
  bounded_pending_empty (hp_bounded p) && pending_empty (hp_unbounded p).

Lemma process_next_ok r p conf taken b rest :
  thread_inv p conf taken → good_env r → hp_awaiting_processing p = b :: rest →
  ∃ p' conf', process_next constants max_items mode r b p = Done p' ∧
    thread_inv p' conf' (block_hash b.1 :: taken) ∧ hp_awaiting_processing p' = rest ∧
    hp_paused p' = hp_paused p.
Proof using HF HW.
  intros HI (Hst & Hfuel & Hwf) Hq. pose proof (cf_chains _ _ _ HF) as HC. pose proof (wk_up _ HW) as Hup.
  destruct (ti_awaiting _ _ _ HI b) as [Hb [depth Hsh]]; [rewrite Hq; apply list_elem_of_here |].
  unfold process_next. fold (idle p).
  set (p0 := if idle p then hp_set_hashes (λ _, ∅) p else p). set (p1 := set_next_hash b p0).
  assert (Hp1 : hp_unbounded p1 = hp_unbounded p ∧ hp_bounded p1 = hp_bounded p ∧ hp_ledger p1 = hp_ledger p ∧
    hp_events p1 = hp_events p ∧ hp_awaiting_processing p1 = rest ∧ hp_paused p1 = hp_paused p ∧
    (hp_original_hashes_pending p1 = {[block_hash b.1]} ∪ hp_original_hashes_pending p ∨
     hp_original_hashes_pending p1 = {[block_hash b.1]} ∧ (∀ a, table_height (hp_ledger p) a = conf a))).
  { unfold p1, p0. destruct (idle p) eqn:Hid; simpl; rewrite Hq; split_and!; try done; [| by left].
    right. split; [set_solver |]. apply andb_true_iff in Hid as [Hid1%bool_decide_eq_true Hid2%bool_decide_eq_true].
    by apply (memory_table p conf (ti_memory _ _ _ HI)). }
  destruct Hp1 as (Eu & Eb & El & Ee & Eq & Epa & Eh). clearbody p1. clear p0.
  assert (Hsu : shared_unbounded p1 = shared_unbounded p) by (unfold shared_unbounded; by rewrite Eu, El, Ee).
  assert (Hsb : shared_bounded p1 = shared_bounded p) by (unfold shared_bounded; by rewrite Eb, El, Ee).
  destruct (use_unbounded mode p1) eqn:Huse.
  - assert (Hbe : bd_pending_writes (hp_bounded p) = []).
    { unfold use_unbounded in Huse. rewrite Eu, Eb in Huse.
      apply orb_true_iff in Huse as [[Hf | Hf]%orb_true_iff | [_ Hv]%andb_true_iff].
      - apply negb_true_iff, bool_decide_eq_false in Hf. by destruct (ti_memory _ _ _ HI).
      - apply bool_decide_eq_true in Hf. by apply (ti_mode _ _ _ HI).
      - by apply bool_decide_eq_true in Hv. }
    rewrite Eb. unfold bounded_pending_empty. rewrite bool_decide_true by done. rewrite Hsu.
    destruct (unbounded_ready p conf taken HI Hbe) as (u & Hu & Hs & Hl). rewrite Hu.
    destruct (process_cements constants _ _ _ HC u conf _ b (bd_batch_write_size (hp_bounded p))
      (λ n, be_round (pe_rounds r n)) (pe_fuel r) Hs Hb Hst Hfuel) as (u' & conf' & l & -> & Hs' & HL' & Hex & _).
    cbn [mbind run_bind]. exists (after_unbounded u' p1), conf'. split; [done |]. split; [| by rewrite <- Eq, <- Epa].
    eapply (taken_inv p); [done | done | | | | done | done].
    + rewrite <- Hl. split_and!; [done | apply (se_floor _ _ _ _ _ Hs') | apply (se_closed _ _ _ _ _ Hs') | done].
    + apply memory_unbounded; [simpl; by rewrite Eb |]. by destruct u'.
    + intros _. simpl. by rewrite Eb.
  - assert (Hcond : mode ≠ mode_unbounded ∧ ub_pending_writes (hp_unbounded p) = []).
    { unfold use_unbounded in Huse. rewrite Eu in Huse. apply orb_false_iff in Huse as [[H1 H2]%orb_false_iff _].
      apply negb_false_iff, bool_decide_eq_true in H1. by apply bool_decide_eq_false in H2. }
    destruct Hcond as [Hm Hue]. rewrite Eu. unfold pending_empty. rewrite (bool_decide_true (ub_pending_writes _ = [])) by done.
    assert (Hmb : bool_decide (mode = mode_bounded) || bool_decide (mode = mode_automatic) = true) by (by destruct mode).
    rewrite Hmb. cbn [andb]. rewrite Hsb. destruct (bounded_ready p conf taken HI Hue) as (u & Hu & Hs & Hl). rewrite Hu.
    destruct (bounded_process_cements constants max_items _ _ _ HC Hup u conf _ b depth (pe_rounds r) (pe_fuel r)
      (pe_walk_fuel r) Hs Hb Hsh Hst Hfuel Hwf) as (u' & conf' & l & -> & Hs' & HL' & Hex & _).
    cbn [mbind run_bind]. exists (after_bounded u' p1), conf'. split; [done |]. split; [| by rewrite <- Eq, <- Epa].
    eapply (taken_inv p); [done | done | | | done | done | done].
    + rewrite <- Hl. split_and!; [done | apply (ho_floor _ _ _ _ (bs_heights _ _ _ _ _ Hs')) | apply (bs_closed _ _ _ _ _ Hs') | done].
    + apply memory_bounded; [simpl; by rewrite Eu |]. by destruct u'.
Qed.

(** ** A pass over an empty queue *)

Lemma cleanup_inv p p' conf taken :
  thread_inv p conf taken → cemented_ledger s (hp_ledger p) (hp_ledger p') →
  ub_pending_writes (hp_unbounded p') = [] → bd_pending_writes (hp_bounded p') = [] →
  (∀ a, table_height (hp_ledger p') a = conf a) → hp_awaiting_processing p' = hp_awaiting_processing p →
  thread_inv (lock_and_cleanup p') conf taken.
Proof using.
  intros HI HL Hu Hb Ht Hq. split; try apply HI; try done.
  - by apply memory_idle.
  - eapply cemented_ledger_trans; [apply HI | done].
  - intros x Hx. right. simpl. rewrite Ht. apply (ti_exact _ _ _ HI); [by apply (ti_taken _ _ _ HI) |].
    right. by exists x.
  - simpl. rewrite Hq. apply HI.
Qed.

Lemma flush_ok r p conf taken :
  thread_inv p conf taken →
  ∃ p', flush_pending r p = Done p' ∧ thread_inv p' conf taken ∧ idle p' = true ∧
    hp_awaiting_processing p' = hp_awaiting_processing p ∧ hp_paused p' = hp_paused p.
Proof using HF HW.
  intros HI. pose proof (cf_chains _ _ _ HF) as HC. pose proof (wk_up _ HW) as Hup. unfold flush_pending.
  unfold bounded_pending_empty at 1. case_bool_decide as Hb; cbn [negb].
  - unfold pending_empty. case_bool_decide as Hu; cbn [negb].
    + eexists. split; [done |]. split_and!; [| | done | done].
      * apply (cleanup_inv p); [done | apply cemented_ledger_refl | done | done | | done].
        by apply (memory_table p conf (ti_memory _ _ _ HI)).
      * unfold idle, bounded_pending_empty, pending_empty. simpl. by rewrite Hb, Hu.
    + assert (Hs : settled (shared_unbounded p) conf) by (by destruct (ti_memory _ _ _ HI)).
      destruct (settled_cement constants _ _ _ HC _ conf Hs) as (u' & -> & Hs' & Hp' & Ht' & HL' & _).
      cbn [lift mbind run_bind]. eexists. split; [done |]. split_and!; [| | done | done].
      * by apply (cleanup_inv p).
      * unfold idle, bounded_pending_empty, pending_empty. simpl. by rewrite Hb, Hp'.
  - assert (Hue : ub_pending_writes (hp_unbounded p) = []) by (by destruct (ti_memory _ _ _ HI)).
    assert (Hs : bounded_settled (shared_bounded p) conf) by (by destruct (ti_memory _ _ _ HI)).
    unfold pending_empty. rewrite bool_decide_true by done.
    destruct (bounded_settled_cement constants _ _ _ HC Hup (pe_times r) _ conf Hs) as (u' & -> & Hs' & Hp' & Ht' & HL' & _).
    cbn [lift mbind run_bind]. eexists. split; [done |]. split_and!; [| | done | done].
    + by apply (cleanup_inv p).
    + unfold idle, bounded_pending_empty, pending_empty. simpl. by rewrite Hp', Hue.
Qed.

(** ** Runs *)

(** What other threads and the thread itself do, with the hashes added so far. *)
Inductive thread_reachable : height_processor → list Z → Prop :=
| thread_start : thread_reachable (height_processor_new L0) []
| thread_add p added b :
    thread_reachable p added → addable b → thread_reachable (height_processor_add b p) (block_hash b.1 :: added)
| thread_pause p added : thread_reachable p added → thread_reachable (pause p) added
| thread_unpause p added : thread_reachable p added → thread_reachable (unpause p) added
| thread_pass p added r p' :
    thread_reachable p added → good_env r → run_pass r p = Done p' → thread_reachable p' added.

Abbreviation queued p := (map (λ b, block_hash b.1) (hp_awaiting_processing p)).

(** What was added was taken or is in the queue. *)
Definition accounted (p : height_processor) (taken added : list Z) : Prop :=
  ∀ x, x ∈ added ↔ x ∈ taken ∨ x ∈ queued p.

Lemma pass_ok r p conf taken added :
  thread_inv p conf taken → accounted p taken added → good_env r →
  ∃ p' conf' taken', run_pass r p = Done p' ∧ thread_inv p' conf' taken' ∧ accounted p' taken' added ∧
    hp_paused p' = hp_paused p ∧
    (hp_paused p = false → match hp_awaiting_processing p with
      | _ :: rest => hp_awaiting_processing p' = rest
      | [] => hp_awaiting_processing p' = [] ∧ idle p' = true
      end).
Proof using HF HW.
  intros HI Hacc Hr. unfold ConfirmationProcessor.run_pass. destruct (hp_paused p) eqn:Hpa.
  { eexists _, conf, taken. split; [done |]. split_and!; [| done | done | done].
    destruct HI as [Hm ? ? ? ? ? ? ? ?]. split; try done. destruct Hm; [by apply memory_idle | by apply memory_unbounded | by apply memory_bounded]. }
  destruct (hp_awaiting_processing p) as [| b rest] eqn:Hq.
  - destruct (flush_ok r p conf taken HI) as (p' & -> & HI' & Hid & Hq' & Hpa').
    exists p', conf, taken. rewrite Hq in Hq'. split_and!; [done | done | | congruence | done].
    intros x. rewrite (Hacc x), Hq, Hq'. done.
  - destruct (process_next_ok r p conf taken b rest HI Hr Hq) as (p' & conf' & -> & HI' & Hq' & Hpa').
    exists p', conf', (block_hash b.1 :: taken). split_and!; [done | done | | congruence | done].
    intros x. rewrite (Hacc x), Hq, Hq'. simpl. rewrite !elem_of_cons. tauto.
Qed.

Lemma start_inv : thread_inv (height_processor_new L0) (table_height L0) [].
Proof using HF.
  split; try done; simpl.
  - by apply memory_idle.
  - apply cemented_ledger_refl.
  - apply (cf_closed _ _ _ HF).
  - intros k Hk. split; [by left |]. intros [? | (x & ?%elem_of_nil & _)]; done.
  - by intros x ?%elem_of_nil.
  - by intros x ?%elem_of_nil.
  - by intros b ?%elem_of_nil.
Qed.

Lemma thread_reachable_inv p added :
  thread_reachable p added → ∃ conf taken, thread_inv p conf taken ∧ accounted p taken added.
Proof using HF HW.
  assert (Hmem : ∀ p conf o, memory p conf → memory (hp_set_paused o p) conf).
  { intros p0 conf0 o []; [by apply memory_idle | by apply memory_unbounded | by apply memory_bounded]. }
  induction 1 as [| p added b _ (conf & taken & HI & Hacc) Hb | p added _ (conf & taken & HI & Hacc)
    | p added _ (conf & taken & HI & Hacc) | p added r p' _ (conf & taken & HI & Hacc) Hr Hp].
  - exists (table_height L0), []. split; [apply start_inv |]. intros x. simpl. by rewrite elem_of_nil; naive_solver.
  - exists conf, taken. split.
    + destruct HI as [Hm ? ? ? ? ? ? Haw ?]. split; try done.
      { destruct Hm; [by apply memory_idle | by apply memory_unbounded | by apply memory_bounded]. }
      intros b'. unfold height_processor_add. simpl. destruct (awaits _ _); [apply Haw |].
      rewrite elem_of_app, list_elem_of_singleton. intros [? | ->]; auto.
    + intros x. unfold height_processor_add. simpl. rewrite elem_of_cons, (Hacc x). unfold awaits. case_bool_decide as Hin.
      * naive_solver.
      * rewrite map_app, elem_of_app. simpl. rewrite list_elem_of_singleton. naive_solver.
  - exists conf, taken. split; [| done]. destruct HI. split; try done. by apply Hmem.
  - exists conf, taken. split; [| done]. destruct HI. split; try done. by apply Hmem.
  - destruct (pass_ok r p conf taken added HI Hacc Hr) as (p'' & conf' & taken' & Hp' & HI' & Hacc' & _).
    rewrite Hp in Hp'. injection Hp' as <-. eauto.
Qed.

(** Passes one after the other. *)
Fixpoint run_passes (rs : nat → pass_env) (n : nat) (p : height_processor) : run_result height_processor :=
  match n with
  | O => Done p
  | S n => p ← run_pass (rs n) p; run_passes rs n p
  end.

Lemma drain_ok rs n p conf taken added :
  thread_inv p conf taken → accounted p taken added → (∀ i, good_env (rs i)) → hp_paused p = false →
  length (hp_awaiting_processing p) = n →
  ∃ p' conf' taken', run_passes rs (S n) p = Done p' ∧ thread_inv p' conf' taken' ∧ accounted p' taken' added ∧
    hp_awaiting_processing p' = [] ∧ idle p' = true.
Proof using HF HW.
  intros HI Hacc Hrs. revert p conf taken HI Hacc. induction n as [| n IH]; intros p conf taken HI Hacc Hpa Hn.
  - cbn [run_passes]. destruct (pass_ok (rs 0%nat) p conf taken added HI Hacc (Hrs _)) as (p' & conf' & taken' & -> & HI' & Hacc' & _ & Hq).
    apply nil_length_inv in Hn. rewrite Hn in Hq. cbn [mbind run_bind]. exists p', conf', taken'. by destruct (Hq Hpa).
  - cbn [run_passes]. destruct (pass_ok (rs (S n)) p conf taken added HI Hacc (Hrs _)) as (p' & conf' & taken' & -> & HI' & Hacc' & Hpa' & Hq).
    destruct (hp_awaiting_processing p) as [| b rest] eqn:Hw; [done |]. cbn [mbind run_bind].
    apply (IH p' conf' taken' HI' Hacc'); [congruence |]. rewrite (Hq Hpa). simpl in Hn. lia.
Qed.

(** The table does not run ahead of the memory. *)
Lemma writes_raise cache h w conf a :
  writes_ok s (table_height L0) cache h w conf → h a <= conf a.
Proof using.
  revert h. induction w as [| q w IH]; simpl; intros h; [intros Hh; by rewrite Hh |]. intros [Hq Hw].
  specialize (IH _ Hw). pose proof (wo_above _ _ _ _ _ Hq). unfold update in IH. case_decide; subst; lia.
Qed.

Lemma pending_raise h w conf a : all_pending_ok s (table_height L0) h w conf → h a <= conf a.
Proof using.
  revert h. induction w as [| q w IH]; simpl; intros h; [intros Hh; by rewrite Hh |]. intros [Hq Hw].
  specialize (IH _ Hw). pose proof (po_above _ _ _ _ Hq). unfold update in IH. case_decide; subst; lia.
Qed.

Lemma table_le_memory p conf a : memory p conf → table_height (hp_ledger p) a <= conf a.
Proof using.
  intros [_ _ Ht | _ Hs | _ Hs]; [by rewrite Ht | |].
  - by apply (writes_raise _ _ _ _ _ (se_writes _ _ _ _ _ Hs)).
  - by apply (pending_raise _ _ _ _ (ho_writes _ _ _ _ (bs_heights _ _ _ _ _ Hs))).
Qed.

Lemma memory_one p conf :
  memory p conf → ub_pending_writes (hp_unbounded p) = [] ∨ bd_pending_writes (hp_bounded p) = [].
Proof using. intros []; auto. Qed.
End thread.

Section theorems.
Context `{Crypto} (constants : ledger_constants).

(** In every such state at most one of the two processors has writes pending,
    every added block is reported as being processed until the table says it is
    cemented, and only blocks cemented before and dependencies of added blocks are
    cemented. *)
Theorem added_blocks_tracked max_items mode L p added :
  orderly constants L → thread_reachable constants max_items mode L p added →
  (pending_empty (hp_unbounded p) = true ∨ bounded_pending_empty (hp_bounded p) = true) ∧
  (∀ x, x ∈ added → is_processing_added_block x p = true ∨
    height_of (lg_store L) x <= table_height (hp_ledger p) (chain_of (lg_store L) x)) ∧
  ∀ k, stored (lg_store L) k → height_of (lg_store L) k <= table_height (hp_ledger p) (chain_of (lg_store L) k) →
    height_of (lg_store L) k <= table_height L (chain_of (lg_store L) k) ∨
    ∃ x, x ∈ added ∧ rtc (depends constants (lg_store L)) x k.
Proof.
  intros HR Hp. destruct (orderly_inv constants L HR) as (HL & Hln & rank & HF).
  pose proof (linked_walkable constants L rank HL HF Hln) as HW.
  destruct (thread_reachable_inv constants max_items mode L rank HF HW p added Hp) as (conf & taken & HI & Hacc).
  pose proof (ti_memory _ _ _ _ _ _ _ HI) as Hm. split_and!.
  - unfold pending_empty, bounded_pending_empty. rewrite !bool_decide_eq_true. by eapply memory_one.
  - intros x Hx. unfold is_processing_added_block, awaits. rewrite orb_true_iff, !bool_decide_eq_true.
    apply Hacc in Hx as [Hx | Hx]; [| by auto].
    destruct (ti_pending _ _ _ _ _ _ _ HI x Hx); auto.
  - intros k Hk Hc. pose proof (table_le_memory _ _ _ _ (chain_of (lg_store L) k) Hm).
    assert (height_of (lg_store L) k <= conf (chain_of (lg_store L) k)) as Hcf by lia.
    apply (ti_exact _ _ _ _ _ _ _ HI) in Hcf as [? | (x & Hx & Hr)]; [by left | | done].
    right. exists x. split; [| done]. apply Hacc. by left.
Qed.

End theorems.
