(* ===== verification/LedgerQueries.v ===== *)
(** * Ledger queries, pruning and start-up ([secure/ledger.cpp])

    The methods of [vxldollar::ledger] besides processing and rollback: balances
    and receivable amounts, the shape of blocks, dependencies, confirmation,
    successors, the voting weight, pruning, and the caches computed at
    start-up. *)

From S2P Require Import Prelude Traversal Blocks BlockCodec Common RepWeights EpochsWork Store Ledger.
From S2P Require Import LedgerApply LedgerInvariant LedgerSteps LedgerTheorems AccountBook.
From S2P Require Import Rollback RollbackTheorems CementInvariant CementRuns CementModes.

(** ** Balances *)

(** [balance_safe]: [None] is the error flag. *)
Definition balance_safe (L : ledger) (hash_a : Z) : outcome (option Z) :=
  if lg_pruning L && negb (hash_a =? 0) && negb (block_exists (lg_store L) hash_a)
  then Ok None
  else b ← balance L hash_a; Ok (Some b).

(** [account_balance]. *)
Definition account_balance (L : ledger) (account_a : Z) (only_confirmed : bool) : outcome Z :=
  if only_confirmed then
    match st_confirmation_height (lg_store L) !! account_a with
    | Some info => balance L (ch_frontier info)
    | None => Ok 0
    end
  else Ok (from_option ai_balance 0 (account_get (lg_store L) account_a)).

(** [amount_safe]; the flag of [balance_safe] is returned with 0. *)
Definition amount_safe (L : ledger) (hash_a : Z) : outcome (Z * bool) :=
  '(b, _) ← of_option (block_get (lg_store L) hash_a);
  block_balance ← balance L hash_a;
  previous_balance ← balance_safe L (previous b);
  Ok (match previous_balance with
      | None => (0, true)
      | Some p => (if p <? block_balance then block_balance - p else p - block_balance, false)
      end).

(** [amount (account)]: only for the genesis account. *)
Definition amount_genesis (constants : ledger_constants) (account_a : Z) : outcome Z :=
  if account_a =? account (lk_genesis constants) then Ok genesis_amount else Aborted.

(** [latest_root]. *)
Definition latest_root (L : ledger) (account_a : Z) : Z :=
  from_option ai_head account_a (account_get (lg_store L) account_a).

(** ** Confirmation *)

(** [block_confirmed]. *)
Definition block_confirmed (L : ledger) (hash_a : Z) : bool :=
  if pruned_exists (lg_store L) hash_a then true else
  match block_get (lg_store L) hash_a with
  | Some (b, sb) =>
      sb_height sb <=?
      ch_height (confirmation_height_get (lg_store L)
                   (if account b =? 0 then sb_account sb else account b))
  | None => false
  end.

(** ** Receivable amounts *)

(** The iterator over the pending table: the next key after [k]. *)
Definition pending_after (k : pending_key) : pending_key := (k.1, k.2 + 1).
Definition pending_next (s : store) (k : pending_key) : option pending_key :=
  pending_begin s (pending_after k).

(** The loop of [account_receivable] from iterator [i] to iterator [n]; going past
    the end of the table is an error of the iterator. *)
Fixpoint receivable_loop (fuel : nat) (L : ledger) (only_confirmed : bool)
    (i n : option pending_key) (result : Z) : run_result Z :=
  match fuel with
  | O => OutOfFuel
  | S fuel =>
      if bool_decide (i = n) then Done result else
      match i with
      | None => Crashed
      | Some k =>
          let amount := from_option pi_amount 0 (pending_get (lg_store L) k) in
          let result :=
            if only_confirmed then
              if block_confirmed L k.2 then wrap128 (result + amount) else result
            else wrap128 (result + amount) in
          receivable_loop fuel L only_confirmed (pending_next (lg_store L) k) n result
      end
  end.

(** [account_receivable]: the range from (account, 0) to (account + 1, 0); the
    account number is incremented in 256 bits. *)
Definition account_receivable (L : ledger) (account_a : Z) (only_confirmed : bool) : run_result Z :=
  let s := lg_store L in
  receivable_loop (S (size (st_pending s))) L only_confirmed
    (pending_begin s (account_a, 0)) (pending_begin s (wrap256 (account_a + 1), 0)) 0.

(** ** The shape of blocks *)

(** A block in memory may or may not carry its sideband. *)
Abbreviation block_in_memory := (block * option block_sideband)%type.

(** [ledger::is_send] for a state block. *)
Definition ledger_is_send (L : ledger) (h : state_hashables) (sb : option block_sideband) :
    outcome bool :=
  match sb with
  | Some sb => Ok (is_send (sb_details sb))
  | None =>
      if negb (state_previous h =? 0) then
        b ← balance L (state_previous h); Ok (state_balance h <? b)
      else Ok false
  end.

(** [block_destination]. *)
Definition block_destination (L : ledger) (b : block_in_memory) : outcome Z :=
  match b with
  | (send_block h _ _, _) => Ok (send_destination h)
  | (state_block h _ _, sb) =>
      send ← ledger_is_send L h sb; Ok (if (send : bool) then state_link h else 0)
  | _ => Ok 0
  end.

(** [block_source]. *)
Definition block_source (L : ledger) (b : block_in_memory) : outcome Z :=
  match b with
  | (state_block h _ _, sb) =>
      send ← ledger_is_send L h sb; Ok (if (send : bool) then source b.1 else state_link h)
  | (b, _) => Ok (source b)
  end.

Section dependencies.
Context (constants : ledger_constants).

(** [dependent_block_visitor]. *)
Definition dependent_blocks (L : ledger) (b : block_in_memory) : outcome (Z * Z) :=
  match b with
  | (send_block h _ _, _) => Ok (send_previous h, 0)
  | (receive_block h _ _, _) => Ok (receive_previous h, receive_source h)
  | (open_block h _ _, _) =>
      Ok (if negb (open_source h =? account (lk_genesis constants)) then open_source h else 0, 0)
  | (change_block h _ _, _) => Ok (change_previous h, 0)
  | (state_block h _ _, sb) =>
      clear ← (if is_epoch_link constants (state_link h) then Ok true
               else if bool_decide (is_Some sb) || block_exists (lg_store L) (state_previous h)
               then ledger_is_send L h sb else Ok false);
      Ok (state_previous h, if (clear : bool) then 0 else state_link h)
  end.

(** [could_fit]. *)
Definition could_fit (L : ledger) (b : block_in_memory) : outcome bool :=
  '(d0, d1) ← dependent_blocks L b;
  let fits h := (h =? 0) || block_exists (lg_store L) h in
  Ok (fits d0 && fits d1).

(** [dependents_confirmed]. *)
Definition dependents_confirmed (L : ledger) (b : block_in_memory) : outcome bool :=
  '(d0, d1) ← dependent_blocks L b;
  let confirmed h := (h =? 0) || block_confirmed L h in
  Ok (confirmed d0 && confirmed d1).

(** [ledger::epoch_link]. *)
Definition epoch_link (e : epoch) : outcome Z := of_option (epochs_link (lk_epochs constants) e).
End dependencies.

(** The loop of [find_receive_block_by_send_hash]. *)
Fixpoint find_receive_loop (fuel : nat) (s : store) (send_block_hash : Z)
    (possible : option block_w_sideband) : run_result (option block) :=
  match fuel with
  | O => OutOfFuel
  | S fuel =>
      match possible with
      | None => Done None
      | Some (b, sb) =>
          let src :=
            match b with
            | state_block h _ _ => if is_receive (sb_details sb) then state_link h else source b
            | _ => source b
            end in
          if send_block_hash =? src then Done (Some b)
          else find_receive_loop fuel s send_block_hash (block_get s (previous b))
      end
  end.

(** [find_receive_block_by_send_hash]: from the cemented frontier downwards. *)
Definition find_receive_block_by_send_hash (fuel : nat) (L : ledger) (destination_a send_block_hash : Z) :
    run_result (option block) :=
  match st_confirmation_height (lg_store L) !! destination_a with
  | None => Done None
  | Some info =>
      find_receive_loop fuel (lg_store L) send_block_hash (block_get (lg_store L) (ch_frontier info))
  end.

(** ** Successors and forks *)

(** [ledger::successor]; the root is (root, previous). *)
Definition successor (L : ledger) (root_a : Z * Z) : option block_w_sideband :=
  let s := lg_store L in
  let succ :=
    match (if root_a.2 =? 0 then account_get s root_a.1 else None) with
    | Some info => ai_open_block info
    | None => block_successor s root_a.2
    end in
  if negb (succ =? 0) then block_get s succ else None.

(** [forked_block]. *)
Definition forked_block (L : ledger) (b : block) : option block_w_sideband :=
  let s := lg_store L in
  match block_get s (block_successor s (root b)) with
  | Some r => Some r
  | None => block_get s (ai_open_block (account_info_or_default L (root b)))
  end.

(** ** Voting weight *)

Record bootstrap := Bootstrap {
  bs_weights : gmap Z Z;
  bs_max_blocks : Z;
  bs_check : bool;
}.

(** [ledger::weight]: the preconfigured weights until enough blocks are there; the
    flag is cleared the first time they are. *)
Definition weight (L : ledger) (bs : bootstrap) (account_a : Z) : Z * bootstrap :=
  let cached := representation_get (lc_rep_weights (lg_cache L)) account_a in
  if bs_check bs then
    if lc_block_count (lg_cache L) <? bs_max_blocks bs then
      (default cached (bs_weights bs !! account_a), bs)
    else (cached, Bootstrap (bs_weights bs) (bs_max_blocks bs) false)
  else (cached, bs).

(** ** Pruning *)

Definition set_pruned_count (f : Z → Z) (L : ledger) : ledger :=
  let c := lg_cache L in
  with_cache (LedgerCache (lc_rep_weights c) (lc_cemented_count c) (lc_block_count c)
    (f (lc_pruned_count c)) (lc_account_count c) (lc_final_votes_canary c)) L.

Section pruning.
Context `{Crypto} (constants : ledger_constants).

(** [pruning_action]: from [hash] down the chain, to the genesis block or to a
    block pruned before.  Batch commits do not change the tables. *)
Fixpoint pruning_loop (fuel : nat) (L : ledger) (hash pruned_count : Z) : run_result (Z * ledger) :=
  match fuel with
  | O => OutOfFuel
  | S fuel =>
      if negb (hash =? 0) && negb (hash =? block_hash (lk_genesis constants)) then
        match block_get (lg_store L) hash with
        | Some (b, _) =>
            s ← lift (block_del (lg_store L) hash);
            pruning_loop fuel
              (set_pruned_count (λ n, wrap64 (n + 1)) (with_store (pruned_put s hash) L))
              (previous b) (wrap64 (pruned_count + 1))
        | None =>
            if pruned_exists (lg_store L) hash then pruning_loop fuel L 0 pruned_count else Crashed
        end
      else Done (pruned_count, L)
  end.

Definition pruning_action (fuel : nat) (L : ledger) (hash_a : Z) : run_result (Z * ledger) :=
  pruning_loop fuel L hash_a 0.
End pruning.

(** ** Unconfirmed frontiers *)

(** The multimap is ordered by decreasing height difference. *)
Definition higher_delta (x y : Z * (Z * Z * Z)) : Prop := y.1 <= x.1.
#[export] Instance higher_delta_dec : RelDecision higher_delta.
Proof. intros x y. unfold higher_delta. apply _. Defined.

(** [unconfirmed_frontiers]: a height difference and an [uncemented_info]
    (cemented frontier, frontier, account) per account that is not fully
    cemented.  Entries of equal difference come in the order of the traversal. *)
Definition unconfirmed_frontiers (L : ledger) : list (Z * (Z * Z * Z)) :=
  merge_sort higher_delta
    (omap (λ '(a, info),
       let conf := confirmation_height_get (lg_store L) a in
       if negb (ai_block_count info =? ch_height conf)
       then Some (wrap64 (ai_block_count info - ch_height conf), (ch_frontier conf, ai_head info, a))
       else None) (map_to_list (st_accounts (lg_store L)))).

(** ** Start-up *)

Record generate_cache := GenerateCache {
  gc_reps : bool;
  gc_cemented_count : bool;
  gc_unchecked_count : bool;
  gc_account_count : bool;
  gc_block_count : bool;
}.

(** [generate_cache::enable_all], which leaves [block_count] as it is. *)
Definition enable_all (g : generate_cache) : generate_cache :=
  GenerateCache true true true true (gc_block_count g).

(** One range of the parallel traversal of the accounts: local counters, merged at
    the end. *)
Definition initialize_range (c : ledger_cache) (range : list (Z * account_info)) : ledger_cache :=
  let block_count_l := fold_left (λ n x, wrap64 (n + ai_block_count x.2)) range 0 in
  let account_count_l := fold_left (λ n _, wrap64 (n + 1)) range 0 in
  let rep_weights_l :=
    fold_left (λ w x, representation_add w (ai_representative x.2) (ai_balance x.2)) range ∅ in
  LedgerCache (copy_from (lc_rep_weights c) (map_to_list rep_weights_l)) (lc_cemented_count c)
    (wrap64 (lc_block_count c + block_count_l)) (lc_pruned_count c)
    (wrap64 (lc_account_count c + account_count_l)) (lc_final_votes_canary c).

(** One range of the traversal of the confirmation heights. *)
Definition initialize_cemented_range (c : ledger_cache)
    (range : list (Z * confirmation_height_info)) : ledger_cache :=
  let cemented_count_l := fold_left (λ n x, wrap64 (n + ch_height x.2)) range 0 in
  LedgerCache (lc_rep_weights c) (wrap64 (lc_cemented_count c + cemented_count_l))
    (lc_block_count c) (lc_pruned_count c) (lc_account_count c) (lc_final_votes_canary c).

(** [ledger::initialize] on the tables; the ranges of [for_each_par] are merged in
    the order in which the threads get the locks. *)
Definition ledger_initialize (constants : ledger_constants) (s : store) (g : generate_cache)
    (accounts : list (list (Z * account_info)))
    (heights : list (list (Z * confirmation_height_info))) : ledger_cache :=
  let c := LedgerCache ∅ 0 0 0 0 false in
  let c := if gc_reps g || gc_account_count g || gc_block_count g
           then fold_left initialize_range accounts c else c in
  let c := if gc_cemented_count g then fold_left initialize_cemented_range heights c else c in
  LedgerCache (lc_rep_weights c) (lc_cemented_count c) (lc_block_count c)
    (Z.of_nat (pruned_count s)) (lc_account_count c)
    (match st_confirmation_height s !! lk_canary_account constants with
     | Some info => lk_canary_height constants <=? ch_height info
     | None => lc_final_votes_canary c
     end).

(** ** Start-up recovers the cache *)

Lemma sum_map_lsum {A} (f : A → Z) (m : gmap Z A) :
  sum_map f m = lsum (λ x, f x.2) (map_to_list m).
Proof.
  unfold sum_map, lsum. rewrite map_fold_foldr.
  induction (map_to_list m) as [| [k x] l IH]; [done |]. simpl. by rewrite IH.
Qed.

Lemma fold_wrap64 {A} (f : A → Z) l n :
  is_u64 n → fold_left (λ n x, wrap64 (n + f x)) l n = wrap64 (n + lsum f l).
Proof.
  revert n. induction l as [| x l IH]; intros n Hn; simpl.
  - rewrite Z.add_0_r, wrap64_small; done.
  - rewrite IH by auto with widths. rewrite wrap64_add_l. f_equal. unfold lsum. lia.
Qed.

Lemma fold_representation l w r :
  (∀ r, is_u128 (rw_get w r)) →
  rw_get (fold_left (λ w (x : Z * account_info),
            representation_add w (ai_representative x.2) (ai_balance x.2)) l w) r =
    wrap128 (rw_get w r + lsum (λ x, rep_balance r x.2) l).
Proof.
  revert w. induction l as [| x l IH]; intros w Hw; simpl.
  - rewrite Z.add_0_r, wrap128_small; done.
  - rewrite IH by (intros; by apply rw_get_add_range).
    rewrite rw_get_add_delta, wrap128_add_l by done. unfold rep_balance at 2. f_equal.
    unfold lsum. lia.
Qed.

Lemma rw_get_copy_from_map w (m : rep_weights) r :
  is_u128 (rw_get w r) → rw_get (copy_from w (map_to_list m)) r = wrap128 (rw_get w r + rw_get m r).
Proof.
  intros Hw. rewrite rw_get_copy_from. unfold rw_get at 3. rewrite <- lsum_lookup.
  generalize (rw_get w r) Hw. clear. induction (map_to_list m) as [| [k v] l IH]; intros acc Ha; simpl.
  - rewrite Z.add_0_r, wrap128_small; done.
  - case_decide; subst; simpl.
    + rewrite IH by auto with widths. rewrite wrap128_add_l. f_equal. unfold lsum. lia.
    + by rewrite IH by done.
Qed.

(** What a traversal adds to the cache, range by range. *)
Lemma fold_initialize_range ranges c :
  (∀ r, is_u128 (rw_get (lc_rep_weights c) r)) → is_u64 (lc_block_count c) →
  is_u64 (lc_account_count c) →
  let c' := fold_left initialize_range ranges c in
  (∀ r, rw_get (lc_rep_weights c') r =
    wrap128 (rw_get (lc_rep_weights c) r + lsum (λ x, rep_balance r x.2) (concat ranges))) ∧
  lc_block_count c' = wrap64 (lc_block_count c + lsum (λ x, ai_block_count x.2) (concat ranges)) ∧
  lc_account_count c' = wrap64 (lc_account_count c + Z.of_nat (length (concat ranges))) ∧
  lc_cemented_count c' = lc_cemented_count c.
Proof.
  revert c. induction ranges as [| l ls IH]; intros c Hw Hb Ha; simpl.
  - split_and!; intros; rewrite ?Z.add_0_r, ?wrap128_small, ?wrap64_small; done.
  - assert (Hlocal : ∀ r, rw_get (lc_rep_weights (initialize_range c l)) r =
      wrap128 (rw_get (lc_rep_weights c) r + lsum (λ x, rep_balance r x.2) l)).
    { intros r. unfold initialize_range. simpl. rewrite rw_get_copy_from_map by done.
      rewrite fold_representation by (intros; done). unfold rw_get at 2. rewrite lookup_empty. simpl.
      by rewrite Z.add_0_l, wrap128_add_r. }
    destruct (IH (initialize_range c l)) as (IHw & IHb & IHa & IHc).
    { intros r. rewrite Hlocal. auto with widths. }
    { apply wrap64_range. }
    { apply wrap64_range. }
    split_and!.
    + intros r. rewrite IHw, Hlocal, wrap128_add_l, lsum_app. f_equal. lia.
    + rewrite IHb. unfold initialize_range; simpl.
      rewrite fold_wrap64, wrap64_add_l, lsum_app by done. rewrite wrap64_add_m. f_equal. lia.
    + rewrite IHa. unfold initialize_range; simpl.
      rewrite (fold_wrap64 (λ _, 1)) by done. rewrite wrap64_add_l, wrap64_add_m, length_app. f_equal.
      assert (Hl : ∀ l : list (Z * account_info), lsum (λ _, 1) l = Z.of_nat (length l))
        by (clear; induction l; unfold lsum in *; simpl; lia).
      rewrite Hl. lia.
    + by rewrite IHc.
Qed.

Lemma fold_initialize_cemented ranges c :
  is_u64 (lc_cemented_count c) →
  let c' := fold_left initialize_cemented_range ranges c in
  lc_cemented_count c' = wrap64 (lc_cemented_count c + lsum (λ x, ch_height x.2) (concat ranges)) ∧
  lc_rep_weights c' = lc_rep_weights c ∧ lc_block_count c' = lc_block_count c ∧
  lc_account_count c' = lc_account_count c.
Proof.
  revert c. induction ranges as [| l ls IH]; intros c Hc; simpl.
  - split_and!; rewrite ?Z.add_0_r, ?wrap64_small; done.
  - destruct (IH (initialize_cemented_range c l)) as (IHc & IHw & IHb & IHa); [apply wrap64_range |].
    split_and!; [| by rewrite IHw | by rewrite IHb | by rewrite IHa].
    rewrite IHc. unfold initialize_cemented_range; simpl.
    rewrite fold_wrap64, wrap64_add_l, wrap64_add_m, lsum_app by done. f_equal. lia.
Qed.

Lemma concat_perm {A} (l l' : list (list A)) : l ≡ₚ l' → concat l ≡ₚ concat l'.
Proof.
  induction 1 as [| x l l' _ IH | x y l | l l' l'' _ IH _ IH']; simpl.
  - done.
  - by rewrite IH.
  - rewrite !app_assoc. by rewrite (Permutation_app_comm y x).
  - by rewrite IH.
Qed.

(** C35: The cache that start-up rebuilds from the tables by the parallel traversal,
    for any number of hardware threads and any order in which they finish, has the
    weights and the block, account and cemented counts of the cache maintained
    incrementally, on every ledger reached by processing blocks and on every one
    reached by processing and cementing them (by the unbounded processor, or without
    epoch opens on foreign blocks by either), with account numbers of their width. *)
Theorem startup_recovers_cache `{Crypto} constants L hw accounts heights :
  reachable constants L ∨ node_reachable constants L ∨ orderly constants L →
  (∀ a, is_Some (st_accounts (lg_store L) !! a) → is_u256 a) →
  (∀ a, is_Some (st_confirmation_height (lg_store L) !! a) → is_u256 a) →
  accounts ≡ₚ for_each_par hw (st_accounts (lg_store L)) →
  heights ≡ₚ for_each_par hw (st_confirmation_height (lg_store L)) →
  let c := ledger_initialize constants (lg_store L) (GenerateCache true true true true true)
             accounts heights in
  (∀ r, representation_get (lc_rep_weights c) r =
        representation_get (lc_rep_weights (lg_cache L)) r) ∧
  lc_block_count c = lc_block_count (lg_cache L) ∧
  lc_account_count c = lc_account_count (lg_cache L) ∧
  lc_cemented_count c = lc_cemented_count (lg_cache L).
Proof.
  intros HR Hka Hkh Ha%concat_perm Hh%concat_perm. assert (HL : ledger_inv L).
  { destruct HR as [HR | [HR | HR]]; [by eapply reachable_inv | by destruct (node_reachable_inv constants L HR) |
      by destruct (orderly_inv constants L HR)]. }
  rewrite for_each_par_perm in Ha by done. rewrite for_each_par_perm in Hh by done. unfold ledger_initialize. simpl.
  destruct (fold_initialize_range accounts (LedgerCache ∅ 0 0 0 0 false)) as (Hw & Hb & Hn & Hc);
    [done.. |].
  match goal with |- context [fold_left initialize_cemented_range heights ?x] =>
    destruct (fold_initialize_cemented heights x) as (Hc' & Hw' & Hb' & Hn') end.
  { by rewrite Hc. }
  rewrite Hw', Hb', Hn', Hc', Hb, Hn, Hc. simpl. split_and!.
  - intros r. unfold representation_get. rewrite Hw, (lsum_perm _ _ _ Ha), <- (sum_map_lsum (rep_balance r)).
    rewrite <- (inv_weights L HL). simpl. apply wrap128_small, (inv_weight_range L HL).
  - rewrite (lsum_perm _ _ _ Ha), <- (sum_map_lsum ai_block_count). symmetry. apply HL.
  - rewrite (Permutation_length Ha), length_map_to_list. symmetry. apply HL.
  - rewrite (lsum_perm _ _ _ Hh), <- (sum_map_lsum ch_height). symmetry. apply HL.
Qed.

(** ** Receivable amounts are exact *)

Section receivable.
Context (L : ledger) (only_confirmed : bool) (hi : Z).

Local Abbreviation s := (lg_store L).
Local Abbreviation M := (st_pending (lg_store L)).

Context (Hhash : ∀ k, is_Some (M !! k) → 0 <= k.2).
Context (Hamount : ∀ k p, M !! k = Some p → 0 <= pi_amount p).

(** Does the loop add this entry? *)
Definition counted (k : pending_key) : bool := negb only_confirmed || block_confirmed L k.2.

(** The entries from [lo] up to account [hi]. *)
Definition in_range (lo : pending_key) (kp : pending_key * pending_info) : Prop :=
  key_le lo kp.1 = true ∧ key_le (hi, 0) kp.1 = false ∧ counted kp.1 = true.
#[local] Instance in_range_dec lo kp : Decision (in_range lo kp).
Proof. unfold in_range. apply _. Defined.

Definition range_sum (lo : pending_key) : Z := sum_map pi_amount (filter (in_range lo) M).
Definition remaining (lo : pending_key) : nat := size (filter (λ kp, key_le lo kp.1 = true) M).

Lemma range_sum_nonneg lo : 0 <= range_sum lo.
Proof using Hamount.
  apply sum_map_nonneg. intros k p Hk. apply map_lookup_filter_Some in Hk as [Hk _]. eauto.
Qed.

(** Keys at or above [lo] are [k] itself or above [k]. *)
Lemma begin_next lo k j :
  pending_begin s lo = Some k → is_Some (M !! j) →
  key_le lo j = true ↔ j = k ∨ key_le (pending_after k) j = true.
Proof using.
  intros Hb Hj. pose proof (pending_begin_spec s lo) as Hs. rewrite Hb in Hs.
  destruct Hs as (_ & Hlo & Hmin). split.
  - intros Hle. pose proof (Hmin j Hj Hle) as Hkj. destruct j as [j1 j2], k as [k1 k2].
    unfold key_le, pending_after in *. simpl in *.
    destruct (decide (k1 = j1 ∧ k2 = j2)) as [[-> ->] | Hne]; [by left |]. right. lia.
  - intros [-> | Hn]; [done |]. apply (key_le_trans _ k); [done |].
    unfold key_le, pending_after in *. simpl in *. lia.
Qed.

Lemma range_sum_step lo k p :
  pending_begin s lo = Some k → M !! k = Some p → key_le (hi, 0) k = false →
  range_sum lo = (if counted k then pi_amount p else 0) + range_sum (pending_after k) ∧
  (remaining (pending_after k) < remaining lo)%nat.
Proof using.
  intros Hb Hk Hhi.
  assert (Hself : key_le (pending_after k) k = false) by (unfold key_le, pending_after; simpl; lia).
  assert (Hlo : key_le lo k = true) by (apply (begin_next lo k k Hb); [by eexists | by left]).
  assert (Hsplit : ∀ P Q : pending_key * pending_info → Prop, ∀ `{∀ x, Decision (P x)} `{∀ x, Decision (Q x)},
    (∀ j x, M !! j = Some x → j ≠ k → P (j, x) ↔ Q (j, x)) → P (k, p) → ¬ Q (k, p) →
    filter P M = <[k := p]> (filter Q M) ∧ filter Q M !! k = None).
  { intros P Q HP HQ Heq Hp Hq. split.
    - apply map_eq. intros j. rewrite lookup_insert. case_decide as Hjk; [subst j |].
      + by apply map_lookup_filter_Some.
      + apply option_eq. intros x. rewrite !map_lookup_filter_Some.
        split; intros [? ?]; (split; [done |]; by apply (Heq j x); auto).
    - apply map_lookup_filter_None. right. intros x Hx. by simplify_eq. }
  split.
  - unfold range_sum. destruct (counted k) eqn:Hc.
    + destruct (Hsplit (in_range lo) (in_range (pending_after k)) _ _) as [-> Hn].
      * intros j x Hj Hne. unfold in_range. simpl. rewrite (begin_next lo k j Hb) by (by eexists).
        naive_solver.
      * by unfold in_range.
      * unfold in_range. simpl. naive_solver congruence.
      * by rewrite sum_map_insert.
    + rewrite Z.add_0_l. f_equal. apply map_filter_strong_ext. intros j x.
      unfold in_range. simpl. split.
      * intros [(Hl & ? & ?) Hj]. split; [| done].
        apply (begin_next lo k j Hb) in Hl as [-> | ?]; [congruence | done | by eexists].
      * intros [(Hl & ? & ?) Hj]. split; [| done]. split_and!; try done.
        apply (begin_next lo k j Hb); [by eexists | by right].
  - unfold remaining. destruct (Hsplit (λ kp, key_le lo kp.1 = true)
      (λ kp, key_le (pending_after k) kp.1 = true) _ _) as [-> Hn].
    + intros j x Hj Hne. simpl. rewrite (begin_next lo k j Hb) by (by eexists). naive_solver.
    + done.
    + simpl. congruence.
    + rewrite map_size_insert_None by done. lia.
Qed.

(** No entry is left when the iterator has reached the end of the range. *)
Lemma range_sum_end lo :
  key_le lo (hi, 0) = true → pending_begin s lo = pending_begin s (hi, 0) → range_sum lo = 0.
Proof using.
  intros Hle He. unfold range_sum. replace (filter (in_range lo) M) with (∅ : gmap pending_key pending_info);
    [apply sum_map_empty |].
  symmetry. apply map_empty. intros j. apply map_lookup_filter_None. right.
  intros x Hj (Hl & Hh & _). simpl in *.
  pose proof (pending_begin_spec s lo) as Hs. pose proof (pending_begin_spec s (hi, 0)) as Hs'.
  rewrite <- He in Hs'. destruct (pending_begin s lo) as [k |].
  - destruct Hs as (_ & _ & Hmin). destruct Hs' as (_ & Hhk & _).
    assert (Hj' : is_Some (M !! j)) by (by eexists).
    pose proof (key_le_trans _ _ _ Hhk (Hmin j Hj' Hl)). congruence.
  - rewrite (Hs j) in Hl; [done |]. by eexists.
Qed.

(** An iterator that has not reached the end points below it. *)
Lemma begin_below lo :
  key_le lo (hi, 0) = true → pending_begin s lo ≠ pending_begin s (hi, 0) →
  ∃ k p, pending_begin s lo = Some k ∧ M !! k = Some p ∧ key_le (hi, 0) k = false.
Proof using.
  intros Hle Hne. pose proof (pending_begin_spec s lo) as Hs.
  pose proof (pending_begin_spec s (hi, 0)) as Hs'.
  destruct (pending_begin s lo) as [k |].
  - destruct Hs as ([p Hp] & Hlo & Hmin). exists k, p. split_and!; [done.. |].
    destruct (key_le (hi, 0) k) eqn:Hk; [| done]. exfalso. apply Hne.
    destruct (pending_begin s (hi, 0)) as [n |].
    + destruct Hs' as (Hn & Hhn & Hmin'). f_equal. apply key_le_antisym.
      * apply Hmin; [done |]. by apply (key_le_trans _ (hi, 0)).
      * apply Hmin'; [by eexists | done].
    + rewrite (Hs' k) in Hk; [done | by eexists].
  - exfalso. apply Hne. destruct (pending_begin s (hi, 0)) as [n |]; [| done].
    destruct Hs' as (Hn & Hhn & _).
    pose proof (key_le_trans _ _ _ Hle Hhn) as Ht. by rewrite (Hs n Hn) in Ht.
Qed.

Lemma receivable_loop_sum fuel lo result :
  (remaining lo < fuel)%nat → key_le lo (hi, 0) = true → 0 <= result →
  result + range_sum lo < u128_mod →
  receivable_loop fuel L only_confirmed (pending_begin s lo) (pending_begin s (hi, 0)) result =
  Done (result + range_sum lo).
Proof using Hhash Hamount.
  revert lo result. induction fuel as [| fuel IH]; intros lo result Hf Hle Hr0 Hr; [lia |]. simpl.
  case_bool_decide as He.
  - by rewrite (range_sum_end lo Hle He), Z.add_0_r.
  - destruct (begin_below lo Hle He) as (k & p & Hk & Hp & Hhi). rewrite Hk.
    destruct (range_sum_step lo k p Hk Hp Hhi) as [Hsum Hrem].
    unfold pending_get. rewrite Hp. simpl.
    pose proof (range_sum_nonneg (pending_after k)) as Hnn. pose proof (Hamount k p Hp) as Ha.
    assert (Hle' : key_le (pending_after k) (hi, 0) = true).
    { assert (0 <= k.2) by (apply Hhash; by eexists). unfold key_le, pending_after in *. simpl in *. lia. }
    unfold pending_next. rewrite Hsum in Hr |- *.
    replace (if only_confirmed then _ else _)
      with (result + if counted k then pi_amount p else 0).
    + rewrite IH by (done || destruct (counted k); lia). f_equal. lia.
    + unfold counted in *. destruct only_confirmed, (block_confirmed L k.2); simpl in *;
        rewrite ?wrap128_small by (split; lia); lia.
Qed.
End receivable.

(** The range scan of account_receivable terminates and returns the sum of the
    pending amounts of that account, the confirmed ones only when asked, for every
    account below the largest 256-bit number. *)
Theorem account_receivable_exact `{Crypto} constants L a only_confirmed :
  reachable constants L → (∀ k, is_Some (st_pending (lg_store L) !! k) → 0 <= k.2) →
  0 <= a < u256_mod - 1 →
  account_receivable L a only_confirmed =
  Done (sum_map pi_amount
    (filter (λ kp, kp.1.1 = a ∧ (only_confirmed = true → block_confirmed L kp.1.2 = true))
       (st_pending (lg_store L)))).
Proof.
  intros HL%reachable_inv Hhash Ha. unfold account_receivable.
  assert (Hamount : ∀ k p, st_pending (lg_store L) !! k = Some p → 0 <= pi_amount p)
    by (intros k p Hp; by apply (inv_pending L HL k p)).
  replace (wrap256 (a + 1)) with (a + 1) by (unfold wrap256; rewrite Z.mod_small; lia).
  assert (Hrange : range_sum L only_confirmed (a + 1) (a, 0) =
    sum_map pi_amount
      (filter (λ kp, kp.1.1 = a ∧ (only_confirmed = true → block_confirmed L kp.1.2 = true))
         (st_pending (lg_store L)))).
  { unfold range_sum. f_equal. apply map_filter_strong_ext. intros k p. unfold in_range, counted. simpl.
    split; intros [Hx Hk]; (split; [| done]);
      assert (0 <= k.2) by (apply Hhash; by eexists); unfold key_le, pending_after in *; simpl in *.
    - destruct Hx as (? & ? & Hc). split; [lia |]. intros ->. done.
    - destruct Hx as [<- Hc]. split_and!; [lia | lia |]. destruct only_confirmed; [by apply Hc | done]. }
  rewrite <- Hrange. pose proof (range_sum_nonneg L only_confirmed (a + 1) Hamount (a, 0)) as Hnn.
  rewrite (receivable_loop_sum L only_confirmed (a + 1) Hhash Hamount); [f_equal; lia | | | lia |].
  - unfold remaining. apply Nat.lt_succ_r. apply map_size_filter.
  - unfold key_le, pending_after. simpl. lia.
  - rewrite Z.add_0_l. apply Z.le_lt_trans with (sum_map pi_amount (st_pending (lg_store L))).
    + by apply sum_map_filter_le.
    + pose proof (inv_sums L HL) as [_ Hs]. unfold genesis_amount, u128_max in Hs. lia.
Qed.

(** ** Pruning is safe *)

Section pruning_theorem.
Context `{Crypto} (constants : ledger_constants).

(** What pruning relies on and keeps. *)
Record prunable (L : ledger) : Prop := {
  pn_inv : ledger_inv L;
  pn_previous : ∀ k e, st_blocks (lg_store L) !! k = Some e → has_predecessor e.1 = true →
    buried L (previous e.1);
}.

(** One round: the block leaves the table and is remembered as pruned. *)
Definition prune_one (L : ledger) (k : Z) : ledger :=
  set_pruned_count (λ n, wrap64 (n + 1))
    (with_store (pruned_put (set_blocks (delete k) (lg_store L)) k) L).

Lemma prune_one_exists L k e j :
  st_blocks (lg_store L) !! k = Some e →
  block_or_pruned_exists (prune_one L k) j = block_or_pruned_exists L j.
Proof.
  intros Hk. apply eq_true_iff_eq. rewrite !exists_true. simpl.
  rewrite lookup_delete_is_Some. destruct (decide (j = k)) as [-> | Hne].
  - rewrite Hk. split; [by eauto | set_solver].
  - set_solver.
Qed.

Lemma prune_one_prunable L k e :
  prunable L → st_blocks (lg_store L) !! k = Some e → buried L k → prunable (prune_one L k).
Proof.
  intros [HL Hprev] Hk [_ Hhead].
  assert (Hex : ∀ j, block_or_pruned_exists (prune_one L k) j = block_or_pruned_exists L j)
    by (intros; by eapply prune_one_exists).
  split.
  - split; simpl; try apply HL.
    + intros a i Hi. pose proof (inv_accounts L HL a i Hi) as [? ? ? ? (e' & He' & Hrest)].
      split; try done. exists e'. simpl. rewrite lookup_delete_ne; [done |].
      intros ->. by apply (Hhead a i Hi).
    + intros j a Hf. apply (inv_frontiers L HL) in Hf as (i & e' & Hi & <- & He' & Hl).
      exists i, e'. rewrite lookup_delete_ne; [done |]. intros ->. by apply (Hhead a i Hi).
    + intros j e' Hj. apply lookup_delete_Some in Hj as [_ Hj]. by apply (inv_blocks L HL).
    + intros j Hj. apply elem_of_union in Hj as [->%elem_of_singleton | Hj].
      * split; [by eapply (inv_blocks L HL) | apply lookup_delete_eq].
      * destruct (inv_pruned L HL j Hj) as [? Hn]. split; [done |]. apply lookup_delete_None. by right.
    + intros j p Hp. destruct (inv_pending L HL j p Hp) as [? Hj]. split; [done |]. by rewrite Hex.
    + rewrite (inv_block_count L HL). f_equal.
      assert (Hdel : (size (delete k (st_blocks (lg_store L))) + 1 = size (st_blocks (lg_store L)))%nat).
      { rewrite map_size_delete, Hk.
        assert (size (st_blocks (lg_store L)) ≠ 0%nat); [| lia].
        intros Hz%map_size_empty_inv. by rewrite Hz in Hk. }
      rewrite size_union by (apply disjoint_singleton_l; intros Hin;
        by destruct (inv_pruned L HL k Hin) as [_ ?]; simplify_eq).
      rewrite size_singleton. lia.
  - intros j e' Hj Hp. simpl in Hj. apply lookup_delete_Some in Hj as [_ Hj].
    destruct (Hprev j e' Hj Hp) as [Hj1 Hj2]. split; [by rewrite Hex | done].
Qed.

(** The blocks from [hash] down the chain, without the genesis block, as far as they
    are in the table. *)
Inductive pruned_below (L : ledger) : Z → Z → Prop :=
| below_here h : h ≠ 0 → h ≠ block_hash (lk_genesis constants) → pruned_below L h h
| below_next h e k :
    h ≠ 0 → h ≠ block_hash (lk_genesis constants) → st_blocks (lg_store L) !! h = Some e →
    pruned_below L (previous e.1) k → pruned_below L h k.

Lemma pruned_below_step L h e k :
  h ≠ 0 → h ≠ block_hash (lk_genesis constants) → st_blocks (lg_store L) !! h = Some e →
  pruned_below L h k ↔ k = h ∨ pruned_below (prune_one L h) (previous e.1) k.
Proof.
  intros Hnz Hng He. split.
  - assert (Hgen : ∀ j, pruned_below L j k → pruned_below (prune_one L h) j k ∨ k = h ∨ pruned_below (prune_one L h) (previous e.1) k).
    { intros j. induction 1 as [j Hj Hjg | j e' k Hj Hjg He' Hb IH]; [left; by constructor |].
      destruct (decide (j = h)) as [-> | Hne]; [simplify_eq; naive_solver |].
      destruct IH as [IH | IH]; [left | by right]. eapply below_next; [done | done | | exact IH].
      simpl. by rewrite lookup_delete_ne. }
    inversion 1 as [? | ? e' ? _ _ He' Hb]; subst; [by left |]. simplify_eq. destruct (Hgen _ Hb) as [? | ?]; auto.
  - intros [-> | Hb]; [by constructor |]. eapply below_next; [done | done | done |].
    clear He Hnz Hng. induction Hb as [j Hj Hjg | j e' k Hj Hjg He' Hb IH]; [by constructor |].
    simpl in He'. apply lookup_delete_Some in He' as [_ He']. by eapply below_next.
Qed.

(** What pruning from [hash] does. *)
Record pruned_from (hash : Z) (L L' : ledger) : Prop := {
  pf_accounts : st_accounts (lg_store L') = st_accounts (lg_store L);
  pf_pending : st_pending (lg_store L') = st_pending (lg_store L);
  pf_blocks : ∀ k e, st_blocks (lg_store L') !! k = Some e ↔ st_blocks (lg_store L) !! k = Some e ∧ ¬ pruned_below L hash k;
  pf_known : ∀ k, block_or_pruned_exists L' k = block_or_pruned_exists L k;
}.

Lemma pruned_from_none hash L :
  (∀ k, pruned_below L hash k → st_blocks (lg_store L) !! k = None) → pruned_from hash L L.
Proof. intros Hn. split; try done. intros k e. split; [| tauto]. intros Hk. split; [done |]. intros Hb. apply Hn in Hb. congruence. Qed.

Lemma pruned_from_step h e L L' :
  h ≠ 0 → h ≠ block_hash (lk_genesis constants) → st_blocks (lg_store L) !! h = Some e →
  pruned_from (previous e.1) (prune_one L h) L' → pruned_from h L L'.
Proof.
  intros Hnz Hng He [Ha Hp Hb Hk]. split; [by rewrite Ha | by rewrite Hp | |].
  - intros k e'. rewrite Hb, (pruned_below_step L h e k) by done. simpl. rewrite lookup_delete_Some. naive_solver.
  - intros k. rewrite Hk. by eapply prune_one_exists.
Qed.

Lemma prune_one_size L h e :
  st_blocks (lg_store L) !! h = Some e →
  (size (st_blocks (lg_store (prune_one L h))) + 1 = size (st_blocks (lg_store L)))%nat.
Proof.
  intros Hk. simpl. rewrite map_size_delete, Hk. assert (size (st_blocks (lg_store L)) ≠ 0%nat); [| lia].
  intros Hz%map_size_empty_inv. by rewrite Hz in Hk.
Qed.

Lemma pruning_loop_safe fuel L hash n :
  prunable L → hash = 0 ∨ buried L hash → (size (st_blocks (lg_store L)) + 1 < fuel)%nat → is_u64 n →
  ∃ n' L', pruning_loop constants fuel L hash n = Done (n', L') ∧ prunable L' ∧ pruned_from hash L L' ∧
    n' = wrap64 (n + Z.of_nat (size (st_blocks (lg_store L))) - Z.of_nat (size (st_blocks (lg_store L')))).
Proof.
  revert L hash n. induction fuel as [| fuel IH]; intros L hash n HP Hh Hf Hn; [lia |]. simpl.
  assert (Hstay : n = wrap64 (n + Z.of_nat (size (st_blocks (lg_store L))) - Z.of_nat (size (st_blocks (lg_store L)))))
    by (rewrite Z.add_simpl_r, wrap64_small; done).
  destruct (negb (hash =? 0) && _) eqn:Hg; cycle 1.
  { exists n, L. split_and!; [done | done | | done]. apply pruned_from_none. intros k Hb. exfalso. destruct Hb; lia. }
  apply andb_true_iff in Hg as [Hnz%negb_true_iff%Z.eqb_neq Hng%negb_true_iff%Z.eqb_neq].
  assert (Hb : buried L hash) by (destruct Hh as [-> | ?]; done).
  destruct (block_get (lg_store L) hash) as [[b sb] |] eqn:Hk; unfold block_get in Hk.
  - unfold block_del, checked_delete. rewrite Hk. simpl. change (set_pruned_count _ _) with (prune_one L hash).
    pose proof (prune_one_size L hash _ Hk) as Hsize.
    assert (Hnext : previous b = 0 ∨ buried (prune_one L hash) (previous b)).
    { destruct (has_predecessor b) eqn:Hp.
      - right. destruct (pn_previous L HP _ _ Hk Hp) as [Hj1 Hj2].
        split; [by erewrite prune_one_exists | done].
      - left. destruct b; simpl in *; try done. lia. }
    destruct (IH (prune_one L hash) (previous b) (wrap64 (n + 1))) as (n' & L' & Hr & HP' & HF & Hn');
      [by eapply prune_one_prunable | done | lia | apply wrap64_range |].
    exists n', L'. split_and!; [done | done | by eapply pruned_from_step |].
    rewrite Hn'. unfold wrap64. rewrite <- Z.add_sub_assoc, Zplus_mod_idemp_l. f_equal. lia.
  - destruct Hb as [Hex _]. apply exists_true in Hex as [Hpr | Hs]; [| rewrite Hk in Hs; by destruct Hs].
    unfold pruned_exists. rewrite bool_decide_true by done.
    destruct fuel as [| fuel]; [lia |]. simpl. exists n, L. split_and!; [done | done | | done].
    apply pruned_from_none. inversion 1; congruence.
Qed.

(** An accepted block keeps this, on a pruned ledger too. *)
Lemma accepted_prunable L b v a sb new eff w :
  prunable L → accepted constants L b v a sb new eff w → first_ok L b a →
  prunable (step_block L b sb a new eff w).
Proof.
  intros [HL Hprev] Hacc Hfirst. pose proof (ac_step _ _ _ _ _ _ _ _ _ Hacc) as HV. split; [by apply step_block_inv |].
  intros k e Hk Hp. apply new_blocks_inv in Hk as [[-> ->] | (e0 & He0 & Hs)];
    [by eapply accepted_buries_previous | | by eapply step_fresh | apply (vs_prev _ _ _ _ _ _ _ HV)].
  rewrite (same_entry_block _ _ Hs) in Hp |- *. eapply step_buried; [exact Hacc |]. by apply (Hprev _ _ He0).
Qed.

Lemma process_prunable L b v t1 t2 r L' :
  prunable L → epoch_open_ok constants L b → block_wf b → block_hash b ≠ 0 →
  process constants L b v t1 t2 = Ok (r, L') → prunable L'.
Proof.
  intros HP Hep Hwf Hnz Hp. destruct (process_step constants L (pn_inv _ HP) b v t1 t2 Hwf Hnz)
    as [(r' & Hr & _) | (a & sb & new & eff & w & v' & Hacc & Hr)]; rewrite Hr in Hp; simplify_eq; [done |].
  eapply accepted_prunable; [done.. |]. by eapply accepted_first_ok.
Qed.

Lemma chain_prunable L : chain_reachable constants L → prunable L.
Proof. intros HC%chain_reachable_inv. split; [apply HC | apply (ci_previous L HC)]. Qed.

(** While nothing is pruned the predecessors are in the table, and cementing leaves
    them there. *)
Lemma orderly_previous L :
  orderly constants L →
  ∀ k e, st_blocks (lg_store L) !! k = Some e → has_predecessor e.1 = true →
    is_Some (st_blocks (lg_store L) !! previous e.1) ∧
    ∀ a i, st_accounts (lg_store L) !! a = Some i → ai_head i ≠ previous e.1.
Proof.
  induction 1 as [t1 t2 L Hg _ Hi | L b v t1 t2 r L' HO IH Hwf Hnz Hun Hep Hroom Hp | L k L' HO IH Hrun].
  - intros k e. unfold initialize, genesis_sideband in Hi. destruct Hg as [Hg _].
    destruct (lk_genesis constants); try done. unfold block_put in Hi. simpl in Hi. simplify_eq/=.
    rewrite lookup_insert_Some. intros [[_ <-] | [_ ?]]; [done | by simplify_map_eq].
  - destruct (orderly_inv constants L HO) as (HL & _).
    assert (HP : prunable L). { split; [done |]. intros k e Hk Hpr. destruct (IH k e Hk Hpr). split; [| done].
      apply exists_true. by right. }
    pose proof (pn_previous _ (process_prunable _ _ _ _ _ _ _ HP Hep Hwf Hnz Hp)) as Hprev.
    intros k e Hk Hpr. split; [| by apply (Hprev k e Hk Hpr)].
    destruct (process_step constants L HL b v t1 t2 Hwf Hnz)
      as [(r' & Hr & _) | (a & sb & new & eff & w & v' & Hacc & Hr)]; rewrite Hr in Hp; simplify_eq;
      [by apply (IH k e) |].
    pose proof (ac_step _ _ _ _ _ _ _ _ _ Hacc) as HV. pose proof (step_fresh _ _ _ _ _ _ _ HV) as Hf.
    apply new_blocks_is_Some; [done | apply (vs_prev _ _ _ _ _ _ _ HV) |]. right.
    apply new_blocks_inv in Hk as [[-> ->] | (e0 & He0 & Hs)]; [by apply (vs_prev _ _ _ _ _ _ _ HV) | | done | apply (vs_prev _ _ _ _ _ _ _ HV)].
    rewrite (same_entry_block _ _ Hs) in Hpr |- *. by apply (IH _ _ He0).
  - destruct (orderly_inv constants L HO) as (HL & Hln & rank & HF).
    destruct (cement_run_exact constants L rank k L' HF (linked_walkable constants L rank HL HF Hln) Hrun) as [_ [Hc _]].
    rewrite (cl_blocks _ _ _ Hc), (cl_accounts _ _ _ Hc). done.
Qed.

Lemma orderly_prunable L : orderly constants L → prunable L.
Proof.
  intros HO. split; [by destruct (orderly_inv constants L HO) |]. intros k e Hk Hp.
  destruct (orderly_previous L HO k e Hk Hp) as [? ?]. split; [apply exists_true; by right | done].
Qed.

(** The ledgers of a node that processes blocks, cements them, and prunes. *)
Inductive pruning_reachable : ledger → Prop :=
| pruning_start L : chain_reachable constants L ∨ orderly constants L → pruning_reachable L
| pruning_process L b v t1 t2 r L' :
    pruning_reachable L → epoch_open_ok constants L b → block_wf b → block_hash b ≠ 0 →
    process constants L b v t1 t2 = Ok (r, L') → pruning_reachable L'
| pruning_prune L hash_a fuel n L' :
    pruning_reachable L → buried L hash_a → (size (st_blocks (lg_store L)) + 1 < fuel)%nat →
    pruning_action constants fuel L hash_a = Done (n, L') → pruning_reachable L'.

Lemma pruning_reachable_prunable L : pruning_reachable L → prunable L.
Proof.
  induction 1 as [L [HL | HL] | L b v t1 t2 r L' _ IH Hep Hwf Hnz Hp | L hash_a fuel n L' _ IH Hb Hf Hp].
  - by apply chain_prunable.
  - by apply orderly_prunable.
  - by eapply process_prunable.
  - destruct (pruning_loop_safe fuel L hash_a 0 IH (or_intror Hb) Hf ltac:(done)) as (n' & L1 & Hp' & HP' & _).
    unfold pruning_action in Hp. rewrite Hp in Hp'. by simplify_eq.
Qed.

(** C36: Pruning from a known block that is no account head terminates, removes
    exactly the blocks from it down the chain to a block pruned before or to the
    genesis block, which stays, reports their number, keeps the ledger invariant,
    all account entries and pending entries, and every pruned block remains known;
    on every ledger reached by processing, by cementing before the first pruning,
    and by earlier prunings of this kind, as long as no epoch block opened an
    account on a predecessor of another account. *)
Theorem pruning_keeps_ledger L hash_a fuel :
  pruning_reachable L → buried L hash_a →
  (size (st_blocks (lg_store L)) + 1 < fuel)%nat →
  ∃ n L', pruning_action constants fuel L hash_a = Done (n, L') ∧ ledger_inv L' ∧
    st_accounts (lg_store L') = st_accounts (lg_store L) ∧
    st_pending (lg_store L') = st_pending (lg_store L) ∧
    (∀ k e, st_blocks (lg_store L') !! k = Some e ↔
      st_blocks (lg_store L) !! k = Some e ∧ ¬ pruned_below L hash_a k) ∧
    (∀ k, block_or_pruned_exists L' k = block_or_pruned_exists L k) ∧
    n = wrap64 (Z.of_nat (size (st_blocks (lg_store L))) - Z.of_nat (size (st_blocks (lg_store L')))).
Proof.
  intros HP%pruning_reachable_prunable Hb Hf.
  destruct (pruning_loop_safe fuel L hash_a 0 HP (or_intror Hb) Hf ltac:(done)) as (n & L' & Hp & HP' & [] & Hn).
  exists n, L'. split_and!; try done. apply HP'.
Qed.
End pruning_theorem.

(** ** Dependencies *)

Section fit.
Context `{Crypto} (constants : ledger_constants).

Lemma accepted_balance_previous L b v a sb new eff w :
  ledger_inv L → accepted constants L b v a sb new eff w → is_epoch_link constants (link b) = false →
  balance L (previous b) = Ok (ai_balance (account_info_or_default L a)).
Proof.
  intros HL Hacc Hl. pose proof (ac_step _ _ _ _ _ _ _ _ _ Hacc) as HV. unfold balance.
  destruct (st_accounts (lg_store L) !! a) as [i |] eqn:Hi.
  - pose proof (inv_accounts L HL _ _ Hi) as Hok.
    rewrite (vs_position _ _ _ _ _ _ _ HV i Hi), (info_existing _ _ _ Hi).
    rewrite (proj2 (Z.eqb_neq _ _) (ao_head _ _ _ Hok)).
    destruct (ao_entry _ _ _ Hok) as (e & He & _ & Hb & _).
    unfold store_balance, block_get. rewrite He. simpl. by rewrite Hb.
  - destruct (ac_first _ _ _ _ _ _ _ _ _ Hacc Hi) as [Hf | [Hf _]]; [| congruence].
    destruct (first_block_root _ _ _ _ _ _ _ HV Hf) as [_ ->].
    by rewrite (info_missing _ _ Hi).
Qed.

(** Whether or not the link is taken for a destination, a link that fits fits. *)
Lemma any_clear_fits s h (balance_a : Z) :
  (state_previous h =? 0) || block_exists s (state_previous h) = true →
  (state_link h =? 0) || block_exists s (state_link h) = true →
  ((if block_exists s (state_previous h)
    then if negb (state_previous h =? 0) then Ok (state_balance h <? balance_a) else Ok false
    else Ok false)
   ≫= λ clear : bool, Ok (state_previous h, if clear then 0 else state_link h))
  ≫= (λ '(d0, d1), Ok (((d0 =? 0) || block_exists s d0) && ((d1 =? 0) || block_exists s d1)))
  = Ok true.
Proof.
  intros Hp Hl.
  destruct (block_exists s (state_previous h)) eqn:He, (state_previous h =? 0) eqn:Hz; try done;
    simpl; try destruct (state_balance h <? balance_a); simpl; by rewrite He, Hz, ?Hl.
Qed.

(** On an unpruned ledger every block that processing accepts is one could_fit
    answers true for: its dependencies are in the block table. *)
Theorem accepted_block_fits L b v t1 t2 r L' :
  reachable constants L → st_pruned (lg_store L) = ∅ → block_wf b → block_hash b ≠ 0 →
  process constants L b v t1 t2 = Ok (r, L') → pr_code r = progress →
  could_fit constants L (b, None) = Ok true.
Proof.
  intros HL%reachable_inv Hpr Hwf Hnz Hp Hr.
  destruct (process_step constants L HL b v t1 t2 Hwf Hnz)
    as [(r' & Hp' & ?) | (a & sb & new & eff & w & v' & Hacc & Hp')];
    rewrite Hp' in Hp; simplify_eq.
  pose proof (ac_step _ _ _ _ _ _ _ _ _ Hacc) as HV.
  assert (Hprev : (previous b =? 0) || block_exists (lg_store L) (previous b) = true).
  { destruct (has_predecessor b) eqn:Hb.
    - unfold block_exists. rewrite bool_decide_true by (by apply HV). by rewrite orb_true_r.
    - by destruct (first_block_root _ _ _ _ _ _ _ HV Hb) as [_ ->]. }
  assert (Hsrc : ∀ src p, eff = Collect src p → block_exists (lg_store L) src = true).
  { intros src p He. pose proof (vs_effect _ _ _ _ _ _ _ HV) as Hok. rewrite He in Hok.
    apply (inv_pending L HL) in Hok as [_ Hex]. unfold block_or_pruned_exists, pruned_exists in Hex.
    rewrite Hpr in Hex. simpl in Hex. by rewrite bool_decide_false in Hex by set_solver. }
  pose proof (ac_effect _ _ _ _ _ _ _ _ _ Hacc) as Hs.
  pose proof (accepted_balance_previous _ _ _ _ _ _ _ _ HL Hacc) as Hbal.
  pose proof (vs_balance _ _ _ _ _ _ _ HV) as Hvb.
  pose proof (vs_entry_balance _ _ _ _ _ _ _ HV) as Hveb.
  unfold could_fit. destruct b as [h s k | h s k | h s k | h s k | h s k]; simpl in *;
    unfold balance_calculated in Hveb; simpl in Hveb.
  - by rewrite Hprev.
  - destruct eff; try done. destruct Hs as [-> _]. rewrite Hprev, (Hsrc _ _ eq_refl). by rewrite orb_true_r.
  - destruct eff; try done. destruct Hs as [-> _]. rewrite andb_true_r.
    destruct (negb _); [rewrite (Hsrc _ _ eq_refl) |]; simpl; by rewrite ?orb_true_r.
  - by rewrite Hprev.
  - destruct (is_epoch_link constants (state_link h)) eqn:Hl; simpl; [by rewrite Hprev |].
    rewrite (Hbal eq_refl). simpl.
    destruct eff as [dest amt ep | src p |]; simpl in Hs, Hvb.
    + destruct Hs as [-> Hamt].
      assert (Hnz' : (state_previous h =? 0) = false).
      { destruct (Z.eqb_spec (state_previous h) 0) as [Hz |]; [| done].
        specialize (Hbal eq_refl). rewrite Hz in Hbal. injection Hbal as Hbal.
        pose proof (vs_range _ _ _ _ _ _ _ HV) as [? _]. lia. }
      replace (state_balance h <? ai_balance (account_info_or_default L a)) with true by lia.
      rewrite Hnz' in Hprev; simpl in Hprev. rewrite Hprev, Hnz'. simpl. by rewrite Hnz', Hprev.
    + destruct Hs as (-> & _ & _). apply any_clear_fits; [done |].
      by rewrite (Hsrc _ _ eq_refl), orb_true_r.
    + destruct Hs as [Hz | ?]; [| congruence]. apply any_clear_fits; [done |]. by rewrite Hz.
Qed.
End fit.

(** ** Unconfirmed frontiers *)

#[local] Instance higher_delta_trans : Transitive higher_delta.
Proof. intros x y z. unfold higher_delta. lia. Qed.
#[local] Instance higher_delta_total : Total higher_delta.
Proof. intros x y. unfold higher_delta. lia. Qed.

(** A partial map that keeps a distinguishing tag keeps distinctness. *)
Lemma NoDup_omap_tag {A B T} (tag : A → T) (tag' : B → T) (f : A → option B) (l : list A) :
  NoDup (tag <$> l) → (∀ x y, f x = Some y → tag' y = tag x) → NoDup (omap f l).
Proof.
  intros Hl Hf. induction l as [| x l IH]; simpl in *; [constructor |].
  apply NoDup_cons in Hl as [Hx Hl]. destruct (f x) as [y |] eqn:Hy; simpl; [| by apply IH].
  constructor; [| by apply IH]. intros (x' & Hin & Hy')%list_elem_of_omap. apply Hx.
  rewrite <- (Hf _ _ Hy), (Hf _ _ Hy'). by apply list_elem_of_fmap_2.
Qed.

(** unconfirmed_frontiers lists exactly the accounts whose block count differs
    from their confirmation height, once each, by decreasing height difference. *)
Theorem unconfirmed_frontiers_exact L :
  StronglySorted higher_delta (unconfirmed_frontiers L) ∧
  NoDup (unconfirmed_frontiers L) ∧
  ∀ d cemented_frontier frontier a,
    (d, (cemented_frontier, frontier, a)) ∈ unconfirmed_frontiers L ↔
    ∃ info, account_get (lg_store L) a = Some info ∧
      let conf := confirmation_height_get (lg_store L) a in
      ai_block_count info ≠ ch_height conf ∧
      d = wrap64 (ai_block_count info - ch_height conf) ∧
      cemented_frontier = ch_frontier conf ∧ frontier = ai_head info.
Proof.
  unfold unconfirmed_frontiers. split_and!.
  - apply StronglySorted_merge_sort; apply _.
  - rewrite merge_sort_Permutation. apply (NoDup_omap_tag fst (λ y, y.2.2)).
    + apply NoDup_fst_map_to_list.
    + intros [a i] y. simpl. by case_match; intros; simplify_eq.
  - intros d cf f a. rewrite merge_sort_Permutation, list_elem_of_omap. split.
    + intros ([a' i] & Hin%elem_of_map_to_list & Hs).
      destruct (Z.eqb_spec (ai_block_count i) (ch_height (confirmation_height_get (lg_store L) a')));
        simplify_eq/=. by exists i.
    + intros (i & Hi & Hne & -> & -> & ->). exists (a, i). split; [by apply elem_of_map_to_list |].
      by rewrite (proj2 (Z.eqb_neq _ _) Hne).
Qed.
