(* ===== verification/Voting.v ===== *)
(** * Votes of this node ([node/voting.hpp], [node/voting.cpp])

    A node with representatives in its wallets votes for the winners of its elections
    and answers requests for votes.  The local vote history caches the votes it made,
    vote spacing keeps votes for competing blocks of a root apart, the final vote
    table records which block of a root got its final vote
    ([secure/store/final_vote_store_partial.hpp]), and two generators, one for final
    votes, turn candidates and requests into votes of up to twelve hashes.

    The thread of a generator is a state machine whose steps are the iterations of the
    loops of [broadcast], [reply] and [vote], so that the two generators, the callers
    of [add] and [generate], and the ledger can interleave between them. *)

From S2P Require Import Prelude Blocks Common Vote Store Ledger LedgerQueries.

(** A [std::shared_ptr<vote>]: the address tells two equal votes apart. *)
Record shared_vote := SharedVote { sv_address : nat; sv_vote : vote }.

(** ** Vote spacing *)

Module vote_spacing.
Record entry := Entry { root : Z; time : Z; hash : Z }.

(** [trim], at the time [now]. *)
Definition trim (delay now : Z) (recent : list entry) : list entry :=
  filter (λ e, ¬ time e <= now - delay) recent.

Definition votable (delay now : Z) (recent : list entry) (root_a hash_a : Z) : bool :=
  forallb (λ e, negb (root e =? root_a) || (hash_a =? hash e) || (time e <? now - delay)) recent.

(** [modify] of the first entry of the root. *)
Fixpoint touch (now root_a : Z) (recent : list entry) : option (list entry) :=
  match recent with
  | [] => None
  | e :: recent =>
      if root e =? root_a then Some (Entry (root e) now (hash e) :: recent)
      else (e ::.) <$> touch now root_a recent
  end.

(** [flag]: the clock is read by [trim] and once more. *)
Definition flag (delay trim_now now : Z) (recent : list entry) (root_a hash_a : Z) : list entry :=
  let recent := trim delay trim_now recent in
  match touch now root_a recent with
  | Some recent => recent
  | None => recent ++ [Entry root_a now hash_a]
  end.
End vote_spacing.

(** ** The local vote history *)

Record local_vote := LocalVote { lv_root : Z; lv_hash : Z; lv_vote : shared_vote }.

Definition lv_account (e : local_vote) : Z := vt_account (sv_vote (lv_vote e)).
Definition lv_timestamp (e : local_vote) : Z := vote_timestamp (sv_vote (lv_vote e)).

(** The container in the order of its sequence index, oldest first. *)
Module local_vote_history.
Section history.
Context (max_cache : nat).

Fixpoint clean (history : list local_vote) : list local_vote :=
  match history with
  | [] => []
  | _ :: rest => if (max_cache <? length history)%nat then clean rest else history
  end.

(** The loop of [add] over the entries of the root: what stays, and [add_vote]. *)
Fixpoint add_loop (root_a hash_a : Z) (v : vote) (history : list local_vote) : list local_vote * bool :=
  match history with
  | [] => ([], true)
  | e :: rest =>
      let '(kept, add_vote) := add_loop root_a hash_a v rest in
      if lv_root e =? root_a then
        if negb (lv_hash e =? hash_a)
           || (vt_account v =? lv_account e) && (lv_timestamp e <=? vote_timestamp v)
        then (kept, add_vote)
        else if (vt_account v =? lv_account e) && (vote_timestamp v <? lv_timestamp e)
        then (e :: kept, false)
        else (e :: kept, add_vote)
      else (e :: kept, add_vote)
  end.

Definition add (root_a hash_a : Z) (v : shared_vote) (history : list local_vote) : list local_vote :=
  let '(kept, add_vote) := add_loop root_a hash_a (sv_vote v) (clean history) in
  if add_vote then kept ++ [LocalVote root_a hash_a v] else kept.
End history.

Definition erase (root_a : Z) (history : list local_vote) : list local_vote :=
  filter (λ e, lv_root e ≠ root_a) history.

Definition root_votes (root_a : Z) (history : list local_vote) : list shared_vote :=
  lv_vote <$> filter (λ e, lv_root e = root_a) history.

(** [votes] with a hash; final votes have the largest timestamp. *)
Definition votes (root_a hash_a : Z) (is_final_a : bool) (history : list local_vote) : list shared_vote :=
  lv_vote <$> filter (λ e, lv_root e = root_a ∧ lv_hash e = hash_a ∧
                           (is_final_a = false ∨ lv_timestamp e = u64_max)) history.

Definition exists_ (root_a : Z) (history : list local_vote) : bool :=
  existsb (λ e, lv_root e =? root_a) history.

(** [std::unique] on a range: adjacent equal elements are merged. *)
Fixpoint unique (l : list Z) : list Z :=
  match l with
  | x :: (y :: _) as l' => if x =? y then unique l' else x :: unique l'
  | _ => l
  end.

(** [consistency_check]; the first entry of an empty range is no entry. *)
Definition consistency_check (root_a : Z) (history : list local_vote) : option bool :=
  let range := filter (λ e, lv_root e = root_a) history in
  match range with
  | [] => None
  | first :: _ =>
      let consistent_same := forallb (λ e, lv_hash e =? lv_hash first) range in
      let accounts := merge_sort Z.le (lv_account <$> range) in
      Some (consistent_same && Nat.eqb (length accounts) (length (unique accounts)))
  end.
End local_vote_history.

(** ** The final vote table *)

Abbreviation final_table := (gmap (Z * Z) Z).

(** [put]: whether the root has no other final vote. *)
Definition final_vote_put (t : final_table) (root_a : Z * Z) (hash_a : Z) : bool * final_table :=
  match t !! root_a with
  | Some h => (h =? hash_a, t)
  | None => (true, <[root_a := hash_a]> t)
  end.

Definition final_key_le (x y : (Z * Z) * Z) : Prop := x.1.1 < y.1.1 ∨ x.1.1 = y.1.1 ∧ x.1.2 <= y.1.2.
#[export] Instance final_key_le_dec : RelDecision final_key_le.
Proof. intros x y. unfold final_key_le. apply _. Defined.

(** The entries of the iteration from (root, 0) while the root is the same, in the
    order of the table. *)
Definition final_vote_range (t : final_table) (root_a : Z) : list ((Z * Z) * Z) :=
  merge_sort final_key_le (filter (λ x, x.1.1 = root_a) (map_to_list t)).

Definition final_vote_get (t : final_table) (root_a : Z) : list Z := snd <$> final_vote_range t root_a.

(** [del], and [clear] of a root. *)
Definition final_vote_del (t : final_table) (root_a : Z) : final_table :=
  fold_left (λ t x, delete x.1 t) (final_vote_range t root_a) t.

Definition final_vote_count (t : final_table) : nat := size t.

(** ** Generators *)

Definition confirm_ack_hashes_max : nat := 12.
Definition max_requests : nat := 2048.

(** [candidate_t]: root and hash. *)
Abbreviation candidate := (Z * Z)%type.

(** Where a batch comes from: the queue of candidates, or a request, of which the
    candidates that are left and the channel are kept. *)
Inductive batch_source :=
| from_candidates
| from_request (rest : list candidate) (channel : Z).

(** What the thread of a generator is doing: at the head of the loop of [run], waiting
    for the delay to pass, collecting hashes, or in [vote] with the votes that are
    left, the first of them recorded for all but the candidates [todo]. *)
Inductive thread_state :=
| looping
| sleeping
| collecting (src : batch_source) (cached_sent : list nat) (batch : list candidate)
| voting (src : batch_source) (cached_sent : list nat) (batch : list candidate)
    (votes_l : list shared_vote) (todo : list candidate).

Record vote_generator := VoteGenerator {
  vg_is_final : bool;
  vg_spacing : list vote_spacing.entry;
  vg_requests : list (list candidate * Z);
  vg_candidates : list candidate;
  vg_thread : thread_state;
}.

Definition vote_generator_new (is_final : bool) : vote_generator :=
  VoteGenerator is_final [] [] [] looping.

Definition set_spacing s (g : vote_generator) : vote_generator :=
  VoteGenerator (vg_is_final g) s (vg_requests g) (vg_candidates g) (vg_thread g).
Definition set_requests r (g : vote_generator) : vote_generator :=
  VoteGenerator (vg_is_final g) (vg_spacing g) r (vg_candidates g) (vg_thread g).
Definition set_candidates c (g : vote_generator) : vote_generator :=
  VoteGenerator (vg_is_final g) (vg_spacing g) (vg_requests g) c (vg_thread g).
Definition set_thread t (g : vote_generator) : vote_generator :=
  VoteGenerator (vg_is_final g) (vg_spacing g) (vg_requests g) (vg_candidates g) t.

(** What leaves a generator: a vote to the network and to the vote processor
    ([broadcast_action]), a vote to a channel ([reply_action]); and, for the record,
    each candidate a new vote covers with the time spacing notes for it. *)
Inductive voting_event :=
| broadcast_vote (v : shared_vote)
| reply_vote (v : shared_vote) (channel : Z)
| reply_publish (b : block) (channel : Z)
| voted (is_final : bool) (root_a hash_a time : Z) (v : shared_vote).

(** The generators share the ledger and the history; [vw_reads] counts the readings
    of the clocks and [vw_next] the votes that were allocated. *)
Record voting_world := VotingWorld {
  vw_ledger : ledger;
  vw_final_votes : final_table;
  vw_history : list local_vote;
  vw_generator : vote_generator;
  vw_final_generator : vote_generator;
  vw_reads : nat;
  vw_next : nat;
  vw_events : list voting_event;
}.

Definition set_ledger L (w : voting_world) : voting_world :=
  VotingWorld L (vw_final_votes w) (vw_history w) (vw_generator w) (vw_final_generator w)
    (vw_reads w) (vw_next w) (vw_events w).
Definition set_final_votes t (w : voting_world) : voting_world :=
  VotingWorld (vw_ledger w) t (vw_history w) (vw_generator w) (vw_final_generator w)
    (vw_reads w) (vw_next w) (vw_events w).
Definition set_history h (w : voting_world) : voting_world :=
  VotingWorld (vw_ledger w) (vw_final_votes w) h (vw_generator w) (vw_final_generator w)
    (vw_reads w) (vw_next w) (vw_events w).
Definition get_generator (final : bool) (w : voting_world) : vote_generator :=
  if final then vw_final_generator w else vw_generator w.
Definition on_generator (final : bool) (f : vote_generator → vote_generator) (w : voting_world) :
    voting_world :=
  if final
  then VotingWorld (vw_ledger w) (vw_final_votes w) (vw_history w) (vw_generator w)
         (f (vw_final_generator w)) (vw_reads w) (vw_next w) (vw_events w)
  else VotingWorld (vw_ledger w) (vw_final_votes w) (vw_history w) (f (vw_generator w))
         (vw_final_generator w) (vw_reads w) (vw_next w) (vw_events w).
Definition read_clock (n : nat) (w : voting_world) : voting_world :=
  VotingWorld (vw_ledger w) (vw_final_votes w) (vw_history w) (vw_generator w) (vw_final_generator w)
    (vw_reads w + n) (vw_next w) (vw_events w).
Definition allocate (n : nat) (w : voting_world) : voting_world :=
  VotingWorld (vw_ledger w) (vw_final_votes w) (vw_history w) (vw_generator w) (vw_final_generator w)
    (vw_reads w) (vw_next w + n) (vw_events w).
Definition emit (l : list voting_event) (w : voting_world) : voting_world :=
  VotingWorld (vw_ledger w) (vw_final_votes w) (vw_history w) (vw_generator w) (vw_final_generator w)
    (vw_reads w) (vw_next w) (vw_events w ++ l).

(** The constants, the readings of the steady clock and of [milliseconds_since_epoch],
    and the signing primitive. *)
Record voting_env := VotingEnv {
  ve_max_cache : nat;
  ve_delay : Z;
  ve_steady : nat → Z;
  ve_system : nat → Z;
  ve_sign : Z → Z → Z;
}.

Section generator.
Context `{Crypto} (constants : ledger_constants) (e : voting_env).

(** A block as [store.block.get] returns it. *)
Definition stored_block (L : ledger) (hash_a : Z) : option block_in_memory :=
  (λ b : block_w_sideband, (b.1, Some b.2)) <$> block_get (lg_store L) hash_a.

(** [add]: cached votes are sent again, others become candidates; the final generator
    records its choice first. *)
Definition generator_add (final : bool) (root_a hash_a : Z) (w : voting_world) : outcome voting_world :=
  let cached_votes := local_vote_history.votes root_a hash_a final (vw_history w) in
  if bool_decide (cached_votes ≠ []) then Ok (emit (broadcast_vote <$> cached_votes) w) else
  match stored_block (vw_ledger w) hash_a with
  | None => Ok w
  | Some b =>
      confirmed ← dependents_confirmed constants (vw_ledger w) b;
      if (confirmed : bool) then
        let '(should_vote, w) :=
          if final then
            let '(r, t) := final_vote_put (vw_final_votes w) (qualified_root b.1) hash_a in
            (r, set_final_votes t w)
          else (true, w) in
        Ok (if (should_vote : bool)
            then on_generator final (λ g, set_candidates (vg_candidates g ++ [(root_a, hash_a)]) g) w
            else w)
      else Ok w
  end.

(** The loop of [generate]. *)
Fixpoint request_candidates (L : ledger) (blocks_a : list block_in_memory) : outcome (list candidate) :=
  match blocks_a with
  | [] => Ok []
  | b :: rest =>
      confirmed ← dependents_confirmed constants L b;
      l ← request_candidates L rest;
      Ok (if (confirmed : bool) then (root b.1, block_hash b.1) :: l else l)
  end.

(** The oldest requests go when there are too many. *)
Fixpoint discard {A} (limit : nat) (l : list A) : list A :=
  match l with
  | [] => []
  | _ :: rest => if (limit <? length l)%nat then discard limit rest else l
  end.

(** [generate]: the number of candidates is the result. *)
Definition generator_generate (final : bool) (blocks_a : list block_in_memory) (channel_a : Z)
    (w : voting_world) : outcome (nat * voting_world) :=
  req_candidates ← request_candidates (vw_ledger w) blocks_a;
  Ok (length req_candidates,
      on_generator final (λ g, set_requests
        (discard max_requests (vg_requests g ++ [(req_candidates, channel_a)])) g) w).

(** [broadcast_action] and [reply_action]. *)
Definition send_vote (src : batch_source) (v : shared_vote) : voting_event :=
  match src with from_candidates => broadcast_vote v | from_request _ channel => reply_vote v channel end.

(** Cached votes that were not sent for this batch, each once. *)
Fixpoint unsent (cached_sent : list nat) (votes_l : list shared_vote) : list shared_vote * list nat :=
  match votes_l with
  | [] => ([], cached_sent)
  | v :: rest =>
      if decide (sv_address v ∈ cached_sent) then unsent cached_sent rest
      else let '(l, sent) := unsent (sv_address v :: cached_sent) rest in (v :: l, sent)
  end.

(** One iteration of the loops of [broadcast] and [reply] that collect hashes. *)
Definition collect (final : bool) (src : batch_source) (cached_sent : list nat) (batch : list candidate)
    (c : candidate) (w : voting_world) : voting_world :=
  let cached_votes := local_vote_history.votes c.1 c.2 final (vw_history w) in
  let '(l, sent) := unsent cached_sent cached_votes in
  let now := ve_steady e (vw_reads w) in
  let batch' :=
    if bool_decide (cached_votes = []) && negb (existsb (λ c', c'.1 =? c.1) batch)
       && vote_spacing.votable (ve_delay e) now (vg_spacing (get_generator final w)) c.1 c.2
    then batch ++ [c] else batch in
  on_generator final (set_thread (collecting src sent batch'))
    (emit (send_vote src <$> l) (read_clock 1 w)).

(** The votes [vote] makes for the representatives; each reads the clock. *)
Definition make_vote (final : bool) (batch : list candidate) (system_now account_a : Z) : vote :=
  let timestamp := if final then timestamp_max else system_now in
  let duration := if final then duration_max else 0x9 in
  vote_of_hashes (ve_sign e) account_a timestamp duration (vote_block_hash ∘ snd <$> batch).

Definition make_votes (final : bool) (batch : list candidate) (reads next : nat) (reps : list Z) :
    list shared_vote :=
  imap (λ i rep, SharedVote (next + i) (make_vote final batch (ve_system e (reads + i)) rep)) reps.

Definition begin_vote (final : bool) (reps : list Z) (src : batch_source) (cached_sent : list nat)
    (batch : list candidate) (w : voting_world) : voting_world :=
  let votes_l := make_votes final batch (vw_reads w) (vw_next w) reps in
  on_generator final (set_thread (voting src cached_sent batch votes_l batch))
    (allocate (length reps) (read_clock (length reps) w)).

(** One iteration of the inner loop of [vote]. *)
Definition record_vote (final : bool) (src : batch_source) (cached_sent : list nat) (batch : list candidate)
    (v : shared_vote) (votes_l : list shared_vote) (c : candidate) (todo : list candidate)
    (w : voting_world) : voting_world :=
  let w := set_history (local_vote_history.add (ve_max_cache e) c.1 c.2 v (vw_history w)) w in
  let trim_now := ve_steady e (vw_reads w) in
  let now := ve_steady e (S (vw_reads w)) in
  on_generator final (λ g, set_thread (voting src cached_sent batch (v :: votes_l) todo)
      (set_spacing (vote_spacing.flag (ve_delay e) trim_now now (vg_spacing g) c.1 c.2) g))
    (emit [voted final c.1 c.2 now v] (read_clock 2 w)).

(** A step of the thread of a generator; [reps] are the representatives that
    [wallets::foreach_representative] visits if the step calls it. *)
Definition thread_step (final : bool) (reps : list Z) (w : voting_world) : voting_world :=
  let g := get_generator final w in
  let goto t := on_generator final (set_thread t) w in
  match vg_thread g with
  | looping =>
      if (confirm_ack_hashes_max <=? length (vg_candidates g))%nat
      then goto (collecting from_candidates [] [])
      else match vg_requests g with
           | (cs, channel) :: rest =>
               on_generator final (λ g, set_thread (collecting (from_request cs channel) [] [])
                 (set_requests rest g)) w
           | [] => goto sleeping
           end
  | sleeping =>
      goto (if bool_decide (vg_candidates g = []) then looping else collecting from_candidates [] [])
  | collecting from_candidates sent batch =>
      match vg_candidates g with
      | c :: rest =>
          if (length batch <? confirm_ack_hashes_max)%nat
          then collect final from_candidates sent batch c (on_generator final (set_candidates rest) w)
          else begin_vote final reps from_candidates sent batch w
      | [] =>
          if bool_decide (batch = []) then goto looping
          else begin_vote final reps from_candidates sent batch w
      end
  | collecting (from_request cs channel) sent batch =>
      match cs with
      | c :: rest =>
          if (length batch <? confirm_ack_hashes_max)%nat
          then collect final (from_request rest channel) sent batch c w
          else begin_vote final reps (from_request cs channel) sent batch w
      | [] =>
          if bool_decide (batch = []) then goto looping
          else begin_vote final reps (from_request cs channel) sent batch w
      end
  | voting src sent batch (v :: votes_l) (c :: todo) =>
      record_vote final src sent batch v votes_l c todo w
  | voting src sent batch (v :: votes_l) [] =>
      emit [send_vote src v] (goto (voting src sent batch votes_l batch))
  | voting (from_request ((_ :: _) as cs) channel) sent _ [] _ =>
      goto (collecting (from_request cs channel) sent [])
  | voting _ _ _ [] _ => goto looping
  end.

(** The mutex of a generator is held while [broadcast] collects. *)
Definition lock_free (g : vote_generator) : bool :=
  match vg_thread g with collecting from_candidates _ _ => false | _ => true end.
End generator.

(** [vote_generator_session]: [flush] adds the items in order. *)
Definition session_flush `{Crypto} (constants : ledger_constants) (final : bool) (items : list candidate)
    (w : voting_world) : outcome voting_world :=
  fold_left (λ o c, w ← o; generator_add constants final c.1 c.2 w) items (Ok w).
