(* ===== verification/RequestAggregator.v ===== *)
(** * Requests for votes ([node/request_aggregator.hpp], [node/request_aggregator.cpp])

    Requests are pooled by endpoint.  When the deadline of a pool has passed, its
    requests are answered from the local history, and what is left goes to the
    generators: to the final one when the node has recorded a final vote for the root
    or has cemented the block. *)

From S2P Require Import Prelude Blocks Common Vote Store Ledger LedgerQueries Voting.

(** A request: hash and root. *)
Abbreviation request := (Z * Z)%type.

(** A channel is known by its number; [cp_endpoint] is its endpoint mapped to IPv6. *)
Record channel_pool := ChannelPool {
  cp_hashes_roots : list request;
  cp_channel : Z;
  cp_endpoint : Z;
  cp_start : Z;
  cp_deadline : Z;
}.

(** [max_delay], [small_delay] and [max_channel_requests]. *)
Record aggregator_config := AggregatorConfig {
  ag_max_delay : Z;
  ag_small_delay : Z;
  ag_max_channel_requests : nat;
}.

(** The pool with the earliest deadline, the first of the deadline index. *)
Definition earlier (p q : channel_pool) : Prop := cp_deadline p <= cp_deadline q.
#[export] Instance earlier_dec : RelDecision earlier.
Proof. intros p q. unfold earlier. apply _. Defined.

Definition first_pool (requests : list channel_pool) : option channel_pool :=
  head (merge_sort earlier requests).

Section pools.
Context (c : aggregator_config).

(** The update of the pool of the endpoint, and whether the request is refused. *)
Definition pool_update (now channel_a : Z) (hashes_roots_a : list request) (p : channel_pool) :
    channel_pool * bool :=
  if (length (cp_hashes_roots p) + length hashes_roots_a <=? ag_max_channel_requests c)%nat
  then (ChannelPool (hashes_roots_a ++ cp_hashes_roots p) channel_a (cp_endpoint p) (cp_start p)
          (Z.min (cp_start p + ag_max_delay c) (now + ag_small_delay c)), false)
  else (ChannelPool (cp_hashes_roots p) channel_a (cp_endpoint p) (cp_start p) (cp_deadline p), true).

(** [find] by endpoint and [modify]. *)
Fixpoint pools_modify (now channel_a endpoint : Z) (hashes_roots_a : list request)
    (requests : list channel_pool) : option (list channel_pool * bool) :=
  match requests with
  | [] => None
  | p :: rest =>
      if cp_endpoint p =? endpoint then
        let '(p, error) := pool_update now channel_a hashes_roots_a p in Some (p :: rest, error)
      else '(rest, error) ← pools_modify now channel_a endpoint hashes_roots_a rest; Some (p :: rest, error)
  end.

(** [add]: the pools, and whether the request was dropped.  The deadline of a new pool
    is the epoch of the clock until a request is accepted. *)
Definition aggregator_add (now channel_a endpoint : Z) (hashes_roots_a : list request)
    (requests : list channel_pool) : list channel_pool * bool :=
  let overdue :=
    match first_pool requests with
    | None => false
    | Some p => negb (now <? cp_deadline p + 2 * ag_max_delay c)
    end in
  if overdue then (requests, true) else
  match pools_modify now channel_a endpoint hashes_roots_a requests with
  | Some r => r
  | None =>
      let '(p, error) := pool_update now channel_a hashes_roots_a
                           (ChannelPool [] channel_a endpoint now 0) in
      (requests ++ [p], error)
  end.

(** The pool that [run] takes out, if its deadline has passed. *)
Definition take_due (now : Z) (requests : list channel_pool) :
    option (channel_pool * list channel_pool) :=
  p ← first_pool requests;
  if cp_deadline p <? now
  then Some (p, filter (λ q, cp_endpoint q ≠ cp_endpoint p) requests) else None.
End pools.

(** [erase_duplicates]: sort by hash, then drop adjacent equal hashes. *)
Definition hash_le (x y : request) : Prop := x.1 <= y.1.
#[export] Instance hash_le_dec : RelDecision hash_le.
Proof. intros x y. unfold hash_le. apply _. Defined.

(** [std::unique] keeps the first of a run. *)
Fixpoint unique_after (x : request) (l : list request) : list request :=
  match l with
  | [] => []
  | y :: l => if x.1 =? y.1 then unique_after x l else y :: unique_after y l
  end.

Definition unique_hashes (l : list request) : list request :=
  match l with [] => [] | x :: l => x :: unique_after x l end.

Definition erase_duplicates (requests_a : list request) : list request :=
  unique_hashes (merge_sort hash_le requests_a).

(** [std::sort] and [std::unique] of the cached votes, by address. *)
Definition by_address (v w : shared_vote) : Prop := (sv_address v <= sv_address w)%nat.
#[export] Instance by_address_dec : RelDecision by_address.
Proof. intros v w. unfold by_address. apply _. Defined.

Fixpoint unique_votes (l : list shared_vote) : list shared_vote :=
  match l with
  | v :: ((w :: _) as l') =>
      if Nat.eqb (sv_address v) (sv_address w) then unique_votes l' else v :: unique_votes l'
  | _ => l
  end.

(** What [aggregate] has collected so far; [ag_sent] are the messages to the channel. *)
Record aggregation := Aggregation {
  ag_to_generate : list block_in_memory;
  ag_to_generate_final : list block_in_memory;
  ag_cached_votes : list shared_vote;
  ag_sent : list voting_event;
  ag_unknown : nat;
}.

Definition push_generate b (a : aggregation) : aggregation :=
  Aggregation (ag_to_generate a ++ [b]) (ag_to_generate_final a) (ag_cached_votes a) (ag_sent a)
    (ag_unknown a).
Definition push_final b (a : aggregation) : aggregation :=
  Aggregation (ag_to_generate a) (ag_to_generate_final a ++ [b]) (ag_cached_votes a) (ag_sent a)
    (ag_unknown a).
Definition push_cached l (a : aggregation) : aggregation :=
  Aggregation (ag_to_generate a) (ag_to_generate_final a) (ag_cached_votes a ++ l) (ag_sent a)
    (ag_unknown a).
Definition push_sent m (a : aggregation) : aggregation :=
  Aggregation (ag_to_generate a) (ag_to_generate_final a) (ag_cached_votes a) (ag_sent a ++ [m])
    (ag_unknown a).
Definition count_unknown (a : aggregation) : aggregation :=
  Aggregation (ag_to_generate a) (ag_to_generate_final a) (ag_cached_votes a) (ag_sent a)
    (S (ag_unknown a)).

Section aggregate.
Context `{Crypto}.

(** What a request reads: the ledger and its final votes, the history, and the winner
    of the election that has a block of this hash ([active.winner]). *)
Context (L : ledger) (t : final_table) (history : list local_vote) (winner : Z → option block_in_memory).

(** Whether the block is cemented. *)
Definition height_confirmed (b : block_w_sideband) : bool :=
  sb_height b.2 <=? ch_height (confirmation_height_get (lg_store L) (account_calculated b)).

Definition in_memory (b : block_w_sideband) : block_in_memory := (b.1, Some b.2).

(** 2. Final votes: the recorded block of the root, and the first of two when there are
    two; the flag is [generate_final_vote]. *)
Definition final_vote_block (root_a : Z) : list block_in_memory * option block_in_memory * bool :=
  match final_vote_get t root_a with
  | [] => ([], None, false)
  | h0 :: hs =>
      match in_memory <$> block_get (lg_store L) h0, hs with
      | Some b, h1 :: _ => ([b], in_memory <$> block_get (lg_store L) h1, true)
      | b, _ => ([], b, true)
      end
  end.

(** 5. Ledger by root: the successor of a block or the first block of an account, the
    cached votes for it, and the two flags [generate_vote], [generate_final_vote]. *)
Definition root_successor (root_a : Z) : Z :=
  let successor := block_successor (lg_store L) root_a in
  if successor =? 0
  then match account_get (lg_store L) root_a with Some info => ai_open_block info | None => successor end
  else successor.

Definition ledger_by_root (root_a : Z) (generate_final_vote : bool) :
    option block_in_memory * list shared_vote * bool * bool :=
  if root_a =? 0 then (None, [], true, generate_final_vote) else
  let successor := root_successor root_a in
  if successor =? 0 then (None, [], true, generate_final_vote) else
  let block := block_get (lg_store L) successor in
  let find_successor_votes := local_vote_history.votes root_a successor false history in
  let generate_vote := bool_decide (find_successor_votes = []) in
  (in_memory <$> block, find_successor_votes, generate_vote,
   match block with
   | Some b => if generate_vote then height_confirmed b else generate_final_vote
   | None => generate_final_vote
   end).

(** Steps 3 to 5, when no final vote gave a block. *)
Definition find_block (hash root_a : Z) (generate_final_vote : bool) :
    option block_in_memory * list shared_vote * bool * bool :=
  match winner hash with
  | Some b => (Some b, [], true, generate_final_vote)
  | None =>
      match block_get (lg_store L) hash with
      | Some b => (Some (in_memory b), [], true, height_confirmed b)
      | None => ledger_by_root root_a generate_final_vote
      end
  end.

(** The end of an iteration: the block is queued for a vote, and published when it is
    not the one that was asked for. *)
Definition queue_block (channel_a hash : Z) (block : option block_in_memory)
    (generate_vote generate_final_vote : bool) (a : aggregation) : aggregation :=
  match block with
  | None => count_unknown a
  | Some b =>
      let a := if generate_vote
               then if generate_final_vote then push_final b a else push_generate b a else a in
      if negb (block_hash b.1 =? hash) then push_sent (reply_publish b.1 channel_a) a else a
  end.

(** One iteration of the loop. *)
Definition aggregate_one (channel_a : Z) (a : aggregation) (r : request) : aggregation :=
  let '(hash, root_a) := r in
  let find_votes := local_vote_history.votes root_a hash false history in
  if bool_decide (find_votes ≠ []) then push_cached find_votes a else
  let '(first, block, generate_final_vote) := final_vote_block root_a in
  let a := fold_left (λ a b, push_final b a) first a in
  let '(block, cached, generate_vote, generate_final_vote) :=
    match block with
    | Some b => (Some b, [], true, generate_final_vote)
    | None => find_block hash root_a generate_final_vote
    end in
  queue_block channel_a hash block generate_vote generate_final_vote (push_cached cached a).

(** [aggregate]: the cached votes are sent, each once, after the published blocks. *)
Definition aggregate (requests_a : list request) (channel_a : Z) : aggregation :=
  let a := fold_left (aggregate_one channel_a) requests_a (Aggregation [] [] [] [] 0) in
  let cached_votes := unique_votes (merge_sort by_address (ag_cached_votes a)) in
  fold_left (λ a v, push_sent (reply_vote v channel_a) a) cached_votes a.
End aggregate.

(** The body of the loop of [run] for a pool that is due. *)
Definition serve_pool `{Crypto} (constants : ledger_constants) (winner : Z → option block_in_memory)
    (hashes_roots : list request) (channel : Z) (w : voting_world) : outcome voting_world :=
  let remaining := aggregate (vw_ledger w) (vw_final_votes w) (vw_history w) winner
                     (erase_duplicates hashes_roots) channel in
  let w := emit (ag_sent remaining) w in
  w ← (if bool_decide (ag_to_generate remaining = []) then Ok w
       else r ← generator_generate constants false (ag_to_generate remaining) channel w; Ok r.2);
  if bool_decide (ag_to_generate_final remaining = []) then Ok w
  else r ← generator_generate constants true (ag_to_generate_final remaining) channel w; Ok r.2.
