(* ===== verification/VotingTheorems.v ===== *)
(** * Votes of this node: the history, spacing, and what is sent

    Properties of all interleavings of the two generators with their callers and with
    the ledger. *)

From Stdlib Require Import Sorted.
From S2P Require Import Prelude Blocks Common Vote Store Ledger LedgerQueries Voting RequestAggregator.

Lemma fold_left_ind {A B} (P : A → Prop) (f : A → B → A) l a :
  P a → (∀ a b, P a → P (f a b)) → P (fold_left f l a).
Proof. intros Ha Hf. revert a Ha. induction l as [| b l IH]; simpl; auto. Qed.

(** ** The history *)

Section history.
Context (max_cache : nat).
Import local_vote_history.

(** One hash and one vote per representative for every root, and a bounded size. *)
Record history_ok (h : list local_vote) : Prop := {
  ho_same : ∀ x y, x ∈ h → y ∈ h → lv_root x = lv_root y → lv_hash x = lv_hash y;
  ho_unique : NoDup ((λ x, (lv_root x, lv_account x)) <$> h);
  ho_size : (length h <= S max_cache)%nat;
}.

Lemma sublist_history_ok h h' : h' `sublist_of` h → history_ok h → history_ok h'.
Proof.
  intros Hs [Ho Hu Hl]. split.
  - intros x y Hx Hy. apply Ho; by eapply elem_of_sublist.
  - eapply sublist_NoDup; [done |]. by apply fmap_sublist.
  - apply sublist_length in Hs. lia.
Qed.

Lemma clean_sublist h : clean max_cache h `sublist_of` h.
Proof. induction h as [| x h IH]; simpl; [done |]. destruct (_ <? _)%nat; [by apply sublist_cons | done]. Qed.

Lemma clean_length h : (length (clean max_cache h) <= max_cache)%nat.
Proof.
  induction h as [| x h IH]; simpl; [lia |]. destruct (_ <? _)%nat eqn:E; [done |].
  apply Nat.ltb_ge in E. done.
Qed.

(** What the loop of [add] keeps: everything of other roots, and of the root the votes
    for the hash by others or newer ones of the same representative. *)
Lemma add_loop_spec root_a hash_a v h kept add_vote :
  add_loop root_a hash_a v h = (kept, add_vote) →
  kept `sublist_of` h ∧
  (∀ x, x ∈ kept → lv_root x = root_a → lv_hash x = hash_a) ∧
  (add_vote = true → ∀ x, x ∈ kept → lv_root x = root_a → lv_account x ≠ vt_account v) ∧
  (add_vote = false → ∃ x, x ∈ kept ∧ lv_root x = root_a ∧ lv_account x = vt_account v ∧
                           vote_timestamp v < lv_timestamp x).
Proof.
  revert kept add_vote. induction h as [| x h IH]; simpl; intros kept add_vote.
  - intros [= <- <-]. split_and!; [done | by intros ? ?%elem_of_nil | by intros _ ? ?%elem_of_nil | done].
  - destruct (add_loop root_a hash_a v h) as [k b]. destruct (IH k b eq_refl) as (Hs & Hh & Ha & Hn).
    destruct (lv_root x =? root_a) eqn:Er.
    + destruct (lv_hash x =? hash_a) eqn:Eh; simpl.
      * destruct (vt_account v =? lv_account x) eqn:Ea; simpl.
        -- destruct (lv_timestamp x <=? vote_timestamp v) eqn:Et; simpl.
           ++ intros [= <- <-]. split_and!; [by apply sublist_cons | done..].
           ++ assert ((vote_timestamp v <? lv_timestamp x) = true) as -> by lia. intros [= <- <-].
              split_and!; [by apply sublist_skip | | done |].
              ** intros y [-> | Hy]%elem_of_cons; [lia | by apply Hh].
              ** intros _. exists x. split; [by left | lia].
        -- intros [= <- <-]. split_and!; [by apply sublist_skip | | |].
           ++ intros y [-> | Hy]%elem_of_cons; [lia | by apply Hh].
           ++ intros Hb y [-> | Hy]%elem_of_cons; [lia | by apply Ha].
           ++ intros Hb. destruct (Hn Hb) as (y & ? & ?). exists y. split; [by right | done].
      * intros [= <- <-]. split_and!; [by apply sublist_cons | done..].
    + intros [= <- <-]. split_and!; [by apply sublist_skip | | |].
      * intros y [-> | Hy]%elem_of_cons; [lia | by apply Hh].
      * intros Hb y [-> | Hy]%elem_of_cons; [lia | by apply Ha].
      * intros Hb. destruct (Hn Hb) as (y & ? & ?). exists y. split; [by right | done].
Qed.

Lemma add_ok root_a hash_a v h : history_ok h → history_ok (add max_cache root_a hash_a v h).
Proof.
  intros Hok. unfold add. destruct (add_loop _ _ _ _) as [kept b] eqn:E.
  apply add_loop_spec in E as (Hs & Hh & Ha & _).
  assert (Hk : history_ok kept).
  { eapply sublist_history_ok; [| done]. etrans; [done | apply clean_sublist]. }
  destruct b; [| done]. destruct Hk as [Ho Hu _]. split.
  - intros x y. rewrite !elem_of_app, !list_elem_of_singleton. intros [Hx | ->] [Hy | ->] Hr; simpl in *.
    + by apply Ho.
    + by apply Hh.
    + symmetry. by apply Hh.
    + done.
  - rewrite fmap_app. apply NoDup_app. split_and!; [done | | apply NoDup_singleton].
    intros p (x & -> & Hx)%list_elem_of_fmap. simpl. rewrite list_elem_of_singleton. intros [= Hr Hacc].
    by apply (Ha eq_refl x Hx).
  - rewrite length_app. simpl. apply sublist_length in Hs. pose proof (clean_length h). lia.
Qed.

(** The history forgets a vote only for a newer one or one for another block of the
    root, by age, or on request. *)
Lemma add_elem root_a hash_a v h x :
  x ∈ add max_cache root_a hash_a v h → x ∈ h ∨ x = LocalVote root_a hash_a v.
Proof.
  unfold add. destruct (add_loop _ _ _ _) as [kept b] eqn:E. apply add_loop_spec in E as (Hs & _).
  assert (Hk : x ∈ kept → x ∈ h).
  { intros Hx. eapply elem_of_sublist; [done |]. etrans; [done | apply clean_sublist]. }
  destruct b; [| auto]. rewrite elem_of_app, list_elem_of_singleton. intros [? | ->]; auto.
Qed.

(** After [add] the root has a vote for the hash, and the representative has one. *)
Lemma add_answers root_a hash_a v h :
  ∃ x, x ∈ add max_cache root_a hash_a v h ∧ lv_root x = root_a ∧ lv_hash x = hash_a ∧
       lv_account x = vt_account (sv_vote v) ∧ vote_timestamp (sv_vote v) <= lv_timestamp x.
Proof.
  unfold add. destruct (add_loop _ _ _ _) as [kept b] eqn:E. apply add_loop_spec in E as (_ & Hh & _ & Hn).
  destruct b.
  - eexists. split; [apply elem_of_app; right; by left |]. split_and!; done.
  - destruct (Hn eq_refl) as (x & Hx & Hr & Hacc & Ht). exists x. split_and!; auto with lia.
Qed.

(** ** The consistency check of debug builds *)

Lemma unique_length l : (length (unique l) <= length l)%nat.
Proof.
  induction l as [| x l IH]; [done |]. destruct l as [| y l]; [done |].
  change (unique (x :: y :: l)) with (if x =? y then unique (y :: l) else x :: unique (y :: l)).
  destruct (x =? y); simpl in *; lia.
Qed.

Lemma unique_NoDup l : NoDup l → unique l = l.
Proof.
  induction l as [| x l IH]; [done |]. intros [Hx Hl]%NoDup_cons. destruct l as [| y l]; [done |].
  change (unique (x :: y :: l)) with (if x =? y then unique (y :: l) else x :: unique (y :: l)).
  destruct (x =? y) eqn:E; [| by rewrite IH].
  apply Z.eqb_eq in E. subst. exfalso. apply Hx. by left.
Qed.

(** The check of a root that has votes succeeds. *)
Lemma history_consistent h root_a :
  history_ok h → exists_ root_a h = true → consistency_check root_a h = Some true.
Proof.
  intros [Ho Hu _] He. unfold consistency_check. apply existsb_exists in He as (x & Hx%list_elem_of_In & Hr).
  assert (Hin : x ∈ filter (λ e, lv_root e = root_a) h) by (apply list_elem_of_filter; split; [lia | done]).
  destruct (filter _ h) as [| f rest] eqn:Ef; [by apply elem_of_nil in Hin |]. rewrite <- Ef in *.
  assert (Hf : f ∈ filter (λ e, lv_root e = root_a) h) by (rewrite Ef; by left).
  assert (forallb (λ e, lv_hash e =? lv_hash f) (filter (λ e, lv_root e = root_a) h) = true) as ->.
  { apply forallb_forall. intros y Hy%list_elem_of_In. apply list_elem_of_filter in Hy as [Hry Hy].
    apply list_elem_of_filter in Hf as [Hrf Hf]. apply Z.eqb_eq, Ho; congruence. }
  rewrite unique_NoDup; [by rewrite Nat.eqb_refl |]. rewrite merge_sort_Permutation.
  assert (Hs : filter (λ e, lv_root e = root_a) h `sublist_of` h) by apply sublist_filter.
  apply (fmap_sublist (λ x, (lv_root x, lv_account x))) in Hs. apply (sublist_NoDup _ _ Hu) in Hs.
  apply (NoDup_fmap_1 (λ a, (root_a, a))). rewrite <- list_fmap_compose.
  erewrite list_fmap_ext; [exact Hs |]. intros i y Hy%list_elem_of_lookup_2.
  apply list_elem_of_filter in Hy as [<- _]. done.
Qed.

Lemma erase_ok root_a h : history_ok h → history_ok (erase root_a h).
Proof. apply sublist_history_ok, sublist_filter. Qed.
End history.

(** ** Runs *)

Section runs.
Context `{Crypto} (constants : ledger_constants) (e : voting_env).

(** How the ledger may change under the final votes that are recorded. *)
Context (moves : final_table → ledger → ledger → Prop).

(** A step of a generator's thread, a candidate of an election, a pool of requests
    whose deadline has passed, an election whose winner changes ([election::remove_votes]
    erases the root), or a change of the ledger. *)
Inductive voting_step (w w' : voting_world) : Prop :=
| vs_thread final reps : w' = thread_step e final reps w → voting_step w w'
| vs_add final root_a hash_a :
    lock_free (get_generator final w) = true →
    generator_add constants final root_a hash_a w = Ok w' → voting_step w w'
| vs_serve winner hashes_roots channel :
    lock_free (vw_generator w) = true → lock_free (vw_final_generator w) = true →
    serve_pool constants winner hashes_roots channel w = Ok w' → voting_step w w'
| vs_erase root_a :
    w' = set_history (local_vote_history.erase root_a (vw_history w)) w → voting_step w w'
| vs_ledger L' : moves (vw_final_votes w) (vw_ledger w) L' → w' = set_ledger L' w → voting_step w w'.

Definition voting_new (L : ledger) : voting_world :=
  VotingWorld L ∅ [] (vote_generator_new false) (vote_generator_new true) 0 0 [].

(** ** What a step changes *)

Lemma get_on_generator f g w : get_generator f (on_generator f g w) = g (get_generator f w).
Proof. by destruct f. Qed.

Lemma get_on_other f f' g w : f ≠ f' → get_generator f (on_generator f' g w) = get_generator f w.
Proof. by destruct f, f'. Qed.

(** The batch a thread has collected, and the candidates that are left of a vote. *)
Definition thread_batch (t : thread_state) : list candidate :=
  match t with collecting _ _ batch | voting _ _ batch _ _ => batch | _ => [] end.
Definition thread_todo (t : thread_state) : list candidate :=
  match t with voting _ _ _ _ todo => todo | _ => [] end.
Definition thread_votes (t : thread_state) : list shared_vote :=
  match t with voting _ _ _ votes_l _ => votes_l | _ => [] end.

Definition is_voted (f : bool) (x : voting_event) : Prop :=
  match x with voted f' _ _ _ _ => f' = f | _ => False end.

(** A generator goes on without recording a vote. *)
Record quiet (f : bool) (w w' : voting_world) : Prop := {
  qu_spacing : vg_spacing (get_generator f w') = vg_spacing (get_generator f w);
  qu_batch : thread_batch (vg_thread (get_generator f w')) = thread_batch (vg_thread (get_generator f w)) ∨
             thread_batch (vg_thread (get_generator f w')) = [];
  qu_todo : thread_todo (vg_thread (get_generator f w')) ⊆ thread_batch (vg_thread (get_generator f w')) ∨
            thread_todo (vg_thread (get_generator f w')) = thread_todo (vg_thread (get_generator f w)) ∧
            thread_batch (vg_thread (get_generator f w')) = thread_batch (vg_thread (get_generator f w));
  qu_reads : (vw_reads w <= vw_reads w')%nat;
  qu_events : ∃ l, vw_events w' = vw_events w ++ l ∧ Forall (λ x, ¬ is_voted f x) l;
}.

(** How a step of the thread moves its generator: quietly, by collecting a candidate,
    or by recording one. *)
Inductive thread_moves (f : bool) (w w' : voting_world) : Prop :=
| tm_quiet : quiet f w w' → thread_moves f w w'
| tm_collect src sent batch c w0 :
    vg_thread (get_generator f w) = collecting src sent batch →
    quiet f w w0 → thread_batch (vg_thread (get_generator f w0)) = batch →
    vw_history w0 = vw_history w →
    (∃ src', w' = collect e f src' sent batch c w0) → thread_moves f w w'
| tm_record src sent batch v votes_l c todo :
    vg_thread (get_generator f w) = voting src sent batch (v :: votes_l) (c :: todo) →
    w' = record_vote e f src sent batch v votes_l c todo w → thread_moves f w w'.

Lemma quiet_intro f w w' :
  vg_spacing (get_generator f w') = vg_spacing (get_generator f w) →
  (thread_batch (vg_thread (get_generator f w')) = thread_batch (vg_thread (get_generator f w)) ∨
   thread_batch (vg_thread (get_generator f w')) = []) →
  thread_todo (vg_thread (get_generator f w')) ⊆ thread_batch (vg_thread (get_generator f w')) →
  (vw_reads w <= vw_reads w')%nat →
  (∃ l, vw_events w' = vw_events w ++ l ∧ Forall (λ x, ¬ is_voted f x) l) →
  quiet f w w'.
Proof. intros. split; auto. Qed.

Lemma none_voted f w w' :
  vw_events w' = vw_events w → ∃ l, vw_events w' = vw_events w ++ l ∧ Forall (λ x, ¬ is_voted f x) l.
Proof. intros ->. exists []. by rewrite app_nil_r. Qed.

Lemma goto_quiet f t w :
  thread_batch t = thread_batch (vg_thread (get_generator f w)) ∨ thread_batch t = [] →
  thread_todo t ⊆ thread_batch t → quiet f w (on_generator f (set_thread t) w).
Proof.
  intros Hb Ht. apply quiet_intro; rewrite ?get_on_generator; try done; [by destruct f.. |].
  apply none_voted. by destruct f.
Qed.

Lemma begin_quiet f reps src sent batch src' w :
  vg_thread (get_generator f w) = collecting src sent batch → quiet f w (begin_vote e f reps src' sent batch w).
Proof.
  intros Hg. unfold begin_vote. apply quiet_intro; rewrite ?get_on_generator; simpl; try done.
  - rewrite Hg. auto.
  - destruct f; simpl; lia.
  - apply none_voted. by destruct f.
Qed.

Lemma thread_step_moves f reps w : thread_moves f w (thread_step e f reps w).
Proof.
  unfold thread_step. set (g := get_generator f w).
  assert (Hgoto : ∀ t, thread_batch t = thread_batch (vg_thread g) ∨ thread_batch t = [] →
    thread_todo t ⊆ thread_batch t → quiet f w (on_generator f (set_thread t) w)) by (intros; by apply goto_quiet).
  destruct (vg_thread g) as [| | src sent batch | src sent batch votes_l todo] eqn:Eg.
  - destruct (_ <=? _)%nat; [apply tm_quiet, Hgoto; [by right | done] |].
    destruct (vg_requests g) as [| [cs ch] rest]; [apply tm_quiet, Hgoto; [by right | done] |].
    apply tm_quiet, quiet_intro; rewrite ?get_on_generator; simpl; [done | by right | done | destruct f; simpl; lia |].
    apply none_voted. by destruct f.
  - apply tm_quiet, Hgoto; destruct (bool_decide _); [by right.. | done | done].
  - simpl in *. destruct src as [| cs ch].
    + destruct (vg_candidates g) as [| c rest].
      * case_bool_decide; [apply tm_quiet, Hgoto; [by right | done] | by apply tm_quiet, (begin_quiet f reps from_candidates)].
      * destruct (_ <? _)%nat; [| by apply tm_quiet, (begin_quiet f reps from_candidates)].
        eapply (tm_collect _ _ _ _ _ _ c (on_generator f (set_candidates rest) w)); [done | | | by destruct f | by eexists].
        -- apply quiet_intro; rewrite ?get_on_generator; simpl; [done | by left | fold g; rewrite Eg; apply list_subseteq_nil | destruct f; simpl; lia |].
           apply none_voted. by destruct f.
        -- rewrite get_on_generator. simpl. fold g. by rewrite Eg.
    + destruct cs as [| c rest].
      * case_bool_decide; [apply tm_quiet, Hgoto; [by right | done] | by apply tm_quiet, (begin_quiet f reps (from_request [] ch))].
      * destruct (_ <? _)%nat; [| by apply tm_quiet, (begin_quiet f reps (from_request (c :: rest) ch))].
        eapply (tm_collect _ _ _ _ _ _ c w); [done | | fold g; by rewrite Eg | done | by eexists].
        apply quiet_intro; [done | by left | fold g; rewrite Eg; apply list_subseteq_nil | done | by apply none_voted].
  - destruct votes_l as [| v votes_l].
    + apply tm_quiet. destruct src as [| [| c cs] ch]; apply Hgoto; simpl; auto.
    + destruct todo as [| c todo]; [| eapply tm_record; [exact Eg | by destruct src as [| [| ??] ?]]].
      assert (quiet f w (emit [send_vote src v] (on_generator f (set_thread (voting src sent batch votes_l batch)) w)))
        as Hq; [| by destruct src as [| [| ??] ?]; apply tm_quiet].
      apply quiet_intro; simpl.
      * by destruct f.
      * left. destruct f; simpl; [change (vw_final_generator w) with g | change (vw_generator w) with g]; by rewrite Eg.
      * by destruct f.
      * destruct f; simpl; lia.
      * exists [send_vote src v]. split; [by destruct f |]. apply Forall_singleton. destruct src; simpl; tauto.
Qed.

(** What other threads do is quiet for a generator. *)
Lemma quiet_other f w w' :
  vg_spacing (get_generator f w') = vg_spacing (get_generator f w) →
  vg_thread (get_generator f w') = vg_thread (get_generator f w) →
  (vw_reads w <= vw_reads w')%nat →
  (∃ l, vw_events w' = vw_events w ++ l ∧ Forall (λ x, ¬ is_voted f x) l) → quiet f w w'.
Proof. intros Hs Ht Hr He. split; rewrite ?Ht; auto. Qed.

Lemma thread_step_other f f' reps w : f ≠ f' → quiet f w (thread_step e f' reps w).
Proof.
  intros Hne. assert (Hfin : ∀ w', get_generator f w' = get_generator f w → (vw_reads w <= vw_reads w')%nat →
    (∃ l, vw_events w' = vw_events w ++ l ∧ Forall (λ x, ¬ is_voted f x) l) → quiet f w w').
  { intros w' Hg. apply quiet_other; by rewrite Hg. }
  assert (Hgoto : ∀ u, quiet f w (on_generator f' u w)).
  { intros u. apply Hfin; [by rewrite get_on_other | by destruct f' |]. apply none_voted. by destruct f'. }
  assert (Hbegin : ∀ src sent batch, quiet f w (begin_vote e f' reps src sent batch w)).
  { intros src sent batch. unfold begin_vote. apply Hfin; [by rewrite get_on_other; destruct f | destruct f'; simpl; lia |].
    apply none_voted. by destruct f'. }
  assert (Hcol : ∀ src sent batch c w0, get_generator f w0 = get_generator f w → vw_reads w0 = vw_reads w →
    vw_events w0 = vw_events w → quiet f w (collect e f' src sent batch c w0)).
  { intros src sent batch c w0 Hg Hr He. unfold collect. destruct (unsent _ _) as [l s]. apply Hfin.
    - rewrite get_on_other by done. by rewrite <- Hg; destruct f.
    - destruct f'; simpl; lia.
    - exists (send_vote src <$> l). split; [destruct f'; simpl; congruence |].
      apply Forall_fmap, Forall_true. intros v. destruct src; simpl; tauto. }
  unfold thread_step.
  destruct (vg_thread (get_generator f' w)) as [| | src sent batch | src sent batch votes_l todo].
  - destruct (_ <=? _)%nat; [done |]. by destruct (vg_requests _) as [| [??] ?].
  - done.
  - destruct src as [| cs ch].
    + destruct (vg_candidates _) as [| c rest]; [by destruct (bool_decide _) |].
      destruct (_ <? _)%nat; [| done]. apply Hcol; [by rewrite get_on_other | by destruct f' | by destruct f'].
    + destruct cs as [| c rest]; [by destruct (bool_decide _) |]. destruct (_ <? _)%nat; [| done]. by apply Hcol.
  - destruct votes_l as [| v votes_l].
    + by destruct src as [| [| ??] ?].
    + destruct todo as [| c todo].
      * assert (quiet f w (emit [send_vote src v] (on_generator f' (set_thread (voting src sent batch votes_l batch)) w)))
          as Hq; [| by destruct src as [| [| ??] ?]].
        apply Hfin; simpl; [by destruct f, f' | by destruct f' |].
        exists [send_vote src v]. split; [by destruct f' |]. apply Forall_singleton. destruct src; simpl; tauto.
      * assert (quiet f w (record_vote e f' src sent batch v votes_l c todo w)) as Hq; [| by destruct src as [| [| ??] ?]].
        unfold record_vote. apply Hfin; [by rewrite get_on_other; destruct f | destruct f'; simpl; lia |].
        eexists. split; [by destruct f' |]. apply Forall_singleton. simpl. congruence.
Qed.

Lemma add_quiet f f' root_a hash_a w w' : generator_add constants f' root_a hash_a w = Ok w' → quiet f w w'.
Proof.
  unfold generator_add. set (l := local_vote_history.votes _ _ _ _). case_bool_decide as Hl.
  - intros [= <-]. apply quiet_other; [by destruct f.. | done |]. exists (broadcast_vote <$> l). split; [done |].
    apply Forall_fmap, Forall_true. by intros v [].
  - destruct (stored_block _ _) as [b |]; [| intros [= <-]; apply quiet_other; try done; by apply none_voted].
    destruct (dependents_confirmed _ _ _) as [c |]; [| done]. simpl.
    destruct c; [| intros [= <-]; apply quiet_other; try done; by apply none_voted].
    destruct f'; [destruct (final_vote_put _ _ _) as [[] t] |]; intros [= <-];
      (apply quiet_other; [by destruct f.. | done | by apply none_voted]).
Qed.

Lemma generate_quiet f f' blocks_a channel_a w r :
  generator_generate constants f' blocks_a channel_a w = Ok r → quiet f w r.2.
Proof.
  unfold generator_generate. destruct (request_candidates _ _ _) as [l |]; [| done]. intros [= <-].
  destruct f'; (apply quiet_other; [by destruct f.. | done | by apply none_voted]).
Qed.

Lemma quiet_trans f w w' w'' : quiet f w w' → quiet f w' w'' → quiet f w w''.
Proof.
  intros [Hs Hb Ht Hr (l & He & Hl)] [Hs' Hb' Ht' Hr' (l' & He' & Hl')]. split; [congruence | | | lia |].
  - destruct Hb' as [-> | ->]; auto.
  - destruct Ht' as [? | [-> ->]]; auto.
  - exists (l ++ l'). rewrite He', He, app_assoc. split; [done |]. by apply Forall_app.
Qed.

(** The aggregator answers with cached votes and blocks. *)
Lemma push_final_sent l a : ag_sent (fold_left (λ a b, push_final b a) l a) = ag_sent a.
Proof. revert a. induction l as [| b l IH]; [done |]. intros a. simpl. by rewrite IH. Qed.

Lemma aggregate_sent f L t history winner requests_a channel :
  Forall (λ x, ¬ is_voted f x) (ag_sent (aggregate L t history winner requests_a channel)).
Proof.
  unfold aggregate. apply fold_left_ind.
  - apply fold_left_ind; [done |]. intros a [hash root_a] Ha. unfold aggregate_one.
    case_bool_decide; [done |]. destruct (final_vote_block _ _ _) as [[first block] final].
    rewrite <- (push_final_sent first) in Ha. set (a' := fold_left _ _ _) in *.
    destruct (match block with Some b => _ | None => _ end) as [[[block' cached] gen] final'].
    unfold queue_block. destruct block' as [b |]; [| done].
    destruct (negb _); destruct gen; [destruct final' | | destruct final' |]; simpl;
      rewrite ?Forall_app, ?Forall_singleton; auto.
  - intros a v Ha. simpl. apply Forall_app. rewrite Forall_singleton. auto.
Qed.

Lemma serve_quiet f winner hashes_roots channel w w' :
  serve_pool constants winner hashes_roots channel w = Ok w' → quiet f w w'.
Proof.
  unfold serve_pool. set (a := aggregate _ _ _ _ _ _). intros Hs.
  assert (Hsent : Forall (λ x, ¬ is_voted f x) (ag_sent a)).
  { apply aggregate_sent. }
  assert (H0 : quiet f w (emit (ag_sent a) w)).
  { apply quiet_other; [by destruct f.. | done |]. by exists (ag_sent a). }
  apply bind_Ok in Hs as (w1 & H1 & H2).
  assert (H1' : quiet f (emit (ag_sent a) w) w1).
  { destruct (bool_decide _) in H1; [injection H1 as <-; apply quiet_other; try done; by apply none_voted |].
    apply bind_Ok in H1 as (r & H1 & [= <-]). by eapply generate_quiet. }
  assert (H2' : quiet f w1 w').
  { destruct (bool_decide _) in H2; [injection H2 as <-; apply quiet_other; try done; by apply none_voted |].
    apply bind_Ok in H2 as (r & H2 & [= <-]). by eapply generate_quiet. }
  eauto using quiet_trans.
Qed.

(** ** Spacing *)

Context (Hclock : ∀ i j, (i <= j)%nat → ve_steady e i <= ve_steady e j).

Abbreviation now w := (ve_steady e (vw_reads w)).
Abbreviation spacing f w := (vg_spacing (get_generator f w)).
Abbreviation batch f w := (thread_batch (vg_thread (get_generator f w))).

(** Votes of a generator for different blocks of a root are [delay] apart. *)
Definition spaced (f : bool) (l : list voting_event) : Prop :=
  ∀ i j r h1 t1 v1 h2 t2 v2, (i < j)%nat → l !! i = Some (voted f r h1 t1 v1) →
    l !! j = Some (voted f r h2 t2 v2) → h1 ≠ h2 → t1 + ve_delay e <= t2.

Lemma spaced_snoc f l x :
  spaced f l →
  (∀ r h t v h1 t1 v1, x = voted f r h t v → voted f r h1 t1 v1 ∈ l → h1 ≠ h → t1 + ve_delay e <= t) →
  spaced f (l ++ [x]).
Proof.
  intros Hl Hx i j r h1 t1 v1 h2 t2 v2 Hij Hi Hj Hne.
  apply lookup_app_Some in Hj as [Hj | [Hlen Hj]].
  - apply (Hl i j r h1 t1 v1 h2 t2 v2); try done. rewrite lookup_app_l in Hi; [done |].
    apply lookup_lt_Some in Hj. lia.
  - apply list_lookup_singleton_Some in Hj as [Hj ->]. rewrite lookup_app_l in Hi by lia.
    eapply Hx; [done | by eapply list_elem_of_lookup_2 | done].
Qed.

Lemma spaced_quiet f l l' : spaced f l → Forall (λ x, ¬ is_voted f x) l' → spaced f (l ++ l').
Proof.
  intros Hl Hl'. revert l Hl. induction Hl' as [| x l' Hx _ IH]; intros l Hl; [by rewrite app_nil_r |].
  rewrite (cons_middle x), app_assoc. apply IH. apply spaced_snoc; [done |].
  intros r h t v ? ? ? ->. by destruct Hx.
Qed.

(** The state of spacing against the votes that were made: an entry is the last vote
    of its root, what has no entry is older than the delay, and so is an entry for
    another hash than a batch has. *)
Record spacing_inv (f : bool) (w : voting_world) : Prop := {
  si_roots : NoDup (vote_spacing.root <$> spacing f w);
  si_batch_roots : NoDup (fst <$> batch f w);
  si_todo : thread_todo (vg_thread (get_generator f w)) ⊆ batch f w;
  si_batch : ∀ c x, c ∈ batch f w → x ∈ spacing f w → vote_spacing.root x = c.1 →
    vote_spacing.hash x = c.2 ∨ vote_spacing.time x + ve_delay e <= now w;
  si_past : ∀ r h t v, voted f r h t v ∈ vw_events w → t <= now w ∧
    ((∃ x, x ∈ spacing f w ∧ vote_spacing.root x = r ∧ vote_spacing.hash x = h ∧ t <= vote_spacing.time x) ∨
     t + ve_delay e <= now w);
  si_spaced : spaced f (vw_events w);
}.

Lemma quiet_spacing f w w' : quiet f w w' → spacing_inv f w → spacing_inv f w'.
Proof.
  intros [Hs Hb Ht Hr (l & He & Hl)] [Hroots Hbr Htodo Hbatch Hpast Hsp].
  pose proof (Hclock _ _ Hr) as Hn. split.
  - by rewrite Hs.
  - destruct Hb as [-> | ->]; [done | constructor].
  - destruct Ht as [? | [-> ->]]; done.
  - rewrite Hs. intros c x Hc Hx Hrx. destruct Hb as [Hb | Hb]; rewrite Hb in Hc; [| by apply elem_of_nil in Hc].
    destruct (Hbatch c x Hc Hx Hrx); [auto | right; lia].
  - rewrite Hs, He. intros r h t v [Hv | Hv]%elem_of_app.
    + destruct (Hpast _ _ _ _ Hv) as [? [? | ?]]; (split; [lia |]); [auto | right; lia].
    + rewrite Forall_forall in Hl. by destruct (Hl _ Hv).
  - rewrite He. by apply spaced_quiet.
Qed.

Lemma collect_spacing f src sent c w b0 :
  b0 = batch f w → spacing_inv f w → spacing_inv f (collect e f src sent b0 c w).
Proof.
  intros -> Hi. unfold collect. destruct (unsent _ _) as [l s]. set (b' := if _ && _ then _ else _).
  set (w1 := emit _ _).
  assert (Hq : quiet f w (on_generator f (set_thread (collecting src s (batch f w))) w1)).
  { apply quiet_intro; rewrite ?get_on_generator; simpl.
    - by destruct f.
    - by left.
    - apply list_subseteq_nil.
    - destruct f; simpl; lia.
    - exists (send_vote src <$> l). split; [by destruct f |].
      apply Forall_fmap, Forall_true. intros v. destruct src; simpl; tauto. }
  destruct (quiet_spacing _ _ _ Hq Hi) as [Hroots _ _ _ Hpast Hsp].
  set (w2 := on_generator f (set_thread (collecting src s b')) w1).
  assert (Hs2 : spacing f w2 = spacing f w) by (by destruct f).
  assert (Hb2 : batch f w2 = b') by (by destruct f).
  assert (Hn2 : now w <= now w2) by (apply Hclock; destruct f; simpl; lia).
  split; rewrite ?Hs2, ?Hb2; [by destruct f | | destruct f; apply list_subseteq_nil | | by destruct f | by destruct f]; unfold b'.
  - destruct (_ && _) eqn:E; [| apply Hi]. apply andb_prop in E as [[_ E]%andb_prop _].
    rewrite fmap_app. apply NoDup_app. split_and!; [apply Hi | | apply NoDup_singleton].
    intros r (c' & -> & Hc')%list_elem_of_fmap. simpl. rewrite list_elem_of_singleton. intros Hr.
    apply negb_true_iff, not_true_iff_false in E. apply E, existsb_exists. exists c'.
    split; [by apply list_elem_of_In | lia].
  - assert (Hold : ∀ c' x, c' ∈ batch f w → x ∈ spacing f w → vote_spacing.root x = c'.1 →
      vote_spacing.hash x = c'.2 ∨ vote_spacing.time x + ve_delay e <= now w2).
    { intros c' x Hc' Hx Hr. destruct (si_batch _ _ Hi c' x Hc' Hx Hr); [auto | right; lia]. }
    destruct (_ && _) eqn:E; [| done]. apply andb_prop in E as [_ E].
    intros c' x [Hc' | ->%list_elem_of_singleton]%elem_of_app Hx Hr; [by apply Hold |].
    unfold vote_spacing.votable in E. rewrite forallb_forall in E.
    apply list_elem_of_In in Hx. specialize (E x Hx).
    destruct (vote_spacing.root x =? c.1) eqn:E1; [| lia]. simpl in E.
    destruct (c.2 =? vote_spacing.hash x) eqn:E2; [left; lia |]. right. simpl in E. lia.
Qed.

(** [flag] of a root whose entry is for the hash, or expired when it trims. *)
Lemma touch_spec t root_a l :
  NoDup (vote_spacing.root <$> l) →
  match vote_spacing.touch t root_a l with
  | Some l' =>
      vote_spacing.root <$> l' = vote_spacing.root <$> l ∧
      ∃ x0, x0 ∈ l ∧ vote_spacing.root x0 = root_a ∧
        ∀ x, x ∈ l' ↔ x = vote_spacing.Entry root_a t (vote_spacing.hash x0) ∨
                      x ∈ l ∧ vote_spacing.root x ≠ root_a
  | None => ∀ x, x ∈ l → vote_spacing.root x ≠ root_a
  end.
Proof.
  induction l as [| y l IH]; simpl; [by intros _ ? ?%elem_of_nil |]. intros [Hy Hl]%NoDup_cons.
  destruct (vote_spacing.root y =? root_a) eqn:E.
  - split; [done |]. exists y. split_and!; [by left | lia |]. intros x. rewrite !elem_of_cons.
    replace (vote_spacing.root y) with root_a by lia. split.
    + intros [-> | Hx]; [by left |]. right. split; [by right |]. intros Hr. apply Hy, list_elem_of_fmap.
      exists x. split; [lia | done].
    + intros [-> | [[-> | Hx] Hr]]; [by left | lia | by right].
  - specialize (IH Hl). destruct (vote_spacing.touch t root_a l) as [l' |]; simpl.
    + destruct IH as (Hr & x0 & Hx0 & Hr0 & Hx). split; [by f_equal |]. exists x0.
      split_and!; [by right | done |]. intros x. rewrite !elem_of_cons, Hx. split.
      * intros [-> | [-> | [? ?]]]; [right; split; [by left | lia] | by left | right; split; [by right | done]].
      * intros [-> | [[-> | ?] ?]]; auto.
    + intros x [-> | Hx]%elem_of_cons; [lia | by apply IH].
Qed.

Lemma flag_spec d t0 t1 l root_a hash_a :
  NoDup (vote_spacing.root <$> l) →
  (∀ x, x ∈ l → vote_spacing.root x = root_a → vote_spacing.hash x = hash_a ∨ vote_spacing.time x + d <= t0) →
  let l' := vote_spacing.flag d t0 t1 l root_a hash_a in
  NoDup (vote_spacing.root <$> l') ∧
  (∀ x, x ∈ l' ↔ x = vote_spacing.Entry root_a t1 hash_a ∨
                 x ∈ l ∧ ¬ vote_spacing.time x <= t0 - d ∧ vote_spacing.root x ≠ root_a).
Proof.
  intros Hnd Hl. unfold vote_spacing.flag. set (m := vote_spacing.trim d t0 l).
  assert (Hm : ∀ x, x ∈ m ↔ ¬ vote_spacing.time x <= t0 - d ∧ x ∈ l) by (intros x; unfold m, vote_spacing.trim; by rewrite list_elem_of_filter).
  assert (Hmnd : NoDup (vote_spacing.root <$> m)).
  { eapply sublist_NoDup; [done |]. apply fmap_sublist, sublist_filter. }
  pose proof (touch_spec t1 root_a m Hmnd) as Ht. destruct (vote_spacing.touch t1 root_a m) as [l' |]; simpl.
  - destruct Ht as (Hr & x0 & Hx0 & Hr0 & Hx). split; [by rewrite Hr |]. intros x. rewrite Hx, Hm.
    apply Hm in Hx0 as [Ht0 Hx0]. destruct (Hl x0 Hx0 Hr0) as [-> | ?]; [| lia]. tauto.
  - split.
    + rewrite fmap_app. apply NoDup_app. split_and!; [done | | apply NoDup_singleton].
      intros r (x & -> & Hx)%list_elem_of_fmap. simpl. rewrite list_elem_of_singleton. by apply Ht.
    + intros x. rewrite elem_of_app, list_elem_of_singleton, Hm. split.
      * intros [[? ?] | ->]; [| by left]. right. split_and!; [done.. |]. apply Ht, Hm. done.
      * intros [-> | (? & ? & ?)]; auto.
Qed.

Lemma record_spacing f src sent b v votes_l c todo w :
  vg_thread (get_generator f w) = voting src sent b (v :: votes_l) (c :: todo) →
  spacing_inv f w → spacing_inv f (record_vote e f src sent b v votes_l c todo w).
Proof.
  intros Hth [Hroots Hbr Htodo Hbatch Hpast Hsp]. rewrite Hth in Hbr, Htodo, Hbatch. simpl in Hbr, Htodo, Hbatch.
  assert (Hc : c ∈ b) by (apply Htodo; by left).
  set (w' := record_vote e f src sent b v votes_l c todo w).
  set (t1 := ve_steady e (S (vw_reads w))).
  destruct (flag_spec (ve_delay e) (now w) t1 (spacing f w) c.1 c.2 Hroots) as [Hnd' Hin].
  { intros x Hx Hr. by apply (Hbatch c). }
  set (l' := vote_spacing.flag _ _ _ _ _ _) in *.
  assert (Hs' : spacing f w' = l') by (by unfold w', record_vote; destruct f).
  assert (Ht' : vg_thread (get_generator f w') = voting src sent b (v :: votes_l) todo)
    by (by unfold w', record_vote; destruct f).
  assert (He' : vw_events w' = vw_events w ++ [voted f c.1 c.2 t1 v]) by (by unfold w', record_vote; destruct f).
  assert (Hn1 : now w <= t1) by (apply Hclock; lia).
  assert (Hn : t1 <= now w') by (apply Hclock; unfold w', record_vote; destruct f; simpl; lia).
  split; rewrite ?Hs', ?Ht', ?He'; simpl; try done.
  - intros x Hx. apply Htodo. by right.
  - intros c' x Hc' [-> | (Hx & _ & _)]%Hin Hr; simpl in *.
    + left. apply (f_equal snd (x := c) (y := c')). destruct c as [cr ch], c' as [cr' ch']; simpl in *. subst cr'.
      f_equal. apply list_elem_of_lookup in Hc as [i Hi], Hc' as [j Hj].
      assert (i = j) as ->; [| congruence].
      eapply (NoDup_lookup _ i j); [exact Hbr | |]; rewrite list_lookup_fmap; [rewrite Hi | rewrite Hj]; done.
    + destruct (Hbatch c' x Hc' Hx Hr); [by left | right; lia].
  - intros r h t v' [Hv | Hv]%elem_of_app.
    + destruct (Hpast _ _ _ _ Hv) as [Ht [(x & Hx & Hr & Hh & Htx) | Hold]]; (split; [lia |]); [| right; lia].
      destruct (decide (r = c.1)) as [-> | Hne].
      * destruct (decide (h = c.2)) as [-> | Hne].
        -- left. eexists. split; [apply Hin; by left |]. simpl. split_and!; [done.. | lia].
        -- right. destruct (Hbatch c x Hc Hx Hr); [congruence | lia].
      * destruct (decide (vote_spacing.time x <= now w - ve_delay e)); [right; lia |].
        left. exists x. split; [apply Hin; right; split_and!; [done.. | congruence] | done].
    + apply list_elem_of_singleton in Hv as [= -> -> -> ->]. split; [done |]. left.
      eexists. split; [apply Hin; by left | done].
  - apply spaced_snoc; [done |]. intros r h t v' h1 t1' v1 [= <- <- <- <-] Hv Hne.
    destruct (Hpast _ _ _ _ Hv) as [Ht [(x & Hx & Hr & Hh & Htx) | Hold]]; [| lia].
    destruct (Hbatch c x Hc Hx Hr); [congruence | lia].
Qed.

Lemma voting_step_spacing f w w' : spacing_inv f w → voting_step w w' → spacing_inv f w'.
Proof.
  intros Hi [f' reps -> | f' r h _ Hs | winner hr ch _ _ Hs | r -> | L' _ ->].
  - destruct (decide (f = f')) as [<- | Hne]; [| by eapply quiet_spacing, Hi; apply thread_step_other].
    destruct (thread_step_moves f reps w) as [Hq | src sent b c w0 Ht Hq Hb Hh (src' & ->) | src sent b v vs c td Ht ->].
    + by eapply quiet_spacing.
    + apply collect_spacing; [done | by eapply quiet_spacing].
    + by apply record_spacing.
  - by eapply quiet_spacing, Hi; eapply add_quiet.
  - by eapply quiet_spacing, Hi; eapply serve_quiet.
  - eapply quiet_spacing, Hi. apply quiet_other; [by destruct f.. | done | by apply none_voted].
  - eapply quiet_spacing, Hi. apply quiet_other; [by destruct f.. | done | by apply none_voted].
Qed.

Lemma voting_new_spacing f L : spacing_inv f (voting_new L).
Proof.
  split.
  - by destruct f; constructor.
  - by destruct f; constructor.
  - by destruct f.
  - by destruct f; intros c x Hc%elem_of_nil.
  - by intros r h t v Hv%elem_of_nil.
  - intros i j ? ? ? ? ? ? ? _ Hi. done.
Qed.

(** Two votes of one generator for different blocks of a root are made at least
    the configured delay apart, in every interleaving of the generators' threads and
    calls. *)
Theorem votes_are_spaced L w f i j r h1 t1 v1 h2 t2 v2 :
  rtc voting_step (voting_new L) w → (i < j)%nat →
  vw_events w !! i = Some (voted f r h1 t1 v1) → vw_events w !! j = Some (voted f r h2 t2 v2) →
  h1 ≠ h2 → t1 + ve_delay e <= t2.
Proof.
  intros Hr. assert (Hi : spacing_inv f w).
  { revert Hr. apply (rtc_ind_r (λ w, spacing_inv f w)); [apply voting_new_spacing |].
    intros w1 w2 _ Hs Hi. by eapply voting_step_spacing. }
  apply (si_spaced _ _ Hi).
Qed.
End runs.

(** ** What is sent *)

Section sent.
Context `{Crypto} (constants : ledger_constants) (e : voting_env).
Context (moves : final_table → ledger → ledger → Prop).

(** A vote that leaves the node. *)
Definition sent_event (x : voting_event) (v : shared_vote) : Prop :=
  x = broadcast_vote v ∨ ∃ channel, x = reply_vote v channel.

Definition was_voted (l : list voting_event) (v : shared_vote) : Prop := ∃ f r h t, voted f r h t v ∈ l.

Definition well_made (f : bool) (b : list candidate) (v : shared_vote) : Prop :=
  ∃ system_now rep, sv_vote v = make_vote e f b system_now rep.

(** Up to twelve candidates of different roots. *)
Definition batch_ok (b : list candidate) : Prop :=
  (length b <= confirm_ack_hashes_max)%nat ∧ NoDup (fst <$> b).

Definition thread_ok (f : bool) (l : list voting_event) (t : thread_state) : Prop :=
  match t with
  | collecting _ _ b => batch_ok b
  | voting _ _ b votes_l todo =>
      batch_ok b ∧ b ≠ [] ∧ Forall (well_made f b) votes_l ∧
      (∀ v, head votes_l = Some v → ∃ dn, b = dn ++ todo ∧ ∀ c, c ∈ dn → ∃ t, voted f c.1 c.2 t v ∈ l)
  | _ => True
  end.

Record sent_inv (w : voting_world) : Prop := {
  se_history : history_ok (ve_max_cache e) (vw_history w);
  se_recorded : ∀ x, x ∈ vw_history w → ∃ f t, voted f (lv_root x) (lv_hash x) t (lv_vote x) ∈ vw_events w;
  se_voted : ∀ f r h t v, voted f r h t v ∈ vw_events w →
    ∃ b, well_made f b v ∧ (r, h) ∈ b ∧ batch_ok b;
  se_sent : ∀ x v, x ∈ vw_events w → sent_event x v → was_voted (vw_events w) v;
  se_thread : ∀ f, thread_ok f (vw_events w) (vg_thread (get_generator f w));
}.

Lemma thread_ok_app f l l' t : thread_ok f l t → thread_ok f (l ++ l') t.
Proof.
  destruct t as [| | | src sent b votes_l todo]; simpl; try done. intros (? & ? & ? & Hv). split_and!; try done.
  intros v Hd. destruct (Hv v Hd) as (dn & Hb & Hc). exists dn. split; [done |].
  intros c Hin. destruct (Hc c Hin) as [t ?]. exists t. apply elem_of_app. by left.
Qed.

Lemma was_voted_app l l' v : was_voted l v → was_voted (l ++ l') v.
Proof. intros (f & r & h & t & ?). exists f, r, h, t. apply elem_of_app. by left. Qed.

(** A step that sends only votes that were made before. *)
Lemma sent_inv_grow w w' l :
  sent_inv w → vw_events w' = vw_events w ++ l → vw_history w' `sublist_of` vw_history w →
  (∀ x, x ∈ l → (∀ f, ¬ is_voted f x) ∧ ∀ v, sent_event x v → was_voted (vw_events w) v) →
  (∀ f, thread_ok f (vw_events w ++ l) (vg_thread (get_generator f w'))) → sent_inv w'.
Proof.
  intros [Hh Hrec Hvo Hse _] He Hs Hl Ht. split; rewrite ?He.
  - by eapply sublist_history_ok.
  - intros x Hx. destruct (Hrec x) as (f & t & Hv); [by eapply elem_of_sublist |].
    exists f, t. apply elem_of_app. by left.
  - intros f r h t v [Hv | Hv]%elem_of_app; [by eapply Hvo |]. by destruct (proj1 (Hl _ Hv) f).
  - intros x v [Hx | Hx]%elem_of_app Hsv; apply was_voted_app; [by eapply Hse | by apply (Hl x Hx)].
  - done.
Qed.

(** Cached votes were made before. *)
Lemma cached_voted w v r h f :
  sent_inv w → v ∈ local_vote_history.votes r h f (vw_history w) → was_voted (vw_events w) v.
Proof.
  intros Hi (x & -> & Hx)%list_elem_of_fmap. apply list_elem_of_filter in Hx as [_ Hx].
  destruct (se_recorded _ Hi x Hx) as (f' & t & Hv). by exists f', (lv_root x), (lv_hash x), t.
Qed.

Lemma sent_send src v v' : sent_event (send_vote src v) v' → v' = v.
Proof. destruct src; intros [[=] | [ch [=]]]; done. Qed.

Lemma send_not_voted src v f : ¬ is_voted f (send_vote src v).
Proof. destruct src; simpl; tauto. Qed.

Lemma unsent_sub sent l : (unsent sent l).1 ⊆ l.
Proof.
  revert sent. induction l as [| v l IH]; intros sent; simpl; [done |]. destruct (decide _).
  - intros x Hx. right. by eapply IH.
  - specialize (IH (sv_address v :: sent)). destruct (unsent _ l) as [k s]. simpl in *.
    intros x [-> | Hx]%elem_of_cons; [by left | right; by apply IH].
Qed.

Lemma collect_sent f src sent b c w :
  sent_inv w → (length b < confirm_ack_hashes_max)%nat → NoDup (fst <$> b) →
  sent_inv (collect e f src sent b c w).
Proof.
  intros Hi Hlen Hnd. unfold collect.
  set (cv := local_vote_history.votes _ _ _ _). pose proof (unsent_sub sent cv) as Hu.
  destruct (unsent sent cv) as [l s]. simpl in Hu.
  eapply (sent_inv_grow w _ (send_vote src <$> l)); [done | by destruct f | by destruct f | |].
  - intros x (v & -> & Hv)%list_elem_of_fmap. split; [intros f'; apply send_not_voted |].
    intros v' ->%sent_send. eapply cached_voted; [done | by apply Hu].
  - intros f'. destruct (decide (f' = f)) as [-> | Hne].
    + rewrite get_on_generator. simpl. destruct (_ && _) eqn:E; [| by split; [lia |]].
      apply andb_prop in E as [[_ E]%andb_prop _]. split; [rewrite length_app; simpl; lia |].
      rewrite fmap_app. apply NoDup_app. split_and!; [done | | apply NoDup_singleton].
      intros r (c' & -> & Hc')%list_elem_of_fmap. simpl. rewrite list_elem_of_singleton. intros Hr.
      apply negb_true_iff, not_true_iff_false in E. apply E, existsb_exists. exists c'.
      split; [by apply list_elem_of_In | lia].
    + rewrite get_on_other by done. apply thread_ok_app. destruct f'; apply (se_thread _ Hi).
Qed.

(** A change of the thread only. *)
Lemma goto_sent f g w :
  sent_inv w → thread_ok f (vw_events w) (vg_thread (g (get_generator f w))) →
  sent_inv (on_generator f g w).
Proof.
  intros Hi Ht. eapply (sent_inv_grow w _ []); [done | by destruct f; rewrite app_nil_r | by destruct f | |].
  - by intros x ?%elem_of_nil.
  - intros f'. rewrite app_nil_r. destruct (decide (f' = f)) as [-> | Hne].
    + by rewrite get_on_generator.
    + rewrite get_on_other by done. apply (se_thread _ Hi).
Qed.

Lemma begin_sent f reps src sent b w :
  sent_inv w → batch_ok b → b ≠ [] → sent_inv (begin_vote e f reps src sent b w).
Proof.
  intros Hi Hb Hne. unfold begin_vote. set (w0 := allocate _ _).
  assert (Hi0 : sent_inv w0).
  { destruct Hi. by split. }
  apply goto_sent; [done |]. simpl. split_and!; [done.. | |].
  - apply Forall_forall. intros v (i & rep & -> & Hr)%elem_of_lookup_imap. by eexists _, rep.
  - intros v _. exists []. split; [done |]. by intros c ?%elem_of_nil.
Qed.

Lemma record_sent f src sent b v votes_l c todo w :
  vg_thread (get_generator f w) = voting src sent b (v :: votes_l) (c :: todo) →
  sent_inv w → sent_inv (record_vote e f src sent b v votes_l c todo w).
Proof.
  intros Hth Hi. pose proof (se_thread _ Hi f) as Ht. rewrite Hth in Ht.
  destruct Ht as (Hb & Hne & Hall & Hv). destruct (Hv v eq_refl) as (dn & Hdn & Hvd).
  set (w' := record_vote _ _ _ _ _ _ _ _ _ _). set (t1 := ve_steady e (S (vw_reads w))).
  assert (He' : vw_events w' = vw_events w ++ [voted f c.1 c.2 t1 v]) by (by unfold w', record_vote; destruct f).
  assert (Hh' : vw_history w' = local_vote_history.add (ve_max_cache e) c.1 c.2 v (vw_history w))
    by (by unfold w', record_vote; destruct f).
  split; rewrite ?He', ?Hh'.
  - apply add_ok, Hi.
  - intros x [Hx | ->]%add_elem; setoid_rewrite elem_of_app.
    + destruct (se_recorded _ Hi x Hx) as (f' & t & ?). exists f', t. by left.
    + exists f, t1. right. by left.
  - intros f' r h t v' [Hx | Hx]%elem_of_app; [by eapply (se_voted _ Hi) |].
    apply list_elem_of_singleton in Hx as [= -> -> -> -> ->]. exists b.
    inversion Hall; subst. split_and!; [done | | done..].
    rewrite <- surjective_pairing. apply elem_of_app. right. by left.
  - intros x v' [Hx | Hx]%elem_of_app Hs; [by apply was_voted_app; eapply (se_sent _ Hi) |].
    apply list_elem_of_singleton in Hx as ->. by destruct Hs as [? | [? ?]].
  - intros f'. destruct (decide (f' = f)) as [-> | Hnf].
    + assert (vg_thread (get_generator f w') = voting src sent b (v :: votes_l) todo) as ->
        by (by unfold w', record_vote; destruct f).
      simpl. split_and!; try done. intros v' [= <-]. exists (dn ++ [c]). rewrite <- app_assoc. split; [done |].
      setoid_rewrite elem_of_app. intros c' [Hc' | ->%list_elem_of_singleton].
      * destruct (Hvd c' Hc') as [t ?]. exists t. by left.
      * exists t1. right. by left.
    + assert (get_generator f' w' = get_generator f' w) as -> by (unfold w', record_vote; by destruct f, f').
      apply thread_ok_app, (se_thread _ Hi).
Qed.

Lemma thread_step_sent f reps w : sent_inv w → sent_inv (thread_step e f reps w).
Proof.
  intros Hi. pose proof (se_thread _ Hi f) as Ht. unfold thread_step.
  destruct (vg_thread (get_generator f w)) as [| | src sent b | src sent b votes_l todo] eqn:Eg.
  - destruct (_ <=? _)%nat; [apply goto_sent; [done |]; by split; [simpl; lia | constructor] |].
    destruct (vg_requests _) as [| [cs ch] rest]; apply goto_sent; try done.
    by split; [simpl; lia | constructor].
  - apply goto_sent; [done |]. simpl. destruct (bool_decide _); [done |]. by split; [simpl; lia | constructor].
  - destruct Ht as [Hlen Hnd]. destruct src as [| cs ch].
    + destruct (vg_candidates _) as [| c rest].
      * case_bool_decide; [by apply goto_sent | by apply begin_sent].
      * destruct (_ <? _)%nat eqn:El.
        -- apply Nat.ltb_lt in El. apply collect_sent; [| done..]. apply goto_sent; [done |]. simpl.
           by rewrite Eg.
        -- apply begin_sent; [done.. |]. intros ->. done.
    + destruct cs as [| c rest].
      * case_bool_decide; [by apply goto_sent | by apply begin_sent].
      * destruct (_ <? _)%nat eqn:El.
        -- apply Nat.ltb_lt in El. by apply collect_sent.
        -- apply begin_sent; [done.. |]. intros ->. done.
  - destruct Ht as (Hb & Hne & Hall & Hv). destruct votes_l as [| v votes_l].
    + assert (batch_ok []) by (by split; [simpl; lia | constructor]).
      by destruct src as [| [| c cs] ch]; apply goto_sent.
    + destruct todo as [| c todo].
      * assert (sent_inv (emit [send_vote src v] (on_generator f (set_thread (voting src sent b votes_l b)) w)))
          as Hq; [| by destruct src as [| [| ??] ?]].
        destruct (Hv v eq_refl) as (dn & Hdn & Hvd). rewrite app_nil_r in Hdn. subst dn.
        eapply (sent_inv_grow w _ [send_vote src v]); [done | by destruct f | by destruct f | |].
        -- intros x ->%list_elem_of_singleton. split; [intros f'; apply send_not_voted |].
           intros v' ->%sent_send. destruct b as [| c b]; [done |].
           destruct (Hvd c) as [t ?]; [by left |]. by eexists f, _, _, t.
        -- intros f'. apply thread_ok_app. destruct (decide (f' = f)) as [-> | Hnf].
           ++ assert (vg_thread (get_generator f (emit [send_vote src v]
                (on_generator f (set_thread (voting src sent b votes_l b)) w))) = voting src sent b votes_l b) as ->
                by (by destruct f).
              inversion Hall; subst. split_and!; [done.. |]. intros v' _. exists []. split; [done |].
              by intros c ?%elem_of_nil.
           ++ assert (get_generator f' (emit [send_vote src v]
                (on_generator f (set_thread (voting src sent b votes_l b)) w)) = get_generator f' w) as ->
                by (by destruct f, f').
              apply (se_thread _ Hi).
      * pose proof (record_sent f src sent b v votes_l c todo w Eg Hi). by destruct src as [| [| ??] ?].
Qed.

Lemma same_sent w w' :
  sent_inv w → vw_events w' = vw_events w → vw_history w' `sublist_of` vw_history w →
  (∀ f, vg_thread (get_generator f w') = vg_thread (get_generator f w)) → sent_inv w'.
Proof.
  intros Hi He Hh Ht. eapply (sent_inv_grow w _ []); [done | by rewrite app_nil_r | done | |].
  - by intros x ?%elem_of_nil.
  - intros f. rewrite app_nil_r, Ht. apply (se_thread _ Hi).
Qed.

Lemma add_sent f r h w w' : sent_inv w → generator_add constants f r h w = Ok w' → sent_inv w'.
Proof.
  intros Hi. unfold generator_add. set (l := local_vote_history.votes _ _ _ _). case_bool_decide as Hl.
  - intros [= <-]. eapply (sent_inv_grow w _ (broadcast_vote <$> l)); [done.. | |].
    + intros x (v & -> & Hv)%list_elem_of_fmap. split; [tauto |].
      intros v' [[= <-] | [? ?]]; [| done]. by eapply cached_voted.
    + intros f'. apply thread_ok_app. destruct f'; [apply (se_thread _ Hi true) | apply (se_thread _ Hi false)].
  - destruct (stored_block _ _) as [b |]; [| by intros [= <-]].
    destruct (dependents_confirmed _ _ _) as [c |]; [| done]. simpl. destruct c; [| by intros [= <-]].
    destruct f; [destruct (final_vote_put _ _ _) as [[] t] |]; intros [= <-];
      (apply (same_sent w); [done | done | done | by intros []]).
Qed.

Lemma generate_sent f bs ch w r : sent_inv w → generator_generate constants f bs ch w = Ok r → sent_inv r.2.
Proof.
  intros Hi. unfold generator_generate. destruct (request_candidates _ _ _) as [l |]; [| done]. intros [= <-].
  apply (same_sent w); [done | by destruct f.. | by intros []; destruct f].
Qed.

(** The aggregator sends cached votes. *)
Lemma unique_votes_sub l : unique_votes l ⊆ l.
Proof.
  induction l as [| v l IH]; [done |]. destruct l as [| u l]; [done |].
  change (unique_votes (v :: u :: l)) with
    (if Nat.eqb (sv_address v) (sv_address u) then unique_votes (u :: l) else v :: unique_votes (u :: l)).
  destruct (Nat.eqb _ _); set_solver.
Qed.

Lemma push_final_cached l a : ag_cached_votes (fold_left (λ a b, push_final b a) l a) = ag_cached_votes a.
Proof. revert a. induction l as [| b l IH]; [done |]. intros a. simpl. by rewrite IH. Qed.

(** Every vote collected or sent has the property. *)
Definition aggregated (P : shared_vote → Prop) (a : aggregation) : Prop :=
  Forall P (ag_cached_votes a) ∧ ∀ x v, x ∈ ag_sent a → sent_event x v → P v.

Lemma aggregate_one_cached (P : shared_vote → Prop) L t history winner channel a r :
  (∀ r h v, v ∈ local_vote_history.votes r h false history → P v) →
  aggregated P a → aggregated P (aggregate_one L t history winner channel a r).
Proof.
  intros HP [Hc Hs]. destruct r as [hash root_a]. unfold aggregate_one.
  case_bool_decide; [split; [apply Forall_app; split; [done | by apply Forall_forall; eauto] | done] |].
  destruct (final_vote_block _ _ _) as [[first block] final].
  rewrite <- (push_final_cached first) in Hc. rewrite <- (push_final_sent first) in Hs. set (a' := fold_left _ _ _) in *.
  assert (Hcached : Forall P (match block with
    | Some b => (Some b, [], true, final) | None => find_block L history winner hash root_a final end).1.1.2).
  { destruct block; [constructor |]. unfold find_block. destruct (winner hash); [constructor |].
    destruct (block_get _ _); [constructor |]. unfold ledger_by_root.
    destruct (_ =? _); [constructor |]. destruct (_ =? _); [constructor |]. simpl. apply Forall_forall. eauto. }
  revert Hcached. destruct (match block with Some b => _ | None => _ end) as [[[block' cached] gen] final'].
  simpl. intros Hcached.
  assert (Ha : aggregated P (push_cached cached a')) by (split; [simpl; apply Forall_app; by split | done]).
  unfold queue_block. destruct block' as [b |]; [| done].
  set (a2 := if gen then _ else _).
  assert (Ha2 : aggregated P a2) by (unfold a2; destruct gen; [destruct final' |]; split; apply Ha).
  destruct (negb _); [| done]. split; [apply Ha2 |]. simpl. intros x v [Hx | Hx]%elem_of_app Hsv; [by eapply Ha2 |].
  apply list_elem_of_singleton in Hx as ->. by destruct Hsv as [? | [? ?]].
Qed.

Lemma aggregate_cached (P : shared_vote → Prop) L t history winner requests_a channel :
  (∀ r h v, v ∈ local_vote_history.votes r h false history → P v) →
  aggregated P (aggregate L t history winner requests_a channel).
Proof.
  intros HP. unfold aggregate. set (a0 := fold_left (aggregate_one _ _ _ _ _) _ _).
  assert (Ha0 : aggregated P a0).
  { unfold a0. apply fold_left_ind; [split; [constructor | by intros x v ?%elem_of_nil] |].
    intros a r. by apply aggregate_one_cached. }
  destruct Ha0 as [Hc Hs]. set (l := unique_votes _).
  assert (Hl : Forall P l).
  { apply Forall_forall. intros v Hv%unique_votes_sub. rewrite merge_sort_Permutation in Hv.
    rewrite Forall_forall in Hc. auto. }
  clearbody a0 l. revert a0 Hc Hs. induction Hl as [| v l Hv _ IH]; [done |]. intros a0 Hc Hs. apply IH; [done |].
  simpl. intros x v' [Hx | Hx]%elem_of_app Hsv; [by eapply Hs |].
  apply list_elem_of_singleton in Hx as ->. by destruct Hsv as [? | [ch [= <- _]]].
Qed.

Lemma serve_sent winner hr ch w w' : sent_inv w → serve_pool constants winner hr ch w = Ok w' → sent_inv w'.
Proof.
  intros Hi. unfold serve_pool. set (a := aggregate _ _ _ _ _ _). intros Hs.
  assert (Hi0 : sent_inv (emit (ag_sent a) w)).
  { eapply (sent_inv_grow w _ (ag_sent a)); [done.. | |].
    - intros x Hx. split.
      + intros f. pose proof (aggregate_sent f (vw_ledger w) (vw_final_votes w) (vw_history w) winner
          (erase_duplicates hr) ch) as Hf. rewrite Forall_forall in Hf. by apply Hf.
      + intros v. eapply (aggregate_cached (was_voted (vw_events w))); [| done]. intros. by eapply cached_voted.
    - intros f. apply thread_ok_app. destruct f; [apply (se_thread _ Hi true) | apply (se_thread _ Hi false)]. }
  apply bind_Ok in Hs as (w1 & H1 & H2).
  assert (Hi1 : sent_inv w1).
  { destruct (bool_decide _) in H1; [by injection H1 as <- |].
    apply bind_Ok in H1 as (r & H1 & [= <-]). by eapply generate_sent. }
  destruct (bool_decide _) in H2; [by injection H2 as <- |].
  apply bind_Ok in H2 as (r & H2 & [= <-]). by eapply generate_sent.
Qed.

Lemma voting_step_sent w w' : sent_inv w → voting_step constants e moves w w' → sent_inv w'.
Proof.
  intros Hi [f reps -> | f r h _ Hs | winner hr ch _ _ Hs | r -> | L' _ ->].
  - by apply thread_step_sent.
  - by eapply add_sent.
  - by eapply serve_sent.
  - apply (same_sent w); [done | done | apply sublist_filter | by intros []].
  - apply (same_sent w); [done | done | done | by intros []].
Qed.

Lemma voting_run_sent L w : rtc (voting_step constants e moves) (voting_new L) w → sent_inv w.
Proof.
  apply (rtc_ind_r sent_inv).
  - split; try (by intros * ?%elem_of_nil); [| by intros []].
    split; [by intros ? ? ?%elem_of_nil | constructor | simpl; lia].
  - intros w1 w2 _ Hs Hi. by eapply voting_step_sent.
Qed.

(** ** Theorems *)

(** In every interleaving the local history holds votes for one hash per root and one
    vote per representative, as its consistency check demands, and at most one more
    than its limit. *)
Theorem local_history_consistent L w :
  rtc (voting_step constants e moves) (voting_new L) w →
  (length (vw_history w) <= S (ve_max_cache e))%nat ∧
  ∀ root_a, local_vote_history.exists_ root_a (vw_history w) = true →
    local_vote_history.consistency_check root_a (vw_history w) = Some true.
Proof.
  intros Hi%voting_run_sent. pose proof (se_history _ Hi) as Hh. split; [apply Hh |].
  intros r. by eapply history_consistent.
Qed.

Lemma make_vote_timestamp f b system_now rep :
  vote_timestamp (make_vote e f b system_now rep) = u64_max ↔ f = true.
Proof.
  unfold make_vote, vote_of_hashes, vote_timestamp. cbn [vt_timestamp_m]. destruct f; [done |].
  split; [| done]. intros Ht. exfalso. destruct (_ =? u64_max) eqn:E.
  - apply Z.eqb_eq, (f_equal (λ z, Z.testbit z 1)) in E. unfold packed_timestamp in E.
    rewrite Z.lor_spec, Z.land_spec in E. cbn in E. by rewrite andb_false_r in E.
  - apply (f_equal (λ z, Z.testbit z 0)) in Ht. rewrite Z.land_spec in Ht. cbn in Ht. by rewrite andb_false_r in Ht.
Qed.

End sent.
