(* ===== verification/FinalVotes.v ===== *)
(** * One final vote per root

    As long as the blocks it recorded for final votes and the blocks it cemented stay in
    its ledger, a node never makes final votes for two blocks of one root, whatever the
    interleaving of elections, requests and ledger changes. *)

From S2P Require Import Prelude Blocks BlockCodec Common Vote RepWeights EpochsWork Store Ledger LedgerQueries.
From S2P Require Import LedgerApply LedgerInvariant LedgerSteps LedgerTheorems.
From S2P Require Import ConfirmationHeight Chains CementInvariant CementTheorems CementRuns.
From S2P Require Import Voting RequestAggregator VotingTheorems.

(** ** A ledger has one block per root *)

Section roots.
Context `{Crypto} (constants : ledger_constants).

(** The root of a stored block is taken: its predecessor is stored and is no head, or
    its account is open. *)
Definition taken (L : ledger) (b : block) : Prop :=
  if has_predecessor b
  then stored (lg_store L) (previous b) ∧ ∀ a i, st_accounts (lg_store L) !! a = Some i → ai_head i ≠ previous b
  else is_Some (st_accounts (lg_store L) !! root b).

Lemma taken_root L b : taken L b → root_taken L b.
Proof.
  unfold taken, root_taken, buried. destruct (has_predecessor b); [| done]. intros [Hs Hh]. split; [| done].
  apply exists_true. by right.
Qed.

Definition plain (b : block) : Prop := is_epoch_link constants (link b) = false.

Record fork_free (L : ledger) : Prop := {
  ff_taken : ∀ k e, st_blocks (lg_store L) !! k = Some e → plain e.1 → taken L e.1;
  ff_unique : ∀ k e k' e', st_blocks (lg_store L) !! k = Some e → st_blocks (lg_store L) !! k' = Some e' →
    plain e.1 → plain e'.1 → qualified_root e.1 = qualified_root e'.1 → k = k';
}.

Lemma step_taken L b v a sb new eff w b0 :
  accepted constants L b v a sb new eff w → taken L b0 → taken (step_block L b sb a new eff w) b0.
Proof.
  intros Hacc. pose proof (ac_step _ _ _ _ _ _ _ _ _ Hacc) as HV. unfold taken. destruct (has_predecessor b0).
  - intros [Hs Hh]. split; [apply new_blocks_is_Some; [by eapply step_fresh | apply HV | by right] |].
    intros a' i'. simpl. rewrite lookup_insert_Some. intros [[_ <-] | [_ Hi]]; [| by eapply Hh].
    rewrite (vs_head _ _ _ _ _ _ _ HV). intros Hp. destruct Hs as [e0 He0]. rewrite <- Hp in He0.
    by rewrite (step_fresh L b sb a new eff w HV) in He0.
  - intros Hs. simpl. rewrite lookup_insert_is_Some'. auto.
Qed.

Lemma step_fork_free L b v a sb new eff w :
  ledger_inv L → accepted constants L b v a sb new eff w → fork_free L → fork_free (step_block L b sb a new eff w).
Proof.
  intros HL Hacc [Ht Hu]. pose proof (ac_step _ _ _ _ _ _ _ _ _ Hacc) as HV.
  assert (Hinv : ∀ k e, st_blocks (lg_store (step_block L b sb a new eff w)) !! k = Some e →
    k = block_hash b ∧ e.1 = b ∨ ∃ e0, st_blocks (lg_store L) !! k = Some e0 ∧ e0.1 = e.1).
  { intros k e Hk. apply new_blocks_inv in Hk as [[-> ->] | (e1 & He1 & Hs)]; [by left | | by eapply step_fresh | apply HV].
    right. exists e1. split; [done |]. by rewrite (same_entry_block _ _ Hs). }
  assert (Hold : ∀ k e, st_blocks (lg_store L) !! k = Some e → plain e.1 → plain b →
    qualified_root e.1 ≠ qualified_root b).
  { intros k e He Hp Hb Hq. eapply root_taken_refused; [done | done | by symmetry | by right |].
    by apply taken_root, (Ht k). }
  split.
  - intros k e Hk Hp. destruct (Hinv k e Hk) as [[-> Hb] | (e0 & He0 & Hb)].
    + rewrite Hb in *. pose proof (accepted_root_taken constants L b v a sb new eff w HL Hacc (or_intror Hp)) as Hr.
      unfold root_taken, buried in Hr. unfold taken. destruct (has_predecessor b) eqn:Hpb; [| done].
      split; [| apply Hr]. apply new_blocks_is_Some; [by eapply step_fresh | apply HV |]. right. by apply HV.
    + rewrite <- Hb in *. eapply step_taken; [done |]. by apply (Ht k).
  - intros k e k' e' Hk Hk' Hp Hp' Hq.
    destruct (Hinv k e Hk) as [[-> Hb] | (e0 & He0 & Hb)], (Hinv k' e' Hk') as [[-> Hb'] | (e0' & He0' & Hb')].
    + done.
    + exfalso. rewrite Hb in *. rewrite <- Hb' in *. by apply (Hold k' e0').
    + exfalso. rewrite Hb' in *. rewrite <- Hb in *. by apply (Hold k e0).
    + rewrite <- Hb, <- Hb' in *. by apply (Hu k e0 k' e0').
Qed.

Lemma cemented_fork_free L L' :
  st_blocks (lg_store L') = st_blocks (lg_store L) → st_accounts (lg_store L') = st_accounts (lg_store L) →
  fork_free L → fork_free L'.
Proof.
  intros Hb Ha [Ht Hu]. split; rewrite Hb; [| done]. intros k e Hk Hp. specialize (Ht k e Hk Hp). revert Ht.
  unfold taken, stored. by rewrite Ha, Hb.
Qed.

Lemma init_fork_free t1 t2 L : genesis_ok constants → initialize constants t1 t2 = Ok L → fork_free L.
Proof.
  intros [Hg Hnz]. unfold initialize, genesis_sideband.
  destruct (lk_genesis constants) as [| | h s w | |] eqn:Eg; try done. unfold block_put.
  cbn [has_predecessor mbind outcome_bind account]. intros [= <-].
  set (k0 := block_hash _). split.
  - intros k e. simpl. rewrite lookup_insert_Some, lookup_empty. intros [[<- <-] | [_ ?]]; [| done].
    intros _. unfold taken. simpl. by rewrite lookup_insert_eq.
  - intros k e k' e'. simpl. rewrite !lookup_insert_Some, !lookup_empty. intros [[<- _] | [_ ?]] [[<- _] | [_ ?]]; done.
Qed.

Lemma node_fork_free L : node_reachable constants L → fork_free L.
Proof.
  induction 1 as [t1 t2 L Hg Hn Hi | L L' HR IH Hs]; [by eapply init_fork_free |].
  destruct (node_reachable_inv constants L HR) as (HL & rank & HF).
  destruct Hs as [b v t1 t2 r Hwf Hnz Hun Hroom Hp | k e fuel bws rounds u1 u2 He Hst Hfuel H1 H2 ->].
  - destruct (process_step constants L HL b v t1 t2 Hwf Hnz)
      as [(r' & Hr & _) | (a & sb & new & eff & w & v' & Hacc & Hr)]; rewrite Hp in Hr; simplify_eq; [done |].
    by eapply step_fork_free.
  - pose proof (cf_chains _ _ _ HF) as HC. pose proof (settled_new constants L rank HF) as Hu.
    destruct (process_cements constants _ _ _ HC _ _ k e bws rounds fuel Hu He Hst Hfuel)
      as (u1' & conf1 & l & H1' & Hu1 & HL1 & _). rewrite H1 in H1'. injection H1' as <-.
    destruct (settled_cement constants _ _ _ HC u1 conf1 Hu1) as (u2' & H2' & Hu2 & Hp2 & _ & HL2 & _).
    rewrite H2 in H2'. injection H2' as <-.
    assert (Hc : cemented_ledger (lg_store L) L (ub_ledger u2)) by (by eapply cemented_ledger_trans).
    eapply cemented_fork_free; [apply Hc | apply Hc | done].
Qed.
End roots.

(** ** Final votes *)

Section final.
Context `{Crypto} (constants : ledger_constants) (e : voting_env).

Definition recorded (t : final_table) (h : Z) : Prop := ∃ qr, t !! qr = Some h.
Definition is_cemented (L : ledger) (b : block_w_sideband) : Prop := height_confirmed L b = true.

(** The ledger becomes any ledger a node reaches by processing and cementing (rolling
    back included, which leads to an earlier one) in which the recorded and the
    cemented blocks are still there, and cemented if they were. *)
Definition keeps (t : final_table) (L L' : ledger) : Prop :=
  node_reachable constants L' ∧
  ∀ h b, block_get (lg_store L) h = Some b → recorded t h ∨ is_cemented L b →
    ∃ b', block_get (lg_store L') h = Some b' ∧ b'.1 = b.1 ∧ (is_cemented L b → is_cemented L' b').

(** A stored block that is recorded or cemented. *)
Definition anchored (w : voting_world) (h : Z) : Prop :=
  ∃ b, block_get (lg_store (vw_ledger w)) h = Some b ∧
    (recorded (vw_final_votes w) h ∨ is_cemented (vw_ledger w) b).

(** The candidates a generator has in its queues and in its thread. *)
Definition source_candidates (src : batch_source) : list candidate :=
  match src with from_candidates => [] | from_request rest _ => rest end.
Definition thread_candidates (t : thread_state) : list candidate :=
  match t with
  | collecting src _ b => source_candidates src ++ b
  | voting src _ b _ todo => source_candidates src ++ b ++ todo
  | _ => []
  end.
Definition held (g : vote_generator) (c : candidate) : Prop :=
  c ∈ vg_candidates g ∨ (∃ r, r ∈ vg_requests g ∧ c ∈ r.1) ∨ c ∈ thread_candidates (vg_thread g).

Record final_inv (w : voting_world) : Prop := {
  fi_ledger : node_reachable constants (vw_ledger w);
  fi_table : ∀ qr h, vw_final_votes w !! qr = Some h → is_Some (block_get (lg_store (vw_ledger w)) h);
  fi_held : ∀ c, held (vw_final_generator w) c → anchored w c.2;
  fi_voted : ∀ r h t v, voted true r h t v ∈ vw_events w → anchored w h;
}.

Lemma stored_hash L h b : node_reachable constants L → block_get (lg_store L) h = Some b → block_hash b.1 = h.
Proof. intros HR Hb. destruct (node_reachable_inv constants L HR) as [HL _]. symmetry. by apply (inv_blocks L HL h b). Qed.

(** The same ledger, a larger table. *)
Lemma anchored_mono w w' h :
  vw_ledger w' = vw_ledger w → vw_final_votes w ⊆ vw_final_votes w' → anchored w h → anchored w' h.
Proof.
  intros HL Ht (b & Hb & Hr). exists b. rewrite HL. split; [done |]. destruct Hr as [[qr Hq] | ?]; [left | by right].
  exists qr. by eapply lookup_weaken.
Qed.

(** A step that keeps the ledger: it suffices that what is new is anchored. *)
Lemma final_inv_grow w w' :
  final_inv w → vw_ledger w' = vw_ledger w → vw_final_votes w ⊆ vw_final_votes w' →
  (∀ qr h, vw_final_votes w' !! qr = Some h → vw_final_votes w !! qr = Some h ∨ anchored w' h) →
  (∀ c, held (vw_final_generator w') c → held (vw_final_generator w) c ∨ anchored w' c.2) →
  (∀ r h t v, voted true r h t v ∈ vw_events w' → voted true r h t v ∈ vw_events w ∨ anchored w' h) →
  final_inv w'.
Proof.
  intros [HR Hta Hhe Hvo] HL Ht Hnt Hnh Hnv. split.
  - by rewrite HL.
  - intros qr h Hq. destruct (Hnt qr h Hq) as [? | (b & Hb & _)]; [rewrite HL; by eapply Hta | by exists b].
  - intros c Hc. destruct (Hnh c Hc) as [? | ?]; [| done]. by eapply anchored_mono, Hhe.
  - intros r h t v Hv. destruct (Hnv r h t v Hv) as [? | ?]; [| done]. by eapply anchored_mono, Hvo.
Qed.

(** ** The thread *)

(** What a step of the final thread holds was held before, and what it votes for too. *)
Lemma thread_step_held reps w c :
  held (vw_final_generator (thread_step e true reps w)) c → held (vw_final_generator w) c.
Proof.
  unfold thread_step, held. change (get_generator true w) with (vw_final_generator w). set (g := vw_final_generator w).
  destruct (vg_thread g) as [| | src sent b | src sent b votes_l todo] eqn:Eg.
  - destruct (_ <=? _)%nat; [simpl; set_solver |].
    destruct (vg_requests g) as [| [cs ch] rest] eqn:Er; simpl; fold g; rewrite ?Er; [set_solver |].
    intros [? | [(r & Hr & ?) | Hc]]; [by left | right; left; exists r; split; [by right | done] |].
    right. left. exists (cs, ch). split; [by left |]. rewrite app_nil_r in Hc. done.
  - simpl. destruct (bool_decide _); simpl; set_solver.
  - destruct src as [| cs ch].
    + destruct (vg_candidates g) as [| c0 rest] eqn:Ec.
      * case_bool_decide; simpl; fold g; rewrite ?Ec; set_solver.
      * destruct (_ <? _)%nat; [| simpl; fold g; rewrite ?Ec; set_solver].
        unfold collect. destruct (unsent _ _) as [l s]. simpl. destruct (_ && _); simpl; fold g; set_solver.
    + destruct cs as [| c0 rest].
      * case_bool_decide; simpl; fold g; set_solver.
      * destruct (_ <? _)%nat; [| simpl; fold g; set_solver].
        unfold collect. destruct (unsent _ _) as [l s]. simpl. destruct (_ && _); simpl; fold g; set_solver.
  - destruct votes_l as [| v votes_l]; [destruct src as [| [| c1 cs] ch]; simpl; fold g; set_solver |].
    destruct todo as [| c0 todo]; destruct src as [| [| c1 cs] ch]; simpl; fold g; set_solver.
Qed.

Lemma thread_step_voted f reps w r h t v :
  voted true r h t v ∈ vw_events (thread_step e f reps w) →
  voted true r h t v ∈ vw_events w ∨ held (vw_final_generator w) (r, h).
Proof.
  destruct f.
  - destruct (thread_step_moves e true reps w) as [Hq | src sent b c w0 Ht Hq Hb Hh (src' & ->) | src sent b u vs c td Ht ->].
    + destruct (qu_events _ _ _ Hq) as (l & -> & Hl). rewrite Forall_forall in Hl.
      intros [? | Hv]%elem_of_app; [by left |]. by destruct (Hl _ Hv).
    + destruct (qu_events _ _ _ Hq) as (l & He & Hl). rewrite Forall_forall in Hl. unfold collect.
      destruct (unsent _ _) as [l' s]. simpl. rewrite He. intros [[? | Hv]%elem_of_app | Hv]%elem_of_app.
      * by left.
      * by destruct (Hl _ Hv).
      * apply list_elem_of_fmap in Hv as (u & Hv & _). by destruct src'.
    + simpl. intros [? | Hv]%elem_of_app; [by left |]. apply list_elem_of_singleton in Hv as [= -> -> _ _].
      right. right. right. change (vg_thread (get_generator true w)) with (vg_thread (vw_final_generator w)) in Ht.
      rewrite Ht. simpl. rewrite <- surjective_pairing. set_solver.
  - destruct (qu_events _ _ _ (thread_step_other e true false reps w ltac:(done))) as (l & -> & Hl).
    rewrite Forall_forall in Hl. intros [? | Hv]%elem_of_app; [by left |]. by destruct (Hl _ Hv).
Qed.

Lemma thread_step_shared f reps w :
  vw_ledger (thread_step e f reps w) = vw_ledger w ∧ vw_final_votes (thread_step e f reps w) = vw_final_votes w ∧
  (f = false → vw_final_generator (thread_step e f reps w) = vw_final_generator w).
Proof.
  unfold thread_step, collect. destruct f; simpl;
  repeat (match goal with
          | |- context [match ?x with _ => _ end] => destruct x
          | |- context [if ?x then _ else _] => destruct x
          end; simpl); done.
Qed.

Lemma thread_step_final f reps w : final_inv w → final_inv (thread_step e f reps w).
Proof.
  intros Hi. destruct (thread_step_shared f reps w) as (HL & Ht & Hg).
  assert (Ha : ∀ h, anchored w h → anchored (thread_step e f reps w) h).
  { intros h. apply anchored_mono; [done |]. by rewrite Ht. }
  eapply final_inv_grow; [done | done | by rewrite Ht | | |].
  - rewrite Ht. by left.
  - intros c. destruct f; [intros Hc; left; by apply (thread_step_held reps) | rewrite Hg by done; by left].
  - intros r h t v [? | Hv]%thread_step_voted; [by left |]. right. by apply Ha, (fi_held _ Hi (r, h)).
Qed.

(** ** Candidates of elections *)

Lemma add_final f r h w w' : final_inv w → generator_add constants f r h w = Ok w' → final_inv w'.
Proof.
  intros Hi. unfold generator_add. set (l := local_vote_history.votes _ _ _ _). case_bool_decide.
  - intros [= <-]. eapply final_inv_grow; [done.. | by left | by left |]. simpl.
    intros r' h' t v [Hv | Hv]%elem_of_app; [by left |]. by apply list_elem_of_fmap in Hv as (? & ? & _).
  - unfold stored_block. destruct (block_get _ h) as [b |] eqn:Hb; simpl; [| by intros [= <-]].
    destruct (dependents_confirmed _ _ _) as [[] |]; simpl; [| by intros [= <-] | done].
    destruct f; [| intros [= <-]; eapply final_inv_grow; [done.. | by left | by left | by left]].
    unfold final_vote_put. destruct (vw_final_votes w !! qualified_root b.1) as [h0 |] eqn:Hq.
    + destruct (h0 =? h) eqn:E; intros [= <-]; [| by destruct w].
      assert (h0 = h) as -> by lia. eapply final_inv_grow; [done.. | by left | | by left].
      intros c [Hc | Hc]; [| by left; right]. simpl in Hc. apply elem_of_app in Hc as [? | ->%list_elem_of_singleton];
        [by left; left |]. right. exists b. split; [done |]. left. by eexists.
    + intros [= <-]. assert (Hanc : anchored (set_final_votes (<[qualified_root b.1 := h]> (vw_final_votes w)) w) h).
      { exists b. split; [done |]. left. exists (qualified_root b.1). simpl. apply lookup_insert_eq. }
      eapply final_inv_grow; [done.. | by apply insert_subseteq | | | by left].
      * simpl. intros qr h'. rewrite lookup_insert_Some. intros [[_ <-] | [_ ?]]; [by right | by left].
      * intros c [Hc | Hc]; [| by left; right]. simpl in Hc.
        apply elem_of_app in Hc as [? | ->%list_elem_of_singleton]; [by left; left | by right].
Qed.

(** ** Requests *)

Lemma discard_sub {A} n (l : list A) : discard n l ⊆ l.
Proof.
  induction l as [| x l IH]; simpl; [done |]. destruct (_ <? _)%nat; [| done]. set_solver.
Qed.

Lemma request_candidates_elem L bs l c :
  request_candidates constants L bs = Ok l → c ∈ l → ∃ b, b ∈ bs ∧ c = (root b.1, block_hash b.1).
Proof.
  revert l. induction bs as [| b bs IH]; intros l; simpl; [intros [= <-]; by intros ?%elem_of_nil |].
  destruct (dependents_confirmed _ _ _) as [cf |]; simpl; [| done].
  destruct (request_candidates _ _ bs) as [l' |]; simpl; [| done]. intros [= <-].
  assert (c ∈ l' → ∃ b0, b0 ∈ b :: bs ∧ c = (root b0.1, block_hash b0.1)).
  { intros Hc. destruct (IH l' eq_refl Hc) as (b0 & ? & ?). exists b0. split; [by right | done]. }
  destruct cf; [| done]. intros [-> | ?]%elem_of_cons; [| by auto]. exists b. split; [by left | done].
Qed.

Lemma generate_final f bs ch w r :
  final_inv w → (f = true → ∀ b, b ∈ bs → anchored w (block_hash b.1)) →
  generator_generate constants f bs ch w = Ok r → final_inv r.2.
Proof.
  intros Hi Hb. unfold generator_generate. destruct (request_candidates _ _ _) as [l |] eqn:El; [| done].
  simpl. intros [= <-]. destruct f; (eapply final_inv_grow; [done.. | by left | | by left]).
  - intros c [Hc | [(q & Hq & Hc) | Hc]]; [by left; left | | by left; right; right].
    simpl in Hq. apply discard_sub, elem_of_app in Hq as [Hq | ->%list_elem_of_singleton];
      [left; right; left; by exists q |]. simpl in Hc.
    destruct (request_candidates_elem _ _ _ _ El Hc) as (b & Hin & ->). right. simpl. by apply Hb.
  - by left.
Qed.

(** The recorded blocks of the root are stored. *)
Lemma final_get_recorded t root_a h : h ∈ final_vote_get t root_a → recorded t h.
Proof.
  intros ([qr h'] & -> & Hx)%list_elem_of_fmap. unfold final_vote_range in Hx.
  rewrite merge_sort_Permutation in Hx. apply list_elem_of_filter in Hx as [_ Hx].
  exists qr. by apply elem_of_map_to_list.
Qed.

Lemma recorded_anchored w h b :
  final_inv w → recorded (vw_final_votes w) h → block_get (lg_store (vw_ledger w)) h = Some b →
  anchored w (block_hash b.1).
Proof.
  intros Hi Hr Hb. rewrite (stored_hash (vw_ledger w) h b) by (apply Hi || done). exists b. auto.
Qed.

Lemma cemented_anchored w h b :
  final_inv w → block_get (lg_store (vw_ledger w)) h = Some b → height_confirmed (vw_ledger w) b = true →
  anchored w (block_hash b.1).
Proof.
  intros Hi Hb Hc. rewrite (stored_hash (vw_ledger w) h b) by (apply Hi || done). exists b. auto.
Qed.

Lemma final_vote_block_anchored w root_a first block final :
  final_inv w → final_vote_block (vw_ledger w) (vw_final_votes w) root_a = (first, block, final) →
  (∀ b, b ∈ first → anchored w (block_hash b.1)) ∧
  (block = None → final = false) ∧ (∀ b, block = Some b → anchored w (block_hash b.1)).
Proof.
  intros Hi. unfold final_vote_block. pose proof (final_get_recorded (vw_final_votes w) root_a) as Hr.
  destruct (final_vote_get _ _) as [| h0 hs]; [intros [= <- <- <-]; split_and!; [by intros ? ?%elem_of_nil | done..] |].
  assert (Hsome : ∀ h, h ∈ h0 :: hs → ∃ b, block_get (lg_store (vw_ledger w)) h = Some b ∧ anchored w (block_hash b.1)).
  { intros h Hh. destruct (Hr h Hh) as [qr Hq]. destruct (fi_table _ Hi qr h Hq) as [b Hb]. exists b.
    split; [done |]. eapply recorded_anchored; [done | by exists qr | done]. }
  destruct (Hsome h0) as (b0 & -> & Ha0); [by left |]. simpl. destruct hs as [| h1 hs].
  - intros [= <- <- <-]. split_and!; [by intros ? ?%elem_of_nil | done |]. by intros b [= <-].
  - destruct (Hsome h1) as (b1 & -> & Ha1); [by right; left |]. intros [= <- <- <-].
    split_and!; [by intros b ->%list_elem_of_singleton | done |]. by intros b [= <-].
Qed.

(** Without a recorded block, only cemented blocks are for the final generator. *)
Lemma find_block_anchored w winner hash root_a b cached gen :
  final_inv w → find_block (vw_ledger w) (vw_history w) winner hash root_a false = (Some b, cached, gen, true) →
  anchored w (block_hash b.1).
Proof.
  intros Hi. unfold find_block. destruct (winner hash); [done |].
  destruct (block_get _ hash) as [b0 |] eqn:Hb; [intros [= <- _ _ Hc]; by eapply (cemented_anchored w hash) |].
  unfold ledger_by_root. destruct (_ =? _); [done |]. destruct (_ =? _); [done |].
  destruct (block_get _ (root_successor _ _)) as [b0 |] eqn:Hs; [| done]. simpl.
  case_bool_decide; [| by intros [=]]. intros [= <- _ _ Hc]. by eapply (cemented_anchored w).
Qed.

Lemma push_final_list l a : ag_to_generate_final (fold_left (λ a b, push_final b a) l a) = ag_to_generate_final a ++ l.
Proof.
  revert a. induction l as [| b l IH]; intros a; simpl; [by rewrite app_nil_r |]. rewrite IH. simpl.
  by rewrite <- app_assoc.
Qed.

Lemma aggregate_final w winner requests_a channel b :
  final_inv w →
  b ∈ ag_to_generate_final (aggregate (vw_ledger w) (vw_final_votes w) (vw_history w) winner requests_a channel) →
  anchored w (block_hash b.1).
Proof.
  intros Hi. unfold aggregate. set (ok := λ a : aggregation, ∀ b, b ∈ ag_to_generate_final a → anchored w (block_hash b.1)).
  revert b. change (ok (fold_left (λ a v, push_sent (reply_vote v channel) a)
    (unique_votes (merge_sort by_address (ag_cached_votes (fold_left
      (aggregate_one (vw_ledger w) (vw_final_votes w) (vw_history w) winner channel) requests_a (Aggregation [] [] [] [] 0)))))
    (fold_left (aggregate_one (vw_ledger w) (vw_final_votes w) (vw_history w) winner channel) requests_a
      (Aggregation [] [] [] [] 0)))).
  apply fold_left_ind; [| done]. apply fold_left_ind; [by intros b ?%elem_of_nil |].
  intros a [hash root_a] Ha. unfold aggregate_one. case_bool_decide; [done |].
  destruct (final_vote_block _ _ root_a) as [[first block] final] eqn:Ef.
  destruct (final_vote_block_anchored w root_a first block final Hi Ef) as (Hfirst & Hnone & Hsome).
  assert (Ha' : ok (fold_left (λ a b, push_final b a) first a)).
  { intros b. rewrite push_final_list. intros [? | ?]%elem_of_app; [by apply Ha | by apply Hfirst]. }
  set (a' := fold_left _ first a) in *. clearbody a'.
  assert (Hblock : ∀ b cached gen, match block with Some b => (Some b, [], true, final)
    | None => find_block (vw_ledger w) (vw_history w) winner hash root_a final end = (Some b, cached, gen, true) →
    anchored w (block_hash b.1)).
  { intros b cached gen. destruct block as [b0 |]; [intros [= <- _ _ _]; by apply Hsome |].
    rewrite (Hnone eq_refl). by apply find_block_anchored. }
  destruct (match block with Some b => _ | None => _ end) as [[[block' cached] gen] final'].
  unfold queue_block. destruct block' as [b |]; [| done].
  set (a2 := if gen then _ else _). assert (Ha2 : ok a2).
  { unfold a2. destruct gen; [| done]. destruct final'; [| done]. simpl. intros b' [? | ->%list_elem_of_singleton]%elem_of_app;
      [by apply Ha' | by eapply Hblock]. }
  by destruct (negb _).
Qed.

Lemma serve_final winner hr ch w w' : final_inv w → serve_pool constants winner hr ch w = Ok w' → final_inv w'.
Proof.
  intros Hi. unfold serve_pool.
  pose proof (aggregate_final w winner (erase_duplicates hr) ch) as Hag.
  pose proof (aggregate_sent true (vw_ledger w) (vw_final_votes w) (vw_history w) winner (erase_duplicates hr) ch) as Hse.
  set (a := aggregate _ _ _ _ _ _) in *. intros Hs. rewrite Forall_forall in Hse.
  assert (Hi0 : final_inv (emit (ag_sent a) w)).
  { eapply final_inv_grow; [done.. | by left | by left |]. simpl.
    intros r h t v [? | Hv]%elem_of_app; [by left |]. by destruct (Hse _ Hv). }
  apply bind_Ok in Hs as (w1 & H1 & H2).
  assert (Hi1 : final_inv w1 ∧ vw_ledger w1 = vw_ledger w ∧ vw_final_votes w1 = vw_final_votes w).
  { destruct (bool_decide _) in H1; [by injection H1 as <- |].
    apply bind_Ok in H1 as (r & H1 & [= <-]). split; [eapply (generate_final false); [exact Hi0 | done | exact H1] |].
    unfold generator_generate in H1. destruct (request_candidates _ _ _); [| done]. by injection H1 as <-. }
  destruct Hi1 as (Hi1 & HL1 & Ht1).
  destruct (bool_decide _) in H2; [by injection H2 as <- |].
  apply bind_Ok in H2 as (r & H2 & [= <-]). eapply generate_final; [done | | done].
  intros _ b Hb. eapply (anchored_mono w); [done | by rewrite Ht1 | by apply Hag].
Qed.

(** ** The theorem *)

Lemma voting_step_final w w' : final_inv w → voting_step constants e keeps w w' → final_inv w'.
Proof.
  intros Hi [f reps -> | f r h _ Hs | winner hr ch _ _ Hs | r -> | L' [HR Hk] ->].
  - by apply thread_step_final.
  - by eapply add_final.
  - by eapply serve_final.
  - eapply final_inv_grow; [done.. | by left | by left | by left].
  - assert (Ha : ∀ h, anchored w h → anchored (set_ledger L' w) h).
    { intros h (b & Hb & Hr). destruct (Hk h b Hb Hr) as (b' & Hb' & _ & Hc). exists b'. split; [done |].
      destruct Hr as [? | ?]; auto. }
    destruct Hi as [_ Hta Hhe Hvo]. split; simpl; [done | | |].
    + intros qr h Hq. destruct (Hta qr h Hq) as [b Hb].
      destruct (Hk h b Hb) as (b' & Hb' & _); [left; by exists qr | by exists b'].
    + intros c Hc. by apply Ha, Hhe.
    + intros r h t v Hv. eapply Ha, Hvo. done.
Qed.

(** C11: In every interleaving of the two vote generators, the request aggregator
    and the ledger, as long as recorded and cemented blocks are not rolled back,
    every final vote the node makes is for a block of its ledger, and two final
    votes for blocks of one qualified root, neither an epoch block, are for the same
    block. *)
Theorem one_final_vote_per_root L w r1 h1 t1 v1 r2 h2 t2 v2 :
  node_reachable constants L → rtc (voting_step constants e keeps) (voting_new L) w →
  voted true r1 h1 t1 v1 ∈ vw_events w → voted true r2 h2 t2 v2 ∈ vw_events w →
  ∃ b1 b2, block_get (lg_store (vw_ledger w)) h1 = Some b1 ∧ block_get (lg_store (vw_ledger w)) h2 = Some b2 ∧
    (plain constants b1.1 → plain constants b2.1 → qualified_root b1.1 = qualified_root b2.1 → h1 = h2).
Proof.
  intros HL Hr Hv1 Hv2. assert (Hi : final_inv w).
  { revert Hr. apply (rtc_ind_r final_inv).
    - split; simpl; [done | by intros qr h | | by intros * ?%elem_of_nil].
      intros c [Hc | [(q & Hq & _) | Hc]]; by apply elem_of_nil in Hc || apply elem_of_nil in Hq.
    - intros w1 w2 _ Hs Hi. by eapply voting_step_final. }
  destruct (fi_voted _ Hi _ _ _ _ Hv1) as (b1 & Hb1 & _), (fi_voted _ Hi _ _ _ _ Hv2) as (b2 & Hb2 & _).
  exists b1, b2. split_and!; [done.. |].
  apply (ff_unique constants (vw_ledger w)); [by apply node_fork_free, Hi | done..].
Qed.
End final.
