(* ===== verification/ActiveTransactions.v ===== *)
(** * The active elections ([node/active_transactions.hpp], [node/active_transactions.cpp])

    The container of running elections: one per qualified root, in order of insertion,
    with an index from the hashes of their blocks, the roots that were confirmed a short
    time ago, the winners that wait to be cemented, and the cache of votes for blocks
    that have no election.  An election is shared by the containers, so they hold its
    number, and the elections themselves are in a table.

    Each operation is one step.  What it asks of the rest of the node is a list of
    calls. *)

From S2P Require Import Prelude Blocks Common Vote Store Ledger LedgerQueries Election.

(** ** State *)

Record inactive_cache_status := InactiveCacheStatus {
  ic_bootstrap_started : bool;
  ic_election_started : bool;
  ic_confirmed : bool;
  ic_tally : Z;
}.

Definition default_cache_status : inactive_cache_status := InactiveCacheStatus false false false 0.

(** [operator!=]. *)
Definition cache_status_neq (s t : inactive_cache_status) : bool :=
  negb (Bool.eqb (ic_bootstrap_started s) (ic_bootstrap_started t))
  || negb (Bool.eqb (ic_election_started s) (ic_election_started t))
  || negb (Bool.eqb (ic_confirmed s) (ic_confirmed t))
  || negb (ic_tally s =? ic_tally t).

Record inactive_cache_information := InactiveCacheInformation {
  ic_arrival : Z;
  ic_hash : Z;
  ic_status : inactive_cache_status;
  ic_voters : list (Z * Z);
}.

Definition needs_eval (i : inactive_cache_information) : bool :=
  negb (ic_bootstrap_started (ic_status i)) || negb (ic_election_started (ic_status i))
  || negb (ic_confirmed (ic_status i)).

Record conflict_info := ConflictInfo {
  ci_root : Z * Z;
  ci_election : nat;
  ci_epoch : epoch;
  ci_previous_balance : Z;
}.

(** What [process_confirmed_data] finds out about a confirmed block. *)
Record confirmed_data := ConfirmedData {
  pd_account : Z;
  pd_amount : Z;
  pd_is_state_send : bool;
  pd_is_state_epoch : bool;
  pd_pending_account : Z;
}.

(** Calls into the rest of the node. *)
Inductive active_call :=
| call_election (a : action)
| call_confirm (hash : Z)
| call_confirm_later (s : election_status) (iteration : Z)
| call_vacancy_update
| call_active_stopped (hash : Z)
| call_publish_filter_clear (b : block)
| call_bootstrap (hash : Z)
| call_flood_vote (v : vote)
| call_notify_blocks (s : election_status) (d : confirmed_data)
| call_notify_balance (account_a : Z) (pending : bool)
| call_receive_confirmed (hash destination : Z).

Record active_transactions := ActiveTransactions {
  at_roots : list conflict_info;
  at_elections : gmap nat election;
  at_next : nat;
  at_blocks : gmap Z nat;
  at_recently_confirmed : list ((Z * Z) * Z);
  at_recently_cemented : list election_status;
  at_inactive : list inactive_cache_information;
  at_winner_details : gmap Z nat;
  at_calls : list active_call;
}.

Definition active_new : active_transactions := ActiveTransactions [] ∅ 0 ∅ [] [] [] ∅ [].

Definition set_roots l (a : active_transactions) : active_transactions :=
  ActiveTransactions l (at_elections a) (at_next a) (at_blocks a) (at_recently_confirmed a)
    (at_recently_cemented a) (at_inactive a) (at_winner_details a) (at_calls a).
Definition set_elections m (a : active_transactions) : active_transactions :=
  ActiveTransactions (at_roots a) m (at_next a) (at_blocks a) (at_recently_confirmed a)
    (at_recently_cemented a) (at_inactive a) (at_winner_details a) (at_calls a).
Definition bump_next (a : active_transactions) : active_transactions :=
  ActiveTransactions (at_roots a) (at_elections a) (S (at_next a)) (at_blocks a) (at_recently_confirmed a)
    (at_recently_cemented a) (at_inactive a) (at_winner_details a) (at_calls a).
Definition set_at_blocks m (a : active_transactions) : active_transactions :=
  ActiveTransactions (at_roots a) (at_elections a) (at_next a) m (at_recently_confirmed a)
    (at_recently_cemented a) (at_inactive a) (at_winner_details a) (at_calls a).
Definition set_recently_confirmed l (a : active_transactions) : active_transactions :=
  ActiveTransactions (at_roots a) (at_elections a) (at_next a) (at_blocks a) l
    (at_recently_cemented a) (at_inactive a) (at_winner_details a) (at_calls a).
Definition set_recently_cemented l (a : active_transactions) : active_transactions :=
  ActiveTransactions (at_roots a) (at_elections a) (at_next a) (at_blocks a) (at_recently_confirmed a)
    l (at_inactive a) (at_winner_details a) (at_calls a).
Definition set_inactive l (a : active_transactions) : active_transactions :=
  ActiveTransactions (at_roots a) (at_elections a) (at_next a) (at_blocks a) (at_recently_confirmed a)
    (at_recently_cemented a) l (at_winner_details a) (at_calls a).
Definition set_winner_details m (a : active_transactions) : active_transactions :=
  ActiveTransactions (at_roots a) (at_elections a) (at_next a) (at_blocks a) (at_recently_confirmed a)
    (at_recently_cemented a) (at_inactive a) m (at_calls a).
Definition call c (a : active_transactions) : active_transactions :=
  ActiveTransactions (at_roots a) (at_elections a) (at_next a) (at_blocks a) (at_recently_confirmed a)
    (at_recently_cemented a) (at_inactive a) (at_winner_details a) (at_calls a ++ [c]).

(** What the operations read: the environment of the elections, the ledger, the sizes
    and flags of the configuration, whether a hash is being confirmed or was added to
    the confirmation height processor, and the representatives of the wallets. *)
Record active_env := ActiveEnv {
  ae_election : env;
  ae_ledger : ledger;
  ae_min_time : Z;
  ae_active_elections_size : Z;
  ae_confirmation_history_size : nat;
  ae_inactive_votes_cache_size : nat;
  ae_election_start_voters_min : nat;
  ae_election_hint_weight_percent : Z;
  ae_disable_legacy_bootstrap : bool;
  ae_disable_lazy_bootstrap : bool;
  ae_bootstrap_fraction_numerator : Z;
  ae_being_confirmed : Z → bool;
  ae_processing_added : Z → bool;
  ae_half_rep : bool;
  ae_rep_exists : Z → bool;
  ae_num_iters : Z;
}.

Definition recently_confirmed_size : nat := 256 * 256.

(** ** Small containers *)

Definition find_root (root_a : Z * Z) (l : list conflict_info) : option conflict_info :=
  find (λ c, bool_decide (ci_root c = root_a)) l.

Definition recent_root (root_a : Z * Z) (l : list ((Z * Z) * Z)) : bool :=
  existsb (λ x, bool_decide (x.1 = root_a)) l.
Definition recent_hash (hash_a : Z) (l : list ((Z * Z) * Z)) : bool := existsb (λ x, x.2 =? hash_a) l.

(** [add_recently_confirmed]: both keys are unique. *)
Definition add_recently_confirmed (root_a : Z * Z) (hash_a : Z) (a : active_transactions) : active_transactions :=
  let l := at_recently_confirmed a in
  let l := if recent_root root_a l || recent_hash hash_a l then l else l ++ [(root_a, hash_a)] in
  set_recently_confirmed (if (recently_confirmed_size <? length l)%nat then tail l else l) a.

Definition erase_recently_confirmed (hash_a : Z) (a : active_transactions) : active_transactions :=
  set_recently_confirmed (filter (λ x, x.2 ≠ hash_a) (at_recently_confirmed a)) a.

(** The cache of inactive votes, by arrival. *)
Fixpoint cache_emplace (i : inactive_cache_information) (l : list inactive_cache_information) :
    list inactive_cache_information :=
  match l with
  | [] => [i]
  | j :: l' => if ic_arrival i <? ic_arrival j then i :: l else j :: cache_emplace i l'
  end.

Definition cache_find (hash_a : Z) (l : list inactive_cache_information) : option inactive_cache_information :=
  find (λ i, ic_hash i =? hash_a) l.

Definition cache_erase (hash_a : Z) (l : list inactive_cache_information) : list inactive_cache_information :=
  filter (λ i, ic_hash i ≠ hash_a) l.

Definition cache_set_status (hash_a : Z) (s : inactive_cache_status) (l : list inactive_cache_information) :
    list inactive_cache_information :=
  map (λ i, if ic_hash i =? hash_a
            then InactiveCacheInformation (ic_arrival i) (ic_hash i) s (ic_voters i) else i) l.

(** [find_inactive_votes_cache]: a default one when there is none. *)
Definition find_inactive_votes_cache (hash_a : Z) (a : active_transactions) : inactive_cache_information :=
  default (InactiveCacheInformation 0 0 default_cache_status []) (cache_find hash_a (at_inactive a)).

Definition erase_inactive_votes_cache (hash_a : Z) (a : active_transactions) : active_transactions :=
  set_inactive (cache_erase hash_a (at_inactive a)) a.

Section operations.
Context `{Crypto} (e : active_env).

Definition remove_election_winner_details (hash_a : Z) (a : active_transactions) : active_transactions :=
  set_winner_details (delete hash_a (at_winner_details a)) a.

(** [node::process_confirmed]: the winner goes to the confirmation height processor when
    the ledger has it, or later, and is dropped in the end. *)
Definition node_process_confirmed (s : election_status) (iteration : Z) (a : active_transactions) :
    active_transactions :=
  let hash := block_hash (es_winner s) in
  match block_get (lg_store (ae_ledger e)) hash with
  | Some b => call (call_confirm hash) (add_recently_confirmed (qualified_root b.1) hash a)
  | None =>
      if iteration <? ae_num_iters e then call (call_confirm_later s (iteration + 1)) a
      else remove_election_winner_details hash a
  end.

(** [erase_hash]. *)
Definition active_erase_hash (hash_a : Z) (a : active_transactions) : active_transactions :=
  set_at_blocks (delete hash_a (at_blocks a)) a.

(** A call of an election: some come back to this class. *)
Definition perform (a : active_transactions) (x : action) : active_transactions :=
  match x with
  | erase_hash h => active_erase_hash h a
  | process_confirmed s => node_process_confirmed s 0 a
  | x => call (call_election x) a
  end.

(** The environment an election sees: the tally of inactive votes is in the cache. *)
Definition election_env (a : active_transactions) : env :=
  let v := ae_election e in
  Env (en_dev_network v) (en_weight v) (en_trended v) (en_delta v) (en_voting v) (en_canary v)
    (en_history v) (λ h, ic_tally (ic_status (find_inactive_votes_cache h a))) (en_now v)
    (en_system_now v) (en_log_expired v) (en_order v).

(** An operation of an election: the winners announced so far are visible to it, and a
    winner it adds is entered with its number. *)
Definition on_world {A} (id : nat) (op : env → world → outcome (A * world)) (a : active_transactions) :
    outcome (A * active_transactions) :=
  el ← of_option (at_elections a !! id);
  r ← op (election_env a) (World el (dom (at_winner_details a)) []);
  let w := r.2 in
  let new := elements (wo_winner_details w ∖ dom (at_winner_details a)) in
  let a := set_elections (<[id := wo_election w]> (at_elections a)) a in
  let a := set_winner_details (foldr (λ h m, <[h := id]> m) (at_winner_details a) new) a in
  Ok (r.1, fold_left perform (wo_actions w) a).

(** An operation without result. *)
Definition quietly (op : env → world → outcome world) : env → world → outcome (unit * world) :=
  λ v w, w ← op v w; Ok ((), w).

(** ** Insertion *)

(** The balance before the block, for the container only. *)
Definition previous_balance_of (b : block) (previous_balance_a : option Z) : outcome Z :=
  match previous_balance_a with
  | Some p => Ok p
  | None =>
      if negb (previous b =? 0) && block_exists (lg_store (ae_ledger e)) (previous b)
      then balance (ae_ledger e) (previous b) else Ok 0
  end.

(** The election is made and entered: its first call asks for a vote. *)
Definition new_election (b : block) (sb : block_sideband) (previous_balance : Z)
    (behavior : election_behavior) (a : active_transactions) : active_transactions :=
  let id := at_next a in
  let w := election_new (election_env a) b (sb_height sb) behavior in
  let a := bump_next (set_elections (<[id := wo_election w]> (at_elections a)) a) in
  let a := fold_left perform (wo_actions w) a in
  let a := set_roots (at_roots a ++ [ConflictInfo (qualified_root b) id (details_epoch (sb_details sb))
                                       previous_balance]) a in
  match at_blocks a !! block_hash b with
  | Some _ => a
  | None => set_at_blocks (<[block_hash b := id]> (at_blocks a)) a
  end.

(** [insert_impl], on a container that is not stopped: the election of the root, and
    whether it is new. *)
Definition insert_impl (b : block) (sb : block_sideband) (previous_balance_a : option Z)
    (behavior : election_behavior) (a : active_transactions) :
    outcome (option nat * bool * active_transactions) :=
  r ← match find_root (qualified_root b) (at_roots a) with
      | Some c => Ok (Some (ci_election c), false, a)
      | None =>
          if recent_root (qualified_root b) (at_recently_confirmed a) then Ok (None, false, a) else
          previous_balance ← previous_balance_of b previous_balance_a;
          let id := at_next a in
          let a := new_election b sb previous_balance behavior a in
          let cache := find_inactive_votes_cache (block_hash b) a in
          r ← on_world id (quietly (λ v, insert_inactive_votes_cache v (ae_min_time e) (ic_hash cache)
                                           (ic_voters cache))) a;
          Ok (Some id, true, call call_vacancy_update r.2)
      end;
  let '(election, inserted, a) := r in
  match election with
  | Some id => r ← on_world id (quietly generate_votes) a; Ok (Some id, inserted, r.2)
  | None => Ok (None, inserted, a)
  end.

(** ** Votes for blocks without election *)

(** [inactive_votes_bootstrap_check_impl]. *)
Definition inactive_votes_bootstrap_check (tally : Z) (voters_size : nat) (hash_a : Z)
    (previously : inactive_cache_status) (a : active_transactions) :
    outcome (inactive_cache_status * active_transactions) :=
  let v := ae_election e in
  let L := ae_ledger e in
  let confirmed_now := negb (ic_confirmed previously) && (en_delta v <=? tally) in
  let bootstrap_now :=
    negb confirmed_now && negb (ic_bootstrap_started previously) && negb (ae_disable_legacy_bootstrap e)
    && ae_disable_lazy_bootstrap e
    && (wrap128 ((en_trended v / 256) * ae_bootstrap_fraction_numerator e) <? tally) in
  let election_now :=
    negb (ic_election_started previously) && (ae_election_start_voters_min e <=? voters_size)%nat
    && (wrap128 ((en_trended v / 100) * ae_election_hint_weight_percent e) <=? tally) in
  let status := InactiveCacheStatus (ic_bootstrap_started previously || confirmed_now || bootstrap_now)
    (ic_election_started previously || election_now) (ic_confirmed previously || confirmed_now) tally in
  let bootstrap_new := ic_bootstrap_started status && negb (ic_bootstrap_started previously) in
  if election_now || bootstrap_new then
    match block_get (lg_store L) hash_a with
    | Some (b, sb) =>
        if election_now && negb (ae_being_confirmed e hash_a || block_confirmed L hash_a)
        then r ← insert_impl b sb None normal a; Ok (status, r.2)
        else Ok (status, a)
    | None =>
        if bootstrap_new && (negb (lg_pruning L) || negb (pruned_exists (lg_store L) hash_a))
        then Ok (status, call (call_bootstrap hash_a) a)
        else Ok (status, a)
    end
  else Ok (status, a).

(** The status is written when it changed and the entry is still there. *)
Definition update_status (hash_a : Z) (old status : inactive_cache_status) (a : active_transactions) :
    active_transactions :=
  if cache_status_neq status old then set_inactive (cache_set_status hash_a status (at_inactive a)) a else a.

Definition voters_tally (voters : list (Z * Z)) : Z :=
  fold_left (λ n x, wrap128 (n + en_weight (ae_election e) x.1)) voters 0.

(** [add_inactive_votes_cache]: principal representatives only; the first vote of each
    counts. *)
Definition add_inactive_votes_cache (hash_a rep timestamp_a : Z) (a : active_transactions) :
    outcome active_transactions :=
  let v := ae_election e in
  if minimum_principal_weight (en_trended v) <? en_weight v rep then
    match cache_find hash_a (at_inactive a) with
    | Some i =>
        if needs_eval i && negb (existsb (λ x : Z * Z, x.1 =? rep) (ic_voters i)) then
          let i' := InactiveCacheInformation (en_now v) hash_a (ic_status i) (ic_voters i ++ [(rep, timestamp_a)]) in
          let a := set_inactive (cache_emplace i' (cache_erase hash_a (at_inactive a))) a in
          r ← inactive_votes_bootstrap_check (voters_tally (ic_voters i')) (length (ic_voters i')) hash_a
                (ic_status i) a;
          Ok (update_status hash_a (ic_status i) r.1 r.2)
        else Ok a
    | None =>
        let a := set_inactive (cache_emplace
          (InactiveCacheInformation (en_now v) hash_a default_cache_status [(rep, timestamp_a)]) (at_inactive a)) a in
        r ← inactive_votes_bootstrap_check (en_weight v rep) 1 hash_a default_cache_status a;
        let a := update_status hash_a default_cache_status r.1 r.2 in
        Ok (if (ae_inactive_votes_cache_size e <? length (at_inactive a))%nat
            then set_inactive (tail (at_inactive a)) a else a)
    end
  else Ok a.

(** [trigger_inactive_votes_cache_election]. *)
Definition trigger_inactive_votes_cache_election (b : block) (sb : block_sideband) (a : active_transactions) :
    outcome active_transactions :=
  if ic_election_started (ic_status (find_inactive_votes_cache (block_hash b) a))
  then r ← insert_impl b sb None normal a; Ok r.2 else Ok a.

(** ** Votes *)

Inductive vote_code := vote_invalid | vote_replay | vote_vote | vote_indeterminate.

(** The first loop of [vote]: the elections to process, and the number of hashes that
    were confirmed a short time ago. *)
Fixpoint route_items (v : vote) (items : list vote_item) (a : active_transactions) :
    outcome (list (nat * Z) * nat * active_transactions) :=
  match items with
  | [] => Ok ([], 0%nat, a)
  | i :: rest =>
      let hash := item_hash i in
      let existing :=
        match i with
        | vote_block_hash h => at_blocks a !! h
        | vote_block b => ci_election <$> find_root (qualified_root b) (at_roots a)
        end in
      match existing with
      | Some id => r ← route_items v rest a; let '(l, n, a) := r in Ok ((id, hash) :: l, n, a)
      | None =>
          if recent_hash hash (at_recently_confirmed a)
          then r ← route_items v rest a; let '(l, n, a) := r in Ok (l, S n, a)
          else
            a ← add_inactive_votes_cache hash (vt_account v) (vote_timestamp v) a;
            route_items v rest a
      end
  end.

(** The second loop: each election gets the vote; the flags are [replay] and
    [processed]. *)
Fixpoint vote_elections (v : vote) (process : list (nat * Z)) (a : active_transactions) :
    outcome (bool * bool * active_transactions) :=
  match process with
  | [] => Ok (false, false, a)
  | (id, hash) :: rest =>
      r ← on_world id (λ w x, r ← election_vote w (vt_account v) (vote_timestamp v) hash x; Ok (r.1, r.2)) a;
      let '((replay, processed), a) := r in
      r ← vote_elections v rest a;
      let '(replay', processed', a) := r in Ok (replay || replay', processed || processed', a)
  end.

(** [vote]. *)
Definition active_vote (v : vote) (a : active_transactions) : outcome (vote_code * active_transactions) :=
  r ← route_items v (vt_blocks v) a;
  let '(process, recently_confirmed_counter, a) := r in
  if bool_decide (process ≠ []) then
    r ← vote_elections v process a;
    let '(replay, processed, a) := r in
    let a := if processed && negb (ae_half_rep e) && negb (ae_rep_exists e (vt_account v))
             then call (call_flood_vote v) a else a in
    Ok (if (replay : bool) then vote_replay else vote_vote, a)
  else Ok (if Nat.eqb recently_confirmed_counter (length (vt_blocks v)) then vote_replay
           else vote_indeterminate, a).

(** ** Removal *)

(** [cleanup_election]. *)
Definition cleanup_election (c : conflict_info) (el : election) (a : active_transactions) : active_transactions :=
  let blocks_l := en_order (ae_election e) block (map_to_list (el_last_blocks el)) in
  let a := fold_left (λ a x, erase_inactive_votes_cache x.1 (active_erase_hash x.1 a)) blocks_l a in
  let a := set_roots (filter (λ d, ci_root d ≠ ci_root c) (at_roots a)) a in
  fold_left (λ a (x : Z * block),
    let a := if negb (confirmed el) || negb (x.1 =? block_hash (es_winner (el_status el)))
             then call (call_active_stopped x.1) a else a in
    if negb (confirmed el) then call (call_publish_filter_clear x.2) a else a)
    blocks_l (call call_vacancy_update a).

Definition cleanup_conflict (c : conflict_info) (a : active_transactions) : active_transactions :=
  match at_elections a !! ci_election c with Some el => cleanup_election c el a | None => a end.

(** [erase] of a root, and of a block by its root. *)
Definition active_erase (root_a : Z * Z) (a : active_transactions) : active_transactions :=
  match find_root root_a (at_roots a) with Some c => cleanup_conflict c a | None => a end.

Definition erase_oldest (a : active_transactions) : active_transactions :=
  match at_roots a with c :: _ => cleanup_conflict c a | [] => a end.

(** ** Other operations *)

(** The sections of [publish], between which the lock of the container is released:
    the election takes the block, the block is indexed and its cached votes are read,
    and the election gets these votes. *)
Definition publish_block (b : block) (id : nat) (a : active_transactions) : outcome (bool * active_transactions) :=
  on_world id (λ v w, Ok (publish v b w)) a.
Definition publish_emplace (b : block) (id : nat) (a : active_transactions) : active_transactions :=
  match at_blocks a !! block_hash b with
  | Some _ => a
  | None => set_at_blocks (<[block_hash b := id]> (at_blocks a)) a
  end.
Definition publish_cached (cache : inactive_cache_information) (id : nat) (a : active_transactions) :
    outcome active_transactions :=
  r ← on_world id (quietly (λ v, insert_inactive_votes_cache v (ae_min_time e) (ic_hash cache) (ic_voters cache))) a;
  Ok r.2.

(** [publish] with nothing in between: true when no election takes the block. *)
Definition active_publish (b : block) (a : active_transactions) : outcome (bool * active_transactions) :=
  match find_root (qualified_root b) (at_roots a) with
  | None => Ok (true, a)
  | Some c =>
      r ← publish_block b (ci_election c) a;
      let '(result, a) := r in
      if (result : bool) then Ok (true, a) else
      let a := publish_emplace b (ci_election c) a in
      a ← publish_cached (find_inactive_votes_cache (block_hash b) a) (ci_election c) a;
      Ok (false, a)
  end.

(** [confirm_block]: the kind of confirmation of a block that was cemented. *)
Definition confirm_block (hash : Z) (a : active_transactions) :
    outcome (option election_status_type * active_transactions) :=
  match at_blocks a !! hash with
  | None => Ok (Some inactive_confirmation_height, a)
  | Some id =>
      el ← of_option (at_elections a !! id);
      if block_hash (es_winner (el_status el)) =? hash then
        if negb (confirmed el) then
          r ← on_world id (quietly (λ v w, Ok (confirm_once v active_confirmation_height w))) a;
          Ok (Some active_confirmation_height, r.2)
        else Ok (Some active_confirmed_quorum, a)
      else Ok (None, a)
  end.

Definition add_recently_cemented (s : election_status) (a : active_transactions) : active_transactions :=
  let l := at_recently_cemented a ++ [s] in
  set_recently_cemented (if (ae_confirmation_history_size e <? length l)%nat then tail l else l) a.

(** [active], [election], [winner], [list_active], [vacancy]. *)
Definition is_active_root (root_a : Z * Z) (a : active_transactions) : bool :=
  bool_decide (is_Some (find_root root_a (at_roots a))).
Definition is_active_block (b : block) (a : active_transactions) : bool :=
  is_active_root (qualified_root b) a && bool_decide (is_Some (at_blocks a !! block_hash b)).
Definition active_winner (hash_a : Z) (a : active_transactions) : option block :=
  id ← at_blocks a !! hash_a; el ← at_elections a !! id; Some (es_winner (el_status el)).
Definition list_active (max_a : nat) (a : active_transactions) : list nat :=
  ci_election <$> take max_a (at_roots a).
Definition vacancy (a : active_transactions) : Z := ae_active_elections_size e - Z.of_nat (length (at_roots a)).

(** ** The request loop *)

(** One election of [request_confirm]; the arguments are the errors of the confirmation
    solicitor.  Optimistic elections come from the frontier confirmation only. *)
Definition request_confirm_one (broadcast_error request_error : bool) (id : nat) (c : conflict_info)
    (a : active_transactions) : outcome active_transactions :=
  r ← on_world id (λ v w, let r := transition_time v broadcast_error request_error (wo_election w) in
                          Ok (r.1, on_election (λ _, r.2) w)) a;
  Ok (if (r.1 : bool) then active_erase (ci_root c) r.2 else r.2).

(** [request_confirm]: over the elections that were there at the start. *)
Definition request_confirm (solicitor : nat → bool * bool) (a : active_transactions) : outcome active_transactions :=
  fold_left (λ o c, a ← o; let '(b, r) := solicitor (ci_election c) in request_confirm_one b r (ci_election c) c a)
    (at_roots a) (Ok a).
End operations.
