(* ===== verification/ActiveTheorems.v ===== *)
(** * The container of elections: its index, and what it keeps

    In every state the container reaches, each qualified root has one election, the
    blocks of an election have its root, and the index from hashes to elections holds
    exactly the blocks of the running elections.  A confirmed election keeps its winner
    until it is removed. *)

From S2P Require Import Prelude Blocks Common Vote Store Ledger LedgerQueries Election ElectionTheorems.
From S2P Require Import ActiveTransactions.

Section active.
Context `{Crypto}.

(** The blocks that occur; among them the hash determines the root. *)
Context (known : block → Prop).
Context (Hknown : ∀ b b', known b → known b' → block_hash b = block_hash b' → qualified_root b = qualified_root b').

(** A hash of a block of the root. *)
Definition names (r : Z * Z) (h : Z) : Prop := ∃ b, known b ∧ block_hash b = h ∧ qualified_root b = r.

Lemma names_unique r r' h : names r h → names r' h → r = r'.
Proof. intros (b & Hb & Hh & <-) (b' & Hb' & Hh' & <-). apply Hknown; congruence. Qed.

(** ** Inside an election *)

(** Blocks, votes and tally are of one root. *)
Record of_root (r : Z * Z) (el : election) : Prop := {
  or_blocks : ∀ h b, el_last_blocks el !! h = Some b → known b ∧ qualified_root b = r;
  or_votes : ∀ rep i, el_last_votes el !! rep = Some i → names r (vi_hash i);
  or_tally : ∀ h t, el_last_tally el !! h = Some t → names r h;
}.

Definition keeps_index (x : action) : Prop := ∀ h, x ≠ erase_hash h.

(** An operation that changes no block and keeps to the root. *)
Record plain_op (r : Z * Z) (w w' : world) : Prop := {
  po_blocks : el_last_blocks (wo_election w') = el_last_blocks (wo_election w);
  po_root : of_root r (wo_election w) → of_root r (wo_election w');
  po_actions : ∃ l, wo_actions w' = wo_actions w ++ l ∧ Forall keeps_index l;
}.

Lemma plain_refl r w : plain_op r w w.
Proof. split; [done | done |]. exists []. by rewrite app_nil_r. Qed.

Lemma plain_trans r w1 w2 w3 : plain_op r w1 w2 → plain_op r w2 w3 → plain_op r w1 w3.
Proof.
  intros [Hb Hr (l & Ha & Hl)] [Hb' Hr' (l' & Ha' & Hl')]. split; [congruence | auto |].
  exists (l ++ l'). rewrite Ha', Ha, app_assoc. split; [done |]. by apply Forall_app.
Qed.

Lemma plain_act r x w : keeps_index x → plain_op r w (act x w).
Proof. intros Hx. split; [done | done |]. exists [x]. split; [done |]. by apply Forall_singleton. Qed.

Lemma plain_on r f w :
  el_last_blocks (f (wo_election w)) = el_last_blocks (wo_election w) →
  (of_root r (wo_election w) → of_root r (f (wo_election w))) → plain_op r w (on_election f w).
Proof. intros Hb Hr. split; [done | done |]. exists []. by rewrite app_nil_r. Qed.

(** Fewer votes, or votes for the root. *)
Lemma plain_votes r f w :
  (∀ m rep i, f m !! rep = Some i → m !! rep = Some i ∨ names r (vi_hash i)) →
  plain_op r w (on_election (λ el, set_last_votes (f (el_last_votes el)) el) w).
Proof.
  intros Hf. apply plain_on; [done |]. intros [Hb Hv Ht]. split; [done | | done].
  intros rep i [Hi | ?]%Hf; [by eapply Hv | done].
Qed.

Lemma fold_delete_sub {A} (l : list Z) (m : gmap Z A) k x :
  fold_left (λ m rep, delete rep m) l m !! k = Some x → m !! k = Some x.
Proof.
  revert m. induction l as [| r l IH]; intros m; simpl; [done |]. intros Hk%IH. by apply lookup_delete_Some in Hk as [_ ?].
Qed.

Section env.
Context (v : env) (Hv : env_ok v) (r : Z * Z).

Lemma tally_of_root el : of_root r el → of_root r (tally_impl v el).2.
Proof using Hv.
  intros [Hb Hvo Ht]. split; [done | done |]. simpl. intros h t Hh.
  destruct (proj1 (block_weights_dom v (el_last_votes el) h Hv) (mk_is_Some _ _ Hh)) as (rep & i & Hi & <-).
  by eapply Hvo.
Qed.

Lemma plain_tally w : plain_op r w (on_election (λ _, (tally_impl v (wo_election w)).2) w).
Proof using Hv. apply plain_on; [done |]. apply tally_of_root. Qed.

Lemma plain_confirm_once type w : plain_op r w (confirm_once v type w).
Proof using.
  unfold confirm_once. set (w1 := on_election (set_state confirmed_state) w).
  assert (H1 : plain_op r w w1) by (apply plain_on; [done | intros []; by split]).
  destruct (_ && _); [| done]. split; [done | intros []; by split |].
  eexists [_]. split; [done |]. by apply Forall_singleton.
Qed.

Lemma plain_update_winner t b w : plain_op r w (update_winner v t b w).
Proof using.
  unfold update_winner. destruct (_ && _); [| apply plain_refl].
  set (w1 := on_election _ w). assert (H1 : plain_op r w w1) by (apply plain_on; [done | intros []; by split]).
  eapply plain_trans; [exact H1 |]. eapply plain_trans; [| by apply plain_act].
  unfold remove_votes. destruct (en_voting v); [| apply plain_refl].
  eapply plain_trans; [| by apply plain_act]. apply plain_votes. intros m rep i Hi. left. by eapply fold_delete_sub.
Qed.

Lemma plain_request_final_vote w : plain_op r w (request_final_vote v w).
Proof using.
  unfold request_final_vote. destruct (en_canary v); [| apply plain_refl].
  assert (H1 : plain_op r w (on_election (set_is_quorum true) w)) by (apply plain_on; [done | intros []; by split]).
  destruct (_ && _); [| done]. eapply plain_trans; [exact H1 |]. by apply plain_act.
Qed.

Lemma plain_confirm_if_quorum w w' : confirm_if_quorum v w = Ok w' → plain_op r w w'.
Proof using Hv.
  unfold confirm_if_quorum. pose proof (plain_tally w) as Ht.
  destruct (tally_impl v (wo_election w)) as [t el] eqn:Et. simpl in Ht. destruct t as [| [first b] rest]; [done |].
  set (el1 := set_status _ el).
  assert (H1 : plain_op r w (on_election (λ _, el1) w)).
  { destruct Ht as [Hb Hr Ha]. split; [done | | exact Ha]. intros Ho. destruct (Hr Ho). by split. }
  pose proof (plain_update_winner ((first, b) :: rest) b (on_election (λ _, el1) w)) as H2.
  set (w2 := update_winner _ _ _ _) in *. destruct (have_quorum v _) as [[] |]; simpl; [| intros [= <-] | done].
  - pose proof (plain_request_final_vote w2) as H3. destruct (_ || _); intros [= <-].
    + eapply plain_trans; [exact H1 |]. eapply plain_trans; [exact H2 |]. eapply plain_trans; [exact H3 |].
      apply plain_confirm_once.
    + eapply plain_trans; [exact H1 |]. by eapply plain_trans.
  - by eapply plain_trans.
Qed.

Lemma plain_election_vote rep ts h w res w' :
  names r h → election_vote v rep ts h w = Ok (res, w') → plain_op r w w'.
Proof using Hv.
  intros Hh. unfold election_vote. destruct (_ || _); [| intros [= _ <-]; apply plain_refl].
  destruct (should_process v (wo_election w) rep ts h) as [[] replay]; [| intros [= _ <-]; apply plain_refl].
  set (w1 := act _ _). assert (H1 : plain_op r w w1).
  { eapply plain_trans; [| by apply plain_act]. apply plain_votes. intros m rep' i.
    rewrite lookup_insert_Some. intros [[_ <-] | [_ ?]]; auto. }
  destruct (confirmed (wo_election w1)); simpl; [intros [= _ <-]; done |].
  destruct (confirm_if_quorum v w1) as [w2 |] eqn:Hq; simpl; [| done]. intros [= _ <-].
  eapply plain_trans; [exact H1 | by apply plain_confirm_if_quorum].
Qed.

Lemma plain_insert_cache min_time h voters w w' :
  voters = [] ∨ names r h → insert_inactive_votes_cache v min_time h voters w = Ok w' → plain_op r w w'.
Proof using Hv.
  intros Hh. unfold insert_inactive_votes_cache. set (w1 := on_election _ w).
  assert (H1 : plain_op r w w1).
  { apply plain_votes. intros m rep i. destruct Hh as [-> | Hh]; [by left |].
    revert m. induction voters as [| x l IH]; intros m; simpl; [by left |]. intros [Hi | ?]%IH; [| by right].
    destruct (m !! x.1) eqn:Hx; [by left |].
    apply lookup_insert_Some in Hi as [[_ <-] | [_ ?]]; [by right | by left]. }
  destruct (confirmed (wo_election w1)); [by intros [= <-] |]. case_bool_decide; [| by intros [= <-]].
  intros Hq. eapply plain_trans; [exact H1 | by apply plain_confirm_if_quorum].
Qed.

Lemma plain_generate_votes w w' : generate_votes v w = Ok w' → plain_op r w w'.
Proof using Hv.
  unfold generate_votes. destruct (en_voting v); [| intros [= <-]; apply plain_refl].
  destruct (confirmed (wo_election w)); [intros [= <-]; by apply plain_act |].
  pose proof (plain_tally w) as Ht. destruct (tally_impl v (wo_election w)) as [t el]. simpl in Ht.
  destruct (have_quorum v t) as [[] |]; simpl; [| | done]; intros [= <-];
    (eapply plain_trans; [exact Ht | by apply plain_act]).
Qed.

Lemma plain_transition_time b1 b2 w : plain_op r w (on_election (λ _, (transition_time v b1 b2 (wo_election w)).2) w).
Proof using Hv.
  apply plain_on.
  - by destruct (transition_time_timed v b1 b2 (wo_election w)).
  - intros Ho. unfold transition_time, transition_switch.
    assert (Hs : ∀ s el, of_root r el → of_root r (set_state s el)) by (intros s el []; by split).
    assert (Hc : ∀ s s' el, of_root r el → of_root r (state_change v s s' el).2).
    { intros s s' el Hel. unfold state_change. destruct (valid_change _ _); [| done].
      case_bool_decide; [| done]. destruct Hel. by split. }
    set (sw := match el_state (wo_election w) with passive => _ | active => _ | _ => _ end).
    assert (Hsw : of_root r sw.2).
    { unfold sw. destruct (el_state (wo_election w)); simpl; try done.
      - destruct (_ <? _); simpl; [by apply Hc | done].
      - unfold send_confirm_req, broadcast_block. destruct Ho. by repeat destruct (_ && _); split.
      - destruct (_ <? _); simpl; [by apply Hc | done]. }
    destruct sw as [res el]. simpl in Hsw. destruct (_ && _); [| done].
    pose proof (Hc (el_state el) expired_unconfirmed el Hsw) as He.
    destruct (state_change v (el_state el) expired_unconfirmed el) as [err el1]. simpl in He.
    destruct err; [done |]. simpl. destruct (en_log_expired v); [| destruct He; by split].
    pose proof (tally_of_root _ He) as []. by split.
Qed.
End env.

(** ** Publishing a block *)

(** The hash that gives way is of the root and is not the winner. *)
Lemma replaced_names v r el hash_a :
  env_ok v → of_root r el → election_inv el → replaced_block v el hash_a ≠ 0 →
  names r (replaced_block v el hash_a) ∧ replaced_block v el hash_a ≠ block_hash (es_winner (el_status el)).
Proof.
  intros Hv [Hb _ Ht] [Hk _]. unfold replaced_block. set (win := block_hash _).
  set (sorted := merge_sort by_weight _).
  assert (Hperm : sorted ≡ₚ map_to_list (el_last_tally el)).
  { unfold sorted. rewrite merge_sort_Permutation. apply Hv. }
  assert (Hin : ∀ x, x ∈ sorted → names r x.1).
  { intros [h t] Hx. rewrite Hperm in Hx. apply elem_of_map_to_list in Hx. by eapply Ht. }
  assert (Hnd : NoDup sorted.*1) by (rewrite Hperm; apply NoDup_fst_map_to_list).
  destruct (_ && _).
  - destruct (find _ _) as [[h c] |] eqn:Hf; [| done]. simpl. intros _.
    apply find_some in Hf as [Hf Hp]. apply list_elem_of_In in Hf. rewrite (Hv _ _) in Hf.
    apply elem_of_map_to_list in Hf. apply andb_prop in Hp as [_ Hp]. split; [| simpl in Hp; lia].
    destruct (Hb h c Hf). exists c. split_and!; [done | by apply Hk | done].
  - destruct sorted as [| x [| y l]]; [done.. |]. destruct (_ && _); [| done].
    destruct (x.1 =? win) eqn:Ex; simpl.
    + destruct (_ <? _); [| done]. intros _. split; [apply Hin; by right; left |].
      apply NoDup_cons in Hnd as [Hx _]. intros Hy. apply Hx, elem_of_cons. left. lia.
    + intros _. split; [apply Hin; by left | lia].
Qed.

(** What [publish] does to the blocks, and to the index through its calls. *)
Record publishes (r : Z * Z) (b : block) (res : bool) (w w' : world) (gone : option Z) : Prop := {
  pu_root : of_root r (wo_election w');
  pu_inv : election_inv (wo_election w');
  pu_blocks : ∀ h, is_Some (el_last_blocks (wo_election w') !! h) ↔
    is_Some (el_last_blocks (wo_election w) !! h) ∧ gone ≠ Some h ∨ res = false ∧ h = block_hash b;
  pu_actions : ∃ l, wo_actions w' = wo_actions w ++ l ∧ ∀ h, erase_hash h ∈ l ↔ gone = Some h;
  pu_gone : ∀ h, gone = Some h → names r h;
}.

Lemma remove_block_spec r h w :
  of_root r (wo_election w) → h ≠ block_hash (es_winner (el_status (wo_election w))) →
  of_root r (wo_election (remove_block h w)) ∧
  (∀ k, is_Some (el_last_blocks (wo_election (remove_block h w)) !! k) ↔
        is_Some (el_last_blocks (wo_election w) !! k) ∧ k ≠ h) ∧
  ∃ l, wo_actions (remove_block h w) = wo_actions w ++ l ∧ Forall keeps_index l.
Proof.
  intros [Hb Hvo Ht] Hne. unfold remove_block.
  replace (block_hash (es_winner (el_status (wo_election w))) =? h) with false by lia. simpl.
  destruct (el_last_blocks (wo_election w) !! h) as [c |] eqn:Hh; simpl.
  - split_and!.
    + split; simpl; [| | done].
      * intros k b' Hk. apply lookup_delete_Some in Hk as [_ Hk]. by eapply Hb.
      * intros rep i Hi. apply map_lookup_filter_Some in Hi as [Hi _]. by eapply Hvo.
    + intros k. rewrite lookup_delete_is_Some. naive_solver.
    + exists [publish_filter_clear c]. split; [done |]. by apply Forall_singleton.
  - split_and!; [done | | exists []; by rewrite app_nil_r].
    intros k. split; [| by intros [? _]]. intros Hk. split; [done |]. intros ->. rewrite Hh in Hk. by destruct Hk.
Qed.

(** The insertion of a block of the root. *)
Lemma publish_insert_spec r b w res w' :
  of_root r (wo_election w) → known b → qualified_root b = r → publish_insert b w = (res, w') →
  of_root r (wo_election w') ∧
  (∀ k, is_Some (el_last_blocks (wo_election w') !! k) ↔
        is_Some (el_last_blocks (wo_election w) !! k) ∨ res = false ∧ k = block_hash b) ∧
  ∃ l, wo_actions w' = wo_actions w ++ l ∧ Forall keeps_index l.
Proof.
  intros [Hb Hvo Ht] Hk Hr. unfold publish_insert.
  set (w1 := on_election _ w).
  assert (Ho : of_root r (wo_election w1)).
  { split; simpl; [| done | done]. intros h c. rewrite lookup_insert_Some. intros [[_ <-] | [_ ?]]; [done | by eapply Hb]. }
  assert (Hd : ∀ k, is_Some (el_last_blocks (wo_election w1) !! k) ↔ k = block_hash b ∨ is_Some (el_last_blocks (wo_election w) !! k)).
  { intros k. simpl. rewrite lookup_insert_is_Some'. naive_solver. }
  destruct (el_last_blocks (wo_election w) !! block_hash b) as [c |] eqn:Hn.
  - assert (Hd' : ∀ k, is_Some (el_last_blocks (wo_election w1) !! k) ↔
      is_Some (el_last_blocks (wo_election w) !! k) ∨ true = false ∧ k = block_hash b).
    { intros k. rewrite Hd. split; [intros [-> | ?]; left; [by exists c | done] | intros [? | [? _]]; auto]. done. }
    destruct (_ =? _); intros [= <- <-]; (split_and!; [| exact Hd' |]).
    + destruct Ho. by split.
    + exists [flood_block b]. split; [done |]. by apply Forall_singleton.
    + done.
    + exists []. by rewrite app_nil_r.
  - intros [= <- <-]. split_and!; [done | | exists []; by rewrite app_nil_r].
    intros k. rewrite Hd. naive_solver.
Qed.

Lemma no_erase l h : Forall keeps_index l → erase_hash h ∉ l.
Proof. rewrite Forall_forall. intros Hl Hh. by destruct (Hl _ Hh h). Qed.

Lemma publish_spec v r b w res w' :
  env_ok v → of_root r (wo_election w) → election_inv (wo_election w) → known b → qualified_root b = r →
  publish v b w = (res, w') → ∃ gone, publishes r b res w w' gone.
Proof.
  intros Hv Ho Hi Hk Hr Hp.
  assert (Hinv : election_inv (wo_election w')) by (pose proof (publish_inv v b w Hi) as Hx; by rewrite Hp in Hx).
  unfold publish, publish_room in Hp. destruct (negb _ && _ && _) eqn:Hroom.
  - unfold replace_by_weight in Hp. set (q := replaced_block v (wo_election w) (block_hash b)) in *.
    destruct (q =? 0) eqn:Eq; simpl in Hp.
    + injection Hp as <- <-. exists None. split; try done.
      * intros h. split; [intros ?; left; by split | intros [[? _] | [? _]]; done].
      * exists [publish_filter_clear b]. split; [done |]. intros h. rewrite list_elem_of_singleton. done.
    + destruct (replaced_names v r (wo_election w) (block_hash b) Hv Ho Hi) as [Hq Hqw]; [fold q; lia |].
      fold q in Hq, Hqw. apply andb_prop in Hroom as [[Hc _]%andb_prop Hnone%bool_decide_eq_true_1].
      apply negb_true_iff in Hc. rewrite Hc in Hp. set (w1 := act (erase_hash q) w) in *.
      destruct (remove_block_spec r q w1 Ho Hqw) as (Ho2 & Hd2 & l2 & Ha2 & Hl2).
      destruct (publish_insert_spec r b (remove_block q w1) res w' Ho2 Hk Hr Hp) as (Ho3 & Hd3 & l3 & Ha3 & Hl3).
      exists (Some q). split; [done | done | | | by intros h [= <-]].
      * intros h. rewrite Hd3, Hd2. change (el_last_blocks (wo_election w1)) with (el_last_blocks (wo_election w)).
        naive_solver.
      * exists (erase_hash q :: l2 ++ l3). rewrite Ha3, Ha2. simpl. rewrite <- !app_assoc. split; [done |].
        intros h. rewrite elem_of_cons, elem_of_app. pose proof (no_erase l2 h Hl2). pose proof (no_erase l3 h Hl3).
        naive_solver.
  - destruct (confirmed (wo_election w)) eqn:Hc.
    + injection Hp as <- <-. exists None. split; try done.
      * intros h. split; [intros ?; left; by split | intros [[? _] | [? _]]; done].
      * exists []. rewrite app_nil_r. split; [done |]. intros h. by rewrite elem_of_nil.
    + destruct (publish_insert_spec r b w res w' Ho Hk Hr Hp) as (Ho3 & Hd3 & l3 & Ha3 & Hl3).
      exists None. split; [done | done | | | done].
      * intros h. rewrite Hd3. naive_solver.
      * exists l3. split; [done |]. intros h. pose proof (no_erase l3 h Hl3). naive_solver.
Qed.

(** ** The container *)

Record active_inv (a : active_transactions) : Prop := {
  ai_next : ∀ id, is_Some (at_elections a !! id) → (id < at_next a)%nat;
  ai_roots : NoDup (ci_root <$> at_roots a);
  ai_elections : ∀ c, c ∈ at_roots a → ∃ el, at_elections a !! ci_election c = Some el ∧
    of_root (ci_root c) el ∧ election_inv el;
  ai_index : ∀ h id, at_blocks a !! h = Some id ↔
    ∃ c el, c ∈ at_roots a ∧ ci_election c = id ∧ at_elections a !! id = Some el ∧
            is_Some (el_last_blocks el !! h);
}.

(** The root determines the entry. *)
Lemma root_unique a c c' :
  active_inv a → c ∈ at_roots a → c' ∈ at_roots a → ci_root c = ci_root c' → c = c'.
Proof.
  intros Ha Hc Hc' Hr. apply list_elem_of_lookup in Hc as [i Hci], Hc' as [j Hcj]. assert (i = j) as ->; [| congruence].
  apply (NoDup_lookup (ci_root <$> at_roots a) i j (ci_root c)); [exact (ai_roots _ Ha) | |]; rewrite list_lookup_fmap;
    [rewrite Hci | rewrite Hcj]; simpl; congruence.
Qed.

(** A running election has one root. *)
Lemma election_root a c c' :
  active_inv a → c ∈ at_roots a → c' ∈ at_roots a → ci_election c = ci_election c' → c = c'.
Proof.
  intros Ha Hc Hc' He. destruct (ai_elections _ Ha c Hc) as (el & Hel & Ho & Hi).
  destruct (ai_elections _ Ha c' Hc') as (el' & Hel' & Ho' & _). rewrite He, Hel' in Hel. injection Hel as ->.
  pose proof (ei_winner _ Hi) as Hw. destruct (or_blocks _ _ Ho _ _ Hw) as [_ Hr], (or_blocks _ _ Ho' _ _ Hw) as [_ Hr'].
  apply (root_unique a); [done.. | congruence].
Qed.

(** A hash in the index is of the root of its election. *)
Lemma index_names a h id :
  active_inv a → at_blocks a !! h = Some id → ∃ c, c ∈ at_roots a ∧ ci_election c = id ∧ names (ci_root c) h.
Proof.
  intros Ha Hh. apply (ai_index _ Ha) in Hh as (c & el & Hc & He & Hel & b & Hb). exists c. split_and!; [done.. |].
  destruct (ai_elections _ Ha c Hc) as (el' & Hel' & Ho & Hi). rewrite He, Hel in Hel'. injection Hel' as <-.
  destruct (or_blocks _ _ Ho h b Hb). exists b. split_and!; [done | by apply (ei_keys _ Hi) | done].
Qed.

Lemma find_root_Some r l c : find_root r l = Some c → c ∈ l ∧ ci_root c = r.
Proof. intros [Hc Hr]%find_some. split; [by apply list_elem_of_In | by apply bool_decide_eq_true_1 in Hr]. Qed.

Lemma find_root_None r l : find_root r l = None → r ∉ ci_root <$> l.
Proof.
  intros Hn (c & -> & Hc)%list_elem_of_fmap. apply list_elem_of_In in Hc.
  pose proof (find_none _ _ Hn c Hc) as Hx. by apply bool_decide_eq_false_1 in Hx.
Qed.

(** A call that hands a hash to the confirmation height processor, now or later. *)
Definition confirms (c : active_call) : option Z :=
  match c with
  | call_confirm h => Some h
  | call_confirm_later s _ => Some (block_hash (es_winner s))
  | _ => None
  end.

(** A confirmed election of the table with this winner. *)
Definition confirmed_in (a : active_transactions) (h : Z) : Prop :=
  ∃ id el, at_elections a !! id = Some el ∧ confirmed el = true ∧ block_hash (es_winner (el_status el)) = h.

(** Elections stay in the table, confirmed ones with their winner; what is handed to the
    confirmation height processor is such a winner. *)
Record evolves (a a' : active_transactions) : Prop := {
  ev_elections : ∀ id el, at_elections a !! id = Some el → ∃ el', at_elections a' !! id = Some el' ∧
    (confirmed el = true → confirmed el' = true ∧ es_winner (el_status el') = es_winner (el_status el));
  ev_calls : ∀ c h, c ∈ at_calls a' → confirms c = Some h → c ∈ at_calls a ∨ confirmed_in a' h;
}.

Lemma evolves_refl a : evolves a a.
Proof. split; [intros id el Hel; by exists el | by left]. Qed.

Lemma confirmed_in_evolves a a' h : evolves a a' → confirmed_in a h → confirmed_in a' h.
Proof.
  intros Hev (id & el & Hel & Hc & <-). destruct (ev_elections _ _ Hev id el Hel) as (el' & Hel' & Hx).
  destruct (Hx Hc) as [Hc' Hw]. exists id, el'. by rewrite Hw.
Qed.

Lemma evolves_trans a1 a2 a3 : evolves a1 a2 → evolves a2 a3 → evolves a1 a3.
Proof.
  intros H12 H23. split.
  - intros id el Hel. destruct (ev_elections _ _ H12 id el Hel) as (el2 & Hel2 & Hx2).
    destruct (ev_elections _ _ H23 id el2 Hel2) as (el3 & Hel3 & Hx3). exists el3. split; [done |].
    intros Hc. destruct (Hx2 Hc) as [Hc2 Hw2]. destruct (Hx3 Hc2) as [Hc3 Hw3]. split; [done | congruence].
  - intros c h Hc Hh. destruct (ev_calls _ _ H23 c h Hc Hh) as [Hc2 | ?]; [| by right].
    destruct (ev_calls _ _ H12 c h Hc2 Hh) as [? | ?]; [by left | right; by eapply confirmed_in_evolves].
Qed.

(** The elections are the same and no hash is handed on. *)
Lemma evolves_same a a' :
  at_elections a' = at_elections a → (∀ c, c ∈ at_calls a' → c ∈ at_calls a ∨ confirms c = None) → evolves a a'.
Proof.
  intros He Hc. split; [rewrite He; intros id el Hel; by exists el |].
  intros c h Hin Hh. destruct (Hc c Hin) as [? | ?]; [by left | congruence].
Qed.

Section step.
Context (e : active_env) (He : env_ok (ae_election e)).

(** A hash that is handed on was announced by the election. *)
Lemma perform_calls l a c h :
  c ∈ at_calls (fold_left (perform e) l a) → confirms c = Some h →
  c ∈ at_calls a ∨ ∃ s, process_confirmed s ∈ l ∧ block_hash (es_winner s) = h.
Proof using.
  revert a. induction l as [| x l IH]; intros a; simpl; [by left |]. intros Hc Hh.
  destruct (IH _ Hc Hh) as [Hin | (s & Hs & Hw)]; [| right; exists s; split; [by right | done]].
  assert (Hcall : ∀ y, c ∈ at_calls (call y a) → c ∈ at_calls a ∨ c = y).
  { intros y. simpl. rewrite elem_of_app, list_elem_of_singleton. done. }
  destruct x; simpl in Hin; try (apply Hcall in Hin as [? | ->]; [by left | done]); [| by left].
  unfold node_process_confirmed in Hin. destruct (block_get _ _); simpl in Hin.
  - apply elem_of_app in Hin as [? | ->%list_elem_of_singleton]; [by left |]. injection Hh as <-. right. eexists. split; [by left | done].
  - destruct (_ <? _); simpl in Hin; [| by left].
    apply elem_of_app in Hin as [? | ->%list_elem_of_singleton]; [by left |]. injection Hh as <-. right. eexists. split; [by left | done].
Qed.

(** What carrying out the calls of an election leaves alone. *)
Lemma perform_fields l a :
  at_roots (fold_left (perform e) l a) = at_roots a ∧ at_elections (fold_left (perform e) l a) = at_elections a ∧
  at_next (fold_left (perform e) l a) = at_next a ∧ at_inactive (fold_left (perform e) l a) = at_inactive a ∧
  ∀ h id, at_blocks (fold_left (perform e) l a) !! h = Some id ↔ at_blocks a !! h = Some id ∧ erase_hash h ∉ l.
Proof using.
  revert a. induction l as [| x l IH]; intros a; simpl.
  - split_and!; try done. intros h id. rewrite elem_of_nil. tauto.
  - destruct (IH (perform e a x)) as (-> & -> & -> & -> & Hb).
    assert (Hx : at_roots (perform e a x) = at_roots a ∧ at_elections (perform e a x) = at_elections a ∧
      at_next (perform e a x) = at_next a ∧ at_inactive (perform e a x) = at_inactive a ∧
      ∀ h id, at_blocks (perform e a x) !! h = Some id ↔ at_blocks a !! h = Some id ∧ erase_hash h ≠ x).
    { assert (Hsame : ∀ a', at_roots a' = at_roots a → at_elections a' = at_elections a → at_next a' = at_next a →
        at_inactive a' = at_inactive a → at_blocks a' = at_blocks a → keeps_index x →
        at_roots a' = at_roots a ∧ at_elections a' = at_elections a ∧ at_next a' = at_next a ∧
        at_inactive a' = at_inactive a ∧
        ∀ h id, at_blocks a' !! h = Some id ↔ at_blocks a !! h = Some id ∧ erase_hash h ≠ x).
      { intros a' ? ? ? ? -> Hk. split_and!; try done. intros h id. split; [| by intros [? _]].
        intros ?. split; [done |]. intros Hx. by destruct (Hk h). }
      destruct x; simpl; try (by apply Hsame).
      - unfold node_process_confirmed. destruct (block_get _ _); [by apply Hsame |].
        destruct (_ <? _); by apply Hsame.
      - split_and!; try done. intros h id. rewrite lookup_delete_Some. split.
        + intros [Hne ?]. split; [done |]. by intros [= ->].
        + intros [? Hne]. split; [| done]. intros ->. done. }
    destruct Hx as (-> & -> & -> & -> & Hx). split_and!; try done.
    intros h id. rewrite Hb, Hx, not_elem_of_cons. tauto.
Qed.

Lemma on_world_inv {A} id (op : env → world → outcome (A * world)) a x a' :
  on_world e id op a = Ok (x, a') →
  ∃ el w, at_elections a !! id = Some el ∧
    op (election_env e a) (World el (dom (at_winner_details a)) []) = Ok (x, w) ∧
    at_roots a' = at_roots a ∧ at_next a' = at_next a ∧ at_inactive a' = at_inactive a ∧
    at_elections a' = <[id := wo_election w]> (at_elections a) ∧
    (∀ h i, at_blocks a' !! h = Some i ↔ at_blocks a !! h = Some i ∧ erase_hash h ∉ wo_actions w) ∧
    ∀ c h, c ∈ at_calls a' → confirms c = Some h →
      c ∈ at_calls a ∨ ∃ s, process_confirmed s ∈ wo_actions w ∧ block_hash (es_winner s) = h.
Proof using.
  unfold on_world. destruct (at_elections a !! id) as [el |]; [| done]. cbn [of_option mbind outcome_bind].
  destruct (op _ _) as [[y w] |] eqn:Eop; [| done]. cbn [mbind outcome_bind fst snd]. intros [= <- <-]. exists el, w.
  split_and!; [done | exact Eop | ..]; match goal with |- context [fold_left (perform e) ?l ?a0] =>
    destruct (perform_fields l a0) as (Hr & Hel & Hn & Hi & Hb); pose proof (perform_calls l a0) as Hc end; try done.
Qed.

(** A step of an election in the table. *)
Lemma on_world_evolves {A} id (op : env → world → outcome (A * world)) a x a' el y w :
  at_elections a !! id = Some el →
  op (election_env e a) (World el (dom (at_winner_details a)) []) = Ok (y, w) →
  election_step (World el (dom (at_winner_details a)) []) w →
  on_world e id op a = Ok (x, a') → evolves a a'.
Proof using.
  intros Hel Ho Hst Hw. apply on_world_inv in Hw as (el0 & w0 & Hel0 & Ho0 & _ & _ & _ & Hes & _ & Hc).
  rewrite Hel in Hel0. injection Hel0 as <-. rewrite Ho in Ho0. injection Ho0 as -> <-.
  pose proof (election_step_ok _ _ Hst) as [_ Hf Ha]. simpl in Hf. split.
  - intros id' el' Hel'. rewrite Hes. destruct (decide (id' = id)) as [-> | Hne].
    + exists (wo_election w). rewrite lookup_insert_eq. split; [done |]. rewrite Hel in Hel'. injection Hel' as <-.
      intros Hcf. by destruct (Hf Hcf) as (? & _ & ?).
    + exists el'. by rewrite lookup_insert_ne.
  - intros c h Hin Hh. destruct (Hc c h Hin Hh) as [? | (s & Hs & <-)]; [by left | right].
    assert (Hs' : s ∈ announcements w) by (apply list_elem_of_omap; by exists (process_confirmed s)).
    destruct Ha as [Ha | (s0 & Ha & Hcf & Hwin)]; rewrite Ha in Hs'; [by apply elem_of_nil in Hs' |].
    apply list_elem_of_singleton in Hs' as ->. exists id, (wo_election w). rewrite Hes, lookup_insert_eq.
    split_and!; [done | done | by rewrite Hwin].
Qed.

(** The roots and the cache are as they were. *)
Definition kept (a a' : active_transactions) : Prop :=
  active_inv a' ∧ at_roots a' = at_roots a ∧ at_inactive a' = at_inactive a ∧ evolves a a'.

(** One election changes, and the index with it. *)
Lemma update_inv a a' c el :
  active_inv a → c ∈ at_roots a → at_roots a' = at_roots a → at_next a' = at_next a →
  at_elections a' = <[ci_election c := el]> (at_elections a) → of_root (ci_root c) el → election_inv el →
  (∀ h id, at_blocks a' !! h = Some id ↔
     id ≠ ci_election c ∧ at_blocks a !! h = Some id ∨ id = ci_election c ∧ is_Some (el_last_blocks el !! h)) →
  active_inv a'.
Proof using.
  intros Ha Hc Hr Hn Hes Hroot Hinv Hb. split.
  - intros id. rewrite Hes, Hn, lookup_insert_is_Some'. intros [<- | ?]; apply (ai_next _ Ha); [| done].
    destruct (ai_elections _ Ha c Hc) as (el0 & ? & _). by exists el0.
  - rewrite Hr. apply Ha.
  - rewrite Hr, Hes. intros c' Hc'. destruct (decide (ci_election c' = ci_election c)) as [Heq | Hne].
    + pose proof (election_root a c' c Ha Hc' Hc Heq) as ->. exists el. by rewrite lookup_insert_eq.
    + rewrite lookup_insert_ne by done. by apply Ha.
  - intros h id. rewrite Hb, Hr, Hes, (ai_index _ Ha). split.
    + intros [[Hne (c' & el' & Hc' & <- & Hel' & Hh)] | [-> Hh]].
      * exists c', el'. by rewrite lookup_insert_ne by done.
      * exists c, el. by rewrite lookup_insert_eq.
    + intros (c' & el' & Hc' & <- & Hel' & Hh). destruct (decide (ci_election c' = ci_election c)) as [Heq | Hne].
      * right. rewrite Heq, lookup_insert_eq in Hel'. injection Hel' as <-. done.
      * left. rewrite lookup_insert_ne in Hel' by done. split; [done |]. by exists c', el'.
Qed.

(** The index holds the blocks of a running election. *)
Lemma index_of a c el h :
  active_inv a → c ∈ at_roots a → at_elections a !! ci_election c = Some el →
  at_blocks a !! h = Some (ci_election c) ↔ is_Some (el_last_blocks el !! h).
Proof using.
  intros Ha Hc Hel. rewrite (ai_index _ Ha). split; [intros (? & ? & _ & _ & ? & ?); congruence |].
  intros ?. by exists c, el.
Qed.

(** An operation that keeps the blocks keeps the invariant. *)
Lemma on_world_plain_at {A} c (op : env → world → outcome (A * world)) a x a' :
  active_inv a → c ∈ at_roots a →
  (∀ el y w', at_elections a !! ci_election c = Some el →
     let w := World el (dom (at_winner_details a)) [] in
     op (election_env e a) w = Ok (y, w') → plain_op (ci_root c) w w' ∧ election_step w w') →
  on_world e (ci_election c) op a = Ok (x, a') → kept a a'.
Proof using.
  intros Ha Hc Hop Hw. pose proof Hw as Hw'.
  apply on_world_inv in Hw as (el & w & Hel & Ho & Hr & Hn & Hin & Hes & Hb & _).
  destruct (ai_elections _ Ha c Hc) as (el0 & Hel0 & Hroot & Hinv). rewrite Hel in Hel0. injection Hel0 as <-.
  destruct (Hop _ _ _ Hel Ho) as [[Hbl Hpr (l & Hal & Hl)] Hst].
  assert (Hev : evolves a a') by (by apply (on_world_evolves _ _ _ _ _ el x w Hel Ho Hst Hw')).
  pose proof (so_inv _ _ (election_step_ok _ _ Hst)) as Hpi.
  simpl in *. subst l. unfold kept. split_and!; [| done..].
  apply (update_inv a a' c (wo_election w)); auto. intros h id. rewrite Hb, Hbl.
  pose proof (no_erase _ h Hl) as Hne. destruct (decide (id = ci_election c)) as [-> | Hneq].
  - rewrite (index_of a c el h Ha Hc Hel). naive_solver.
  - naive_solver.
Qed.

Lemma on_world_plain {A} c (op : env → world → outcome (A * world)) a x a' :
  active_inv a → c ∈ at_roots a →
  (∀ w y w', op (election_env e a) w = Ok (y, w') → plain_op (ci_root c) w w' ∧ election_step w w') →
  on_world e (ci_election c) op a = Ok (x, a') → kept a a'.
Proof using. intros Ha Hc Hop. apply on_world_plain_at; [done.. |]. intros el y w' _. apply Hop. Qed.

Lemma election_env_ok a : env_ok (election_env e a).
Proof using He. exact He. Qed.

(** Operations of elections in this form. *)
Lemma quietly_plain r op v :
  (∀ w w', op v w = Ok w' → plain_op r w w' ∧ election_step w w') →
  ∀ w y w', quietly op v w = Ok (y, w') → plain_op r w w' ∧ election_step w w'.
Proof using. intros Hop w y w'. unfold quietly. destruct (op v w) as [w1 |] eqn:E; [| done]. intros [= _ <-]. by apply Hop. Qed.

Lemma cache_world c a cache x a' :
  active_inv a → c ∈ at_roots a → (ic_voters cache = [] ∨ names (ci_root c) (ic_hash cache)) →
  on_world e (ci_election c) (quietly (λ v, insert_inactive_votes_cache v (ae_min_time e) (ic_hash cache)
    (ic_voters cache))) a = Ok (x, a') → kept a a'.
Proof using He.
  intros Ha Hc Hn. apply on_world_plain; [done.. |]. apply quietly_plain. intros w w' Hw. split.
  - eapply (plain_insert_cache (election_env e a) (election_env_ok a)); done.
  - by eapply step_cache.
Qed.

Lemma generate_world c a x a' :
  active_inv a → c ∈ at_roots a → on_world e (ci_election c) (quietly generate_votes) a = Ok (x, a') → kept a a'.
Proof using He.
  intros Ha Hc. apply on_world_plain; [done.. |]. apply quietly_plain. intros w w' Hw. split.
  - eapply (plain_generate_votes (election_env e a) (election_env_ok a)); done.
  - by eapply step_generate.
Qed.

Lemma same_inv a a' :
  at_roots a' = at_roots a → at_elections a' = at_elections a → at_next a' = at_next a → at_blocks a' = at_blocks a →
  active_inv a → active_inv a'.
Proof using. intros Hr He' Hn Hb [H1 H2 H3 H4]. split; rewrite ?Hr, ?He', ?Hn, ?Hb; done. Qed.

Lemma found_cache b a :
  known b → ic_voters (find_inactive_votes_cache (block_hash b) a) = [] ∨
  names (qualified_root b) (ic_hash (find_inactive_votes_cache (block_hash b) a)).
Proof using.
  intros Hk. unfold find_inactive_votes_cache, cache_find. destruct (find _ _) as [i |] eqn:Hf; [right | by left].
  apply find_some in Hf as [_ Hh]. exists b. split_and!; [done | simpl in *; lia | done].
Qed.

(** The container after an insertion. *)
Record grows (a a' : active_transactions) : Prop := {
  gr_inv : active_inv a';
  gr_roots : ∃ l, at_roots a' = at_roots a ++ l;
  gr_evolves : evolves a a';
}.

Lemma grows_same a a' : active_inv a' → at_roots a' = at_roots a → evolves a a' → grows a a'.
Proof using. intros Ha Hr Hev. split; [done | | done]. exists []. by rewrite app_nil_r. Qed.

Lemma grows_refl a : active_inv a → grows a a.
Proof using. intros Ha. apply grows_same; [done | done | apply evolves_refl]. Qed.

Lemma grows_kept a a' : kept a a' → grows a a'.
Proof using. intros (? & ? & _ & ?). by apply grows_same. Qed.

Lemma grows_trans a1 a2 a3 : grows a1 a2 → grows a2 a3 → grows a1 a3.
Proof using.
  intros [_ (l & H1) Hev1] [Ha (l' & H2) Hev2]. split; [done | | by eapply evolves_trans].
  exists (l ++ l'). by rewrite H2, H1, app_assoc.
Qed.

Lemma grows_elem a a' c : grows a a' → c ∈ at_roots a → c ∈ at_roots a'.
Proof using. intros [_ (l & ->) _] Hc. apply elem_of_app. by left. Qed.

(** A call that hands nothing on. *)
Lemma grows_call a c : confirms c = None → active_inv a → grows a (call c a).
Proof using.
  intros Hc Ha. apply grows_same; [by apply (same_inv a) | done |]. apply evolves_same; [done |].
  intros c'. simpl. rewrite elem_of_app, list_elem_of_singleton. intros [? | ->]; [by left | by right].
Qed.

Lemma grows_inactive a l : active_inv a → grows a (set_inactive l a).
Proof using. intros Ha. apply grows_same; [by apply (same_inv a) | done |]. apply evolves_same; [done | by left]. Qed.

Lemma new_election_spec b sb p beh a :
  active_inv a → known b → find_root (qualified_root b) (at_roots a) = None →
  active_inv (new_election e b sb p beh a) ∧
  ∃ c, at_roots (new_election e b sb p beh a) = at_roots a ++ [c] ∧ ci_election c = at_next a ∧
    ci_root c = qualified_root b.
Proof using Hknown.
  intros Ha Hk Hnone. unfold new_election. set (w := election_new _ _ _ _).
  set (c := ConflictInfo _ _ _ _).
  set (a1 := bump_next _). destruct (perform_fields (wo_actions w) a1) as (Hr & Hes & Hn & _ & Hb).
  set (a2 := fold_left (perform e) (wo_actions w) a1) in *. set (a3 := set_roots _ a2).
  assert (Hfresh : at_elections a !! at_next a = None).
  { destruct (at_elections a !! at_next a) eqn:Hx; [| done]. pose proof (ai_next _ Ha (at_next a) (mk_is_Some _ _ Hx)). lia. }
  assert (Hold : at_blocks a !! block_hash b = None).
  { destruct (at_blocks a !! block_hash b) as [id |] eqn:Hx; [| done].
    destruct (index_names a _ _ Ha Hx) as (c' & Hc' & _ & Hnm). exfalso. apply (find_root_None _ _ Hnone), list_elem_of_fmap.
    exists c'. split; [| done]. eapply names_unique; [| exact Hnm]. by exists b. }
  assert (Hacts : ∀ h, erase_hash h ∉ wo_actions w).
  { intros h. unfold w, election_new. simpl. destruct (en_voting _); simpl; [rewrite list_elem_of_singleton | rewrite elem_of_nil]; [done | tauto]. }
  assert (Hb3 : ∀ h id, at_blocks a3 !! h = Some id ↔ at_blocks a !! h = Some id).
  { intros h id. change (at_blocks a3) with (at_blocks a2). rewrite Hb. pose proof (Hacts h). change (at_blocks a1) with (at_blocks a). tauto. }
  assert (Hn3 : at_blocks a3 !! block_hash b = None).
  { destruct (at_blocks a3 !! block_hash b) as [id |] eqn:Hx; [| done]. apply Hb3 in Hx. congruence. }
  rewrite Hn3. set (a4 := set_at_blocks _ a3).
  assert (Hr4 : at_roots a4 = at_roots a ++ [c]) by (unfold a4, a3; simpl; by rewrite Hr).
  assert (He4 : at_elections a4 = <[at_next a := wo_election w]> (at_elections a)) by (unfold a4, a3; simpl; by rewrite Hes).
  assert (Hn4 : at_next a4 = S (at_next a)) by (unfold a4, a3; simpl; by rewrite Hn).
  split; [| by exists c].
  assert (Hlt : ∀ c', c' ∈ at_roots a → ci_election c' ≠ at_next a).
  { intros c' Hc' Hid. destruct (ai_elections _ Ha c' Hc') as (el' & Hel' & _). congruence. }
  assert (Hbw : ∀ h, is_Some (el_last_blocks (wo_election w) !! h) ↔ h = block_hash b).
  { intros h. unfold w, election_new. simpl. rewrite lookup_singleton_is_Some. naive_solver. }
  split.
  - intros id. rewrite He4, Hn4, lookup_insert_is_Some'. intros [<- | Hx]; [lia |]. pose proof (ai_next _ Ha id Hx). lia.
  - rewrite Hr4, fmap_app. apply NoDup_app. split_and!; [apply Ha | | apply NoDup_singleton].
    intros r Hin. simpl. rewrite list_elem_of_singleton. intros ->. by apply (find_root_None _ _ Hnone).
  - rewrite Hr4, He4. intros c' [Hc' | ->%list_elem_of_singleton]%elem_of_app.
    + destruct (ai_elections _ Ha c' Hc') as (el' & Hel' & Ho & Hi). exists el'. rewrite lookup_insert_ne; [done |].
      symmetry. by apply Hlt.
    + exists (wo_election w). simpl. rewrite lookup_insert_eq. split_and!; [done | | apply election_new_lifecycle].
      split; simpl.
      * intros h b'. rewrite lookup_singleton_Some. by intros [_ <-].
      * intros rep i. rewrite lookup_singleton_Some. intros [_ <-]. simpl. by exists b.
      * intros h t. by rewrite lookup_empty.
  - intros h id. rewrite Hr4, He4. unfold a4. simpl. rewrite lookup_insert_Some. setoid_rewrite elem_of_app. split.
    + intros [[<- <-] | [Hne Hx%Hb3]].
      * exists c, (wo_election w). rewrite lookup_insert_eq. split_and!; [right; by left | done | done | by apply Hbw].
      * apply (ai_index _ Ha) in Hx as (c' & el' & Hc' & <- & Hel' & Hh). exists c', el'.
        split_and!; [by left | done | | done]. rewrite lookup_insert_ne; [done |]. symmetry. by apply Hlt.
    + intros (c' & el' & [Hc' | ->%list_elem_of_singleton] & <- & Hel' & Hh).
      * rewrite lookup_insert_ne in Hel' by (symmetry; by apply Hlt). right.
        assert (Hx : at_blocks a !! h = Some (ci_election c')) by (apply (ai_index _ Ha); by exists c', el').
        split; [| by apply Hb3]. congruence.
      * simpl in Hel'. rewrite lookup_insert_eq in Hel'. injection Hel' as <-. apply Hbw in Hh as ->. by left.
Qed.

Lemma new_election_evolves b sb p beh a : active_inv a → evolves a (new_election e b sb p beh a).
Proof using.
  intros Ha. unfold new_election. set (w := election_new _ _ _ _). set (a1 := bump_next _).
  destruct (perform_fields (wo_actions w) a1) as (_ & Hes & _). pose proof (perform_calls (wo_actions w) a1) as Hc.
  set (a2 := fold_left (perform e) (wo_actions w) a1) in *. set (a3 := set_roots _ a2).
  assert (Hev : evolves a a3).
  { split.
    - intros id el Hel. exists el. unfold a3. simpl. rewrite Hes. unfold a1. simpl. split; [| done].
      rewrite lookup_insert_ne; [done |]. pose proof (ai_next _ Ha id (mk_is_Some _ _ Hel)). lia.
    - intros c h Hin Hh. left. destruct (Hc c h Hin Hh) as [? | (s & Hs & _)]; [done |]. exfalso. revert Hs.
      unfold w, election_new. simpl. destruct (en_voting _); simpl; [rewrite list_elem_of_singleton | rewrite elem_of_nil]; done. }
  destruct (at_blocks a3 !! block_hash b); [done |]. eapply evolves_trans; [exact Hev |]. by apply evolves_same; [| left].
Qed.

Lemma insert_impl_grows b sb p beh a id ins a' :
  active_inv a → known b → insert_impl e b sb p beh a = Ok (id, ins, a') →
  grows a a' ∧ at_inactive a' = at_inactive a ∧
  ∀ i, id = Some i → ∃ c, c ∈ at_roots a' ∧ ci_election c = i ∧ ci_root c = qualified_root b.
Proof using He Hknown.
  intros Ha Hk. unfold insert_impl. intros ([[id1 ins1] a1] & H1 & H2)%bind_Ok.
  assert (Hg : grows a a1 ∧ at_inactive a1 = at_inactive a ∧ ∀ i, id1 = Some i → ∃ c, c ∈ at_roots a1 ∧ ci_election c = i ∧ ci_root c = qualified_root b).
  { destruct (find_root _ _) as [c |] eqn:Hf.
    - injection H1 as <- <- <-. split_and!; [by apply grows_refl | done |]. intros i [= <-].
      apply find_root_Some in Hf as [? ?]. eauto.
    - destruct (recent_root _ _); [injection H1 as <- <- <-; split_and!; [by apply grows_refl | done..] |].
      apply bind_Ok in H1 as (pb & _ & H1).
      destruct (new_election_spec b sb pb beh a Ha Hk Hf) as (Ha1 & c & Hr1 & Hid & Hroot).
      pose proof (new_election_evolves b sb pb beh a Ha) as Hev1.
      assert (Hin1 : at_inactive (new_election e b sb pb beh a) = at_inactive a).
      { unfold new_election. match goal with |- context [fold_left (perform e) ?l ?a0] =>
          destruct (perform_fields l a0) as (_ & _ & _ & Hi & _); set (a9 := fold_left (perform e) l a0) in * end.
        destruct (at_blocks _ !! _); done. }
      set (a2 := new_election e b sb pb beh a) in *. cbv zeta in H1.
      apply bind_Ok in H1 as ([u a3] & H3 & [= <- <- <-]).
      assert (Hc : c ∈ at_roots a2) by (rewrite Hr1; apply elem_of_app; right; by left).
      rewrite <- Hid in H3.
      destruct (cache_world c a2 (find_inactive_votes_cache (block_hash b) a2) u a3 Ha1 Hc) as (Ha3 & Hr3 & Hi3 & Hev3);
        [rewrite Hroot; by apply found_cache | done |].
      split_and!.
      + eapply grows_trans; [| by apply grows_call]. split; [done | | by eapply evolves_trans].
        exists [c]. by rewrite Hr3, Hr1.
      + simpl. congruence.
      + intros i [= <-]. exists c. simpl. rewrite Hr3. done. }
  destruct Hg as (Hg & Hi1 & Hid). simpl in H2. destruct id1 as [i |]; [| by injection H2 as <- <- <-].
  destruct (Hid i eq_refl) as (c & Hc & <- & Hroot).
  apply bind_Ok in H2 as ([u a2] & H2 & [= <- <- <-]).
  pose proof (generate_world c a1 u a2 (gr_inv _ _ Hg) Hc H2) as Hk2. destruct (Hk2) as (_ & Hr2 & Hi2 & _). split_and!.
  - eapply grows_trans; [exact Hg | by apply grows_kept].
  - simpl. congruence.
  - intros i [= <-]. exists c. simpl. by rewrite Hr2.
Qed.

(** The blocks of the ledger occur. *)
Context (HL : ∀ h x, block_get (lg_store (ae_ledger e)) h = Some x → known x.1).

Lemma bootstrap_check_grows tally n h prev a s a' :
  active_inv a → inactive_votes_bootstrap_check e tally n h prev a = Ok (s, a') → grows a a'.
Proof using He Hknown HL.
  intros Ha. unfold inactive_votes_bootstrap_check. set (st := InactiveCacheStatus _ _ _ _).
  assert (Hsame : Ok (st, a) = Ok (s, a') → grows a a') by (intros [= _ <-]; by apply grows_refl).
  match goal with |- (if ?c then _ else _) = _ → _ => destruct c end; [| exact Hsame].
  destruct (block_get (lg_store (ae_ledger e)) h) as [[b sb] |] eqn:Hb;
    (match goal with |- (if ?c then _ else _) = _ → _ => destruct c end; [| exact Hsame]).
  - intros ([[id ins] a1] & H1 & [= _ <-])%bind_Ok.
    by destruct (insert_impl_grows b sb None normal a id ins a1 Ha (HL _ _ Hb) H1) as (Hg & _ & _).
  - intros [= _ <-]. by apply grows_call.
Qed.

Lemma update_status_grows h old s a : active_inv a → grows a (update_status h old s a).
Proof using.
  intros Ha. unfold update_status. destruct (cache_status_neq _ _); [by apply grows_inactive | by apply grows_refl].
Qed.

Lemma add_inactive_grows h rep ts a a' :
  active_inv a → add_inactive_votes_cache e h rep ts a = Ok a' → grows a a'.
Proof using He Hknown HL.
  intros Ha. unfold add_inactive_votes_cache.
  destruct (_ <? _); [| intros [= <-]; by apply grows_refl].
  destruct (cache_find h (at_inactive a)) as [i |].
  - destruct (_ && _); [| intros [= <-]; by apply grows_refl].
    intros ([s a1] & H1 & [= <-])%bind_Ok.
    match type of H1 with context [set_inactive ?l a] => pose proof (grows_inactive a l Ha) as Hg0 end.
    pose proof (bootstrap_check_grows _ _ _ _ _ _ _ (gr_inv _ _ Hg0) H1) as Hg1.
    eapply grows_trans; [exact Hg0 |]. eapply grows_trans; [exact Hg1 |]. apply update_status_grows, Hg1.
  - intros ([s a1] & H1 & [= <-])%bind_Ok.
    match type of H1 with context [set_inactive ?l a] => pose proof (grows_inactive a l Ha) as Hg0 end.
    pose proof (bootstrap_check_grows _ _ _ _ _ _ _ (gr_inv _ _ Hg0) H1) as Hg1.
    pose proof (update_status_grows h default_cache_status s a1 (gr_inv _ _ Hg1)) as Hg2. cbn [fst snd].
    set (a2 := update_status h default_cache_status s a1) in *. cbv zeta.
    assert (Hg : grows a a2) by (eapply grows_trans; [exact Hg0 | by eapply grows_trans]).
    destruct (_ <? _)%nat; [| done]. eapply grows_trans; [exact Hg | apply grows_inactive, Hg].
Qed.

(** ** Votes *)

(** The elections a vote is for are running, and are for these hashes. *)
Definition routed (a : active_transactions) (x : nat * Z) : Prop :=
  ∃ c, c ∈ at_roots a ∧ ci_election c = x.1 ∧ names (ci_root c) x.2.

Lemma routed_grows a a' x : grows a a' → routed a x → routed a' x.
Proof using. intros Hg (c & Hc & ?). exists c. split; [by eapply grows_elem | done]. Qed.

Lemma route_items_grows v items a l n a' :
  active_inv a → (∀ b, vote_block b ∈ items → known b) → route_items e v items a = Ok (l, n, a') →
  grows a a' ∧ Forall (routed a') l.
Proof using He Hknown HL.
  revert a l n a'. induction items as [| i items IH]; intros a l n a' Ha Hk; simpl.
  { intros [= <- <- <-]. split; [by apply grows_refl | constructor]. }
  assert (Hk' : ∀ b, vote_block b ∈ items → known b) by (intros b Hb; apply Hk; by right).
  destruct (match i with vote_block b => _ | vote_block_hash h => _ end) as [id |] eqn:Ei.
  - intros ([[l1 n1] a1] & H1 & [= <- <- <-])%bind_Ok. destruct (IH _ _ _ _ Ha Hk' H1) as [Hg Hl].
    split; [done |]. constructor; [| done]. apply (routed_grows a); [done |]. destruct i as [b | h]; simpl in *.
    + destruct (find_root _ _) as [c |] eqn:Hf; [| done]. injection Ei as <-. apply find_root_Some in Hf as [Hc Hr].
      exists c. split_and!; [done.. |]. exists b. split_and!; [apply Hk; by left | done..].
    + destruct (index_names a h id Ha Ei) as (c & ? & ? & ?). by exists c.
  - destruct (recent_hash _ _).
    + intros ([[l1 n1] a1] & H1 & [= <- <- <-])%bind_Ok. by apply (IH _ _ _ _ Ha Hk' H1).
    + intros (a1 & H1 & H2)%bind_Ok. pose proof (add_inactive_grows _ _ _ _ _ Ha H1) as Hg.
      destruct (IH _ _ _ _ (gr_inv _ _ Hg) Hk' H2) as [Hg' Hl]. split; [by eapply grows_trans | done].
Qed.

Lemma vote_world c v h a x a' :
  active_inv a → c ∈ at_roots a → names (ci_root c) h →
  on_world e (ci_election c) (λ w y, r ← election_vote w (vt_account v) (vote_timestamp v) h y; Ok (r.1, r.2)) a = Ok (x, a') → kept a a'.
Proof using He.
  intros Ha Hc Hn. apply on_world_plain; [done.. |]. intros w y w' Hw. apply bind_Ok in Hw as ([[r p] w1] & Hw & [= <- <-]).
  split.
  - eapply (plain_election_vote (election_env e a) (election_env_ok a)); done.
  - by eapply step_vote.
Qed.

Lemma vote_elections_kept v l a r p a' :
  active_inv a → Forall (routed a) l → vote_elections e v l a = Ok (r, p, a') → grows a a'.
Proof using He.
  revert a r p a'. induction l as [| [id h] l IH]; intros a r p a' Ha Hl; simpl.
  { intros [= <- <- <-]. by apply grows_refl. }
  apply Forall_cons in Hl as [(c & Hc & Hid & Hn) Hl]. simpl in Hid, Hn. subst id.
  intros ([[r1 p1] a1] & H1 & H2)%bind_Ok. pose proof (grows_kept _ _ (vote_world c v h a _ a1 Ha Hc Hn H1)) as Hg.
  simpl in H2. apply bind_Ok in H2 as ([[r2 p2] a2] & H2 & [= <- <- <-]).
  eapply grows_trans; [exact Hg |]. apply (IH a1 r2 p2 a2 (gr_inv _ _ Hg)); [| done].
  eapply Forall_impl; [exact Hl |]. intros x. by apply routed_grows.
Qed.

Lemma active_vote_grows v a code a' :
  active_inv a → (∀ b, vote_block b ∈ vt_blocks v → known b) → active_vote e v a = Ok (code, a') → grows a a'.
Proof using He Hknown HL.
  intros Ha Hk. unfold active_vote. intros ([[l n] a1] & H1 & H2)%bind_Ok.
  destruct (route_items_grows v _ a l n a1 Ha Hk H1) as [Hg Hl]. simpl in H2. case_bool_decide.
  - apply bind_Ok in H2 as ([[r p] a2] & H2 & [= _ <-]).
    pose proof (vote_elections_kept v l a1 r p a2 (gr_inv _ _ Hg) Hl H2) as Hg2.
    eapply grows_trans; [exact Hg |]. destruct (_ && _); [| done].
    eapply grows_trans; [exact Hg2 |]. apply grows_call; [done | apply Hg2].
  - injection H2 as _ <-. done.
Qed.

(** ** Removal *)

Lemma erase_fold_fields (l : list (Z * block)) a :
  let a' := fold_left (λ a x, erase_inactive_votes_cache x.1 (active_erase_hash x.1 a)) l a in
  at_roots a' = at_roots a ∧ at_elections a' = at_elections a ∧ at_next a' = at_next a ∧ at_calls a' = at_calls a ∧
  (∀ h id, at_blocks a' !! h = Some id ↔ at_blocks a !! h = Some id ∧ h ∉ l.*1) ∧
  (∀ i, i ∈ at_inactive a' ↔ i ∈ at_inactive a ∧ ic_hash i ∉ l.*1).
Proof using.
  revert a. induction l as [| x l IH]; intros a; simpl.
  - split_and!; try done; intros; rewrite elem_of_nil; tauto.
  - destruct (IH (erase_inactive_votes_cache x.1 (active_erase_hash x.1 a))) as (-> & -> & -> & -> & Hb & Hi).
    split_and!; try done.
    + intros h id. rewrite Hb. simpl. rewrite lookup_delete_Some, not_elem_of_cons. naive_solver.
    + intros i. rewrite Hi. simpl. unfold cache_erase. rewrite list_elem_of_filter, not_elem_of_cons. tauto.
Qed.

Lemma stop_fold_fields el (l : list (Z * block)) a :
  let a' := fold_left (λ a (x : Z * block),
    let a := if negb (confirmed el) || negb (x.1 =? block_hash (es_winner (el_status el)))
             then call (call_active_stopped x.1) a else a in
    if negb (confirmed el) then call (call_publish_filter_clear x.2) a else a) l a in
  at_roots a' = at_roots a ∧ at_elections a' = at_elections a ∧ at_next a' = at_next a ∧
  at_blocks a' = at_blocks a ∧ at_inactive a' = at_inactive a ∧
  ∀ c, c ∈ at_calls a' → c ∈ at_calls a ∨ confirms c = None.
Proof using.
  cbv zeta. revert a. induction l as [| x l IH]; intros a; [split_and!; try done; by left |].
  cbn [fold_left]. match goal with |- context [fold_left _ l ?a0] => destruct (IH a0) as (-> & -> & -> & -> & -> & Hc) end.
  destruct (negb (confirmed el)); simpl in *; [| destruct (negb _); simpl in *]; (split_and!; try done);
    intros c [Hin | ?]%Hc; try (by right); rewrite !elem_of_app, !list_elem_of_singleton in Hin;
    naive_solver.
Qed.

(** What is left after the removal of an election. *)
Lemma cleanup_spec c a :
  active_inv a → c ∈ at_roots a → ∃ el, at_elections a !! ci_election c = Some el ∧
  let a' := cleanup_conflict e c a in
  active_inv a' ∧ evolves a a' ∧ (∀ d, d ∈ at_roots a' ↔ d ∈ at_roots a ∧ d ≠ c) ∧
  (∀ h id, at_blocks a' !! h = Some id ↔ at_blocks a !! h = Some id ∧ id ≠ ci_election c) ∧
  (∀ i, i ∈ at_inactive a' ↔ i ∈ at_inactive a ∧ el_last_blocks el !! ic_hash i = None).
Proof using He.
  intros Ha Hc. destruct (ai_elections _ Ha c Hc) as (el & Hel & Ho & Hi). exists el. split; [done |].
  unfold cleanup_conflict. rewrite Hel. unfold cleanup_election. set (bl := en_order _ _ _).
  assert (Hbl : ∀ h, h ∈ bl.*1 ↔ is_Some (el_last_blocks el !! h)).
  { intros h. unfold bl. assert (Hp := He block (map_to_list (el_last_blocks el))). rewrite Hp. rewrite list_elem_of_fmap. split.
    - intros ([h' b] & -> & Hx). exists b. by apply elem_of_map_to_list.
    - intros [b Hx]. exists (h, b). split; [done |]. by apply elem_of_map_to_list. }
  destruct (erase_fold_fields bl a) as (Hr1 & He1 & Hn1 & Hc1 & Hb1 & Hi1). set (a1 := fold_left _ bl a) in *.
  set (a2 := set_roots _ a1). destruct (stop_fold_fields el bl (call call_vacancy_update a2)) as (Hr3 & He3 & Hn3 & Hb3 & Hi3 & Hc3).
  set (a3 := fold_left _ bl (call call_vacancy_update a2)) in *. cbv zeta.
  assert (Hroots : ∀ d, d ∈ at_roots a3 ↔ d ∈ at_roots a ∧ d ≠ c).
  { intros d. rewrite Hr3. unfold a2. simpl. rewrite list_elem_of_filter, Hr1. split.
    - intros [Hne Hd]. split; [done |]. by intros ->.
    - intros [Hd Hne]. split; [| done]. intros Heq. apply Hne. by apply (root_unique a). }
  assert (Hblocks : ∀ h id, at_blocks a3 !! h = Some id ↔ at_blocks a !! h = Some id ∧ id ≠ ci_election c).
  { intros h id. rewrite Hb3. change (at_blocks (call call_vacancy_update a2)) with (at_blocks a1). rewrite Hb1, Hbl. split.
    - intros [Hh Hn]. split; [done |]. intros ->. apply (ai_index _ Ha) in Hh as (c' & el' & _ & Hid & Hel' & Hb).
      congruence.
    - intros [Hh Hne]. split; [done |]. intros [b Hb]. apply Hne.
      assert (Hx : at_blocks a !! h = Some (ci_election c)) by (apply (ai_index _ Ha); exists c, el; split_and!; [done.. | by exists b]).
      congruence. }
  split_and!; [| | done | done |].
  - split.
    + intros id. rewrite He3, Hn3. unfold a2. simpl. rewrite He1, Hn1. apply Ha.
    + rewrite Hr3. unfold a2. simpl. rewrite Hr1. eapply sublist_NoDup; [apply Ha |]. apply fmap_sublist, sublist_filter.
    + intros d [Hd _]%Hroots. rewrite He3. unfold a2. simpl. rewrite He1. by apply Ha.
    + intros h id. rewrite Hblocks, (ai_index _ Ha), He3. unfold a2. simpl. rewrite He1. setoid_rewrite Hroots. split.
      * intros [(d & el' & Hd & Hid & Hel' & Hh) Hne]. exists d, el'. split_and!; [done | | done..]. intros ->. done.
      * intros (d & el' & [Hd Hne] & Hid & Hel' & Hh). split; [by exists d, el' |]. intros ->. apply Hne.
        by apply (election_root a).
  - apply evolves_same; [rewrite He3; unfold a2; simpl; done |]. intros d [Hd | ?]%Hc3; [| by right].
    unfold a2 in Hd. simpl in Hd. rewrite Hc1 in Hd. apply elem_of_app in Hd as [? | ->%list_elem_of_singleton]; [by left | by right].
  - intros i. rewrite Hi3. change (at_inactive (call call_vacancy_update a2)) with (at_inactive a1). rewrite Hi1, Hbl.
    rewrite eq_None_not_Some. done.
Qed.
End step.
End active.
