(* ===== verification/ElectionScheduler.v ===== *)
(** * The election scheduler ([node/election_scheduler.hpp], [node/election_scheduler.cpp])

    Blocks wait for an election in a queue that is served in order, and in the
    prioritised queue.  One round of the loop removes the oldest election when there are
    too many, or starts one election.  The callback of the container for a cemented block
    is here too, since it activates the blocks that follow. *)

From S2P Require Import Prelude Blocks Common Store Ledger Rollback LedgerQueries Election Prioritization.
From S2P Require Import ActiveTransactions.

(** ** State *)

(** An item of [manual_queue], without its confirmation action, which no caller of the
    node gives. *)
Record manual_item := ManualItem {
  mi_block : block;
  mi_sideband : option block_sideband;
  mi_previous_balance : option Z;
  mi_behavior : election_behavior;
}.

Record election_scheduler := ElectionScheduler {
  sc_priority : prioritization;
  sc_manual : list manual_item;
}.

Definition with_priority (p : prioritization) (s : election_scheduler) : election_scheduler :=
  ElectionScheduler p (sc_manual s).
Definition with_manual (l : list manual_item) (s : election_scheduler) : election_scheduler :=
  ElectionScheduler (sc_priority s) l.

Section scheduler.
Context `{Crypto} (constants : ledger_constants).

(** ** Operations *)

(** [manual]. *)
Definition scheduler_manual (i : manual_item) (s : election_scheduler) : election_scheduler :=
  with_manual (sc_manual s ++ [i]) s.

(** The block above the cemented ones of an account, when there is one. *)
Definition first_unconfirmed (L : ledger) (account_a : Z) : outcome (option (account_info * block_w_sideband)) :=
  match account_get (lg_store L) account_a with
  | None => Ok None
  | Some info =>
      let conf := confirmation_height_get (lg_store L) account_a in
      if ch_height conf <? ai_block_count info then
        let hash := if ch_height conf =? 0 then ai_open_block info
                    else block_successor (lg_store L) (ch_frontier conf) in
        b ← of_option (block_get (lg_store L) hash);
        Ok (Some (info, b))
      else Ok None
  end.

(** [activate]. *)
Definition scheduler_activate (L : ledger) (account_a : Z) (s : election_scheduler) : outcome election_scheduler :=
  next ← first_unconfirmed L account_a;
  match next with
  | None => Ok s
  | Some (info, (b, sb)) =>
      confirmed ← dependents_confirmed constants L (b, Some sb);
      if (confirmed : bool) then
        p ← push (sc_priority s) (ai_modified info) b (Some sb); Ok (with_priority p s)
      else Ok s
  end.

(** [size], [empty]. *)
Definition scheduler_size (s : election_scheduler) : nat :=
  (prioritization_size (sc_priority s) + length (sc_manual s))%nat.
Definition scheduler_empty (s : election_scheduler) : bool :=
  prioritization_empty (sc_priority s) && bool_decide (sc_manual s = []).

Section round.
Context (e : active_env).

(** [priority_queue_predicate], [manual_queue_predicate], [overfill_predicate]. *)
Definition priority_queue_predicate (s : election_scheduler) (a : active_transactions) : bool :=
  (0 <? vacancy e a) && negb (prioritization_empty (sc_priority s)).
Definition manual_queue_predicate (s : election_scheduler) : bool := bool_decide (sc_manual s ≠ []).
Definition overfill_predicate (a : active_transactions) : bool := vacancy e a <? 0.

(** [transition_active] of the election that was started. *)
Definition activate_election (id : nat) (a : active_transactions) : outcome active_transactions :=
  r ← on_world e id (quietly (λ v w, Ok (on_election (transition_active v) w))) a; Ok r.2.

(** One round of [run], in a state in which the wait is over. *)
Definition scheduler_round (x : election_scheduler * active_transactions) :
    outcome (election_scheduler * active_transactions) :=
  let '(s, a) := x in
  if overfill_predicate a then Ok (s, erase_oldest e a)
  else
    match sc_manual s with
    | i :: rest =>
        sb ← of_option (mi_sideband i);
        r ← insert_impl e (mi_block i) sb (mi_previous_balance i) (mi_behavior i) a;
        Ok (with_manual rest s, r.2)
    | [] =>
        if priority_queue_predicate s a then
          v ← of_option (top (sc_priority s));
          p ← pop (sc_priority s);
          sb ← of_option (va_sideband v);
          r ← insert_impl e (va_block v) sb None normal a;
          let '(election, _, a) := r in
          a ← match election with Some id => activate_election id a | None => Ok a end;
          Ok (with_priority p s, a)
        else Ok (s, a)
    end.

(** The condition of the wait. *)
Definition scheduler_ready (s : election_scheduler) (a : active_transactions) : bool :=
  priority_queue_predicate s a || manual_queue_predicate s || overfill_predicate a.

(** The loop of [run] until it waits. *)
Fixpoint scheduler_run (fuel : nat) (x : election_scheduler * active_transactions) :
    run_result (election_scheduler * active_transactions) :=
  match fuel with
  | O => OutOfFuel
  | S fuel =>
      if scheduler_ready x.1 x.2 then
        match scheduler_round x with Ok y => scheduler_run fuel y | Aborted => Crashed end
      else Done x
  end.

(** ** Cemented blocks *)

(** [node::process_confirmed_data]. *)
Definition process_confirmed_data (x : block_w_sideband) (hash_a : Z) : outcome confirmed_data :=
  let b := x.1 in
  previous_balance_safe ← balance_safe (ae_ledger e) (previous b);
  let previous_balance := default 0 previous_balance_safe in
  let block_balance := balance_calculated x in
  let amount :=
    if negb (hash_a =? account (lk_genesis constants)) then
      match previous_balance_safe with
      | Some _ => if previous_balance <? block_balance then block_balance - previous_balance
                  else previous_balance - block_balance
      | None => 0
      end
    else genesis_amount in
  Ok (ConfirmedData (account_calculated x) amount
    (match b with state_block h _ _ => state_balance h <? previous_balance | _ => false end)
    (match b with state_block h _ _ => (amount =? 0) && is_epoch_link constants (state_link h) | _ => false end)
    (match b with state_block h _ _ => state_link h | send_block h _ _ => send_destination h | _ => 0 end)).

(** The election of a winner that is cemented: its status is recorded, and the
    observers are told. *)
Definition cement_election (id : nat) (x : block_w_sideband) (type : election_status_type)
    (a : active_transactions) : outcome active_transactions :=
  let b := x.1 in
  let hash := block_hash b in
  el ← of_option (at_elections a !! id);
  if confirmed el && (block_hash (es_winner (el_status el)) =? hash) then
    let a := add_recently_cemented e (el_status el) a in
    let a := call (call_receive_confirmed hash (if link b =? 0 then destination b else link b)) a in
    d ← process_confirmed_data x hash;
    r ← on_world e id (quietly (λ _ w, Ok (on_election (cemented_status type) w))) a;
    el ← of_option (at_elections r.2 !! id);
    let a := call (call_notify_blocks (el_status el) d) r.2 in
    if 0 <? pd_amount d then
      let a := call (call_notify_balance (pd_account d) false) a in
      Ok (if negb (pd_pending_account d =? 0) then call (call_notify_balance (pd_pending_account d) true) a else a)
    else Ok a
  else Ok a.

(** The status of a block that was cemented without election. *)
Definition inactive_status (b : block) : election_status :=
  ElectionStatus b 0 0 (en_system_now (ae_election e)) 0 0 1 0 inactive_confirmation_height.

(** The observers of a cemented block. *)
Definition cement_notify (x : block_w_sideband) (type : election_status_type) (a : active_transactions) :
    outcome active_transactions :=
  let hash := block_hash x.1 in
  match type with
  | inactive_confirmation_height =>
      d ← process_confirmed_data x hash; Ok (call (call_notify_blocks (inactive_status x.1) d) a)
  | _ =>
      match at_winner_details a !! hash with
      | Some id => cement_election id x type (remove_election_winner_details hash a)
      | None => Ok a
      end
  end.

Definition was_active (type : election_status_type) : bool :=
  match type with active_confirmed_quorum | active_confirmation_height => true | _ => false end.

(** The switch to final votes. *)
Definition cement_canary (x : block_w_sideband) (L : ledger) : ledger :=
  if negb (lc_final_votes_canary (lg_cache L)) && (account_calculated x =? lk_canary_account constants)
     && (lk_canary_height constants <=? sb_height x.2)
  then with_cache (let c := lg_cache L in
         LedgerCache (lc_rep_weights c) (lc_cemented_count c) (lc_block_count c) (lc_pruned_count c)
           (lc_account_count c) true) L
  else L.

(** The blocks that follow in the account and in the destination. *)
Definition cement_activate (bootstrap_weight_max_blocks : Z) (x : block_w_sideband) (type : election_status_type)
    (s : election_scheduler) : outcome election_scheduler :=
  let L := ae_ledger e in
  let account := account_calculated x in
  if (bootstrap_weight_max_blocks <=? lc_cemented_count (lg_cache L)) && was_active type then
    s ← scheduler_activate L account s;
    destination ← block_destination L (x.1, Some x.2);
    if negb (destination =? 0) && negb (destination =? account) then scheduler_activate L destination s else Ok s
  else Ok s.

(** [block_cemented_callback]; the ledger is returned for its switch. *)
Definition block_cemented_callback (bootstrap_weight_max_blocks : Z) (x : block_w_sideband)
    (y : election_scheduler * active_transactions) : outcome (election_scheduler * active_transactions * ledger) :=
  let '(s, a) := y in
  r ← (if negb (ae_processing_added e (block_hash x.1)) then confirm_block e (block_hash x.1) a
       else Ok (Some active_confirmed_quorum, a));
  match r.1 with
  | Some type =>
      a ← cement_notify x type r.2;
      s ← cement_activate bootstrap_weight_max_blocks x type s;
      Ok (s, a, cement_canary x (ae_ledger e))
  | None => Ok (s, r.2, ae_ledger e)
  end.

(** [block_already_cemented_callback]. *)
Definition block_already_cemented_callback (hash_a : Z) (a : active_transactions) : active_transactions :=
  remove_election_winner_details hash_a a.
End round.

(** ** The backlog *)

(** The accounts from a number on, in the order of the table. *)
Definition accounts_from (s : store) (first : Z) : list Z :=
  merge_sort Z.le (filter (λ k, first <= k) (map_to_list (st_accounts s)).*1).

(** A chunk of [node::populate_backlog]: the accounts from [next] on, and where to go
    on. *)
Definition backlog_chunk : nat := Z.to_nat 65536.

Definition backlog_step (L : ledger) (next_a : Z) (s : election_scheduler) : outcome (Z * election_scheduler) :=
  fold_left (λ o x, r ← o; s ← scheduler_activate L x r.2; Ok (wrap256 (x + 1), s))
    (take backlog_chunk (accounts_from (lg_store L) next_a)) (Ok (next_a, s)).

(** [populate_backlog]; each chunk has a transaction of its own. *)
Fixpoint populate_backlog (views : list ledger) (next_a : Z) (s : election_scheduler) : outcome (bool * election_scheduler) :=
  match views with
  | [] => Ok (false, s)
  | L :: views =>
      r ← backlog_step L next_a s;
      if bool_decide (accounts_from (lg_store L) r.1 = []) then Ok (true, r.2)
      else populate_backlog views r.1 r.2
  end.
End scheduler.
