(* ===== verification/ActiveRuns.v ===== *)
(** * Runs of the container of elections

    The operations that change the container, with the scheduler's, as the steps of a
    machine; each has its own view of the ledger, the clocks and the weights.  The
    theorems hold in every state it reaches. *)

From S2P Require Import Prelude Blocks Common Vote Store Ledger LedgerQueries Election ElectionTheorems.
From S2P Require Import Prioritization ActiveTransactions ActiveTheorems ElectionScheduler.

Section runs.
Context `{Crypto}.
Context (known : block → Prop).
Context (Hknown : ∀ b b', known b → known b' → block_hash b = block_hash b' → qualified_root b = qualified_root b').

Abbreviation active_inv := (active_inv known).
Abbreviation kept := (kept known).
Abbreviation grows := (grows known).

Section step.
Context (e : active_env) (He : env_ok (ae_election e)).

(** ** A block for a running election *)

(** The index after the election took the block. *)
Definition publish_index (b : block) (c : conflict_info) (res : bool) (a : active_transactions) :
    active_transactions :=
  if res then a else publish_emplace b (ci_election c) a.

Lemma publish_index_fields b c res a :
  at_roots (publish_index b c res a) = at_roots a ∧ at_elections (publish_index b c res a) = at_elections a ∧
  at_next (publish_index b c res a) = at_next a ∧ at_inactive (publish_index b c res a) = at_inactive a ∧
  at_calls (publish_index b c res a) = at_calls a.
Proof using. unfold publish_index, publish_emplace. destruct res; [done |]. by destruct (at_blocks a !! _). Qed.

(** A hash of the root of an election is in the index for this election only. *)
Lemma index_root a c h id :
  active_inv a → c ∈ at_roots a → names known (ci_root c) h → at_blocks a !! h = Some id → id = ci_election c.
Proof using Hknown.
  intros Ha Hc Hn Hh. destruct (index_names known a h id Ha Hh) as (c' & Hc' & <- & Hn').
  pose proof (names_unique known Hknown _ _ _ Hn' Hn) as Hr. by rewrite (root_unique known a c' c Ha Hc' Hc Hr).
Qed.

Lemma publish_index_lookup b c res a gone a' :
  active_inv a → c ∈ at_roots a → names known (ci_root c) (block_hash b) →
  (∀ h id, at_blocks a' !! h = Some id ↔ at_blocks a !! h = Some id ∧ gone ≠ Some h) →
  ∀ h id, at_blocks (publish_index b c res a') !! h = Some id ↔
    at_blocks a !! h = Some id ∧ gone ≠ Some h ∨ res = false ∧ h = block_hash b ∧ id = ci_election c.
Proof using Hknown.
  intros Ha Hc Hn Hb h id. unfold publish_index, publish_emplace. destruct res; [rewrite Hb; naive_solver |].
  destruct (at_blocks a' !! block_hash b) as [id' |] eqn:Hx; simpl.
  - pose proof (proj1 (Hb _ _) Hx) as [Hx1 _]. pose proof (index_root a c _ _ Ha Hc Hn Hx1) as ->.
    rewrite <- Hb. split; [by left |]. intros [? | (_ & -> & ->)]; done.
  - rewrite lookup_insert_Some, Hb. split; [naive_solver |]. intros [[Hh Hg] | (_ & -> & ->)]; [| by left].
    destruct (decide (block_hash b = h)) as [<- | ?]; [| by right]. exfalso.
    assert (at_blocks a' !! block_hash b = Some id) by (by apply Hb). congruence.
Qed.

Lemma publish_kept b c a res a' :
  active_inv a → c ∈ at_roots a → known b → qualified_root b = ci_root c →
  on_world e (ci_election c) (λ v w, Ok (publish v b w)) a = Ok (res, a') → kept a (publish_index b c res a').
Proof using He Hknown.
  intros Ha Hc Hk Hr Hw.
  pose proof Hw as Hw'. apply on_world_inv in Hw as (el & w & Hel & Ho & Hro & Hn & Hin & Hes & Hb & _).
  destruct (ai_elections _ _ Ha c Hc) as (el0 & Hel0 & Hroot & Hinv). rewrite Hel in Hel0. injection Hel0 as <-.
  assert (Hev : evolves a a').
  { apply (on_world_evolves e (ci_election c) (λ v w, Ok (publish v b w)) a res a' el res w Hel Ho); [| exact Hw']. injection Ho as Ho.
    pose proof (step_publish (election_env e a) b (World el (dom (at_winner_details a)) [])) as Hs. by rewrite Ho in Hs. }
  injection Ho as Ho. destruct (publish_spec known (election_env e a) (ci_root c) b (World el (dom (at_winner_details a)) []) res w He Hroot Hinv Hk Hr Ho)
    as (gone & [Hpr Hpi Hpb (l & Hal & Hl) Hpg]). simpl in Hal, Hpb. subst l.
  assert (Hb2 := publish_index_lookup b c res a gone a' Ha Hc (ex_intro _ b (conj Hk (conj eq_refl Hr)))).
  destruct (publish_index_fields b c res a') as (Fr & Fe & Fn & Fi & Fc).
  split_and!; [| congruence.. | eapply evolves_trans; [exact Hev |]; apply evolves_same; [done |]; rewrite Fc; by left].
  apply (update_inv known a _ c (wo_election w)); [done | done | congruence.. | done | done |].
  intros h id. rewrite Hb2, Hpb, <- (index_of known a c el h Ha Hc Hel) by (intros; rewrite Hb, Hl; tauto).
  split.
  - intros [[Hh Hg] | (-> & -> & ->)]; [| by right; split; [done | right]].
    destruct (decide (id = ci_election c)) as [-> | ?]; [right; split; [done | by left] | by left].
  - intros [[Hne Hh] | [-> [[Hh Hg] | [-> ->]]]]; [| by left | by right].
    left. split; [done |]. intros Hg. apply Hne, (index_root a c h); [done.. | by apply Hpg | done].
Qed.

Lemma active_publish_grows b a res a' :
  active_inv a → known b → active_publish e b a = Ok (res, a') → grows a a'.
Proof using He Hknown.
  intros Ha Hk. unfold active_publish. destruct (find_root _ _) as [c |] eqn:Hf; [| intros [= _ <-]; by apply grows_refl].
  apply find_root_Some in Hf as [Hc Hr]. intros ([r1 a1] & H1 & H2)%bind_Ok.
  pose proof (publish_kept b c a r1 a1 Ha Hc Hk (eq_sym Hr) H1) as Hk1. simpl in H2.
  destruct r1; simpl in H2; [injection H2 as _ <-; by apply grows_kept |]. cbn [publish_index] in Hk1.
  apply bind_Ok in H2 as (a2 & H2 & [= _ <-]). apply bind_Ok in H2 as ([u a3] & H2 & [= <-]).
  eapply grows_trans; [by apply grows_kept |]. destruct Hk1 as (Ha1 & Hr1 & _).
  apply grows_kept. eapply (cache_world known e He c); [done | by rewrite Hr1 | | exact H2].
  rewrite Hr. by apply found_cache.
Qed.
(** ** The other operations *)

(** What every step does. *)
Definition sound (a a' : active_transactions) : Prop := active_inv a' ∧ evolves a a'.

Lemma grows_sound a a' : grows a a' → sound a a'.
Proof using. intros [? _ ?]. done. Qed.

Lemma sound_refl a : active_inv a → sound a a.
Proof using. intros ?. split; [done | apply evolves_refl]. Qed.

Lemma sound_trans a1 a2 a3 : sound a1 a2 → sound a2 a3 → sound a1 a3.
Proof using. intros [_ H12] [? H23]. split; [done | by eapply evolves_trans]. Qed.

(** The containers beside the elections are free to change. *)
Lemma sound_same a a' :
  at_roots a' = at_roots a → at_elections a' = at_elections a → at_next a' = at_next a → at_blocks a' = at_blocks a →
  (∀ c, c ∈ at_calls a' → c ∈ at_calls a ∨ confirms c = None) → active_inv a → sound a a'.
Proof using. intros ? ? ? ? ? ?. split; [by apply (same_inv known a) | by apply evolves_same]. Qed.

Lemma confirm_block_sound h a t a' : active_inv a → confirm_block e h a = Ok (t, a') → sound a a'.
Proof using.
  intros Ha. unfold confirm_block. destruct (at_blocks a !! h) as [id |] eqn:Hh; [| intros [= _ <-]; by apply sound_refl].
  destruct (index_names known a h id Ha Hh) as (c & Hc & <- & _).
  intros (el & Hel & H1)%bind_Ok. destruct (_ =? _); [| injection H1 as _ <-; by apply sound_refl].
  destruct (confirmed el) eqn:Hcf; simpl in H1; [injection H1 as _ <-; by apply sound_refl |].
  apply bind_Ok in H1 as ([u a1] & H1 & [= _ <-]). simpl.
  apply grows_sound, grows_kept. eapply on_world_plain_at; [done.. | | exact H1].
  intros el' y w' Hel'. destruct (at_elections a !! ci_election c) as [el0 |]; [| done]. simpl in Hel. simplify_eq.
  unfold quietly. simpl. intros [= _ <-]. split; [apply plain_confirm_once | by apply step_confirm].
Qed.

Lemma active_erase_sound r a : active_inv a → sound a (active_erase e r a).
Proof using He.
  intros Ha. unfold active_erase. destruct (find_root r (at_roots a)) as [c |] eqn:Hf; [| by apply sound_refl].
  apply find_root_Some in Hf as [Hc _]. by destruct (cleanup_spec known e He c a Ha Hc) as (el & _ & ? & ? & _).
Qed.

Lemma erase_oldest_sound a : active_inv a → sound a (erase_oldest e a).
Proof using He.
  intros Ha. unfold erase_oldest. destruct (at_roots a) as [| c l] eqn:Hr; [by apply sound_refl |].
  assert (Hc : c ∈ at_roots a) by (rewrite Hr; by left).
  by destruct (cleanup_spec known e He c a Ha Hc) as (el & _ & ? & ? & _).
Qed.

(** An operation without calls on one election. *)
Lemma quiet_world c op a u a' :
  active_inv a → c ∈ at_roots a →
  (∀ w, plain_op known (ci_root c) w (op (election_env e a) w) ∧ election_step w (op (election_env e a) w)) →
  on_world e (ci_election c) (quietly (λ v w, Ok (op v w))) a = Ok (u, a') → kept a a'.
Proof using.
  intros Ha Hc Hop. apply on_world_plain; [done.. |]. intros w y w'. unfold quietly. simpl. intros [= _ <-]. apply Hop.
Qed.

Lemma activate_election_kept c a a' :
  active_inv a → c ∈ at_roots a → activate_election e (ci_election c) a = Ok a' → kept a a'.
Proof using.
  intros Ha Hc. unfold activate_election. intros ([u a1] & H1 & [= <-])%bind_Ok.
  apply (quiet_world c (λ v w, on_election (transition_active v) w) a u a1 Ha Hc); [| exact H1].
  intros w. split; [| apply step_active]. apply plain_on; [by destruct (transition_active_timed (election_env e a) (wo_election w)) |].
  unfold transition_active, state_change. intros Ho. destruct (valid_change _ _); [| done]. case_bool_decide; [| done].
  destruct Ho. by split.
Qed.

Lemma cemented_kept c type a u a' :
  active_inv a → c ∈ at_roots a →
  on_world e (ci_election c) (quietly (λ _ w, Ok (on_election (cemented_status type) w))) a = Ok (u, a') → kept a a'.
Proof using.
  intros Ha Hc. apply (quiet_world c (λ _ w, on_election (cemented_status type) w) a u a' Ha Hc).
  intros w. split; [| apply step_cemented]. apply plain_on; [done |]. intros []. by split.
Qed.

(** ** The request loop *)

Lemma fold_aborted {A} (f : active_transactions → A → outcome active_transactions) l :
  fold_left (λ o x, a ← o; f a x) l Aborted = Aborted.
Proof using. by induction l. Qed.

Lemma request_confirm_one_sound b1 b2 c a a' :
  active_inv a → c ∈ at_roots a → request_confirm_one e b1 b2 (ci_election c) c a = Ok a' →
  sound a a' ∧ ∀ d, d ∈ at_roots a → d ≠ c → d ∈ at_roots a'.
Proof using He.
  intros Ha Hc. unfold request_confirm_one. intros ([r a1] & H1 & [= <-])%bind_Ok.
  assert (Hk : kept a a1).
  { eapply on_world_plain; [exact Ha | exact Hc | | exact H1]. simpl. intros w y w' [= _ <-]. split.
    - by apply plain_transition_time.
    - apply (step_time (election_env e a) b1 b2 w). }
  destruct Hk as (Ha1 & Hr1 & _ & Hev1). simpl. destruct r.
  - unfold active_erase. destruct (find_root (ci_root c) (at_roots a1)) as [c' |] eqn:Hf.
    + apply find_root_Some in Hf as [Hc' Hrr]. rewrite Hr1 in Hc'. pose proof (root_unique known a c' c Ha Hc' Hc Hrr) as ->.
      rewrite <- Hr1 in Hc. destruct (cleanup_spec known e He c a1 Ha1 Hc) as (el & _ & Ha2 & Hev2 & Hroots & _).
      split; [split; [done | by eapply evolves_trans] |]. intros d Hd Hne. apply Hroots. by rewrite Hr1.
    + split; [done |]. intros d Hd _. by rewrite Hr1.
  - split; [done |]. intros d Hd _. by rewrite Hr1.
Qed.

Lemma request_confirm_sound solicitor a a' :
  active_inv a → request_confirm e solicitor a = Ok a' → sound a a'.
Proof using He.
  unfold request_confirm. intros Ha.
  assert (Hgen : ∀ l a0 a1, active_inv a0 → NoDup l → (∀ c, c ∈ l → c ∈ at_roots a0) →
    fold_left (λ o c, a ← o; let '(b, r) := solicitor (ci_election c) in request_confirm_one e b r (ci_election c) c a)
      l (Ok a0) = Ok a1 → sound a0 a1).
  { induction l as [| c l IH]; intros a0 a1 Ha0 Hnd Hl; cbn [fold_left]; [intros [= <-]; by apply sound_refl |].
    apply NoDup_cons in Hnd as [Hcl Hnd]. cbn [mbind outcome_bind]. destruct (solicitor (ci_election c)) as [b1 b2].
    destruct (request_confirm_one e b1 b2 (ci_election c) c a0) as [a2 |] eqn:H1; [| by rewrite fold_aborted].
    destruct (request_confirm_one_sound b1 b2 c a0 a2 Ha0) as [Hs Hd]; [apply Hl; by left | done |].
    intros H2. eapply sound_trans; [exact Hs |]. apply (IH a2 a1 (proj1 Hs) Hnd); [| done].
    intros d Hin. apply Hd; [apply Hl; by right |]. by intros ->. }
  apply Hgen; [done | | done]. eapply NoDup_fmap_1, (ai_roots _ _ Ha).
Qed.
(** ** Cemented blocks *)

(** An election that runs no more is no part of the index. *)
Lemma idle_inv a a' id el :
  active_inv a → (∀ c, c ∈ at_roots a → ci_election c ≠ id) → is_Some (at_elections a !! id) →
  at_roots a' = at_roots a → at_next a' = at_next a → at_elections a' = <[id := el]> (at_elections a) →
  (∀ h i, at_blocks a' !! h = Some i ↔ at_blocks a !! h = Some i) → active_inv a'.
Proof using.
  intros Ha Hid Hsome Hr Hn Hes Hb. split.
  - intros i. rewrite Hes, Hn, lookup_insert_is_Some'. intros [<- | ?]; by apply (ai_next _ _ Ha).
  - rewrite Hr. apply Ha.
  - rewrite Hr, Hes. intros c Hc. rewrite lookup_insert_ne by (symmetry; by apply Hid). by apply Ha.
  - intros h i. rewrite Hb, (ai_index _ _ Ha), Hr, Hes. split; intros (c & el' & Hc & <- & Hel & Hh); exists c, el';
      [rewrite lookup_insert_ne by (symmetry; by apply Hid) | rewrite lookup_insert_ne in Hel by (symmetry; by apply Hid)]; done.
Qed.

(** The new status, wherever the election is. *)
Lemma cemented_sound id type a u a' :
  active_inv a → on_world e id (quietly (λ _ w, Ok (on_election (cemented_status type) w))) a = Ok (u, a') → sound a a'.
Proof using.
  intros Ha Hw. destruct (decide (Exists (λ c, ci_election c = id) (at_roots a))) as [Hin | Hout].
  - apply Exists_exists in Hin as (c & Hc & <-). apply grows_sound, grows_kept. by eapply cemented_kept.
  - pose proof Hw as Hw'. apply on_world_inv in Hw as (el & w & Hel & Ho & Hr & Hn & _ & Hes & Hb & _).
    pose proof Ho as Ho'. unfold quietly in Ho. simpl in Ho. injection Ho as _ <-. split.
    + eapply (idle_inv a a' id); [done | | by exists el | done | done | exact Hes |].
      * intros c Hc Hid. apply Hout, Exists_exists. by exists c.
      * intros h i. rewrite Hb. simpl. rewrite elem_of_nil. tauto.
    + eapply (on_world_evolves e id _ a u a' el u _ Hel Ho'); [apply step_cemented | exact Hw'].
Qed.

Lemma sound_call c a : confirms c = None → active_inv a → sound a (call c a).
Proof using. intros Hc Ha. by apply grows_sound, grows_call. Qed.

Context (constants : ledger_constants).

Lemma cement_election_sound id x type a a' :
  active_inv a → cement_election constants e id x type a = Ok a' → sound a a'.
Proof using.
  intros Ha. unfold cement_election. intros (el & _ & H1)%bind_Ok.
  destruct (_ && _); [| injection H1 as <-; by apply sound_refl]. cbv zeta in H1.
  match type of H1 with context [call ?c (add_recently_cemented e ?s a)] => set (a1 := call c (add_recently_cemented e s a)) in * end.
  assert (Hs1 : sound a a1).
  { apply (sound_trans _ (add_recently_cemented e (el_status el) a)); [by apply sound_same; [.. | left |] |].
    apply sound_call; [done | by apply (same_inv known a)]. }
  apply bind_Ok in H1 as (d & _ & H1). apply bind_Ok in H1 as ([u a2] & H2 & H1).
  pose proof (cemented_sound id type a1 u a2 (proj1 Hs1) H2) as Hs2.
  apply bind_Ok in H1 as (el' & _ & H1). simpl in H1.
  set (a3 := call _ a2) in H1. assert (Hs3 : sound a a3).
  { eapply sound_trans; [exact Hs1 |]. eapply sound_trans; [exact Hs2 |]. by apply sound_call; [| apply Hs2]. }
  destruct (0 <? pd_amount d); [| injection H1 as <-; done]. injection H1 as <-.
  eapply sound_trans; [exact Hs3 |].
  pose proof (sound_call (call_notify_balance (pd_account d) false) a3 eq_refl (proj1 Hs3)) as Hs4.
  destruct (negb _); [| done]. eapply sound_trans; [exact Hs4 |]. by apply sound_call; [| apply Hs4].
Qed.

Lemma block_cemented_sound n x s a s' a' L :
  active_inv a → block_cemented_callback constants e n x (s, a) = Ok (s', a', L) → sound a a'.
Proof using.
  intros Ha. unfold block_cemented_callback. intros ([t a1] & H1 & H2)%bind_Ok.
  assert (Hs1 : sound a a1).
  { destruct (negb _); [by eapply confirm_block_sound | injection H1 as _ <-; by apply sound_refl]. }
  simpl in H2. destruct t as [type |]; [| injection H2 as _ <- _; done].
  apply bind_Ok in H2 as (a2 & H2 & H3). apply bind_Ok in H3 as (s2 & _ & [= _ <- _]).
  eapply sound_trans; [exact Hs1 |].
  assert (Hwin : match at_winner_details a1 !! block_hash x.1 with
    | Some id => cement_election constants e id x type (remove_election_winner_details (block_hash x.1) a1)
    | None => Ok a1 end = Ok a2 → sound a1 a2).
  { destruct (at_winner_details a1 !! _) as [id |]; [| intros [= <-]; apply sound_refl, Hs1].
    intros Hc. eapply (sound_trans _ (remove_election_winner_details (block_hash x.1) a1)).
    - apply sound_same; try done; [by left | apply Hs1].
    - eapply cement_election_sound; [| exact Hc]. by apply (same_inv known a1); [.. | apply Hs1]. }
  unfold cement_notify in H2. destruct type; try (by apply Hwin).
  apply bind_Ok in H2 as (d & _ & [= <-]). apply sound_call; [done | apply Hs1].
Qed.
(** ** Rounds of the scheduler *)

Lemma insert_sound b sb p beh a r a' :
  active_inv a → known b → insert_impl e b sb p beh a = Ok (r, a') → sound a a'.
Proof using He Hknown.
  intros Ha Hk. destruct r as [id ins]. intros Hi.
  destruct (insert_impl_grows known Hknown e He b sb p beh a id ins a' Ha Hk Hi) as (Hg & _). by apply grows_sound.
Qed.

Lemma round_sound s a s' a' :
  active_inv a → (∀ i, i ∈ sc_manual s → known (mi_block i)) →
  (∀ v, top (sc_priority s) = Some v → known (va_block v)) →
  scheduler_round e (s, a) = Ok (s', a') → sound a a'.
Proof using He Hknown.
  intros Ha Hm Hp. unfold scheduler_round. destruct (overfill_predicate e a).
  { intros [= <- <-]. by apply erase_oldest_sound. }
  destruct (sc_manual s) as [| i l].
  - destruct (priority_queue_predicate e s a); [| intros [= <- <-]; by apply sound_refl].
    intros (v & Hv & H1)%bind_Ok. apply bind_Ok in H1 as (p & _ & H1). apply bind_Ok in H1 as (sb & _ & H1).
    apply bind_Ok in H1 as ([[id ins] a1] & H1 & H2).
    assert (Hk : known (va_block v)) by (apply Hp; destruct (top _); [| done]; by injection Hv as ->).
    destruct (insert_impl_grows known Hknown e He _ _ _ _ a id ins a1 Ha Hk H1) as (Hg & _ & Hid).
    apply bind_Ok in H2 as (a2 & H2 & [= _ <-]). eapply sound_trans; [by apply grows_sound |].
    destruct id as [id |]; [| injection H2 as <-; apply sound_refl, Hg].
    destruct (Hid id eq_refl) as (c & Hc & <- & _).
    apply grows_sound, grows_kept. eapply activate_election_kept; [apply Hg | done | done].
  - intros (sb & _ & H1)%bind_Ok. apply bind_Ok in H1 as ([r a1] & H1 & [= _ <-]).
    eapply insert_sound; [done | | exact H1]. apply Hm. by left.
Qed.
End step.

(** ** Steps *)

(** The environment of a step: iteration in any order, and a ledger of known blocks. *)
Record step_env (e : active_env) : Prop := {
  se_order : env_ok (ae_election e);
  se_ledger : ∀ h x, block_get (lg_store (ae_ledger e)) h = Some x → known x.1;
}.

Inductive active_step : active_transactions → active_transactions → Prop :=
| act_insert e b sb p behavior a r a' :
    step_env e → known b → insert_impl e b sb p behavior a = Ok (r, a') → active_step a a'
| act_trigger e b sb a a' :
    step_env e → known b → trigger_inactive_votes_cache_election e b sb a = Ok a' → active_step a a'
| act_vote e v a code a' :
    step_env e → (∀ b, vote_block b ∈ vt_blocks v → known b) → active_vote e v a = Ok (code, a') → active_step a a'
| act_publish e b a r a' :
    step_env e → known b → active_publish e b a = Ok (r, a') → active_step a a'
| act_erase e r a : step_env e → active_step a (active_erase e r a)
| act_request e solicitor a a' :
    step_env e → request_confirm e solicitor a = Ok a' → active_step a a'
| act_round e s s' a a' :
    step_env e → (∀ i, i ∈ sc_manual s → known (mi_block i)) →
    (∀ v, top (sc_priority s) = Some v → known (va_block v)) →
    scheduler_round e (s, a) = Ok (s', a') → active_step a a'
| act_cemented e constants n x s s' a a' L :
    step_env e → block_cemented_callback constants e n x (s, a) = Ok (s', a', L) → active_step a a'
| act_already_cemented hash_a a : active_step a (block_already_cemented_callback hash_a a)
| act_later e s n a :
    step_env e → call_confirm_later s n ∈ at_calls a → active_step a (node_process_confirmed e s n a)
| act_forget hash_a a : active_step a (erase_recently_confirmed hash_a a).

Definition active_reachable (a : active_transactions) : Prop := rtc active_step active_new a.

(** Winners of confirmed elections only are handed to the confirmation height
    processor. *)
Definition calls_ok (a : active_transactions) : Prop :=
  ∀ c h, c ∈ at_calls a → confirms c = Some h → confirmed_in a h.

Lemma calls_ok_evolves a a' : calls_ok a → evolves a a' → calls_ok a'.
Proof.
  intros Ho Hev c h Hc Hh. destruct (ev_calls _ _ Hev c h Hc Hh) as [Hc' | ?]; [| done].
  eapply confirmed_in_evolves; [done |]. by eapply Ho.
Qed.

Lemma process_later_sound e s n a :
  active_inv a → calls_ok a → call_confirm_later s n ∈ at_calls a → sound a (node_process_confirmed e s n a).
Proof.
  intros Ha Ho Hs. unfold node_process_confirmed.
  assert (Hwin : confirmed_in a (block_hash (es_winner s))) by (by eapply Ho).
  assert (Hadd : ∀ c a0, at_roots a0 = at_roots a → at_elections a0 = at_elections a → at_next a0 = at_next a →
    at_blocks a0 = at_blocks a → at_calls a0 = at_calls a → confirms c = Some (block_hash (es_winner s)) → sound a (call c a0)).
  { intros c a0 Hr He Hn Hb Hc Hcs. split; [by apply (same_inv known a) |]. split.
    - simpl. rewrite He. intros id el Hel. by exists el.
    - intros c' h. simpl. rewrite Hc, elem_of_app, list_elem_of_singleton. intros [? | ->] Hh; [by left | right].
      unfold confirmed_in. simpl. rewrite He. rewrite Hcs in Hh. injection Hh as <-. exact Hwin. }
  destruct (block_get _ _); [by apply Hadd |]. destruct (_ <? _); [by apply Hadd |].
  apply sound_same; try done. by left.
Qed.

Lemma active_step_sound a a' : active_inv a → calls_ok a → active_step a a' → sound a a'.
Proof using Hknown.
  intros Ha Ho Hs. destruct Hs as [e b sb p beh a r a' [] ? ? | e b sb a a' [] ? Ht | e v a code a' [] ? ?
    | e b a r a' [] ? ? | e r a [] | e sol a a' [] ? | e s s' a a' [] ? ? ? | e constants n x s s' a a' L [] ?
    | h a | e s n a [] ? | h a].
  - by eapply insert_sound.
  - unfold trigger_inactive_votes_cache_election in Ht. destruct (ic_election_started _); [| injection Ht as <-; by apply sound_refl].
    apply bind_Ok in Ht as ([r a1] & H1 & [= <-]). by eapply insert_sound.
  - eapply grows_sound, active_vote_grows; eauto.
  - eapply grows_sound, active_publish_grows; eauto.
  - by apply active_erase_sound.
  - by eapply request_confirm_sound.
  - by eapply round_sound.
  - by eapply block_cemented_sound.
  - apply sound_same; try done. by left.
  - by apply process_later_sound.
  - apply sound_same; try done. by left.
Qed.

Lemma active_new_inv : active_inv active_new.
Proof.
  split; simpl; [intros id; rewrite lookup_empty; by intros [] | constructor | by intros c ?%elem_of_nil |].
  intros h id. rewrite lookup_empty. split; [done |]. by intros (c & _ & ?%elem_of_nil & _).
Qed.

Lemma rtc_sound a a' : active_inv a → calls_ok a → rtc active_step a a' → sound a a' ∧ calls_ok a'.
Proof using Hknown.
  intros Ha Ho Hr. induction Hr as [a | a a1 a' Hs _ IH]; [split; [by apply sound_refl | done] |].
  pose proof (active_step_sound a a1 Ha Ho Hs) as Hs1. pose proof (calls_ok_evolves _ _ Ho (proj2 Hs1)) as Ho1.
  destruct (IH (proj1 Hs1) Ho1) as [Hs2 Ho2]. split; [by eapply sound_trans | done].
Qed.

Lemma reachable_active a : active_reachable a → active_inv a ∧ calls_ok a.
Proof using Hknown.
  intros Hr. destruct (rtc_sound active_new a active_new_inv) as [[? _] ?]; [| done | done].
  by intros c h ?%elem_of_nil.
Qed.

(** ** Theorems *)

(** C13: In every state the container of elections reaches by operations that run
    one after the other, provided blocks with one hash have one root, there is at
    most one election per qualified root, its blocks have that root and are filed
    under their hashes, its winner is one of them, and the index from hashes holds
    exactly the blocks of the running elections. The operations are whole: publish
    releases the lock between giving the block to the election and indexing it, and
    when the election is removed just then the index keeps an entry without election
    (publish_race_leaves_orphan), so such runs are excluded. *)
Theorem active_index_exact a :
  active_reachable a →
  NoDup (ci_root <$> at_roots a) ∧
  (∀ c, c ∈ at_roots a → ∃ el, at_elections a !! ci_election c = Some el ∧
     (∀ h b, el_last_blocks el !! h = Some b → block_hash b = h ∧ qualified_root b = ci_root c) ∧
     el_last_blocks el !! block_hash (es_winner (el_status el)) = Some (es_winner (el_status el))) ∧
  (∀ h id, at_blocks a !! h = Some id ↔ ∃ c el, c ∈ at_roots a ∧ ci_election c = id ∧
     at_elections a !! id = Some el ∧ is_Some (el_last_blocks el !! h)).
Proof using Hknown.
  intros [Ha _]%reachable_active. split_and!; [apply Ha | | apply Ha].
  intros c Hc. destruct (ai_elections _ _ Ha c Hc) as (el & Hel & Ho & Hi). exists el. split_and!; [done | | apply Hi].
  intros h b Hb. split; [by apply (ei_keys _ Hi) | by apply (or_blocks _ _ _ Ho h b)].
Qed.

(** C12: Whatever sequence of insertions, votes, blocks, removals, timers, scheduler
    rounds and cementing callbacks the container of elections goes through, only
    winners of confirmed elections are handed to the confirmation height processor,
    and a confirmed election keeps its winner ever after, its own removal included. *)
Theorem only_winners_are_cemented a a' h :
  active_reachable a → rtc active_step a a' →
  (call_confirm h ∈ at_calls a → ∃ id el, at_elections a' !! id = Some el ∧ confirmed el = true ∧
     block_hash (es_winner (el_status el)) = h) ∧
  (∀ id el, at_elections a !! id = Some el → confirmed el = true → ∃ el', at_elections a' !! id = Some el' ∧
     confirmed el' = true ∧ es_winner (el_status el') = es_winner (el_status el)).
Proof using Hknown.
  intros [Ha Ho]%reachable_active Hr. destruct (rtc_sound a a' Ha Ho Hr) as [[_ Hev] _]. split.
  - intros Hc. eapply confirmed_in_evolves; [exact Hev |]. by eapply Ho.
  - intros id el Hel Hc. destruct (ev_elections _ _ Hev id el Hel) as (el' & Hel' & Hx). exists el'.
    destruct (Hx Hc). done.
Qed.

(** Removing the election of a root leaves nothing of it: the root is free, no hash of
    the index leads to the election, the votes kept for its blocks are gone, and the
    other elections are as they were. *)
Theorem removal_is_complete e a c :
  active_reachable a → env_ok (ae_election e) → c ∈ at_roots a →
  let a' := active_erase e (ci_root c) a in
  find_root (ci_root c) (at_roots a') = None ∧
  (∀ d, d ∈ at_roots a' ↔ d ∈ at_roots a ∧ d ≠ c) ∧
  (∀ h id, at_blocks a' !! h = Some id ↔ at_blocks a !! h = Some id ∧ id ≠ ci_election c) ∧
  (∀ i, i ∈ at_inactive a' ↔ i ∈ at_inactive a ∧ at_blocks a !! ic_hash i ≠ Some (ci_election c)).
Proof using Hknown.
  intros [Ha _]%reachable_active He Hc. cbv zeta. unfold active_erase.
  destruct (find_root (ci_root c) (at_roots a)) as [c' |] eqn:Hf.
  - apply find_root_Some in Hf as [Hc' Hr]. rewrite (root_unique known a c' c Ha Hc' Hc Hr). clear c' Hc' Hr.
    destruct (cleanup_spec known e He c a Ha Hc) as (el & Hel & _ & _ & Hroots & Hb & Hi). split_and!; [| done | done |].
    + destruct (find_root _ _) as [d |] eqn:Hd; [| done]. apply find_root_Some in Hd as [[Hd Hne]%Hroots Hr].
      by destruct (Hne (root_unique known a d c Ha Hd Hc Hr)).
    + intros i. rewrite Hi, (index_of known a c el _ Ha Hc Hel), eq_None_not_Some. done.
  - exfalso. apply (find_root_None _ _ Hf), list_elem_of_fmap. by exists c.
Qed.
End runs.
