(* ===== verification/SchedulerTheorems.v ===== *)
(** * The scheduler: which block is next, and that its rounds end

    On the ledgers a node reaches, [activate] finds the lowest block of the account that
    is not cemented, and queues it exactly when its dependencies are cemented.  The
    rounds of the scheduler come to rest. *)

From S2P Require Import Prelude Blocks BlockCodec Common EpochsWork RepWeights Store Ledger Rollback LedgerApply LedgerInvariant LedgerSteps.
From S2P Require Import LedgerTheorems ConfirmationHeight Chains CementInvariant CementTheorems CementRuns CementModes LedgerQueries.
From S2P Require Import Election ElectionTheorems Prioritization ActiveTransactions ActiveTheorems ElectionScheduler ActiveRuns.

Section activation.
Context `{Crypto} (constants : ledger_constants).

(** ** Activation *)

Lemma stored_push_balance e : push_balance e.1 (Some e.2) = Ok (balance_calculated e).
Proof. by destruct e as [[] ?]. Qed.

Lemma dependents_known L b sb : ∃ c, dependents_confirmed constants L (b, Some sb) = Ok c.
Proof.
  unfold dependents_confirmed, dependent_blocks. destruct b; simpl; eauto.
  destruct (is_epoch_link _ _); simpl; eauto.
Qed.

Lemma first_unconfirmed_next L a info :
  linked L → ledger_inv L → st_accounts (lg_store L) !! a = Some info → 0 <= table_height L a < ai_block_count info →
  ∃ b sb, first_unconfirmed L a = Ok (Some (info, (b, sb))) ∧ st_blocks (lg_store L) !! block_hash b = Some (b, sb) ∧
    account_calculated (b, sb) = a ∧ sb_height sb = table_height L a + 1 ∧
    (0 < table_height L a → previous b = ch_frontier (confirmation_height_get (lg_store L) a)).
Proof using.
  intros [Ho Hn Hf _] HL Hi Ht. unfold first_unconfirmed, account_get, block_get. rewrite Hi. fold (table_height L a).
  rewrite (proj2 (Z.ltb_lt _ _)) by lia.
  assert (Hkey : ∀ k b sb, st_blocks (lg_store L) !! k = Some (b, sb) → st_blocks (lg_store L) !! block_hash b = Some (b, sb)).
  { intros k b sb Hk. destruct (inv_blocks L HL k _ Hk) as (_ & Hh & _). simpl in Hh. by rewrite <- Hh. }
  destruct (Z.eqb_spec (table_height L a) 0) as [Hz | Hnz].
  - destruct (Ho a info Hi) as ([b sb] & He & Hac & Hh). exists b, sb. rewrite He. simpl in *. rewrite Hz.
    split_and!; eauto; lia.
  - destruct (Hf a) as (e & He & Hac & Hh); [lia |]. rewrite <- Hac in Hi.
    destruct (Hn _ e info He Hi) as ([b sb] & Hs & Hac' & Hh' & Hp); [lia |].
    exists b, sb. unfold block_successor. rewrite He. destruct e as [b0 sb0]. simpl in *. rewrite Hs. simpl.
    split_and!; [done | by eapply Hkey | congruence | lia | done].
Qed.

(** C19: On every ledger a node reaches by processing and cementing (epoch opens
    without predecessor), activating an account with blocks above its cemented
    height finds the block at the next height, which follows the cemented frontier,
    and queues it exactly when its dependencies are confirmed; with nothing left to
    confirm nothing happens. *)
Theorem activation_finds_next L a info s :
  orderly constants L → st_accounts (lg_store L) !! a = Some info → queue_reachable (sc_priority s) →
  (table_height L a = ai_block_count info → scheduler_activate constants L a s = Ok s) ∧
  (table_height L a ≠ ai_block_count info → ∃ b sb c,
     st_blocks (lg_store L) !! block_hash b = Some (b, sb) ∧ account_calculated (b, sb) = a ∧
     sb_height sb = table_height L a + 1 ∧
     (0 < table_height L a → previous b = ch_frontier (confirmation_height_get (lg_store L) a)) ∧
     dependents_confirmed constants L (b, Some sb) = Ok c ∧
     if (c : bool) then ∃ p, push (sc_priority s) (ai_modified info) b (Some sb) = Ok p ∧ queue_reachable p ∧
       scheduler_activate constants L a s = Ok (with_priority p s)
     else scheduler_activate constants L a s = Ok s).
Proof.
  intros HR Hi Hq. destruct (orderly_inv constants L HR) as (HL & Hln & rank & HF).
  pose proof (cf_heights _ _ _ HF a) as Hle. unfold account_info_or_default, account_get in Hle. rewrite Hi in Hle. simpl in Hle.
  split.
  - intros Ht. unfold scheduler_activate, first_unconfirmed, account_get. rewrite Hi. fold (table_height L a).
    by rewrite Ht, Z.ltb_irrefl.
  - intros Hne. pose proof (ch_floor _ _ _ _ (cf_chains _ _ _ HF) a) as H0.
    destruct (first_unconfirmed_next L a info Hln HL Hi) as (b & sb & Hf & Hb & Hac & Hh & Hp); [lia |].
    destruct (dependents_known L b sb) as [c Hc]. exists b, sb, c. split_and!; [done.. |].
    unfold scheduler_activate. rewrite Hf. cbn [mbind outcome_bind]. rewrite Hc. cbn [mbind outcome_bind].
    destruct c; [| done]. pose proof (ln_balance _ Hln _ _ Hb) as Hbal.
    destruct (push (sc_priority s) (ai_modified info) b (Some sb)) as [p |] eqn:Hpush.
    + exists p. split_and!; [done | | done]. eapply queue_push; [done | exact (stored_push_balance (b, sb)) | done | done].
    + exfalso. rewrite (push_value _ _ _ _ _ (queue_reachable_inv _ Hq) (stored_push_balance (b, sb))) in Hpush; [done |].
      unfold is_u128, u128_mod in Hbal. lia.
Qed.
End activation.

(** ** The rounds end *)

Section rounds.
Context `{Crypto} (known : block → Prop).
Context (Hknown : ∀ b b', known b → known b' → block_hash b = block_hash b' → qualified_root b = qualified_root b').
Context (e : active_env) (He : env_ok (ae_election e)).

Lemma seek_buckets p : pr_buckets (seek p) = pr_buckets p.
Proof using.
  unfold seek. generalize (length (pr_schedule p)) as n. change (pr_buckets p) with (pr_buckets (next p)).
  intros n. generalize (next p) as q. induction n as [| n IH]; intros q; simpl; [done |].
  case_bool_decide; [| done]. by rewrite IH.
Qed.

Lemma size_insert (l : list (list value_type)) i v rest :
  l !! i = Some (v :: rest) →
  foldr (λ b n, (length b + n)%nat) 0%nat l = S (foldr (λ b n, (length b + n)%nat) 0%nat (<[i := rest]> l)).
Proof using.
  revert i. induction l as [| b l IH]; intros [| i] Hi; simplify_eq/=; [done |]. rewrite (IH i Hi). lia.
Qed.

(** What [pop] takes away. *)
Lemma pop_spec p p' :
  pop p = Ok p' → prioritization_size p = S (prioritization_size p') ∧
  ∀ v, v ∈ concat (pr_buckets p') → v ∈ concat (pr_buckets p).
Proof using.
  unfold pop. intros (i & Hi & H1)%bind_Ok. apply bind_Ok in H1 as (b & Hb & H1).
  destruct b as [| v rest]; [done |]. injection H1 as <-.
  destruct (pr_buckets p !! i) as [b |] eqn:Hl; [| done]. injection Hb as ->.
  unfold prioritization_size. rewrite seek_buckets. simpl. split; [by apply (size_insert _ _ v) |].
  intros w Hw. rewrite (concat_insert_perm _ _ _ _ Hl). by right.
Qed.

Lemma top_queued p v : top p = Some v → v ∈ concat (pr_buckets p).
Proof using.
  unfold top, current_bucket. destruct (pr_schedule p !! pr_current p) as [i |]; [| done]. simpl.
  destruct (pr_buckets p !! i) as [[| w b] |] eqn:Hb; [done | | done]. simpl. intros [= <-].
  apply list_elem_of_In, in_concat. exists (w :: b). split; [| by left]. by apply list_elem_of_In, (list_elem_of_lookup_2 _ i).
Qed.

Lemma on_world_roots {A} id (op : env → world → outcome (A * world)) a x a' :
  on_world e id op a = Ok (x, a') → at_roots a' = at_roots a.
Proof using. by intros (_ & _ & _ & _ & ? & _)%on_world_inv. Qed.

(** At most one election is started. *)
Lemma insert_roots b sb p beh a r a' :
  insert_impl e b sb p beh a = Ok (r, a') → (length (at_roots a') <= S (length (at_roots a)))%nat.
Proof using.
  unfold insert_impl. intros ([[id1 ins1] a1] & H1 & H2)%bind_Ok.
  assert (Hl : (length (at_roots a1) <= S (length (at_roots a)))%nat).
  { destruct (find_root _ _); [injection H1 as _ _ <-; lia |]. destruct (recent_root _ _); [injection H1 as _ _ <-; lia |].
    apply bind_Ok in H1 as (pb & _ & H1). cbv zeta in H1. apply bind_Ok in H1 as ([u a3] & H3 & [= _ _ <-]).
    simpl. rewrite (on_world_roots _ _ _ _ _ H3). unfold new_election.
    match goal with |- context [fold_left (perform e) ?l ?a0] =>
      destruct (perform_fields e l a0) as (Hr & _); set (a9 := fold_left (perform e) l a0) in * end.
    destruct (at_blocks _ !! _); simpl; rewrite Hr, length_app; simpl; lia. }
  simpl in H2. destruct id1 as [id |]; [| by injection H2 as _ <-].
  apply bind_Ok in H2 as ([u a2] & H2 & [= _ <-]). simpl. by rewrite (on_world_roots _ _ _ _ _ H2).
Qed.

Lemma erase_oldest_shrinks a c l :
  active_inv known a → at_roots a = c :: l → (length (at_roots (erase_oldest e a)) < length (at_roots a))%nat.
Proof using.
  intros Ha Hr. unfold erase_oldest, cleanup_conflict. rewrite Hr.
  destruct (ai_elections _ _ Ha c) as (el & -> & _); [rewrite Hr; by left |]. unfold cleanup_election.
  set (bl := en_order _ _ _). destruct (erase_fold_fields bl a) as (Hr1 & _). set (a1 := fold_left _ bl a) in *.
  match goal with |- context [fold_left _ bl (call call_vacancy_update ?x)] =>
    destruct (stop_fold_fields el bl (call call_vacancy_update x)) as (Hr3 & _) end.
  cbv zeta in Hr3 |- *. rewrite Hr3. simpl. rewrite Hr1, Hr. change (S (length l)) with (length (c :: l)).
  apply (length_filter_lt (λ d, ci_root d ≠ ci_root c) (c :: l) c); [by left |]. by intros ?.
Qed.

Definition load (x : election_scheduler * active_transactions) : nat :=
  (2 * scheduler_size x.1 + length (at_roots x.2))%nat.

(** The queued blocks occur. *)
Definition queued_known (s : election_scheduler) : Prop :=
  (∀ i, i ∈ sc_manual s → known (mi_block i)) ∧ ∀ v, v ∈ concat (pr_buckets (sc_priority s)) → known (va_block v).

Lemma round_progress s a s' a' :
  active_inv known a → queued_known s → 0 <= ae_active_elections_size e →
  scheduler_ready e s a = true → scheduler_round e (s, a) = Ok (s', a') →
  (load (s', a') < load (s, a))%nat ∧ queued_known s' ∧ sound known a a'.
Proof using He Hknown.
  intros Ha [Hm Hp] Hsz Hrd Hr.
  assert (Hs : sound known a a').
  { eapply (round_sound known Hknown e He); [done | exact Hm | | exact Hr]. intros v Hv. by apply Hp, top_queued. }
  unfold load, scheduler_size. simpl. unfold scheduler_round in Hr. unfold scheduler_ready in Hrd.
  destruct (overfill_predicate e a) eqn:Hov.
  - injection Hr as <- <-. split_and!; [| done | done]. destruct (at_roots a) as [| c l] eqn:Hra.
    + unfold overfill_predicate, vacancy in Hov. rewrite Hra in Hov. apply Z.ltb_lt in Hov. simpl in Hov. lia.
    + pose proof (erase_oldest_shrinks a c l Ha Hra). rewrite Hra in *. lia.
  - destruct (sc_manual s) as [| i rest] eqn:Hma.
    + destruct (priority_queue_predicate e s a) eqn:Hpq.
      * apply bind_Ok in Hr as (v & _ & Hr). apply bind_Ok in Hr as (p & Hpop & Hr). apply bind_Ok in Hr as (sb & _ & Hr).
        apply bind_Ok in Hr as ([[id ins] a1] & H1 & Hr). apply bind_Ok in Hr as (a2 & H2 & [= <- <-]).
        pose proof (insert_roots _ _ _ _ _ _ _ H1) as Hl. destruct (pop_spec _ _ Hpop) as [Hsize Hin].
        assert (Hr2 : at_roots a2 = at_roots a1).
        { destruct id as [id |]; [| by injection H2 as <-]. unfold activate_election in H2.
          apply bind_Ok in H2 as ([u a3] & H3 & [= <-]). by apply on_world_roots in H3. }
        split_and!; [| | exact Hs].
        -- simpl. rewrite Hr2, Hma. simpl. lia.
        -- split; simpl; [by rewrite Hma |]. intros w Hw. by apply Hp, Hin.
      * unfold manual_queue_predicate in Hrd. rewrite Hma in Hrd. done.
    + apply bind_Ok in Hr as (sb & _ & Hr). apply bind_Ok in Hr as ([r a1] & H1 & [= <- <-]).
      pose proof (insert_roots _ _ _ _ _ _ _ H1) as Hl. simpl. split_and!; [lia | | exact Hs].
      split; simpl; [| exact Hp]. intros j Hj. apply Hm. by right.
Qed.

(** C20: From any state the container reaches, the scheduler's loop waits after at
    most twice the number of queued blocks plus the number of elections rounds,
    unless a round ends the process; then no more than the configured number of
    elections run, the manual queue is empty, and a prioritised block waits only
    when the container is full. *)
Theorem scheduler_comes_to_rest s a fuel :
  active_reachable known a → queued_known s → 0 <= ae_active_elections_size e → (load (s, a) < fuel)%nat →
  scheduler_run e fuel (s, a) = Crashed ∨
  ∃ s' a', scheduler_run e fuel (s, a) = Done (s', a') ∧ sc_manual s' = [] ∧
    Z.of_nat (length (at_roots a')) <= ae_active_elections_size e ∧
    (prioritization_empty (sc_priority s') = true ∨ Z.of_nat (length (at_roots a')) = ae_active_elections_size e).
Proof using He Hknown.
  intros [Ha _]%(reachable_active known Hknown). revert s a Ha. induction fuel as [| fuel IH]; intros s a Ha Hq Hsz Hf; [lia |].
  cbn [scheduler_run fst snd]. destruct (scheduler_ready e s a) eqn:Hrd.
  - destruct (scheduler_round e (s, a)) as [[s1 a1] |] eqn:Hr; [| by left].
    destruct (round_progress s a s1 a1 Ha Hq Hsz Hrd Hr) as (Hlt & Hq1 & [Ha1 _]). apply IH; [done.. | lia].
  - right. exists s, a. split; [done |]. unfold scheduler_ready in Hrd.
    apply orb_false_elim in Hrd as [[Hp Hm]%orb_false_elim Ho].
    unfold priority_queue_predicate, manual_queue_predicate, overfill_predicate, vacancy in *.
    apply bool_decide_eq_false_1, dec_stable in Hm. apply Z.ltb_ge in Ho.
    split; [done |]. split; [lia |]. destruct (prioritization_empty (sc_priority s)); [by left | right].
    rewrite andb_true_r in Hp. apply Z.ltb_ge in Hp. lia.
Qed.
End rounds.
