(* ===== verification/VoteProcessor.v ===== *)
(** * The vote processor ([node/vote_processor.hpp], [node/vote_processor.cpp])

    Votes that arrive wait in a bounded queue; the fuller it is, the heavier the
    representative of a vote has to be for the vote to enter.  A thread takes the whole
    queue, checks the signatures, and hands the votes with a good one to the container of
    elections. *)

From Stdlib Require Import SpecFloat.
From S2P Require Import Prelude Blocks Common Vote Store Ledger Election ActiveTransactions.

(** ** State *)

(** A channel is a number. *)
Record vote_processor := VoteProcessor {
  vp_max_votes : Z;
  vp_votes : list (vote * Z);
  vp_representatives_1 : gset Z;
  vp_representatives_2 : gset Z;
  vp_representatives_3 : gset Z;
  vp_stopped : bool;
  vp_total_processed : Z;
}.

Definition vote_processor_new (max_votes : Z) : vote_processor := VoteProcessor max_votes [] ∅ ∅ ∅ false 0.

(** The default of [vote_processor_capacity]. *)
Definition default_capacity : Z := 144 * 1024.

Definition set_votes (l : list (vote * Z)) (p : vote_processor) : vote_processor :=
  VoteProcessor (vp_max_votes p) l (vp_representatives_1 p) (vp_representatives_2 p) (vp_representatives_3 p)
    (vp_stopped p) (vp_total_processed p).
Definition set_representatives (r1 r2 r3 : gset Z) (p : vote_processor) : vote_processor :=
  VoteProcessor (vp_max_votes p) (vp_votes p) r1 r2 r3 (vp_stopped p) (vp_total_processed p).

(** ** The queue *)

(** A number as a double. *)
Definition double (n : Z) : spec_float := binary_normalize 53 1024 n 0 false.

(** [size < k.0 / 9.0 * max_votes], in doubles. *)
Definition below_ninths (k size max_votes : Z) : bool :=
  SFltb (double size) (SFmul 53 1024 (SFdiv 53 1024 (double k) (double 9)) (double max_votes)).

(** Whether a vote of the account is taken. *)
Definition admits (p : vote_processor) (account_a : Z) : bool :=
  let size := Z.of_nat (length (vp_votes p)) in
  if below_ninths 6 size (vp_max_votes p) then true
  else if below_ninths 7 size (vp_max_votes p) then bool_decide (account_a ∈ vp_representatives_1 p)
  else if below_ninths 8 size (vp_max_votes p) then bool_decide (account_a ∈ vp_representatives_2 p)
  else if size <? vp_max_votes p then bool_decide (account_a ∈ vp_representatives_3 p)
  else false.

(** [vote]: false when the vote was taken. *)
Definition processor_vote (v : vote) (channel_a : Z) (p : vote_processor) : bool * vote_processor :=
  if negb (vp_stopped p) && admits p (vt_account v)
  then (false, set_votes (vp_votes p ++ [(v, channel_a)]) p) else (true, p).

Definition half_full (p : vote_processor) : bool := vp_max_votes p / 2 <=? Z.of_nat (length (vp_votes p)).

(** [stop]. *)
Definition processor_stop (p : vote_processor) : vote_processor :=
  VoteProcessor (vp_max_votes p) (vp_votes p) (vp_representatives_1 p) (vp_representatives_2 p)
    (vp_representatives_3 p) true (vp_total_processed p).

(** [calculate_weights]: from the trended supply, the representatives of the weight cache
    and their weights. *)
Definition calculate_weights (supply : Z) (rep_amounts : list (Z * Z)) (weight : Z → Z) (p : vote_processor) :
    vote_processor :=
  if vp_stopped p then p else
  fold_left (λ p x,
    let representative := x.1 in
    let w := weight representative in
    if supply / 1000 <? w then
      let p := set_representatives ({[representative]} ∪ vp_representatives_1 p) (vp_representatives_2 p)
                 (vp_representatives_3 p) p in
      if supply / 100 <? w then
        let p := set_representatives (vp_representatives_1 p) ({[representative]} ∪ vp_representatives_2 p)
                   (vp_representatives_3 p) p in
        if supply / 20 <? w then
          set_representatives (vp_representatives_1 p) (vp_representatives_2 p)
            ({[representative]} ∪ vp_representatives_3 p) p
        else p
      else p
    else p) rep_amounts (set_representatives ∅ ∅ ∅ p).

(** ** The thread *)

Section process.
Context `{Crypto} (e : active_env).

(** [vote_blocking]: the result, and the call of the observers. *)
Definition vote_blocking (v : vote) (channel_a : Z) (validated : bool) (a : active_transactions) :
    outcome (vote_code * list (vote * Z * vote_code) * active_transactions) :=
  if validated || negb (vote_validate v) then
    r ← active_vote e v a; Ok (r.1, [(v, channel_a, r.1)], r.2)
  else Ok (vote_invalid, [], a).

(** The loop of [verify_votes] over the answers of the signature checker. *)
Fixpoint verify_loop (l : list (vote * Z * bool)) (a : active_transactions) :
    outcome (list (vote * Z * vote_code) * active_transactions) :=
  match l with
  | [] => Ok ([], a)
  | (v, channel_a, verification) :: rest =>
      if (verification : bool) then
        r ← vote_blocking v channel_a true a;
        let '(_, told, a) := r in
        r ← verify_loop rest a; Ok (told ++ r.1, r.2)
      else verify_loop rest a
  end.

(** [verify_votes]. *)
Definition verify_votes (l : list (vote * Z)) (a : active_transactions) :
    outcome (list (vote * Z * vote_code) * active_transactions) :=
  verify_loop (map (λ x, (x, negb (vote_validate x.1))) l) a.

(** One round of [process_loop], on a queue that is not empty. *)
Definition process_round (p : vote_processor) (a : active_transactions) :
    outcome (list (vote * Z * vote_code) * vote_processor * active_transactions) :=
  r ← verify_votes (vp_votes p) a;
  let total := wrap64 (vp_total_processed p + Z.of_nat (length (vp_votes p))) in
  Ok (r.1, VoteProcessor (vp_max_votes p) [] (vp_representatives_1 p) (vp_representatives_2 p)
             (vp_representatives_3 p) (vp_stopped p) total, r.2).
End process.

(** ** Levels *)

(** The levels hold the representatives above their thresholds. *)
Record levels (supply : Z) (reps : list Z) (weight : Z → Z) (p : vote_processor) : Prop := {
  le_1 : ∀ r, r ∈ vp_representatives_1 p ↔ r ∈ reps ∧ supply / 1000 < weight r;
  le_2 : ∀ r, r ∈ vp_representatives_2 p ↔ r ∈ reps ∧ supply / 1000 < weight r ∧ supply / 100 < weight r;
  le_3 : ∀ r, r ∈ vp_representatives_3 p ↔
    r ∈ reps ∧ supply / 1000 < weight r ∧ supply / 100 < weight r ∧ supply / 20 < weight r;
}.

Lemma calculate_levels supply rep_amounts weight p :
  vp_stopped p = false → levels supply rep_amounts.*1 weight (calculate_weights supply rep_amounts weight p) ∧
  vp_votes (calculate_weights supply rep_amounts weight p) = vp_votes p ∧
  vp_max_votes (calculate_weights supply rep_amounts weight p) = vp_max_votes p ∧
  vp_stopped (calculate_weights supply rep_amounts weight p) = vp_stopped p.
Proof.
  intros Hs. unfold calculate_weights. rewrite Hs.
  set (step := λ (p : vote_processor) (x : Z * Z), _).
  assert (Hgen : ∀ l l0 q, levels supply l0 weight q →
    levels supply (l0 ++ l.*1) weight (fold_left step l q) ∧ vp_votes (fold_left step l q) = vp_votes q ∧
    vp_max_votes (fold_left step l q) = vp_max_votes q ∧ vp_stopped (fold_left step l q) = vp_stopped q).
  { induction l as [| x l IH]; intros l0 q Hq; simpl; [by rewrite app_nil_r |].
    assert (Hx : levels supply (l0 ++ [x.1]) weight (step q x) ∧ vp_votes (step q x) = vp_votes q ∧
      vp_max_votes (step q x) = vp_max_votes q ∧ vp_stopped (step q x) = vp_stopped q).
    { destruct Hq as [H1 H2 H3]. unfold step. cbv zeta.
      destruct (Z.ltb_spec (supply / 1000) (weight x.1)), (Z.ltb_spec (supply / 100) (weight x.1)),
        (Z.ltb_spec (supply / 20) (weight x.1)); simpl; (split; [| done]); split; intros r; simpl;
        rewrite ?elem_of_union, ?elem_of_singleton, ?H1, ?H2, ?H3, elem_of_app, list_elem_of_singleton;
        (split; [intros; destruct_or?; destruct_and?; subst; split_and!; auto; lia |]);
        intros; destruct_and?; destruct_or?; subst; auto; exfalso; lia. }
    destruct Hx as (Hx & Hv & Hm & Hst). destruct (IH _ _ Hx) as (Hl & Hv' & Hm' & Hst').
    rewrite <- app_assoc in Hl. split_and!; [exact Hl | congruence..]. }
  destruct (Hgen rep_amounts [] (set_representatives ∅ ∅ ∅ p)) as (Hl & Hv & Hm & Hst);
    [| split_and!; [exact Hl | exact Hv | exact Hm | by rewrite Hst]].
  split; intros r; simpl; rewrite elem_of_empty, elem_of_nil; tauto.
Qed.

(** After the weights were computed, a queue that takes the vote of one account takes
    that of every representative with at least its weight. *)
Theorem heavier_votes_admitted supply rep_amounts weight p p' r r' :
  vp_stopped p = false → vp_representatives_1 p' = vp_representatives_1 (calculate_weights supply rep_amounts weight p) →
  vp_representatives_2 p' = vp_representatives_2 (calculate_weights supply rep_amounts weight p) →
  vp_representatives_3 p' = vp_representatives_3 (calculate_weights supply rep_amounts weight p) →
  weight r <= weight r' → r' ∈ rep_amounts.*1 → admits p' r = true → admits p' r' = true.
Proof.
  intros Hs H1 H2 H3 Hw Hr'. destruct (calculate_levels supply rep_amounts weight p Hs) as ([L1 L2 L3] & _).
  unfold admits. destruct (below_ninths 6 _ _); [done |].
  destruct (below_ninths 7 _ _); [| destruct (below_ninths 8 _ _); [| destruct (_ <? _); [| done]]];
    rewrite ?H1, ?H2, ?H3, !bool_decide_eq_true, ?L1, ?L2, ?L3; intros; destruct_and?; split_and!; try done; lia.
Qed.

(** ** The bound of the queue *)

Inductive processor_step : vote_processor → vote_processor → Prop :=
| processor_takes v channel_a p : processor_step p (processor_vote v channel_a p).2
| processor_weighs supply rep_amounts weight p : processor_step p (calculate_weights supply rep_amounts weight p)
| processor_stops p : processor_step p (processor_stop p)
| processor_works `{Crypto} e p a told p' a' : process_round e p a = Ok (told, p', a') → processor_step p p'.

Lemma full_queue_admits_none p r :
  vp_max_votes p = default_capacity → Z.of_nat (length (vp_votes p)) = default_capacity → admits p r = false.
Proof.
  intros Hm Hl. unfold admits. rewrite Hm, Hl.
  assert (below_ninths 6 default_capacity default_capacity = false) as -> by reflexivity.
  assert (below_ninths 7 default_capacity default_capacity = false) as -> by reflexivity.
  assert (below_ninths 8 default_capacity default_capacity = false) as -> by reflexivity.
  by rewrite Z.ltb_irrefl.
Qed.

Lemma processor_step_bound p p' :
  processor_step p p' → vp_max_votes p = default_capacity → Z.of_nat (length (vp_votes p)) <= default_capacity →
  vp_max_votes p' = default_capacity ∧ Z.of_nat (length (vp_votes p')) <= default_capacity.
Proof.
  intros Hs Hm Hl. destruct Hs as [v c p | supply reps weight p | p | ? e p a told p' a' Hr].
  - unfold processor_vote. destruct (negb (vp_stopped p)); [| done]. simpl.
    destruct (admits p (vt_account v)) eqn:Ha; [| done]. simpl. rewrite length_app. simpl. split; [done |].
    assert (Z.of_nat (length (vp_votes p)) ≠ default_capacity); [| lia].
    intros He. by rewrite (full_queue_admits_none p _ Hm He) in Ha.
  - destruct (vp_stopped p) eqn:Hs; [unfold calculate_weights; by rewrite Hs |].
    by destruct (calculate_levels supply reps weight p Hs) as (_ & -> & -> & _).
  - done.
  - unfold process_round in Hr. apply bind_Ok in Hr as (r & _ & [= _ <- _]). simpl. split; [done |].
    unfold default_capacity. lia.
Qed.

(** C40: With the default capacity the queue of the vote processor never holds more
    than 147456 votes, whatever votes arrive and however its thread runs; the levels
    are computed in double precision as in the code. *)
Theorem vote_queue_bounded p :
  rtc processor_step (vote_processor_new default_capacity) p →
  Z.of_nat (length (vp_votes p)) <= default_capacity.
Proof.
  intros Hr. enough (vp_max_votes p = default_capacity ∧ Z.of_nat (length (vp_votes p)) <= default_capacity) as [_ ?] by done.
  revert p Hr. apply rtc_ind_r; [by split |]. intros p p' _ Hs [Hm Hl]. by eapply processor_step_bound.
Qed.

(** ** Signatures *)

(** The votes without a good signature are as if they had not arrived: the elections
    and the observers see the others only, in their order. *)
Theorem bad_signatures_ignored `{Crypto} e l a :
  verify_votes e l a = verify_votes e (filter (λ x, vote_validate x.1 = false) l) a ∧
  (∀ told a', verify_votes e l a = Ok (told, a') →
     told.*1 = filter (λ x, vote_validate x.1 = false) l).
Proof.
  unfold verify_votes. split.
  - revert a. induction l as [| [v c] l IH]; intros a; [done |]. rewrite filter_cons. simpl.
    destruct (vote_validate v) eqn:Hv; simpl; [by rewrite IH |]. rewrite Hv. simpl.
    destruct (vote_blocking e v c true a) as [[[code t] a1] |]; simpl; [| done]. by rewrite IH.
  - revert a. induction l as [| [v c] l IH]; intros a told a'; simpl; [by intros [= <- <-] |]. rewrite filter_cons. simpl.
    destruct (vote_validate v) eqn:Hv; simpl; [apply IH |].
    intros ([[code t] a1] & H1 & H2)%bind_Ok. unfold vote_blocking in H1. simpl in H1.
    apply bind_Ok in H1 as ([code' a2] & _ & [= <- <- <-]). simpl in H2.
    apply bind_Ok in H2 as ([t2 a3] & H2 & [= <- <-]). simpl. f_equal. by eapply IH.
Qed.
