(* ===== verification/UncheckedMap.v ===== *)
(** * Blocks that wait for others ([node/unchecked_map.cpp],
      [secure/store/unchecked_store_partial.hpp], [node/gap_cache.cpp])

    A block whose predecessor or source is unknown waits in the unchecked table
    under the hash it lacks (an epoch block that opens an account, under the
    account).  The table is written by a thread of its own, which works through
    a buffer of insertions and queries in the order they were made; a query
    hands the blocks that wait for a hash back to the block processor.  The gap
    cache counts the votes for such blocks. *)

From S2P Require Import Prelude Blocks BlockCodec Common Vote RepWeights EpochsWork Store Ledger Rollback LedgerQueries.

(** ** The table *)

(** [unchecked_info], with the verification state as the enumeration. *)
Record waiting_block := WaitingBlock {
  wb_block : block;
  wb_account : Z;
  wb_modified : Z;
  wb_verified : signature_verification;
}.

(** [unchecked_key]: the dependency and the hash of the block that waits. *)
Abbreviation unchecked_key := (Z * Z)%type.
Abbreviation unchecked_table := (gmap unchecked_key waiting_block).
Abbreviation unchecked_entry := (unchecked_key * waiting_block)%type.

(** The order of the table: keys are compared as 64 big endian bytes. *)
Definition entry_le (x y : unchecked_entry) : Prop := key_le x.1 y.1 = true.

#[export] Instance entry_le_dec x y : Decision (entry_le x y).
Proof. unfold entry_le. apply _. Defined.

(** [full_range]: every entry, in the order of the table. *)
Definition full_range (t : unchecked_table) : list unchecked_entry := merge_sort entry_le (map_to_list t).

(** [equal_range]: from [(dependency, 0)] up to [(dependency + 1, 0)], or to the end
    when the addition wraps around. *)
Definition in_equal_range (dependency : Z) (e : unchecked_entry) : Prop :=
  let end_l := wrap256 (dependency + 1) in
  key_le (dependency, 0) e.1 = true ∧ (dependency < end_l → key_le (end_l, 0) e.1 = false).

#[export] Instance in_equal_range_dec dependency e : Decision (in_equal_range dependency e).
Proof. unfold in_equal_range. apply _. Defined.

Definition equal_range (t : unchecked_table) (dependency : Z) : list unchecked_entry :=
  filter (in_equal_range dependency) (full_range t).

(** [unchecked_store::get]. *)
Definition unchecked_get (t : unchecked_table) (dependency : Z) : list waiting_block :=
  (equal_range t dependency).*2.

(** [unchecked_store::exists], [del] and [count]. *)
Definition unchecked_exists (t : unchecked_table) (key : unchecked_key) : bool :=
  bool_decide (is_Some (t !! key)).
Definition unchecked_del (t : unchecked_table) (key : unchecked_key) : outcome unchecked_table :=
  checked_delete key t.
Definition unchecked_count (t : unchecked_table) : nat := size t.

(** [unchecked_store::put]. *)
Definition unchecked_put `{Crypto} (t : unchecked_table) (dependency : Z) (info_a : waiting_block) :
    unchecked_table :=
  <[(dependency, block_hash (wb_block info_a)) := info_a]> t.

(** ** The map and its thread *)

Inductive unchecked_item :=
| item_insert (dependency : Z) (info : waiting_block)
| item_query (dependency : Z).

(** [um_back_buffer] is what the thread has still to write of the buffer it took. *)
Record unchecked_map := UncheckedMap {
  um_table : unchecked_table;
  um_buffer : list unchecked_item;
  um_back_buffer : list unchecked_item;
  um_writing_back_buffer : bool;
  um_disable_delete : bool;
}.

Definition unchecked_map_new (t : unchecked_table) (disable_delete : bool) : unchecked_map :=
  UncheckedMap t [] [] false disable_delete.

Definition um_set_table (f : unchecked_table → unchecked_table) (u : unchecked_map) : unchecked_map :=
  UncheckedMap (f (um_table u)) (um_buffer u) (um_back_buffer u) (um_writing_back_buffer u) (um_disable_delete u).
Definition um_push (i : unchecked_item) (u : unchecked_map) : unchecked_map :=
  UncheckedMap (um_table u) (um_buffer u ++ [i]) (um_back_buffer u) (um_writing_back_buffer u) (um_disable_delete u).

(** [unchecked_map::put] and [trigger] only append to the buffer. *)
Definition um_put (dependency : Z) (info : waiting_block) (u : unchecked_map) : unchecked_map :=
  um_push (item_insert dependency info) u.
Definition um_trigger (dependency : Z) (u : unchecked_map) : unchecked_map :=
  um_push (item_query dependency) u.

(** [unchecked_map::clear]. *)
Definition um_clear (u : unchecked_map) : unchecked_map := um_set_table (λ _, ∅) u.

(** What [unchecked_map::flush] waits for. *)
Definition um_flushed (u : unchecked_map) : bool :=
  bool_decide (um_buffer u = []) && bool_decide (um_back_buffer u = []) && negb (um_writing_back_buffer u).

(** Delete the keys in order. *)
Fixpoint delete_keys (keys : list unchecked_key) (t : unchecked_table) : outcome unchecked_table :=
  match keys with
  | [] => Ok t
  | key :: rest => t ← unchecked_del t key; delete_keys rest t
  end.

Section unchecked.
Context `{Crypto}.

(** [item_visitor]: the new table and the blocks handed to [satisfied]; an insertion
    builds a new [unchecked_info] at the present time. *)
Definition visit_item (now : Z) (disable_delete : bool) (t : unchecked_table) (i : unchecked_item) :
    outcome (unchecked_table * list waiting_block) :=
  match i with
  | item_insert dependency info =>
      Ok (unchecked_put t dependency
            (WaitingBlock (wb_block info) (wb_account info) now (wb_verified info)), [])
  | item_query dependency =>
      let range := equal_range t dependency in
      t ← (if disable_delete then Ok t else delete_keys range.*1 t);
      Ok (t, range.*2)
  end.

(** The next thing the thread of [unchecked_map::run] does: take the buffer, write
    one item of it, or end the write; [None] when it waits. *)
Definition unchecked_run (now : Z) (u : unchecked_map) : option (outcome (unchecked_map * list waiting_block)) :=
  if um_writing_back_buffer u then
    match um_back_buffer u with
    | [] => Some (Ok (UncheckedMap (um_table u) (um_buffer u) [] false (um_disable_delete u), []))
    | i :: rest => Some (
        '(t, satisfied) ← visit_item now (um_disable_delete u) (um_table u) i;
        Ok (UncheckedMap t (um_buffer u) rest true (um_disable_delete u), satisfied))
    end
  else if bool_decide (um_buffer u = []) then None
  else Some (Ok (UncheckedMap (um_table u) [] (um_buffer u) true (um_disable_delete u), [])).
End unchecked.

(** ** Cleaning up *)

(** The keys [unchecked_cleanup] collects: those older than the cutoff, at most 2^20
    of the [budget] entries that the two minutes of reading allow. *)
Fixpoint cleaning_list (budget room : nat) (now cutoff : Z) (l : list unchecked_entry) : list unchecked_key :=
  match budget, room, l with
  | S budget, S room', (key, info) :: rest =>
      if cutoff <? wrap64 (now - wb_modified info)
      then key :: cleaning_list budget room' now cutoff rest
      else cleaning_list budget (S room') now cutoff rest
  | _, _, _ => []
  end.

Fixpoint delete_existing (keys : list unchecked_key) (t : unchecked_table) : outcome unchecked_table :=
  match keys with
  | [] => Ok t
  | key :: rest =>
      t ← (if unchecked_exists t key then unchecked_del t key else Ok t);
      delete_existing rest t
  end.

(** The first half of [node::unchecked_cleanup]: nothing is collected while the
    ledger is small or a bootstrap attempt has been running for long. *)
Definition collect_old (budget : nat) (now cutoff : Z) (long_attempt : bool) (L : ledger) (bs : bootstrap)
    (t : unchecked_table) : list unchecked_key :=
  if (bs_max_blocks bs <=? lc_block_count (lg_cache L)) && negb long_attempt
  then cleaning_list budget (Z.to_nat 1048576) now cutoff (full_range t) else [].

Definition cleaning_batch_size : nat := 2 * 1024.
#[global] Arguments cleaning_batch_size : simpl never.

(** One write transaction of the second half: at most 2048 keys; an entry that is no
    longer there is passed over. *)
Definition delete_batch (keys : list unchecked_key) (t : unchecked_table) :
    outcome (list unchecked_key * unchecked_table) :=
  t ← delete_existing (take cleaning_batch_size keys) t;
  Ok (drop cleaning_batch_size keys, t).

(** ** The gap cache *)

(** [gap_information]. *)
Record gap_information := GapInformation {
  gi_arrival : Z;
  gi_hash : Z;
  gi_voters : list Z;
  gi_bootstrap_started : bool;
}.

(** The container is ordered by arrival, equal times in order of insertion. *)
Abbreviation gap_cache := (list gap_information).

Definition gap_max : nat := 256.

Fixpoint gap_emplace (g : gap_information) (c : gap_cache) : gap_cache :=
  match c with
  | [] => [g]
  | x :: rest => if gi_arrival g <? gi_arrival x then g :: c else x :: gap_emplace g rest
  end.

Definition gap_find (hash_a : Z) (c : gap_cache) : option gap_information :=
  head (filter (λ g, gi_hash g = hash_a) c).

Fixpoint arrivals_sorted (c : gap_cache) : bool :=
  match c with
  | x :: (y :: _) as rest => (gi_arrival x <=? gi_arrival y) && arrivals_sorted rest
  | _ => true
  end.

(** [modify]: an element that is out of order afterwards is moved. *)
Definition gap_modify (f : gap_information → gap_information) (hash_a : Z) (c : gap_cache) : gap_cache :=
  match gap_find hash_a c with
  | None => c
  | Some g =>
      let c' := map (λ x, if gi_hash x =? hash_a then f x else x) c in
      if arrivals_sorted c' then c'
      else gap_emplace (f g) (filter (λ x, gi_hash x ≠ hash_a) c)
  end.

(** [gap_cache::add]. *)
Definition gap_add (time_point_a hash_a : Z) (c : gap_cache) : gap_cache :=
  match gap_find hash_a c with
  | Some _ => gap_modify (λ g, GapInformation time_point_a (gi_hash g) (gi_voters g) (gi_bootstrap_started g)) hash_a c
  | None =>
      let c := gap_emplace (GapInformation time_point_a hash_a [] false) c in
      if bool_decide (gap_max < length c)%nat then tail c else c
  end.

(** [gap_cache::erase]. *)
Definition gap_erase (hash_a : Z) (c : gap_cache) : gap_cache := filter (λ g, gi_hash g ≠ hash_a) c.

(** What the gap cache reads of the node. *)
Record gap_env := GapEnv {
  ge_delta : Z;
  ge_trended : Z;
  ge_bootstrap_fraction_numerator : Z;
  ge_disable_lazy_bootstrap : bool;
  ge_disable_legacy_bootstrap : bool;
}.

(** [gap_cache::bootstrap_threshold]. *)
Definition bootstrap_threshold (g : gap_env) : Z :=
  wrap128 (ge_trended g / 256 * ge_bootstrap_fraction_numerator g).

(** The weight of the voters, asking the ledger for one after the other. *)
Fixpoint voters_tally (L : ledger) (bs : bootstrap) (tally : Z) (voters : list Z) : Z * bootstrap :=
  match voters with
  | [] => (tally, bs)
  | voter :: rest =>
      let '(w, bs) := weight L bs voter in
      voters_tally L bs (wrap128 (tally + w)) rest
  end.

(** [gap_cache::bootstrap_check]: whether a bootstrap is due, and the hash for which
    [bootstrap_start] is called. *)
Definition bootstrap_check (g : gap_env) (L : ledger) (bs : bootstrap) (voters_a : list Z) (hash_a : Z) :
    bool * option Z * bootstrap :=
  let '(tally, bs) := voters_tally L bs 0 voters_a in
  let start :=
    if negb (ge_disable_lazy_bootstrap g) then ge_delta g <=? tally
    else negb (ge_disable_legacy_bootstrap g) && (bootstrap_threshold g <? tally) in
  (start, if start && negb (block_or_pruned_exists L hash_a) then Some hash_a else None, bs).

(** The task that [bootstrap_start] schedules: nothing, a lazy bootstrap from the
    hash, or a legacy one. *)
Definition bootstrap_task (g : gap_env) (L : ledger) (hash_a : Z) : option (option Z) :=
  if block_or_pruned_exists L hash_a then None
  else if negb (ge_disable_lazy_bootstrap g) then Some (Some hash_a)
  else if negb (ge_disable_legacy_bootstrap g) then Some None else None.

Section gap_votes.
Context `{Crypto} (g : gap_env) (L : ledger).

(** One hash of [gap_cache::vote]. *)
Definition gap_vote_hash (voter hash : Z) (c : gap_cache) (bs : bootstrap) : gap_cache * bootstrap * list Z :=
  match gap_find hash c with
  | Some existing =>
      if gi_bootstrap_started existing || bool_decide (voter ∈ gi_voters existing) then (c, bs, []) else
      let c := gap_modify (λ g, GapInformation (gi_arrival g) (gi_hash g) (gi_voters g ++ [voter])
                                  (gi_bootstrap_started g)) hash c in
      let '(started, start, bs) := bootstrap_check g L bs (gi_voters existing ++ [voter]) hash in
      (if (started : bool)
       then gap_modify (λ g, GapInformation (gi_arrival g) (gi_hash g) (gi_voters g) true) hash c else c,
       bs, option_list start)
  | None => (c, bs, [])
  end.

Fixpoint gap_vote_hashes (voter : Z) (hashes : list Z) (c : gap_cache) (bs : bootstrap) :
    gap_cache * bootstrap * list Z :=
  match hashes with
  | [] => (c, bs, [])
  | hash :: rest =>
      let '(c, bs, started) := gap_vote_hash voter hash c bs in
      let '(c, bs, more) := gap_vote_hashes voter rest c bs in
      (c, bs, started ++ more)
  end.

(** [gap_cache::vote]; the last component lists the hashes passed to [bootstrap_start]. *)
Definition gap_vote (v : vote) (c : gap_cache) (bs : bootstrap) : gap_cache * bootstrap * list Z :=
  gap_vote_hashes (vt_account v) (map item_hash (vt_blocks v)) c bs.
End gap_votes.

(** ** Recent arrivals *)

(** [block_arrival_info]: the time and the hash, in order of arrival. *)
Abbreviation block_arrival := (list (Z * Z)).

Definition arrival_size_min : nat := 8 * 1024.
Definition arrival_time_min : Z := 300.

(** [block_arrival::add]: true when the hash was there. *)
Definition arrival_add (now hash_a : Z) (c : block_arrival) : bool * block_arrival :=
  if bool_decide (hash_a ∈ c.*2) then (true, c) else (false, c ++ [(now, hash_a)]).

Fixpoint arrival_expire (now : Z) (c : block_arrival) : block_arrival :=
  match c with
  | (t, _) :: rest =>
      if bool_decide (arrival_size_min < length c)%nat && (t + arrival_time_min <? now)
      then arrival_expire now rest else c
  | [] => []
  end.

(** [block_arrival::recent]. *)
Definition arrival_recent (now hash_a : Z) (c : block_arrival) : bool * block_arrival :=
  let c := arrival_expire now c in (bool_decide (hash_a ∈ c.*2), c).
