(* ===== verification/BlockProcessor.v ===== *)
(** * The block processor ([node/blockprocessor.cpp],
      [node/state_block_signature_verification.cpp], [node/node.cpp])

    Blocks from the network, the wallets and the bootstrap are queued; those
    whose signature can be checked on its own go through a verification thread
    first.  The processing thread takes them in batches, hands each to
    [ledger::process] and acts on the result: a block that fits may release
    blocks that wait for it, a block with a gap waits in the unchecked map.  A
    forced block (the winner of an election) first rolls back the block that
    has its root.

    The threads of the node work on one state, [pipeline]; each definition
    below is what one of them does under one lock.  A function that reads a
    clock has the readings as arguments.  The calls to components outside of
    this state (elections, network, bootstrap) are recorded as events. *)

From S2P Require Import Prelude Blocks BlockCodec Common Vote RepWeights EpochsWork Store Ledger Rollback LedgerQueries UncheckedMap.

(** ** State *)

(** [block_origin]. *)
Inductive block_origin := origin_local | origin_remote.

(** Calls to other components. *)
Inductive node_event :=
| ev_activate (account_a : Z)
| ev_trigger_inactive_votes_cache_election (hash : Z)
| ev_flood_block_initial (hash : Z)
| ev_flood_block (hash : Z)
| ev_lazy_requeue (hash previous_a : Z)
| ev_active_publish (b : block)
| ev_history_erase (root_a : Z)
| ev_active_erase (hash : Z).

(** The functions queued in [block_post_events]. *)
Inductive post_event :=
| post_live (e : block_w_sideband) (origin_a : block_origin)
| post_gap_add (hash : Z)
| post_requeue_invalid (hash previous_a : Z)
| post_active_publish (b : block).

(** An item of the verification queue. *)
Abbreviation verification_item := (block * Z * signature_verification)%type.

(** The local variables of [process_batch]. *)
Record batch := Batch {
  ba_number_of_blocks_processed : nat;
  ba_post_events : list post_event;
}.

(** The settings the block processor reads. *)
Record processor_flags := ProcessorFlags {
  pf_block_processor_batch_size : nat;
  pf_block_processor_full_size : nat;
  pf_max_block_write_batch_num : nat;
  pf_max_verification_batch : nat;
  pf_disable_block_processor_republishing : bool;
}.

(** The ledger and the queues between the threads; [pl_verifying] is the batch the
    verification thread holds, [pl_cleaning] the keys that a running
    [unchecked_cleanup] has still to delete. *)
Record pipeline := Pipeline {
  pl_ledger : ledger;
  pl_blocks : list waiting_block;
  pl_forced : list block;
  pl_state_blocks : list verification_item;
  pl_verifying : list verification_item;
  pl_batch : option batch;
  pl_awaiting_write : bool;
  pl_unchecked : unchecked_map;
  pl_gap_cache : gap_cache;
  pl_block_arrival : block_arrival;
  pl_events : list node_event;
  pl_cleaning : list unchecked_key;
}.

Definition pl_set_ledger (L : ledger) (p : pipeline) : pipeline :=
  Pipeline L (pl_blocks p) (pl_forced p) (pl_state_blocks p) (pl_verifying p) (pl_batch p)
    (pl_awaiting_write p) (pl_unchecked p) (pl_gap_cache p) (pl_block_arrival p) (pl_events p) (pl_cleaning p).
Definition pl_set_blocks f (p : pipeline) : pipeline :=
  Pipeline (pl_ledger p) (f (pl_blocks p)) (pl_forced p) (pl_state_blocks p) (pl_verifying p) (pl_batch p)
    (pl_awaiting_write p) (pl_unchecked p) (pl_gap_cache p) (pl_block_arrival p) (pl_events p) (pl_cleaning p).
Definition pl_set_forced f (p : pipeline) : pipeline :=
  Pipeline (pl_ledger p) (pl_blocks p) (f (pl_forced p)) (pl_state_blocks p) (pl_verifying p) (pl_batch p)
    (pl_awaiting_write p) (pl_unchecked p) (pl_gap_cache p) (pl_block_arrival p) (pl_events p) (pl_cleaning p).
Definition pl_set_state_blocks f (p : pipeline) : pipeline :=
  Pipeline (pl_ledger p) (pl_blocks p) (pl_forced p) (f (pl_state_blocks p)) (pl_verifying p) (pl_batch p)
    (pl_awaiting_write p) (pl_unchecked p) (pl_gap_cache p) (pl_block_arrival p) (pl_events p) (pl_cleaning p).
Definition pl_set_verifying l (p : pipeline) : pipeline :=
  Pipeline (pl_ledger p) (pl_blocks p) (pl_forced p) (pl_state_blocks p) l (pl_batch p)
    (pl_awaiting_write p) (pl_unchecked p) (pl_gap_cache p) (pl_block_arrival p) (pl_events p) (pl_cleaning p).
Definition pl_set_batch b (p : pipeline) : pipeline :=
  Pipeline (pl_ledger p) (pl_blocks p) (pl_forced p) (pl_state_blocks p) (pl_verifying p) b
    (pl_awaiting_write p) (pl_unchecked p) (pl_gap_cache p) (pl_block_arrival p) (pl_events p) (pl_cleaning p).
Definition pl_set_awaiting_write b (p : pipeline) : pipeline :=
  Pipeline (pl_ledger p) (pl_blocks p) (pl_forced p) (pl_state_blocks p) (pl_verifying p) (pl_batch p)
    b (pl_unchecked p) (pl_gap_cache p) (pl_block_arrival p) (pl_events p) (pl_cleaning p).
Definition pl_set_unchecked f (p : pipeline) : pipeline :=
  Pipeline (pl_ledger p) (pl_blocks p) (pl_forced p) (pl_state_blocks p) (pl_verifying p) (pl_batch p)
    (pl_awaiting_write p) (f (pl_unchecked p)) (pl_gap_cache p) (pl_block_arrival p) (pl_events p) (pl_cleaning p).
Definition pl_set_gap_cache f (p : pipeline) : pipeline :=
  Pipeline (pl_ledger p) (pl_blocks p) (pl_forced p) (pl_state_blocks p) (pl_verifying p) (pl_batch p)
    (pl_awaiting_write p) (pl_unchecked p) (f (pl_gap_cache p)) (pl_block_arrival p) (pl_events p) (pl_cleaning p).
Definition pl_set_block_arrival c (p : pipeline) : pipeline :=
  Pipeline (pl_ledger p) (pl_blocks p) (pl_forced p) (pl_state_blocks p) (pl_verifying p) (pl_batch p)
    (pl_awaiting_write p) (pl_unchecked p) (pl_gap_cache p) c (pl_events p) (pl_cleaning p).
Definition pl_emit (l : list node_event) (p : pipeline) : pipeline :=
  Pipeline (pl_ledger p) (pl_blocks p) (pl_forced p) (pl_state_blocks p) (pl_verifying p) (pl_batch p)
    (pl_awaiting_write p) (pl_unchecked p) (pl_gap_cache p) (pl_block_arrival p) (pl_events p ++ l) (pl_cleaning p).

Definition pl_set_cleaning l (p : pipeline) : pipeline :=
  Pipeline (pl_ledger p) (pl_blocks p) (pl_forced p) (pl_state_blocks p) (pl_verifying p) (pl_batch p)
    (pl_awaiting_write p) (pl_unchecked p) (pl_gap_cache p) (pl_block_arrival p) (pl_events p) l.

Definition pipeline_new (L : ledger) (t : unchecked_table) (disable_delete : bool) : pipeline :=
  Pipeline L [] [] [] [] None false (unchecked_map_new t disable_delete) [] [] [] [].

Section processor.
Context `{Crypto} (constants : ledger_constants) (flags : processor_flags).

(** ** Adding blocks *)

(** [block_processor::size], [full] and [half_full]. *)
Definition processor_size (p : pipeline) : nat :=
  length (pl_blocks p) + length (pl_state_blocks p) + length (pl_forced p).
Definition processor_full (p : pipeline) : bool :=
  bool_decide (pf_block_processor_full_size flags <= processor_size p)%nat.
Definition processor_half_full (p : pipeline) : bool :=
  bool_decide (pf_block_processor_full_size flags / 2 <= processor_size p)%nat.

(** Whether the signature can be verified before the block is processed. *)
Definition needs_verification (info_a : waiting_block) : bool :=
  bool_decide (wb_verified info_a = sv_unknown) &&
  (bool_decide (block_type_of (wb_block info_a) = bt_state) ||
   bool_decide (block_type_of (wb_block info_a) = bt_open) || negb (wb_account info_a =? 0)).

(** [block_processor::add]. *)
Definition processor_add (info_a : waiting_block) (p : pipeline) : pipeline :=
  if needs_verification info_a
  then pl_set_state_blocks (λ l, l ++ [(wb_block info_a, wb_account info_a, wb_verified info_a)]) p
  else pl_set_blocks (λ l, l ++ [info_a]) p.
Definition processor_add_block (now : Z) (b : block) (p : pipeline) : pipeline :=
  processor_add (WaitingBlock b 0 now sv_unknown) p.

(** [block_processor::add_local]. *)
Definition processor_add_local (info_a : waiting_block) (p : pipeline) : outcome pipeline :=
  if bool_decide (wb_verified info_a = sv_unknown) &&
     (bool_decide (block_type_of (wb_block info_a) = bt_state) || negb (wb_account info_a =? 0))
  then Ok (pl_set_state_blocks (λ l, l ++ [(wb_block info_a, wb_account info_a, wb_verified info_a)]) p)
  else Aborted.

(** [block_processor::force] and [wait_write]. *)
Definition processor_force (b : block) (p : pipeline) : pipeline := pl_set_forced (λ l, l ++ [b]) p.
Definition processor_wait_write (p : pipeline) : pipeline := pl_set_awaiting_write true p.

(** [have_blocks_ready] and [have_blocks]. *)
Definition have_blocks_ready (p : pipeline) : bool :=
  negb (bool_decide (pl_blocks p = [])) || negb (bool_decide (pl_forced p = [])).
Definition have_blocks (p : pipeline) : bool :=
  have_blocks_ready p || negb (bool_decide (pl_state_blocks p = [])).

(** ** The verification thread *)

(** [setup_items]: the batch, and what stays queued. *)
Definition setup_items (max_count : nat) (l : list verification_item) :
    list verification_item * list verification_item := (take max_count l, drop max_count l).

(** The key a signature is checked with. *)
Definition verification_account (b : block) (account_a : Z) : outcome Z :=
  if negb (link b =? 0) && is_epoch_link constants (link b) then epoch_signer constants (link b)
  else Ok (if negb (account_a =? 0) then account_a else account b).

(** One item of [verify_state_blocks]: the signature checker's answer. *)
Definition verify_item (i : verification_item) : outcome bool :=
  account_l ← verification_account i.1.1 i.1.2;
  Ok (negb (validate_message account_l (block_hash i.1.1) (block_signature i.1.1))).

(** One item of [process_verified_state_blocks]. *)
Definition verified_item (now : Z) (i : verification_item) (verification : bool) (p : pipeline) : pipeline :=
  let '(b, account_a, verified) := i in
  if negb (link b =? 0) && is_epoch_link constants (link b) then
    pl_set_blocks (λ l, l ++ [WaitingBlock b account_a now
      (if verification then sv_valid_epoch else sv_unknown)]) p
  else if verification then pl_set_blocks (λ l, l ++ [WaitingBlock b account_a now sv_valid]) p
  else pl_emit [ev_lazy_requeue (block_hash b) (previous b)] p.

Fixpoint process_verified_state_blocks (now : Z) (items : list verification_item) (p : pipeline) :
    outcome pipeline :=
  match items with
  | [] => Ok p
  | i :: rest =>
      verification ← verify_item i;
      process_verified_state_blocks now rest (verified_item now i verification p)
  end.

(** The next thing the thread of [state_block_signature_verification::run] does:
    take a batch, or verify the one it holds. *)
Definition verification_run (now : Z) (p : pipeline) : option (outcome pipeline) :=
  match pl_verifying p with
  | [] =>
      match pl_state_blocks p with
      | [] => None
      | l => let '(items, rest) := setup_items (pf_max_verification_batch flags) l in
             Some (Ok (pl_set_verifying items (pl_set_state_blocks (λ _, rest) p)))
      end
  | items => Some (process_verified_state_blocks now items (pl_set_verifying [] p))
  end.

(** ** Processing one block *)

(** [queue_unchecked]. *)
Definition queue_unchecked (hash_or_account_a : Z) (p : pipeline) : pipeline :=
  pl_set_gap_cache (gap_erase hash_or_account_a) (pl_set_unchecked (um_trigger hash_or_account_a) p).

(** Whether an accepted block can give an account its first pending entry below the
    last epoch. *)
Definition opens_pending (e : block_w_sideband) : bool :=
  match e.1 with
  | send_block _ _ _ => true
  | state_block _ _ _ => is_send (sb_details e.2) && (details_epoch (sb_details e.2) <? epoch_max)
  | _ => false
  end.

(** The account that is then looked for. *)
Definition pending_account (b : block) : Z := if destination b =? 0 then link b else destination b.

(** The clock readings of one call: seconds for sideband and account entry, and the
    steady clock for the arrivals. *)
Record clocks := Clocks { ck_sideband : Z; ck_modified : Z; ck_steady : Z }.

(** The [progress] branch of [process_one]. *)
Definition on_progress (ck : clocks) (info_a : waiting_block) (forced_a : bool) (origin_a : block_origin)
    (events : list post_event) (p : pipeline) : outcome (list post_event * pipeline) :=
  let b := wb_block info_a in
  let hash := block_hash b in
  e ← of_option (block_get (lg_store (pl_ledger p)) hash);
  if (wb_account info_a =? 0) || (wb_account info_a =? account_calculated e) then
    let '(recent, arrival) := arrival_recent (ck_steady ck) hash (pl_block_arrival p) in
    let p := pl_set_block_arrival arrival p in
    let events := if recent || forced_a then events ++ [post_live e origin_a] else events in
    let p := queue_unchecked hash p in
    Ok (events, if opens_pending e then queue_unchecked (pending_account b) p else p)
  else Aborted.

(** [block_processor::process_one]. *)
Definition process_one (ck : clocks) (info_a : waiting_block) (forced_a : bool) (origin_a : block_origin)
    (events : list post_event) (p : pipeline) : outcome (process_return * list post_event * pipeline) :=
  let b := wb_block info_a in
  let hash := block_hash b in
  '(result, L) ← process constants (pl_ledger p) b (wb_verified info_a) (ck_sideband ck) (ck_modified ck);
  let p := pl_set_ledger L p in
  let info := WaitingBlock b (wb_account info_a) (wb_modified info_a) (pr_verified result) in
  '(events, p) ←
    match pr_code result with
    | progress => on_progress ck info_a forced_a origin_a events p
    | gap_previous => Ok (events ++ [post_gap_add hash], pl_set_unchecked (um_put (previous b) info) p)
    | gap_source =>
        dependency ← block_source L (b, None);
        Ok (events ++ [post_gap_add hash], pl_set_unchecked (um_put dependency info) p)
    | gap_epoch_open_pending => Ok (events, pl_set_unchecked (um_put (account b) info) p)
    | bad_signature => Ok (events ++ [post_requeue_invalid hash (previous b)], p)
    | fork => Ok (events ++ [post_active_publish b], p)
    | old | negative_spend | unreceivable | opened_burn_account | balance_mismatch
    | representative_mismatch | block_position | insufficient_work => Ok (events, p)
    end;
  Ok (result, events, p).

(** [process_live]. *)
Definition process_live (e : block_w_sideband) (origin_a : block_origin) (p : pipeline) : outcome pipeline :=
  let hash := block_hash e.1 in
  confirmed ← dependents_confirmed constants (pl_ledger p) (e.1, Some e.2);
  Ok (pl_emit
    ([if (confirmed : bool) then ev_activate (account_calculated e)
      else ev_trigger_inactive_votes_cache_election hash] ++
     match origin_a with
     | origin_local => [ev_flood_block_initial hash]
     | origin_remote => if pf_disable_block_processor_republishing flags then [] else [ev_flood_block hash]
     end) p).

(** The destructor of [block_post_events]. *)
Fixpoint run_events (ck : clocks) (events : list post_event) (p : pipeline) : outcome pipeline :=
  match events with
  | [] => Ok p
  | e :: rest =>
      p ← match e with
          | post_live e origin_a => process_live e origin_a p
          | post_gap_add hash => Ok (pl_set_gap_cache (gap_add (ck_steady ck) hash) p)
          | post_requeue_invalid hash previous_a => Ok (pl_emit [ev_lazy_requeue hash previous_a] p)
          | post_active_publish b => Ok (pl_emit [ev_active_publish b] p)
          end;
      run_events ck rest p
  end.

(** ** Batches *)

(** The blocks a forced block replaces are rolled back. *)
Definition force_rollback (clock : Z → Z) (fuel : nat) (b : block) (p : pipeline) : run_result pipeline :=
  match successor (pl_ledger p) (qualified_root b) with
  | Some e =>
      let hash := block_hash e.1 in
      if hash =? block_hash b then Done p else
      '(_, L, rollback_list) ← rollback constants clock fuel (pl_ledger p) hash [];
      Done (pl_emit (concat (map (λ i : block_w_sideband, ev_history_erase (root i.1) ::
              if block_hash i.1 =? hash then [] else [ev_active_erase (block_hash i.1)]) rollback_list))
            (pl_set_ledger L p))
  | None => Done p
  end.

(** The condition of the loop in [process_batch]. *)
Definition batch_continues (deadline_reached : bool) (ba : batch) (p : pipeline) : bool :=
  have_blocks_ready p &&
  (negb deadline_reached ||
   negb (bool_decide (pf_block_processor_batch_size flags <= ba_number_of_blocks_processed ba)%nat)) &&
  negb (pl_awaiting_write p) &&
  negb (bool_decide (pf_max_block_write_batch_num flags <= ba_number_of_blocks_processed ba)%nat).

(** The block a round takes: a forced one, after the rollback of what it replaces,
    before the others. *)
Definition next_queued (clock : Z → Z) (fuel : nat) (ck : clocks) (p : pipeline) :
    run_result (waiting_block * bool * pipeline) :=
  match pl_forced p, pl_blocks p with
  | b :: rest, _ => p ← force_rollback clock fuel b (pl_set_forced (λ _, rest) p);
                    Done (WaitingBlock b 0 (ck_modified ck) sv_unknown, true, p)
  | [], info :: rest => Done (info, false, pl_set_blocks (λ _, rest) p)
  | [], [] => Crashed
  end.

(** One round of the loop. *)
Definition batch_round (clock : Z → Z) (fuel : nat) (ck : clocks) (ba : batch) (p : pipeline) :
    run_result pipeline :=
  '(info, force, p) ← next_queued clock fuel ck p;
  '(_, events, p) ← lift (process_one ck info force origin_remote (ba_post_events ba) p);
  Done (pl_set_batch (Some (Batch (S (ba_number_of_blocks_processed ba)) events)) p).

(** The next thing the thread of [process_blocks] does: begin a batch, do one round
    of it, or end it; [None] when it waits. *)
Definition processing_run (clock : Z → Z) (fuel : nat) (deadline_reached : bool) (ck : clocks) (p : pipeline) :
    option (run_result pipeline) :=
  match pl_batch p with
  | None => if have_blocks_ready p then Some (Done (pl_set_batch (Some (Batch 0 [])) p)) else None
  | Some ba => Some (
      if batch_continues deadline_reached ba p then batch_round clock fuel ck ba p
      else lift (run_events ck (ba_post_events ba)
                   (pl_set_batch None (pl_set_awaiting_write false p))))
  end.

(** The thread of the unchecked map: what is satisfied goes back to the processor. *)
Definition unchecked_thread (now : Z) (p : pipeline) : option (outcome pipeline) :=
  match unchecked_run now (pl_unchecked p) with
  | None => None
  | Some o => Some (
      '(u, satisfied) ← o;
      Ok (foldl (λ p info, processor_add info p) (pl_set_unchecked (λ _, u) p) satisfied))
  end.

(** ** Cleaning up *)

(** The next thing [node::unchecked_cleanup] does: collect the keys of old blocks in
    a read transaction, or delete a batch of those collected in a write transaction;
    in between the other threads go on. *)
Definition unchecked_cleanup (budget : nat) (now cutoff : Z) (long_attempt : bool) (bs : bootstrap) (p : pipeline) :
    outcome pipeline :=
  match pl_cleaning p with
  | [] => Ok (pl_set_cleaning
            (collect_old budget now cutoff long_attempt (pl_ledger p) bs (um_table (pl_unchecked p))) p)
  | keys =>
      '(rest, t) ← delete_batch keys (um_table (pl_unchecked p));
      Ok (pl_set_cleaning rest (pl_set_unchecked (um_set_table (λ _, t)) p))
  end.

(** ** The node's entry points *)

(** [node::process_active]. *)
Definition process_active (now : Z) (ck : clocks) (b : block) (p : pipeline) : pipeline :=
  processor_add_block now b
    (pl_set_block_arrival (arrival_add (ck_steady ck) (block_hash b) (pl_block_arrival p)).2 p).

(** [node::process_local]: the block is processed at once by the calling thread. *)
Definition process_local (now : Z) (ck : clocks) (b : block) (p : pipeline) : outcome (process_return * pipeline) :=
  let p := pl_set_block_arrival (arrival_add (ck_steady ck) (block_hash b) (pl_block_arrival p)).2 p in
  '(result, events, p) ← process_one ck (WaitingBlock b (account b) now sv_unknown) false origin_local []
                           (processor_wait_write p);
  p ← run_events ck events p;
  Ok (result, p).

(** [node::process_local_async]. *)
Definition process_local_async (now : Z) (ck : clocks) (b : block) (p : pipeline) : outcome pipeline :=
  processor_add_local (WaitingBlock b (account b) now sv_unknown)
    (pl_set_block_arrival (arrival_add (ck_steady ck) (block_hash b) (pl_block_arrival p)).2 p).
End processor.
