(* ===== verification/PipelineLedger.v ===== *)
(** * What a verdict of the ledger says to the block processor

    A block refused with a gap lacks what the block processor files it under,
    and a signature found valid earlier makes no difference to the verdict. *)

From S2P Require Import Prelude Blocks BlockCodec Common Vote RepWeights EpochsWork Store Ledger Rollback LedgerQueries.
From S2P Require Import LedgerApply LedgerInvariant LedgerSteps LedgerTheorems.

Section verdicts.
Context `{Crypto} (constants : ledger_constants) (L : ledger) (HL : ledger_inv L).

Local Abbreviation blocks := (st_blocks (lg_store L)).

(** The block is no successor of its predecessor: that is stored in the chain of
    another account. *)
Definition foreign_previous (b : block) : Prop :=
  block_type_of b = bt_state ∧ ∃ e, blocks !! previous b = Some e ∧ account_calculated e ≠ account b.

Lemma block_exists_false k : block_exists (lg_store L) k = false ↔ blocks !! k = None.
Proof. unfold block_exists. rewrite bool_decide_eq_false. symmetry. apply eq_None_not_Some. Qed.

Lemma block_exists_true k : block_exists (lg_store L) k = true ↔ is_Some (blocks !! k).
Proof. apply bool_decide_eq_true. Qed.

(** Run through the guards of a processor in [H]. *)
Ltac peel H :=
  repeat match type of H with
  | mbind _ _ = Ok _ => apply bind_Ok in H as (? & ? & H); cbv beta in H
  | (if ?c then _ else _) = Ok _ => destruct c eqn:?
  | match ?c with _ => _ end = Ok _ => destruct c eqn:?
  | Ok _ = Ok _ => injection H as <- <-
  | Aborted = Ok _ => discriminate H
  end.

(** ** Gaps *)

Lemma gap_previous_legacy b v t1 t2 r L' :
  block_type_of b ≠ bt_state → processor_visit constants L b v t1 t2 = Ok (r, L') →
  pr_code r = gap_previous → blocks !! previous b = None.
Proof using HL.
  intros Ht Hp Hc. destruct b as [h s w | h s w | h s w | h s w | h s w]; simpl in *; [| | | | done].
  - unfold processor_send_block, reject, block_get in Hp. peel Hp; simpl in *; done.
  - unfold processor_receive_block, reject, block_get in Hp. peel Hp; simpl in *; try done.
    + destruct (block_exists (lg_store L) (receive_previous h)) eqn:He; [done |]. apply block_exists_false in He. congruence.
    + destruct (inv_frontier_get L HL (receive_previous h)) as (i & Hi & Hh); [lia |].
      rewrite (info_existing _ _ _ Hi) in *. lia.
  - unfold processor_open_block, reject in Hp. peel Hp; simpl in *; done.
  - unfold processor_change_block, reject, block_get in Hp. peel Hp; simpl in *; done.
Qed.
(** The position of a state block: a gap is a missing predecessor or one of another
    account, or a first block that names no source. *)
Lemma state_position_gap h s w :
  let b := state_block h s w in
  (sc_code (state_position L h) = gap_previous → blocks !! previous b = None ∨ foreign_previous b) ∧
  (sc_code (state_position L h) = gap_source → state_previous h = 0 ∧ state_link h = 0) ∧
  (sc_code (state_position L h) = progress →
    state_previous h = 0 ∨
    ∃ i, st_accounts (lg_store L) !! state_account h = Some i ∧ state_previous h = ai_head i ∧
      sc_is_send (state_position L h) = (state_balance h <? ai_balance i)).
Proof using HL.
  unfold state_position, account_get, foreign_previous. simpl.
  destruct (st_accounts (lg_store L) !! state_account h) as [i |] eqn:Hi.
  - destruct (state_previous h =? 0) eqn:Hz; [done |].
    destruct (block_exists (lg_store L) (state_previous h)) eqn:He; simpl.
    + destruct (state_previous h =? ai_head i) eqn:Hh; simpl; [| done].
      split_and!; try done. intros _. right. exists i. split_and!; [done | lia | done].
    + apply block_exists_false in He. split_and!; [by left | done | done].
  - destruct (state_previous h =? 0) eqn:Hz; simpl.
    + destruct (state_link h =? 0) eqn:Hl; simpl; split_and!; try done; intros _; [| left; lia].
      split; lia.
    + split_and!; [intros _ | done | done].
      destruct (blocks !! state_previous h) as [e |] eqn:He; [right | by left].
      split; [done |]. exists e. split; [done |]. intros Hacc.
      destruct (inv_blocks L HL _ _ He) as (_ & _ & Hs). rewrite Hacc, Hi in Hs. by destruct Hs.
Qed.

(** The link of a block that is not a send is what it lacks. *)
Lemma state_link_gap h :
  let c := state_position L h in
  sc_code (state_link_check L h c) = gap_source →
  sc_code c = gap_source ∨
  sc_code c = progress ∧ sc_is_send c = false ∧ block_or_pruned_exists L (state_link h) = false.
Proof.
  intros c. unfold state_link_check.
  destruct (bool_decide (sc_code c = progress) && negb (sc_is_send c)) eqn:Hg; [| by left].
  apply andb_true_iff in Hg as [Hp Hs]. apply bool_decide_eq_true in Hp. apply negb_true_iff in Hs.
  destruct (state_link h =? 0) eqn:Hl; simpl; [by case_match |].
  destruct (block_or_pruned_exists L (state_link h)) eqn:He; simpl; [| by right].
  destruct (pending_get _ _); simpl; [by case_match | done].
Qed.

Lemma state_link_previous_gap h :
  let c := state_position L h in
  sc_code (state_link_check L h c) = gap_previous → sc_code c = gap_previous.
Proof.
  intros c. unfold state_link_check.
  destruct (bool_decide (sc_code c = progress) && negb (sc_is_send c)) eqn:Hg; [| done].
  destruct (state_link h =? 0) eqn:Hl; simpl; [by case_match |].
  destruct (block_or_pruned_exists L (state_link h)) eqn:He; simpl; [| done].
  destruct (pending_get _ _); simpl; [by case_match | done].
Qed.

Lemma gap_previous_lacks b v t1 t2 r L' :
  process constants L b v t1 t2 = Ok (r, L') → pr_code r = gap_previous →
  blocks !! previous b = None ∨ foreign_previous b.
Proof using HL.
  intros Hp Hc. unfold process in Hp. apply bind_Ok in Hp as ([r' L1] & Hv & Hp). injection Hp as <- <-.
  destruct (decide (block_type_of b = bt_state)) as [Ht | Ht]; [| left; by eapply gap_previous_legacy].
  destruct b as [| | | | h s w]; try done. simpl in Hv.
  unfold processor_state_block in Hv. apply bind_Ok in Hv as ([[code v'] is_epoch] & Hval & Hv).
  destruct (bool_decide (code = progress)) eqn:Hcode.
  - destruct is_epoch.
    + unfold epoch_block_impl, epoch_position, reject in Hv. peel Hv; simpl in *; try done; repeat case_match; done.
    + unfold state_block_impl, reject in Hv. peel Hv; simpl in *; try done.
      apply (state_position_gap h s w), state_link_previous_gap, Hc.
  - unfold reject in Hv. injection Hv as <- <-. simpl in Hc. subst code. left.
    destruct (is_epoch_link constants (state_link h)); [| by simplify_eq].
    unfold validate_epoch_block in Hval. simpl. apply block_exists_false.
    destruct (negb (state_previous h =? 0)); [| by simplify_eq].
    destruct (block_exists (lg_store L) (state_previous h)) eqn:He; [| done].
    apply bind_Ok in Hval as (? & _ & ?). by simplify_eq.
Qed.

Lemma gap_source_lacks b v t1 t2 r L' :
  process constants L b v t1 t2 = Ok (r, L') → pr_code r = gap_source →
  ∃ k, block_source L (b, None) = Ok k ∧ blocks !! k = None.
Proof using HL.
  intros Hp Hc. unfold process in Hp. apply bind_Ok in Hp as ([r' L1] & Hv & Hp). injection Hp as <- <-.
  destruct b as [h s w | h s w | h s w | h s w | h s w]; simpl in Hv.
  - unfold processor_send_block, reject in Hv. peel Hv; simpl in *; done.
  - unfold processor_receive_block, reject in Hv. peel Hv; simpl in *; try (done || by case_match).
    eexists. split; [done |]. simpl. apply exists_false. by apply negb_true_iff.
  - unfold processor_open_block, reject in Hv. peel Hv; simpl in *; try done.
    eexists. split; [done |]. simpl. apply exists_false. by apply negb_true_iff.
  - unfold processor_change_block, reject in Hv. peel Hv; simpl in *; done.
  - unfold processor_state_block in Hv. apply bind_Ok in Hv as ([[code v'] is_epoch] & Hval & Hv).
    destruct (bool_decide (code = progress)) eqn:Hcode; cycle 1.
    { unfold reject in Hv. injection Hv as <- <-. simpl in Hc. subst code. exfalso.
      destruct (is_epoch_link constants (state_link h)); [| done].
      unfold validate_epoch_block in Hval. peel Hval; done. }
    destruct is_epoch.
    { exfalso. unfold epoch_block_impl, epoch_position, reject in Hv. peel Hv; simpl in *; try done; repeat case_match; done. }
    unfold state_block_impl, reject in Hv. peel Hv; simpl in *; try done.
    destruct (state_position_gap h s w) as (_ & Hgs & Hpr).
    destruct (state_link_gap h Hc) as [Hg | (Hg & Hs & He)].
    + destruct (Hgs Hg) as [-> ->]. exists 0. split; [done | by apply inv_block_zero].
    + exists (state_link h). apply exists_false in He as [_ He]. split; [| done].
      unfold ledger_is_send. destruct (Hpr Hg) as [-> | (i & Hi & -> & Hsend)]; [done |].
      pose proof (inv_accounts L HL _ _ Hi) as Hok. destruct (ao_entry _ _ _ Hok) as (e & Hhd & _ & Hbal & _).
      rewrite (proj2 (Z.eqb_neq _ _) (ao_head _ _ _ Hok)). simpl.
      unfold balance. rewrite (proj2 (Z.eqb_neq _ _) (ao_head _ _ _ Hok)).
      unfold store_balance, block_get. rewrite Hhd. simpl. rewrite Hbal, <- Hsend, Hs. done.
Qed.
(** ** Signatures verified earlier *)

(** The signature of the block is good for the key. *)
Definition signature_good (b : block) (key : Z) : Prop :=
  validate_message key (block_hash b) (block_signature b) = false.

(** What the verification state of a queued block stands for. *)
Definition vouched (b : block) (v : signature_verification) : Prop :=
  match v with
  | sv_unknown => True
  | sv_invalid => False
  | sv_valid =>
      match b with
      | open_block _ _ _ | state_block _ _ _ => signature_good b (account b)
      | _ => ∃ e, blocks !! previous b = Some e ∧ signature_good b (account_calculated e)
      end
  | sv_valid_epoch =>
      is_epoch_link constants (link b) = true ∧
      ∃ key, epoch_signer constants (link b) = Ok key ∧ signature_good b key
  end.

(** The code and the ledger, without the verification state. *)
Definition verdict (o : outcome (process_return * ledger)) : outcome (process_result * ledger) :=
  '(r, L') ← o; Ok (pr_code r, L').

Lemma frontier_account k e :
  blocks !! k = Some e → frontier_get (lg_store L) k ≠ 0 → account_calculated e = frontier_get (lg_store L) k.
Proof using HL.
  intros He Hf. destruct (inv_frontier_get L HL k Hf) as (i & Hi & Hh).
  destruct (ao_entry _ _ _ (inv_accounts L HL _ _ Hi)) as (e' & He' & Ha & _). rewrite Hh in He'. congruence.
Qed.

(** The test that skips a signature known to be good. *)
Lemma skip_check b v key :
  (v = sv_valid → signature_good b key) →
  negb (bool_decide (v = sv_valid)) && validate_message key (block_hash b) (block_signature b) =
  validate_message key (block_hash b) (block_signature b).
Proof. intros Hs. case_bool_decide as Hv; simpl; [| done]. symmetry. by apply Hs. Qed.

(** Both sides take the same branch. *)
Ltac same_branch :=
  repeat match goal with
  | |- verdict (if ?c then _ else _) = verdict (if ?c then _ else _) => destruct c eqn:?
  | |- verdict (match ?c with _ => _ end) = verdict (match ?c with _ => _ end) => destruct c eqn:?
  | |- verdict (reject _ _ _ _) = verdict (reject _ _ _ _) => reflexivity
  | |- ?x = ?x => reflexivity
  end.

(** The guard of a legacy block with a predecessor. *)
Lemma skip_check_legacy b v k e :
  is_legacy b = true → has_predecessor b = true → vouched b v → blocks !! previous b = Some e → k = frontier_get (lg_store L) (previous b) →
  (k =? 0) = false →
  negb (bool_decide (v = sv_valid)) && validate_message k (block_hash b) (block_signature b) =
  negb (bool_decide (sv_unknown = sv_valid)) && validate_message k (block_hash b) (block_signature b).
Proof using HL.
  intros Hl Hp Hv He -> Hk. rewrite !skip_check; [done | done |]. intros ->.
  rewrite <- (frontier_account (previous b) e He) by lia.
  destruct b; try done; simpl in Hv; destruct Hv as (e' & He' & Hs); simpl in He; congruence.
Qed.

Ltac same_verdict b Hv :=
  same_branch;
  match goal with He : block_get _ _ = Some _ |- _ =>
    let E := fresh in
    pose proof (skip_check_legacy b _ _ _ eq_refl eq_refl Hv He eq_refl) as E;
    cbn [previous block_signature] in E; rewrite E by done; same_branch
  end.

Lemma send_vouched h s w v t1 t2 :
  vouched (send_block h s w) v →
  verdict (processor_send_block constants L h s w v t1 t2) =
  verdict (processor_send_block constants L h s w sv_unknown t1 t2).
Proof using HL.
  intros Hv. unfold processor_send_block. cbv zeta. same_verdict (send_block h s w) Hv.
Qed.

Lemma receive_vouched h s w v t1 t2 :
  vouched (receive_block h s w) v →
  verdict (processor_receive_block constants L h s w v t1 t2) =
  verdict (processor_receive_block constants L h s w sv_unknown t1 t2).
Proof using HL.
  intros Hv. unfold processor_receive_block. cbv zeta. same_verdict (receive_block h s w) Hv.
Qed.

Lemma change_vouched h s w v t1 t2 :
  vouched (change_block h s w) v →
  verdict (processor_change_block constants L h s w v t1 t2) =
  verdict (processor_change_block constants L h s w sv_unknown t1 t2).
Proof using HL.
  intros Hv. unfold processor_change_block. cbv zeta. same_verdict (change_block h s w) Hv.
Qed.

(** The guard of a block that names its account. *)
Lemma skip_check_named b v key :
  (v = sv_valid → signature_good b key) →
  negb (bool_decide (v = sv_valid)) && validate_message key (block_hash b) (block_signature b) =
  negb (bool_decide (sv_unknown = sv_valid)) && validate_message key (block_hash b) (block_signature b).
Proof. intros Hs. by rewrite !skip_check. Qed.

Lemma open_vouched h s w v t1 t2 :
  vouched (open_block h s w) v →
  verdict (processor_open_block constants L h s w v t1 t2) =
  verdict (processor_open_block constants L h s w sv_unknown t1 t2).
Proof using.
  intros Hv. unfold processor_open_block. cbv zeta.
  pose proof (skip_check_named (open_block h s w) v (open_account h)) as E. cbn [block_signature] in E.
  rewrite E by (by intros ->). same_branch.
Qed.

Lemma state_impl_vouched h s w v v' t1 t2 :
  vouched (state_block h s w) v → vouched (state_block h s w) v' →
  verdict (state_block_impl constants L h s w v t1 t2) =
  verdict (state_block_impl constants L h s w v' t1 t2).
Proof using.
  intros Hv Hv'. unfold state_block_impl. cbv zeta.
  pose proof (skip_check_named (state_block h s w) v (state_account h)) as E.
  pose proof (skip_check_named (state_block h s w) v' (state_account h)) as E'. cbn [block_signature] in E, E'.
  rewrite E, E' by (by intros ->). same_branch.
Qed.

Lemma skip_check_epoch b v key :
  vouched b v → epoch_signer constants (link b) = Ok key →
  negb (bool_decide (v = sv_valid_epoch)) && validate_message key (block_hash b) (block_signature b) =
  validate_message key (block_hash b) (block_signature b).
Proof using.
  intros Hv Hk. case_bool_decide as Hx; simpl; [| done]. subst v. destruct Hv as (_ & key' & Hk' & Hs).
  rewrite Hk in Hk'. simplify_eq. by rewrite Hs.
Qed.

Lemma epoch_impl_vouched h s w v v' t1 t2 :
  vouched (state_block h s w) v → vouched (state_block h s w) v' →
  verdict (epoch_block_impl constants L h s w v t1 t2) =
  verdict (epoch_block_impl constants L h s w v' t1 t2).
Proof using.
  intros Hv Hv'. unfold epoch_block_impl. cbv zeta. same_branch.
  destruct (epoch_signer constants (state_link h)) as [key |] eqn:Hk; simpl; [| done].
  pose proof (skip_check_epoch (state_block h s w) v key Hv Hk) as E.
  pose proof (skip_check_epoch (state_block h s w) v' key Hv' Hk) as E'. cbn [block_signature] in E, E'.
  rewrite E, E'. same_branch.
Qed.

(** [validate_epoch_block] keeps vouching, and its answer does not depend on it. *)
Lemma validate_epoch_vouched h s w v :
  is_epoch_link constants (state_link h) = true → vouched (state_block h s w) v →
  ∃ code v1 v2 e, validate_epoch_block constants L h s w v = Ok (code, v1, e) ∧
    validate_epoch_block constants L h s w sv_unknown = Ok (code, v2, e) ∧
    (code ≠ bad_signature → vouched (state_block h s w) v1 ∧ vouched (state_block h s w) v2).
Proof using.
  intros Hl Hv. unfold validate_epoch_block. set (b := state_block h s w) in *.
  destruct (state_previous h =? 0) eqn:Hz; simpl; [by exists progress, v, sv_unknown; eexists |].
  destruct (block_exists (lg_store L) (state_previous h)) eqn:He.
  { apply block_exists_true in He as [e He]. unfold balance, store_balance, block_get. rewrite Hz, He. simpl.
    by exists progress, v, sv_unknown; eexists. }
  destruct (epoch_signer_ok constants _ Hl) as [key Hk]. rewrite Hk. simpl.
  assert (Hval : validate_message (state_account h) (block_hash b) s = false → vouched b sv_valid) by done.
  assert (Hvep : validate_message key (block_hash b) s = false → vouched b sv_valid_epoch) by (split; [done |]; by exists key).
  case_bool_decide as Hu; [subst v |].
  - destruct (validate_message (state_account h) (block_hash b) s) eqn:H1;
      [destruct (validate_message key (block_hash b) s) eqn:H2 |].
    all: eexists _, _, _, _; split_and!; [done | done |]; try done; intros _; split; auto.
  - destruct (validate_message (state_account h) (block_hash b) s) eqn:H1;
      [destruct (validate_message key (block_hash b) s) eqn:H2 |].
    + destruct v; try done; exfalso; simpl in Hv; unfold signature_good in Hv; simpl in Hv; [congruence |].
      destruct Hv as (_ & key' & Hk' & Hs'). rewrite Hk in Hk'. simplify_eq. subst b. congruence.
    + exists gap_previous, v, sv_valid_epoch. eexists. split_and!; [done | done |]. intros _. split; auto.
    + exists gap_previous, v, sv_valid. eexists. split_and!; [done | done |]. intros _. split; auto.
Qed.

(** A verification state that is right makes no difference to the verdict. *)
Lemma process_vouched b v t1 t2 :
  vouched b v →
  verdict (process constants L b v t1 t2) = verdict (process constants L b sv_unknown t1 t2).
Proof using HL.
  intros Hv.
  assert (Hvis : verdict (processor_visit constants L b v t1 t2) = verdict (processor_visit constants L b sv_unknown t1 t2)).
  { destruct b as [h s w | h s w | h s w | h s w | h s w]; simpl.
    - by apply send_vouched.
    - by apply receive_vouched.
    - by apply open_vouched.
    - by apply change_vouched.
    - unfold processor_state_block.
      destruct (is_epoch_link constants (state_link h)) eqn:Hl; [| by apply state_impl_vouched].
      destruct (validate_epoch_vouched h s w v Hl Hv) as (code & v1 & v2 & e & -> & -> & Hvv). simpl.
      case_bool_decide as Hcode; [| done]. destruct Hvv as [Hv1 Hv2]; [by subst |].
      destruct e; [by apply epoch_impl_vouched | by apply state_impl_vouched]. }
  unfold process. unfold verdict in *.
  destruct (processor_visit constants L b v t1 t2) as [[r1 L1] |], (processor_visit constants L b sv_unknown t1 t2) as [[r2 L2] |];
    simpl in *; [| done | done | done]. injection Hvis as -> ->. done.
Qed.

Definition is_gap (code : process_result) : bool :=
  match code with gap_previous | gap_source | gap_epoch_open_pending => true | _ => false end.

Lemma checked_vouched v key b :
  negb (bool_decide (v = sv_valid)) && validate_message key (block_hash b) (block_signature b) = false →
  v = sv_valid ∨ signature_good b key.
Proof. case_bool_decide; simpl; [by left | by right]. Qed.

(** What the ledger says of the signature of a block it refuses for a gap is right. *)
Lemma gap_vouched_legacy b v t1 t2 r L' :
  block_type_of b ≠ bt_state → vouched b v → processor_visit constants L b v t1 t2 = Ok (r, L') →
  is_gap (pr_code r) = true → vouched b (pr_verified r).
Proof using HL.
  intros Ht Hv Hp Hg. destruct b as [h s w | h s w | h s w | h s w | h s w]; simpl in Hp; [| | | | done].
  - unfold processor_send_block, reject in Hp. peel Hp; done.
  - unfold processor_receive_block, reject in Hp. peel Hp; try done; simpl.
    all: pose proof (frontier_account _ _ Heqo) as Hfa; simpl in Hfa.
    all: match goal with Hc : _ && validate_message _ _ _ = false |- _ =>
           destruct (checked_vouched v _ (receive_block h s w) Hc) as [-> | Hs]; [done |] end.
    all: eexists; split; [done |]; rewrite Hfa by lia; done.
  - unfold processor_open_block, reject in Hp. peel Hp; try done; simpl.
    match goal with Hc : _ && validate_message _ _ _ = false |- _ =>
      destruct (checked_vouched v _ (open_block h s w) Hc) as [-> | Hs]; done end.
  - unfold processor_change_block, reject in Hp. peel Hp; done.
Qed.

Lemma gap_vouched b v t1 t2 r L' :
  vouched b v → process constants L b v t1 t2 = Ok (r, L') → is_gap (pr_code r) = true →
  vouched b (pr_verified r).
Proof using HL.
  intros Hv Hp Hg. unfold process in Hp. apply bind_Ok in Hp as ([r' L1] & Hp & Hq). injection Hq as <- <-.
  destruct (decide (block_type_of b = bt_state)) as [Ht | Ht]; [| by eapply gap_vouched_legacy].
  destruct b as [| | | | h s w]; try done. simpl in Hp. unfold processor_state_block in Hp.
  apply bind_Ok in Hp as ([[code v1] e] & Hval & Hp).
  assert (Hv1 : code ≠ bad_signature → vouched (state_block h s w) v1).
  { destruct (is_epoch_link constants (state_link h)) eqn:Hl; [| by simplify_eq].
    destruct (validate_epoch_vouched h s w v Hl Hv) as (? & ? & ? & ? & E & _ & Hvv).
    rewrite E in Hval. simplify_eq. intros Hb. by apply Hvv. }
  case_bool_decide as Hcode; cycle 1.
  { unfold reject in Hp. injection Hp as <- <-. apply Hv1. by intros ->. }
  specialize (Hv1 ltac:(by subst)). destruct e.
  - assert (Hl : is_epoch_link constants (state_link h) = true) by (destruct (is_epoch_link _ _); [done | by simplify_eq]).
    unfold epoch_block_impl, reject in Hp. cbv zeta in Hp. destruct (block_or_pruned_exists _ _) in Hp; [by peel Hp |].
    apply bind_Ok in Hp as (key & Hk & Hp). peel Hp; try done. simpl.
    split; [done |]. exists key. split; [done |].
    pose proof (skip_check_epoch (state_block h s w) v1 key Hv1 Hk) as E. cbn [block_signature] in E.
    unfold signature_good. simpl. rewrite <- E. done.
  - unfold state_block_impl, reject in Hp. peel Hp; try done; simpl.
    match goal with Hc : _ && validate_message _ _ _ = false |- _ =>
      destruct (checked_vouched v1 _ (state_block h s w) Hc) as [-> | Hs]; done end.
Qed.
End verdicts.
