(* ===== verification/Pipeline.v ===== *)
(** * Runs of the block processor

    The threads of the node as one transition system: what each thread does
    next ([thread_step]) interleaved with the calls that other parts of the
    node make ([pipeline_step]), the blocks the system holds, and what it means
    for a block to wait. *)

From S2P Require Import Prelude Blocks BlockCodec Common Vote RepWeights EpochsWork Store Ledger Rollback LedgerQueries.
From S2P Require Import LedgerApply LedgerInvariant LedgerSteps LedgerTheorems UncheckedMap BlockProcessor PipelineLedger.

(** ** What the pipeline holds *)

(** A queued block with its account and verification state, wherever it is. *)
Definition item_of (w : waiting_block) : verification_item := (wb_block w, wb_account w, wb_verified w).

(** The work of the unchecked thread, in order. *)
Definition um_work (u : unchecked_map) : list unchecked_item := um_back_buffer u ++ um_buffer u.

Definition inserted (i : unchecked_item) : option verification_item :=
  match i with item_insert _ w => Some (item_of w) | item_query _ => None end.

Definition table_items (t : unchecked_table) : list verification_item := item_of <$> (map_to_list t).*2.

Definition items (p : pipeline) : list verification_item :=
  (item_of <$> pl_blocks p) ++ pl_state_blocks p ++ pl_verifying p ++
  omap inserted (um_work (pl_unchecked p)) ++ table_items (um_table (pl_unchecked p)).

Lemma elem_of_table_items t i : i ∈ table_items t ↔ ∃ k w, t !! k = Some w ∧ i = item_of w.
Proof.
  unfold table_items. rewrite list_elem_of_fmap. setoid_rewrite list_elem_of_fmap. split.
  - intros (w & -> & [k w'] & -> & Hk). exists k, w'. by rewrite elem_of_map_to_list in Hk.
  - intros (k & w & Hk & ->). exists w. split; [done |]. exists (k, w). by rewrite elem_of_map_to_list.
Qed.

Section pipeline.
Context `{Crypto} (constants : ledger_constants) (flags : processor_flags).

(** The hashes of the blocks it holds. *)
Definition tracked (p : pipeline) (h : Z) : Prop :=
  (∃ i, i ∈ items p ∧ block_hash i.1.1 = h) ∨ (∃ b, b ∈ pl_forced p ∧ block_hash b = h).

Definition stored (p : pipeline) (h : Z) : Prop := is_Some (st_blocks (lg_store (pl_ledger p)) !! h).

(** ** Steps *)

(** What the C++ types guarantee of a block, and a digest that is not the reserved 0. *)
Definition block_fits (b : block) : Prop := block_wf b ∧ block_hash b ≠ 0.

(** A block is submitted unverified. *)
Record submission (w : waiting_block) : Prop := {
  su_block : block_fits (wb_block w);
  su_verified : wb_verified w = sv_unknown;
}.

(** The account it is submitted with: none or its own.  The bootstrap passes the
    account that it asked a peer for, which need not be the block's. *)
Definition own_hint (w : waiting_block) : Prop := wb_account w = 0 ∨ wb_account w = account (wb_block w).

Inductive thread_step (p p' : pipeline) : Prop :=
| thread_verify now : verification_run constants flags now p = Some (Ok p') → thread_step p p'
| thread_process clock fuel deadline_reached ck :
    processing_run constants flags clock fuel deadline_reached ck p = Some (Done p') → thread_step p p'
| thread_unchecked now : unchecked_thread now p = Some (Ok p') → thread_step p p'.

(** Calls from the rest of the node, blocks being submitted with the accounts that
    [hint] allows; [process_local] writes to the ledger itself and so has to wait for
    the end of a batch. *)
Inductive call_step (hint : waiting_block → Prop) (p p' : pipeline) : Prop :=
| call_add w : submission w → hint w → p' = processor_add w p → call_step hint p p'
| call_active now ck b : block_fits b → p' = process_active now ck b p → call_step hint p p'
| call_local now ck b r :
    block_fits b → pl_batch p = None → process_local constants flags now ck b p = Ok (r, p') → call_step hint p p'
| call_local_async now ck b : block_fits b → process_local_async now ck b p = Ok p' → call_step hint p p'
| call_wait_write : p' = processor_wait_write p → call_step hint p p'
| call_vote g v bs c bs' started :
    gap_vote g (pl_ledger p) v (pl_gap_cache p) bs = (c, bs', started) →
    p' = pl_set_gap_cache (λ _, c) p → call_step hint p p'.

(** [unchecked_cleanup] goes on: it collects the keys of the blocks that are older
    than the cutoff, or deletes a batch of those it has collected. *)
Definition cleanup_step (now cutoff : Z) (p p' : pipeline) : Prop :=
  ∃ budget long_attempt bs, unchecked_cleanup budget now cutoff long_attempt bs p = Ok p'.

(** Everything that happens, with any account. *)
Inductive pipeline_step (p p' : pipeline) : Prop :=
| step_thread : thread_step p p' → pipeline_step p p'
| step_call : call_step (λ _, True) p p' → pipeline_step p p'
| step_force b : block_fits b → p' = processor_force b p → pipeline_step p p'
| step_cleanup now cutoff : cleanup_step now cutoff p p' → pipeline_step p p'.

(** The same with right accounts and without forced blocks, which roll other blocks
    back. *)
Inductive ordinary_step (p p' : pipeline) : Prop :=
| ordinary_thread : thread_step p p' → ordinary_step p p'
| ordinary_call : call_step own_hint p p' → ordinary_step p p'
| ordinary_cleanup now cutoff : cleanup_step now cutoff p p' → ordinary_step p p'.

(** ** Waiting *)

(** What a block waits for: a block that is not stored (or, filed under its account,
    a pending entry); a state block can also be filed under a predecessor that is
    stored in another chain, and then fits nowhere. *)
Definition lacks (L : ledger) (dependency : Z) (b : block) : Prop :=
  st_blocks (lg_store L) !! dependency = None ∨ dependency = account b ∨
  (dependency = previous b ∧ foreign_previous L b).

(** Every insertion still to be made lacks its dependency, or the query for it
    follows. *)
Fixpoint inserts_lack (L : ledger) (work : list unchecked_item) : Prop :=
  match work with
  | [] => True
  | item_insert dependency w :: rest =>
      (lacks L dependency (wb_block w) ∨ item_query dependency ∈ rest) ∧ inserts_lack L rest
  | item_query _ :: rest => inserts_lack L rest
  end.

(** The same for the table. *)
Definition table_lacks (L : ledger) (t : unchecked_table) (work : list unchecked_item) : Prop :=
  ∀ k w, t !! k = Some w → lacks L k.1 (wb_block w) ∨ item_query k.1 ∈ work.

(** ** The invariant *)

Definition item_ok (L : ledger) (i : verification_item) : Prop :=
  block_fits i.1.1 ∧ (i.1.2 = 0 ∨ i.1.2 = account i.1.1) ∧ vouched constants L i.1.1 i.2.

Record pipeline_ok (p : pipeline) : Prop := {
  po_ledger : ledger_inv (pl_ledger p);
  po_forced : pl_forced p = [];
  po_items : ∀ i, i ∈ items p → item_ok (pl_ledger p) i;
  po_verify : ∀ i, i ∈ pl_state_blocks p ∨ i ∈ pl_verifying p →
    block_type_of i.1.1 = bt_state ∨ block_type_of i.1.1 = bt_open;
  po_keys : ∀ k w, um_table (pl_unchecked p) !! k = Some w → is_u256 k.1 ∧ k.2 = block_hash (wb_block w);
  po_deps : ∀ d w, item_insert d w ∈ um_work (pl_unchecked p) → is_u256 d;
  po_queries : ∀ d, item_query d ∈ um_work (pl_unchecked p) → 0 <= d;
  po_delete : um_disable_delete (pl_unchecked p) = false;
  po_writing : um_writing_back_buffer (pl_unchecked p) = false → um_back_buffer (pl_unchecked p) = [];
  po_inserts : inserts_lack (pl_ledger p) (um_work (pl_unchecked p));
  po_table : table_lacks (pl_ledger p) (um_table (pl_unchecked p)) (um_work (pl_unchecked p));
}.

(** An unchecked table that a node can start with: every entry is a queued block that
    lacks what it is filed under.  The empty table is one. *)
Definition table_ready (L : ledger) (t : unchecked_table) : Prop :=
  ∀ k w, t !! k = Some w →
    is_u256 k.1 ∧ k.2 = block_hash (wb_block w) ∧ item_ok L (item_of w) ∧ lacks L k.1 (wb_block w).

Lemma items_spec p i :
  i ∈ items p ↔
  (∃ w, w ∈ pl_blocks p ∧ i = item_of w) ∨ i ∈ pl_state_blocks p ∨ i ∈ pl_verifying p ∨
  (∃ d w, item_insert d w ∈ um_work (pl_unchecked p) ∧ i = item_of w) ∨
  (∃ k w, um_table (pl_unchecked p) !! k = Some w ∧ i = item_of w).
Proof.
  unfold items. rewrite !elem_of_app, elem_of_table_items, list_elem_of_fmap, list_elem_of_omap.
  assert ((∃ x, x ∈ um_work (pl_unchecked p) ∧ inserted x = Some i) ↔
    (∃ d w, item_insert d w ∈ um_work (pl_unchecked p) ∧ i = item_of w)) as ->; [| by naive_solver].
  split; [intros ([d w | d] & Hx & Hi); simpl in Hi; simplify_eq; eauto |].
  intros (d & w & Hx & ->). by exists (item_insert d w).
Qed.
End pipeline.
