(* ===== verification/PipelineInvariant.v ===== *)
(** * The invariant of the block processor

    Every ordinary step keeps [pipeline_ok]: the ledger stays consistent, what
    is said of a queued signature is right, and a block that waits lacks what
    it waits for or is about to be released.  The calls below also never hit a
    release assertion. *)

From S2P Require Import Prelude Blocks BlockCodec Common Vote RepWeights EpochsWork Store Ledger Rollback LedgerQueries.
From S2P Require Import LedgerApply LedgerInvariant LedgerSteps LedgerTheorems UncheckedMap BlockProcessor PipelineLedger Pipeline.

Section growth.
Context `{Crypto} (constants : ledger_constants).

(** ** Ledgers that grow by one block *)

Record grows (L L' : ledger) (h : Z) : Prop := {
  gr_inv : ledger_inv L';
  gr_fresh : st_blocks (lg_store L) !! h = None;
  gr_dom : ∀ k, is_Some (st_blocks (lg_store L') !! k) ↔ k = h ∨ is_Some (st_blocks (lg_store L) !! k);
  gr_keep : ∀ k e, st_blocks (lg_store L) !! k = Some e →
    ∃ e', st_blocks (lg_store L') !! k = Some e' ∧ same_entry e e';
}.

Lemma accepted_grows L b v a sb new eff w :
  ledger_inv L → accepted constants L b v a sb new eff w →
  grows L (step_block L b sb a new eff w) (block_hash b).
Proof.
  intros HL Hacc. pose proof (ac_step _ _ _ _ _ _ _ _ _ Hacc) as HV.
  pose proof (step_fresh L b sb a new eff w HV) as Hf. split.
  - by apply step_block_inv.
  - done.
  - intros k. simpl. apply new_blocks_is_Some; [done | apply HV].
  - intros k e. simpl. apply new_blocks_other; [done | apply HV].
Qed.

Lemma grows_vouched L L' h b v : grows L L' h → vouched constants L b v → vouched constants L' b v.
Proof.
  intros HG. assert (Hleg : (∃ e, st_blocks (lg_store L) !! previous b = Some e ∧ signature_good b (account_calculated e)) →
    ∃ e, st_blocks (lg_store L') !! previous b = Some e ∧ signature_good b (account_calculated e)).
  { intros (e & He & Hs). destruct (gr_keep _ _ _ HG _ _ He) as (e' & He' & Hse). exists e'.
    by rewrite (same_entry_account _ _ Hse). }
  destruct v; simpl; [done | done | | done]. destruct b; auto.
Qed.

Lemma grows_item_ok L L' h i : grows L L' h → item_ok constants L i → item_ok constants L' i.
Proof. intros HG (Hb & Ha & Hv). split_and!; [done | done | by eapply grows_vouched]. Qed.

Lemma grows_lacks L L' h d b : grows L L' h → lacks L d b → lacks L' d b ∨ d = h.
Proof.
  intros HG [Hn | [-> | [-> (Ht & e & He & Ha)]]].
  - destruct (decide (d = h)) as [-> | Hne]; [by right | left; left]. apply eq_None_not_Some.
    rewrite (gr_dom _ _ _ HG), Hn. intros [? | [? ?]]; done.
  - left. right. by left.
  - left. right. right. split; [done |]. split; [done |].
    destruct (gr_keep _ _ _ HG _ _ He) as (e' & He' & Hse). exists e'. by rewrite (same_entry_account _ _ Hse).
Qed.

(** ** Waiting as the work of the unchecked thread grows *)

Lemma inserts_lack_mono L L' work more :
  (∀ d b, lacks L d b → lacks L' d b ∨ item_query d ∈ more) →
  inserts_lack L work → inserts_lack L' more → inserts_lack L' (work ++ more).
Proof.
  intros Hm Hw Hmore. induction work as [| [d w | d] work IH]; simpl in *; [done | | by apply IH].
  destruct Hw as [Hd Hw]. split; [| by apply IH]. rewrite elem_of_app.
  destruct Hd as [[Hl | Hq]%Hm | Hq]; auto.
Qed.

Lemma table_lacks_mono L L' t work more :
  (∀ d b, lacks L d b → lacks L' d b ∨ item_query d ∈ more) →
  table_lacks L t work → table_lacks L' t (work ++ more).
Proof.
  intros Hm Ht k w Hk. rewrite elem_of_app. destruct (Ht k w Hk) as [[Hl | Hq]%Hm | Hq]; auto.
Qed.

(** A query takes its entries out. *)
Lemma in_equal_range_spec d e : 0 <= d → is_u256 e.1.1 → 0 <= e.1.2 → in_equal_range d e ↔ e.1.1 = d.
Proof.
  destruct e as [[k h] w]. unfold in_equal_range, key_le, is_u256, wrap256. simpl. intros Hd Hk Hh.
  destruct (Z.lt_ge_cases (d + 1) u256_mod) as [Hlt | Hge].
  - rewrite Z.mod_small by lia.
    destruct (Z.ltb_spec d k), (Z.eqb_spec d k), (Z.leb_spec 0 h), (Z.ltb_spec (d + 1) k), (Z.eqb_spec (d + 1) k); simpl; lia.
  - assert (Hw : (d + 1) mod u256_mod <= d).
    { pose proof (Z.mod_pos_bound (d + 1) u256_mod eq_refl). lia. }
    destruct (Z.ltb_spec d k), (Z.eqb_spec d k), (Z.leb_spec 0 h); simpl; try lia.
Qed.

Lemma elem_of_full_range t e : e ∈ full_range t ↔ t !! e.1 = Some e.2.
Proof. unfold full_range. rewrite merge_sort_Permutation. destruct e. apply elem_of_map_to_list. Qed.

Lemma elem_of_equal_range t d k w :
  0 <= d → (∀ k w, t !! k = Some w → is_u256 k.1 ∧ k.2 = block_hash (wb_block w)) →
  (k, w) ∈ equal_range t d ↔ t !! k = Some w ∧ k.1 = d.
Proof.
  intros Hd Ht. unfold equal_range. rewrite list_elem_of_filter, elem_of_full_range. simpl.
  split; intros [H1 H2].
  - destruct (Ht k w H2) as [Hk Hh]. split; [done |]. apply (in_equal_range_spec d (k, w)) in H1; [done | done | done |].
    simpl. rewrite Hh. apply of_be_range.
  - destruct (Ht k w H1) as [Hk Hh]. split; [| done]. apply (in_equal_range_spec d (k, w)); [done | done | | done].
    simpl. rewrite Hh. apply of_be_range.
Qed.

Lemma full_range_NoDup t : NoDup (full_range t).*1.
Proof. unfold full_range. rewrite merge_sort_Permutation. apply NoDup_fst_map_to_list. Qed.

Lemma delete_keys_ok ks t :
  NoDup ks → (∀ k, k ∈ ks → is_Some (t !! k)) →
  ∃ t', delete_keys ks t = Ok t' ∧ ∀ k, t' !! k = if decide (k ∈ ks) then None else t !! k.
Proof.
  revert t. induction ks as [| k ks IH]; intros t Hnd Hks; cbn [delete_keys].
  { exists t. split; [done |]. intros k. case_decide as Hk; [by apply elem_of_nil in Hk | done]. }
  apply NoDup_cons in Hnd as [Hk Hnd]. destruct (Hks k) as [w Hw]; [by left |].
  unfold unchecked_del, checked_delete. rewrite Hw. cbn [mbind outcome_bind].
  destruct (IH (delete k t)) as (t' & -> & Ht').
  { done. }
  { intros j Hj. rewrite lookup_delete_ne by (by intros ->). apply Hks. by right. }
  exists t'. split; [done |]. intros j. rewrite Ht'. rewrite lookup_delete.
  repeat case_decide; try done; set_solver.
Qed.

Lemma query_range t d :
  0 <= d → (∀ k w, t !! k = Some w → is_u256 k.1 ∧ k.2 = block_hash (wb_block w)) →
  ∃ t', delete_keys (equal_range t d).*1 t = Ok t' ∧ ∀ k, t' !! k = if decide (k.1 = d) then None else t !! k.
Proof.
  intros Hd Ht. destruct (delete_keys_ok (equal_range t d).*1 t) as (t' & Hok & Ht').
  - unfold equal_range. eapply sublist_NoDup; [apply (full_range_NoDup t) |]. apply fmap_sublist, sublist_filter.
  - intros k Hk. apply list_elem_of_fmap in Hk as ([k' w] & -> & Hk). apply elem_of_equal_range in Hk as [Hk _]; [| done | done].
    by exists w.
  - exists t'. split; [done |]. intros k. rewrite Ht'. destruct (decide (k.1 = d)) as [Hkd | Hkd]; case_decide as Hin; try done.
    + destruct (t !! k) as [w |] eqn:Hk; [| done]. exfalso. apply Hin. apply list_elem_of_fmap. exists (k, w).
      split; [done |]. by apply elem_of_equal_range.
    + exfalso. apply Hkd. apply list_elem_of_fmap in Hin as ([k' w] & -> & Hk). by apply elem_of_equal_range in Hk as [_ ?].
Qed.
End growth.

(** ** Processing one block *)

Section one.
Context `{Crypto} (constants : ledger_constants) (flags : processor_flags).

Local Abbreviation item_ok := (item_ok constants).
Local Abbreviation pipeline_ok := (pipeline_ok constants).

(** The queues and the batch are the same. *)
Record same_queues (p p' : pipeline) : Prop := {
  sq_blocks : pl_blocks p' = pl_blocks p;
  sq_forced : pl_forced p' = pl_forced p;
  sq_state_blocks : pl_state_blocks p' = pl_state_blocks p;
  sq_verifying : pl_verifying p' = pl_verifying p;
  sq_batch : pl_batch p' = pl_batch p;
  sq_awaiting_write : pl_awaiting_write p' = pl_awaiting_write p;
  sq_cleaning : pl_cleaning p' = pl_cleaning p;
}.

Definition is_final (code : process_result) : bool := negb (bool_decide (code = progress)) && negb (is_gap code).

(** What processing a block does to the ledger and to the unchecked map. *)
Inductive one_done (w : waiting_block) (r : process_return) (p p' : pipeline) : Prop :=
| done_progress ds :
    pr_code r = progress → grows (pl_ledger p) (pl_ledger p') (block_hash (wb_block w)) → Forall (λ d, 0 <= d) ds →
    pl_unchecked p' = foldl (λ u d, um_trigger d u) (pl_unchecked p) (block_hash (wb_block w) :: ds) →
    one_done w r p p'
| done_gap d v :
    is_gap (pr_code r) = true → pl_ledger p' = pl_ledger p → is_u256 d →
    lacks (pl_ledger p) d (wb_block w) → vouched constants (pl_ledger p) (wb_block w) v →
    pl_unchecked p' = um_put d (WaitingBlock (wb_block w) (wb_account w) (wb_modified w) v) (pl_unchecked p) →
    one_done w r p p'
| done_refused :
    is_final (pr_code r) = true → pl_ledger p' = pl_ledger p → pl_unchecked p' = pl_unchecked p →
    one_done w r p p'.

Lemma block_fields_range b :
  block_wf b → is_u256 (previous b) ∧ is_u256 (source b) ∧ is_u256 (link b) ∧ is_u256 (account b) ∧ is_u256 (destination b).
Proof.
  intros (_ & _ & Hf). destruct b as [[] | [] | [] | [] | []]; simpl in *; unfold is_u256, u256_mod in *; lia.
Qed.

Lemma block_source_range L b k : block_wf b → block_source L (b, None) = Ok k → is_u256 k.
Proof.
  intros Hwf Hk. destruct (block_fields_range b Hwf) as (_ & Hs & Hl & _ & _).
  destruct b; simpl in *; try by simplify_eq.
  apply bind_Ok in Hk as ([] & _ & Hk); by simplify_eq.
Qed.

Lemma on_progress_ok L' ck w forced_a origin_a events p e :
  st_blocks (lg_store (pl_ledger p)) !! block_hash (wb_block w) = Some e → pl_ledger p = L' →
  block_wf (wb_block w) → (wb_account w = 0 ∨ wb_account w = account_calculated e) →
  ∃ events' p' ds, on_progress ck w forced_a origin_a events p = Ok (events', p') ∧ same_queues p p' ∧
    pl_ledger p' = pl_ledger p ∧ Forall (λ d, 0 <= d) ds ∧
    pl_unchecked p' = foldl (λ u d, um_trigger d u) (pl_unchecked p) (block_hash (wb_block w) :: ds).
Proof.
  intros He HL Hwf Ha. unfold on_progress, block_get. rewrite He. simpl.
  replace ((wb_account w =? 0) || (wb_account w =? account_calculated e)) with true by lia.
  destruct (block_fields_range _ Hwf) as (_ & _ & Hl & _ & Hd).
  destruct (opens_pending e).
  - eexists _, _, [pending_account (wb_block w)]. split; [done |]. split_and!; try done.
    repeat constructor. unfold pending_account. case_match; [apply Hl | apply Hd].
  - eexists _, _, []. split; [done |]. split_and!; try done.
Qed.

Lemma own_account e a :
  account_calculated e = a → a ≠ 0 → account e.1 = 0 ∨ account e.1 = a.
Proof. unfold account_calculated. destruct (account e.1 =? 0) eqn:Hz; [lia |]. by right. Qed.

(** On an invariant state a block that fits its types is always handled. *)
Lemma process_one_ok ck w forced_a origin_a events p :
  ledger_inv (pl_ledger p) → item_ok (pl_ledger p) (item_of w) →
  ∃ r events' p', process_one constants ck w forced_a origin_a events p = Ok (r, events', p') ∧
    same_queues p p' ∧ one_done w r p p'.
Proof.
  intros HL ([Hwf Hnz] & Ha & Hv). simpl in *. unfold process_one.
  destruct (process_step constants (pl_ledger p) HL (wb_block w) (wb_verified w) (ck_sideband ck) (ck_modified ck) Hwf Hnz)
    as [(r & Hp & Hc) | (a & sb & new & eff & rw & v' & Hacc & Hp)]; rewrite Hp; cbn [mbind outcome_bind].
  - destruct (block_fields_range _ Hwf) as (Hpr & _ & _ & Hac & _).
    assert (Hgv : is_gap (pr_code r) = true → vouched constants (pl_ledger p) (wb_block w) (pr_verified r))
      by (intros; by eapply gap_vouched).
    destruct (pr_code r) eqn:Hcode; try done;
      try (eexists _, _, _; split; [reflexivity |]; split; [done |]; apply done_refused; rewrite ?Hcode; done).
    + eexists _, _, _. split; [reflexivity |]. split; [done |].
      apply (done_gap _ _ _ _ (previous (wb_block w)) (pr_verified r)); rewrite ?Hcode; auto.
      destruct (gap_previous_lacks constants (pl_ledger p) HL _ _ _ _ _ _ Hp Hcode); [by left | right; by right].
    + destruct (gap_source_lacks constants (pl_ledger p) HL _ _ _ _ _ _ Hp Hcode) as (k & Hk & Hn). rewrite Hk.
      eexists _, _, _. split; [reflexivity |]. split; [done |].
      apply (done_gap _ _ _ _ k (pr_verified r)); rewrite ?Hcode; auto; [by eapply block_source_range | by left].
    + eexists _, _, _. split; [reflexivity |]. split; [done |].
      apply (done_gap _ _ _ _ (account (wb_block w)) (pr_verified r)); rewrite ?Hcode; auto. right; by left.
  - pose proof (accepted_grows constants _ _ _ _ _ _ _ _ HL Hacc) as HG. set (L' := step_block _ _ _ _ _ _ _) in *.
    pose proof (ac_step _ _ _ _ _ _ _ _ _ Hacc) as HV.
    assert (He : st_blocks (lg_store L') !! block_hash (wb_block w) =
      Some (wb_block w, sideband_stored (block_type_of (wb_block w)) sb)).
    { subst L'. simpl. apply new_blocks_self; [by eapply step_fresh | apply HV]. }
    destruct (on_progress_ok L' ck w forced_a origin_a events (pl_set_ledger L' p) _ He eq_refl Hwf) as (ev' & p' & ds & Hon & Hsq & HL' & Hds & Hum).
    { rewrite (vs_entry_account _ _ _ _ _ _ _ HV). destruct Ha as [-> | ->]; [by left |].
      destruct (own_account _ _ (vs_entry_account _ _ _ _ _ _ _ HV) (vs_account _ _ _ _ _ _ _ HV)); auto. }
    cbn [pr_code]. rewrite Hon. eexists _, _, _. split; [reflexivity |]. split; [by destruct Hsq |].
    apply (done_progress _ _ _ _ ds); [done | by rewrite HL' | done | done].
Qed.
(** ** Keeping the invariant *)

(** The unchecked map with more work at the end. *)
Definition um_append (more : list unchecked_item) (u : unchecked_map) : unchecked_map :=
  UncheckedMap (um_table u) (um_buffer u ++ more) (um_back_buffer u) (um_writing_back_buffer u) (um_disable_delete u).

Lemma um_triggers ds u : foldl (λ u d, um_trigger d u) u ds = um_append (item_query <$> ds) u.
Proof.
  revert u. induction ds as [| d ds IH]; intros u; simpl.
  - unfold um_append. rewrite app_nil_r. by destruct u.
  - rewrite IH. unfold um_append, um_trigger, um_push. simpl. by rewrite <- app_assoc.
Qed.

Lemma um_work_append more u : um_work (um_append more u) = um_work u ++ more.
Proof. unfold um_work. simpl. by rewrite app_assoc. Qed.

(** The queues are untouched, the ledger may have grown, and there is more work. *)
Lemma append_keeps p p' more :
  pipeline_ok p → same_queues p p' → pl_unchecked p' = um_append more (pl_unchecked p) →
  ledger_inv (pl_ledger p') → (∀ i, item_ok (pl_ledger p) i → item_ok (pl_ledger p') i) →
  (∀ d b, lacks (pl_ledger p) d b → lacks (pl_ledger p') d b ∨ item_query d ∈ more) →
  inserts_lack (pl_ledger p') more →
  (∀ d w, item_insert d w ∈ more → is_u256 d ∧ item_ok (pl_ledger p') (item_of w)) →
  (∀ d, item_query d ∈ more → 0 <= d) → pipeline_ok p'.
Proof.
  intros [HL Hf Hi Hve Hk Hd Hq Hdel Hwr Hins Htab] [Sb Sf Ss Sv _ _ _] Hu HL' Hmono Hlk Hm Hmi Hmq.
  split; rewrite ?Hu, ?um_work_append; try done.
  - by rewrite Sf.
  - intros i. rewrite items_spec, Sb, Ss, Sv, Hu, um_work_append.
    setoid_rewrite elem_of_app. intros [Hx | [Hx | [Hx | [(d & w & [Hx | Hx] & ->) | Hx]]]].
    all: try (apply Hmono, Hi, items_spec; tauto).
    + apply Hmono, Hi, items_spec. do 3 right. left. eauto.
    + by apply (Hmi d).
  - by rewrite Ss, Sv.
  - intros d w [Hx | Hx]%elem_of_app; [by eapply Hd | by eapply Hmi].
  - intros d [Hx | Hx]%elem_of_app; [by apply Hq | by apply Hmq].
  - by eapply inserts_lack_mono.
  - by eapply table_lacks_mono.
Qed.

Lemma hash_nonneg b : 0 <= block_hash b.
Proof. apply of_be_range. Qed.

Lemma one_keeps w r p p' :
  pipeline_ok p → item_ok (pl_ledger p) (item_of w) → same_queues p p' → one_done w r p p' → pipeline_ok p'.
Proof.
  intros Hp (Hb & Ha & _) Hsq [ds Hc HG Hds Hu | d v Hg HL Hd Hlk Hv Hu | Hc HL Hu].
  - rewrite um_triggers in Hu. eapply append_keeps; [done | done | done | apply HG | | | | |].
    + intros i. by apply (grows_item_ok constants _ _ _ _ HG).
    + intros d b Hlk. destruct (grows_lacks _ _ _ d b HG Hlk) as [? | ->]; [by left | right; by left].
    + clear. generalize (block_hash (wb_block w) :: ds). intros l. induction l; simpl; auto.
    + intros d w' (x & ? & _)%list_elem_of_fmap. done.
    + intros d (x & [= ->] & Hx)%list_elem_of_fmap. apply elem_of_cons in Hx as [-> | Hx]; [apply hash_nonneg |].
      rewrite Forall_forall in Hds. by apply Hds.
  - eapply (append_keeps p p' [item_insert d (WaitingBlock (wb_block w) (wb_account w) (wb_modified w) v)]);
      rewrite ?HL; try done; [apply Hp | auto | by repeat split; left | | ].
    + intros d' w' Hx%list_elem_of_singleton. simplify_eq. split; [done |]. by split_and!.
    + by intros d' Hx%list_elem_of_singleton.
  - eapply (append_keeps p p' []); rewrite ?HL; try done; [| apply Hp | auto | | ].
    + rewrite Hu. unfold um_append. rewrite app_nil_r. by destruct (pl_unchecked p).
    + by intros d w' ?%elem_of_nil.
    + by intros d ?%elem_of_nil.
Qed.
(** Nothing the invariant speaks of has changed. *)
Lemma same_keeps p p' :
  pipeline_ok p → pl_blocks p' = pl_blocks p → pl_forced p' = pl_forced p → pl_state_blocks p' = pl_state_blocks p →
  pl_verifying p' = pl_verifying p → pl_unchecked p' = pl_unchecked p → pl_ledger p' = pl_ledger p → pipeline_ok p'.
Proof.
  intros [HL Hf Hi Hve Hk Hd Hq Hdel Hwr Hins Htab] Sb Sf Ss Sv Su SL.
  split; rewrite ?Sf, ?Ss, ?Sv, ?Su, ?SL; try done. intros i. unfold items. rewrite Sb, Ss, Sv, Su. apply Hi.
Qed.

(** Items move between the queues; what is new is sound. *)
Lemma queues_keep p p' :
  pipeline_ok p → pl_forced p' = pl_forced p → pl_unchecked p' = pl_unchecked p → pl_ledger p' = pl_ledger p →
  (∀ w, w ∈ pl_blocks p' → w ∈ pl_blocks p ∨ item_ok (pl_ledger p) (item_of w)) →
  (∀ i, i ∈ pl_state_blocks p' ∨ i ∈ pl_verifying p' →
    (i ∈ pl_state_blocks p ∨ i ∈ pl_verifying p) ∨
    item_ok (pl_ledger p) i ∧ (block_type_of i.1.1 = bt_state ∨ block_type_of i.1.1 = bt_open)) → pipeline_ok p'.
Proof.
  intros [HL Hf Hi Hve Hk Hd Hq Hdel Hwr Hins Htab] Sf Su SL Hb Hs.
  split; rewrite ?Sf, ?Su, ?SL; try done.
  - intros i. rewrite items_spec, Su. intros [(w & Hw & ->) | [Hx | [Hx | Hx]]].
    + destruct (Hb w Hw) as [Hw' |]; [| done]. apply Hi, items_spec. left. eauto.
    + destruct (Hs i) as [Hx' | [? _]]; [by left | | done]. apply Hi, items_spec. tauto.
    + destruct (Hs i) as [Hx' | [? _]]; [by right | | done]. apply Hi, items_spec. tauto.
    + apply Hi, items_spec. tauto.
  - intros i Hx. destruct (Hs i Hx) as [Hx' | [_ ?]]; [by apply Hve | done].
Qed.

Lemma add_keeps w p : pipeline_ok p → item_ok (pl_ledger p) (item_of w) → pipeline_ok (processor_add w p).
Proof.
  intros Hp Hw. unfold processor_add. destruct (needs_verification w) eqn:Hn.
  - apply (queues_keep p); simpl; try done; [by left |]. setoid_rewrite elem_of_app. setoid_rewrite list_elem_of_singleton.
    intros i [[Hx | ->] | Hx]; [by left; left | right | by left; right]. split; [done |]. simpl.
    unfold needs_verification in Hn. rewrite !andb_true_iff, !orb_true_iff, !bool_decide_eq_true in Hn.
    destruct Hn as (_ & [[? | ?] | Ha]); [by left | by right |].
    destruct Hw as (_ & Hacc & _). simpl in Hacc. destruct (wb_block w); simpl in *; auto; lia.
  - apply (queues_keep p); simpl; try done; [| by left]. setoid_rewrite elem_of_app. setoid_rewrite list_elem_of_singleton.
    intros w' [Hx | ->]; auto.
Qed.

Lemma adds_keep ws p :
  pipeline_ok p → (∀ w, w ∈ ws → item_ok (pl_ledger p) (item_of w)) →
  pipeline_ok (foldl (λ p w, processor_add w p) p ws).
Proof.
  revert p. induction ws as [| w ws IH]; intros p Hp Hws; simpl; [done |]. apply IH.
  - apply add_keeps; [done |]. apply Hws. by left.
  - intros w' Hw'. replace (pl_ledger (processor_add w p)) with (pl_ledger p) by (unfold processor_add; by case_match).
    apply Hws. by right.
Qed.

(** ** The verification thread *)

Lemma verify_item_ok i :
  ∃ v key, verification_account constants i.1.1 i.1.2 = Ok key ∧ verify_item constants i = Ok v ∧
    (v = true → signature_good i.1.1 key).
Proof.
  unfold verify_item. assert (∃ key, verification_account constants i.1.1 i.1.2 = Ok key) as [key Hk].
  { unfold verification_account. destruct (negb (link i.1.1 =? 0) && is_epoch_link constants (link i.1.1)) eqn:He; [| by eexists].
    apply andb_true_iff in He as [_ He]. by apply epoch_signer_ok. }
  rewrite Hk. simpl. eexists _, key. split_and!; [done | done |]. by intros Hv%negb_true_iff.
Qed.

Lemma verified_item_keeps now i p :
  pipeline_ok p → item_ok (pl_ledger p) i → (block_type_of i.1.1 = bt_state ∨ block_type_of i.1.1 = bt_open) →
  ∃ v, verify_item constants i = Ok v ∧ pipeline_ok (verified_item constants now i v p) ∧
    pl_ledger (verified_item constants now i v p) = pl_ledger p.
Proof.
  intros Hp (Hb & Ha & _) Ht. destruct (verify_item_ok i) as (v & key & Hkey & Hv & Hs). exists v. split; [done |].
  destruct i as [[b a] v0]. unfold verified_item, verification_account in *. simpl in *.
  destruct (negb (link b =? 0) && is_epoch_link constants (link b)) eqn:He.
  - split; [| done]. apply andb_true_iff in He as [_ He]. apply (queues_keep p); simpl; try done; [| by left].
    setoid_rewrite elem_of_app. setoid_rewrite list_elem_of_singleton. intros w [Hw | ->]; [by left | right].
    split_and!; [done | done |]. simpl. destruct v; [| done]. split; [done |]. exists key. auto.
  - destruct v; (split; [| done]); [| by apply (same_keeps p)].
    apply (queues_keep p); simpl; try done; [| by left].
    setoid_rewrite elem_of_app. setoid_rewrite list_elem_of_singleton. intros w [Hw | ->]; [by left | right].
    split_and!; [done | done |]. simpl in *. specialize (Hs eq_refl).
    assert (key = account b) as ->; [| by destruct b, Ht].
    destruct (a =? 0) eqn:Hz; simpl in Hkey; simplify_eq; [done |]. destruct Ha; [lia | done].
Qed.

Lemma verified_items_keep now l p :
  pipeline_ok p →
  (∀ i, i ∈ l → item_ok (pl_ledger p) i ∧ (block_type_of i.1.1 = bt_state ∨ block_type_of i.1.1 = bt_open)) →
  ∃ p', process_verified_state_blocks constants now l p = Ok p' ∧ pipeline_ok p'.
Proof.
  revert p. induction l as [| i l IH]; intros p Hp Hl; simpl; [by exists p |].
  destruct (Hl i) as [Hi Ht]; [by left |].
  destruct (verified_item_keeps now i p Hp Hi Ht) as (v & -> & Hp' & HL'). simpl.
  apply IH; [done |]. intros j Hj. rewrite HL'. apply Hl. by right.
Qed.

Lemma verification_run_keeps now p o :
  pipeline_ok p → verification_run constants flags now p = Some o → ∃ p', o = Ok p' ∧ pipeline_ok p'.
Proof.
  intros Hp Ho. unfold verification_run in Ho. destruct (pl_verifying p) as [| i l] eqn:Hv.
  - destruct (pl_state_blocks p) as [| j l] eqn:Hs; [done |]. injection Ho as <-. eexists. split; [done |].
    apply (queues_keep p); try done; simpl; [by left |]. rewrite Hs. intros i Hi. left. left.
    rewrite <- (take_drop (pf_max_verification_batch flags) (j :: l)). apply elem_of_app. tauto.
  - injection Ho as <-. apply (verified_items_keep now (i :: l)).
    + apply (queues_keep p); try done; simpl; [by left |]. intros j [Hj | Hj%elem_of_nil]; [by left; left | done].
    + simpl. intros j Hj. rewrite <- Hv in Hj. split; [apply (po_items _ _ Hp), items_spec | apply (po_verify _ _ Hp)]; tauto.
Qed.
(** ** The thread of the unchecked map *)

(** Only the unchecked map changes. *)
Lemma unchecked_keeps p u :
  pipeline_ok p →
  (∀ d w, item_insert d w ∈ um_work u → is_u256 d ∧ item_ok (pl_ledger p) (item_of w)) →
  (∀ d, item_query d ∈ um_work u → 0 <= d) →
  (∀ k w, um_table u !! k = Some w →
    is_u256 k.1 ∧ k.2 = block_hash (wb_block w) ∧ item_ok (pl_ledger p) (item_of w)) →
  um_disable_delete u = false → (um_writing_back_buffer u = false → um_back_buffer u = []) →
  inserts_lack (pl_ledger p) (um_work u) → table_lacks (pl_ledger p) (um_table u) (um_work u) →
  pipeline_ok (pl_set_unchecked (λ _, u) p).
Proof.
  intros [HL Hf Hi Hve Hk Hd Hq Hdel Hwr Hins Htab] Hui Huq Hut ? ? ? ?.
  split; try assumption.
  - intros i. rewrite items_spec. simpl. intros [Hx | [Hx | [Hx | [(d & w & Hx & ->) | (k & w & Hx & ->)]]]].
    + apply Hi, items_spec. tauto.
    + apply Hi, items_spec. tauto.
    + apply Hi, items_spec. tauto.
    + by apply (Hui d).
    + by apply (Hut k).
  - intros k w Hx. destruct (Hut k w Hx) as (? & ? & _). done.
  - intros d w Hx. by apply (Hui d w).
Qed.

Lemma table_item_ok p k w : pipeline_ok p → um_table (pl_unchecked p) !! k = Some w → item_ok (pl_ledger p) (item_of w).
Proof. intros Hp Hk. apply (po_items _ _ Hp), items_spec. do 4 right. eauto. Qed.

Lemma insert_item_ok p d w : pipeline_ok p → item_insert d w ∈ um_work (pl_unchecked p) → item_ok (pl_ledger p) (item_of w).
Proof. intros Hp Hk. apply (po_items _ _ Hp), items_spec. do 3 right. left. eauto. Qed.

(** One item of the back buffer. *)
Lemma visit_item_keeps now p i rest :
  pipeline_ok p → um_back_buffer (pl_unchecked p) = i :: rest →
  ∃ t ws, visit_item now (um_disable_delete (pl_unchecked p)) (um_table (pl_unchecked p)) i = Ok (t, ws) ∧
    pipeline_ok (pl_set_unchecked (λ u, UncheckedMap t (um_buffer u) rest true (um_disable_delete u)) p) ∧
    ∀ w, w ∈ ws → item_ok (pl_ledger p) (item_of w).
Proof.
  intros Hp Hb. pose proof Hp as [HL Hf Hi Hve Hk Hd Hq Hdel Hwr Hins Htab].
  assert (Hw : um_work (pl_unchecked p) = i :: rest ++ um_buffer (pl_unchecked p)) by (unfold um_work; by rewrite Hb).
  pose proof (insert_item_ok p) as Hio. rewrite Hw in Hd, Hq, Hins, Htab, Hio. rewrite Hdel. destruct i as [d w | d]; simpl.
  - eexists _, []. split; [done |]. split; [| by intros ? ?%elem_of_nil]. destruct Hins as [Hlk Hins].
    set (w' := WaitingBlock _ _ _ _).
    assert (Hiw : item_ok (pl_ledger p) (item_of w')) by (apply (Hio d w); [done | by left]).
    apply (unchecked_keeps p); simpl; try done.
    + intros d' w0 Hx. split; [eapply Hd | eapply Hio]; [right | |right]; done.
    + intros d' Hx. apply Hq. by right.
    + intros k w0. unfold unchecked_put. rewrite lookup_insert_Some. intros [[<- <-] | [_ Hk']]; simpl.
      * split_and!; [apply (Hd d w); by left | done | done].
      * destruct (Hk _ _ Hk'). split_and!; [done | done | by eapply table_item_ok].
    + intros k w0. unfold unchecked_put. rewrite lookup_insert_Some. intros [[<- <-] | [_ Hk']]; simpl; [done |].
      destruct (Htab k w0 Hk') as [? | [? | ?]%elem_of_cons]; [by left | done | by right].
  - assert (Hd0 : 0 <= d) by (apply Hq; by left).
    destruct (query_range (um_table (pl_unchecked p)) d Hd0 Hk) as (t' & Ht' & Hlk). rewrite Ht'.
    eexists t', _. split; [done |]. split.
    + apply (unchecked_keeps p); simpl; try done.
      * intros d' w0 Hx. split; [eapply Hd | eapply Hio]; [right | |right]; done.
      * intros d' Hx. apply Hq. by right.
      * intros k w0. rewrite Hlk. case_decide; [done |]. intros Hk'. destruct (Hk _ _ Hk').
        split_and!; [done | done | by eapply table_item_ok].
      * intros k w0. rewrite Hlk. case_decide as Hkd; [done |]. intros Hk'.
        destruct (Htab k w0 Hk') as [? | [? | ?]%elem_of_cons]; [by left | congruence | by right].
    + intros w (e & -> & He)%list_elem_of_fmap. destruct e as [k w]. apply elem_of_equal_range in He as [Hk' _]; [| done | done].
      by eapply table_item_ok.
Qed.

Lemma unchecked_thread_keeps now p o :
  pipeline_ok p → unchecked_thread now p = Some o → ∃ p', o = Ok p' ∧ pipeline_ok p'.
Proof.
  intros Hp Ho. pose proof Hp as [HL Hf Hi Hve Hk Hd Hq Hdel Hwr Hins Htab].
  unfold unchecked_thread, unchecked_run in Ho.
  destruct (um_writing_back_buffer (pl_unchecked p)) eqn:Hw.
  - destruct (um_back_buffer (pl_unchecked p)) as [| i rest] eqn:Hb; injection Ho as <-.
    + simpl. eexists. split; [done |]. apply (unchecked_keeps p); try done; unfold um_work in *; simpl; rewrite Hb in *; try done.
      * intros d w Hx. split; [by eapply Hd | eapply insert_item_ok; [done | unfold um_work; by rewrite Hb]].
      * intros k w Hx. destruct (Hk _ _ Hx). split_and!; [done | done | by eapply table_item_ok].
    + destruct (visit_item_keeps now p i rest Hp Hb) as (t & ws & -> & Hp' & Hws). simpl. eexists. split; [done |].
      by apply (adds_keep ws (pl_set_unchecked _ p)).
  - specialize (Hwr eq_refl). case_bool_decide; [done |]. injection Ho as <-. simpl. eexists. split; [done |].
    unfold um_work in *. rewrite Hwr in *. simpl in *.
    apply (unchecked_keeps p); try done; unfold um_work; simpl; rewrite ?app_nil_r; try done.
    + intros d w Hx. split; [by eapply Hd | eapply insert_item_ok; [done | unfold um_work; by rewrite Hwr]].
    + intros k w Hx. destruct (Hk _ _ Hx). split_and!; [done | done | by eapply table_item_ok].
Qed.
(** ** The processing thread *)

Lemma process_live_ok e origin_a p : ∃ evs, process_live constants flags e origin_a p = Ok (pl_emit evs p).
Proof.
  unfold process_live, dependents_confirmed.
  assert (∃ d, dependent_blocks constants (pl_ledger p) (e.1, Some e.2) = Ok d) as [[d0 d1] ->].
  { destruct e as [b sb]. destruct b; simpl; try by eexists. destruct (is_epoch_link _ _); by eexists. }
  simpl. by eexists.
Qed.

Lemma run_events_ok ck events p :
  ∃ p', run_events constants flags ck events p = Ok p' ∧ same_queues p p' ∧
    pl_ledger p' = pl_ledger p ∧ pl_unchecked p' = pl_unchecked p.
Proof.
  revert p. induction events as [| e events IH]; intros p; simpl; [by exists p |].
  destruct e as [e o | h | h d | b]; [destruct (process_live_ok e o p) as [evs ->] | | |]; cbn [mbind outcome_bind];
    match goal with |- context [run_events _ _ _ _ ?q] => destruct (IH q) as (p' & -> & [] & HL & Hu) end;
    (exists p'; split_and!; [done | by split | done | done]).
Qed.

(** A round without forced blocks. *)
Lemma batch_round_ok clock fuel ck ba w rest p :
  pipeline_ok p → pl_blocks p = w :: rest →
  ∃ r ev' p1 p', process_one constants ck w false origin_remote (ba_post_events ba) (pl_set_blocks (λ _, rest) p) = Ok (r, ev', p1) ∧
    same_queues (pl_set_blocks (λ _, rest) p) p1 ∧ one_done w r p p1 ∧
    p' = pl_set_batch (Some (Batch (S (ba_number_of_blocks_processed ba)) ev')) p1 ∧
    batch_round constants clock fuel ck ba p = Done p' ∧ pipeline_ok p'.
Proof.
  intros Hp Hb. unfold batch_round, next_queued. rewrite (po_forced _ _ Hp), Hb.
  assert (Hw : item_ok (pl_ledger p) (item_of w)).
  { apply (po_items _ _ Hp), items_spec. left. exists w. rewrite Hb. split; [by left | done]. }
  set (p0 := pl_set_blocks (λ _, rest) p).
  assert (Hp0 : pipeline_ok p0).
  { apply (queues_keep p); try done; simpl; [| by left]. intros w' Hw'. left. rewrite Hb. by right. }
  destruct (process_one_ok ck w false origin_remote (ba_post_events ba) p0 (po_ledger _ _ Hp0) Hw)
    as (r & ev' & p1 & Hone & Hsq & Hd).
  exists r, ev', p1. eexists. split_and!; [done | done | by destruct Hd; econstructor | done | |].
  - cbn [mbind run_bind]. rewrite Hone. done.
  - apply (same_keeps p1); try done. by eapply one_keeps.
Qed.

Lemma processing_run_keeps clock fuel d ck p o :
  pipeline_ok p → processing_run constants flags clock fuel d ck p = Some o → ∃ p', o = Done p' ∧ pipeline_ok p'.
Proof.
  intros Hp Ho. unfold processing_run in Ho. destruct (pl_batch p) as [ba |] eqn:Hba; cycle 1.
  { destruct (have_blocks_ready p); [| done]. injection Ho as <-. eexists. split; [done |]. by apply (same_keeps p). }
  injection Ho as <-. destruct (batch_continues flags d ba p) eqn:Hc.
  - unfold batch_continues, have_blocks_ready in Hc. rewrite (po_forced _ _ Hp) in Hc.
    destruct (pl_blocks p) as [| w rest] eqn:Hb; [done |].
    destruct (batch_round_ok clock fuel ck ba w rest p Hp Hb) as (r & ev' & p1 & p' & _ & _ & _ & _ & -> & Hp').
    by exists p'.
  - set (p0 := pl_set_batch None (pl_set_awaiting_write false p)).
    destruct (run_events_ok ck (ba_post_events ba) p0) as (p' & -> & [] & HL & Hu). exists p'. split; [done |].
    by apply (same_keeps p).
Qed.

Lemma thread_step_keeps p p' : pipeline_ok p → thread_step constants flags p p' → pipeline_ok p'.
Proof.
  intros Hp [now Hs | clock fuel d ck Hs | now Hs].
  - destruct (verification_run_keeps now p _ Hp Hs) as (q & Hq & Hok). by simplify_eq.
  - destruct (processing_run_keeps clock fuel d ck p _ Hp Hs) as (q & Hq & Hok). by simplify_eq.
  - destruct (unchecked_thread_keeps now p _ Hp Hs) as (q & Hq & Hok). by simplify_eq.
Qed.

(** ** Calls *)

Lemma submission_ok L w : submission w → own_hint w → item_ok L (item_of w).
Proof. intros [Hb Hv] Ha. split_and!; [done | done |]. simpl. by rewrite Hv. Qed.

Lemma submit_block b a m : block_fits b → submission (WaitingBlock b a m sv_unknown).
Proof. by split. Qed.

Lemma call_step_keeps p p' : pipeline_ok p → call_step constants flags own_hint p p' → pipeline_ok p'.
Proof.
  intros Hp [w Hw Hh -> | now ck b Hb -> | now ck b r Hb _ Hl | now ck b Hb Hl | -> | g v bs c bs' l _ ->].
  - apply add_keeps; [done | by apply submission_ok].
  - apply add_keeps; [by apply (same_keeps p) |]. apply submission_ok; [by apply submit_block | by left].
  - unfold process_local in Hl. set (p0 := processor_wait_write _) in Hl.
    assert (Hp0 : pipeline_ok p0) by (by apply (same_keeps p)).
    set (w := WaitingBlock _ _ _ _) in Hl.
    assert (Hw : item_ok (pl_ledger p0) (item_of w)) by (apply submission_ok; [by apply submit_block | by right]).
    destruct (process_one_ok ck w false origin_local [] p0 (po_ledger _ _ Hp0) Hw)
      as (r' & ev' & p1 & Hone & Hsq & Hd). rewrite Hone in Hl. cbn [mbind outcome_bind] in Hl.
    destruct (run_events_ok ck ev' p1) as (p2 & E & [] & HL & Hu). rewrite E in Hl. cbn [mbind outcome_bind] in Hl.
    injection Hl as _ <-. assert (pipeline_ok p1) by (by eapply one_keeps). by apply (same_keeps p1).
  - unfold process_local_async, processor_add_local in Hl. destruct (_ && _) eqn:Hc; [| done]. injection Hl as <-. simpl.
    rewrite andb_true_iff, orb_true_iff, !bool_decide_eq_true in Hc. simpl in Hc. destruct Hc as [_ Hc].
    apply (queues_keep p); simpl; try done; [by left |]. setoid_rewrite elem_of_app. setoid_rewrite list_elem_of_singleton.
    intros i [[Hx | ->] | Hx]; [by left; left | right | by left; right]. split.
    + apply (submission_ok _ (WaitingBlock b (account b) now sv_unknown)); [by apply submit_block | by right].
    + simpl. destruct Hc as [? | Hc]; [by left |]. destruct b; simpl in *; auto; lia.
  - by apply (same_keeps p).
  - by apply (same_keeps p).
Qed.

Lemma delete_existing_ok ks t :
  ∃ t', delete_existing ks t = Ok t' ∧ ∀ k, t' !! k = if decide (k ∈ ks) then None else t !! k.
Proof.
  revert t. induction ks as [| k ks IH]; intros t; cbn [delete_existing].
  { exists t. split; [done |]. intros k. case_decide as Hk; [by apply elem_of_nil in Hk | done]. }
  assert (∃ t1, (if unchecked_exists t k then unchecked_del t k else Ok t) = Ok t1 ∧ t1 = delete k t) as (t1 & -> & ->).
  { unfold unchecked_exists, unchecked_del, checked_delete. case_bool_decide as Hk; eexists; split; try done.
    - by destruct Hk as [w ->].
    - symmetry. apply delete_id. by apply eq_None_not_Some. }
  cbn [mbind outcome_bind]. destruct (IH (delete k t)) as (t' & -> & Ht'). exists t'. split; [done |].
  intros j. rewrite Ht', lookup_delete. repeat case_decide; try done; set_solver.
Qed.

Lemma cleaning_list_old budget room now cutoff l k :
  k ∈ cleaning_list budget room now cutoff l → ∃ w, (k, w) ∈ l ∧ cutoff < wrap64 (now - wb_modified w).
Proof.
  revert room l. induction budget as [| budget IH]; intros [| room] l; simpl; try by intros ?%elem_of_nil.
  destruct l as [| [j w] l]; [by intros ?%elem_of_nil |]. destruct (cutoff <? wrap64 (now - wb_modified w)) eqn:Hc.
  - intros [-> | Hk]%elem_of_cons; [exists w; split; [by left | lia] |].
    destruct (IH _ _ Hk) as (w' & ? & ?). exists w'. split; [by right | done].
  - intros Hk. destruct (IH _ _ Hk) as (w' & ? & ?). exists w'. split; [by right | done].
Qed.

(** What [unchecked_cleanup] does: the keys of old entries are collected, or entries
    whose keys were collected are taken out. *)
Lemma cleanup_shape now cutoff p p' :
  cleanup_step now cutoff p p' →
  (pl_cleaning p = [] ∧ ∃ ks, p' = pl_set_cleaning ks p ∧
    ∀ k, k ∈ ks → ∃ w, um_table (pl_unchecked p) !! k = Some w ∧ cutoff < wrap64 (now - wb_modified w)) ∨
  ∃ t ks rest, pl_cleaning p = ks ++ rest ∧ p' = pl_set_cleaning rest (pl_set_unchecked (um_set_table (λ _, t)) p) ∧
    ∀ k, t !! k = if decide (k ∈ ks) then None else um_table (pl_unchecked p) !! k.
Proof.
  intros (budget & la & bs & Hc). unfold unchecked_cleanup in Hc. destruct (pl_cleaning p) as [| k0 ks] eqn:Hk.
  - left. injection Hc as <-. split; [done |]. eexists. split; [done |]. intros k Hin. unfold collect_old in Hin.
    destruct (_ && _) in Hin; [| by apply elem_of_nil in Hin].
    apply cleaning_list_old in Hin as (w & Hw & ?). apply elem_of_full_range in Hw. by exists w.
  - right. unfold delete_batch in Hc.
    match type of Hc with context [delete_existing ?ks ?t] => destruct (delete_existing_ok ks t) as (t' & E & Ht'); rewrite E in Hc end.
    injection Hc as <-. exists t', (take cleaning_batch_size (k0 :: ks)), (drop cleaning_batch_size (k0 :: ks)).
    split_and!; [by rewrite take_drop | done | done].
Qed.

Lemma cleanup_step_keeps now cutoff p p' : pipeline_ok p → cleanup_step now cutoff p p' → pipeline_ok p'.
Proof.
  intros Hp [(_ & ks & -> & _) | (t & ks & rest & _ & -> & Ht)]%cleanup_shape; [by apply (same_keeps p) |].
  apply (same_keeps (pl_set_unchecked (um_set_table (λ _, t)) p)); try done.
  pose proof Hp as [HL Hf Hi Hve Hk Hd Hq Hdel Hwr Hins Htab].
  assert (Htk : ∀ k w, t !! k = Some w → um_table (pl_unchecked p) !! k = Some w) by (intros k w; rewrite Ht; by case_decide).
  apply (unchecked_keeps p); simpl; try done.
  - intros d w Hx. split; [by eapply Hd | by eapply insert_item_ok].
  - intros k w Hx%Htk. destruct (Hk _ _ Hx). split_and!; [done | done | by eapply table_item_ok].
  - intros k w Hx%Htk. by apply Htab.
Qed.

Lemma ordinary_step_keeps p p' : pipeline_ok p → ordinary_step constants flags p p' → pipeline_ok p'.
Proof.
  intros Hp [Hs | Hs | now cutoff Hs];
    eauto using thread_step_keeps, call_step_keeps, cleanup_step_keeps.
Qed.

Lemma ordinary_steps_keep p p' : pipeline_ok p → rtc (ordinary_step constants flags) p p' → pipeline_ok p'.
Proof. intros Hp Hs. induction Hs; eauto using ordinary_step_keeps. Qed.

(** A node starts with empty queues on a ledger and an unchecked table. *)
Lemma pipeline_new_ok L t : ledger_inv L → table_ready constants L t → pipeline_ok (pipeline_new L t false).
Proof.
  intros HL Ht. split; simpl; try done.
  - intros i. rewrite items_spec. simpl.
    intros [(w & ?%elem_of_nil & _) | [?%elem_of_nil | [?%elem_of_nil | [(d & w & ?%elem_of_nil & _) | (k & w & Hk & ->)]]]]; try done.
    by apply (Ht k w).
  - by intros i [?%elem_of_nil | ?%elem_of_nil].
  - intros k w Hk. destruct (Ht k w Hk) as (? & ? & _). done.
  - by intros d w ?%elem_of_nil.
  - by intros d ?%elem_of_nil.
  - intros k w Hk. left. by apply (Ht k w).
Qed.

Lemma table_ready_empty L : table_ready constants L ∅.
Proof. by intros k w ?. Qed.
End one.
