(* ===== verification/PipelineDrain.v ===== *)
(** * The threads of the block processor come to rest

    Left alone, the three threads empty their queues: a measure of the state
    decreases with everything they do.  What decreases first is the number of
    held blocks that are not stored, then the queries of the unchecked map,
    then the weighted length of the queues. *)

From S2P Require Import Prelude Blocks BlockCodec Common Vote RepWeights EpochsWork Store Ledger Rollback LedgerQueries.
From S2P Require Import LedgerApply LedgerInvariant LedgerSteps LedgerTheorems UncheckedMap BlockProcessor PipelineLedger Pipeline PipelineInvariant.

Section drain.
Context `{Crypto} (constants : ledger_constants) (flags : processor_flags).

Local Abbreviation pipeline_ok := (pipeline_ok constants).

(** A step of a thread in which the deadline does not pass before the first block of
    a batch. *)
Inductive fair_step (p p' : pipeline) : Prop :=
| fair_verify now : verification_run constants flags now p = Some (Ok p') → fair_step p p'
| fair_process clock fuel deadline_reached ck :
    (deadline_reached = true → ∀ ba, pl_batch p = Some ba → ba_number_of_blocks_processed ba ≠ 0%nat) →
    processing_run constants flags clock fuel deadline_reached ck p = Some (Done p') → fair_step p p'
| fair_unchecked now : unchecked_thread now p = Some (Ok p') → fair_step p p'.

Lemma fair_thread p p' : fair_step p p' → thread_step constants flags p p'.
Proof. intros [now Hs | clock fuel d ck _ Hs | now Hs]; [by eapply thread_verify | by eapply thread_process | by eapply thread_unchecked]. Qed.

(** All threads wait. *)
Record quiet (p : pipeline) : Prop := {
  qu_blocks : pl_blocks p = [];
  qu_state_blocks : pl_state_blocks p = [];
  qu_verifying : pl_verifying p = [];
  qu_batch : pl_batch p = None;
  qu_work : um_work (pl_unchecked p) = [];
}.

(** ** The measure *)

Definition hashes (p : pipeline) : gset Z := list_to_set ((λ i : verification_item, block_hash i.1.1) <$> items p).

Definition unstored (p : pipeline) : gset Z := filter (λ h, st_blocks (lg_store (pl_ledger p)) !! h = None) (hashes p).

Definition is_query (i : unchecked_item) : Prop := match i with item_query _ => True | _ => False end.

#[local] Instance is_query_dec i : Decision (is_query i).
Proof. destruct i; simpl; apply _. Defined.

Definition queries (p : pipeline) : nat := length (filter is_query (um_work (pl_unchecked p))).

Definition batch_weight (p : pipeline) : nat :=
  match pl_batch p with
  | Some ba => match ba_number_of_blocks_processed ba with O => 1 | S _ => 3 end
  | None => if decide (pl_blocks p = []) then 0 else 2
  end.

Definition weight_of (p : pipeline) : nat :=
  14 * length (pl_state_blocks p) + 12 * length (pl_verifying p) + 8 * length (pl_blocks p) +
  4 * length (um_buffer (pl_unchecked p)) + 2 * length (um_back_buffer (pl_unchecked p)) +
  (if um_writing_back_buffer (pl_unchecked p) then 1 else 0) + (if pl_awaiting_write p then 2 else 0) + batch_weight p.

Record smaller (p' p : pipeline) : Prop := {
  sm_unstored : (size (unstored p') <= size (unstored p))%nat;
  sm_rest : (size (unstored p') < size (unstored p))%nat ∨
    (queries p' < queries p)%nat ∨ (queries p' <= queries p)%nat ∧ (weight_of p' < weight_of p)%nat;
}.

Lemma elem_of_hashes p h : h ∈ hashes p ↔ ∃ i, i ∈ items p ∧ block_hash i.1.1 = h.
Proof. unfold hashes. rewrite elem_of_list_to_set, list_elem_of_fmap. naive_solver. Qed.

Lemma unstored_le p p' :
  pl_ledger p' = pl_ledger p → (∀ i, i ∈ items p' → ∃ j, j ∈ items p ∧ block_hash j.1.1 = block_hash i.1.1) →
  (size (unstored p') <= size (unstored p))%nat.
Proof.
  intros HL Hi. apply subseteq_size. intros h. unfold unstored. rewrite !elem_of_filter, HL, !elem_of_hashes.
  intros [? (i & Hin & <-)]. split; [done |]. destruct (Hi i Hin) as (j & ? & ?). eauto.
Qed.

Lemma unstored_lt p p' h :
  grows (pl_ledger p) (pl_ledger p') h → h ∈ hashes p →
  (∀ i, i ∈ items p' → ∃ j, j ∈ items p ∧ block_hash j.1.1 = block_hash i.1.1) →
  (size (unstored p') < size (unstored p))%nat.
Proof.
  intros HG Hh Hi. apply subset_size. split.
  - intros k. unfold unstored. rewrite !elem_of_filter, !elem_of_hashes. intros [Hn (i & Hin & <-)].
    destruct (Hi i Hin) as (j & ? & ?). split; [| eauto].
    apply eq_None_not_Some. intros Hs. apply eq_None_not_Some in Hn. apply Hn, (gr_dom _ _ _ HG). auto.
  - intros Hsub. specialize (Hsub h). unfold unstored in Hsub. rewrite !elem_of_filter in Hsub.
    destruct Hsub as [Hn _]; [split; [apply HG | done] |]. apply eq_None_not_Some in Hn. apply Hn, (gr_dom _ _ _ HG). auto.
Qed.

(** Nothing but the measure's last component changes. *)
Lemma smaller_weight p p' :
  pl_ledger p' = pl_ledger p → (∀ i, i ∈ items p' → ∃ j, j ∈ items p ∧ block_hash j.1.1 = block_hash i.1.1) →
  (queries p' <= queries p)%nat → (weight_of p' < weight_of p)%nat → smaller p' p.
Proof. intros HL Hi Hq Hw. split; [by apply unstored_le | auto]. Qed.

(** ** The verification thread *)

(** An item that the verification thread drops: it is no epoch block and its
    signature is bad. *)
Definition signature_refused (i : verification_item) : Prop :=
  negb (link i.1.1 =? 0) && is_epoch_link constants (link i.1.1) = false ∧ verify_item constants i = Ok false.

(** What [process_verified_state_blocks] does: each item is queued or dropped. *)
Lemma verified_items_shape now l p p' :
  process_verified_state_blocks constants now l p = Ok p' →
  ∃ ws evs, p' = pl_emit evs (pl_set_blocks (λ bs, bs ++ ws) p) ∧ (length ws <= length l)%nat ∧
    (∀ w, w ∈ ws → ∃ i, i ∈ l ∧ i.1.1 = wb_block w) ∧
    (∀ i, i ∈ l → (∃ w, w ∈ ws ∧ wb_block w = i.1.1) ∨ signature_refused i).
Proof.
  revert p. induction l as [| i l IH]; intros p Hp; simpl in Hp.
  { simplify_eq. exists [], []. unfold pl_emit, pl_set_blocks. simpl. rewrite !app_nil_r.
    split_and!; [by destruct p' | done | by intros ? ?%elem_of_nil | by intros ? ?%elem_of_nil]. }
  apply bind_Ok in Hp as (v & Hv & Hp). destruct (IH _ Hp) as (ws & evs & -> & Hlen & Hws & Hall).
  unfold verified_item. destruct i as [[b a] v0].
  assert (∀ w, wb_block w = b →
    ∃ ws0 evs0, pl_emit evs (pl_set_blocks (λ bs, bs ++ ws) (pl_set_blocks (λ l, l ++ [w]) p)) =
      pl_emit evs0 (pl_set_blocks (λ bs, bs ++ ws0) p) ∧ (length ws0 <= length ((b, a, v0) :: l))%nat ∧
      (∀ w, w ∈ ws0 → ∃ i, i ∈ (b, a, v0) :: l ∧ i.1.1 = wb_block w) ∧
      (∀ i, i ∈ (b, a, v0) :: l → (∃ w, w ∈ ws0 ∧ wb_block w = i.1.1) ∨ signature_refused i)) as Hq.
  { intros w Hw. exists (w :: ws), evs. split_and!.
    - unfold pl_emit, pl_set_blocks. simpl. by rewrite <- app_assoc.
    - simpl. lia.
    - intros w' [-> | Hin]%elem_of_cons; [exists (b, a, v0); split; [by left | done] |].
      destruct (Hws w' Hin) as (i & ? & ?). exists i. split; [by right | done].
    - intros i [-> | Hin]%elem_of_cons; [left; exists w; split; [by left | done] |].
      destruct (Hall i Hin) as [(w' & ? & ?) | ?]; [left; exists w'; split; [by right | done] | by right]. }
  destruct (negb (link b =? 0) && is_epoch_link constants (link b)) eqn:Hlink; [by apply Hq |].
  destruct v; [by apply Hq |].
  exists ws, ([ev_lazy_requeue (block_hash b) (previous b)] ++ evs). split_and!.
  - unfold pl_emit, pl_set_blocks. simpl. by rewrite <- app_assoc.
  - simpl. lia.
  - intros w' Hin. destruct (Hws w' Hin) as (i & ? & ?). exists i. split; [by right | done].
  - intros i [-> | Hin]%elem_of_cons; [by right | by apply Hall].
Qed.

Lemma verification_smaller now p p' :
  (0 < pf_max_verification_batch flags)%nat →
  verification_run constants flags now p = Some (Ok p') → smaller p' p.
Proof.
  intros Hmax Hr. unfold verification_run in Hr. destruct (pl_verifying p) as [| i l] eqn:Hv.
  - destruct (pl_state_blocks p) as [| j l] eqn:Hs; [done |]. simpl in Hr. injection Hr as <-.
    apply smaller_weight; simpl; [done | | done |].
    + intros i. rewrite items_spec. simpl. intros Hi. exists i. split; [| done].
      apply items_spec. rewrite Hv, Hs. rewrite <- (take_drop (pf_max_verification_batch flags) (j :: l)) at 1.
      rewrite elem_of_app. tauto.
    + unfold weight_of, batch_weight. simpl. rewrite Hv, Hs.
      destruct (pf_max_verification_batch flags) as [| n]; [lia |]. simpl.
      rewrite length_take, length_drop. destruct (decide (pl_blocks p = [])); lia.
  - injection Hr as Hr. apply (verified_items_shape now (i :: l)) in Hr as (ws & evs & -> & Hlen & Hws & _).
    apply smaller_weight; simpl; [done | | done |].
    + intros j. rewrite items_spec. simpl.
      intros [(w & [Hw | Hw]%elem_of_app & ->) | [Hj | [Hj%elem_of_nil | Hj]]]; [| | | done |].
      * exists (item_of w). split; [| done]. apply items_spec. left. eauto.
      * destruct (Hws w Hw) as (k & Hk & Heq). exists k. rewrite Heq. split; [| done]. apply items_spec. rewrite Hv. tauto.
      * exists j. split; [| done]. apply items_spec. tauto.
      * exists j. split; [| done]. apply items_spec. tauto.
    + unfold weight_of, batch_weight. simpl. rewrite Hv, length_app. simpl in *.
      destruct (pl_batch p); [lia |]. destruct (decide (pl_blocks p ++ ws = [])), (decide (pl_blocks p = [])); lia.
Qed.
(** ** The thread of the unchecked map *)

(** Handing blocks back to the processor only lengthens its queues. *)
Lemma adds_shape ws p :
  ∃ bs ss, foldl (λ p w, processor_add w p) p ws = pl_set_blocks (λ l, l ++ bs) (pl_set_state_blocks (λ l, l ++ ss) p) ∧
    (∀ w, w ∈ bs → w ∈ ws) ∧ (∀ i, i ∈ ss → ∃ w, w ∈ ws ∧ i = item_of w) ∧
    (∀ w, w ∈ ws → w ∈ bs ∨ item_of w ∈ ss).
Proof.
  revert p. induction ws as [| w ws IH]; intros p; simpl.
  { exists [], []. unfold pl_set_blocks, pl_set_state_blocks. simpl. rewrite !app_nil_r.
    split_and!; [by destruct p | done | by intros ? ?%elem_of_nil | by intros ? ?%elem_of_nil]. }
  destruct (IH (processor_add w p)) as (bs & ss & -> & Hb & Hs & Hw). unfold processor_add.
  destruct (needs_verification w).
  - exists bs, (item_of w :: ss). split_and!.
    + unfold pl_set_blocks, pl_set_state_blocks. simpl. by rewrite <- app_assoc.
    + intros w' Hw'. right. by apply Hb.
    + intros i [-> | Hi]%elem_of_cons; [exists w; split; [by left | done] |].
      destruct (Hs i Hi) as (w' & ? & ?). exists w'. split; [by right | done].
    + intros w' [-> | Hw']%elem_of_cons; [right; by left |]. destruct (Hw w' Hw'); [by left | right; by right].
  - exists (w :: bs), ss. split_and!.
    + unfold pl_set_blocks, pl_set_state_blocks. simpl. by rewrite <- app_assoc.
    + intros w' [-> | Hw']%elem_of_cons; [by left | right; by apply Hb].
    + intros i Hi. destruct (Hs i Hi) as (w' & ? & ?). exists w'. split; [by right | done].
    + intros w' [-> | Hw']%elem_of_cons; [left; by left |]. destruct (Hw w' Hw'); [left; by right | by right].
Qed.

Lemma unchecked_smaller now p p' :
  pipeline_ok p → unchecked_thread now p = Some (Ok p') → smaller p' p.
Proof.
  intros Hp Hr. pose proof Hp as [HL Hf Hi Hve Hk Hd Hq Hdel Hwr Hins Htab].
  unfold unchecked_thread, unchecked_run in Hr. destruct (um_writing_back_buffer (pl_unchecked p)) eqn:Hw.
  - destruct (um_back_buffer (pl_unchecked p)) as [| i rest] eqn:Hb; injection Hr as Hr.
    + simpl in Hr. subst p'. apply smaller_weight; simpl; [done | | |].
      * intros j. unfold items. simpl. unfold um_work. simpl. rewrite Hb. eauto.
      * unfold queries, um_work. simpl. by rewrite Hb.
      * unfold weight_of, batch_weight. simpl. rewrite Hb, Hw. simpl. lia.
    + destruct (visit_item_keeps constants now p i rest Hp Hb) as (t & ws & Hvis & _ & _).
      rewrite Hvis in Hr. cbn [mbind outcome_bind] in Hr. injection Hr as <-. rewrite Hdel in Hvis.
      destruct i as [d w | d]; simpl in Hvis.
      * injection Hvis as <- <-. simpl. apply smaller_weight; simpl; [done | | |].
        -- intros j. rewrite items_spec. unfold um_work. simpl. unfold unchecked_put.
           intros [Hj | [Hj | [Hj | [(d' & w' & Hj & ->) | (k & w' & [[_ <-] | [_ Hj]]%lookup_insert_Some & ->)]]]].
           1-3: exists j; split; [apply items_spec; tauto | done].
           ++ exists (item_of w'). split; [| done]. apply items_spec. do 3 right. left. exists d', w'. split; [| done].
              unfold um_work. rewrite Hb. by right.
           ++ exists (item_of w). split; [| done]. apply items_spec. do 3 right. left. exists d, w. split; [| done].
              unfold um_work. rewrite Hb. by left.
           ++ exists (item_of w'). split; [| done]. apply items_spec. do 4 right. eauto.
        -- unfold queries, um_work. simpl. rewrite Hb. simpl. done.
        -- unfold weight_of, batch_weight. simpl. rewrite Hb, Hw. simpl. lia.
      * destruct (query_range (um_table (pl_unchecked p)) d) as (t' & Ht' & Hlk).
        { apply Hq. unfold um_work. rewrite Hb. by left. }
        { done. }
        rewrite Ht' in Hvis. simpl in Hvis. injection Hvis as <- <-.
        match goal with |- context [foldl _ ?q ?l] => destruct (adds_shape l q) as (bs & ss & -> & Hbs & Hss & _) end.
        assert (Hrange : ∀ w, w ∈ (equal_range (um_table (pl_unchecked p)) d).*2 → item_of w ∈ items p).
        { intros w (e & -> & [_ He%elem_of_full_range]%list_elem_of_filter)%list_elem_of_fmap.
          apply items_spec. do 4 right. eauto. }
        split; [apply unstored_le; [done |] | right; left].
        -- intros j. rewrite items_spec. simpl. unfold um_work. simpl.
           intros [(w & [Hj | Hj]%elem_of_app & ->) | [[Hj | Hj]%elem_of_app | [Hj | [(d' & w' & Hj & ->) | (k & w' & Hj & ->)]]]].
           ++ exists (item_of w). split; [apply items_spec; left; eauto | done].
           ++ exists (item_of w). split; [by apply Hrange, Hbs | done].
           ++ exists j. split; [apply items_spec; tauto | done].
           ++ destruct (Hss j Hj) as (w & Hw' & ->). exists (item_of w). split; [by apply Hrange | done].
           ++ exists j. split; [apply items_spec; tauto | done].
           ++ exists (item_of w'). split; [| done]. apply items_spec. do 3 right. left. exists d', w'. split; [| done].
              unfold um_work. rewrite Hb. by right.
           ++ exists (item_of w'). split; [| done]. rewrite Hlk in Hj. case_decide; [done |]. apply items_spec. do 4 right. eauto.
        -- unfold queries, um_work. simpl. rewrite Hb. simpl. lia.
  - specialize (Hwr eq_refl). case_bool_decide as Hne; [done |]. injection Hr as Hr. simpl in Hr. subst p'.
    apply smaller_weight; simpl; [done | | |].
    + intros j. unfold items. simpl. unfold um_work. simpl. rewrite Hwr, app_nil_r. eauto.
    + unfold queries, um_work. simpl. by rewrite Hwr, app_nil_r.
    + unfold weight_of, batch_weight. simpl. rewrite Hwr, Hw. destruct (um_buffer (pl_unchecked p)); [done |]. simpl. lia.
Qed.
(** ** The processing thread *)

Lemma one_items w r p p1 :
  same_queues p p1 → one_done constants w r p p1 →
  ∀ i, i ∈ items p1 → i ∈ items p ∨ block_hash i.1.1 = block_hash (wb_block w).
Proof.
  intros [Sb _ Ss Sv _ _] Hd i. rewrite !items_spec, Sb, Ss, Sv.
  destruct Hd as [ds _ _ _ -> | d v _ _ _ _ _ -> | _ _ ->]; [| | tauto].
  - rewrite um_triggers, um_work_append. cbn [um_table um_append].
    intros [? | [? | [? | [(d & w' & [Hx | (x & ? & _)%list_elem_of_fmap]%elem_of_app & ->) | Hx]]]]; try tauto; [| done].
    left. do 3 right. left. eauto.
  - intros [? | [? | [? | [(d' & w' & Hx & ->) | Hx]]]]; try tauto.
    unfold um_work, um_put, um_push in Hx. simpl in Hx. rewrite app_assoc in Hx.
    apply elem_of_app in Hx as [Hx | Hx%list_elem_of_singleton]; [| simplify_eq; by right].
    left. do 3 right. left. eauto.
Qed.

Lemma round_smaller clock fuel ck ba p p' :
  pipeline_ok p → pl_batch p = Some ba → pl_blocks p ≠ [] →
  batch_round constants clock fuel ck ba p = Done p' → smaller p' p.
Proof.
  intros Hp Hba Hne Hr. destruct (pl_blocks p) as [| w rest] eqn:Hb; [done |].
  destruct (batch_round_ok constants clock fuel ck ba w rest p Hp Hb) as (r & ev' & p1 & p2 & _ & Hsq & Hd & -> & Hr' & _).
  rewrite Hr' in Hr. injection Hr as <-. set (p0 := pl_set_blocks (λ _, rest) p) in *.
  assert (Hd0 : one_done constants w r p0 p1) by (destruct Hd; econstructor; done).
  assert (Hw : item_of w ∈ items p) by (apply items_spec; left; exists w; rewrite Hb; split; [by left | done]).
  assert (Hi : ∀ i, i ∈ items (pl_set_batch (Some (Batch (S (ba_number_of_blocks_processed ba)) ev')) p1) →
    ∃ j, j ∈ items p ∧ block_hash j.1.1 = block_hash i.1.1).
  { intros i Hi. destruct (one_items w r p0 p1 Hsq Hd0 i Hi) as [Hi' | Hi'].
    - exists i. split; [| done]. apply items_spec. apply items_spec in Hi'. simpl in Hi'.
      destruct Hi' as [(w' & Hw' & ->) | ?]; [| tauto]. left. exists w'. rewrite Hb. split; [by right | done].
    - exists (item_of w). split; [done |]. by rewrite Hi'. }
  destruct Hsq as [Sb _ Ss Sv Sba Saw]. simpl in *.
  destruct Hd as [ds _ HG _ _ | d v _ HL _ _ _ Hu | _ HL Hu].
  - assert (Hlt : (size (unstored (pl_set_batch (Some (Batch (S (ba_number_of_blocks_processed ba)) ev')) p1)) < size (unstored p))%nat)
      by (eapply unstored_lt; [apply HG | by apply elem_of_hashes; eauto | done]).
    split; [lia | by left].
  - apply smaller_weight; [done | done | |].
    + unfold queries, um_work. simpl. rewrite Hu. simpl. rewrite app_assoc, filter_app. simpl. rewrite length_app. simpl. lia.
    + unfold weight_of, batch_weight. simpl. rewrite Hu, Sb, Ss, Sv, Saw, Hb, Hba. simpl. rewrite length_app. simpl.
      destruct (ba_number_of_blocks_processed ba); lia.
  - apply smaller_weight; [done | done | |].
    + unfold queries. simpl. by rewrite Hu.
    + unfold weight_of, batch_weight. simpl. rewrite Hu, Sb, Ss, Sv, Saw, Hb, Hba. simpl.
      destruct (ba_number_of_blocks_processed ba); lia.
Qed.

Lemma processing_smaller clock fuel d ck p p' :
  (0 < pf_max_block_write_batch_num flags)%nat → pipeline_ok p →
  (d = true → ∀ ba, pl_batch p = Some ba → ba_number_of_blocks_processed ba ≠ 0%nat) →
  processing_run constants flags clock fuel d ck p = Some (Done p') → smaller p' p.
Proof.
  intros Hmax Hp Hd Hr. unfold processing_run in Hr. destruct (pl_batch p) as [ba |] eqn:Hba; cycle 1.
  { destruct (have_blocks_ready p) eqn:Hh; [| done]. injection Hr as <-.
    apply smaller_weight; simpl; [done | eauto | done |]. unfold weight_of, batch_weight. simpl. rewrite Hba.
    unfold have_blocks_ready in Hh. rewrite (po_forced _ _ Hp) in Hh.
    destruct (decide (pl_blocks p = [])) as [He | He]; [by rewrite He in Hh | lia]. }
  injection Hr as Hr. destruct (batch_continues flags d ba p) eqn:Hc.
  - eapply round_smaller; [done | done | | done]. intros He.
    unfold batch_continues, have_blocks_ready in Hc. by rewrite (po_forced _ _ Hp), He in Hc.
  - destruct (run_events_ok constants flags ck (ba_post_events ba) (pl_set_batch None (pl_set_awaiting_write false p)))
      as (q & Hq & [Sb _ Ss Sv Sba Saw] & HL & Hu). rewrite Hq in Hr. injection Hr as <-. simpl in *.
    apply smaller_weight; [done | | |].
    + intros i. unfold items. rewrite Sb, Ss, Sv, Hu. eauto.
    + unfold queries. by rewrite Hu.
    + unfold weight_of, batch_weight. rewrite Sb, Ss, Sv, Saw, Hu, Sba, Hba.
      unfold batch_continues, have_blocks_ready in Hc. rewrite (po_forced _ _ Hp) in Hc.
      destruct (ba_number_of_blocks_processed ba) as [| n] eqn:Hn.
      * destruct d; [by destruct (Hd eq_refl ba eq_refl) |].
        destruct (decide (pl_blocks p = [])), (pl_awaiting_write p); try lia.
        exfalso. rewrite (bool_decide_false (pl_blocks p = [])) in Hc by done.
        rewrite (bool_decide_false (pf_max_block_write_batch_num flags <= 0)%nat) in Hc by lia. done.
      * destruct (decide (pl_blocks p = [])), (pl_awaiting_write p); lia.
Qed.

(** ** Coming to rest *)

Lemma fair_smaller p p' :
  (0 < pf_max_verification_batch flags)%nat → (0 < pf_max_block_write_batch_num flags)%nat → pipeline_ok p →
  fair_step p p' → smaller p' p.
Proof.
  intros H1 H2 Hp [now Hs | clock fuel d ck Hd Hs | now Hs].
  - by eapply verification_smaller.
  - by eapply processing_smaller.
  - by eapply unchecked_smaller.
Qed.

Lemma smaller_acc (P : pipeline → Prop) (R : relation pipeline) :
  (∀ p p', P p → R p p' → P p' ∧ smaller p' p) → ∀ p, P p → Acc (flip R) p.
Proof.
  intros HR. cut (∀ n q w p, P p → size (unstored p) = n → queries p = q → weight_of p = w → Acc (flip R) p); [by eauto |].
  induction n as [n IHn] using lt_wf_ind. induction q as [q IHq] using lt_wf_ind. induction w as [w IHw] using lt_wf_ind.
  intros p Hp Hn Hq Hw. constructor. intros p' Hs. destruct (HR p p' Hp Hs) as [Hp' [Hle Hrest]].
  destruct (decide (size (unstored p') < n)%nat); [by eapply (IHn (size (unstored p'))) |].
  assert (size (unstored p') = n) by lia.
  destruct (decide (queries p' < q)%nat); [by eapply (IHq (queries p')) |].
  eapply (IHw (weight_of p')); [lia | done | done | lia | done].
Qed.

Lemma fair_acc p :
  (0 < pf_max_verification_batch flags)%nat → (0 < pf_max_block_write_batch_num flags)%nat → pipeline_ok p →
  Acc (flip fair_step) p.
Proof.
  intros H1 H2. apply (smaller_acc pipeline_ok). intros q q' Hq Hs. split; [| by apply fair_smaller].
  by eapply thread_step_keeps; [| apply fair_thread].
Qed.

(** A thread that has something to do can do it. *)
Lemma quiet_or_step p : pipeline_ok p → quiet p ∨ ∃ p', fair_step p p'.
Proof.
  intros Hp. destruct (verification_run constants flags 0 p) as [o |] eqn:Hv.
  { right. destruct (verification_run_keeps constants flags 0 p o Hp Hv) as (p' & -> & _). exists p'. by eapply fair_verify. }
  destruct (unchecked_thread 0 p) as [o |] eqn:Hu.
  { right. destruct (unchecked_thread_keeps constants 0 p o Hp Hu) as (p' & -> & _). exists p'. by eapply fair_unchecked. }
  destruct (processing_run constants flags (λ _, 0) 0 false (Clocks 0 0 0) p) as [o |] eqn:Hr.
  { right. destruct (processing_run_keeps constants flags _ _ _ _ p o Hp Hr) as (p' & -> & _). exists p'. eapply fair_process; [| exact Hr]. done. }
  left. unfold verification_run in Hv. destruct (pl_verifying p) eqn:Hvv; [| done]. destruct (pl_state_blocks p) eqn:Hs; [| done].
  unfold unchecked_thread, unchecked_run in Hu. unfold processing_run in Hr.
  destruct (um_writing_back_buffer (pl_unchecked p)) eqn:Hw; [by destruct (um_back_buffer _) in Hu |].
  case_bool_decide as Hb; [| done]. destruct (pl_batch p) eqn:Hba; [done |].
  destruct (have_blocks_ready p) eqn:Hh; [done |]. unfold have_blocks_ready in Hh. apply orb_false_iff in Hh as [Hh _].
  apply negb_false_iff, bool_decide_eq_true in Hh. split; try done. unfold um_work. by rewrite (po_writing _ _ Hp Hw), Hb.
Qed.
End drain.
