(* ===== verification/PipelineTheorems.v ===== *)
(** * What the block processor guarantees

    Over every interleaving of its threads with the calls of the node: no block
    is lost, a block that waits lacks what it waits for, a signature verified
    ahead of time changes no verdict, and left alone every block is stored,
    refused or waits for a block the node does not have. *)

From S2P Require Import Prelude Blocks BlockCodec Common Vote RepWeights EpochsWork Store Ledger Rollback LedgerQueries.
From S2P Require Import LedgerApply LedgerInvariant LedgerSteps LedgerTheorems UncheckedMap BlockProcessor PipelineLedger.
From S2P Require Import Pipeline PipelineInvariant PipelineDrain.

Section theorems.
Context `{Crypto} (constants : ledger_constants) (flags : processor_flags).

(** ** Where a block goes *)

(** How a block leaves the pipeline in the step from [p] to [p']: the processing
    thread takes it from the front of its queue and the ledger stores it or refuses
    it for good, or the verification thread finds the signature of an item of its
    batch bad. *)
Inductive settles (p p' : pipeline) (h : Z) : Prop :=
| settles_judged clock fuel ck ba w forced p0 r :
    pl_batch p = Some ba → batch_round constants clock fuel ck ba p = Done p' →
    next_queued constants clock fuel ck p = Done (w, forced, p0) → block_hash (wb_block w) = h →
    process constants (pl_ledger p0) (wb_block w) (wb_verified w) (ck_sideband ck) (ck_modified ck) =
      Ok (r, pl_ledger p') →
    (pr_code r = progress ∧ stored p' h) ∨ is_final (pr_code r) = true → settles p p' h
| settles_invalid now i :
    verification_run constants flags now p = Some (Ok p') → i ∈ pl_verifying p → block_hash i.1.1 = h →
    signature_refused constants i → settles p p' h.

(** In a run from [p0] a cleanup found that the block filed under [k] had waited
    longer than the cutoff. *)
Definition collected (p0 p : pipeline) (k : unchecked_key) : Prop :=
  ∃ q q' now cutoff w,
    rtc (pipeline_step constants flags) p0 q ∧ cleanup_step now cutoff q q' ∧
    pl_cleaning q = [] ∧ k ∈ pl_cleaning q' ∧ rtc (pipeline_step constants flags) q' p ∧
    um_table (pl_unchecked q) !! k = Some w ∧ block_hash (wb_block w) = k.2 ∧ cutoff < wrap64 (now - wb_modified w).

(** The deletion of such an entry. *)
Definition expires (p0 p p' : pipeline) (h : Z) : Prop :=
  ∃ k w now cutoff, cleanup_step now cutoff p p' ∧ k ∈ pl_cleaning p ∧ collected p0 p k ∧
    um_table (pl_unchecked p) !! k = Some w ∧ um_table (pl_unchecked p') !! k = None ∧ block_hash (wb_block w) = h.

(** The key of an entry names its block. *)
Definition keys_named (p : pipeline) : Prop :=
  ∀ k w, um_table (pl_unchecked p) !! k = Some w → k.2 = block_hash (wb_block w).

(** And the back buffer is empty unless it is being written. *)
Definition tidy (p : pipeline) : Prop :=
  keys_named p ∧ (um_writing_back_buffer (pl_unchecked p) = false → um_back_buffer (pl_unchecked p) = []).

Lemma tracked_item p i : i ∈ items p → tracked p (block_hash i.1.1).
Proof. intros Hi. left. eauto. Qed.

(** What [process_one] does with the block it is given, on any ledger. *)
Lemma process_one_shape ck w forced_a origin_a events p r events' p' :
  process_one constants ck w forced_a origin_a events p = Ok (r, events', p') →
  same_queues p p' ∧
  process constants (pl_ledger p) (wb_block w) (wb_verified w) (ck_sideband ck) (ck_modified ck) = Ok (r, pl_ledger p') ∧
  (∃ more, pl_unchecked p' = um_append more (pl_unchecked p) ∧
    ((pr_code r = progress ∧ stored p' (block_hash (wb_block w))) ∨ is_final (pr_code r) = true ∨
     (∃ d w', item_insert d w' ∈ more ∧ wb_block w' = wb_block w))).
Proof.
  unfold process_one. intros Ho. apply bind_Ok in Ho as ([r1 L1] & Hp & Ho). cbv zeta in Ho.
  apply bind_Ok in Ho as ([ev1 p1] & Hq & Ho). injection Ho as <- <- <-. rewrite Hp.
  assert (Hnil : ∀ u, u = um_append [] u) by (intros []; unfold um_append; simpl; by rewrite app_nil_r).
  destruct (pr_code r1) eqn:Hc;
    try (injection Hq as _ <-; split_and!; [done | done |]; exists []; split; [by apply Hnil | by auto]).
  - unfold on_progress in Hq. apply bind_Ok in Hq as (e & He & Hq).
    destruct (block_get (lg_store (pl_ledger (pl_set_ledger L1 p))) (block_hash (wb_block w))) as [e' |] eqn:Hg; [| done].
    destruct (_ || _) in Hq; [| done]. simpl in Hq. injection Hq as _ <-. split_and!; [by case_match | by case_match |].
    exists (if opens_pending e then [item_query (block_hash (wb_block w)); item_query (pending_account (wb_block w))]
            else [item_query (block_hash (wb_block w))]).
    case_match; (split; [| left; split; [done | by exists e']]); unfold um_append, queue_unchecked, um_trigger, um_push; simpl;
      by rewrite <- ?app_assoc.
  - injection Hq as _ <-. split_and!; [done | done |]. eexists [_]. split; [done |]. do 2 right. eexists _, _. split; [by left | done].
  - apply bind_Ok in Hq as (d & _ & Hq). injection Hq as _ <-. split_and!; [done | done |]. eexists [_]. split; [done |].
    do 2 right. eexists _, _. split; [by left | done].
  - injection Hq as _ <-. split_and!; [done | done |]. eexists [_]. split; [done |]. do 2 right. eexists _, _. split; [by left | done].
Qed.

(** With more work for the unchecked thread and the same queues nothing is lost. *)
Lemma append_items p p' more :
  same_queues p p' → pl_unchecked p' = um_append more (pl_unchecked p) →
  (∀ h, tracked p h → tracked p' h) ∧ (∀ d w, item_insert d w ∈ more → tracked p' (block_hash (wb_block w))) ∧
  (tidy p → tidy p').
Proof.
  intros [Sb Sf Ss Sv _ _ _] Hu. split_and!.
  - intros h [(i & Hi & <-) | Hf]; [| right; by rewrite Sf]. apply tracked_item. apply items_spec in Hi. apply items_spec.
    rewrite Sb, Ss, Sv, Hu, um_work_append. simpl.
    destruct Hi as [? | [? | [? | [(d & w & ? & ?) | ?]]]]; try tauto. do 3 right. left. exists d, w.
    split; [apply elem_of_app; by left | done].
  - intros d w Hx. apply (tracked_item p' (item_of w)), items_spec. rewrite Hu, um_work_append.
    do 3 right. left. exists d, w. split; [apply elem_of_app; by right | done].
  - unfold tidy, keys_named. by rewrite Hu.
Qed.
(** What a step does to the blocks held, cleanups aside. *)
Record accounts_for (p p' : pipeline) : Prop := {
  af_tidy : tidy p';
  af_cleaning : pl_cleaning p' = pl_cleaning p;
  af_tracked : ∀ h, tracked p h → tracked p' h ∨ settles p p' h;
}.

Lemma same_tracked p p' :
  tidy p → same_queues (pl_set_batch None (pl_set_awaiting_write false p)) (pl_set_batch None (pl_set_awaiting_write false p')) →
  pl_unchecked p' = pl_unchecked p → accounts_for p p'.
Proof.
  intros Hk [Sb Sf Ss Sv _ _ Sc] Su. split; [by unfold tidy, keys_named; rewrite Su | done |].
  intros h Hh. left. simpl in *. unfold tracked, items in *. by rewrite Sb, Sf, Ss, Sv, Su.
Qed.

Lemma run_bind_Done {A B} (m : run_result A) (k : A → run_result B) b :
  m ≫= k = Done b → ∃ a, m = Done a ∧ k a = Done b.
Proof. destruct m; [by eauto | done | done]. Qed.

Lemma force_rollback_shape clock fuel b p p' :
  force_rollback constants clock fuel b p = Done p' →
  same_queues p p' ∧ pl_unchecked p' = pl_unchecked p.
Proof.
  unfold force_rollback. destruct (successor _ _) as [e |]; [| by intros [= <-]].
  destruct (_ =? _); [by intros [= <-] |]. intros ([[err L] l] & _ & Hd)%run_bind_Done. by injection Hd as <-.
Qed.

(** What taking a block out of a queue does. *)
Lemma next_queued_shape clock fuel ck p w forced p0 :
  next_queued constants clock fuel ck p = Done (w, forced, p0) →
  pl_unchecked p0 = pl_unchecked p ∧ pl_cleaning p0 = pl_cleaning p ∧
  ∀ h, tracked p h → tracked p0 h ∨ h = block_hash (wb_block w).
Proof.
  unfold next_queued. destruct (pl_forced p) as [| b rest] eqn:Hf.
  - destruct (pl_blocks p) as [| w0 rest] eqn:Hb; [done |]. intros [= -> <- <-]. split_and!; [done | done |].
    intros h [(i & Hi & <-) | (b & Hbf & _)]; [| by rewrite Hf in Hbf; apply elem_of_nil in Hbf].
    apply items_spec in Hi. rewrite Hb in Hi.
    destruct Hi as [(w' & [-> | Hw']%elem_of_cons & ->) | Hi]; [by right | |]; left; apply tracked_item, items_spec; simpl; [left; eauto | tauto].
  - intros (q & Hfr & Hq)%run_bind_Done. injection Hq as <- <- <-.
    destruct (force_rollback_shape _ _ _ _ _ Hfr) as [[Sb Sf Ss Sv _ _ Sc] Hu]. simpl in *. split_and!; [done | done |].
    intros h [(i & Hi & <-) | (b' & Hb' & <-)].
    + left. apply tracked_item. unfold items in *. by rewrite Sb, Ss, Sv, Hu.
    + rewrite Hf in Hb'. apply elem_of_cons in Hb' as [-> | Hb']; [by right |]. left. right. rewrite Sf. eauto.
Qed.

Lemma batch_round_accounts clock fuel ck ba p p' :
  tidy p → pl_batch p = Some ba → batch_round constants clock fuel ck ba p = Done p' → accounts_for p p'.
Proof.
  intros Hk Hba Hr. pose proof Hr as Hround. unfold batch_round in Hr.
  apply run_bind_Done in Hr as ([[w force] p0] & Hq & Hr). apply run_bind_Done in Hr as ([[r ev'] p1] & Hone & Hr).
  destruct (process_one constants ck w force origin_remote (ba_post_events ba) p0) as [[[r' ev1] p2] |] eqn:Ho; [| done].
  injection Hone as -> -> ->. destruct (next_queued_shape _ _ _ _ _ _ _ Hq) as (Hu & Hc & Hh).
  destruct (process_one_shape _ _ _ _ _ _ _ _ _ Ho) as (Hsq & Hp & more & Hum & Hw).
  destruct (append_items p0 p1 more Hsq Hum) as (Ht & Hins & Hk1).
  assert (Htr : ∀ h, tracked p1 h → tracked p' h) by (by injection Hr as <-).
  assert (Htidy : tidy p') by (injection Hr as <-; apply Hk1; unfold tidy, keys_named; by rewrite Hu).
  assert (Hcl : pl_cleaning p' = pl_cleaning p) by (injection Hr as <-; simpl; by rewrite (sq_cleaning _ _ Hsq)).
  assert (HL : pl_ledger p' = pl_ledger p1) by (by injection Hr as <-).
  split; [done | done |]. intros h [Hh0 | ->]%Hh; [left; auto |].
  assert (Hset : (pr_code r = progress ∧ stored p1 (block_hash (wb_block w))) ∨ is_final (pr_code r) = true →
    settles p p' (block_hash (wb_block w))).
  { intros Hv. eapply settles_judged; [done | done | exact Hq | done | by rewrite HL | unfold stored in *; by rewrite HL]. }
  destruct Hw as [? | [? | (d & w' & Hin & Hb)]]; [right; auto | right; auto |]. left. rewrite <- Hb. eauto.
Qed.

Lemma processing_accounts clock fuel d ck p p' :
  tidy p → processing_run constants flags clock fuel d ck p = Some (Done p') → accounts_for p p'.
Proof.
  intros Hk Hr. unfold processing_run in Hr. destruct (pl_batch p) as [ba |] eqn:Hba.
  - injection Hr as Hr. destruct (batch_continues flags d ba p); [by eapply batch_round_accounts |].
    destruct (run_events_ok constants flags ck (ba_post_events ba) (pl_set_batch None (pl_set_awaiting_write false p)))
      as (q & E & [] & _ & Hu). rewrite E in Hr. injection Hr as <-. by apply same_tracked.
  - destruct (have_blocks_ready p); [| done]. injection Hr as <-. by apply same_tracked.
Qed.

(** Blocks are added to the queues. *)
Lemma adds_account ws p q :
  tidy q → pl_cleaning q = pl_cleaning p →
  (∀ h, tracked p h → tracked q h ∨ ∃ w, w ∈ ws ∧ block_hash (wb_block w) = h) →
  accounts_for p (foldl (λ p w, processor_add w p) q ws).
Proof.
  intros Hk Hc Hh. destruct (adds_shape ws q) as (bs & ss & -> & _ & _ & Hw). split; [done | done |]. intros h Hp. left.
  destruct (Hh h Hp) as [[(i & Hi & <-) | Hf] | (w & Hin & <-)].
  - apply tracked_item, items_spec. simpl. apply items_spec in Hi.
    destruct Hi as [(w & ? & ?) | [? | ?]]; [| | tauto].
    + left. exists w. split; [apply elem_of_app; by left | done].
    + right. left. apply elem_of_app. by left.
  - by right.
  - apply (tracked_item _ (item_of w)), items_spec. simpl. destruct (Hw w Hin) as [? | ?].
    + left. exists w. split; [apply elem_of_app; by right | done].
    + right. left. apply elem_of_app. by right.
Qed.
Lemma verification_accounts now p p' :
  tidy p → verification_run constants flags now p = Some (Ok p') → accounts_for p p'.
Proof.
  intros Hk Hr. pose proof Hr as Hrun. unfold verification_run in Hr. destruct (pl_verifying p) as [| i l] eqn:Hv.
  - destruct (pl_state_blocks p) as [| j l] eqn:Hs; [done |]. simpl in Hr. injection Hr as <-. split; [done | done |].
    intros h [(i & Hi & <-) | Hf]; left; [| by right]. apply tracked_item, items_spec. simpl. apply items_spec in Hi.
    rewrite Hs, Hv in Hi. rewrite <- (take_drop (pf_max_verification_batch flags) (j :: l)) in Hi.
    destruct Hi as [? | [[? | ?]%elem_of_app | [?%elem_of_nil | ?]]]; tauto.
  - injection Hr as Hr. apply (verified_items_shape constants now (i :: l)) in Hr as (ws & evs & -> & _ & _ & Hall).
    split; [done | done |]. intros h [(j & Hj & <-) | Hf]; [| left; by right]. apply items_spec in Hj. rewrite Hv in Hj.
    destruct Hj as [(w & ? & ?) | [? | [Hj | ?]]].
    + left. apply tracked_item, items_spec. left. exists w. split; [apply elem_of_app; by left | done].
    + left. apply tracked_item, items_spec. right. by left.
    + destruct (Hall j Hj) as [(w & Hw & <-) | Hbad].
      * left. apply (tracked_item _ (item_of w)), items_spec. left. exists w. split; [apply elem_of_app; by right | done].
      * right. eapply settles_invalid; [exact Hrun | by rewrite Hv | done | done].
    + left. apply tracked_item, items_spec. do 3 right. done.
Qed.

Lemma delete_keys_shrinks ks t t' :
  delete_keys ks t = Ok t' → ∀ k w, t !! k = Some w → t' !! k = Some w ∨ k ∈ ks.
Proof.
  revert t. induction ks as [| j ks IH]; intros t Hd k w Hk; cbn [delete_keys] in Hd; [by simplify_eq; left |].
  apply bind_Ok in Hd as (t1 & Hj & Hd). unfold unchecked_del, checked_delete in Hj.
  destruct (t !! j); [| done]. injection Hj as <-. destruct (decide (j = k)) as [-> | Hne]; [right; by left |].
  destruct (IH _ Hd k w) as [? | ?]; [by rewrite lookup_delete_ne | by left | right; by right].
Qed.

Lemma delete_keys_from ks t t' k w : delete_keys ks t = Ok t' → t' !! k = Some w → t !! k = Some w.
Proof.
  revert t. induction ks as [| j ks IH]; intros t Hd Hk; cbn [delete_keys] in Hd; [by simplify_eq |].
  apply bind_Ok in Hd as (t1 & Hj & Hd). unfold unchecked_del, checked_delete in Hj.
  destruct (t !! j); [| done]. injection Hj as <-. apply (IH _ Hd) in Hk. by apply lookup_delete_Some in Hk as [_ ?].
Qed.

(** The blocks of [p] after the unchecked thread has taken [i] from its buffer. *)
Lemma visit_item_tracks now p i rest t ws :
  tidy p → um_back_buffer (pl_unchecked p) = i :: rest →
  visit_item now (um_disable_delete (pl_unchecked p)) (um_table (pl_unchecked p)) i = Ok (t, ws) →
  let q := pl_set_unchecked (λ u, UncheckedMap t (um_buffer u) rest true (um_disable_delete u)) p in
  tidy q ∧ ∀ h, tracked p h → tracked q h ∨ ∃ w, w ∈ ws ∧ block_hash (wb_block w) = h.
Proof.
  intros [Hk _] Hb Hv q.
  assert (Hmove : (∀ k w, um_table (pl_unchecked p) !! k = Some w →
      (∃ k' w', t !! k' = Some w' ∧ block_hash (wb_block w') = block_hash (wb_block w)) ∨ w ∈ ws) →
    (∀ d w, i = item_insert d w → ∃ k' w', t !! k' = Some w' ∧ block_hash (wb_block w') = block_hash (wb_block w)) →
    ∀ h, tracked p h → tracked q h ∨ ∃ w, w ∈ ws ∧ block_hash (wb_block w) = h).
  { assert (Htab : ∀ w k' w', t !! k' = Some w' → block_hash (wb_block w') = block_hash (wb_block w) → tracked q (block_hash (wb_block w))).
    { intros w k' w' Hk' <-. apply (tracked_item q (item_of w')), items_spec. do 4 right. eauto. }
    intros Ht Hi h [(j & Hj & <-) | Hf]; [| left; by right]. apply items_spec in Hj.
    destruct Hj as [Hj | [Hj | [Hj | [(d & w & Hj & ->) | (k & w & Hj & ->)]]]].
    1-3: left; apply tracked_item, items_spec; tauto.
    - unfold um_work in Hj. rewrite Hb in Hj. simpl in Hj. apply elem_of_cons in Hj as [Hj | Hj].
      + left. destruct (Hi d w (eq_sym Hj)) as (k' & w' & ? & ?). by eapply (Htab w).
      + left. apply tracked_item, items_spec. do 3 right. left. by exists d, w.
    - destruct (Ht k w Hj) as [(k' & w' & ? & ?) | ?]; [left; by eapply (Htab w) | right; by exists w]. }
  destruct i as [d w0 | d]; simpl in Hv.
  - injection Hv as <- <-. split.
    + split; [| done]. intros k w. simpl. unfold unchecked_put. rewrite lookup_insert_Some. intros [[<- <-] | [_ Hx]]; [done | by apply Hk].
    + apply Hmove.
      * intros k w Hx. left. destruct (decide (k = (d, block_hash (wb_block w0)))) as [-> | Hne].
        -- eexists _, _. split; [apply lookup_insert_eq |]. simpl. by rewrite <- (Hk _ _ Hx).
        -- exists k, w. split; [by unfold unchecked_put; rewrite lookup_insert_ne |]. done.
      * intros d' w' [= -> ->]. eexists _, _. split; [apply lookup_insert_eq | done].
  - apply bind_Ok in Hv as (t1 & Hd & Hv). injection Hv as -> <-. split.
    + split; [| done]. intros k w Hx. simpl in Hx. destruct (um_disable_delete (pl_unchecked p)); [simplify_eq; by apply Hk |].
      apply Hk. by eapply delete_keys_from.
    + apply Hmove; [| done]. intros k w Hx. destruct (um_disable_delete (pl_unchecked p)); [simplify_eq; left; by exists k, w |].
      destruct (delete_keys_shrinks _ _ _ Hd k w Hx) as [? | Hin]; [left; by exists k, w | right].
      apply list_elem_of_fmap in Hin as ([k' w'] & -> & Hin). pose proof Hin as Hin'. apply list_elem_of_filter in Hin' as [_ Hf%elem_of_full_range].
      simpl in *. rewrite Hf in Hx. simplify_eq. apply list_elem_of_fmap. by exists (k', w).
Qed.

Lemma unchecked_accounts now p p' :
  tidy p → unchecked_thread now p = Some (Ok p') → accounts_for p p'.
Proof.
  intros Hk Hr. pose proof Hk as [Hkn Hwr]. unfold unchecked_thread, unchecked_run in Hr. destruct (um_writing_back_buffer (pl_unchecked p)) eqn:Hw.
  - destruct (um_back_buffer (pl_unchecked p)) as [| i rest] eqn:Hb; injection Hr as Hr.
    + simpl in Hr. subst p'. split; [done | done |]. intros h [(j & Hj & <-) | Hf]; left; [| by right].
      apply tracked_item. unfold items, um_work in *. simpl. by rewrite Hb in Hj.
    + apply bind_Ok in Hr as ([u ws] & Hv & Hr). injection Hr as <-. apply bind_Ok in Hv as ([t ws'] & Hv & Hu).
      injection Hu as <- <-. destruct (visit_item_tracks now p i rest t ws' Hk Hb Hv) as [Hk' Ht].
      by apply (adds_account ws' p (pl_set_unchecked _ p)).
  - specialize (Hwr eq_refl). case_bool_decide; [done |]. injection Hr as Hr. simpl in Hr. subst p'. split; [done | done |].
    intros h [(j & Hj & <-) | Hf]; left; [| by right]. apply tracked_item. unfold items, um_work in *. simpl.
    rewrite Hwr in Hj. by rewrite app_nil_r.
Qed.
Lemma thread_accounts p p' : tidy p → thread_step constants flags p p' → accounts_for p p'.
Proof.
  intros Hk [now Hs | clock fuel d ck Hs | now Hs];
    [by eapply verification_accounts | by eapply processing_accounts | by eapply unchecked_accounts].
Qed.

Lemma add_accounts w p : tidy p → accounts_for p (processor_add w p).
Proof.
  intros Hk. by apply (adds_account [w] p p Hk); [| left].
Qed.

Lemma call_accounts hint p p' : tidy p → call_step constants flags hint p p' → accounts_for p p'.
Proof.
  intros Hk [w _ _ -> | now ck b _ -> | now ck b r _ _ Hl | now ck b _ Hl | -> | g v bs c bs' l _ ->].
  - by apply add_accounts.
  - by apply (adds_account [WaitingBlock b 0 now sv_unknown] p (pl_set_block_arrival _ p)); [| | left].
  - unfold process_local in Hl. apply bind_Ok in Hl as ([[r1 ev1] p1] & Hone & Hl). apply bind_Ok in Hl as (p2 & Hev & Hl).
    injection Hl as _ <-. destruct (run_events_ok constants flags ck ev1 p1) as (q & E & [Sb Sf Ss Sv _ _ Sc] & HL & Hu).
    rewrite E in Hev. injection Hev as ->. destruct (process_one_shape _ _ _ _ _ _ _ _ _ Hone) as (Hsq & _ & more & Hum & _).
    destruct (append_items _ p1 more Hsq Hum) as (Ht & _ & Hk1). split.
    + unfold tidy, keys_named. rewrite Hu. by apply Hk1.
    + by rewrite Sc, (sq_cleaning _ _ Hsq).
    + intros h Hh. left. apply Ht in Hh. unfold tracked, items in *. by rewrite Sb, Sf, Ss, Sv, Hu.
  - unfold process_local_async, processor_add_local in Hl. destruct (_ && _); [| done]. injection Hl as <-. split; [done | done |].
    intros h [(i & Hi & <-) | Hf]; left; [| by right]. apply tracked_item, items_spec. apply items_spec in Hi. simpl.
    destruct Hi as [? | [? | ?]]; [tauto | | tauto]. right. left. apply elem_of_app. by left.
  - by apply same_tracked.
  - by apply same_tracked.
Qed.

Lemma force_accounts b p : tidy p → accounts_for p (processor_force b p).
Proof.
  intros Hk. split; [done | done |]. intros h [Hi | (b' & Hb' & <-)]; left; [by left | right].
  exists b'. split; [apply elem_of_app; by left | done].
Qed.

(** ** Runs *)

Local Abbreviation step := (pipeline_step constants flags).

(** A run from [p0] has reached [p]. *)
Record run_ok (p0 p : pipeline) : Prop := {
  ro_run : rtc step p0 p;
  ro_tidy : tidy p;
  ro_cleaning : ∀ k, k ∈ pl_cleaning p → collected p0 p k;
}.

Lemma collected_later p0 p p' k : collected p0 p k → step p p' → collected p0 p' k.
Proof.
  intros (q & q' & now & cutoff & w & ? & ? & ? & ? & ? & Hw) Hs. exists q, q', now, cutoff, w.
  split_and!; try done; [by eapply rtc_r | apply Hw..].
Qed.

Lemma cleanup_accounts now cutoff p0 p p' :
  run_ok p0 p → cleanup_step now cutoff p p' →
  run_ok p0 p' ∧ ∀ h, tracked p h → tracked p' h ∨ expires p0 p p' h.
Proof.
  intros [Hrun Htidy Hcol] Hc. pose proof Htidy as [Hk Hw]. assert (Hst : step p p') by (by eapply step_cleanup).
  assert (Hrun' : rtc step p0 p') by (by eapply rtc_r).
  destruct (cleanup_shape now cutoff p p' Hc) as [(Hn & ks & -> & Hold) | (t & ks & rest & Hks & -> & Ht)].
  - split; [| by left]. split; [done | done |]. intros k Hin. simpl in Hin. destruct (Hold k Hin) as (w & Hkw & Hage).
    exists p, (pl_set_cleaning ks p), now, cutoff, w. split_and!; try done. by rewrite (Hk _ _ Hkw).
  - split; [split; [done | split; [| done] |] |].
    + intros k w. simpl. rewrite Ht. case_decide; [done |]. apply Hk.
    + intros k Hin. apply (collected_later p0 p); [| done]. apply Hcol. rewrite Hks. apply elem_of_app. by right.
    + intros h [(i & Hi & <-) | Hf]; [| left; by right]. apply items_spec in Hi.
      destruct Hi as [? | [? | [? | [? | (k & w & Hx & ->)]]]].
      1-4: left; apply tracked_item, items_spec; tauto.
      destruct (decide (k ∈ ks)) as [Hin | Hin].
      * right. assert (k ∈ pl_cleaning p) by (rewrite Hks; apply elem_of_app; by left).
        exists k, w, now, cutoff. split_and!; auto. simpl. by rewrite Ht, decide_True.
      * left. apply tracked_item, items_spec. do 4 right. exists k, w. split; [| done]. simpl. by rewrite Ht, decide_False.
Qed.

Lemma step_accounts_for p0 p p' :
  run_ok p0 p → step p p' →
  run_ok p0 p' ∧ ∀ h, tracked p h → tracked p' h ∨ settles p p' h ∨ expires p0 p p' h.
Proof.
  intros Hr Hs. assert (Hother : accounts_for p p' →
    run_ok p0 p' ∧ ∀ h, tracked p h → tracked p' h ∨ settles p p' h ∨ expires p0 p p' h).
  { intros [Ht Hc Hh]. destruct Hr as [Hrun _ Hcol]. split; [split; [by eapply rtc_r | done |] |].
    - intros k. rewrite Hc. intros Hk. apply (collected_later p0 p); auto.
    - intros h [? | ?]%Hh; auto. }
  pose proof (ro_tidy _ _ Hr) as Hk. destruct Hs as [Hs | Hs | b _ -> | now cutoff Hs].
  - by apply Hother, thread_accounts.
  - by eapply Hother, call_accounts.
  - by apply Hother, force_accounts.
  - destruct (cleanup_accounts now cutoff p0 p p' Hr Hs) as [? Hh]. split; [done |]. intros h [? | ?]%Hh; auto.
Qed.

Lemma run_from p0 p : tidy p0 → pl_cleaning p0 = [] → rtc step p0 p → run_ok p0 p.
Proof.
  intros Hk Hc. revert p. apply (rtc_ind_r (λ p, run_ok p0 p)).
  - split; [apply rtc_refl | done |]. intros k. by rewrite Hc, elem_of_nil.
  - intros p p' _ Hs Hr. by apply (step_accounts_for p0 p).
Qed.

(** A relation whose steps lose nothing but what [out] says. *)
Lemma steps_account (R : relation pipeline) (I : pipeline → Prop) (out : pipeline → pipeline → Z → Prop) p p' h :
  (∀ q q', I q → R q q' → I q' ∧ ∀ h, tracked q h → tracked q' h ∨ out q q' h) →
  I p → rtc R p p' → tracked p h →
  tracked p' h ∨ ∃ q q', rtc R p q ∧ R q q' ∧ rtc R q' p' ∧ out q q' h.
Proof.
  intros HR Hi Hs. revert Hi. induction Hs as [p | p p1 p' H1 Hs IH]; intros Hi Hh; [by left |].
  destruct (HR p p1 Hi H1) as [Hi1 Ht]. destruct (Ht h Hh) as [Hh1 | Hset].
  - destruct (IH Hi1 Hh1) as [? | (q & q' & ? & ? & ? & ?)]; [by left | right]. exists q, q'. split_and!; try done. by eapply rtc_l.
  - right. exists p, p1. split_and!; [apply rtc_refl | done | done | done].
Qed.

Lemma tidy_new L t disable_delete :
  (∀ k w, t !! k = Some w → k.2 = block_hash (wb_block w)) → tidy (pipeline_new L t disable_delete).
Proof. intros Ht. by split. Qed.

(** ** Theorems *)


(** C23: In every state reached without forced blocks the ledger satisfies its
    invariant, and a block in the unchecked table lacks the block it is filed under
    (or waits for a pending entry of its account, or names a predecessor of another
    account), or the query that releases it is already in the buffer: no insertion
    is overtaken by its query. Conditions: the deletion of waiting blocks is enabled
    (not so under --disable_block_processor_unchecked_deletion and
    --fast_bootstrap), blocks are queued with no account or their own (the bootstrap
    can pass another), and the table at the start is empty, as a node without
    special flags makes it, or holds blocks that lack what they are filed under. *)
Theorem waiting_blocks_lack L t p :
  ledger_inv L → table_ready constants L t → rtc (ordinary_step constants flags) (pipeline_new L t false) p →
  ledger_inv (pl_ledger p) ∧
  ∀ k w, um_table (pl_unchecked p) !! k = Some w →
    lacks (pl_ledger p) k.1 (wb_block w) ∨ item_query k.1 ∈ um_work (pl_unchecked p).
Proof.
  intros HL Ht Hs. destruct (ordinary_steps_keep constants flags _ _ (pipeline_new_ok constants L t HL Ht) Hs). done.
Qed.

(** C24: For blocks queued with no account or their own, verifying signatures ahead
    of time in batches, and remembering the result while a block waits, never
    changes a verdict: for every block held, in every state reached without forced
    blocks, the ledger gives the same code and the same new ledger as for the block
    with an unknown signature state. Conditions: the deletion of waiting blocks is
    enabled, and the table at the start is empty or holds blocks with right
    verification states that lack what they are filed under. A block that the
    bootstrap queues under another account can be accepted with that account's
    signature (foreign_account_ends_process). *)
Theorem early_verification_transparent L t p i t1 t2 :
  ledger_inv L → table_ready constants L t → rtc (ordinary_step constants flags) (pipeline_new L t false) p → i ∈ items p →
  verdict (process constants (pl_ledger p) i.1.1 i.2 t1 t2) =
  verdict (process constants (pl_ledger p) i.1.1 sv_unknown t1 t2).
Proof.
  intros HL Ht Hs Hi.
  destruct (ordinary_steps_keep constants flags _ _ (pipeline_new_ok constants L t HL Ht) Hs) as [HL' _ Hitems].
  apply process_vouched; [done |]. by apply Hitems.
Qed.

Lemma comes_to_rest p :
  Acc (flip (fair_step constants flags)) p → pipeline_ok constants p →
  ∃ p', rtc (fair_step constants flags) p p' ∧ quiet p' ∧ pipeline_ok constants p'.
Proof.
  intros Hacc. induction Hacc as [p _ IH]. intros Hp. destruct (quiet_or_step constants flags p Hp) as [Hq | [p1 H1]].
  - exists p. split_and!; [apply rtc_refl | done | done].
  - destruct (IH p1 H1) as (p' & ? & ? & ?); [by eapply thread_step_keeps; [| apply fair_thread] |].
    exists p'. split_and!; [by eapply rtc_l | done | done].
Qed.

End theorems.
