(* ===== verification/WalletStore.v ===== *)
(** * The wallet's key store ([node/wallet.cpp], [lib/numbers.cpp])

    [wallet_store]: one database table per wallet, with the accounts of the
    wallet and seven reserved entries below them (version, salt, encrypted
    wallet key, check value, representative, encrypted seed, next index).  The
    user's password, stretched, decrypts the wallet key; the wallet key decrypts
    the seed and the keys that were added one by one.  A key derived from the
    seed is stored as its index.

    The ciphers and the signature scheme are outside of the tree and are
    arguments, as are the text formats of [boost]; random values are arguments
    of the operation that draws them.  A failing database call is not modelled;
    [debug_assert] is a no-op. *)

From S2P Require Import Prelude Blocks Numbers Rollback.

(** ** What is outside of the tree *)

(** [CryptoPP] in counter mode (key, initial counter, text), [argon2_hash] with the
    settings of [kdf::phs] (memory, password, salt), and the [ed25519] functions. *)
Class WalletCrypto := {
  aes_ctr_encrypt : bytes → bytes → bytes → bytes;
  aes_ctr_decrypt : bytes → bytes → bytes → bytes;
  argon2_hash : Z → bytes → bytes → bytes;
  ed25519_publickey : bytes → bytes;
  ed25519_sign : bytes → bytes → bytes → bytes;
}.

(** Decryption undoes encryption under the same key and counter, sizes are kept, and
    the signature of a digest made with a key opens with its public key. *)
Class WalletCryptoLaws (C : Crypto) (W : WalletCrypto) := {
  aes_ctr_length : ∀ k iv m, length (aes_ctr_encrypt k iv m) = length m;
  aes_ctr_inverse : ∀ k iv m, aes_ctr_decrypt k iv (aes_ctr_encrypt k iv m) = m;
  argon2_length : ∀ w p s, length (argon2_hash w p s) = 32%nat;
  ed25519_publickey_length : ∀ sk, length sk = 32%nat → length (ed25519_publickey sk) = 32%nat;
  ed25519_sign_length : ∀ m sk pk, length m = 32%nat → length (ed25519_sign m sk pk) = 64%nat;
  ed25519_sign_opens : ∀ m sk, length m = 32%nat → length sk = 32%nat →
    ed25519_sign_open (ed25519_publickey sk) m (ed25519_sign m sk (ed25519_publickey sk)) = true;
}.

(** [boost]: reading a number from a stream in base 16 ([None] is an exception, the
    flag the end of the stream), and flat property trees as JSON. *)
Class WalletText := {
  extract_hex : text → option (Z * bool);
  write_json : list (text * text) → text;
  read_json : text → option (list (text * text));
}.

(** ** Numbers *)

(** [uint256_union::owords]: the two halves of the bytes. *)
Definition oword0 (z : Z) : Z := Z.shiftr z 128.
Definition oword1 (z : Z) : Z := Z.land z u128_max.

(** A digit of a number written with [std::hex] and [std::uppercase]. *)
Definition hex_digit (d : Z) : Init.Byte.byte := byte.of_Z (if d <? 10 then 48 + d else 55 + d).

(** [uint256_union::encode_hex] ([to_string]): 64 digits, filled with zeros. *)
Definition encode_hex (key : Z) : text :=
  map (λ i, hex_digit (Z.land (Z.shiftr key (4 * i)) 15)) (rev (seqZ 0 64)).

Section numbers.
Context `{WalletText}.

(** [uint256_union::decode_hex]; [None] is the error. *)
Definition decode_hex (s : text) : option Z :=
  if negb (bool_decide (s = [])) && bool_decide (length s <= 64)%nat then
    match extract_hex s with
    | Some (number_l, eof) => if (eof : bool) then Some (wrap256 number_l) else None
    | None => None
    end
  else None.
End numbers.

Section keys.
Context `{WalletCrypto}.

(** [uint256_union::encrypt] and [raw_key::decrypt]. *)
Definition encrypt (cleartext key iv : Z) : Z :=
  of_be (aes_ctr_encrypt (to_be 32 key) (to_be 16 iv) (to_be 32 cleartext)).
Definition decrypt (ciphertext key iv : Z) : Z :=
  of_be (aes_ctr_decrypt (to_be 32 key) (to_be 16 iv) (to_be 32 ciphertext)).

(** [pub_key] and [sign_message]. *)
Definition pub_key (raw_key : Z) : Z := of_be (ed25519_publickey (to_be 32 raw_key)).
Definition sign_message (private_key public_key message : Z) : Z :=
  of_be (ed25519_sign (to_be 32 message) (to_be 32 private_key) (to_be 32 public_key)).

(** [kdf::phs]. *)
Definition phs (kdf_work : Z) (password_a : text) (salt_a : Z) : Z :=
  of_be (argon2_hash kdf_work password_a (to_be 32 salt_a)).
End keys.

(** ** Fans: a key as the exclusive or of several values *)

Definition fan_value (values : list Z) : Z := foldl Z.lxor 0 values.

(** The constructor; [entries] are the random values. *)
Definition fan_new (key : Z) (entries : list Z) : list Z := entries ++ [foldl Z.lxor key entries].

(** [fan::value_set]. *)
Definition fan_set (value_a : Z) (values : list Z) : list Z :=
  match values with
  | v :: rest => Z.lxor (Z.lxor v (fan_value values)) value_a :: rest
  | [] => []
  end.

(** ** The table *)

Record wallet_value := WalletValue { wv_key : Z; wv_work : Z }.

#[export] Instance wallet_value_eq_dec : EqDecision wallet_value.
Proof. solve_decision. Defined.

(** The bytes of an entry. *)
Definition wallet_value_serialize (v : wallet_value) : bytes :=
  to_be 32 (wv_key v) ++ to_le 8 (wv_work v).
Definition wallet_value_deserialize (s : bytes) : option wallet_value :=
  '(key, s) ← read_be 32 s;
  '(work, s) ← read_le 8 s;
  Some (WalletValue key work).

Inductive key_type := kt_not_a_type | kt_unknown | kt_adhoc | kt_deterministic.

(** The table with the two values kept in memory; [ws_handle] is false once the
    table is dropped. *)
Record wallet_store := WalletStore {
  ws_entries : gmap Z wallet_value;
  ws_password : list Z;
  ws_wallet_key_mem : list Z;
  ws_handle : bool;
}.

Definition ws_set_entries f (s : wallet_store) : wallet_store :=
  WalletStore (f (ws_entries s)) (ws_password s) (ws_wallet_key_mem s) (ws_handle s).
Definition ws_set_password p (s : wallet_store) : wallet_store :=
  WalletStore (ws_entries s) (fan_set p (ws_password s)) (ws_wallet_key_mem s) (ws_handle s).
Definition ws_set_wallet_key_mem k (s : wallet_store) : wallet_store :=
  WalletStore (ws_entries s) (ws_password s) (fan_set k (ws_wallet_key_mem s)) (ws_handle s).

Definition version_special : Z := 0.
Definition salt_special : Z := 1.
Definition wallet_key_special : Z := 2.
Definition check_special : Z := 3.
Definition representative_special : Z := 4.
Definition seed_special : Z := 5.
Definition deterministic_index_special : Z := 6.
Definition special_count : Z := 7.
Definition version_current : Z := 4.

(** [entry_get_raw], [entry_put_raw] and [erase]. *)
Definition entry_get_raw (s : wallet_store) (pub_a : Z) : wallet_value :=
  default (WalletValue 0 0) (ws_entries s !! pub_a).
Definition entry_put_raw (pub_a : Z) (entry_a : wallet_value) (s : wallet_store) : wallet_store :=
  ws_set_entries <[pub_a := entry_a]> s.
Definition ws_erase (pub : Z) (s : wallet_store) : wallet_store := ws_set_entries (delete pub) s.

(** [begin (key)]: the smallest key not below [k]; the keys are compared as numbers. *)
Definition ws_begin (s : wallet_store) (k : Z) : option Z :=
  map_fold (λ k' _ acc,
    if k <=? k' then
      match acc with
      | Some best => Some (Z.min k' best)
      | None => Some k'
      end
    else acc) None (ws_entries s).

(** [find]. *)
Definition ws_find (s : wallet_store) (key : Z) : bool :=
  match ws_begin s key with Some k => k =? key | None => false end.

(** The iteration from [begin ()], which is after the reserved entries. *)
Definition ws_accounts (s : wallet_store) : list Z :=
  merge_sort Z.le (filter (λ k, special_count <= k) (map_to_list (ws_entries s)).*1).

Definition valid_public_key (pub : Z) : bool := special_count <=? pub.
Definition ws_exists (s : wallet_store) (pub : Z) : bool := valid_public_key pub && ws_find s pub.

(** [key_type]. *)
Definition key_type_of (value_a : wallet_value) : key_type :=
  let number := wv_key value_a in
  if u64_max <? number then kt_adhoc
  else if wrap32 (Z.shiftr number 32) =? 1 then kt_deterministic
  else kt_unknown.

(** *** Plain entries *)

Definition ws_check (s : wallet_store) : Z := wv_key (entry_get_raw s check_special).
Definition ws_salt (s : wallet_store) : Z := wv_key (entry_get_raw s salt_special).

(** [version]: the last byte of the entry. *)
Definition ws_version (s : wallet_store) : Z :=
  Z.land (wv_key (entry_get_raw s version_special)) 255.
Definition ws_version_put (version_a : Z) (s : wallet_store) : wallet_store :=
  entry_put_raw version_special (WalletValue version_a 0) s.

Definition ws_representative (s : wallet_store) : Z :=
  wv_key (entry_get_raw s representative_special).
Definition ws_representative_set (representative_a : Z) (s : wallet_store) : wallet_store :=
  entry_put_raw representative_special (WalletValue representative_a 0) s.
Definition ws_is_representative (s : wallet_store) : bool := ws_exists s (ws_representative s).

Definition deterministic_index_get (s : wallet_store) : Z :=
  Z.land (wv_key (entry_get_raw s deterministic_index_special)) (u32_mod - 1).
Definition deterministic_index_set (index_a : Z) (s : wallet_store) : wallet_store :=
  entry_put_raw deterministic_index_special (WalletValue index_a 0) s.

(** [work_get]: [None] is the error; [work_put]. *)
Definition ws_work_get (s : wallet_store) (pub_a : Z) : option Z :=
  let entry := entry_get_raw s pub_a in
  if negb (wv_key entry =? 0) then Some (wv_work entry) else None.
Definition ws_work_put (pub_a work_a : Z) (s : wallet_store) : wallet_store :=
  entry_put_raw pub_a (WalletValue (wv_key (entry_get_raw s pub_a)) work_a) s.

(** [destroy]. *)
Definition ws_destroy (s : wallet_store) : wallet_store :=
  WalletStore ∅ (ws_password s) (ws_wallet_key_mem s) false.

(** The loop of [deterministic_clear]: a derived key is erased and the iterator set
    anew, other keys are passed over. *)
Fixpoint clear_loop (fuel : nat) (i : option Z) (s : wallet_store) : wallet_store :=
  match fuel, i with
  | S fuel, Some key =>
      match key_type_of (entry_get_raw s key) with
      | kt_deterministic =>
          let s := ws_erase key s in
          clear_loop fuel (ws_begin s key) s
      | _ => clear_loop fuel (ws_begin s (key + 1)) s
      end
  | _, _ => s
  end.

Definition deterministic_clear (s : wallet_store) : wallet_store :=
  deterministic_index_set 0 (clear_loop (size (ws_entries s)) (ws_begin s special_count) s).

Definition ws_insert_watch (pub_a : Z) (s : wallet_store) : bool * wallet_store :=
  if valid_public_key pub_a then (false, entry_put_raw pub_a (WalletValue 0 0) s) else (true, s).

Section store.
Context `{Crypto} `{WalletCrypto} (kdf_work : Z).

(** ** Passwords *)

(** [wallet_key]: the wallet key under the current password. *)
Definition ws_wallet_key (s : wallet_store) : Z :=
  decrypt (fan_value (ws_wallet_key_mem s)) (fan_value (ws_password s)) (oword0 (ws_salt s)).

Definition ws_derive_key (s : wallet_store) (password_a : text) : Z :=
  phs kdf_work password_a (ws_salt s).

(** [valid_password]: zero, encrypted, is the check value. *)
Definition ws_valid_password (s : wallet_store) : bool :=
  ws_check s =? encrypt 0 (ws_wallet_key s) (oword0 (ws_salt s)).

(** [attempt_password]: true is an error. *)
Definition ws_attempt_password (password_a : text) (s : wallet_store) : bool * wallet_store :=
  let s := ws_set_password (ws_derive_key s password_a) s in
  (negb (ws_valid_password s), s).

(** [rekey]: true is an error. *)
Definition ws_rekey (password_a : text) (s : wallet_store) : bool * wallet_store :=
  if ws_valid_password s then
    let password_new := ws_derive_key s password_a in
    let wallet_key_l := ws_wallet_key s in
    let s := ws_set_password password_new s in
    let encrypted := encrypt wallet_key_l password_new (oword0 (ws_salt s)) in
    let s := ws_set_wallet_key_mem encrypted s in
    (false, entry_put_raw wallet_key_special (WalletValue encrypted 0) s)
  else (true, s).

(** ** Keys *)

Definition ws_seed (s : wallet_store) : Z :=
  decrypt (wv_key (entry_get_raw s seed_special)) (ws_wallet_key s) (oword1 (ws_salt s)).

Definition ws_seed_set (prv_a : Z) (s : wallet_store) : wallet_store :=
  let ciphertext := encrypt prv_a (ws_wallet_key s) (oword1 (ws_salt s)) in
  deterministic_clear (entry_put_raw seed_special (WalletValue ciphertext 0) s).

Definition ws_deterministic_key (s : wallet_store) (index_a : Z) : Z :=
  deterministic_key (ws_seed s) index_a.

(** The entry of a derived key. *)
Definition marker (index : Z) : Z := Z.lor (Z.shiftl 1 32) index.

(** The loop of [deterministic_insert]: the first index whose account is new. *)
Fixpoint free_index (fuel : nat) (s : wallet_store) (index : Z) : run_result (Z * Z) :=
  match fuel with
  | O => OutOfFuel
  | S fuel =>
      let result := pub_key (ws_deterministic_key s index) in
      if ws_exists s result then free_index fuel s (wrap32 (index + 1)) else Done (index, result)
  end.

Definition ws_deterministic_insert (s : wallet_store) : run_result (Z * wallet_store) :=
  '(index, result) ← free_index (S (size (ws_entries s))) s (deterministic_index_get s);
  Done (result,
    deterministic_index_set (wrap32 (index + 1))
      (entry_put_raw result (WalletValue (marker index) 0) s)).

(** [deterministic_insert] with an index. *)
Definition ws_deterministic_insert_at (index : Z) (s : wallet_store) : Z * wallet_store :=
  let result := pub_key (ws_deterministic_key s index) in
  (result, entry_put_raw result (WalletValue (marker index) 0) s).

Definition ws_insert_adhoc (prv : Z) (s : wallet_store) : Z * wallet_store :=
  let pub := pub_key prv in
  let ciphertext := encrypt prv (ws_wallet_key s) (oword0 pub) in
  (pub, entry_put_raw pub (WalletValue ciphertext 0) s).

(** [fetch]: the error flag and the key; [prv] is what the out parameter holds
    before. *)
Definition ws_fetch (s : wallet_store) (pub prv : Z) : bool * Z :=
  let '(result, prv) :=
    if ws_valid_password s then
      let value := entry_get_raw s pub in
      if negb (wv_key value =? 0) then
        match key_type_of value with
        | kt_deterministic =>
            (false, ws_deterministic_key s (Z.land (wv_key value) (u32_mod - 1)))
        | kt_adhoc => (false, decrypt (wv_key value) (ws_wallet_key s) (oword0 pub))
        | _ => (true, prv)
        end
      else (true, prv)
    else (true, prv) in
  (result || negb (pub =? pub_key prv), prv).

(** ** Several stores *)

(** [move]: the keys of [other_a] up to the first that cannot be read; true is an
    error. *)
Fixpoint ws_move_loop (keys : list Z) (result : bool) (s other_a : wallet_store) :
    bool * wallet_store * wallet_store :=
  match keys with
  | [] => (result, s, other_a)
  | i :: keys =>
      let '(error, prv) := ws_fetch other_a i 0 in
      let result := result || error in
      if negb result then ws_move_loop keys result (ws_insert_adhoc prv s).2 (ws_erase i other_a)
      else ws_move_loop keys result s other_a
  end.
Definition ws_move (keys : list Z) (s other_a : wallet_store) : bool * wallet_store * wallet_store :=
  ws_move_loop keys false s other_a.

(** [import]: all accounts of [other_a]; the iterator is at the entry that is
    erased and goes on to the next one. *)
Fixpoint ws_import_loop (keys : list Z) (result : bool) (s other_a : wallet_store) :
    bool * wallet_store * wallet_store :=
  match keys with
  | [] => (result, s, other_a)
  | i :: keys =>
      let '(error, prv) := ws_fetch other_a i 0 in
      let result := result || error in
      if negb result then
        ws_import_loop keys result
          (if negb (prv =? 0) then (ws_insert_adhoc prv s).2 else (ws_insert_watch i s).2)
          (ws_erase i other_a)
      else ws_import_loop keys result s other_a
  end.
Definition ws_import (s other_a : wallet_store) : bool * wallet_store * wallet_store :=
  ws_import_loop (ws_accounts other_a) false s other_a.

(** ** Creation *)

(** The random values: those of the two fans, the salt, the wallet key, the seed. *)
Record randoms := Randoms {
  rn_password_fan : list Z;
  rn_wallet_key_fan : list Z;
  rn_salt : Z;
  rn_wallet_key : Z;
  rn_seed : Z;
}.

(** What the constructor writes into a new table. *)
Definition ws_initialize (rn : randoms) (representative_a : Z) (s : wallet_store) : wallet_store :=
  let s := ws_version_put version_current s in
  let s := entry_put_raw salt_special (WalletValue (rn_salt rn) 0) s in
  let s := ws_set_password 0 s in
  let encrypted := encrypt (rn_wallet_key rn) 0 (oword0 (rn_salt rn)) in
  let s := entry_put_raw wallet_key_special (WalletValue encrypted 0) s in
  let s := ws_set_wallet_key_mem encrypted s in
  let check := encrypt 0 (rn_wallet_key rn) (oword0 (rn_salt rn)) in
  let s := entry_put_raw check_special (WalletValue check 0) s in
  let s := ws_representative_set representative_a s in
  let s := ws_seed_set (rn_seed rn) s in
  entry_put_raw deterministic_index_special (WalletValue 0 0) s.

(** The constructor on the table of that name, which may be there already. *)
Definition wallet_store_open (rn : randoms) (representative_a : Z) (table : gmap Z wallet_value) :
    wallet_store :=
  let s := WalletStore table (fan_new 0 (rn_password_fan rn)) (fan_new 0 (rn_wallet_key_fan rn)) true in
  let s := match table !! version_special with
           | None => ws_initialize rn representative_a s
           | Some _ => s
           end in
  ws_set_wallet_key_mem (wv_key (entry_get_raw s wallet_key_special)) s.

(** *** Backups *)

Context `{WalletText}.

(** [serialize_json]: every entry, in the order of the keys. *)
Definition wallet_entry_le (x y : Z * wallet_value) : Prop := x.1 <= y.1.
#[global] Instance wallet_entry_le_dec : RelDecision wallet_entry_le.
Proof. intros x y. unfold wallet_entry_le. apply _. Defined.

Definition ws_tree (s : wallet_store) : list (text * text) :=
  map (λ x : Z * wallet_value, (encode_hex x.1, encode_hex (wv_key x.2)))
    (merge_sort wallet_entry_le (map_to_list (ws_entries s))).
Definition ws_serialize_json (s : wallet_store) : text := write_json (ws_tree s).

(** [wallet_l.get (key)]: the first child of that name. *)
Fixpoint tree_get (tree : list (text * text)) (key : text) : text :=
  match tree with
  | [] => []
  | x :: tree => if decide (x.1 = key) then x.2 else tree_get tree key
  end.

(** One child: the error flag is that of this child. *)
Definition json_entry (tree : list (text * text)) (st : bool * wallet_store) (child : text * text) :
    bool * wallet_store :=
  match decode_hex child.1 with
  | Some key =>
      match decode_hex (tree_get tree child.1) with
      | Some value => (false, entry_put_raw key (WalletValue value 0) st.2)
      | None => (true, st.2)
      end
  | None => (true, st.2)
  end.

(** The constructor from a backup: the error flag and the store. *)
Definition wallet_store_json (rn : randoms) (json_a : text) : bool * wallet_store :=
  let s := WalletStore ∅ (fan_new 0 (rn_password_fan rn)) (fan_new 0 (rn_wallet_key_fan rn)) true in
  let '(init_a, wallet_l) :=
    match read_json json_a with Some t => (false, t) | None => (true, []) end in
  let '(init_a, s) := foldl (json_entry wallet_l) (init_a, s) wallet_l in
  let missing k := bool_decide (ws_entries s !! k = None) in
  let init_a := init_a || missing version_special || missing wallet_key_special
                || missing salt_special || missing check_special || missing representative_special in
  let s := ws_set_password 0 s in
  (init_a, ws_set_wallet_key_mem (wv_key (entry_get_raw s wallet_key_special)) s).
End store.

#[global] Arguments encrypt {_} _ _ _ : simpl never.
#[global] Arguments decrypt {_} _ _ _ : simpl never.
#[global] Arguments pub_key {_} _ : simpl never.
#[global] Arguments phs {_} _ _ _ : simpl never.
#[global] Arguments sign_message {_} _ _ _ : simpl never.
#[global] Arguments encode_hex _ : simpl never.
#[global] Arguments marker _ : simpl never.
