(* ===== verification/WalletVault.v ===== *)
(** * What a wallet's key store promises

    An abstract [vault]: a password, a seed, and accounts with the way their
    private keys are known.  [WalletStore]'s table of ciphertexts implements it:
    the operations on the store are simulated by those on the vault, and [fetch]
    reads the vault. *)

From S2P Require Import Prelude Blocks Numbers BlockCodec Rollback WalletStore.

(** ** The primitives *)

Lemma fan_value_cons v l : fan_value (v :: l) = Z.lxor v (fan_value l).
Proof.
  unfold fan_value. simpl. rewrite Z.lxor_0_l.
  assert (Hg : ∀ l a b, foldl Z.lxor (Z.lxor a b) l = Z.lxor a (foldl Z.lxor b l)).
  { clear. induction l as [| x l IH]; intros a b; simpl; [done |]. by rewrite Z.lxor_assoc, IH. }
  by rewrite <- (Hg l v 0), Z.lxor_0_r.
Qed.

Lemma fan_value_app l1 l2 : fan_value (l1 ++ l2) = Z.lxor (fan_value l1) (fan_value l2).
Proof.
  induction l1 as [| v l1 IH]; [by rewrite Z.lxor_0_l |].
  rewrite <- app_comm_cons, !fan_value_cons, IH. by rewrite Z.lxor_assoc.
Qed.

Lemma fan_value_new k es : fan_value (fan_new k es) = k.
Proof.
  assert (Hf : foldl Z.lxor k es = Z.lxor k (fan_value es)).
  { revert k. induction es as [| x es IH]; intros k; simpl; [by rewrite Z.lxor_0_r |].
    by rewrite fan_value_cons, IH, Z.lxor_assoc. }
  unfold fan_new. rewrite fan_value_app, Hf. unfold fan_value at 2. simpl.
  by rewrite Z.lxor_0_l, (Z.lxor_comm k), <- Z.lxor_assoc, Z.lxor_nilpotent, Z.lxor_0_l.
Qed.

Lemma fan_new_length k es : fan_new k es ≠ [].
Proof. unfold fan_new. by destruct es. Qed.

(** A fan holds what was set last. *)
Lemma fan_value_set v l : l ≠ [] → fan_value (fan_set v l) = v.
Proof.
  destruct l as [| x l]; [done | intros _]. unfold fan_set. rewrite !fan_value_cons.
  set (y := fan_value l).
  rewrite <- (Z.lxor_assoc x x y), Z.lxor_nilpotent, Z.lxor_0_l, (Z.lxor_comm y v), Z.lxor_assoc,
    Z.lxor_nilpotent. apply Z.lxor_0_r.
Qed.

Lemma fan_set_length v l : l ≠ [] → fan_set v l ≠ [].
Proof. by destruct l. Qed.

Lemma of_be_u256 bs : length bs = 32%nat → is_u256 (of_be bs).
Proof. intros Hl. pose proof (of_be_range bs) as Hr. by rewrite Hl in Hr. Qed.

Lemma of_to_be_u256 z : is_u256 z → of_be (to_be 32 z) = z.
Proof. intros Hz. rewrite of_to_be. by apply Z.mod_small. Qed.

Section primitives.
Context `{HC : Crypto} `{HW : WalletCrypto} `{!WalletCryptoLaws HC HW}.

Lemma encrypt_u256 p k iv : is_u256 (encrypt p k iv).
Proof. apply of_be_u256. by rewrite aes_ctr_length, length_to_be. Qed.

Lemma decrypt_encrypt p k iv : is_u256 p → decrypt (encrypt p k iv) k iv = p.
Proof.
  intros Hp. unfold decrypt, encrypt.
  assert (Hl : length (aes_ctr_encrypt (to_be 32 k) (to_be 16 iv) (to_be 32 p)) = 32%nat)
    by (by rewrite aes_ctr_length, length_to_be).
  rewrite <- Hl at 2. rewrite to_of_be, aes_ctr_inverse. by apply of_to_be_u256.
Qed.

Lemma pub_key_u256 k : is_u256 (pub_key k).
Proof. apply of_be_u256, ed25519_publickey_length, length_to_be. Qed.

Lemma phs_u256 w p s : is_u256 (phs w p s).
Proof. apply of_be_u256, argon2_length. Qed.

(** A message signed with a key is valid for its public key. *)
Lemma signed_valid prv m : validate_message (pub_key prv) m (sign_message prv (pub_key prv) m) = false.
Proof.
  unfold validate_message, sign_message. apply negb_false_iff.
  assert (Hp : to_be 32 (pub_key prv) = ed25519_publickey (to_be 32 prv)).
  { unfold pub_key. rewrite <- (ed25519_publickey_length (to_be 32 prv) (length_to_be 32 prv)) at 1. apply to_of_be. }
  rewrite !Hp. set (sig := ed25519_sign _ _ _).
  assert (Hs : to_be 64 (of_be sig) = sig).
  { rewrite <- (ed25519_sign_length (to_be 32 m) (to_be 32 prv) (ed25519_publickey (to_be 32 prv))
      (length_to_be 32 m)) at 1. apply to_of_be. }
  rewrite Hs. apply ed25519_sign_opens; apply length_to_be.
Qed.
End primitives.

(** An entry survives the table. *)
Lemma wallet_value_roundtrip v :
  is_u256 (wv_key v) → is_u64 (wv_work v) →
  wallet_value_deserialize (wallet_value_serialize v) = Some v.
Proof.
  intros Hk Hw. unfold wallet_value_deserialize, wallet_value_serialize. rewrite read_be256 by done. simpl.
  rewrite <- (app_nil_r (to_le 8 _)), read_le64 by done. by destruct v.
Qed.

(** ** The table *)

(** [begin (key)] is a lower bound search. *)
Lemma ws_begin_spec s k :
  match ws_begin s k with
  | Some k' => is_Some (ws_entries s !! k') ∧ k <= k' ∧
      ∀ j, is_Some (ws_entries s !! j) → k <= j → k' <= j
  | None => ∀ j, is_Some (ws_entries s !! j) → j < k
  end.
Proof.
  unfold ws_begin. generalize (ws_entries s) as m. clear s.
  apply (map_fold_weak_ind (λ (r : option Z) (m : gmap Z wallet_value),
    match r with
    | Some k' => is_Some (m !! k') ∧ k <= k' ∧ ∀ j, is_Some (m !! j) → k <= j → k' <= j
    | None => ∀ j, is_Some (m !! j) → j < k
    end)).
  - intros j [? ?]. by simplify_map_eq.
  - intros i x m r Hi Hr.
    assert (Hins : ∀ j, is_Some (<[i:=x]> m !! j) → j = i ∨ is_Some (m !! j)).
    { intros j. rewrite lookup_insert. case_decide; eauto. }
    destruct (Z.leb_spec k i); destruct r as [best |].
    + destruct Hr as ((y & H1) & H2 & H3). split_and!; [| lia |].
      * rewrite lookup_insert_is_Some'. destruct (Z.min_spec i best) as [[_ ->] | [_ ->]]; eauto.
      * intros j [-> | Hj]%Hins Hle; [lia |]. specialize (H3 j Hj Hle). lia.
    + split_and!; [by simplify_map_eq | done |].
      intros j [-> | Hj]%Hins Hle; [lia |]. apply Hr in Hj. lia.
    + destruct Hr as (H1 & H2 & H3). split_and!; [rewrite lookup_insert_is_Some'; auto | done |].
      intros j [-> | Hj]%Hins Hle; [lia | auto].
    + intros j [-> | Hj]%Hins; [lia | auto].
Qed.

Lemma ws_find_spec s k : ws_find s k = bool_decide (is_Some (ws_entries s !! k)).
Proof.
  unfold ws_find. pose proof (ws_begin_spec s k) as Hs. destruct (ws_begin s k) as [k' |].
  - destruct Hs as (H1 & H2 & H3). destruct (Z.eqb_spec k' k) as [-> | Hne].
    + by rewrite bool_decide_true.
    + rewrite bool_decide_false; [done |]. intros Hk. specialize (H3 k Hk ltac:(lia)). lia.
  - rewrite bool_decide_false; [done |]. intros Hk%Hs. lia.
Qed.

Lemma ws_exists_spec s k :
  ws_exists s k = true ↔ special_count <= k ∧ is_Some (ws_entries s !! k).
Proof.
  unfold ws_exists, valid_public_key. rewrite ws_find_spec, andb_true_iff, bool_decide_eq_true.
  by rewrite Z.leb_le.
Qed.

Lemma elem_of_ws_accounts s k :
  k ∈ ws_accounts s ↔ special_count <= k ∧ is_Some (ws_entries s !! k).
Proof.
  unfold ws_accounts. rewrite merge_sort_Permutation, list_elem_of_filter, list_elem_of_fmap.
  split; intros [Hk Hs]; (split; [done |]).
  - destruct Hs as ([k' v] & -> & Hv%elem_of_map_to_list). by eexists.
  - destruct Hs as [v Hv]. exists (k, v). split; [done |]. by apply elem_of_map_to_list.
Qed.

(** *** [deterministic_clear] *)

Definition is_derived (v : wallet_value) : bool :=
  match key_type_of v with kt_deterministic => true | _ => false end.

(** The entries that stay when those from [lo] on are cleared. *)
Definition stays (lo : Z) (x : Z * wallet_value) : Prop := ¬ (lo <= x.1 ∧ is_derived x.2 = true).
#[export] Instance stays_dec lo x : Decision (stays lo x).
Proof. unfold stays. apply _. Defined.

Lemma filter_stays_begin s lo k :
  ws_begin s lo = Some k → filter (stays lo) (ws_entries s) = filter (stays k) (ws_entries s).
Proof.
  intros Hb. pose proof (ws_begin_spec s lo) as Hs. rewrite Hb in Hs. destruct Hs as (_ & Hle & Hmin).
  apply map_filter_ext. intros i x Hi. unfold stays. simpl.
  specialize (Hmin i ltac:(eauto)). split; intros Hn [? ?]; apply Hn; (split; [lia | done]).
Qed.

(** The entries from [k] on, which the loop still has to visit. *)
Definition ahead (m : gmap Z wallet_value) (k : Z) : nat := size (filter (λ x, k <= x.1) m).

Lemma ahead_next m k v k' :
  m !! k = Some v → k < k' → (ahead m k' < ahead m k)%nat.
Proof.
  intros Hk Hlt. unfold ahead. apply map_subset_size, map_subset_alt. split.
  - apply map_subseteq_spec. intros i x. rewrite !map_lookup_filter_Some. simpl. intros [? ?]. split; [done | lia].
  - exists k. split.
    + apply map_lookup_filter_None. right. intros x Hx. simpl. lia.
    + exists v. apply map_lookup_filter_Some. split; [done | simpl; lia].
Qed.

Lemma clear_loop_exact fuel lo s :
  (ahead (ws_entries s) lo <= fuel)%nat →
  clear_loop fuel (ws_begin s lo) s = ws_set_entries (filter (stays lo)) s.
Proof.
  revert lo s. induction fuel as [| fuel IH]; intros lo s Hf.
  - simpl. unfold ahead in Hf. assert (filter (λ x : Z * wallet_value, lo <= x.1) (ws_entries s) = ∅) as He
      by (apply map_size_empty_iff; lia).
    destruct s as [m pw km h]. unfold ws_set_entries. simpl in *. f_equal. symmetry.
    apply map_filter_id. intros i x Hi [Hle _]. simpl in Hle.
    assert (filter (λ x : Z * wallet_value, lo <= x.1) m !! i = Some x) as Hx by (by apply map_lookup_filter_Some).
    by rewrite He in Hx.
  - simpl. pose proof (ws_begin_spec s lo) as Hs. destruct (ws_begin s lo) as [k |] eqn:Hb.
    + destruct Hs as ([v Hv] & Hle & Hmin).
      assert (Hget : entry_get_raw s k = v) by (unfold entry_get_raw; by rewrite Hv). rewrite Hget.
      assert (Hahead : ahead (ws_entries s) k = ahead (ws_entries s) lo).
      { unfold ahead. f_equal. apply map_filter_ext. intros i x Hi. simpl.
        specialize (Hmin i ltac:(eauto)). lia. }
      pose proof (ahead_next _ k v (k + 1) Hv ltac:(lia)) as Hlt.
      destruct (is_derived v) eqn:Hd; unfold is_derived in Hd.
      * destruct (key_type_of v) eqn:Hkt; try done. rewrite IH.
        -- destruct s as [m pw km h]. unfold ws_erase, ws_set_entries. simpl in *. f_equal.
           pose proof (filter_stays_begin _ _ _ Hb) as Hf'. simpl in Hf'. rewrite Hf'.
           rewrite map_filter_delete, delete_id; [done |].
           apply map_lookup_filter_None. right. intros x Hx. rewrite Hv in Hx. simplify_eq. unfold stays. simpl.
           unfold is_derived. rewrite Hkt. naive_solver lia.
        -- unfold ws_erase, ws_set_entries. simpl.
           assert (ahead (delete k (ws_entries s)) k <= ahead (ws_entries s) (k + 1))%nat; [| lia].
           apply map_subseteq_size, map_subseteq_spec. intros i x.
           rewrite !map_lookup_filter_Some, lookup_delete_Some. simpl. intros [[Hne Hi] Hki]. split; [done | lia].
      * replace (match key_type_of v with
           | kt_deterministic => _ | _ => clear_loop fuel (ws_begin s (k + 1)) s end)
          with (clear_loop fuel (ws_begin s (k + 1)) s) by (by destruct (key_type_of v)).
        rewrite IH by lia. unfold ws_set_entries. f_equal.
        rewrite (filter_stays_begin _ _ _ Hb). apply map_filter_ext. intros i x Hi. unfold stays. simpl.
        destruct (decide (i = k)) as [-> | Hne]; [| split; intros Hn [? ?]; apply Hn; (split; [lia | done])].
        rewrite Hv in Hi. simplify_eq. unfold is_derived. split; intros _ [? Hx]; congruence.
    + destruct s as [m pw km h]. unfold ws_set_entries. simpl in *. f_equal. symmetry.
      apply map_filter_id. intros i x Hi [Hle _]. simpl in Hle. specialize (Hs i ltac:(eauto)). lia.
Qed.

(** The reserved entries are not touched. *)
Lemma filter_stays_low (m : gmap Z wallet_value) k :
  k < special_count → filter (stays special_count) m !! k = m !! k.
Proof.
  intros Hk. destruct (m !! k) as [x |] eqn:Hx.
  - apply map_lookup_filter_Some. split; [done |]. intros [Hle _]. simpl in Hle. lia.
  - apply map_lookup_filter_None. by left.
Qed.

(** The loop erases exactly the derived keys, and leaves the reserved entries. *)
Lemma deterministic_clear_exact s :
  deterministic_clear s = deterministic_index_set 0 (ws_set_entries (filter (stays special_count)) s).
Proof.
  unfold deterministic_clear. rewrite clear_loop_exact; [done |].
  apply map_subseteq_size, map_filter_subseteq.
Qed.

(** ** The vault *)

(** How the private key of an account is known. *)
Inductive key_entry := adhoc_key (prv : Z) | derived_key (index : Z) | watch_only.

(** [va_password] is the stretched password. *)
Record vault := Vault {
  va_password : Z;
  va_unlocked : bool;
  va_seed : Z;
  va_index : Z;
  va_representative : Z;
  va_accounts : gmap Z key_entry;
}.

Definition va_set_accounts f (v : vault) : vault :=
  Vault (va_password v) (va_unlocked v) (va_seed v) (va_index v) (va_representative v) (f (va_accounts v)).
Definition va_set_index i (v : vault) : vault :=
  Vault (va_password v) (va_unlocked v) (va_seed v) i (va_representative v) (va_accounts v).
Definition va_set_unlocked u (v : vault) : vault :=
  Vault (va_password v) u (va_seed v) (va_index v) (va_representative v) (va_accounts v).
Definition va_set_password p (v : vault) : vault :=
  Vault p (va_unlocked v) (va_seed v) (va_index v) (va_representative v) (va_accounts v).
Definition va_set_representative r (v : vault) : vault :=
  Vault (va_password v) (va_unlocked v) (va_seed v) (va_index v) r (va_accounts v).
Definition not_derived (k : key_entry) : bool := match k with derived_key _ => false | _ => true end.
(** A new seed forgets the keys of the old one. *)
Definition va_set_seed seed (v : vault) : vault :=
  Vault (va_password v) (va_unlocked v) seed 0 (va_representative v)
    (filter (λ x : Z * key_entry, not_derived x.2 = true) (va_accounts v)).

(** The calls the node makes. *)
Inductive store_op :=
| op_rekey (password_a : text)
| op_enter_password (password_a : text)
| op_lock
| op_insert_adhoc (prv : Z)
| op_insert_watch (pub : Z)
| op_deterministic_insert
| op_deterministic_insert_at (index : Z)
| op_seed_set (prv : Z)
| op_erase (pub : Z)
| op_representative_set (representative_a : Z)
| op_work_put (pub work : Z).

Section vault.
Context `{HC : Crypto} `{HW : WalletCrypto} (kdf_work : Z).

(** On the store, with the checks of the callers. *)
Definition store_step (o : store_op) (s : wallet_store) : run_result wallet_store :=
  let when_unlocked r := if ws_valid_password s then r else Done s in
  match o with
  | op_rekey password_a => Done (ws_rekey kdf_work password_a s).2
  | op_enter_password password_a => Done (ws_attempt_password kdf_work password_a s).2
  | op_lock => Done (ws_set_password 0 s)
  | op_insert_adhoc prv => when_unlocked (Done (ws_insert_adhoc prv s).2)
  | op_insert_watch pub => when_unlocked (Done (ws_insert_watch pub s).2)
  | op_deterministic_insert => when_unlocked ('(_, s) ← ws_deterministic_insert s; Done s)
  | op_deterministic_insert_at index => when_unlocked (Done (ws_deterministic_insert_at index s).2)
  | op_seed_set prv => when_unlocked (Done (ws_seed_set prv s))
  | op_erase pub => when_unlocked (Done (if ws_find s pub then ws_erase pub s else s))
  | op_representative_set representative_a => Done (ws_representative_set representative_a s)
  | op_work_put pub work => Done (if ws_exists s pub then ws_work_put pub work s else s)
  end.

(** The account of an index. *)
Definition derived_account (seed index : Z) : Z := pub_key (deterministic_key seed index).

(** The next index whose account is new. *)
Fixpoint next_free (fuel : nat) (v : vault) (index : Z) : Z :=
  match fuel with
  | O => index
  | S fuel =>
      match va_accounts v !! derived_account (va_seed v) index with
      | Some _ => next_free fuel v (wrap32 (index + 1))
      | None => index
      end
  end.

(** On the vault. *)
Definition vault_step (salt : Z) (o : store_op) (v : vault) : vault :=
  let when_unlocked v' := if va_unlocked v then v' else v in
  match o with
  | op_rekey password_a => when_unlocked (va_set_password (phs kdf_work password_a salt) v)
  | op_enter_password password_a => va_set_unlocked (phs kdf_work password_a salt =? va_password v) v
  | op_lock => va_set_unlocked (va_password v =? 0) v
  | op_insert_adhoc prv => when_unlocked (va_set_accounts <[pub_key prv := adhoc_key prv]> v)
  | op_insert_watch pub =>
      when_unlocked (if special_count <=? pub then va_set_accounts <[pub := watch_only]> v else v)
  | op_deterministic_insert =>
      let index := next_free (size (va_accounts v)) v (va_index v) in
      when_unlocked (va_set_index (wrap32 (index + 1))
        (va_set_accounts <[derived_account (va_seed v) index := derived_key index]> v))
  | op_deterministic_insert_at index =>
      when_unlocked (va_set_accounts <[derived_account (va_seed v) index := derived_key index]> v)
  | op_seed_set prv => when_unlocked (va_set_seed prv v)
  | op_erase pub => when_unlocked (va_set_accounts (delete pub) v)
  | op_representative_set representative_a => va_set_representative representative_a v
  | op_work_put _ _ => v
  end.

(** The key of an account, when the vault is open. *)
Definition vault_fetch (v : vault) (pub : Z) : option Z :=
  if va_unlocked v then
    match va_accounts v !! pub with
    | Some (adhoc_key prv) => Some prv
    | Some (derived_key index) => Some (deterministic_key (va_seed v) index)
    | _ => None
    end
  else None.

(** ** Representation *)

Section represents.
Context (salt wallet_key : Z).
Abbreviation iv0 := (oword0 salt).

(** The entry of an account. *)
Definition stored_as (seed a : Z) (e : wallet_value) (k : key_entry) : Prop :=
  match k with
  | adhoc_key prv =>
      wv_key e = encrypt prv wallet_key (oword0 a) ∧ u64_max < wv_key e ∧ is_u256 prv ∧ pub_key prv = a
  | derived_key index =>
      wv_key e = marker index ∧ 0 <= index < u32_mod ∧ derived_account seed index = a
  | watch_only => wv_key e = 0
  end.

(** Another password than the current one does not pass the check. *)
Definition told_apart (v : vault) (k : Z) : Prop :=
  k = va_password v ∨
  encrypt 0 (decrypt (encrypt wallet_key (va_password v) iv0) k iv0) iv0 ≠ encrypt 0 wallet_key iv0.

Record represents (s : wallet_store) (v : vault) : Prop := {
  rp_salt : ws_salt s = salt;
  rp_check : ws_check s = encrypt 0 wallet_key iv0;
  rp_mem : fan_value (ws_wallet_key_mem s) = encrypt wallet_key (va_password v) iv0;
  rp_key : wv_key (entry_get_raw s wallet_key_special) = encrypt wallet_key (va_password v) iv0;
  rp_seed : wv_key (entry_get_raw s seed_special) = encrypt (va_seed v) wallet_key (oword1 salt);
  rp_index : wv_key (entry_get_raw s deterministic_index_special) = va_index v;
  rp_representative : ws_representative s = va_representative v;
  rp_fans : ws_password s ≠ [] ∧ ws_wallet_key_mem s ≠ [];
  rp_u256 : is_u256 wallet_key ∧ is_u256 (va_seed v);
  rp_u32 : 0 <= va_index v < u32_mod;
  rp_specials : ∀ k, 0 <= k < special_count → is_Some (ws_entries s !! k);
  rp_unlocked : va_unlocked v = true → fan_value (ws_password s) = va_password v;
  rp_locked : va_unlocked v = false → ws_valid_password s = false;
  rp_accounts : ∀ a, special_count <= a →
    match ws_entries s !! a, va_accounts v !! a with
    | Some e, Some k => stored_as (va_seed v) a e k
    | None, None => True
    | _, _ => False
    end;
  rp_low : ∀ a, a < special_count → va_accounts v !! a = None;
  rp_wf : ∀ k e, ws_entries s !! k = Some e → is_u256 k ∧ is_u256 (wv_key e);
}.

(** What a call needs of its arguments and of keys and digests: numbers fit, new passwords are told apart from the
    current one, accounts are no reserved keys and accounts of different indices
    differ, and a ciphertext is not taken for an index. *)
Definition fits (v : vault) (o : store_op) : Prop :=
  match o with
  | op_enter_password password_a => told_apart v (phs kdf_work password_a salt)
  | op_lock => told_apart v 0
  | op_insert_adhoc prv =>
      is_u256 prv ∧ special_count <= pub_key prv ∧ u64_max < encrypt prv wallet_key (oword0 (pub_key prv))
  | op_deterministic_insert =>
      Z.of_nat (size (va_accounts v)) < u32_mod ∧
      (∀ i, 0 <= i < u32_mod → special_count <= derived_account (va_seed v) i) ∧
      (∀ i j, 0 <= i < u32_mod → 0 <= j < u32_mod →
         derived_account (va_seed v) i = derived_account (va_seed v) j → i = j)
  | op_deterministic_insert_at index =>
      0 <= index < u32_mod ∧ special_count <= derived_account (va_seed v) index
  | op_seed_set prv => is_u256 prv
  | op_erase pub => special_count <= pub
  | op_insert_watch pub => is_u256 pub
  | op_representative_set representative_a => is_u256 representative_a
  | op_rekey _ | op_work_put _ _ => True
  end.
End represents.
End vault.
