(* ===== verification/WalletRefinement.v ===== *)
(** * The key store implements the vault

    Every operation on the store keeps the relation of [WalletVault], so a
    sequence of calls on a new wallet leaves the keys where the vault has them. *)

From S2P Require Import Prelude Blocks Numbers BlockCodec Rollback WalletStore WalletVault.

Lemma entry_get_put s a e k :
  entry_get_raw (entry_put_raw a e s) k = if decide (a = k) then e else entry_get_raw s k.
Proof. unfold entry_get_raw, entry_put_raw. simpl. rewrite lookup_insert. by case_decide. Qed.

Lemma entry_get_put_ne s a e k : a ≠ k → entry_get_raw (entry_put_raw a e s) k = entry_get_raw s k.
Proof. intros. rewrite entry_get_put. by case_decide. Qed.

Lemma marker_value index : 0 <= index < u32_mod → marker index = u32_mod + index.
Proof.
  intros Hi.
  assert (Hd : Z.land (2 ^ 32) index = 0).
  { apply Z.bits_inj'. intros n Hn. rewrite Z.land_spec, Z.bits_0, Z.pow2_bits_eqb by lia.
    destruct (Z.eqb_spec 32 n) as [<- | ?]; [| done]. rewrite andb_true_l.
    destruct (decide (index = 0)) as [-> | ?]; [done |].
    apply Z.bits_above_log2; [lia |]. apply Z.log2_lt_pow2; unfold u32_mod in *; lia. }
  pose proof (Z.add_lor_land (2 ^ 32) index) as Ha. rewrite Hd, Z.add_0_r in Ha. exact Ha.
Qed.

Lemma marker_derived index e :
  0 <= index < u32_mod → wv_key e = marker index →
  key_type_of e = kt_deterministic ∧ Z.land (wv_key e) (u32_mod - 1) = index ∧ wv_key e ≠ 0.
Proof.
  intros Hi He. pose proof (marker_value index Hi) as Hm.
  unfold key_type_of. rewrite He, Hm. unfold u64_max, u64_mod. unfold u32_mod in *.
  destruct (Z.ltb_spec (18446744073709551616 - 1) (4294967296 + index)); [lia |].
  assert (Hs : Z.shiftr (4294967296 + index) 32 = 1).
  { rewrite Z.shiftr_div_pow2 by lia. symmetry. apply (Z.div_unique _ _ 1 index); lia. }
  rewrite Hs. change (wrap32 1 =? 1) with true. split_and!; [done | | lia].
  change (4294967296 - 1) with (Z.ones 32). rewrite Z.land_ones by lia.
  symmetry. apply (Z.mod_unique _ _ 1); lia.
Qed.

Section refinement.
Context `{HC : Crypto} `{HW : WalletCrypto} `{!WalletCryptoLaws HC HW} (kdf_work : Z).
Context (salt wallet_key : Z).
Abbreviation represents := (represents salt wallet_key).
Abbreviation stored_as := (stored_as wallet_key).
Abbreviation iv0 := (oword0 salt).
Implicit Types (s : wallet_store) (v : vault).

(** ** Reading *)

Lemma unlocked_wallet_key s v :
  represents s v → va_unlocked v = true → ws_wallet_key s = wallet_key.
Proof.
  intros HR Hu. unfold ws_wallet_key.
  rewrite (rp_mem _ _ _ _ HR), (rp_unlocked _ _ _ _ HR Hu), (rp_salt _ _ _ _ HR).
  apply decrypt_encrypt, HR.
Qed.

Lemma valid_password_unlocked s v : represents s v → ws_valid_password s = va_unlocked v.
Proof.
  intros HR. destruct (va_unlocked v) eqn:Hu; [| by apply HR].
  unfold ws_valid_password. rewrite (unlocked_wallet_key s v HR Hu), (rp_check _ _ _ _ HR), (rp_salt _ _ _ _ HR).
  apply Z.eqb_refl.
Qed.

Lemma unlocked_seed s v : represents s v → va_unlocked v = true → ws_seed s = va_seed v.
Proof.
  intros HR Hu. unfold ws_seed.
  rewrite (unlocked_wallet_key s v HR Hu), (rp_seed _ _ _ _ HR), (rp_salt _ _ _ _ HR).
  apply decrypt_encrypt, HR.
Qed.

Lemma exists_account s v a : represents s v → ws_exists s a = true ↔ is_Some (va_accounts v !! a).
Proof.
  intros HR. rewrite ws_exists_spec. split.
  - intros [Ha [e He]]. pose proof (rp_accounts _ _ _ _ HR a Ha) as Hx. rewrite He in Hx.
    destruct (va_accounts v !! a); [by eexists | done].
  - intros [k Hk]. destruct (decide (special_count <= a)) as [Ha | Ha].
    + split; [done |]. pose proof (rp_accounts _ _ _ _ HR a Ha) as Hx. rewrite Hk in Hx.
      destruct (ws_entries s !! a); [by eexists | done].
    + rewrite (rp_low _ _ _ _ HR a) in Hk; [done | lia].
Qed.

(** [fetch] reads the vault: the key, or an error. *)
Lemma fetch_reads_vault s v a prv0 :
  represents s v → special_count <= a →
  match vault_fetch v a with
  | Some prv => ws_fetch s a prv0 = (false, prv) ∧ pub_key prv = a
  | None => (ws_fetch s a prv0).1 = true
  end.
Proof.
  intros HR Ha. unfold vault_fetch, ws_fetch. rewrite (valid_password_unlocked s v HR).
  destruct (va_unlocked v) eqn:Hu; [| done].
  pose proof (rp_accounts _ _ _ _ HR a Ha) as Hx. unfold entry_get_raw.
  destruct (ws_entries s !! a) as [e |], (va_accounts v !! a) as [k |]; try done. simpl.
  destruct k as [prv | index |]; simpl in Hx.
  - destruct Hx as (He & Hbig & Hp & Hpub). unfold key_type_of.
    assert (Hpos : 0 < u64_max) by reflexivity.
    destruct (Z.eqb_spec (wv_key e) 0) as [Hz | _]; [lia |]. cbn [negb].
    destruct (Z.ltb_spec u64_max (wv_key e)); [| lia].
    rewrite (unlocked_wallet_key s v HR Hu), He, decrypt_encrypt by done.
    by rewrite Hpub, Z.eqb_refl.
  - destruct Hx as (He & Hi & Hpub). destruct (marker_derived index e Hi He) as (-> & -> & Hnz).
    destruct (Z.eqb_spec (wv_key e) 0) as [Hz | _]; [done |]. cbn [negb]. unfold ws_deterministic_key.
    rewrite (unlocked_seed s v HR Hu). unfold derived_account in Hpub. rewrite Hpub, Z.eqb_refl. done.
  - rewrite Hx. done.
Qed.

(** ** Writing *)

Lemma stored_as_u256 seed a e k : stored_as seed a e k → is_u256 (wv_key e).
Proof.
  destruct k as [prv | index |]; simpl.
  - intros (-> & _). apply encrypt_u256.
  - intros (-> & Hi & _). rewrite marker_value by done. unfold is_u256, u256_mod, u32_mod in *. lia.
  - by intros ->.
Qed.

(** Entries of accounts are no reserved entries. *)
Ltac plain := rewrite ?entry_get_put_ne by (unfold special_count, salt_special, check_special, wallet_key_special,
  seed_special, deterministic_index_special, representative_special in *; lia).

Lemma put_account s v a e k :
  represents s v → special_count <= a → is_u256 a → stored_as (va_seed v) a e k →
  represents (entry_put_raw a e s) (va_set_accounts <[a := k]> v).
Proof.
  intros HR Ha Ha' Hst. pose proof (stored_as_u256 _ _ _ _ Hst) as Hwf. pose proof (valid_password_unlocked s v HR) as Hvp.
  assert (Hw : ws_wallet_key (entry_put_raw a e s) = ws_wallet_key s).
  { unfold ws_wallet_key, ws_salt. plain. done. }
  destruct HR. split; simpl; try done; unfold ws_salt, ws_check, ws_representative in *; plain; try done.
  - intros i Hi. rewrite lookup_insert_is_Some'. auto.
  - intros Hu. unfold ws_valid_password, ws_check, ws_salt. rewrite Hw. plain. unfold ws_valid_password in Hvp.
    rewrite <- Hu. apply Hvp.
  - intros b Hb. destruct (decide (a = b)) as [<- | Hne]; [by rewrite !lookup_insert_eq |].
    rewrite !lookup_insert_ne by done. by apply rp_accounts.
  - intros b Hb. rewrite lookup_insert_ne by lia. by apply rp_low.
  - intros b x. rewrite lookup_insert_Some. intros [[<- <-] | [_ Hx]]; [done | by eapply rp_wf].
Qed.

Lemma erase_account s v a :
  represents s v → special_count <= a → represents (ws_erase a s) (va_set_accounts (delete a) v).
Proof.
  intros HR Ha. pose proof (valid_password_unlocked s v HR) as Hvp.
  assert (Hg : ∀ k, k < special_count → entry_get_raw (ws_erase a s) k = entry_get_raw s k).
  { intros k Hk. unfold entry_get_raw, ws_erase. simpl. rewrite lookup_delete_ne; [done | lia]. }
  assert (Hw : ws_valid_password (ws_erase a s) = ws_valid_password s).
  { unfold ws_valid_password, ws_wallet_key, ws_salt, ws_check. by rewrite !Hg. }
  destruct HR. split; simpl; try done; unfold ws_salt, ws_check, ws_representative in *; rewrite ?Hg; try done.
  - intros i Hi. rewrite lookup_delete_ne by lia. auto.
  - intros Hu. rewrite Hw, Hvp. done.
  - intros a' Ha'. destruct (decide (a = a')) as [<- | Hne]; [by rewrite !lookup_delete_eq |].
    rewrite !lookup_delete_ne by done. by apply rp_accounts.
  - intros a' Ha'. rewrite lookup_delete_ne by lia. by apply rp_low.
  - intros b x [_ Hx]%lookup_delete_Some. by eapply rp_wf.
Qed.

(** A call that leaves the accounts and the reserved entries for keys alone. *)
Lemma put_special s v k e v' :
  represents s v → 0 <= k < special_count → k ≠ salt_special → k ≠ check_special → k ≠ wallet_key_special →
  va_password v' = va_password v → va_unlocked v' = va_unlocked v →
  is_u256 (va_seed v') → 0 <= va_index v' < u32_mod → is_u256 (wv_key e) →
  wv_key (if decide (k = seed_special) then e else entry_get_raw s seed_special) =
    encrypt (va_seed v') wallet_key (oword1 salt) →
  wv_key (if decide (k = deterministic_index_special) then e
          else entry_get_raw s deterministic_index_special) = va_index v' →
  wv_key (if decide (k = representative_special) then e else entry_get_raw s representative_special) =
    va_representative v' →
  (∀ a, special_count <= a →
    match ws_entries s !! a, va_accounts v' !! a with
    | Some e, Some k => stored_as (va_seed v') a e k
    | None, None => True
    | _, _ => False
    end) →
  (∀ a, a < special_count → va_accounts v' !! a = None) →
  represents (entry_put_raw k e s) v'.
Proof.
  intros HR Hk H1 H2 H3 Hp Hu Hs Hi Hwf He1 He2 He3 Hacc Hlow.
  assert (Hw : ws_valid_password (entry_put_raw k e s) = ws_valid_password s).
  { unfold ws_valid_password, ws_wallet_key, ws_salt, ws_check. by rewrite !entry_get_put_ne by done. }
  destruct HR. split; simpl; unfold ws_salt, ws_check, ws_representative in *; rewrite ?Hp, ?Hu, ?Hw; try done;
    try (by rewrite entry_get_put_ne by done); try (by rewrite entry_get_put).
  - by destruct rp_u256.
  - intros i Hi'. rewrite lookup_insert_is_Some'. auto.
  - intros a Ha. rewrite lookup_insert_ne by lia. by apply Hacc.
  - intros a x. rewrite lookup_insert_Some. intros [[<- <-] | [_ Hx]]; [| by eapply rp_wf].
    split; [| done]. unfold special_count, is_u256, u256_mod in *. lia.
Qed.

Lemma set_password s v k u :
  represents s v → (u = true → k = va_password v) →
  (u = false →
     encrypt 0 (decrypt (encrypt wallet_key (va_password v) iv0) k iv0) iv0 ≠ encrypt 0 wallet_key iv0) →
  represents (ws_set_password k s) (va_set_unlocked u v).
Proof.
  intros HR Ht Hf. destruct HR. destruct rp_fans as [Hf1 Hf2].
  assert (Hv : fan_value (fan_set k (ws_password s)) = k) by (by apply fan_value_set).
  split; simpl; try done.
  - split; [by apply fan_set_length | done].
  - intros ->. rewrite Hv. auto.
  - intros ->. unfold ws_valid_password, ws_wallet_key. simpl. rewrite Hv.
    unfold ws_check, ws_salt, entry_get_raw in *. simpl. rewrite rp_mem, rp_check, rp_salt.
    apply Z.eqb_neq. intros Heq. by apply Hf.
Qed.

Lemma rekey_represents s v password_a :
  represents s v → va_unlocked v = true →
  represents (ws_rekey kdf_work password_a s).2 (va_set_password (phs kdf_work password_a salt) v).
Proof.
  intros HR Hu. unfold ws_rekey. rewrite (valid_password_unlocked s v HR), Hu.
  rewrite (unlocked_wallet_key s v HR Hu). unfold ws_derive_key. simpl.
  destruct HR. destruct rp_fans as [Hf1 Hf2]. unfold ws_salt at 3. simpl.
  set (e := WalletValue _ 0). cbn [snd].
  assert (Hsalt : ws_salt s = salt) by done. unfold ws_salt in Hsalt.
  split; unfold ws_salt, ws_check, ws_representative in *; simpl; unfold entry_get_raw in *; simpl in *;
    rewrite ?lookup_insert_ne, ?lookup_insert_eq by done; try done.
  - rewrite fan_value_set by done. by rewrite Hsalt.
  - simpl. by rewrite Hsalt.
  - split; by apply fan_set_length.
  - intros k Hk. rewrite lookup_insert_is_Some'. auto.
  - intros _. rewrite fan_value_set by done. by rewrite Hsalt.
  - by rewrite Hu.
  - intros a Ha. rewrite lookup_insert_ne by (unfold wallet_key_special, special_count in *; lia).
    by apply rp_accounts.
  - intros a x. rewrite lookup_insert_Some. intros [[<- <-] | [_ Hx]]; [| by eapply rp_wf].
    split; [done | apply encrypt_u256].
Qed.

(** Which entries are taken for derived keys. *)
Lemma stored_as_derived seed a e k : stored_as seed a e k → is_derived e = negb (not_derived k).
Proof.
  unfold is_derived. destruct k as [prv | index |]; simpl.
  - intros (_ & Hbig & _). unfold key_type_of. by destruct (Z.ltb_spec u64_max (wv_key e)); [| lia].
  - intros (He & Hi & _). by destruct (marker_derived index e Hi He) as [-> _].
  - intros He. unfold key_type_of. by rewrite He.
Qed.

Lemma stored_as_seed seed seed' a e k : not_derived k = true → stored_as seed a e k → stored_as seed' a e k.
Proof. by destruct k. Qed.

Lemma seed_set_represents s v prv :
  represents s v → va_unlocked v = true → is_u256 prv →
  represents (ws_seed_set prv s) (va_set_seed prv v).
Proof.
  intros HR Hu Hp. unfold ws_seed_set. rewrite (unlocked_wallet_key s v HR Hu), (rp_salt _ _ _ _ HR).
  rewrite deterministic_clear_exact. set (e := WalletValue _ 0).
  assert (Hlow : ∀ k, k < special_count →
    entry_get_raw (deterministic_index_set 0
      (ws_set_entries (filter (stays special_count)) (entry_put_raw seed_special e s))) k =
    if decide (deterministic_index_special = k) then WalletValue 0 0
    else if decide (seed_special = k) then e else entry_get_raw s k).
  { intros k Hk. unfold deterministic_index_set. rewrite entry_get_put. case_decide; [done |].
    rewrite <- entry_get_put. unfold entry_get_raw. simpl. by rewrite filter_stays_low. }
  destruct HR. split; unfold ws_salt, ws_check, ws_representative in *; rewrite ?Hlow by done; try done.
  - split; [apply rp_u256 | done].
  - intros k Hk. simpl. rewrite lookup_insert_is_Some'. destruct (decide (deterministic_index_special = k)); [by left |].
    right. rewrite filter_stays_low by lia. rewrite lookup_insert_is_Some'. auto.
  - intros Hn. simpl in Hn. congruence.
  - intros a Ha. simpl.
    assert (Hne : deterministic_index_special ≠ a ∧ seed_special ≠ a)
      by (unfold deterministic_index_special, seed_special, special_count in *; lia).
    rewrite lookup_insert_ne by apply Hne.
    specialize (rp_accounts a Ha).
    destruct (filter (stays special_count) (<[seed_special:=e]> (ws_entries s)) !! a) as [x |] eqn:Hx.
    + apply map_lookup_filter_Some in Hx as [Hx Hst]. rewrite lookup_insert_ne in Hx by apply Hne.
      rewrite Hx in rp_accounts. destruct (va_accounts v !! a) as [k |] eqn:Hk; [| done].
      assert (Hnd : not_derived k = true).
      { pose proof (stored_as_derived _ _ _ _ rp_accounts) as Hd. destruct (not_derived k); [done |].
        exfalso. apply Hst. split; [done |]. simpl. by rewrite Hd. }
      assert (filter (λ x0 : Z * key_entry, not_derived x0.2 = true) (va_accounts v) !! a = Some k) as ->
        by (by apply map_lookup_filter_Some).
      by eapply stored_as_seed.
    + destruct (filter (λ x0 : Z * key_entry, not_derived x0.2 = true) (va_accounts v) !! a) as [k |] eqn:Hk; [| done].
      apply map_lookup_filter_Some in Hk as [Hk Hnd]. simpl in Hnd. rewrite Hk in rp_accounts.
      apply map_lookup_filter_None in Hx as [Hx | Hx]; rewrite lookup_insert_ne in Hx by apply Hne.
      * by rewrite Hx in rp_accounts.
      * destruct (ws_entries s !! a) as [x |]; [| done]. apply (Hx x eq_refl). intros [_ Hd]. simpl in Hd.
        rewrite (stored_as_derived _ _ _ _ rp_accounts), Hnd in Hd. done.
  - intros a Ha. simpl. apply map_lookup_filter_None. left. by apply rp_low.
  - intros a x. simpl. rewrite lookup_insert_Some. intros [[<- <-] | [_ [Hx _]%map_lookup_filter_Some]]; [done |].
    apply lookup_insert_Some in Hx as [[<- <-] | [_ Hx]]; [split; [done | apply encrypt_u256] | by eapply rp_wf].
Qed.

(** *** New derived accounts *)

Section free.
Context (v : vault) (Hu : va_unlocked v = true).
Context (Hinj : ∀ i j, 0 <= i < u32_mod → 0 <= j < u32_mod →
  derived_account (va_seed v) i = derived_account (va_seed v) j → i = j).

Lemma wrap32_range i : 0 <= wrap32 i < u32_mod.
Proof. by apply Z.mod_pos_bound. Qed.

Lemma index_u256 i : is_u256 (wrap32 i).
Proof. pose proof (wrap32_range i). unfold is_u256, u256_mod, u32_mod in *. lia. Qed.

(** The accounts of the indices after [i], that many of them. *)
Fixpoint after (n : nat) (i : Z) : list Z :=
  match n with O => [] | S n => derived_account (va_seed v) (wrap32 i) :: after n (i + 1) end.

Lemma after_lookup n i a :
  a ∈ after n i → ∃ k, 0 <= k < Z.of_nat n ∧ a = derived_account (va_seed v) (wrap32 (i + k)).
Proof.
  revert i. induction n as [| n IH]; intros i; simpl; [by intros ?%not_elem_of_nil |].
  rewrite elem_of_cons. intros [-> | Ha]; [exists 0; split; [lia |]; by rewrite Z.add_0_r |].
  destruct (IH _ Ha) as (k & Hk & ->). exists (k + 1). split; [lia |]. do 2 f_equal. lia.
Qed.

Lemma wrap32_inj i k j :
  0 <= k < u32_mod → 0 <= j < u32_mod → wrap32 (i + k) = wrap32 (i + j) → k = j.
Proof.
  intros Hk Hj He. unfold wrap32 in He.
  assert (Hd : (k - j) mod u32_mod = 0).
  { replace (k - j) with ((i + k) - (i + j)) by lia. rewrite Zminus_mod, He, Z.sub_diag. done. }
  apply Z.mod_divide in Hd as [q Hq]; [| done]. unfold u32_mod in *. nia.
Qed.

Lemma after_NoDup n i : Z.of_nat n <= u32_mod → NoDup (after n i).
Proof using Hinj.
  revert i. induction n as [| n IH]; intros i Hn; simpl; constructor; [| apply IH; lia].
  intros (k & Hk & He)%after_lookup. apply Hinj in He; [| apply wrap32_range..].
  replace i with (i + 0) in He at 1 by lia. replace (i + 1 + k) with (i + (k + 1)) in He by lia.
  apply wrap32_inj in He; lia.
Qed.

Lemma wrap32_idem i j : wrap32 (wrap32 i + j) = wrap32 (i + j).
Proof. apply Zplus_mod_idemp_l. Qed.

Lemma after_wrap n i : after n (wrap32 i) = after n i.
Proof.
  assert (Hg : ∀ i j, wrap32 i = wrap32 j → after n i = after n j).
  { clear i. induction n as [| n IH]; intros i j He; simpl; [done |].
    rewrite He. f_equal. apply IH. by rewrite <- (wrap32_idem i), He, wrap32_idem. }
  apply Hg. unfold wrap32. by rewrite Z.mod_mod.
Qed.

Lemma free_index_step s fuel i :
  represents s v →
  free_index (S fuel) s i =
    if ws_exists s (derived_account (va_seed v) i) then free_index fuel s (wrap32 (i + 1))
    else Done (i, derived_account (va_seed v) i).
Proof using Hu WalletCryptoLaws0. intros HR. unfold derived_account. by rewrite <- (unlocked_seed s v HR Hu). Qed.

(** Among more indices than accounts one is free, and both searches find it. *)
Lemma free_index_found s fuel i (done : list Z) :
  represents s v → 0 <= i < u32_mod →
  (size (va_accounts v) <= length done + fuel)%nat → (∀ a, a ∈ done → is_Some (va_accounts v !! a)) →
  NoDup (done ++ after (S fuel) i) →
  let index := next_free fuel v i in
  free_index (S fuel) s i = Done (index, derived_account (va_seed v) index) ∧
  0 <= index < u32_mod ∧ va_accounts v !! derived_account (va_seed v) index = None.
Proof using Hu WalletCryptoLaws0.
  intros HR. revert i done. induction fuel as [| fuel IH]; intros i done Hi Hsz Hdone Hnd;
    rewrite (free_index_step s _ i HR); cbn [next_free].
  - simpl in Hnd. unfold wrap32 in Hnd. rewrite Z.mod_small in Hnd by done.
    assert (Hn : va_accounts v !! derived_account (va_seed v) i = None).
    { destruct (va_accounts v !! derived_account (va_seed v) i) as [k |] eqn:Hk; [| done]. exfalso.
      assert (Hle : (length (done ++ [derived_account (va_seed v) i]) <= size (va_accounts v))%nat).
      { rewrite <- (size_dom (D := gset Z)). rewrite <- (size_list_to_set (C := gset Z)) by done.
        apply subseteq_size. intros a. rewrite elem_of_list_to_set, elem_of_app, list_elem_of_singleton, elem_of_dom.
        intros [Ha | ->]; [by apply Hdone | by eexists]. }
      rewrite length_app in Hle. simpl in Hle. lia. }
    destruct (ws_exists s (derived_account (va_seed v) i)) eqn:Hex; [| done].
    apply (exists_account s v _ HR) in Hex as [k Hk]. congruence.
  - destruct (va_accounts v !! derived_account (va_seed v) i) as [k |] eqn:Hk.
    + assert (ws_exists s (derived_account (va_seed v) i) = true) as -> by (apply (exists_account s v _ HR); by eexists).
      apply (IH (wrap32 (i + 1)) (done ++ [derived_account (va_seed v) i])).
      * apply wrap32_range.
      * rewrite length_app. simpl. lia.
      * intros a. rewrite elem_of_app, list_elem_of_singleton. intros [Ha | ->]; [by apply Hdone | by eexists].
      * rewrite after_wrap. rewrite <- app_assoc. simpl. cbn [after] in Hnd.
        unfold wrap32 in Hnd at 1. by rewrite Z.mod_small in Hnd.
    + destruct (ws_exists s (derived_account (va_seed v) i)) eqn:Hex; [| done].
      apply (exists_account s v _ HR) in Hex as [k Hk']. congruence.
Qed.
End free.

Lemma free_index_more s n m i r : free_index n s i = Done r → (n <= m)%nat → free_index m s i = Done r.
Proof.
  revert m i. induction n as [| n IH]; intros [| m] i Hf Hle; simpl in *; try done; [lia |].
  destruct (ws_exists s _); [| done]. apply IH; [done | lia].
Qed.

Lemma accounts_in_entries s v : represents s v → (size (va_accounts v) <= size (ws_entries s))%nat.
Proof.
  intros HR. rewrite <- !(size_dom (D := gset Z)). apply subseteq_size. intros a.
  rewrite !elem_of_dom. intros Ha. by apply (exists_account s v a HR), ws_exists_spec in Ha as [_ ?].
Qed.

(** [deterministic_insert] ends, with the account of the next free index. *)
Lemma deterministic_insert_represents s v :
  represents s v → va_unlocked v = true → fits kdf_work salt wallet_key v op_deterministic_insert →
  let index := next_free (size (va_accounts v)) v (va_index v) in
  ∃ s', ws_deterministic_insert s = Done (derived_account (va_seed v) index, s') ∧
    represents s' (va_set_index (wrap32 (index + 1))
      (va_set_accounts <[derived_account (va_seed v) index := derived_key index]> v)).
Proof.
  intros HR Hu (Hsz & Hlow & Hinj) index.
  destruct (free_index_found v Hu s (size (va_accounts v)) (va_index v) []) as (Hf & Hidx & _);
    [done | apply HR | simpl; lia | by intros a ?%not_elem_of_nil | apply after_NoDup; [done | lia] |].
  fold index in Hf, Hidx. unfold ws_deterministic_insert.
  assert (Hget : deterministic_index_get s = va_index v).
  { unfold deterministic_index_get. rewrite (rp_index _ _ _ _ HR). change (u32_mod - 1) with (Z.ones 32).
    rewrite Z.land_ones by lia. apply Z.mod_small, HR. }
  rewrite Hget. rewrite (free_index_more s _ (S (size (ws_entries s))) _ _ Hf)
    by (pose proof (accounts_in_entries s v HR); lia).
  eexists. split; [reflexivity |]. unfold deterministic_index_set.
  assert (HR' := put_account s v (derived_account (va_seed v) index) (WalletValue (marker index) 0)
    (derived_key index) HR (Hlow _ Hidx) (pub_key_u256 _) (conj eq_refl (conj Hidx eq_refl))).
  eapply put_special; [apply HR' | done.. | apply HR' | apply wrap32_range | apply index_u256 | apply HR' | done | apply HR'
    | apply (rp_accounts _ _ _ _ HR') | apply HR'].
Qed.

(** ** Simulation *)

(** Every call on the store is the call on the vault. *)
Lemma store_step_simulates s v o :
  represents s v → fits kdf_work salt wallet_key v o →
  ∃ s', store_step kdf_work o s = Done s' ∧ represents s' (vault_step kdf_work salt o v).
Proof.
  intros HR Hfit. pose proof (valid_password_unlocked s v HR) as Hvp.
  destruct o as [pw | pw | | prv | pub | | index | prv | pub | rep | pub work]; simpl in *;
    rewrite ?Hvp; try (destruct (va_unlocked v) eqn:Hu; [| by eauto]).
  - eexists. split; [done |]. destruct (va_unlocked v) eqn:Hu; [by apply rekey_represents |].
    unfold ws_rekey. by rewrite Hvp.
  - eexists. split; [done |]. unfold ws_derive_key. rewrite (rp_salt _ _ _ _ HR).
    apply set_password; [done | lia |]. intros Hne%Z.eqb_neq. by destruct Hfit.
  - eexists. split; [done |].
    apply set_password; [done | lia |]. intros Hne%Z.eqb_neq. destruct Hfit; [congruence | done].
  - eexists. split; [done |]. destruct Hfit as (Hp & Hpub & Hbig).
    rewrite (unlocked_wallet_key s v HR Hu). apply put_account; [done | done | apply pub_key_u256 |]. simpl. done.
  - eexists. split; [done |]. unfold ws_insert_watch, valid_public_key.
    destruct (Z.leb_spec special_count pub); [| done]. simpl. by apply put_account.
  - destruct (deterministic_insert_represents s v HR Hu Hfit) as (s' & -> & HR'). simpl. by eauto.
  - eexists. split; [done |]. destruct Hfit as [Hi Hlow]. unfold ws_deterministic_key.
    rewrite (unlocked_seed s v HR Hu). apply put_account; [done | done | apply pub_key_u256 |]. done.
  - eexists. split; [done |]. by apply seed_set_represents.
  - eexists. split; [done |]. destruct (ws_find s pub) eqn:Hf; [by apply erase_account |].
    rewrite ws_find_spec, bool_decide_eq_false in Hf.
    assert (va_accounts v !! pub = None) as Hn.
    { destruct (va_accounts v !! pub) eqn:Hk; [| done]. exfalso. apply Hf.
      apply ws_exists_spec, (exists_account s v pub HR). by eexists. }
    unfold va_set_accounts. rewrite delete_id by done. by destruct v.
  - eexists. split; [done |]. unfold ws_representative_set.
    eapply put_special; [apply HR | done.. | apply HR | apply HR | done | apply HR | apply HR | done
      | apply HR | apply HR].
  - eexists. split; [done |]. destruct (ws_exists s pub) eqn:Hex; [| done].
    apply ws_exists_spec in Hex as [Hpub [e He]]. unfold ws_work_put, entry_get_raw. rewrite He. simpl.
    pose proof (rp_accounts _ _ _ _ HR pub Hpub) as Hx. rewrite He in Hx.
    destruct (va_accounts v !! pub) as [k |] eqn:Hk; [| done].
    assert (v = va_set_accounts <[pub := k]> v) as -> by (unfold va_set_accounts; rewrite insert_id by done; by destruct v).
    apply put_account; [done | done | by apply (rp_wf _ _ _ _ HR pub e) |]. by destruct k.
Qed.

(** ** New wallets *)

(** The random values fit their types. *)
Definition randoms_ok (rn : randoms) : Prop :=
  is_u256 (rn_salt rn) ∧ is_u256 (rn_wallet_key rn) ∧ is_u256 (rn_seed rn).

Definition vault_new (rn : randoms) (representative_a : Z) : vault :=
  Vault 0 true (rn_seed rn) 0 representative_a ∅.

(** *** A store from a table *)

(** A store whose entries have the same keys, with the wallet key in memory and the
    empty password. *)
Lemma same_keys_represents s v s' :
  represents s v → told_apart salt wallet_key v 0 →
  (∀ k, wv_key <$> ws_entries s' !! k = wv_key <$> ws_entries s !! k) →
  ws_password s' ≠ [] → fan_value (ws_password s') = 0 → ws_wallet_key_mem s' ≠ [] →
  fan_value (ws_wallet_key_mem s') = wv_key (entry_get_raw s' wallet_key_special) →
  represents s' (va_set_unlocked (va_password v =? 0) v).
Proof.
  intros HR Htold Hsame Hp1 Hp2 Hm1 Hm2.
  assert (Hget : ∀ k, wv_key (entry_get_raw s' k) = wv_key (entry_get_raw s k)).
  { intros k. specialize (Hsame k). unfold entry_get_raw.
    destruct (ws_entries s' !! k), (ws_entries s !! k); simpl in *; congruence. }
  assert (Hsome : ∀ k, is_Some (ws_entries s' !! k) ↔ is_Some (ws_entries s !! k)).
  { intros k. specialize (Hsame k). by rewrite <- !(fmap_is_Some wv_key), Hsame. }
  destruct HR. unfold ws_salt, ws_check, ws_representative in *.
  assert (Hmem : fan_value (ws_wallet_key_mem s') = encrypt wallet_key (va_password v) iv0) by (by rewrite Hm2, Hget).
  split; simpl; try done; unfold ws_salt, ws_check, ws_representative; rewrite ?Hget; try done.
  - intros k Hk. apply Hsome. auto.
  - rewrite Hp2. lia.
  - intros Hne%Z.eqb_neq. unfold ws_valid_password, ws_wallet_key, ws_check, ws_salt.
    rewrite !Hget, Hmem, Hp2, rp_check, rp_salt. apply Z.eqb_neq. destruct Htold; [congruence | auto].
  - intros a Ha. specialize (rp_accounts a Ha). specialize (Hsame a).
    destruct (ws_entries s' !! a) as [e' |], (ws_entries s !! a) as [e |]; simpl in *; try done.
    injection Hsame as Hk. destruct (va_accounts v !! a) as [[] |]; simpl in *; rewrite ?Hk; done.
  - intros k e He. specialize (Hsame k). rewrite He in Hsame. destruct (ws_entries s !! k) as [e0 |] eqn:He0; [| done].
    injection Hsame as ->. by eapply rp_wf.
Qed.
End refinement.

Section creation.
Context `{HC : Crypto} `{HW : WalletCrypto} `{!WalletCryptoLaws HC HW}.

(** The table of a new wallet. *)
Lemma ws_initialize_entries rn representative_a pw km :
  pw ≠ [] → km ≠ [] →
  let s := ws_initialize rn representative_a (WalletStore ∅ pw km true) in
  is_u256 (rn_wallet_key rn) →
  ws_entries s = <[deterministic_index_special := WalletValue 0 0]>
    (<[seed_special := WalletValue (encrypt (rn_seed rn) (rn_wallet_key rn) (oword1 (rn_salt rn))) 0]>
    (<[representative_special := WalletValue representative_a 0]>
    (<[check_special := WalletValue (encrypt 0 (rn_wallet_key rn) (oword0 (rn_salt rn))) 0]>
    (<[wallet_key_special := WalletValue (encrypt (rn_wallet_key rn) 0 (oword0 (rn_salt rn))) 0]>
    (<[salt_special := WalletValue (rn_salt rn) 0]> {[version_special := WalletValue version_current 0]}))))) ∧
  ws_password s = fan_set 0 pw ∧
  ws_wallet_key_mem s = fan_set (encrypt (rn_wallet_key rn) 0 (oword0 (rn_salt rn))) km.
Proof.
  intros Hpw Hkm s Hwk. unfold s, ws_initialize, ws_seed_set.
  set (s0 := ws_representative_set _ _).
  assert (Hk : ws_wallet_key s0 = rn_wallet_key rn).
  { unfold ws_wallet_key, s0. simpl. rewrite !fan_value_set by done. by apply decrypt_encrypt. }
  rewrite Hk. rewrite deterministic_clear_exact. split; [| done].
  change (ws_salt s0) with (rn_salt rn). cbn. rewrite insert_insert_eq. by f_equal.
Qed.

(** A new wallet is an empty vault with the given seed, open under the zero password. *)
Lemma open_new_represents rn representative_a :
  randoms_ok rn → is_u256 representative_a →
  represents (rn_salt rn) (rn_wallet_key rn) (wallet_store_open rn representative_a ∅)
    (vault_new rn representative_a).
Proof.
  intros (Hsalt & Hwk & Hsd) Hrep. unfold wallet_store_open. rewrite lookup_empty.
  set (s := ws_initialize _ _ _).
  destruct (ws_initialize_entries rn representative_a (fan_new 0 (rn_password_fan rn))
    (fan_new 0 (rn_wallet_key_fan rn)) (fan_new_length _ _) (fan_new_length _ _) Hwk) as (He & Hp & Hm).
  fold s in He, Hp, Hm. clearbody s.
  assert (Hp0 : fan_value (ws_password s) = 0) by (rewrite Hp; apply fan_value_set, fan_new_length).
  assert (Hne : ws_password s ≠ [] ∧ ws_wallet_key_mem s ≠ [])
    by (rewrite Hp, Hm; split; apply fan_set_length, fan_new_length).
  assert (Hmem : wv_key (entry_get_raw s wallet_key_special) = encrypt (rn_wallet_key rn) 0 (oword0 (rn_salt rn)))
    by (unfold entry_get_raw; by rewrite He).
  split; unfold ws_salt, ws_check, ws_representative, entry_get_raw; simpl; rewrite ?He; try done.
  - rewrite fan_value_set by apply Hne. by rewrite <- He.
  - split; [apply Hne | apply fan_set_length, Hne].
  - intros k Hk. unfold special_count in Hk.
    assert (k = 0 ∨ k = 1 ∨ k = 2 ∨ k = 3 ∨ k = 4 ∨ k = 5 ∨ k = 6) as Hc by lia.
    destruct_or! Hc; subst k; by eexists.
  - intros a Ha. unfold special_count, deterministic_index_special, seed_special, representative_special, check_special,
      wallet_key_special, salt_special, version_special in *.
    by rewrite !lookup_insert_ne, lookup_singleton_ne, lookup_empty by lia.
  - intros k e. rewrite !lookup_insert_Some, lookup_singleton_Some.
    intros Hx. destruct_or! Hx; destruct_and? Hx; subst;
      repeat match goal with H : _ ∨ _ |- _ => destruct H | H : _ ∧ _ |- _ => destruct H end; subst;
      split; done || apply encrypt_u256.
Qed.
End creation.
