(* ===== verification/WalletTheorems.v ===== *)
(** * What the key store guarantees

    Any sequence of calls on a new wallet leaves the keys where the vault has
    them; a wallet opened again from its table, or restored from a backup, has
    them too once the password is entered; and what [import] and [move] do. *)

From S2P Require Import Prelude Blocks Numbers BlockCodec Rollback WalletStore WalletVault WalletRefinement.

(** What the callers rely on of the text formats: a number that was printed in
    hexadecimal is read back up to the end of the text, and a tree of named texts
    that was written as JSON is read back. *)
Class WalletTextLaws (T : WalletText) := {
  extract_encode : ∀ key, is_u256 key → extract_hex (encode_hex key) = Some (key, true);
  read_write_json : ∀ tree, tree ≠ [] → Forall (λ x : text * text, x.1 ≠ []) tree →
    read_json (write_json tree) = Some tree;
}.

(** ** Runs *)

Section runs.
Context `{HC : Crypto} `{HW : WalletCrypto} (kdf_work : Z).

Fixpoint run_ops (ops : list store_op) (s : wallet_store) : run_result wallet_store :=
  match ops with
  | [] => Done s
  | o :: ops => s ← store_step kdf_work o s; run_ops ops s
  end.

Fixpoint vault_ops (salt : Z) (ops : list store_op) (v : vault) : vault :=
  match ops with
  | [] => v
  | o :: ops => vault_ops salt ops (vault_step kdf_work salt o v)
  end.

(** Every call of the sequence fits the vault it meets. *)
Fixpoint fit_all (salt wallet_key : Z) (ops : list store_op) (v : vault) : Prop :=
  match ops with
  | [] => True
  | o :: ops =>
      fits kdf_work salt wallet_key v o ∧ fit_all salt wallet_key ops (vault_step kdf_work salt o v)
  end.

(** The store answers for every account as the vault does. *)
Definition answers (s : wallet_store) (v : vault) : Prop :=
  ws_valid_password s = va_unlocked v ∧
  (∀ a, ws_exists s a = true ↔ is_Some (va_accounts v !! a)) ∧
  ∀ a prv0, special_count <= a →
    match vault_fetch v a with
    | Some prv => ws_fetch s a prv0 = (false, prv) ∧ pub_key prv = a
    | None => (ws_fetch s a prv0).1 = true
    end.

Context `{!WalletCryptoLaws HC HW}.

Lemma represents_answers salt wallet_key s v : represents salt wallet_key s v → answers s v.
Proof.
  intros HR. split_and!.
  - by eapply valid_password_unlocked.
  - intros a. by eapply exists_account.
  - intros a prv0 Ha. by eapply fetch_reads_vault.
Qed.

Lemma run_ops_simulates salt wallet_key ops s v :
  represents salt wallet_key s v → fit_all salt wallet_key ops v →
  ∃ s', run_ops ops s = Done s' ∧ represents salt wallet_key s' (vault_ops salt ops v).
Proof.
  revert s v. induction ops as [| o ops IH]; intros s v HR Hf; simpl in *; [by eauto |].
  destruct Hf as [Hfit Hf]. destruct (store_step_simulates kdf_work salt wallet_key s v o HR Hfit) as (s' & -> & HR').
  by apply IH.
Qed.

(** Entering the password opens the wallet. *)
Lemma enter_password_opens salt wallet_key s v password_a :
  represents salt wallet_key s v → phs kdf_work password_a salt = va_password v →
  (ws_attempt_password kdf_work password_a s).1 = false ∧
  represents salt wallet_key (ws_attempt_password kdf_work password_a s).2 (va_set_unlocked true v).
Proof.
  intros HR Hp.
  assert (HR' : represents salt wallet_key (ws_attempt_password kdf_work password_a s).2 (va_set_unlocked true v)).
  { simpl. unfold ws_derive_key. rewrite (rp_salt _ _ _ _ HR). by apply set_password. }
  split; [| done]. unfold ws_attempt_password in *. cbn [fst snd] in *.
  by rewrite (valid_password_unlocked _ _ _ _ HR').
Qed.

(** ** Backups *)

Context `{HT : WalletText} `{!WalletTextLaws HT}.

Lemma length_encode_hex k : length (encode_hex k) = 64%nat.
Proof. unfold encode_hex. by rewrite length_map, length_rev, length_seqZ. Qed.

Lemma decode_encode_hex k : is_u256 k → decode_hex (encode_hex k) = Some k.
Proof.
  intros Hk. unfold decode_hex.
  rewrite bool_decide_false by (intros Hn; pose proof (length_encode_hex k) as Hl; by rewrite Hn in Hl).
  rewrite length_encode_hex, bool_decide_true by lia. rewrite extract_encode by done. simpl. f_equal. by apply Z.mod_small.
Qed.

Lemma encode_hex_inj k k' : is_u256 k → is_u256 k' → encode_hex k = encode_hex k' → k = k'.
Proof.
  intros Hk Hk' He. apply (f_equal decode_hex) in He. rewrite !decode_encode_hex in He by done. by simplify_eq.
Qed.

(** Distinct keys have distinct names, so the first child of a name is the child. *)
Lemma tree_get_child (l : list (Z * wallet_value)) k e :
  NoDup l.*1 → (∀ x, x ∈ l → is_u256 x.1) → (k, e) ∈ l →
  tree_get (map (λ x : Z * wallet_value, (encode_hex x.1, encode_hex (wv_key x.2))) l) (encode_hex k) =
    encode_hex (wv_key e).
Proof.
  induction l as [| [k' e'] l IH]; intros Hnd Hu Hin; [by apply not_elem_of_nil in Hin |].
  apply NoDup_cons in Hnd as [Hn Hnd]. cbn [map tree_get fst snd]. case_decide as Hd.
  - apply encode_hex_inj in Hd; [| apply (Hu (k', e')); by left | apply (Hu _ Hin)]. subst k'.
    apply elem_of_cons in Hin as [[= ->] | Hin]; [done |]. exfalso. apply Hn, list_elem_of_fmap. by exists (k, e).
  - apply elem_of_cons in Hin as [[= -> ->] | Hin]; [done |].
    apply IH; [done | intros x Hx; apply Hu; by right | done].
Qed.

Lemma json_entries tree (l : list (Z * wallet_value)) b s :
  (∀ k e, (k, e) ∈ l → is_u256 k ∧ is_u256 (wv_key e) ∧ tree_get tree (encode_hex k) = encode_hex (wv_key e)) →
  foldl (json_entry tree) (b, s)
    (map (λ x : Z * wallet_value, (encode_hex x.1, encode_hex (wv_key x.2))) l) =
  (match l with [] => b | _ => false end,
   foldl (λ s x, entry_put_raw x.1 (WalletValue (wv_key x.2) 0) s) s l).
Proof.
  revert b s. induction l as [| [k e] l IH]; intros b s Hl; [done |]. simpl.
  destruct (Hl k e) as (Hk & He & Hg); [by left |].
  unfold json_entry at 2. simpl. rewrite Hg, !decode_encode_hex by done.
  rewrite IH by (intros k' e' Hin; apply Hl; by right). by destruct l.
Qed.

Lemma foldl_put_entries (l : list (Z * wallet_value)) s :
  let s' := foldl (λ s x, entry_put_raw x.1 (WalletValue (wv_key x.2) 0) s) s l in
  ws_password s' = ws_password s ∧ ws_wallet_key_mem s' = ws_wallet_key_mem s ∧
  (NoDup l.*1 → ∀ k, wv_key <$> ws_entries s' !! k =
     match (list_to_map l : gmap Z wallet_value) !! k with Some e => Some (wv_key e) | None => wv_key <$> ws_entries s !! k end).
Proof.
  revert s. induction l as [| [k e] l IH]; intros s; simpl; [done |].
  destruct (IH (entry_put_raw k (WalletValue (wv_key e) 0) s)) as (Hp & Hm & He). split_and!; [done.. |].
  intros [Hn Hnd]%NoDup_cons k'. rewrite (He Hnd). simpl.
  destruct (decide (k = k')) as [<- | Hne].
  - rewrite !lookup_insert_eq. by rewrite (not_elem_of_list_to_map_1 l k Hn).
  - by rewrite !lookup_insert_ne.
Qed.

(** A backup is read back without error into a store with the same keys. *)
Lemma json_same_keys salt wallet_key rn s v :
  represents salt wallet_key s v →
  ∃ s', wallet_store_json rn (ws_serialize_json s) = (false, s') ∧
    (∀ k, wv_key <$> ws_entries s' !! k = wv_key <$> ws_entries s !! k) ∧
    ws_password s' ≠ [] ∧ fan_value (ws_password s') = 0 ∧ ws_wallet_key_mem s' ≠ [] ∧
    fan_value (ws_wallet_key_mem s') = wv_key (entry_get_raw s' wallet_key_special).
Proof.
  intros HR. set (l := merge_sort wallet_entry_le (map_to_list (ws_entries s))).
  assert (Hperm : l ≡ₚ map_to_list (ws_entries s)) by apply merge_sort_Permutation.
  assert (Hnd : NoDup l.*1) by (rewrite Hperm; apply NoDup_fst_map_to_list).
  assert (Hin : ∀ k e, (k, e) ∈ l → ws_entries s !! k = Some e)
    by (intros k e He; rewrite Hperm in He; by apply elem_of_map_to_list).
  assert (Hne : l ≠ []).
  { destruct (rp_specials _ _ _ _ HR version_special) as [e He]; [done |].
    intros Hl. apply elem_of_map_to_list in He. rewrite <- Hperm, Hl in He. by apply not_elem_of_nil in He. }
  unfold wallet_store_json, ws_serialize_json, ws_tree. fold l. rewrite read_write_json; cycle 1.
  { by destruct l. }
  { rewrite Forall_forall. intros x (y & -> & _)%list_elem_of_fmap. simpl. intros Hn.
    pose proof (length_encode_hex y.1) as Hl. by rewrite Hn in Hl. }
  cbv beta iota zeta. rewrite json_entries; cycle 1.
  { intros k e He. pose proof (rp_wf _ _ _ _ HR k e (Hin k e He)) as [Hk Hv]. split_and!; [done.. |].
    apply tree_get_child; [done | | done]. intros [k' e'] Hx. by apply (rp_wf _ _ _ _ HR k' e'), Hin. }
  destruct l as [| x l'] eqn:El; [done |]. rewrite <- El in *.
  pose proof (foldl_put_entries l (WalletStore ∅ (fan_new 0 (rn_password_fan rn)) (fan_new 0 (rn_wallet_key_fan rn)) true))
    as (Hp & Hm & He). set (s1 := foldl _ _ l) in *. specialize (He Hnd).
  assert (Hk : ∀ k, wv_key <$> ws_entries s1 !! k = wv_key <$> ws_entries s !! k).
  { intros k. rewrite He. simpl. rewrite lookup_empty. rewrite (list_to_map_proper l (map_to_list (ws_entries s))) by done.
    rewrite list_to_map_to_list. by destruct (ws_entries s !! k). }
  assert (Hsp : ∀ k, 0 <= k < special_count → bool_decide (ws_entries s1 !! k = None) = false).
  { intros k Hkk. apply bool_decide_eq_false. intros Hn. specialize (Hk k). rewrite Hn in Hk.
    destruct (rp_specials _ _ _ _ HR k Hkk) as [e He']. by rewrite He' in Hk. }
  rewrite !Hsp by done. eexists. split; [reflexivity |]. simpl. rewrite Hp, Hm. simpl.
  split_and!; [done | apply fan_set_length, fan_new_length | apply fan_value_set, fan_new_length
    | apply fan_set_length, fan_new_length | apply fan_value_set, fan_new_length].
Qed.

(** ** Theorems *)

(** C28: The key store implements an abstract vault of keys: from a new wallet, any
    sequence of calls (adding, deriving, watching and erasing accounts, setting
    seed, representative and work, locking, unlocking and changing the password)
    whose arguments fit ends, and then the store is open exactly when the vault is,
    has exactly its accounts, and fetch returns an account's private key exactly
    when the vault knows it. *)
Theorem key_store_refines_vault rn representative_a ops :
  randoms_ok rn → is_u256 representative_a →
  fit_all (rn_salt rn) (rn_wallet_key rn) ops (vault_new rn representative_a) →
  ∃ s, run_ops ops (wallet_store_open rn representative_a ∅) = Done s ∧
    answers s (vault_ops (rn_salt rn) ops (vault_new rn representative_a)).
Proof.
  intros Hrn Hrep Hf.
  destruct (run_ops_simulates (rn_salt rn) (rn_wallet_key rn) ops (wallet_store_open rn representative_a ∅)
    (vault_new rn representative_a)) as (s & Hs & HR); [by apply open_new_represents | done |].
  exists s. split; [done |]. by eapply represents_answers.
Qed.

(** C29: A wallet opened again from its table, and one restored from its JSON
    backup, is read without error, and with the password that was set last it has
    every account and every private key it had. *)
Theorem wallet_survives_restart rn representative_a ops s rn' representative_a' password_a :
  randoms_ok rn → is_u256 representative_a →
  fit_all (rn_salt rn) (rn_wallet_key rn) ops (vault_new rn representative_a) →
  run_ops ops (wallet_store_open rn representative_a ∅) = Done s →
  let v := vault_ops (rn_salt rn) ops (vault_new rn representative_a) in
  told_apart (rn_salt rn) (rn_wallet_key rn) v 0 →
  phs kdf_work password_a (rn_salt rn) = va_password v →
  let reopened := wallet_store_open rn' representative_a' (ws_entries s) in
  let restored := (wallet_store_json rn' (ws_serialize_json s)).2 in
  (wallet_store_json rn' (ws_serialize_json s)).1 = false ∧
  Forall (λ s', (ws_attempt_password kdf_work password_a s').1 = false ∧
    answers (ws_attempt_password kdf_work password_a s').2 (va_set_unlocked true v)) [reopened; restored].
Proof.
  intros Hrn Hrep Hf Hs v Ht Hp reopened restored.
  destruct (run_ops_simulates (rn_salt rn) (rn_wallet_key rn) ops (wallet_store_open rn representative_a ∅)
    (vault_new rn representative_a)) as (s0 & Hs0 & HR); [by apply open_new_represents | done |].
  rewrite Hs in Hs0. injection Hs0 as <-. fold v in HR.
  assert (Hr1 : represents (rn_salt rn) (rn_wallet_key rn) reopened (va_set_unlocked (va_password v =? 0) v)).
  { destruct (rp_specials _ _ _ _ HR version_special) as [e He]; [done |].
    unfold reopened, wallet_store_open. rewrite He.
    apply (same_keys_represents _ _ s); try done; simpl.
    - apply fan_new_length.
    - apply fan_value_new.
    - apply fan_set_length, fan_new_length.
    - apply fan_value_set, fan_new_length. }
  destruct (json_same_keys _ _ rn' s v HR) as (s2 & Hj & Hk & H1 & H2 & H3 & H4).
  assert (Hr2 : represents (rn_salt rn) (rn_wallet_key rn) restored (va_set_unlocked (va_password v =? 0) v)).
  { unfold restored. rewrite Hj. by apply (same_keys_represents _ _ s). }
  assert (Hopen : ∀ s', represents (rn_salt rn) (rn_wallet_key rn) s' (va_set_unlocked (va_password v =? 0) v) →
    (ws_attempt_password kdf_work password_a s').1 = false ∧
    answers (ws_attempt_password kdf_work password_a s').2 (va_set_unlocked true v)).
  { intros s' HR'. destruct (enter_password_opens _ _ _ _ password_a HR' Hp) as [? HR'']. split; [done |].
    exact (represents_answers _ _ _ _ HR''). }
  split; [by rewrite Hj |]. apply Forall_cons. split; [by apply Hopen |].
  apply Forall_cons. split; [by apply Hopen | by apply Forall_nil].
Qed.
End runs.
