(* ===== verification/WalletTransfer.v ===== *)
(** * Moving keys between wallets ([wallet_store::move], [wallet_store::import])

    Both take the accounts in order up to the first whose key cannot be read:
    those before it change wallets, the others stay, and the call reports an
    error.  An account that is only watched has no key to read. *)

From S2P Require Import Prelude Blocks Numbers BlockCodec Rollback WalletStore WalletVault WalletRefinement.
From S2P Require Import WalletTheorems.

Section transfer.
Context `{HC : Crypto} `{HW : WalletCrypto} `{!CryptoLaws HC} `{!WalletCryptoLaws HC HW}.

(** ** The accounts that move *)

(** The accounts before the first without a readable key. *)
Fixpoint readable (v : vault) (keys : list Z) : list Z :=
  match keys with
  | [] => []
  | a :: keys => match vault_fetch v a with Some _ => a :: readable v keys | None => [] end
  end.

(** The receiving vault gets them as single keys, the other one loses them. *)
Definition take_keys (from : vault) (moved : list Z) (v : vault) : vault :=
  foldl (λ v a, match vault_fetch from a with
                | Some prv => va_set_accounts <[a := adhoc_key prv]> v
                | None => v
                end) v moved.
Definition lose_keys (moved : list Z) (v : vault) : vault :=
  foldl (λ v a, va_set_accounts (delete a) v) v moved.

(** What moving a key needs of it: under the new wallet key it is not taken for an
    index, and it is not the number zero. *)
Definition movable (wallet_key : Z) (from : vault) (a : Z) : Prop :=
  ∀ prv, vault_fetch from a = Some prv → u64_max < encrypt prv wallet_key (oword0 a) ∧ prv ≠ 0.

Lemma vault_fetch_u256 salt wallet_key s v a prv :
  represents salt wallet_key s v → special_count <= a → vault_fetch v a = Some prv → is_u256 prv.
Proof using CryptoLaws0 WalletCryptoLaws0.
  intros HR Ha. unfold vault_fetch. destruct (va_unlocked v); [| done].
  pose proof (rp_accounts _ _ _ _ HR a Ha) as Hx.
  destruct (va_accounts v !! a) as [[p | i |] |] eqn:Hk; intros [= <-].
  - destruct (ws_entries s !! a); [| done]. apply Hx.
  - apply of_be_u256, blake2b_length.
Qed.

Lemma vault_fetch_delete v a b : a ≠ b → vault_fetch (va_set_accounts (delete a) v) b = vault_fetch v b.
Proof. intros Hne. unfold vault_fetch. simpl. by rewrite lookup_delete_ne. Qed.

Lemma readable_delete v a keys :
  a ∉ keys → readable (va_set_accounts (delete a) v) keys = readable v keys.
Proof.
  induction keys as [| b keys IH]; [done |]. rewrite not_elem_of_cons. intros [Hne Hn]. simpl.
  rewrite vault_fetch_delete by done. by rewrite IH.
Qed.

Lemma take_keys_delete from a moved v :
  a ∉ moved → take_keys (va_set_accounts (delete a) from) moved v = take_keys from moved v.
Proof.
  revert v. induction moved as [| b moved IH]; intros v; [done |]. rewrite not_elem_of_cons. intros [Hne Hn]. simpl.
  rewrite vault_fetch_delete by done. by rewrite IH.
Qed.

Lemma readable_subseteq v keys : readable v keys ⊆ keys.
Proof.
  induction keys as [| a keys IH]; [done |]. simpl. destruct (vault_fetch v a); [| apply list_subseteq_nil].
  intros b. rewrite !elem_of_cons. set_solver.
Qed.

(** Once a key could not be read nothing moves any more. *)
Lemma move_loop_failed keys s other : ws_move_loop keys true s other = (true, s, other).
Proof. induction keys as [| a keys IH]; [done |]. simpl. by destruct (ws_fetch other a 0). Qed.

Lemma import_loop_failed keys s other : ws_import_loop keys true s other = (true, s, other).
Proof. induction keys as [| a keys IH]; [done |]. simpl. by destruct (ws_fetch other a 0). Qed.

Section stores.
Context (salt wallet_key salt' wallet_key' : Z).

Lemma take_one s v a prv :
  represents salt wallet_key s v → va_unlocked v = true → special_count <= a → is_u256 prv → pub_key prv = a →
  u64_max < encrypt prv wallet_key (oword0 a) →
  represents salt wallet_key (ws_insert_adhoc prv s).2 (va_set_accounts <[a := adhoc_key prv]> v).
Proof.
  intros HR Hu Ha Hp <- Hbig. unfold ws_insert_adhoc. cbn [snd]. rewrite (unlocked_wallet_key _ _ s v HR Hu).
  apply put_account; [done | done | apply pub_key_u256 |]. simpl. done.
Qed.

(** Both loops move the readable accounts and report whether that was all. *)
Lemma transfer_loops keys s other v vo :
  represents salt wallet_key s v → va_unlocked v = true →
  represents salt' wallet_key' other vo → va_unlocked vo = true →
  NoDup keys → Forall (λ a, special_count <= a ∧ movable wallet_key vo a) keys →
  let moved := readable vo keys in
  ∃ s' other',
    ws_move_loop keys false s other = (negb (bool_decide (moved = keys)), s', other') ∧
    ws_import_loop keys false s other = (negb (bool_decide (moved = keys)), s', other') ∧
    represents salt wallet_key s' (take_keys vo moved v) ∧
    represents salt' wallet_key' other' (lose_keys moved vo).
Proof using CryptoLaws0 WalletCryptoLaws0.
  revert s other v vo. induction keys as [| a keys IH]; intros s other v vo HR Hu HRo Huo Hnd Hall moved.
  { exists s, other. done. }
  apply NoDup_cons in Hnd as [Hn Hnd]. apply Forall_cons in Hall as [[Ha Hmov] Hall].
  pose proof (fetch_reads_vault _ _ other vo a 0 HRo Ha) as Hf. unfold moved. simpl.
  destruct (vault_fetch vo a) as [prv |] eqn:Hv.
  - destruct Hf as [-> Hpub]. destruct (Hmov prv Hv) as [Hbig Hnz]. simpl.
    destruct (Z.eqb_spec prv 0) as [? | _]; [done |]. cbn [negb].
    pose proof (take_one s v a prv HR Hu Ha (vault_fetch_u256 _ _ _ _ _ _ HRo Ha Hv) Hpub Hbig) as HR'.
    pose proof (erase_account _ _ other vo a HRo Ha) as HRo'.
    destruct (IH _ _ _ _ HR' Hu HRo' Huo Hnd) as (s' & other' & H1 & H2 & H3 & H4).
    { rewrite Forall_forall in Hall |- *. intros b Hb. destruct (Hall b Hb) as [Hlow Hm]. split; [done |].
      intros prv'. rewrite vault_fetch_delete by (intros ->; done). apply Hm. }
    exists s', other'.
    rewrite readable_delete in H1, H2, H3, H4 by done.
    assert (Hb : bool_decide (a :: readable vo keys = a :: keys) = bool_decide (readable vo keys = keys))
      by (apply bool_decide_ext; split; congruence).
    rewrite Hb. split_and!; [done | done | | done].
    rewrite take_keys_delete in H3 by (intros Hin; by apply readable_subseteq in Hin).
    unfold take_keys. simpl. rewrite Hv. exact H3.
  - destruct (ws_fetch other a 0) as [err p]. simpl in Hf. subst err. simpl.
    rewrite move_loop_failed, import_loop_failed.
    by exists s, other.
Qed.
End stores.

(** ** Theorem *)

(** C34: Importing another open wallet into an open one adds the accounts before its
    first account without a readable key, with their keys, and removes them there;
    from the first watched account on everything stays where it is, and an error is
    reported unless all accounts were taken. *)
Theorem import_takes_readable_prefix salt wallet_key salt' wallet_key' s other v vo :
  represents salt wallet_key s v → va_unlocked v = true →
  represents salt' wallet_key' other vo → va_unlocked vo = true →
  (∀ a, is_Some (va_accounts vo !! a) → movable wallet_key vo a) →
  let moved := readable vo (ws_accounts other) in
  ∃ s' other',
    ws_import s other = (negb (bool_decide (moved = ws_accounts other)), s', other') ∧
    answers s' (take_keys vo moved v) ∧ answers other' (lose_keys moved vo).
Proof using CryptoLaws0 WalletCryptoLaws0.
  intros HR Hu HRo Huo Hmov moved.
  destruct (transfer_loops salt wallet_key salt' wallet_key' (ws_accounts other) s other v vo)
    as (s' & other' & _ & Himp & H1 & H2); try done.
  - unfold ws_accounts. rewrite merge_sort_Permutation. apply NoDup_filter, NoDup_fst_map_to_list.
  - rewrite Forall_forall. intros a Ha. apply elem_of_ws_accounts in Ha as [Hlow Hs]. split; [done |].
    apply Hmov. apply (exists_account _ _ other vo a HRo). by apply ws_exists_spec.
  - exists s', other'. split; [done |]. split; by eapply represents_answers.
Qed.
End transfer.
