(* ===== verification/WalletActions.v ===== *)
(** * Wallets and their actions ([node/wallet.cpp])

    [wallet] adds to the key store the operations that make blocks: send,
    receive and change.  [wallets] owns the wallets of the node, a queue of
    actions ordered by priority that one thread works off, the ids of sends, the
    accounts for which work is to be computed, and the representatives.

    An action reads wallet and ledger, makes a block, and hands it to
    [node::process_local].  The state is the pipeline of [BlockProcessor] and
    what [wallets] owns; a wallet is shared by the table of wallets and the
    queued actions and has an address.  Work generation, weights and the
    confirmation height processor are read through [wallet_env]. *)

From S2P Require Import Prelude Blocks Numbers BlockCodec Common RepWeights EpochsWork Store Ledger Rollback.
From S2P Require Import LedgerQueries UncheckedMap BlockProcessor WalletStore.

#[export] Instance text_byte_countable : Countable Init.Byte.byte :=
  inj_countable Stdlib.Strings.Byte.to_N Stdlib.Strings.Byte.of_N Stdlib.Strings.Byte.of_to_N.

(** ** State *)

(** The parts of the node that the wallets read; [we_uninitialised] is what a
    [raw_key] holds that was declared and not written. *)
Record wallet_env := WalletEnv {
  we_kdf_work : Z;
  we_receive_minimum : Z;
  we_vote_minimum : Z;
  we_enable_voting : bool;
  we_work_generation_enabled : bool;
  we_work_generate : Z → Z → Z → option Z;
  we_weight : Z → Z;
  we_minimum_principal_weight : Z;
  we_is_processing_block : Z → bool;
  we_uninitialised : Z;
}.

Record wallet := Wallet {
  wl_store : wallet_store;
  wl_free_accounts : gset Z;
  wl_representatives : gset Z;
}.

(** [wallet_representatives]. *)
Record wallet_representatives := WalletRepresentatives {
  wr_voting : Z;
  wr_half_principal : bool;
  wr_accounts : gset Z;
}.

(** The functions that are queued. *)
Inductive wallet_action :=
| act_change (source_a representative_a work_a : Z) (generate_work_a : bool)
| act_receive (hash_a representative_a amount_a account_a work_a : Z) (generate_work_a : bool)
| act_send (source_a account_a amount_a work_a : Z) (generate_work_a : bool) (id_a : option text)
| act_work_cache (account_a root_a : Z).

(** Calls to other components, and the answers given to the callers of actions. *)
Inductive wallet_event :=
| wev_flood_block (b : block)
| wev_block_confirm (b : block)
| wev_background_search (w : nat)
| wev_lock_observer (w : nat) (invalid empty : bool)
| wev_action_result (b : option block).

Record wallets := Wallets {
  wn_pipeline : pipeline;
  wn_objects : gmap nat wallet;
  wn_items : gmap Z nat;
  wn_actions : list (Z * nat * wallet_action);
  wn_delayed_work : gmap Z Z;
  wn_timers : list (nat * Z * Z);
  wn_send_action_ids : gmap text Z;
  wn_representatives : wallet_representatives;
  wn_events : list wallet_event;
}.

Definition wn_set_pipeline p (W : wallets) : wallets :=
  Wallets p (wn_objects W) (wn_items W) (wn_actions W) (wn_delayed_work W) (wn_timers W)
    (wn_send_action_ids W) (wn_representatives W) (wn_events W).
Definition wn_set_objects f (W : wallets) : wallets :=
  Wallets (wn_pipeline W) (f (wn_objects W)) (wn_items W) (wn_actions W) (wn_delayed_work W) (wn_timers W)
    (wn_send_action_ids W) (wn_representatives W) (wn_events W).
Definition wn_set_items f (W : wallets) : wallets :=
  Wallets (wn_pipeline W) (wn_objects W) (f (wn_items W)) (wn_actions W) (wn_delayed_work W) (wn_timers W)
    (wn_send_action_ids W) (wn_representatives W) (wn_events W).
Definition wn_set_actions f (W : wallets) : wallets :=
  Wallets (wn_pipeline W) (wn_objects W) (wn_items W) (f (wn_actions W)) (wn_delayed_work W) (wn_timers W)
    (wn_send_action_ids W) (wn_representatives W) (wn_events W).
Definition wn_set_delayed_work f (W : wallets) : wallets :=
  Wallets (wn_pipeline W) (wn_objects W) (wn_items W) (wn_actions W) (f (wn_delayed_work W)) (wn_timers W)
    (wn_send_action_ids W) (wn_representatives W) (wn_events W).
Definition wn_set_timers f (W : wallets) : wallets :=
  Wallets (wn_pipeline W) (wn_objects W) (wn_items W) (wn_actions W) (wn_delayed_work W) (f (wn_timers W))
    (wn_send_action_ids W) (wn_representatives W) (wn_events W).
Definition wn_set_send_action_ids f (W : wallets) : wallets :=
  Wallets (wn_pipeline W) (wn_objects W) (wn_items W) (wn_actions W) (wn_delayed_work W) (wn_timers W)
    (f (wn_send_action_ids W)) (wn_representatives W) (wn_events W).
Definition wn_set_representatives r (W : wallets) : wallets :=
  Wallets (wn_pipeline W) (wn_objects W) (wn_items W) (wn_actions W) (wn_delayed_work W) (wn_timers W)
    (wn_send_action_ids W) r (wn_events W).
Definition wn_emit (l : list wallet_event) (W : wallets) : wallets :=
  Wallets (wn_pipeline W) (wn_objects W) (wn_items W) (wn_actions W) (wn_delayed_work W) (wn_timers W)
    (wn_send_action_ids W) (wn_representatives W) (wn_events W ++ l).

Definition wn_ledger (W : wallets) : ledger := pl_ledger (wn_pipeline W).

(** The wallet at an address, and its store. *)
Definition no_wallet : wallet := Wallet (WalletStore ∅ [] [] false) ∅ ∅.
Definition wallet_at (W : wallets) (w : nat) : wallet := default no_wallet (wn_objects W !! w).
Definition store_at (W : wallets) (w : nat) : wallet_store := wl_store (wallet_at W w).
Definition set_store (w : nat) (s : wallet_store) (W : wallets) : wallets :=
  wn_set_objects (alter (λ x, Wallet s (wl_free_accounts x) (wl_representatives x)) w) W.
Definition set_wallet_representatives (w : nat) f (W : wallets) : wallets :=
  wn_set_objects (alter (λ x, Wallet (wl_store x) (wl_free_accounts x) (f (wl_representatives x))) w) W.

(** [wallet::live]. *)
Definition live (W : wallets) (w : nat) : bool := ws_handle (store_at W w).

(** [generate_priority] and [high_priority]. *)
Definition generate_priority : Z := u128_max.
Definition high_priority : Z := u128_max - 1.

(** *** The queue of actions *)

(** A multimap ordered by [std::greater]: a new element goes behind those of the
    same priority. *)
Fixpoint actions_emplace (x : Z * nat * wallet_action) (l : list (Z * nat * wallet_action)) :
    list (Z * nat * wallet_action) :=
  match l with
  | y :: rest => if y.1.1 <? x.1.1 then x :: l else y :: actions_emplace x rest
  | [] => [x]
  end.

Definition queue_wallet_action (amount_a : Z) (w : nat) (a : wallet_action) (W : wallets) : wallets :=
  wn_set_actions (actions_emplace (amount_a, w, a)) W.

(** [change_async], [receive_async], [send_async]. *)
Definition change_async (w : nat) (source_a representative_a work_a : Z) (generate_work_a : bool) : wallets → wallets :=
  queue_wallet_action high_priority w (act_change source_a representative_a work_a generate_work_a).
Definition receive_async (w : nat) (hash_a representative_a amount_a account_a work_a : Z) (generate_work_a : bool) :
    wallets → wallets :=
  queue_wallet_action amount_a w (act_receive hash_a representative_a amount_a account_a work_a generate_work_a).
Definition send_async (w : nat) (source_a account_a amount_a work_a : Z) (generate_work_a : bool) (id_a : option text) :
    wallets → wallets :=
  queue_wallet_action high_priority w (act_send source_a account_a amount_a work_a generate_work_a id_a).

(** [change_sync], [receive_sync] and [send_sync] queue the same; the [true] they pass
    as fourth argument is the work 1. *)
Definition change_sync (w : nat) (source_a representative_a : Z) : wallets → wallets :=
  change_async w source_a representative_a 1 true.
Definition receive_sync `{Crypto} (w : nat) (b : block) (representative_a amount_a : Z) : wallets → wallets :=
  receive_async w (block_hash b) representative_a amount_a (if link b =? 0 then destination b else link b) 1 true.
Definition send_sync (w : nat) (source_a account_a amount_a : Z) : wallets → wallets :=
  send_async w source_a account_a amount_a 1 true None.

(** ** Representatives *)

Section wallets.
Context `{Crypto} `{WalletCrypto} (constants : ledger_constants) (flags : processor_flags) (e : wallet_env).

(** [check_rep]: whether the account is a representative that is new. *)
Definition check_rep (account_a half_principal_weight_a : Z) (r : wallet_representatives) :
    bool * wallet_representatives :=
  let weight := we_weight e account_a in
  if weight <? we_vote_minimum e then (false, r) else
  let half := wr_half_principal r || (half_principal_weight_a <=? weight) in
  if bool_decide (account_a ∈ wr_accounts r) then (false, WalletRepresentatives (wr_voting r) half (wr_accounts r))
  else (true, WalletRepresentatives (wrap64 (wr_voting r + 1)) half ({[account_a]} ∪ wr_accounts r)).

Definition half_principal_weight : Z := we_minimum_principal_weight e / 2.

(** The account is looked at when its key is added. *)
Definition add_representative (w : nat) (key : Z) (W : wallets) : wallets :=
  let '(new, r) := check_rep key half_principal_weight (wn_representatives W) in
  let W := wn_set_representatives r W in
  if (new : bool) then set_wallet_representatives w (λ l, {[key]} ∪ l) W else W.

(** The accounts of one wallet in [compute_reps]. *)
Fixpoint compute_wallet (accounts : list Z) (r : wallet_representatives) (found : gset Z) :
    wallet_representatives * gset Z :=
  match accounts with
  | [] => (r, found)
  | a :: accounts =>
      let '(new, r) := check_rep a half_principal_weight r in
      compute_wallet accounts r (if (new : bool) then {[a]} ∪ found else found)
  end.

(** [compute_reps]; [order] is the iteration over the table of wallets. *)
Fixpoint compute_loop (order : list nat) (W : wallets) : wallets :=
  match order with
  | [] => W
  | w :: order =>
      let '(r, found) := compute_wallet (ws_accounts (store_at W w)) (wn_representatives W) ∅ in
      compute_loop order (set_wallet_representatives w (λ _, found) (wn_set_representatives r W))
  end.
Definition compute_reps (W : wallets) : wallets :=
  compute_loop (map_to_list (wn_items W)).*2 (wn_set_representatives (WalletRepresentatives 0 false ∅) W).

(** The keys one wallet contributes to [foreach_representative]. *)
Definition wallet_voting_keys (x : wallet) : list (Z * Z) :=
  let s := wl_store x in
  omap (λ account, if ws_exists s account then
                     if negb (we_weight e account =? 0) then
                       if ws_valid_password s then Some (account, (ws_fetch s account (we_uninitialised e)).2)
                       else None
                     else None
                   else None) (elements (wl_representatives x)).
Definition foreach_representative (W : wallets) : list (Z * Z) :=
  if we_enable_voting e then
    concat (map (λ i : Z * nat, wallet_voting_keys (wallet_at W i.2)) (map_to_list (wn_items W)))
  else [].

(** ** Work *)

(** [work_ensure]. *)
Definition work_ensure (w : nat) (account_a root_a : Z) (W : wallets) : wallets :=
  wn_set_timers (λ l, l ++ [(w, account_a, root_a)]) (wn_set_delayed_work <[account_a := root_a]> W).

(** The timed task of [work_ensure]. *)
Definition work_ensure_task (t : nat * Z * Z) (W : wallets) : wallets :=
  let '(w, account_a, root_a) := t in
  if bool_decide (wn_delayed_work W !! account_a = Some root_a) then
    queue_wallet_action generate_priority w (act_work_cache account_a root_a)
      (wn_set_delayed_work (delete account_a) W)
  else W.

(** [work_update]. *)
Definition work_update (w : nat) (account_a root_a work_a : Z) (W : wallets) : wallets :=
  if latest_root (wn_ledger W) account_a =? root_a
  then set_store w (ws_work_put account_a work_a (store_at W w)) W else W.

(** [work_cache_blocking]. *)
Definition work_cache_blocking (w : nat) (account_a root_a : Z) (W : wallets) : wallets :=
  if we_work_generation_enabled e then
    match we_work_generate e root_a (threshold_base (lk_work constants) work_1) account_a with
    | Some work => if live W w && ws_exists (store_at W w) account_a
                   then work_update w account_a root_a work W else W
    | None => W
    end
  else W.

(** ** Keys *)

Definition wallet_deterministic_insert (w : nat) (generate_work_a : bool) (W : wallets) : run_result (Z * wallets) :=
  if ws_valid_password (store_at W w) then
    '(key, s) ← ws_deterministic_insert (store_at W w);
    let W := set_store w s W in
    let W := if generate_work_a then work_ensure w key key W else W in
    Done (key, add_representative w key W)
  else Done (0, W).

Definition wallet_deterministic_insert_at (w : nat) (index : Z) (generate_work_a : bool) (W : wallets) : Z * wallets :=
  if ws_valid_password (store_at W w) then
    let '(key, s) := ws_deterministic_insert_at index (store_at W w) in
    let W := set_store w s W in
    (key, if generate_work_a then work_ensure w key key W else W)
  else (0, W).

Definition wallet_insert_adhoc (w : nat) (key_a : Z) (generate_work_a : bool) (W : wallets) : Z * wallets :=
  if ws_valid_password (store_at W w) then
    let '(key, s) := ws_insert_adhoc key_a (store_at W w) in
    let W := set_store w s W in
    let W := if generate_work_a then work_ensure w key (latest_root (wn_ledger W) key) W else W in
    (key, add_representative w key W)
  else (0, W).

Definition wallet_insert_watch (w : nat) (pub_a : Z) (W : wallets) : bool * wallets :=
  let '(error, s) := ws_insert_watch pub_a (store_at W w) in (error, set_store w s W).

(** [enter_password] and [enter_initial_password]. *)
Definition enter_password (w : nat) (password_a : text) (W : wallets) : bool * wallets :=
  let '(result, s) := ws_attempt_password (we_kdf_work e) password_a (store_at W w) in
  let W := set_store w s W in
  let W := if negb result then wn_emit [wev_background_search w] W else W in
  (result, wn_emit [wev_lock_observer w result (bool_decide (password_a = []))] W).

Definition enter_initial_password (w : nat) (W : wallets) : wallets :=
  if fan_value (ws_password (store_at W w)) =? 0 then
    if ws_valid_password (store_at W w)
    then set_store w (ws_rekey (we_kdf_work e) [] (store_at W w)).2 W
    else (enter_password w [] W).2
  else W.

(** [wallet::import]: the backup becomes a store of its own, which is dropped at the
    end. *)
Definition wallet_import `{WalletText} (w : nat) (rn : randoms) (json_a password_a : text) (W : wallets) :
    bool * wallets :=
  let '(error, temp) := wallet_store_json rn json_a in
  let '(error, temp) := if (error : bool) then (error, temp) else ws_attempt_password (we_kdf_work e) password_a temp in
  if (error : bool) then (error, W) else
  let '(error, s, _) := ws_import (store_at W w) temp in
  (error, set_store w s W).

Definition init_free_accounts (w : nat) (W : wallets) : wallets :=
  wn_set_objects (alter (λ x, Wallet (wl_store x) (list_to_set (ws_accounts (wl_store x))) (wl_representatives x)) w) W.

(** *** Looking for used accounts *)

(** The account has a block or something to receive. *)
Definition account_used (L : ledger) (a : Z) : bool :=
  negb (latest L a =? 0) || pending_any (lg_store L) a.

(** The loop of [deterministic_check]. *)
Fixpoint check_loop (fuel : nat) (L : ledger) (s : wallet_store) (i n index : Z) : run_result Z :=
  match fuel with
  | O => OutOfFuel
  | S fuel =>
      if i <? n then
        if account_used L (pub_key (ws_deterministic_key s i))
        then check_loop fuel L s (wrap32 (i + 1)) (wrap32 (i + 64 + i / 64)) i
        else check_loop fuel L s (wrap32 (i + 1)) n index
      else Done index
  end.
Definition deterministic_check (fuel : nat) (w : nat) (index : Z) (W : wallets) : run_result Z :=
  check_loop fuel (wn_ledger W) (store_at W w) (wrap32 (index + 1)) (wrap32 (index + 64)) index.

(** [count] further accounts. *)
Fixpoint insert_count (count : nat) (w : nat) (account : Z) (W : wallets) : run_result (Z * wallets) :=
  match count with
  | O => Done (account, W)
  | S count => '(account, W) ← wallet_deterministic_insert w false W; insert_count count w account W
  end.

(** [change_seed]. *)
Definition change_seed (fuel : nat) (w : nat) (prv_a count : Z) (W : wallets) : run_result (Z * wallets) :=
  let W := set_store w (ws_seed_set prv_a (store_at W w)) W in
  '(account, W) ← wallet_deterministic_insert w true W;
  count ← (if count =? 0 then deterministic_check fuel w 0 W else Done count);
  insert_count (Z.to_nat count) w account W.

(** [deterministic_restore]: the loop runs from [index] to [new_index], both
    included, unless they are equal. *)
Definition deterministic_restore (fuel : nat) (w : nat) (W : wallets) : run_result wallets :=
  let index := deterministic_index_get (store_at W w) in
  new_index ← deterministic_check fuel w index W;
  '(_, W) ← insert_count (if index =? new_index then 0 else Z.to_nat (new_index - index + 1)) w 0 W;
  Done W.

(** ** Actions *)

(** The [state_block] constructor that signs. *)
Definition signed_state_block (account_a previous_a representative_a balance_a link_a prv_a pub_a work_a : Z) : block :=
  let h := StateHashables account_a previous_a representative_a balance_a link_a in
  state_block h (sign_message prv_a pub_a (block_hash (state_block h 0 0))) work_a.

(** [block_work_set] of a state block. *)
Definition block_work_set (work_a : Z) (b : block) : block :=
  match b with
  | send_block h s _ => send_block h s work_a
  | receive_block h s _ => receive_block h s work_a
  | open_block h s _ => open_block h s work_a
  | change_block h s _ => change_block h s work_a
  | state_block h s _ => state_block h s work_a
  end.

(** The work of a block: what is given, or else what the store has. *)
Definition given_work (s : wallet_store) (account_a work_a : Z) : Z :=
  if work_a =? 0 then default work_a (ws_work_get s account_a) else work_a.

(** The first part of [receive_action]: the block with its details. *)
Definition make_receive (s : wallet_store) (L : ledger)
    (send_hash_a representative_a amount_a account_a work_a : Z) : option (block * block_details) :=
  if we_receive_minimum e <=? amount_a then
    if block_or_pruned_exists L send_hash_a then
      match pending_get (lg_store L) (account_a, send_hash_a) with
      | Some pending_info =>
          let '(error, prv) := ws_fetch s account_a (we_uninitialised e) in
          if negb error then
            let work_a := given_work s account_a work_a in
            match account_get (lg_store L) account_a with
            | Some info =>
                Some (signed_state_block account_a (ai_head info) (ai_representative info)
                        (wrap128 (ai_balance info + pi_amount pending_info)) send_hash_a prv account_a work_a,
                      BlockDetails (Z.max (ai_epoch info) (pi_epoch pending_info)) false true false)
            | None =>
                Some (signed_state_block account_a 0 representative_a (pi_amount pending_info) send_hash_a prv
                        account_a work_a,
                      BlockDetails (pi_epoch pending_info) false true false)
            end
          else None
      | None => None
      end
    else None
  else None.

(** The first part of [change_action]; the error of [fetch] is not looked at. *)
Definition make_change (s : wallet_store) (L : ledger) (source_a representative_a work_a : Z) :
    option (block * block_details) :=
  if ws_valid_password s then
    if ws_find s source_a && negb (latest L source_a =? 0) then
      let info := account_info_or_default L source_a in
      let prv := (ws_fetch s source_a (we_uninitialised e)).2 in
      Some (signed_state_block source_a (ai_head info) representative_a (ai_balance info) 0 prv source_a
              (given_work s source_a work_a),
            BlockDetails (ai_epoch info) false false false)
    else None
  else None.

(** [prepare_send] without the id: the block with its details. *)
Definition prepare_send (s : wallet_store) (L : ledger) (source_a account_a amount_a work_a : Z) :
    option (block * block_details) :=
  if ws_valid_password s then
    if ws_find s source_a then
      let balance := from_option ai_balance 0 (account_get (lg_store L) source_a) in
      if negb (balance =? 0) && (amount_a <=? balance) then
        let info := account_info_or_default L source_a in
        let prv := (ws_fetch s source_a (we_uninitialised e)).2 in
        Some (signed_state_block source_a (ai_head info) (ai_representative info) (balance - amount_a) account_a prv
                source_a (given_work s source_a work_a),
              BlockDetails (ai_epoch info) true false false)
      else None
    else None
  else None.

(** The block of an earlier send with the same id, if the ledger has it. *)
Definition cached_send (id_a : option text) (W : wallets) : option block :=
  id ← id_a; hash ← wn_send_action_ids W !! id; x ← block_get (lg_store (wn_ledger W)) hash; Some x.1.

(** [action_complete]: the block with its work, [None] when work or ledger fail. *)
Definition action_complete (now : Z) (ck : clocks) (w : nat) (b : block) (account_a : Z) (generate_work_a : bool)
    (details_a : block_details) (W : wallets) : outcome (option block * wallets) :=
  let W := wn_set_delayed_work (delete account_a) W in
  let required_difficulty := threshold (lk_work constants) work_1 details_a in
  let worked :=
    if block_difficulty b <? required_difficulty then
      work ← we_work_generate e (root b) required_difficulty (account b); Some (block_work_set work b)
    else Some b in
  match worked with
  | None => Ok (None, W)
  | Some b =>
      '(r, p) ← process_local constants flags now ck b (wn_pipeline W);
      let W := wn_set_pipeline p W in
      if bool_decide (pr_code r = progress) then
        Ok (Some b, if generate_work_a then work_ensure w account_a (block_hash b) W else W)
      else Ok (None, W)
  end.

(** [receive_action], [change_action] and [send_action]; the other threads of the
    node may change the pipeline ([between]) after the block is made. *)
Context (between : pipeline → pipeline).

Definition complete_prepared (now : Z) (ck : clocks) (w : nat) (account_a : Z) (generate_work_a : bool)
    (prepared : option (block * block_details)) (W : wallets) : outcome (option block * wallets) :=
  match prepared with
  | Some (b, details) =>
      action_complete now ck w b account_a generate_work_a details
        (wn_set_pipeline (between (wn_pipeline W)) W)
  | None => Ok (None, W)
  end.

Definition receive_action (now : Z) (ck : clocks) (w : nat)
    (send_hash_a representative_a amount_a account_a work_a : Z) (generate_work_a : bool) (W : wallets) :
    outcome (option block * wallets) :=
  complete_prepared now ck w account_a generate_work_a
    (make_receive (store_at W w) (wn_ledger W) send_hash_a representative_a amount_a account_a work_a) W.

Definition change_action (now : Z) (ck : clocks) (w : nat) (source_a representative_a work_a : Z)
    (generate_work_a : bool) (W : wallets) : outcome (option block * wallets) :=
  complete_prepared now ck w source_a generate_work_a
    (make_change (store_at W w) (wn_ledger W) source_a representative_a work_a) W.

(** The id is written when the block is made, before it is processed. *)
Definition send_action (now : Z) (ck : clocks) (w : nat) (source_a account_a amount_a work_a : Z)
    (generate_work_a : bool) (id_a : option text) (W : wallets) : outcome (option block * wallets) :=
  match cached_send id_a W with
  | Some b => Ok (Some b, wn_emit [wev_flood_block b] W)
  | None =>
      let prepared := prepare_send (store_at W w) (wn_ledger W) source_a account_a amount_a work_a in
      let W := match id_a, prepared with
               | Some id, Some (b, _) => wn_set_send_action_ids <[id := block_hash b]> W
               | _, _ => W
               end in
      complete_prepared now ck w source_a generate_work_a prepared W
  end.

(** *** The thread of [do_wallet_actions] *)

Definition run_action (now : Z) (ck : clocks) (w : nat) (a : wallet_action) (W : wallets) : outcome wallets :=
  let answer := λ o : outcome (option block * wallets), '(b, W) ← o; Ok (wn_emit [wev_action_result b] W) in
  match a with
  | act_change source_a representative_a work_a generate_work_a =>
      answer (change_action now ck w source_a representative_a work_a generate_work_a W)
  | act_receive hash_a representative_a amount_a account_a work_a generate_work_a =>
      answer (receive_action now ck w hash_a representative_a amount_a account_a work_a generate_work_a W)
  | act_send source_a account_a amount_a work_a generate_work_a id_a =>
      answer (send_action now ck w source_a account_a amount_a work_a generate_work_a id_a W)
  | act_work_cache account_a root_a => Ok (work_cache_blocking w account_a root_a W)
  end.

(** One round: the first action, unless its wallet is gone; [None] when it waits. *)
Definition do_wallet_actions (now : Z) (ck : clocks) (W : wallets) : option (outcome wallets) :=
  match wn_actions W with
  | [] => None
  | (_, w, a) :: rest =>
      let W := wn_set_actions (λ _, rest) W in
      Some (if live W w then run_action now ck w a W else Ok W)
  end.

(** ** Receivable blocks *)

(** The loop over the pending entries of one account. *)
Fixpoint search_account (fuel : nat) (w : nat) (account_a : Z) (j : option pending_key) (W : wallets) : wallets :=
  match fuel, j with
  | S fuel, Some (account_j, hash) =>
      if account_j =? account_a then
        let L := wn_ledger W in
        let amount := from_option pi_amount 0 (pending_get (lg_store L) (account_j, hash)) in
        let W :=
          if we_receive_minimum e <=? amount then
            if block_confirmed L hash then
              receive_async w hash (ws_representative (store_at W w)) amount account_a 0 true W
            else if negb (we_is_processing_block e hash) then
              match block_get (lg_store L) hash with
              | Some (b, _) => wn_emit [wev_block_confirm b] W
              | None => W
              end
            else W
          else W in
        search_account fuel w account_a (pending_next (lg_store L) (account_j, hash)) W
      else W
  | _, _ => W
  end.

(** [wallet::search_receivable]: true is an error. *)
Definition wallet_search_receivable (w : nat) (W : wallets) : bool * wallets :=
  let s := store_at W w in
  if ws_valid_password s then
    (false, foldl (λ W account,
      if negb (wv_key (entry_get_raw s account) =? 0) then
        let st := lg_store (wn_ledger W) in
        search_account (S (size (st_pending st))) w account (pending_begin st (account, 0)) W
      else W) W (ws_accounts s))
  else (true, W).

(** ** The set of wallets *)

(** [wallets::create] for an id that is not in use (asserted), so that its table is
    empty; [w] is the address of the new object. *)
Definition wallets_create (rn : randoms) (representative_a : Z) (id_a : Z) (w : nat) (W : wallets) : wallets :=
  let x := Wallet (wallet_store_open rn representative_a ∅) ∅ ∅ in
  enter_initial_password w (wn_set_items <[id_a := w]> (wn_set_objects <[w := x]> W)).

Definition wallets_open (id_a : Z) (W : wallets) : option nat := wn_items W !! id_a.

(** [wallets::destroy]: the table is dropped, queued actions keep the object; the id
    has to be there. *)
Definition wallets_destroy (id_a : Z) (W : wallets) : outcome wallets :=
  w ← of_option (wn_items W !! id_a);
  Ok (set_store w (ws_destroy (store_at W w)) (wn_set_items (delete id_a) W)).

Definition wallets_search_receivable (id_a : Z) (W : wallets) : bool * wallets :=
  match wallets_open id_a W with
  | Some w => wallet_search_receivable w W
  | None => (false, W)
  end.

(** [search_receivable_all]. *)
Definition search_receivable_all (W : wallets) : wallets :=
  foldl (λ W (i : Z * nat), (wallet_search_receivable i.2 W).2) W (map_to_list (wn_items W)).

Definition wallets_exists (account_a : Z) (W : wallets) : bool :=
  existsb (λ i : Z * nat, ws_exists (store_at W i.2) account_a) (map_to_list (wn_items W)).

Definition clear_send_ids (W : wallets) : wallets := wn_set_send_action_ids (λ _, ∅) W.
Definition wallets_stop (W : wallets) : wallets := wn_set_actions (λ _, []) W.
End wallets.
