(* ===== verification/WalletLedger.v ===== *)
(** * The wallet's blocks are accepted

    The blocks that send, receive and change actions make fit the ledger they
    were made for: [node::process_local] accepts them and they have the effect
    that was asked for. *)

From S2P Require Import Prelude Blocks Numbers BlockCodec Common RepWeights EpochsWork Store Ledger.
From S2P Require Import LedgerApply LedgerInvariant LedgerSteps LedgerTheorems Rollback LedgerQueries.
From S2P Require Import UncheckedMap BlockProcessor PipelineLedger Pipeline PipelineInvariant.
From S2P Require Import WalletStore WalletVault WalletRefinement WalletActions.

(** ** State blocks that fit *)

Section accepted.
Context `{HC : Crypto} (constants : ledger_constants) (flags : processor_flags).
Context (L : ledger) (HL : ledger_inv L).

(** The link of a state block does not make it an epoch block. *)
Definition no_epoch_block (h : state_hashables) : Prop :=
  is_epoch_link constants (state_link h) = false ∨
  state_balance h < ai_balance (account_info_or_default L (state_account h)).

Section block.
Context (h : state_hashables) (signature work t1 t2 : Z).
Let b := state_block h signature work.
Let c := state_link_check L h (state_position L h).
Let details := BlockDetails (sc_epoch c) (sc_is_send c) (sc_is_receive c) false.

(** A state block whose checks pass is accepted, with this result. *)
Lemma state_block_accepted :
  block_hash b ≠ 0 → block_or_pruned_exists L (block_hash b) = false →
  validate_message (state_account h) (block_hash b) signature = false → state_account h ≠ 0 →
  is_u128 (state_balance h) → no_epoch_block h → sc_code c = progress →
  sufficient_work (lk_work constants) b details = true →
  ∃ eff, let sb := state_sideband L h t1 details (sc_source_epoch c) in
    let new := state_new_info L h (block_hash b) t2 (sc_epoch c) in
    state_effect h c eff ∧ effect_ok (st_pending (lg_store L)) (state_account h) eff ∧
    valid_step L b sb (state_account h) new eff (state_weights L h) ∧
    process constants L b sv_unknown t1 t2 =
      Ok (ProcessReturn progress sv_valid (Some (ai_balance (account_info_or_default L (state_account h)))),
          step_block L b sb (state_account h) new eff (state_weights L h)).
Proof using HL.
  intros Hnz Hfresh Hsig Ha Hbal Hep Hc Hw.
  destruct (state_checks_progress L h Hc) as (eff & He & Hok & Hb & Hprev & Hpos). fold c in He.
  exists eff. split; [done |]. split; [done |]. split.
  { apply (state_valid_step L HL h signature work details); done. }
  unfold process, processor_visit, b. fold b.
  assert (Hvisit : processor_state_block constants L h signature work sv_unknown t1 t2 =
                   state_block_impl constants L h signature work sv_unknown t1 t2).
  { unfold processor_state_block. destruct (is_epoch_link constants (state_link h)) eqn:Hl; [| done].
    destruct Hep as [Hep | Hep]; [by rewrite Hl in Hep |]. unfold validate_epoch_block.
    destruct (Z.eqb_spec (state_previous h) 0) as [Hz | Hz]; cbn [negb].
    - assert (Hi : account_info_or_default L (state_account h) = default_account_info).
      { unfold account_info_or_default, account_get in *.
        destruct (st_accounts (lg_store L) !! state_account h) as [i |] eqn:Hi; [| done]. simpl in Hpos.
        pose proof (ao_head _ _ _ (inv_accounts L HL _ _ Hi)). congruence. }
      rewrite Hi in Hep. simpl in Hep. unfold is_u128 in Hbal. lia.
    - destruct (Hprev Hz) as [x Hx]. unfold block_exists. rewrite bool_decide_true by (by eexists).
      unfold account_info_or_default, account_get in Hpos, Hep |- *.
      destruct (st_accounts (lg_store L) !! state_account h) as [i |] eqn:Hi; simpl in *; [| done].
      destruct (ao_entry _ _ _ (inv_accounts L HL _ _ Hi)) as (x' & Hx' & _ & Hbc & _).
      unfold balance, store_balance, block_get. rewrite (proj2 (Z.eqb_neq _ _) Hz), Hpos, Hx'. simpl.
      rewrite Hbc. destruct (Z.eqb_spec (state_balance h) (ai_balance i)); [lia | done]. }
  rewrite Hvisit. unfold state_block_impl. fold b. rewrite Hfresh, bool_decide_false by done. simpl.
  rewrite Hsig, (proj2 (Z.eqb_neq _ _) Ha). fold c. rewrite Hc. simpl. fold details. rewrite Hw. simpl.
  erewrite state_commit_apply by done. simpl. by rewrite state_previous_balance_old.
Qed.
End block.

(** [process_local] on a block that the ledger accepts. *)
Lemma process_local_accepted now ck b p r L' :
  pl_ledger p = L → process constants L b sv_unknown (ck_sideband ck) (ck_modified ck) = Ok (r, L') →
  pr_code r = progress →
  (∃ sb, block_get (lg_store L') (block_hash b) = Some (b, sb) ∧ account_calculated (b, sb) = account b) →
  ∃ p', process_local constants flags now ck b p = Ok (r, p') ∧ pl_ledger p' = L'.
Proof.
  intros HLp Hp Hr (sb & Hg & Hacc). unfold process_local, process_one. cbn [wb_block wb_verified pl_ledger].
  simpl. rewrite HLp, Hp. simpl. rewrite Hr. unfold on_progress. simpl. rewrite Hg. simpl.
  rewrite Hacc, Z.eqb_refl, orb_true_r.
  cbn [mbind outcome_bind].
  match goal with |- context [run_events _ _ _ ?evs ?q] => destruct (run_events_ok constants flags ck evs q) as (p' & -> & _ & HL' & _) end.
  exists p'. split; [done |]. rewrite HL'. simpl. destruct (opens_pending _); done.
Qed.
End accepted.

(** ** Actions *)

Section actions.
Context `{HC : Crypto} `{HW : WalletCrypto} `{!CryptoLaws HC} `{!WalletCryptoLaws HC HW}.
Context (constants : ledger_constants) (flags : processor_flags) (e : wallet_env).

(** Work generation succeeds for the thresholds of the network, and the work has the
    difficulty that was asked for. *)
Definition work_available : Prop :=
  ∀ root_a account_a details_a, let difficulty_a := threshold (lk_work constants) work_1 details_a in
    ∃ work, we_work_generate e root_a difficulty_a account_a = Some work ∧
      difficulty_a <= difficulty work_1 root_a work.

(** The ledger accepted [b] in place of the first one, at [account_a], which now has
    this balance and representative; the pending entries are [pending], and the
    details that the wallet computed are those of the ledger. *)
Definition performed (ck : clocks) (L L' : ledger) (b : block) (account_a balance_a representative_a : Z)
    (details_a : block_details) (pending : gmap pending_key pending_info) : Prop :=
  (∃ r, process constants L b sv_unknown (ck_sideband ck) (ck_modified ck) = Ok (r, L') ∧ pr_code r = progress) ∧
  (∃ i, account_get (lg_store L') account_a = Some i ∧ ai_head i = block_hash b ∧
     ai_balance i = balance_a ∧ ai_representative i = representative_a) ∧
  (∀ a, a ≠ account_a → account_get (lg_store L') a = account_get (lg_store L) a) ∧
  st_pending (lg_store L') = pending ∧
  ∃ sb, block_get (lg_store L') (block_hash b) = Some (b, sb) ∧ sb_details sb = details_a.

Context (between : pipeline → pipeline) (Hwork : work_available).

(** The ledger when the block is processed; other blocks may have been processed
    since the wallet made it. *)
Definition later (W : wallets) : ledger := pl_ledger (between (wn_pipeline W)).

(** A prepared block that fits the ledger is completed. *)
Lemma complete_prepared_accepted now ck w h prv work gen details W :
  let L := later W in
  let b0 := signed_state_block (state_account h) (state_previous h) (state_representative h) (state_balance h)
              (state_link h) prv (state_account h) work in
  let c := state_link_check L h (state_position L h) in
  ledger_inv L → pub_key prv = state_account h → state_account h ≠ 0 → is_u128 (state_balance h) →
  no_epoch_block constants L h → sc_code c = progress →
  details = BlockDetails (sc_epoch c) (sc_is_send c) (sc_is_receive c) false →
  block_hash (state_block h 0 0) ≠ 0 → block_or_pruned_exists L (block_hash (state_block h 0 0)) = false →
  ∃ b W' eff, complete_prepared constants flags e between now ck w (state_account h) gen (Some (b0, details)) W =
      Ok (Some b, W') ∧
    block_hash b = block_hash (state_block h 0 0) ∧ wn_send_action_ids W' = wn_send_action_ids W ∧
    wn_objects W' = wn_objects W ∧ state_effect h c eff ∧
    effect_ok (st_pending (lg_store L)) (state_account h) eff ∧
    performed ck L (wn_ledger W') b (state_account h) (state_balance h) (state_representative h) details
      (apply_effect eff (state_account h) (block_hash b) (st_pending (lg_store L))).
Proof using Hwork WalletCryptoLaws0.
  intros L b0 c HL Hpub Ha Hbal Hep Hc Hd Hnz Hfresh.
  set (sig := sign_message prv (state_account h) (block_hash (state_block h 0 0))).
  assert (Hb0 : b0 = state_block h sig work) by (unfold b0, signed_state_block, sig; by destruct h).
  unfold complete_prepared, action_complete. rewrite Hb0.
  set (req := threshold (lk_work constants) work_1 details).
  assert (Hworked : ∃ work',
    (if block_difficulty (state_block h sig work) <? req
     then x ← we_work_generate e (root (state_block h sig work)) req (account (state_block h sig work));
          Some (block_work_set x (state_block h sig work))
     else Some (state_block h sig work)) = Some (state_block h sig work') ∧
    sufficient_work (lk_work constants) (state_block h sig work') details = true).
  { destruct (Z.ltb_spec (block_difficulty (state_block h sig work)) req) as [Hlt | Hge].
    - destruct (Hwork (root (state_block h sig work)) (account (state_block h sig work)) details) as (x & Hx0 & Hx).
      fold req in Hx0, Hx. rewrite Hx0.
      exists x. split; [done |]. by apply Z.leb_le.
    - exists work. split; [done |]. by apply Z.leb_le. }
  destruct Hworked as (work' & -> & Hsuf). set (b := state_block h sig work') in *.
  assert (Hh : block_hash b = block_hash (state_block h 0 0)) by done.
  subst details.
  destruct (state_block_accepted constants L HL h sig work' (ck_sideband ck) (ck_modified ck))
    as (eff & He & Hok & HV & Hp); try done.
  { rewrite <- Hpub at 1. unfold sig. rewrite <- Hpub. apply signed_valid. }
  fold b c in Hp, HV. set (sb := state_sideband L h _ _ _) in *. set (new := state_new_info L h _ _ _) in *.
  pose proof (step_fresh _ _ _ _ _ _ _ HV) as Hnone.
  assert (Hself : block_get (lg_store (step_block L b sb (state_account h) new eff (state_weights L h)))
    (block_hash b) = Some (b, sideband_stored (block_type_of b) sb)).
  { apply new_blocks_self; [done |]. apply HV. }
  destruct (process_local_accepted constants flags L now ck b
    (wn_pipeline (wn_set_delayed_work (delete (state_account h)) (wn_set_pipeline (between (wn_pipeline W)) W)))
    _ _ eq_refl Hp eq_refl) as (p' & -> & Hp').
  { eexists. split; [exact Hself |]. unfold account_calculated. simpl. by rewrite (proj2 (Z.eqb_neq _ _) Ha). }
  cbn [mbind outcome_bind]. rewrite bool_decide_true by done.
  eexists b, _, eff. split; [reflexivity |].
  match goal with |- context [wn_ledger ?X] => assert (wn_ledger X = pl_ledger p') as -> by (by destruct gen) end.
  rewrite Hp'. split_and!; [done | by destruct gen | by destruct gen | done | done |].
  split_and!.
  - eexists. split; [exact Hp | done].
  - exists new. split; [apply lookup_insert_eq | done].
  - intros a Hne. by apply lookup_insert_ne.
  - done.
  - eexists. split; [exact Hself | done].
Qed.

(** *** The checks of the ledger on the blocks of the wallet *)

Lemma checks_existing L a i rep bal lnk :
  ledger_inv L → account_get (lg_store L) a = Some i →
  let h := StateHashables a (ai_head i) rep bal lnk in
  state_position L h =
    StateChecks progress (ai_epoch i) epoch_0 (bal <? ai_balance i)
      (negb (bal <? ai_balance i) && negb (lnk =? 0))
      (if bal <? ai_balance i then ai_balance i - bal else bal - ai_balance i).
Proof.
  intros HL Hi h. unfold state_position. simpl. rewrite Hi. pose proof (inv_accounts L HL _ _ Hi) as Hok.
  rewrite (proj2 (Z.eqb_neq _ _) (ao_head _ _ _ Hok)), Z.eqb_refl.
  destruct (ao_entry _ _ _ Hok) as (x & Hx & _). unfold block_exists.
  by rewrite bool_decide_true by (by eexists).
Qed.

Context (salt wallet_key : Z).

(** The key of the account, as the actions read it. *)
Lemma action_key s v a prv :
  represents salt wallet_key s v → special_count <= a → vault_fetch v a = Some prv →
  ws_valid_password s = true ∧ ws_find s a = true ∧
  ws_fetch s a (we_uninitialised e) = (false, prv) ∧ pub_key prv = a ∧ a ≠ 0.
Proof using WalletCryptoLaws0.
  intros HR Ha Hv. pose proof (fetch_reads_vault salt wallet_key s v a (we_uninitialised e) HR Ha) as Hf.
  rewrite Hv in Hf. destruct Hf as [Hf Hpub]. unfold vault_fetch in Hv.
  destruct (va_unlocked v) eqn:Hu; [| done]. split; [by rewrite (valid_password_unlocked _ _ _ _ HR) |]. split.
  - assert (Hex : ws_exists s a = true).
    { apply (exists_account _ _ _ _ _ HR). destruct (va_accounts v !! a); [by eexists | done]. }
    unfold ws_exists in Hex. by apply andb_true_iff in Hex as [_ ?].
  - split_and!; [done | done |]. unfold special_count in Ha. lia.
Qed.

(** ** Theorems *)

(** C30: A send of a positive amount that an account has, from an open wallet with
    the account's key, is accepted by the ledger: the amount leaves the account and
    is receivable by the destination, nothing else changes, and the id of the send
    is remembered. Conditions: the id, if one is given, has not been used; work
    generation succeeds; the block does not have the hash of a stored block or the
    hash zero; and between making the block and processing it the node processes no
    other block of the account (it may process blocks of others). *)
Theorem send_action_accepted now ck w source_a account_a amount_a work_a gen id_a W v prv i :
  let L := later W in
  let hash := block_hash (state_block (StateHashables source_a (ai_head i) (ai_representative i)
                (ai_balance i - amount_a) account_a) 0 0) in
  account_get (lg_store (wn_ledger W)) source_a = Some i → reachable constants L → represents salt wallet_key (store_at W w) v →
  special_count <= source_a → vault_fetch v source_a = Some prv →
  account_get (lg_store L) source_a = Some i → 0 < amount_a <= ai_balance i →
  cached_send id_a W = None → hash ≠ 0 → block_or_pruned_exists L hash = false →
  ∃ b W', send_action constants flags e between now ck w source_a account_a amount_a work_a gen id_a W =
      Ok (Some b, W') ∧ block_hash b = hash ∧
    performed ck L (wn_ledger W') b source_a (ai_balance i - amount_a) (ai_representative i)
      (BlockDetails (ai_epoch i) true false false)
      (<[(account_a, hash) := PendingInfo source_a amount_a (ai_epoch i)]> (st_pending (lg_store L))) ∧
    (∀ id, id_a = Some id → wn_send_action_ids W' !! id = Some hash).
Proof using Hwork WalletCryptoLaws0.
  intros L hash Hi0 HL%reachable_inv HR Ha Hv Hi Hamt Hcache Hnz Hfresh.
  destruct (action_key _ _ _ _ HR Ha Hv) as (Hvalid & Hfind & Hfetch & Hpub & Hne).
  pose proof (inv_accounts L HL _ _ Hi) as Hok. pose proof (ao_balance _ _ _ Hok) as Hbal.
  unfold send_action. rewrite Hcache. unfold prepare_send.
  rewrite Hvalid, Hfind, Hi0, Hfetch, (info_existing _ _ _ Hi0). cbn [from_option snd].
  destruct (Z.eqb_spec (ai_balance i) 0) as [Hz | _]; [lia |].
  destruct (Z.leb_spec amount_a (ai_balance i)) as [_ | ?]; [| lia]. cbn [negb andb].
  set (h := StateHashables source_a (ai_head i) (ai_representative i) (ai_balance i - amount_a) account_a) in *.
  set (W0 := match id_a with Some id => _ | None => W end).
  pose proof (checks_existing L source_a i (ai_representative i) (ai_balance i - amount_a) account_a HL Hi) as Hpos.
  fold h in Hpos. cbv zeta in Hpos. destruct (Z.ltb_spec (ai_balance i - amount_a) (ai_balance i)) as [_ | ?]; [| lia].
  assert (HW0 : later W0 = L) by (unfold W0; by destruct id_a).
  destruct (complete_prepared_accepted now ck w h prv (given_work (store_at W w) source_a work_a) gen
    (BlockDetails (ai_epoch i) true false false) W0) as (b & W' & eff & Hc & Hh & Hids & _ & He & Hok' & Hperf);
    rewrite ?HW0; try done.
  - unfold h, is_u128 in *. simpl. lia.
  - right. simpl. rewrite (info_existing _ _ _ Hi). lia.
  - by rewrite Hpos.
  - by rewrite Hpos.
  - rewrite HW0 in He, Hok', Hperf. exists b, W'. split; [exact Hc |]. split; [exact Hh |]. split.
    + rewrite Hpos in He. simpl in He. destruct eff as [dest am ep | src p |]; simpl in He; destruct_and?; try done.
      simplify_eq. simpl in Hperf. rewrite Hh in Hperf. change (state_block h 0 0) with (state_block h 0 0) in Hperf.
      fold hash in Hperf. replace (ai_balance i - (ai_balance i - amount_a)) with amount_a in Hperf by lia.
      exact Hperf.
    + intros id ->. rewrite Hids. unfold W0. simpl. apply lookup_insert_eq.
Qed.

(** The state of the account that receives. *)
Definition receive_hashables_of (L : ledger) (account_a send_hash_a representative_a amount : Z) : state_hashables :=
  match account_get (lg_store L) account_a with
  | Some i => StateHashables account_a (ai_head i) (ai_representative i) (ai_balance i + amount) send_hash_a
  | None => StateHashables account_a 0 representative_a amount send_hash_a
  end.

Lemma checks_receive L a send_hash rep p :
  ledger_inv L → a ≠ 0 → pending_get (lg_store L) (a, send_hash) = Some p →
  let h := receive_hashables_of L a send_hash rep (pi_amount p) in
  state_link_check L h (state_position L h) =
    StateChecks progress
      (Z.max (from_option ai_epoch epoch_0 (account_get (lg_store L) a)) (pi_epoch p)) (pi_epoch p)
      false true (pi_amount p).
Proof.
  intros HL Ha Hp h. pose proof (inv_pending L HL _ _ Hp) as [Hnn Hex]. simpl in Hex.
  assert (Hz : send_hash ≠ 0) by (intros ->; by rewrite (inv_exists_zero L HL) in Hex).
  unfold h, receive_hashables_of. destruct (account_get (lg_store L) a) as [i |] eqn:Hi.
  - rewrite (checks_existing L a i _ _ _ HL Hi).
    destruct (Z.ltb_spec (ai_balance i + pi_amount p) (ai_balance i)); [lia |].
    unfold state_link_check. simpl. rewrite (proj2 (Z.eqb_neq _ _) Hz), Hex, Hp. simpl.
    replace (ai_balance i + pi_amount p - ai_balance i) with (pi_amount p) by lia. by rewrite Z.eqb_refl.
  - unfold state_position, state_link_check. simpl. rewrite Hi. simpl.
    rewrite (proj2 (Z.eqb_neq _ _) Hz). simpl. rewrite Hex, Hp. simpl. by rewrite Z.eqb_refl.
Qed.

(** C31: A receive of a pending entry of at least the minimum, to an account whose
    key the open wallet has, is accepted by the ledger: the amount is added to the
    account, which is opened with the given representative if it was not open, and
    the entry is gone. Conditions: the hash of the send is not an epoch link; work
    generation succeeds; the block does not have the hash of a stored block or the
    hash zero; and between making the block and processing it the node processes no
    other block of the account (it may process blocks of others). *)
Theorem receive_action_accepted now ck w send_hash_a representative_a amount_a account_a work_a gen W v prv p :
  let L := later W in
  let h := receive_hashables_of L account_a send_hash_a representative_a (pi_amount p) in
  let hash := block_hash (state_block h 0 0) in
  reachable constants (wn_ledger W) → account_get (lg_store (wn_ledger W)) account_a = account_get (lg_store L) account_a →
  pending_get (lg_store (wn_ledger W)) (account_a, send_hash_a) = Some p → reachable constants L → represents salt wallet_key (store_at W w) v →
  special_count <= account_a → vault_fetch v account_a = Some prv →
  pending_get (lg_store L) (account_a, send_hash_a) = Some p → epoch_0 <= pi_epoch p →
  we_receive_minimum e <= amount_a → is_epoch_link constants send_hash_a = false →
  hash ≠ 0 → block_or_pruned_exists L hash = false →
  ∃ b W', receive_action constants flags e between now ck w send_hash_a representative_a amount_a account_a work_a gen W =
      Ok (Some b, W') ∧ block_hash b = hash ∧
    performed ck L (wn_ledger W') b account_a
      (from_option ai_balance 0 (account_get (lg_store L) account_a) + pi_amount p)
      (from_option ai_representative representative_a (account_get (lg_store L) account_a))
      (BlockDetails (Z.max (from_option ai_epoch epoch_0 (account_get (lg_store L) account_a)) (pi_epoch p)) false true false)
      (delete (account_a, send_hash_a) (st_pending (lg_store L))).
Proof using Hwork WalletCryptoLaws0.
  intros L h hash HL0%reachable_inv Hi0 Hp0 HL%reachable_inv HR Ha Hv Hp Hep Hmin Hlink Hnz Hfresh.
  destruct (action_key _ _ _ _ HR Ha Hv) as (Hvalid & Hfind & Hfetch & Hpub & Hne).
  pose proof (inv_pending L HL _ _ Hp) as [Hnn Hex]. simpl in Hex.
  pose proof (checks_receive L account_a send_hash_a representative_a p HL Hne Hp) as Hchk. cbv zeta in Hchk. fold h in Hchk.
  assert (Hacc : state_account h = account_a ∧ state_link h = send_hash_a ∧
    state_balance h = from_option ai_balance 0 (account_get (lg_store L) account_a) + pi_amount p ∧
    state_representative h = from_option ai_representative representative_a (account_get (lg_store L) account_a)).
  { unfold h, receive_hashables_of. by destruct (account_get (lg_store L) account_a). }
  destruct Hacc as (Hacc & Hlnk & Hbal & Hrep).
  assert (Hu : is_u128 (state_balance h)).
  { rewrite Hbal. destruct (account_get (lg_store L) account_a) as [i |] eqn:Hi; simpl.
    - exact (inv_receivable_fits L HL _ _ _ _ Hp Hi).
    - exact (inv_pending_range L HL _ _ Hp). }
  set (details := BlockDetails (Z.max (from_option ai_epoch epoch_0 (account_get (lg_store L) account_a)) (pi_epoch p))
    false true false).
  pose proof (inv_pending _ HL0 _ _ Hp0) as [_ Hex0]. simpl in Hex0.
  assert (Hprep : make_receive e (store_at W w) (wn_ledger W) send_hash_a representative_a amount_a account_a work_a =
    Some (signed_state_block (state_account h) (state_previous h) (state_representative h) (state_balance h)
      (state_link h) prv (state_account h) (given_work (store_at W w) account_a work_a), details)).
  { unfold make_receive. destruct (Z.leb_spec (we_receive_minimum e) amount_a); [| lia].
    rewrite Hex0, Hp0, Hi0, Hfetch. unfold h, receive_hashables_of, details in *. cbn [negb].
    destruct (account_get (lg_store L) account_a) as [i |] eqn:Hi; simpl in *.
    - by rewrite wrap128_small.
    - by rewrite Z.max_r. }
  unfold receive_action. rewrite Hprep.
  destruct (complete_prepared_accepted now ck w h prv (given_work (store_at W w) account_a work_a) gen details W)
    as (b & W' & eff & Hc & Hh & _ & _ & He & Hok' & Hperf); fold L; rewrite ?Hacc, ?Hlnk; try done.
  - left. by rewrite Hlnk.
  - by rewrite Hchk.
  - by rewrite Hchk.
  - rewrite Hacc, Hlnk in Hc. exists b, W'. split; [exact Hc |]. split; [exact Hh |].
    fold L in He, Hperf. rewrite Hchk in He. destruct eff as [dest am ep | src q |]; simpl in He; destruct_and?; try done.
    + subst src. simpl in Hperf. rewrite Hacc, Hbal, Hrep, Hlnk in Hperf. exact Hperf.
    + exfalso. assert (send_hash_a = 0) as -> by congruence. by rewrite (inv_exists_zero L HL) in Hex.
Qed.

(** A change of the representative of an account whose key the open wallet has is
    accepted, and changes nothing else. *)
Theorem change_action_accepted now ck w source_a representative_a work_a gen W v prv i :
  let L := later W in
  let hash := block_hash (state_block (StateHashables source_a (ai_head i) representative_a (ai_balance i) 0) 0 0) in
  account_get (lg_store (wn_ledger W)) source_a = Some i → reachable constants L → represents salt wallet_key (store_at W w) v →
  special_count <= source_a → vault_fetch v source_a = Some prv →
  account_get (lg_store L) source_a = Some i → is_epoch_link constants 0 = false →
  hash ≠ 0 → block_or_pruned_exists L hash = false →
  ∃ b W', change_action constants flags e between now ck w source_a representative_a work_a gen W = Ok (Some b, W') ∧
    block_hash b = hash ∧
    performed ck L (wn_ledger W') b source_a (ai_balance i) representative_a
      (BlockDetails (ai_epoch i) false false false) (st_pending (lg_store L)).
Proof using Hwork WalletCryptoLaws0.
  intros L hash Hi0 HL%reachable_inv HR Ha Hv Hi Hlink Hnz Hfresh.
  destruct (action_key _ _ _ _ HR Ha Hv) as (Hvalid & Hfind & Hfetch & Hpub & Hne).
  pose proof (inv_accounts L HL _ _ Hi) as Hok.
  unfold change_action, make_change, latest.
  rewrite Hvalid, Hfind, Hi0, Hfetch, (info_existing _ _ _ Hi0). cbn [from_option snd].
  rewrite (proj2 (Z.eqb_neq _ _) (ao_head _ _ _ Hok)). cbn [negb andb].
  set (h := StateHashables source_a (ai_head i) representative_a (ai_balance i) 0) in *.
  pose proof (checks_existing L source_a i representative_a (ai_balance i) 0 HL Hi) as Hpos.
  fold h in Hpos. cbv zeta in Hpos. rewrite Z.ltb_irrefl, Z.sub_diag in Hpos.
  assert (Hchk : state_link_check L h (state_position L h) =
    StateChecks progress (ai_epoch i) epoch_0 false false 0) by (by rewrite Hpos).
  destruct (complete_prepared_accepted now ck w h prv (given_work (store_at W w) source_a work_a) gen
    (BlockDetails (ai_epoch i) false false false) W) as (b & W' & eff & Hc & Hh & _ & _ & He & Hok' & Hperf);
    fold L; try done.
  - apply Hok.
  - by left.
  - by rewrite Hchk.
  - by rewrite Hchk.
  - exists b, W'. split; [exact Hc |]. split; [exact Hh |]. fold L in He, Hperf. rewrite Hchk in He.
    destruct eff as [dest am ep | src q |]; simpl in He; destruct_and?; try done.
Qed.
End actions.

(** ** Ids of sends *)

Section ids.
Context `{HC : Crypto} `{HW : WalletCrypto}.
Context (constants : ledger_constants) (flags : processor_flags) (e : wallet_env) (between : pipeline → pipeline).

Lemma block_work_set_hash work b : block_hash (block_work_set work b) = block_hash b.
Proof. by destruct b. Qed.

(** Completing an action does not touch the ids, and the block keeps its hash. *)
Lemma complete_prepared_ids now ck w account_a gen prepared W b W' :
  complete_prepared constants flags e between now ck w account_a gen prepared W = Ok (Some b, W') →
  wn_send_action_ids W' = wn_send_action_ids W ∧ ∃ b0 details, prepared = Some (b0, details) ∧ block_hash b = block_hash b0.
Proof.
  unfold complete_prepared. destruct prepared as [[b0 details] |]; [| done]. unfold action_complete.
  set (worked := if _ <? _ then _ else Some b0).
  assert (Hh : ∀ x, worked = Some x → block_hash x = block_hash b0).
  { intros x. unfold worked. destruct (_ <? _); [| by intros [= <-]].
    destruct (we_work_generate _ _ _ _); [| done]. intros [= <-]. apply block_work_set_hash. }
  destruct worked as [x |]; [| done].
  destruct (process_local constants flags now ck x _) as [[r p] |]; [| done]. simpl.
  case_bool_decide; [| done]. intros [= <- <-]. split; [by destruct gen |]. eauto.
Qed.

(** C32: A send with an id that succeeded is not made again: as long as the id is
    kept and the ledger has the block, any send with that id answers with the same
    block and changes neither wallets nor ledger. *)
Theorem send_id_sends_once now ck w source_a account_a amount_a work_a gen id W b W1 W2 :
  reachable constants (wn_ledger W) →
  send_action constants flags e between now ck w source_a account_a amount_a work_a gen (Some id) W = Ok (Some b, W1) →
  wn_send_action_ids W2 !! id = wn_send_action_ids W1 !! id →
  (∃ sb, block_get (lg_store (wn_ledger W2)) (block_hash b) = Some (b, sb)) →
  ∀ now' ck' w' source_a' account_a' amount_a' work_a' gen',
    send_action constants flags e between now' ck' w' source_a' account_a' amount_a' work_a' gen' (Some id) W2 =
      Ok (Some b, wn_emit [wev_flood_block b] W2).
Proof.
  intros HL%reachable_inv Hs Hids [sb Hb] now' ck' w' source_a' account_a' amount_a' work_a' gen'.
  assert (Hid : wn_send_action_ids W1 !! id = Some (block_hash b)).
  { unfold send_action in Hs. destruct (cached_send (Some id) W) as [b' |] eqn:Hc.
    - injection Hs as -> <-. unfold cached_send in Hc. simpl in Hc |- *.
      destruct (wn_send_action_ids W !! id) as [k |]; [| done]. simpl in Hc.
      destruct (block_get (lg_store (wn_ledger W)) k) as [x |] eqn:Hx; [| done]. simpl in Hc. injection Hc as <-.
      f_equal. apply (inv_blocks _ HL k x Hx).
    - apply complete_prepared_ids in Hs as (-> & b0 & details & -> & Hh). simpl. rewrite Hh. apply lookup_insert_eq. }
  unfold send_action, cached_send. simpl. rewrite Hids, Hid. simpl. by rewrite Hb.
Qed.
End ids.
