(* ===== verification/WalletSeeds.v ===== *)
(** * Restoring a wallet from its seed ([wallet::change_seed])

    After a new seed is set, [deterministic_check] looks for accounts of the seed
    that the ledger knows, allowing gaps that grow with the index, and that many
    accounts are added. *)

From S2P Require Import Prelude Blocks Numbers BlockCodec Common RepWeights EpochsWork Store Ledger.
From S2P Require Import Rollback LedgerQueries UncheckedMap BlockProcessor.
From S2P Require Import WalletStore WalletVault WalletRefinement WalletActions.

Section seeds.
Context `{HC : Crypto} `{HW : WalletCrypto} `{!WalletCryptoLaws HC HW}.
Context (e : wallet_env) (salt wallet_key : Z).
Abbreviation represents := (represents salt wallet_key).

(** ** The search *)

Section search.
Context (L : ledger) (seed : Z).

Definition used (i : Z) : Prop := account_used L (derived_account seed i) = true.

(** How far the search looks beyond a used index. *)
Definition horizon (i : Z) : Z := i + 64 + i / 64.

Lemma horizon_mono i j : i <= j → horizon i <= horizon j.
Proof. intros Hle. unfold horizon. pose proof (Z.div_le_mono i j 64 ltac:(lia) Hle). lia. Qed.

Context (m : Z) (Hm : ∀ j, 0 <= j < u32_mod → used j → j < m) (Hroom : horizon m < u32_mod).

(** The loop ends at a used index (or where it began) with nothing used from there
    to its horizon. *)
Lemma check_loop_spec fuel s v i index :
  represents s v → va_unlocked v = true → va_seed v = seed →
  0 <= index < i → i <= horizon index → index <= m →
  (∀ j, index < j < i → ¬ used j) → (horizon m - i < Z.of_nat fuel) →
  ∃ r, check_loop fuel L s i (horizon index) index = Done r ∧
    index <= r ∧ r <= m ∧ (r = index ∨ used r) ∧ ∀ j, r < j < horizon r → ¬ used j.
Proof using Hm Hroom WalletCryptoLaws0.
  intros HR Hu Hs. revert i index. induction fuel as [| fuel IH]; intros i index Hi Hle Him Hno Hf.
  { pose proof (horizon_mono index m ltac:(lia)). lia. }
  cbn [check_loop]. unfold ws_deterministic_key. rewrite (unlocked_seed _ _ _ _ HR Hu), Hs.
  fold (derived_account seed i).
  pose proof (horizon_mono index m ltac:(lia)) as Hh.
  destruct (Z.ltb_spec i (horizon index)) as [Hlt | Hge].
  - assert (Hwi : wrap32 (i + 1) = i + 1) by (apply Z.mod_small; lia).
    destruct (account_used L (derived_account seed i)) eqn:Hused.
    + pose proof (Hm i ltac:(lia) Hused) as Him'. pose proof (horizon_mono i m ltac:(lia)) as Hh'.
      assert (Hwh : wrap32 (i + 64 + i / 64) = horizon i).
      { apply Z.mod_small. unfold horizon in *. pose proof (Z.div_pos i 64 ltac:(lia) ltac:(lia)). lia. }
      rewrite Hwi, Hwh.
      destruct (IH (i + 1) i) as (r & Hr & H1 & H2 & H3 & H4); [lia | | lia | intros; lia | lia |].
      { unfold horizon. pose proof (Z.div_pos i 64 ltac:(lia) ltac:(lia)). lia. }
      exists r. split_and!; [done | lia | lia | | done]. destruct H3 as [-> | ?]; by right.
    + rewrite Hwi. apply IH; [lia | lia | lia | | lia].
      intros j Hj. destruct (decide (j = i)) as [-> | ?]; [unfold used; congruence | apply Hno; lia].
  - exists index. split_and!; [done | lia | lia | by left |]. intros j Hj. apply Hno. lia.
Qed.

(** No gap between used indices is longer than the search allows. *)
Definition no_wide_gap : Prop :=
  ∀ j, 0 < j < u32_mod → used j → ∃ i, 0 <= i < j ∧ (i = 0 ∨ used i) ∧ j < horizon i.

Lemma search_complete r :
  no_wide_gap → 0 <= r → (∀ j, r < j < horizon r → ¬ used j) → ∀ j, j < u32_mod → used j → j <= r.
Proof.
  intros Hgap Hr Hno j Hju Hj. destruct (decide (j <= r)) as [| Hgt]; [done | exfalso].
  assert (Hind : ∀ n : nat, ∀ j, r < j <= r + Z.of_nat n → j < u32_mod → used j → False);
    [| apply (Hind (Z.to_nat (j - r)) j); [lia | done | done]].
  clear j Hj Hju Hgt. induction n as [| n IH]; intros j Hjr Hju Hj; [lia |].
  destruct (Hgap j ltac:(lia) Hj) as (i & Hi & Hi0 & Hlt).
  destruct (decide (i <= r)) as [Hle | Hgt].
  - pose proof (horizon_mono i r Hle). apply (Hno j); [lia | done].
  - destruct Hi0 as [-> | Hu]; [lia |]. apply (IH i); [lia | lia | done].
Qed.
End search.

(** ** Adding accounts *)

(** The wallet at an address is there with a store for the vault. *)
Definition holds (W : wallets) (w : nat) (v : vault) : Prop :=
  is_Some (wn_objects W !! w) ∧ represents (store_at W w) v.

Lemma store_at_set W w s : is_Some (wn_objects W !! w) → store_at (set_store w s W) w = s.
Proof. intros [x Hx]. unfold store_at, wallet_at, set_store. simpl. by rewrite lookup_alter_eq, Hx. Qed.

Lemma set_store_objects W w s : is_Some (wn_objects W !! w) → is_Some (wn_objects (set_store w s W) !! w).
Proof. intros Hx. simpl. by rewrite lookup_alter_eq, fmap_is_Some. Qed.

Lemma holds_representative W w v key : holds W w v → holds (add_representative e w key W) w v.
Proof.
  intros [Hx HR]. unfold add_representative. destruct (check_rep _ _ _ _) as [new r].
  destruct new; [| done]. split; [simpl; by rewrite lookup_alter_eq, fmap_is_Some |].
  destruct Hx as [x Hx]. unfold store_at, wallet_at in *. simpl. rewrite lookup_alter_eq, Hx in *. exact HR.
Qed.

Lemma add_representative_ledger W w key : wn_ledger (add_representative e w key W) = wn_ledger W.
Proof. unfold add_representative. destruct (check_rep _ _ _ _) as [[] r]; done. Qed.

(** One account more. *)
Lemma wallet_insert_holds W w v gen :
  holds W w v → va_unlocked v = true → fits 0 salt wallet_key v op_deterministic_insert →
  ∃ a W', wallet_deterministic_insert e w gen W = Done (a, W') ∧
    holds W' w (vault_step 0 salt op_deterministic_insert v) ∧ wn_ledger W' = wn_ledger W.
Proof using WalletCryptoLaws0.
  intros [Hx HR] Hu Hfit. unfold wallet_deterministic_insert.
  rewrite (valid_password_unlocked _ _ _ _ HR), Hu.
  destruct (deterministic_insert_represents 0 _ _ _ _ HR Hu Hfit) as (s' & -> & HR'). cbn [mbind run_bind].
  eexists _, _. split; [reflexivity |]. split.
  - apply holds_representative. simpl. rewrite Hu. destruct gen;
      (split; [by apply set_store_objects |]; unfold work_ensure; simpl).
    + assert (Hst : store_at (set_store w s' W) w = s') by (by apply store_at_set).
      unfold store_at, wallet_at in *. simpl in *. by rewrite Hst.
    + by rewrite store_at_set.
  - rewrite add_representative_ledger. by destruct gen.
Qed.

(** The keys of a seed: no reserved accounts, and no two alike. *)
Definition seed_ok (seed : Z) : Prop :=
  (∀ i, 0 <= i < u32_mod → special_count <= derived_account seed i) ∧
  (∀ i j, 0 <= i < u32_mod → 0 <= j < u32_mod → derived_account seed i = derived_account seed j → i = j).

(** Every index below the next one has its account in the vault, and only accounts that
    were watched before are without key. *)
Record filled (v0 : vault) (seed : Z) (v : vault) : Prop := {
  fl_unlocked : va_unlocked v = true;
  fl_seed : va_seed v = seed;
  fl_index : 0 <= va_index v;
  fl_accounts : ∀ j, 0 <= j < va_index v → is_Some (va_accounts v !! derived_account seed j);
  fl_watched : ∀ a, va_accounts v !! a = Some watch_only → va_accounts v0 !! a = Some watch_only;
}.

Lemma next_free_spec fuel v i :
  0 <= i → i + Z.of_nat fuel < u32_mod →
  let k := next_free fuel v i in
  i <= k <= i + Z.of_nat fuel ∧ ∀ j, i <= j < k → is_Some (va_accounts v !! derived_account (va_seed v) j).
Proof.
  revert i. induction fuel as [| fuel IH]; intros i Hi Hb; simpl; [split; [lia | intros; lia] |].
  destruct (va_accounts v !! derived_account (va_seed v) i) eqn:Hk; [| split; [lia | intros; lia]].
  unfold wrap32. rewrite Z.mod_small by lia.
  destruct (IH (i + 1)) as [H1 H2]; [lia | lia |]. split; [lia |].
  intros j Hj. destruct (decide (j = i)) as [-> | ?]; [by rewrite Hk | apply H2; lia].
Qed.

(** There are at least as many accounts as indices taken. *)
Lemma filled_size v0 seed v :
  seed_ok seed → filled v0 seed v → va_index v <= u32_mod → va_index v <= Z.of_nat (size (va_accounts v)).
Proof.
  intros [_ Hinj] [_ _ H0 Hacc _] Hb.
  assert (Hl : (length (map (derived_account seed) (seqZ 0 (va_index v))) <= size (va_accounts v))%nat);
    [| rewrite length_map, length_seqZ in Hl; lia].
  rewrite <- (size_dom (D := gset Z)), <- (size_list_to_set (C := gset Z)).
  - apply subseteq_size. intros a. rewrite elem_of_list_to_set, list_elem_of_fmap, elem_of_dom.
    intros (j & -> & Hj%elem_of_seqZ). apply Hacc. lia.
  - apply NoDup_fmap_2_strong; [| apply NoDup_seqZ].
    intros x y Hx%elem_of_seqZ Hy%elem_of_seqZ. apply Hinj; lia.
Qed.

Lemma filled_insert v0 seed v :
  seed_ok seed → filled v0 seed v → va_index v <= u32_mod → 2 * Z.of_nat (size (va_accounts v)) + 1 < u32_mod →
  let v' := vault_step 0 salt op_deterministic_insert v in
  fits 0 salt wallet_key v op_deterministic_insert ∧ filled v0 seed v' ∧ va_index v < va_index v' ∧
  va_index v' <= u32_mod ∧ (size (va_accounts v') <= S (size (va_accounts v)))%nat.
Proof.
  intros Hok Hfl Hb Hsz v'. pose proof (filled_size v0 seed v Hok Hfl Hb) as Hle.
  destruct Hok as [Hlow Hinj]. destruct Hfl as [Hu Hs H0 Hacc Hwatch].
  assert (Hfit : fits 0 salt wallet_key v op_deterministic_insert) by (simpl; rewrite Hs; split_and!; [lia | done | done]).
  split; [done |]. unfold v'. simpl. rewrite Hu.
  destruct (next_free_spec (size (va_accounts v)) v (va_index v)) as [Hk Hbelow]; [lia | lia |].
  set (k := next_free _ _ _) in *. assert (Hw : wrap32 (k + 1) = k + 1) by (apply Z.mod_small; lia).
  rewrite Hw. simpl. split; [split; simpl; try done; [lia | |] | split_and!; [lia | lia |]].
  - intros j Hj. rewrite lookup_insert_is_Some'. rewrite Hs.
    destruct (decide (j < va_index v)); [right; apply Hacc; lia |].
    destruct (decide (j = k)) as [-> | ?]; [by left |]. right. rewrite <- Hs. apply Hbelow. lia.
  - intros a. rewrite lookup_insert_Some. intros [[_ ?] | [_ Ha]]; [done | auto].
  - rewrite map_size_insert. case_match; simpl; lia.
Qed.

Lemma insert_count_holds v0 count W w v seed account :
  seed_ok seed → holds W w v → filled v0 seed v → va_index v <= u32_mod →
  2 * (Z.of_nat (size (va_accounts v)) + Z.of_nat count) + 1 < u32_mod →
  ∃ account' W' v', insert_count e count w account W = Done (account', W') ∧ holds W' w v' ∧ filled v0 seed v' ∧
    va_index v + Z.of_nat count <= va_index v' ∧ wn_ledger W' = wn_ledger W.
Proof using WalletCryptoLaws0.
  intros Hok. revert W v account. induction count as [| count IH]; intros W v account Hw Hfl Hb Hsz.
  { exists account, W, v. split_and!; try done. lia. }
  destruct (filled_insert v0 seed v Hok Hfl Hb) as (Hfit & Hfl' & Hlt & Hb' & Hsz'); [lia |].
  destruct (wallet_insert_holds W w v false Hw (fl_unlocked _ _ _ Hfl) Hfit) as (a & W1 & Hins & Hw1 & HL1).
  cbn [insert_count]. rewrite Hins. cbn [mbind run_bind].
  destruct (IH W1 _ a Hw1 Hfl' Hb') as (a' & W' & v' & Hc & H1 & H2 & H3 & H4); [lia |].
  exists a', W', v'. split_and!; try done; [lia | congruence].
Qed.

(** ** Theorem *)

(** C33: Changing the seed without a count restores the accounts of the seed: if the
    ledger knows accounts of the seed only below some index and with no gap wider
    than the search allows, the call ends and the wallet has each of them, with its
    private key unless it was only watched before. *)
Theorem change_seed_finds_accounts fuel W w v seed m :
  let L := wn_ledger W in
  holds W w v → va_unlocked v = true → is_u256 seed → seed_ok seed →
  (∀ j, 0 <= j < u32_mod → used L seed j → j < m) → 0 <= m → no_wide_gap L seed →
  horizon m < Z.of_nat fuel → 2 * (Z.of_nat (size (va_accounts v)) + horizon m) + 1 < u32_mod →
  ∃ account W', change_seed e fuel w seed 0 W = Done (account, W') ∧
    ∀ j, 0 <= j < u32_mod → j = 0 ∨ used L seed j →
      let a := derived_account seed j in
      ws_exists (store_at W' w) a = true ∧
      (va_accounts v !! a ≠ Some watch_only →
       ∃ prv, ws_fetch (store_at W' w) a (we_uninitialised e) = (false, prv) ∧ pub_key prv = a).
Proof using WalletCryptoLaws0.
  intros L Hw Hu Hseed Hok Hm Hm0 Hgap Hfuel Hroom.
  assert (Hhm : m < horizon m) by (unfold horizon; pose proof (Z.div_pos m 64 ltac:(lia) ltac:(lia)); lia).
  unfold change_seed. destruct Hw as [Hx HR].
  set (W0 := set_store w (ws_seed_set seed (store_at W w)) W).
  assert (Hw0 : holds W0 w (va_set_seed seed v)).
  { split; [by apply set_store_objects |]. unfold W0. rewrite store_at_set by done. by apply seed_set_represents. }
  assert (Hsz0 : (size (va_accounts (va_set_seed seed v)) <= size (va_accounts v))%nat)
    by (apply map_subseteq_size, map_filter_subseteq).
  assert (Hfl0 : filled v seed (va_set_seed seed v)) 
    by (split; simpl; try done; [intros; lia | by intros ? [? _]%map_lookup_filter_Some]).
  destruct (filled_insert v seed _ Hok Hfl0) as (Hfit & Hfl1 & Hlt & Hb1 & Hsz1); [done | lia |].
  destruct (wallet_insert_holds W0 w _ true Hw0 (fl_unlocked _ _ _ Hfl0) Hfit) as (a & W1 & Hins & Hw1 & HL1).
  set (v1 := vault_step 0 salt op_deterministic_insert (va_set_seed seed v)) in *.
  rewrite Hins. cbn [mbind run_bind Z.eqb]. unfold deterministic_check.
  assert (HL : wn_ledger W1 = L) by (rewrite HL1; done). rewrite HL.
  destruct (check_loop_spec L seed m Hm ltac:(lia) fuel (store_at W1 w) v1 1 0) as (r & Hr & Hr0 & Hrm & _ & Hno);
    [apply Hw1 | apply Hfl1 | apply Hfl1 | lia | done | lia | intros; lia | lia |].
  change (wrap32 (0 + 1)) with 1. change (wrap32 (0 + 64)) with (horizon 0). rewrite Hr. cbn [mbind run_bind].
  destruct (insert_count_holds v (Z.to_nat r) W1 w v1 seed a Hok Hw1 Hfl1 Hb1) as (a' & W' & v' & Hc & Hw' & Hfl' & Hidx & _);
    [lia |].
  exists a', W'. split; [done |]. intros j Hj Hused.
  assert (Hjr : j <= r) by (destruct Hused as [-> | Hused]; [lia | eapply search_complete; [done | done | done | lia | done]]).
  destruct (fl_accounts _ _ _ Hfl' j) as [k Hk]; [simpl in Hlt; lia |].
  destruct Hw' as [_ HR']. set (da := derived_account seed j) in *. split; [apply (exists_account _ _ _ _ _ HR'); by eexists |]. intros Hnw.
  pose proof (fetch_reads_vault salt wallet_key _ _ da (we_uninitialised e) HR') as Hf.
  unfold vault_fetch in Hf. rewrite (fl_unlocked _ _ _ Hfl') in Hf. rewrite Hk in Hf.
  assert (Hlow : special_count <= da) by (apply Hok; lia). specialize (Hf Hlow).
  destruct k as [p | i |]; [by eauto | by eauto |]. exfalso. by apply Hnw, (fl_watched _ _ _ Hfl').
Qed.
End seeds.
