(* ===== verification/Bootstrap.v ===== *)
(** * Bootstrap: frontier requests and bulk pulls ([node/bootstrap])

    A node that is behind asks another one for its frontiers, compares them with
    its own accounts, and pulls the chains that differ.  [frontier_req_server] and
    [bulk_pull_server] answer, [frontier_req_client] and [bulk_pull_client] ask, on
    behalf of a legacy attempt ([bootstrap_attempt_legacy]).

    What is written to a connection is a list of bytes, and what is read from it
    too.  Waiting for the block processor and measuring the speed of a peer are
    left out; a peer that is found too slow is an argument.  The ledger does not
    change while one answer is written or read. *)

From S2P Require Import Prelude Blocks Numbers BlockCodec Common RepWeights EpochsWork Store Ledger Rollback.

Section bootstrap.
Context `{Crypto}.

(** ** Bulk pulls: the server *)

(** [bulk_pull], as far as it is read. *)
Record bulk_pull := BulkPull {
  bp_start : Z;
  bp_end : Z;
  bp_count : Z;
  bp_count_present : bool;
}.

Record bulk_pull_server := BulkPullServer {
  bs_request : bulk_pull;
  bs_current : Z;
  bs_include_start : bool;
  bs_max_count : Z;
  bs_sent_count : Z;
}.

(** [set_current_end]: where to begin and to end. *)
Definition set_current_end (L : ledger) (request : bulk_pull) : outcome bulk_pull_server :=
  let s := lg_store L in
  let start := bp_start request in
  let end_l := if block_exists s (bp_end request) then bp_end request else 0 in
  let request := BulkPull start end_l (bp_count request) (bp_count_present request) in
  let max_count := if bp_count_present request then bp_count request else 0 in
  if block_exists s start then Ok (BulkPullServer request start true max_count 0) else
  match account_get s start with
  | None => Ok (BulkPullServer request end_l false max_count 0)
  | Some info =>
      if negb (end_l =? 0) then
        account ← block_account s end_l;
        Ok (BulkPullServer request (if account =? start then ai_head info else end_l) false max_count 0)
      else Ok (BulkPullServer request (ai_head info) false max_count 0)
  end.

(** [get_next]. *)
Definition bulk_pull_get_next (L : ledger) (sv : bulk_pull_server) : option block * bulk_pull_server :=
  let request := bs_request sv in
  let at_end := bs_current sv =? bp_end request in
  let set_current_to_end := at_end && bs_include_start sv in
  let send_current := negb at_end || set_current_to_end in
  let send_current :=
    if negb (bs_max_count sv =? 0) && (bs_max_count sv <=? bs_sent_count sv) then false else send_current in
  if send_current then
    let result := fst <$> block_get (lg_store L) (bs_current sv) in
    let current :=
      match result with
      | Some b => if set_current_to_end then bp_end request
                  else if negb (previous b =? 0) then previous b else bp_end request
      | None => bp_end request
      end in
    (result, BulkPullServer request current false (bs_max_count sv) (wrap32 (bs_sent_count sv + 1)))
  else (None, BulkPullServer request (bs_current sv) false (bs_max_count sv) (bs_sent_count sv)).

(** [send_finished]: a byte that is no block type. *)
Definition no_block : bytes := to_be 1 (block_type_code bt_not_a_block).

(** [send_next]: what is written, and the server if it goes on. *)
Definition bulk_pull_send_next (L : ledger) (sv : bulk_pull_server) : bytes * option bulk_pull_server :=
  match bulk_pull_get_next L sv with
  | (Some b, sv) => (serialize_block b, Some sv)
  | (None, _) => (no_block, None)
  end.

(** All that is written ([sent_action] goes on with [send_next]). *)
Fixpoint bulk_pull_send (fuel : nat) (L : ledger) (sv : bulk_pull_server) : run_result bytes :=
  match fuel with
  | O => OutOfFuel
  | S fuel =>
      match bulk_pull_send_next L sv with
      | (out, Some sv) => rest ← bulk_pull_send fuel L sv; Done (out ++ rest)
      | (out, None) => Done out
      end
  end.

Definition bulk_pull_response (fuel : nat) (L : ledger) (request : bulk_pull) : run_result bytes :=
  sv ← lift (set_current_end L request); bulk_pull_send fuel L sv.

(** ** Bulk pulls: the client *)

Record pull_info := PullInfo {
  pl_account_or_head : Z;
  pl_head : Z;
  pl_head_original : Z;
  pl_end : Z;
  pl_count : Z;
  pl_attempts : Z;
  pl_processed : Z;
  pl_retry_limit : Z;
  pl_bootstrap_id : Z;
}.

(** The constructor. *)
Definition pull_info_new (account_or_head_a head_a end_a bootstrap_id_a count_a retry_limit_a : Z) : pull_info :=
  PullInfo account_or_head_a head_a head_a end_a count_a 0 0 retry_limit_a bootstrap_id_a.

(** The client, the blocks it has given to the block processor with the account they
    are said to be of, and whether it has returned its connection. *)
Record bulk_pull_client := BulkPullClient {
  bc_pull : pull_info;
  bc_expected : Z;
  bc_known_account : Z;
  bc_pull_blocks : Z;
  bc_unexpected_count : Z;
  bc_network_error : bool;
  bc_added : list (block * Z);
  bc_pooled : bool;
}.

(** [request]. *)
Definition bulk_pull_request (p : pull_info) : bulk_pull :=
  BulkPull
    (if (pl_head p =? pl_head_original p) && (pl_attempts p mod 4 <? 3) then pl_account_or_head p else pl_head p)
    (pl_end p) (pl_count p) (negb (pl_count p =? 0)).
Definition bulk_pull_client_new (p : pull_info) : bulk_pull_client :=
  BulkPullClient p (pl_head p) 0 0 0 false [] false.

(** What the client reads of its node: the work thresholds, the limits of bootstrap. *)
Record pull_env := PullEnv {
  pe_work : work_thresholds;
  pe_disable_legacy_bootstrap : bool;
  pe_lazy_retry_limit : Z;
  pe_hard_stop : bool;
  pe_pending_stop : bool;
}.

Definition pull_count_per_check : Z := 8 * 1024.

(** [bootstrap_attempt::process_block]: true stops the pull, otherwise the block is
    added to the block processor. *)
Definition attempt_process_block (L : ledger) (b : block) (pull_blocks_processed : Z) : bool :=
  (pull_blocks_processed mod pull_count_per_check =? 0) && block_or_pruned_exists L (block_hash b).

(** [received_block] with a block whose work passes: the client, and whether it reads on. *)
Definition received_block (e : pull_env) (L : ledger) (b : block) (c : bulk_pull_client) : bulk_pull_client * bool :=
  let p := bc_pull c in
  let unconfirmed_account_head :=
    pe_disable_legacy_bootstrap e && (bc_pull_blocks c =? 0) && (pl_retry_limit p <=? pe_lazy_retry_limit e)
    && (bc_expected c =? pl_account_or_head p) && (account b =? pl_account_or_head p) in
  let block_expected := (block_hash b =? bc_expected c) || unconfirmed_account_head in
  let expected := if block_expected then previous b else bc_expected c in
  let unexpected_count := if block_expected then bc_unexpected_count c else wrap64 (bc_unexpected_count c + 1) in
  let known_account := if (bc_pull_blocks c =? 0) && block_expected then account b else bc_known_account c in
  let pull_blocks := wrap64 (bc_pull_blocks c + 1) in
  let stop_pull := attempt_process_block L b pull_blocks in
  let added := if stop_pull then bc_added c else bc_added c ++ [(b, known_account)] in
  let go_on := negb stop_pull && negb (pe_hard_stop e) in
  (BulkPullClient p expected known_account pull_blocks unexpected_count (bc_network_error c) added
     (bc_pooled c || negb go_on && stop_pull && block_expected),
   go_on && (unexpected_count <? 16384)).

(** The connection failed. *)
Definition set_network_error (c : bulk_pull_client) : bulk_pull_client :=
  BulkPullClient (bc_pull c) (bc_expected c) (bc_known_account c) (bc_pull_blocks c) (bc_unexpected_count c) true
    (bc_added c) (bc_pooled c).
Definition pool_connection (c : bulk_pull_client) : bulk_pull_client :=
  BulkPullClient (bc_pull c) (bc_expected c) (bc_known_account c) (bc_pull_blocks c) (bc_unexpected_count c)
    (bc_network_error c) (bc_added c) true.

(** [receive_block] and [received_type]: a type byte, and the block that follows it. *)
Fixpoint receive_block_loop (fuel : nat) (e : pull_env) (L : ledger) (s : bytes) (c : bulk_pull_client) :
    run_result bulk_pull_client :=
  match fuel with
  | O => OutOfFuel
  | S fuel =>
      match read_be 1 s with
      | None => Done (set_network_error c)
      | Some (code, s) =>
          match block_type_of_code code with
          | Some bt_not_a_block =>
              Done (if negb (pe_pending_stop e) &&
                       ((bc_expected c =? pl_end (bc_pull c)) ||
                        negb (pl_count (bc_pull c) =? 0) && (pl_count (bc_pull c) =? bc_pull_blocks c))
                    then pool_connection c else c)
          | None | Some bt_invalid => Done c
          | Some type =>
              if decide (length s < block_size type)%nat then Done (set_network_error c) else
              match deserialize_block_typed (Some type) (take (block_size type) s) with
              | Some (b, _) =>
                  if negb (validate_entry (pe_work e) b) then
                    let '(c, go_on) := received_block e L b c in
                    if (go_on : bool) then receive_block_loop fuel e L (drop (block_size type) s) c else Done c
                  else Done c
              | None => Done c
              end
          end
      end
  end.

(** The destructor: the pull that is queued again, if the end was not reached. *)
Definition bulk_pull_client_end (c : bulk_pull_client) : option pull_info :=
  let p := bc_pull c in
  if negb (bc_expected c =? pl_end p) && negb (bc_expected c =? 0) then
    Some (PullInfo (pl_account_or_head p) (bc_expected c) (pl_head_original p) (pl_end p) (pl_count p) (pl_attempts p)
            (wrap64 (pl_processed p + (bc_pull_blocks c - bc_unexpected_count c))) (pl_retry_limit p)
            (pl_bootstrap_id p))
  else None.

(** ** Frontier requests: the server *)

(** The rows of a table from a key on, in the order of the keys. *)
Definition row_le {A} (x y : Z * A) : Prop := x.1 <= y.1.
#[global] Instance row_le_dec {A} : RelDecision (row_le (A := A)).
Proof. intros x y. unfold row_le. apply _. Defined.
Definition rows_from {A} (m : gmap Z A) (k : Z) : list (Z * A) :=
  merge_sort row_le (filter (λ x, k <= x.1) (map_to_list m)).

(** The loop that fills the queue of accounts, [max_size] at most. *)
Definition max_size : nat := 128.
Fixpoint fill_accounts {A} (pick : A → option Z) (rows : list (Z * A)) (accounts : list (Z * Z)) : list (Z * Z) :=
  match rows with
  | [] => accounts
  | (account, info) :: rows =>
      if decide (length accounts = max_size) then accounts else
      fill_accounts pick rows
        (match pick info with Some frontier => accounts ++ [(account, frontier)] | None => accounts end)
  end.

(** An empty record marks the end of the table. *)
Definition mark_end (accounts : list (Z * Z)) : list (Z * Z) :=
  if decide (length accounts = max_size) then accounts else accounts ++ [(0, 0)].

(** [frontier_req], as far as it is read. *)
Record frontier_req := FrontierReq {
  fq_start : Z;
  fq_age : Z;
  fq_count : Z;
  fq_only_confirmed : bool;
}.

Record frontier_req_server := FrontierReqServer {
  fs_current : Z;
  fs_frontier : Z;
  fs_accounts : list (Z * Z);
  fs_count : Z;
}.

(** [next]; [now] is the time in seconds. *)
Definition server_rows (now : Z) (L : ledger) (request : frontier_req) (current : Z) : list (Z * Z) :=
  let first := wrap256 (current + 1) in
  let disable_age_filter := fq_age request =? u32_max in
  if negb (fq_only_confirmed request) then
    fill_accounts (λ info, if disable_age_filter || (wrap64 (now - ai_modified info) <=? fq_age request)
                           then Some (ai_head info) else None)
      (rows_from (st_accounts (lg_store L)) first) []
  else
    fill_accounts (λ info, if negb (ch_frontier info =? 0) then Some (ch_frontier info) else None)
      (rows_from (st_confirmation_height (lg_store L)) first) [].

Definition frontier_server_next (now : Z) (L : ledger) (request : frontier_req) (sv : frontier_req_server) :
    frontier_req_server :=
  match (match fs_accounts sv with [] => mark_end (server_rows now L request (fs_current sv)) | l => l end) with
  | (account, frontier) :: accounts => FrontierReqServer account frontier accounts (fs_count sv)
  | [] => sv
  end.

(** The constructor. *)
Definition frontier_server_new (now : Z) (L : ledger) (request : frontier_req) : frontier_req_server :=
  frontier_server_next now L request (FrontierReqServer (wrap256 (fq_start request - 1)) 0 [] 0).

(** [send_next], with the count of [sent_action]. *)
Definition frontier_pair (account frontier : Z) : bytes := to_be 32 account ++ to_be 32 frontier.
Definition frontier_send_next (now : Z) (L : ledger) (request : frontier_req) (sv : frontier_req_server) :
    bytes * option frontier_req_server :=
  if negb (fs_current sv =? 0) && (fs_count sv <? fq_count request) then
    let sv' := frontier_server_next now L request sv in
    (frontier_pair (fs_current sv) (fs_frontier sv),
     Some (FrontierReqServer (fs_current sv') (fs_frontier sv') (fs_accounts sv') (fs_count sv' + 1)))
  else (frontier_pair 0 0, None).

Fixpoint frontier_send (fuel : nat) (now : Z) (L : ledger) (request : frontier_req) (sv : frontier_req_server) :
    run_result bytes :=
  match fuel with
  | O => OutOfFuel
  | S fuel =>
      match frontier_send_next now L request sv with
      | (out, Some sv) => rest ← frontier_send fuel now L request sv; Done (out ++ rest)
      | (out, None) => Done out
      end
  end.
Definition frontier_response (fuel : nat) (now : Z) (L : ledger) (request : frontier_req) : run_result bytes :=
  frontier_send fuel now L request (frontier_server_new now L request).

(** ** Frontier requests: the client *)

Record frontier_req_client := FrontierReqClient {
  fc_current : Z;
  fc_frontier : Z;
  fc_accounts : list (Z * Z);
  fc_count : Z;
  fc_last_account : Z;
  fc_bulk_push_cost : Z;
  fc_frontiers_age : Z;
  fc_count_limit : Z;
}.

(** [bootstrap_attempt_legacy], as far as frontier requests change it. *)
Record legacy_attempt := LegacyAttempt {
  la_frontier_pulls : list pull_info;
  la_bulk_push_targets : list (Z * Z);
  la_start_account : Z;
}.

Definition add_frontier (p : pull_info) (at_l : legacy_attempt) : legacy_attempt :=
  if negb (pl_head p =? 0)
  then LegacyAttempt (la_frontier_pulls at_l ++ [p]) (la_bulk_push_targets at_l) (la_start_account at_l)
  else at_l.
Definition add_bulk_push_target (head end_a : Z) (at_l : legacy_attempt) : legacy_attempt :=
  LegacyAttempt (la_frontier_pulls at_l) (la_bulk_push_targets at_l ++ [(head, end_a)]) (la_start_account at_l).
Definition set_start_account (start_account_a : Z) (at_l : legacy_attempt) : legacy_attempt :=
  LegacyAttempt (la_frontier_pulls at_l) (la_bulk_push_targets at_l) start_account_a.

(** [next]: the following account of the own ledger. *)
Definition frontier_client_next (L : ledger) (c : frontier_req_client) : frontier_req_client :=
  match (match fc_accounts c with
         | [] => mark_end (fill_accounts (λ info, Some (ai_head info))
                             (rows_from (st_accounts (lg_store L)) (wrap256 (fc_current c + 1))) [])
         | l => l
         end) with
  | (account, frontier) :: accounts =>
      FrontierReqClient account frontier accounts (fc_count c) (fc_last_account c) (fc_bulk_push_cost c)
        (fc_frontiers_age c) (fc_count_limit c)
  | [] => c
  end.

(** [run]: the request, and the client that waits for its answer. *)
Definition frontier_run_request (start_account_a frontiers_age_a count_a : Z) : frontier_req :=
  FrontierReq (if (start_account_a =? 0) || (start_account_a =? u256_mod - 1) then start_account_a
               else start_account_a + 1) frontiers_age_a count_a false.
Definition frontier_run (L : ledger) (start_account_a frontiers_age_a count_a : Z) : frontier_req_client :=
  frontier_client_next L
    (FrontierReqClient start_account_a 0 [] 0 (u256_mod - 1) 0 frontiers_age_a count_a).

Definition bulk_push_cost_limit : Z := 200.
Definition bulk_push_available (c : frontier_req_client) : bool :=
  (fc_bulk_push_cost c <? bulk_push_cost_limit) && (fc_frontiers_age c =? u32_max).
Definition add_push_cost (n : Z) (c : frontier_req_client) : frontier_req_client :=
  FrontierReqClient (fc_current c) (fc_frontier c) (fc_accounts c) (fc_count c) (fc_last_account c)
    (wrap64 (fc_bulk_push_cost c + n)) (fc_frontiers_age c) (fc_count_limit c).

(** [unsynced]. *)
Definition unsynced (head end_a : Z) (st : frontier_req_client * legacy_attempt) :
    frontier_req_client * legacy_attempt :=
  let '(c, at_l) := st in
  if bulk_push_available c
  then (add_push_cost (if end_a =? 0 then 2 else 1) c, add_bulk_push_target head end_a at_l)
  else st.

(** The two loops over own accounts that the peer does not have: up to the account it
    named, and while they may be pushed. *)
Fixpoint own_accounts (fuel : nat) (L : ledger) (more : frontier_req_client → bool)
    (st : frontier_req_client * legacy_attempt) : run_result (frontier_req_client * legacy_attempt) :=
  match fuel with
  | O => OutOfFuel
  | S fuel =>
      if negb (fc_current st.1 =? 0) && more st.1 then
        let '(c, at_l) := unsynced (fc_frontier st.1) 0 st in
        own_accounts fuel L more (frontier_client_next L c, at_l)
      else Done st
  end.

(** What the promise of the client gets, or that the next pair is read. *)
Inductive frontier_status := fs_receive | fs_done (error : bool).

Context (frontier_retry_limit incremental_id : Z).

Definition frontier_pull (account latest end_a : Z) : pull_info :=
  pull_info_new account latest end_a incremental_id 0 frontier_retry_limit.

(** The account of the peer, compared with the own one that is reached. *)
Definition compare_frontier (L : ledger) (account latest : Z) (st : frontier_req_client * legacy_attempt) :
    frontier_req_client * legacy_attempt :=
  let '(c, at_l) := st in
  if negb (fc_current c =? 0) then
    if account =? fc_current c then
      let '(c, at_l) :=
        if latest =? fc_frontier c then (c, at_l)
        else if block_or_pruned_exists L latest then unsynced (fc_frontier c) latest (c, at_l)
        else (add_push_cost 5 c, add_frontier (frontier_pull account latest (fc_frontier c)) at_l) in
      (frontier_client_next L c, at_l)
    else (c, add_frontier (frontier_pull account latest 0) at_l)
  else (c, add_frontier (frontier_pull account latest 0) at_l).

(** [received_frontier]; [too_slow] is the answer of the measurement of speed. *)
Definition received_frontier (fuel : nat) (L : ledger) (too_slow : bool) (account latest : Z)
    (st : frontier_req_client * legacy_attempt) :
    run_result (frontier_req_client * legacy_attempt * frontier_status) :=
  let c := st.1 in
  let c := FrontierReqClient (fc_current c) (fc_frontier c) (fc_accounts c) (wrap32 (fc_count c + 1))
             (fc_last_account c) (fc_bulk_push_cost c) (fc_frontiers_age c) (fc_count_limit c) in
  if too_slow then Done (c, st.2, fs_done true) else
  if negb (account =? 0) && (fc_count c <=? fc_count_limit c) then
    let c := FrontierReqClient (fc_current c) (fc_frontier c) (fc_accounts c) (fc_count c) account
               (fc_bulk_push_cost c) (fc_frontiers_age c) (fc_count_limit c) in
    st ← own_accounts fuel L (λ c, fc_current c <? account) (c, st.2);
    let '(c, at_l) := compare_frontier L account latest st in
    Done (c, at_l, fs_receive)
  else if fc_count c <=? fc_count_limit c then
    '(c, at_l) ← own_accounts fuel L bulk_push_available (c, st.2);
    Done (c, set_start_account (u256_mod - 1) at_l, fs_done false)
  else Done (c, set_start_account (fc_last_account c) st.2, fs_done false).

(** [receive_frontier]: pairs of 64 bytes until the promise is set; a connection that
    ends before leaves it without a value. *)
Fixpoint receive_frontier (fuel inner : nat) (L : ledger) (too_slow : Z → bool) (s : bytes)
    (st : frontier_req_client * legacy_attempt) :
    run_result (frontier_req_client * legacy_attempt * option bool) :=
  match fuel with
  | O => OutOfFuel
  | S fuel =>
      match ('(account, s) ← read_be 32 s; '(latest, s) ← read_be 32 s; Some (account, latest, s)) with
      | None => Done (st, None)
      | Some (account, latest, s) =>
          '(c, at_l, status) ← received_frontier inner L (too_slow (fc_count st.1)) account latest st;
          match status with
          | fs_receive => receive_frontier fuel inner L too_slow s (c, at_l)
          | fs_done error => Done (c, at_l, Some error)
          end
      end
  end.

(** The outcome of [request_frontier]: pulls of a failed request are dropped. *)
Definition request_frontier (fuel inner : nat) (L : ledger) (too_slow : Z → bool) (frontiers_age_a count_a : Z)
    (s : bytes) (at_l : legacy_attempt) : run_result (bool * legacy_attempt) :=
  '(_, at_l, promise) ← receive_frontier fuel inner L too_slow s
    (frontier_run L (la_start_account at_l) frontiers_age_a count_a, at_l);
  let error := default true promise in
  Done (error, if error then LegacyAttempt [] (la_bulk_push_targets at_l) (la_start_account at_l) else at_l).
End bootstrap.

#[global] Arguments frontier_pair _ _ : simpl never.
