(* ===== verification/BootstrapPull.v ===== *)
(** * A bulk pull transfers a chain

    What [bulk_pull_server] writes for an account is its chain from the head down to
    the requested end, and [bulk_pull_client] hands exactly these blocks to the
    block processor. *)

From S2P Require Import Prelude Blocks Numbers BlockCodec Common Vote RepWeights EpochsWork Store Ledger Rollback.
From S2P Require Import LedgerApply LedgerInvariant LedgerSteps LedgerTheorems RollbackTheorems Bootstrap.

(** ** Ledgers that can be served *)

Section servable.
Context {HC : Crypto} (work : work_thresholds).

(** The chain of the account from a block down to the block that opened it. *)
Inductive chain_down (s : store) (a : Z) : Z → list block → Prop :=
| chain_open k e :
    st_blocks s !! k = Some e → account_calculated e = a → previous e.1 = 0 → chain_down s a k [e.1]
| chain_next k e l :
    st_blocks s !! k = Some e → account_calculated e = a → previous e.1 ≠ 0 →
    chain_down s a (previous e.1) l → chain_down s a k (e.1 :: l).

(** Blocks can be written and pass the checks of the network, and chains are whole. *)
Record servable (L : ledger) : Prop := {
  sv_inv : ledger_inv L;
  sv_wf : ∀ k e, st_blocks (lg_store L) !! k = Some e → block_wf e.1 ∧ validate_entry work e.1 = false;
  sv_chain : ∀ k e, st_blocks (lg_store L) !! k = Some e → ∃ l, chain_down (lg_store L) (account_calculated e) k l;
  sv_whole : ∀ a i, st_accounts (lg_store L) !! a = Some i → ∃ l, chain_down (lg_store L) a (ai_head i) l ∧
    ∀ k e, st_blocks (lg_store L) !! k = Some e → account_calculated e = a → e.1 ∈ l;
  sv_accounts : ∀ a i, st_accounts (lg_store L) !! a = Some i → is_u256 a;
  sv_pruned : st_pruned (lg_store L) = ∅;
}.

Section mono.
Context (s s' : store).
Context (Hold : ∀ k e, st_blocks s !! k = Some e → ∃ e', st_blocks s' !! k = Some e' ∧ same_entry e e').

Lemma chain_down_mono a k l : chain_down s a k l → chain_down s' a k l.
Proof using Hold.
  induction 1 as [k e He Ha Hp | k e l He Ha Hp _ IH]; destruct (Hold k e He) as (e' & He' & Hs);
    rewrite <- (same_entry_block _ _ Hs) in *.
  - apply chain_open; [done | by rewrite (same_entry_account _ _ Hs) | done].
  - apply chain_next; [done | by rewrite (same_entry_account _ _ Hs) | done | done].
Qed.
End mono.

Section reachable.
Context (constants : ledger_constants) (Hwork : work = lk_work constants).
Context (H1 : wt_epoch_1 work <= u64_max) (H2 : wt_epoch_2 work <= u64_max) (H3 : wt_epoch_2_receive work <= u64_max).

Lemma init_servable t1 t2 L :
  genesis_ok constants → block_wf (lk_genesis constants) → validate_entry work (lk_genesis constants) = false →
  initialize constants t1 t2 = Ok L → servable L.
Proof using.
  intros Hg Hwf Hv Hi. destruct (initialize_ok constants t1 t2 Hg) as (L0 & Hi' & HL).
  rewrite Hi in Hi'. injection Hi' as <-. destruct Hg as [Hg Hnz]. unfold initialize, genesis_sideband in Hi.
  destruct (lk_genesis constants) as [| | h s w | |] eqn:Eg; try done. unfold block_put in Hi. simpl in Hi. simplify_eq/=.
  split; [done | | | | | done].
  - intros k e. simpl. rewrite lookup_insert_Some. intros [[<- <-] | [_ ?]]; [done | by simplify_map_eq].
  - intros k e. simpl. rewrite lookup_insert_Some. intros [[<- <-] | [_ ?]]; [| by simplify_map_eq].
    eexists. eapply chain_open; [apply lookup_insert_eq | done | done].
  - intros a i. simpl. rewrite lookup_insert_Some. intros [[<- <-] | [_ ?]]; [| by simplify_map_eq].
    eexists. split.
    + eapply chain_open; [apply lookup_insert_eq | | done]. unfold account_calculated. simpl.
      by rewrite (proj2 (Z.eqb_neq _ _) Hg).
    + intros k e. rewrite lookup_insert_Some. intros [[<- <-] | [_ ?]]; [| by simplify_map_eq]. intros _. apply list_elem_of_here.
  - intros a i. simpl. rewrite lookup_insert_Some. intros [[<- _] | [_ ?]]; [| by simplify_map_eq].
    by destruct Hwf as (_ & _ & _ & _ & ?).
Qed.

(** An account that is opened is named by its block. *)
Lemma opened_account L b v a sb new eff w :
  accepted constants L b v a sb new eff w → block_wf b → has_predecessor b = false → is_u256 a ∧ previous b = 0.
Proof using.
  clear Hwork H1 H2 H3. intros Hacc Hwf Hp. pose proof (ac_step _ _ _ _ _ _ _ _ _ Hacc) as HV.
  pose proof (vs_entry_account _ _ _ _ _ _ _ HV) as Ha. pose proof (vs_account _ _ _ _ _ _ _ HV) as Hnz.
  destruct b as [h ? ? | h ? ? | h ? ? | h ? ? | h ? ?]; simpl in *; try done;
    unfold account_calculated in Ha; simpl in Ha; destruct Hwf as (_ & _ & Hf); destruct_and?.
  - split; [| done]. destruct (Z.eqb_spec (open_account h) 0); simplify_eq; done.
  - split; [| lia]. destruct (Z.eqb_spec (state_account h) 0); simplify_eq; done.
Qed.

Section step.
Context (L : ledger) (b : block) (v : signature_verification) (a : Z) (sb : block_sideband) (new : account_info) (eff : effect)
  (w : rep_weights).
Context (HS : servable L) (Hwf : block_wf b) (Hacc : accepted constants L b v a sb new eff w) (Hfirst : first_ok L b a).

Abbreviation L' := (step_block L b sb a new eff w).

Lemma step_facts :
  valid_step L b sb a new eff w ∧ st_blocks (lg_store L) !! block_hash b = None ∧
  (has_predecessor b = true → is_Some (st_blocks (lg_store L) !! previous b)).
Proof using Hacc.
  pose proof (ac_step _ _ _ _ _ _ _ _ _ Hacc) as HV.
  split_and!; [done | by eapply step_fresh | apply HV].
Qed.

Lemma step_mono a' k l : chain_down (lg_store L) a' k l → chain_down (lg_store L') a' k l.
Proof using Hacc.
  destruct step_facts as (_ & ? & ?). apply chain_down_mono. intros k' e. by apply new_blocks_other.
Qed.

(** The new block heads the chain of its account, which holds all its blocks. *)
Lemma step_chain :
  ∃ l, chain_down (lg_store L') a (block_hash b) l ∧
    ∀ k e, st_blocks (lg_store L') !! k = Some e → account_calculated e = a → e.1 ∈ l.
Proof using HS Hwf Hacc Hfirst.
  pose proof (sv_inv _ HS) as HL. destruct step_facts as (HV & Hfresh & Hprev).
  assert (Hself : st_blocks (lg_store L') !! block_hash b = Some (b, sideband_stored (block_type_of b) sb))
    by (by apply new_blocks_self).
  destruct (st_accounts (lg_store L) !! a) as [i |] eqn:Hi.
  - pose proof (vs_position _ _ _ _ _ _ _ HV i Hi) as Hpos. pose proof (inv_accounts L HL _ _ Hi) as Hok.
    destruct (sv_whole _ HS a i Hi) as (l & Hl & Hin). exists (b :: l). split.
    + eapply (chain_next _ _ _ (b, _)); [exact Hself | apply HV | simpl; rewrite Hpos; apply Hok |].
      simpl. rewrite Hpos. by apply step_mono.
    + intros k e [[-> ->] | (e0 & He0 & Hs)]%new_blocks_inv Ha; [apply list_elem_of_here | | done | done].
      rewrite (same_entry_account _ _ Hs) in Ha. rewrite (same_entry_block _ _ Hs).
      by eapply list_elem_of_further, Hin.
  - destruct (opened_account _ _ _ _ _ _ _ _ Hacc Hwf (Hfirst Hi)) as [_ Hp]. exists [b]. split.
    + eapply (chain_open _ _ _ (b, _)); [exact Hself | apply HV | done].
    + intros k e [[-> ->] | (e0 & He0 & Hs)]%new_blocks_inv Ha; [apply list_elem_of_here | | done | done].
      rewrite (same_entry_account _ _ Hs) in Ha. destruct (inv_blocks L HL _ _ He0) as (_ & _ & [i0 Hi0]). congruence.
Qed.

Lemma step_servable : servable L'.
Proof using HS Hwf Hacc Hfirst Hwork H1 H2 H3.
  pose proof (sv_inv _ HS) as HL. destruct step_facts as (HV & Hfresh & Hprev). destruct step_chain as (lb & Hlb & Hinb).
  split; [by apply step_block_inv | | | | | apply (sv_pruned _ HS)].
  - intros k e [[-> ->] | (e0 & He0 & Hs)]%new_blocks_inv; [| | done | done].
    + split; [done |]. eapply entry_work_is_necessary; [done.. | | rewrite Hwork; apply Hacc].
      intros Ht. apply (ac_legacy_epoch _ _ _ _ _ _ _ _ _ Hacc). by destruct b.
    + rewrite (same_entry_block _ _ Hs). by apply (sv_wf _ HS k).
  - intros k e [[-> ->] | (e0 & He0 & Hs)]%new_blocks_inv; [| | done | done].
    + rewrite (vs_entry_account _ _ _ _ _ _ _ HV). by exists lb.
    + rewrite (same_entry_account _ _ Hs). destruct (sv_chain _ HS _ _ He0) as [l Hl].
      exists l. by apply step_mono.
  - intros a' i'. simpl. rewrite lookup_insert_Some. intros [[<- <-] | [Hne Hi]].
    + rewrite (vs_head _ _ _ _ _ _ _ HV). by exists lb.
    + destruct (sv_whole _ HS a' i' Hi) as (l & Hl & Hin). exists l. split; [by apply step_mono |].
      intros k e [[-> ->] | (e0 & He0 & Hs)]%new_blocks_inv Ha; [| | done | done].
      * exfalso. apply Hne. rewrite <- Ha. symmetry. apply HV.
      * rewrite (same_entry_account _ _ Hs) in Ha. rewrite (same_entry_block _ _ Hs). by eapply Hin.
  - intros a' i. simpl. rewrite lookup_insert_Some. intros [[<- _] | [_ Hi]]; [| by eapply (sv_accounts _ HS)].
    destruct (st_accounts (lg_store L) !! a) as [i0 |] eqn:Hi0; [by eapply (sv_accounts _ HS) |].
    by apply (opened_account _ _ _ _ _ _ _ _ Hacc Hwf (Hfirst Hi0)).
Qed.
End step.

(** Every ledger a node reaches by processing blocks can be served. *)
Lemma reachable_servable L :
  block_wf (lk_genesis constants) → validate_entry work (lk_genesis constants) = false →
  chain_reachable constants L → servable L.
Proof using H1 H2 H3 Hwork.
  intros Hwf Hv. induction 1 as [t1 t2 L Hg _ Hi | L b v t1 t2 r L' _ IH Hep Hb Hnz Hp]; [by eapply init_servable |].
  destruct (process_step constants L (sv_inv _ IH) b v t1 t2 Hb Hnz)
    as [(r' & Hr & _) | (a & sb & new & eff & w & v' & Hacc & Hr)]; rewrite Hr in Hp; simplify_eq; [done |].
  eapply step_servable; [done | done | done | by eapply accepted_first_ok].
Qed.
End reachable.
End servable.

(** ** The answer of the server *)

Section answer.
Context {HC : Crypto}.

(** The blocks of a chain above a block. *)
Fixpoint above (end_a : Z) (l : list block) : list block :=
  match l with
  | [] => []
  | b :: l => if block_hash b =? end_a then [] else b :: above end_a l
  end.

(** Blocks and the end mark, as they are written. *)
Definition wire (l : list block) : bytes := concat (map serialize_block l) ++ no_block.

Lemma wire_cons b l : wire (b :: l) = serialize_block b ++ wire l.
Proof. unfold wire. simpl. by rewrite app_assoc. Qed.

Lemma send_at_end fuel L r n : (0 < fuel)%nat →
  bulk_pull_send fuel L (BulkPullServer r (bp_end r) false 0 n) = Done (wire []).
Proof.
  intros Hf. destruct fuel as [| fuel]; [lia |]. cbn [bulk_pull_send].
  unfold bulk_pull_send_next, bulk_pull_get_next. cbn [bs_current bs_request bs_include_start bs_max_count].
  rewrite (Z.eqb_refl (bp_end r)). reflexivity.
Qed.

Lemma send_chain L a k l r n fuel :
  ledger_inv L → chain_down (lg_store L) a k l → (length l < fuel)%nat →
  bulk_pull_send fuel L (BulkPullServer r k false 0 n) = Done (wire (above (bp_end r) l)).
Proof.
  intros HL Hc. revert n fuel. induction Hc as [k e He Ha Hp | k e l He Ha Hp _ IH]; intros n fuel Hf;
    destruct (inv_blocks L HL k e He) as (Hk0 & Hk & _); simpl in Hf; destruct fuel as [| fuel]; try lia;
    cbn [above]; rewrite <- Hk; destruct (Z.eqb_spec k (bp_end r)) as [-> | Hne];
    try (apply send_at_end; lia); cbn [bulk_pull_send]; unfold bulk_pull_send_next, bulk_pull_get_next;
    cbn [bs_current bs_request bs_include_start bs_max_count]; rewrite (proj2 (Z.eqb_neq _ _) Hne);
    unfold block_get; rewrite He; simpl.
  - rewrite Hp. simpl. rewrite send_at_end by lia. simpl. by rewrite wire_cons.
  - rewrite (proj2 (Z.eqb_neq _ _) Hp). simpl. rewrite IH by lia. simpl. by rewrite wire_cons.
Qed.

(** What is sent of a chain for an end that is asked for: nothing if the end is a block
    of another account, everything if it is unknown. *)
Definition pull_answer (s : store) (a end_a : Z) (l : list block) : list block :=
  match st_blocks s !! end_a with
  | Some e => if account_calculated e =? a then above end_a l else []
  | None => l
  end.

Lemma chain_down_blocks s a k l : chain_down s a k l → Forall (λ b, ∃ k e, st_blocks s !! k = Some e ∧ b = e.1) l.
Proof. induction 1; repeat constructor; eauto. Qed.

Lemma above_zero L l :
  ledger_inv L → Forall (λ b, ∃ k e, st_blocks (lg_store L) !! k = Some e ∧ b = e.1) l → above 0 l = l.
Proof.
  intros HL. induction 1 as [| b l (k & e & He & ->) _ IH]; [done |]. simpl.
  destruct (inv_blocks L HL k e He) as (Hk0 & Hk & _). rewrite <- Hk, (proj2 (Z.eqb_neq _ _) Hk0). by rewrite IH.
Qed.

Lemma response_chain L a i l end_a fuel :
  ledger_inv L → st_accounts (lg_store L) !! a = Some i → st_blocks (lg_store L) !! a = None →
  chain_down (lg_store L) a (ai_head i) l → (length l < fuel)%nat →
  bulk_pull_response fuel L (BulkPull a end_a 0 false) = Done (wire (pull_answer (lg_store L) a end_a l)).
Proof.
  intros HL Hi Hna Hc Hf. unfold bulk_pull_response, set_current_end, block_exists, account_get.
  cbn [bp_start bp_end bp_count bp_count_present]. rewrite Hna, Hi. rewrite (bool_decide_false (is_Some None)) by (by intros [? ?]).
  unfold pull_answer. destruct (st_blocks (lg_store L) !! end_a) as [e |] eqn:He.
  - rewrite bool_decide_true by done. destruct (inv_blocks L HL _ _ He) as (Hz & _).
    rewrite (proj2 (Z.eqb_neq _ _) Hz). unfold block_account, block_get. rewrite He. simpl.
    destruct (account_calculated e =? a); [by erewrite send_chain |].
    rewrite (send_at_end fuel L (BulkPull a end_a 0 false)) by lia. done.
  - rewrite bool_decide_false by (by intros [? ?]). simpl. erewrite send_chain by done. simpl.
    by rewrite (above_zero L) by (done || by eapply chain_down_blocks).
Qed.
End answer.

(** How a block that was written is read: its type, then its bytes. *)
Lemma read_written {HC : Crypto} b s :
  block_wf b → let n := block_size (block_type_of b) in
  read_be 1 (serialize_block b ++ s) = Some (block_type_code (block_type_of b), block_serialize b ++ s) ∧
  ¬ (length (block_serialize b ++ s) < n)%nat ∧ take n (block_serialize b ++ s) = block_serialize b ∧
  deserialize_block_typed (Some (block_type_of b)) (block_serialize b) = Some (b, []) ∧
  drop n (block_serialize b ++ s) = s.
Proof.
  intros Hwf n. pose proof (length_block_serialize b) as Hl.
  pose proof (deserialize_block_typed_serialize b [] Hwf) as Hd. rewrite app_nil_r in Hd.
  unfold serialize_block. rewrite <- app_assoc, read_be8 by (by destruct b). unfold n. rewrite <- Hl.
  split_and!; [done | rewrite length_app; lia | apply take_app_length | done | apply drop_app_length].
Qed.

(** ** The client *)

Section client.
Context {HC : Crypto} (e : pull_env) (Hstop : pe_hard_stop e = false).

(** The blocks that are added: up to the first that is known when it is looked up. *)
Fixpoint pulled (L : ledger) (n : Z) (l : list block) : list block :=
  match l with
  | [] => []
  | b :: l => if attempt_process_block L b (n + 1) then [] else b :: pulled L (n + 1) l
  end.

(** Every block is the predecessor of the one before. *)
Fixpoint descends (k : Z) (l : list block) : Prop :=
  match l with
  | [] => True
  | b :: l => block_hash b = k ∧ descends (previous b) l
  end.
Definition last_expected (k : Z) (l : list block) : Z := foldl (λ _ b, previous b) k l.

Lemma receive_one fuel L b s c :
  block_wf b → validate_entry (pe_work e) b = false →
  receive_block_loop (S fuel) e L (serialize_block b ++ s) c =
    let '(c, go_on) := received_block e L b c in
    if go_on then receive_block_loop fuel e L s c else Done c.
Proof using.
  intros Hwf Hv. cbn [receive_block_loop]. destruct (read_written b s Hwf) as (-> & Hlen & Ht & Hd & Hdr).
  cbv beta iota. rewrite block_type_of_code_code.
  destruct b; cbn [block_type_of] in *; rewrite decide_False by done; rewrite Ht, Hd, Hv, Hdr; done.
Qed.

Lemma receive_end fuel L c :
  (0 < fuel)%nat → ∃ pooled, receive_block_loop fuel e L (wire []) c =
    Done (BulkPullClient (bc_pull c) (bc_expected c) (bc_known_account c) (bc_pull_blocks c) (bc_unexpected_count c)
            (bc_network_error c) (bc_added c) pooled).
Proof using.
  intros Hf. destruct fuel as [| fuel]; [lia |]. cbn [receive_block_loop].
  change (wire []) with (to_be 1 (block_type_code bt_not_a_block) ++ []). rewrite read_be8 by done.
  cbv beta iota. rewrite block_type_of_code_code. destruct c. case_match; eexists; reflexivity.
Qed.

Lemma receive_chain L l c fuel :
  Forall (λ b, block_wf b ∧ validate_entry (pe_work e) b = false) l → descends (bc_expected c) l →
  bc_unexpected_count c = 0 → 0 <= bc_pull_blocks c → bc_pull_blocks c + Z.of_nat (length l) < u64_mod →
  (length l < fuel)%nat → bc_network_error c = false →
  ∃ c', receive_block_loop fuel e L (wire l) c = Done c' ∧
    bc_added c' = bc_added c ++ map (λ b, (b, if bc_pull_blocks c =? 0 then from_option account 0 (head l)
                                             else bc_known_account c)) (pulled L (bc_pull_blocks c) l) ∧
    bc_pull c' = bc_pull c ∧ bc_network_error c' = false ∧
    (pulled L (bc_pull_blocks c) l = l → bc_expected c' = last_expected (bc_expected c) l).
Proof using Hstop.
  revert c fuel. induction l as [| b l IH]; intros c fuel Hwf Hd Hu H0 Hb Hf Hne.
  { destruct (receive_end fuel L c Hf) as [pooled ->]. eexists. split; [reflexivity |]. simpl.
    rewrite app_nil_r. done. }
  apply Forall_cons in Hwf as [[Hwf Hv] Hall]. destruct Hd as [Hh Hd]. simpl in Hf, Hb. destruct fuel as [| fuel]; [lia |].
  rewrite wire_cons, receive_one by done. unfold received_block.
  rewrite Hh, Z.eqb_refl, Hstop, Hu. cbn [orb andb negb].
  assert (Hw : wrap64 (bc_pull_blocks c + 1) = bc_pull_blocks c + 1) by (apply wrap64_small; unfold is_u64; lia).
  rewrite Hw. cbn [pulled]. destruct (attempt_process_block L b (bc_pull_blocks c + 1)) eqn:Hs.
  { eexists. split; [reflexivity |]. simpl. by rewrite app_nil_r. }
  cbn [negb andb]. rewrite andb_true_r. change (0 <? 16384) with true. cbv iota.
  match goal with |- context [receive_block_loop fuel e L _ ?x] => set (c1 := x) end.
  destruct (IH c1 fuel) as (c' & Hr & Hadd & Hpl & Hne' & Hexp); subst c1; simpl; try done; try lia.
  exists c'. simpl in Hadd, Hpl, Hexp. rewrite (proj2 (Z.eqb_neq (bc_pull_blocks c + 1) 0)) in Hadd by lia.
  split_and!; [done | | done | done |].
  - rewrite Hadd, <- app_assoc. simpl. done.
  - intros [= Hp]. rewrite Hexp by done. done.
Qed.
End client.

(** ** The exchange *)

Section exchange.
Context {HC : Crypto} (work : work_thresholds).

Lemma chain_down_det s a k l l' : chain_down s a k l → chain_down s a k l' → l = l'.
Proof.
  intros Hc. revert l'. induction Hc as [k e He Ha Hp | k e l He Ha Hp _ IH]; intros l' Hc'; inversion Hc'; simplify_eq;
    [done.. |]. f_equal. by apply IH.
Qed.

Section chain.
Context (L : ledger) (HL : ledger_inv L) (a : Z).

Lemma chain_down_descends k l : chain_down (lg_store L) a k l → descends k l ∧ last_expected k l = 0.
Proof using HL.
  induction 1 as [k e He Ha Hp | k e l He Ha Hp _ [IH1 IH2]]; destruct (inv_blocks L HL k e He) as (_ & Hk & _);
    simpl; done.
Qed.

(** Every block of the chain begins a shorter one. *)
Lemma chain_down_suffix k l1 b l2 :
  chain_down (lg_store L) a k (l1 ++ b :: l2) → chain_down (lg_store L) a (block_hash b) (b :: l2).
Proof using HL.
  revert k. induction l1 as [| x l1 IH]; intros k Hc; simpl in Hc.
  - assert (Hk : k = block_hash b); [| by rewrite <- Hk].
    inversion Hc as [? e He | ? e ? He]; subst; by destruct (inv_blocks L HL _ _ He) as (_ & ? & _).
  - inversion Hc as [? ? ? ? ? Hn | ? ? ? ? ? ? Hc' Hn]; subst; [by destruct l1 |]. by eapply IH.
Qed.

Lemma chain_down_elem k l b :
  chain_down (lg_store L) a k l → b ∈ l → ∃ l1 l2, l = l1 ++ b :: l2 ∧ chain_down (lg_store L) a (block_hash b) (b :: l2).
Proof using HL.
  intros Hc (l1 & l2 & ->)%list_elem_of_split. exists l1, l2. split; [done | by eapply chain_down_suffix].
Qed.

Lemma chain_down_NoDup k l : chain_down (lg_store L) a k l → NoDup (map block_hash l).
Proof using HL.
  induction 1 as [k e He Ha Hp | k e l He Ha Hp Hc IH]; simpl; [apply NoDup_singleton |].
  apply NoDup_cons. split; [| done]. intros (b & Hb & Hin)%list_elem_of_fmap.
  destruct (chain_down_elem _ _ _ Hc Hin) as (l1 & l2 & -> & Hc').
  destruct (inv_blocks L HL k e He) as (_ & Hk & _).
  assert (Hc2 : chain_down (lg_store L) a k (e.1 :: l1 ++ b :: l2)) by (by apply chain_next).
  rewrite <- Hb, <- Hk in Hc'. pose proof (chain_down_det _ _ _ _ _ Hc2 Hc') as Hx.
  apply (f_equal length) in Hx. simpl in Hx. rewrite length_app in Hx. simpl in Hx. lia.
Qed.

Lemma chain_down_length k l : chain_down (lg_store L) a k l → (length l <= size (st_blocks (lg_store L)))%nat.
Proof using HL.
  intros Hc. pose proof (chain_down_NoDup k l Hc) as Hn.
  rewrite <- (length_map block_hash l), <- (size_list_to_set (C := gset Z)), <- (size_dom (D := gset Z)) by done.
  apply subseteq_size. intros h. rewrite elem_of_list_to_set, elem_of_dom. intros (b & -> & Hb)%list_elem_of_fmap.
  pose proof (chain_down_blocks _ _ _ _ Hc) as Hf. rewrite Forall_forall in Hf. destruct (Hf b Hb) as (k' & e & He & ->).
  destruct (inv_blocks L HL k' e He) as (_ & <- & _). by eexists.
Qed.

Lemma above_descends k l end_a : descends k l → descends k (above end_a l).
Proof using.
  revert k. induction l as [| b l IH]; intros k; simpl; [done |]. intros [? ?].
  destruct (block_hash b =? end_a); simpl; auto.
Qed.

Lemma above_expected k l end_a :
  descends k l → last_expected k l = 0 → last_expected k (above end_a l) = end_a ∨ last_expected k (above end_a l) = 0.
Proof using.
  revert k. induction l as [| b l IH]; intros k; simpl; [by right |]. intros [Hb Hd] He.
  destruct (Z.eqb_spec (block_hash b) end_a) as [<- | Hne]; simpl; [by left |]. by apply IH.
Qed.

Lemma above_Forall (P : block → Prop) l end_a : Forall P l → Forall P (above end_a l).
Proof using. induction 1; simpl; [constructor |]. destruct (_ =? _); by constructor. Qed.

Lemma above_length l end_a : (length (above end_a l) <= length l)%nat.
Proof using. induction l; simpl; [lia |]. destruct (_ =? _); simpl; lia. Qed.
End chain.

(** Request, answer and reading. *)
Definition bulk_pull_exchange (fuel : nat) (e : pull_env) (remote own : ledger) (p : pull_info) : run_result bulk_pull_client :=
  s ← bulk_pull_response fuel remote (bulk_pull_request p); receive_block_loop fuel e own s (bulk_pull_client_new p).

(** The end that is asked for is no block of another account. *)
Definition end_fits (s : store) (a end_a : Z) : Prop :=
  ∀ e, st_blocks s !! end_a = Some e → account_calculated e = a.

Lemma exchange_pulls fuel e remote own a i l p :
  servable work remote → pe_work e = work → pe_hard_stop e = false →
  st_accounts (lg_store remote) !! a = Some i → st_blocks (lg_store remote) !! a = None →
  chain_down (lg_store remote) a (ai_head i) l →
  pl_account_or_head p = a → pl_head p = ai_head i → pl_head_original p = ai_head i → pl_count p = 0 → pl_attempts p mod 4 < 3 →
  (size (st_blocks (lg_store remote)) < fuel)%nat → Z.of_nat fuel < u64_mod →
  let sent := pull_answer (lg_store remote) a (pl_end p) l in
  ∃ c, bulk_pull_exchange fuel e remote own p = Done c ∧
    bc_added c = map (λ b, (b, from_option account 0 (head sent))) (pulled own 0 sent) ∧ bc_network_error c = false ∧
    (end_fits (lg_store remote) a (pl_end p) → pulled own 0 sent = sent → bulk_pull_client_end c = None).
Proof.
  intros HS He Hst Hi Hna Hc Ha Hh Hho Hcount Hatt Hf Hfu sent. pose proof (sv_inv _ _ HS) as HL.
  pose proof (chain_down_length remote HL a _ _ Hc) as Hlen.
  destruct (chain_down_descends remote HL a _ _ Hc) as [Hd He0].
  assert (Hreq : bulk_pull_request p = BulkPull a (pl_end p) 0 false).
  { unfold bulk_pull_request. rewrite Hh, Hho, Ha, Hcount, Z.eqb_refl. by rewrite (proj2 (Z.ltb_lt _ _) Hatt). }
  unfold bulk_pull_exchange. rewrite Hreq, (response_chain remote a i l) by (done || lia). fold sent.
  assert (Hwf : Forall (λ b, block_wf b ∧ validate_entry (pe_work e) b = false) l).
  { rewrite He. eapply Forall_impl; [by eapply chain_down_blocks |]. intros b (k & x & Hx & ->). by apply (sv_wf _ _ HS k). }
  assert (Hsent : Forall (λ b, block_wf b ∧ validate_entry (pe_work e) b = false) sent ∧ descends (ai_head i) sent ∧
    (length sent <= length l)%nat).
  { unfold sent, pull_answer. repeat case_match; split_and!; try done; try lia.
    - by apply above_Forall. - by apply above_descends. - apply above_length. - simpl; lia. }
  destruct Hsent as (Hw & Hds & Hls). cbn [mbind run_bind].
  destruct (receive_chain e Hst own sent (bulk_pull_client_new p) fuel) as (c & Hr & Hadd & Hpl & Hne & Hex);
    simpl; rewrite ?Hh; try done; try lia.
  exists c. split_and!; [done | done | done |]. intros Hfit Hall. unfold bulk_pull_client_end.
  rewrite (Hex Hall), Hpl. simpl. rewrite Hh.
  assert (Hlast : last_expected (ai_head i) sent = pl_end p ∨ last_expected (ai_head i) sent = 0).
  { unfold sent, pull_answer. destruct (st_blocks (lg_store remote) !! pl_end p) as [x |] eqn:Hx; [| by right].
    rewrite (Hfit x Hx), Z.eqb_refl. by apply above_expected. }
  destruct Hlast as [-> | ->]; rewrite Z.eqb_refl; [done |]. by rewrite andb_false_r.
Qed.
End exchange.
