(* ===== verification/BootstrapFrontiers.v ===== *)
(** * A frontier request compares two ledgers

    What [frontier_req_server] writes is the sorted list of accounts with their
    heads, whatever the batches in which it reads them, and the merge of
    [frontier_req_client] asks for exactly the accounts whose head the own ledger
    does not know. *)

From S2P Require Import Prelude Blocks Numbers BlockCodec Common Vote RepWeights EpochsWork Store Ledger Rollback.
From S2P Require Import LedgerApply LedgerInvariant LedgerTheorems Bootstrap BootstrapPull.

(** ** Tables read in order *)

Section rows.
Context {A : Type}.
Implicit Types (m : gmap Z A) (x : Z * A).

Definition row_lt (x y : Z * A) : Prop := x.1 < y.1.

Lemma elem_of_rows_from m k a i : (a, i) ∈ rows_from m k ↔ m !! a = Some i ∧ k <= a.
Proof.
  unfold rows_from. rewrite merge_sort_Permutation, list_elem_of_filter, elem_of_map_to_list. simpl. tauto.
Qed.

Lemma rows_from_sorted m k : StronglySorted row_lt (rows_from m k).
Proof.
  assert (Hs : StronglySorted row_le (rows_from m k)).
  { apply StronglySorted_merge_sort; [intros x y z; unfold row_le; lia | intros x y; unfold row_le; lia]. }
  assert (Hn : NoDup (rows_from m k).*1).
  { unfold rows_from. rewrite merge_sort_Permutation. eapply sublist_NoDup; [apply (NoDup_fst_map_to_list m) |].
    apply fmap_sublist, sublist_filter. }
  induction Hs as [| x l _ IH Hx]; simpl in *; [constructor |]. apply NoDup_cons in Hn as [Hx' Hn].
  constructor; [by apply IH |]. rewrite Forall_forall in Hx |- *. intros y Hy. pose proof (Hx y Hy) as Hle.
  unfold row_le, row_lt in *. destruct (decide (x.1 = y.1)) as [He |]; [| lia].
  exfalso. apply Hx'. rewrite He. by apply list_elem_of_fmap_2.
Qed.

Lemma row_lt_NoDup l : StronglySorted row_lt l → NoDup l.
Proof.
  induction 1 as [| x l _ IH Hx]; constructor; [| done]. intros Hin. rewrite Forall_forall in Hx.
  pose proof (Hx x Hin). unfold row_lt in *. lia.
Qed.

Lemma rows_from_unique m k l :
  StronglySorted row_lt l → (∀ a i, (a, i) ∈ l ↔ m !! a = Some i ∧ k <= a) → rows_from m k = l.
Proof.
  intros Hs Hl. apply (StronglySorted_unique_strong row_lt); [| apply rows_from_sorted | done |].
  - intros x y _ _. unfold row_lt. lia.
  - apply NoDup_Permutation; [by apply row_lt_NoDup, rows_from_sorted | by apply row_lt_NoDup |].
    intros [a i]. by rewrite elem_of_rows_from, Hl.
Qed.

Lemma rows_from_after m k l1 x l2 : rows_from m k = l1 ++ x :: l2 → rows_from m (x.1 + 1) = l2.
Proof.
  intros Hr. pose proof (rows_from_sorted m k) as Hs. rewrite Hr in Hs.
  apply StronglySorted_app in Hs as (Hlt & _ & Hs). inversion Hs as [| ? ? Hs2 Hx]; subst.
  rewrite Forall_forall in Hx. apply rows_from_unique; [done |]. intros a i. split.
  - intros Hin. pose proof (Hx _ Hin). unfold row_lt in *. simpl in *. split; [| lia].
    apply (elem_of_rows_from m k). rewrite Hr. set_solver.
  - intros [Ha Hle]. assert (Hin : (a, i) ∈ rows_from m k).
    { apply elem_of_rows_from. split; [done |]. assert (x ∈ rows_from m k) as Hx' by (rewrite Hr; set_solver).
      destruct x as [b j]. apply elem_of_rows_from in Hx'. simpl in *. lia. }
    rewrite Hr in Hin. apply elem_of_app in Hin as [Hin | Hin].
    + pose proof (Hlt _ x Hin ltac:(set_solver)). unfold row_lt in *. simpl in *. lia.
    + apply elem_of_cons in Hin as [<- |]; [simpl in *; lia | done].
Qed.

(** Nothing lies between two keys. *)
Lemma rows_from_skip m k k' : (∀ a i, m !! a = Some i → k <= a ↔ k' <= a) → rows_from m k = rows_from m k'.
Proof.
  intros Hk. apply rows_from_unique; [apply rows_from_sorted |]. intros a i. rewrite elem_of_rows_from.
  split; intros [Ha Hle]; (split; [done |]); by apply (Hk a i Ha).
Qed.

(** The pairs that are picked from a table. *)
Definition pick_row (pick : A → option Z) (x : Z * A) : option (Z * Z) := (λ h, (x.1, h)) <$> pick x.2.
Definition picks (pick : A → option Z) m (k : Z) : list (Z * Z) := omap (pick_row pick) (rows_from m k).

Lemma omap_split {B} (f : Z * A → option B) l r1 y r2 :
  omap f l = r1 ++ y :: r2 → ∃ l1 x l2, l = l1 ++ x :: l2 ∧ f x = Some y ∧ omap f l2 = r2.
Proof.
  revert r1. induction l as [| x l IH]; intros r1; simpl; [by destruct r1 |].
  destruct (f x) as [z |] eqn:Hx.
  - destruct r1 as [| z' r1]; simpl; intros [= -> Hl].
    + by exists [], x, l.
    + destruct (IH r1 Hl) as (l1 & x' & l2 & -> & ? & ?). by exists (x :: l1), x', l2.
  - intros Hl. destruct (IH r1 Hl) as (l1 & x' & l2 & -> & ? & ?). by exists (x :: l1), x', l2.
Qed.

Lemma picks_after pick m k r1 y r2 : picks pick m k = r1 ++ y :: r2 → picks pick m (y.1 + 1) = r2.
Proof.
  unfold picks. intros (l1 & x & l2 & Hl & Hx & <-)%omap_split. unfold pick_row in Hx.
  destruct (pick x.2); simplify_eq/=. by rewrite (rows_from_after m k l1 x l2).
Qed.

Lemma elem_of_picks pick m k a h : (a, h) ∈ picks pick m k ↔ ∃ i, m !! a = Some i ∧ pick i = Some h ∧ k <= a.
Proof.
  unfold picks. rewrite list_elem_of_omap. unfold pick_row. split.
  - intros ([b i] & [Hb Hle]%elem_of_rows_from & Hp). simpl in Hp. destruct (pick i) eqn:Hi; simplify_eq/=. eauto.
  - intros (i & Ha & Hp & Hle). exists (a, i). simpl. rewrite Hp. split; [by apply elem_of_rows_from | done].
Qed.

Lemma picks_sorted pick m k : StronglySorted (λ x y : Z * Z, x.1 < y.1) (picks pick m k).
Proof.
  unfold picks. induction (rows_from_sorted m k) as [| x l _ IH Hx]; simpl; [constructor |].
  unfold pick_row at 1. destruct (pick x.2) as [h |]; [| done]. simpl. constructor; [done |].
  rewrite Forall_forall in Hx. apply Forall_forall. intros y (z & Hz & Hp)%list_elem_of_omap. unfold pick_row in Hp.
  destruct (pick z.2); simplify_eq/=. by apply Hx.
Qed.

Lemma length_picks pick m k : (length (picks pick m k) <= size m)%nat.
Proof.
  assert (Hom : ∀ l, (length (omap (pick_row pick) l) <= length l)%nat).
  { induction l as [| x l IH]; simpl; [lia |]. destruct (pick_row pick x); simpl;
    [apply le_n_S, IH | apply Nat.le_le_succ_r, IH]. }
  unfold picks. etrans; [apply Hom |]. unfold rows_from. rewrite merge_sort_Permutation, <- length_map_to_list.
  apply length_filter.
Qed.

Lemma fill_accounts_spec pick rows acc :
  (length acc <= max_size)%nat →
  fill_accounts pick rows acc = acc ++ take (max_size - length acc) (omap (pick_row pick) rows).
Proof.
  revert acc. induction rows as [| [a i] rows IH]; intros acc Hl; simpl; [by rewrite take_nil, app_nil_r |].
  case_decide as Hd; [by rewrite Hd, Nat.sub_diag, app_nil_r |]. unfold pick_row at 1. simpl. destruct (pick i) as [h |]; simpl.
  - rewrite IH by (rewrite length_app; simpl; lia). rewrite length_app, <- app_assoc. simpl. f_equal.
    replace (max_size - length acc)%nat with (S (max_size - (length acc + 1))) by lia. done.
  - by apply IH.
Qed.

(** ** The queue of accounts *)

Section queue.
Context (pick : A → option Z) (m : gmap Z A) (Hkeys : ∀ a i, m !! a = Some i → 0 < a < u256_mod - 1).

(** Behind the current account [c] with the queue [l] there is still [rest] to come. *)
Inductive queue (c : Z) : list (Z * Z) → list (Z * Z) → Prop :=
| queue_all l : queue c (l ++ [(0, 0)]) l
| queue_more l k : from_option (λ x : Z * Z, x.1 + 1) (wrap256 (c + 1)) (last l) = k → queue c l (l ++ picks pick m k).

Definition loaded (c : Z) (l : list (Z * Z)) : list (Z * Z) :=
  match l with
  | [] => mark_end (fill_accounts pick (rows_from m (wrap256 (c + 1))) [])
  | _ => l
  end.

Lemma wrap_next a h k : (a, h) ∈ picks pick m k → wrap256 (a + 1) = a + 1.
Proof using Hkeys.
  intros (i & Ha & _)%elem_of_picks. apply Z.mod_small. pose proof (Hkeys a i Ha). unfold u256_mod in *. lia.
Qed.

(** The next account: the head of what is to come, or the end mark. *)
Lemma queue_next c l rest :
  queue c l rest → (∀ a h, (a, h) ∈ l → wrap256 (a + 1) = a + 1) →
  ∃ a h l', loaded c l = (a, h) :: l' ∧ (∀ b h, (b, h) ∈ l' → wrap256 (b + 1) = b + 1) ∧
    (rest = [] ∧ a = 0 ∨ ∃ rest', rest = (a, h) :: rest' ∧ queue a l' rest').
Proof using Hkeys.
  intros Hq Hl. destruct Hq as [l | l k Hk].
  - destruct l as [| [a h] l]; simpl; [by exists 0, 0, []; split_and!; [| set_solver | left] |].
    exists a, h, (l ++ [(0, 0)]). split_and!; [done | set_solver |]. right. eexists. split; [done | constructor].
  - destruct l as [| [a h] l]; cycle 1.
    { exists a, h, l. split_and!; [done | set_solver |]. right. eexists. split; [done |]. apply queue_more. subst k.
      rewrite last_cons. destruct (last l) as [x |]; [done |]. simpl. by apply (Hl a h), elem_of_cons; left. }
    simpl in Hk. subst k. cbn [loaded app]. set (P := picks pick m (wrap256 (c + 1))).
    rewrite fill_accounts_spec by (simpl; lia). fold (picks pick m (wrap256 (c + 1))). fold P. simpl length.
    rewrite Nat.sub_0_r. cbn [app]. unfold mark_end. case_decide as Hd.
    + assert (Hsplit : P = take max_size P ++ drop max_size P) by (by rewrite take_drop).
      destruct (take max_size P) as [| [a h] l] eqn:Ht; [done |]. exists a, h, l.
      assert (Hw : ∀ b h', (b, h') ∈ (a, h) :: l → wrap256 (b + 1) = b + 1).
      { intros b h' Hb. apply (wrap_next b h' (wrap256 (c + 1))). fold P. rewrite Hsplit. apply elem_of_app. by left. }
      split_and!; [done | intros; eapply Hw; by apply elem_of_cons; right |]. right. rewrite Hsplit. simpl. eexists. split; [done |].
      assert (Hlast : drop max_size P = picks pick m (from_option (λ x : Z * Z, x.1 + 1) (wrap256 (a + 1)) (last l))); [| rewrite Hlast; by apply queue_more].
      destruct l as [| y l0 _] using rev_ind.
      * simpl. rewrite (Hw a h) by apply list_elem_of_here. symmetry. by apply (picks_after pick m (wrap256 (c + 1)) [] (a, h)).
      * rewrite last_snoc. simpl. symmetry. apply (picks_after pick m (wrap256 (c + 1)) ((a, h) :: l0) y).
        fold P. rewrite Hsplit at 1. simpl. by rewrite <- app_assoc.
    + assert (HP : take max_size P = P).
      { apply take_ge. rewrite length_take in Hd. lia. }
      rewrite HP. destruct P as [| [a h] l] eqn:EP; simpl.
      { exists 0, 0, []. split_and!; [done | set_solver | by left]. }
      exists a, h, (l ++ [(0, 0)]). split_and!; [done | |].
      * intros b h' Hb. apply elem_of_app in Hb as [Hb | Hb]; [| set_solver].
        apply (wrap_next b h' (wrap256 (c + 1))). fold P. rewrite EP. set_solver.
      * right. eexists. split; [done | constructor].
Qed.
End queue.
End rows.

(** Pairs and the end mark, as they are written. *)
Definition pairs_wire (l : list (Z * Z)) : bytes := concat (map (λ x : Z * Z, frontier_pair x.1 x.2) l) ++ frontier_pair 0 0.

Lemma pairs_wire_cons x l : pairs_wire (x :: l) = frontier_pair x.1 x.2 ++ pairs_wire l.
Proof. unfold pairs_wire. simpl. by rewrite app_assoc. Qed.

(** A reader is at the current account with the frontier [h] and [R] to come, the
    current one included. *)
Definition reading {A} (pick : A → option Z) (m : gmap Z A) (c h : Z) (l : list (Z * Z)) (R : list (Z * Z)) : Prop :=
  (∀ a h, (a, h) ∈ l → wrap256 (a + 1) = a + 1) ∧
  match R with
  | [] => c = 0
  | x :: rest => x = (c, h) ∧ queue pick m c l rest
  end.

Lemma reading_load {A} (pick : A → option Z) (m : gmap Z A) c l rest :
  (∀ a i, m !! a = Some i → 0 < a < u256_mod - 1) →
  (∀ a h, (a, h) ∈ l → wrap256 (a + 1) = a + 1) → queue pick m c l rest →
  ∃ a h l', loaded pick m c l = (a, h) :: l' ∧ reading pick m a h l' rest.
Proof.
  intros Hkeys Hl Hq. destruct (queue_next pick m Hkeys c l rest Hq Hl) as (a & h & l' & Hld & Hl' & Hr).
  exists a, h, l'. split; [done |]. split; [done |]. destruct Hr as [[-> ->] | (rest' & -> & Hq')]; done.
Qed.

Lemma reading_start {A} (pick : A → option Z) (m : gmap Z A) c :
  queue pick m c [] (picks pick m (wrap256 (c + 1))).
Proof. by apply (queue_more pick m c [] (wrap256 (c + 1))). Qed.

(** ** The server *)

Section server.
Context {HC : Crypto} (now : Z) (L : ledger) (request : frontier_req).
Context (Hplain : fq_only_confirmed request = false).
Abbreviation m := (st_accounts (lg_store L)).
Context (Hkeys : ∀ a i, m !! a = Some i → 0 < a < u256_mod - 1).

(** The accounts the age filter lets through. *)
Definition young (info : account_info) : option Z :=
  if (fq_age request =? u32_max) || (wrap64 (now - ai_modified info) <=? fq_age request) then Some (ai_head info) else None.

Lemma server_next_reading sv R :
  queue young m (fs_current sv) (fs_accounts sv) R →
  (∀ a h, (a, h) ∈ fs_accounts sv → wrap256 (a + 1) = a + 1) →
  ∃ a h l, frontier_server_next now L request sv = FrontierReqServer a h l (fs_count sv) ∧ reading young m a h l R.
Proof using Hkeys Hplain.
  intros Hq Hl. destruct (reading_load young m _ _ _ Hkeys Hl Hq) as (a & h & l & Hld & Hr).
  exists a, h, l. split; [| done]. unfold frontier_server_next, server_rows. rewrite Hplain. cbn [negb].
  unfold loaded in Hld. unfold young in Hld. destruct (fs_accounts sv) as [| x l0]; [by rewrite Hld |]. by simplify_eq/=.
Qed.

Lemma frontier_send_pairs sv R fuel :
  reading young m (fs_current sv) (fs_frontier sv) (fs_accounts sv) R → (∀ x, x ∈ R → x.1 ≠ 0) →
  (length R < fuel)%nat →
  frontier_send fuel now L request sv = Done (pairs_wire (take (Z.to_nat (fq_count request - fs_count sv)) R)).
Proof using Hkeys Hplain.
  revert sv R. induction fuel as [| fuel IH]; intros sv R [Hl HR] Hnz Hf; [lia |]. cbn [frontier_send].
  unfold frontier_send_next. destruct R as [| x rest].
  { rewrite HR. simpl. by rewrite take_nil. }
  destruct HR as [-> Hq]. pose proof (Hnz _ (list_elem_of_here _ _)) as Hc. simpl in Hc.
  rewrite (proj2 (Z.eqb_neq _ _) Hc). cbn [negb andb].
  destruct (Z.ltb_spec (fs_count sv) (fq_count request)) as [Hlt | Hge]; cycle 1.
  { by replace (Z.to_nat (fq_count request - fs_count sv)) with O by lia. }
  destruct (server_next_reading sv rest Hq Hl) as (a & h & l & -> & Hr). cbn [fs_current fs_frontier fs_accounts fs_count].
  rewrite (IH _ rest); [| exact Hr | set_solver | simpl in Hf; lia]. cbn [mbind run_bind fs_count].
  replace (Z.to_nat (fq_count request - fs_count sv)) with (S (Z.to_nat (fq_count request - (fs_count sv + 1)))) by lia.
  cbn [take]. by rewrite pairs_wire_cons.
Qed.

(** The answer: the accounts from the requested one on, in order. *)
Lemma frontier_response_pairs fuel :
  is_u256 (fq_start request) → (size m < fuel)%nat →
  frontier_response fuel now L request =
    Done (pairs_wire (take (Z.to_nat (fq_count request)) (picks young m (fq_start request)))).
Proof using Hkeys Hplain.
  intros Hs Hf. unfold frontier_response, frontier_server_new. set (c := wrap256 (fq_start request - 1)).
  assert (Hw : wrap256 (c + 1) = fq_start request).
  { unfold c, wrap256. rewrite Zplus_mod_idemp_l. replace (fq_start request - 1 + 1) with (fq_start request) by lia.
    by apply Z.mod_small. }
  pose proof (reading_start young m c) as Hq. rewrite Hw in Hq.
  destruct (server_next_reading (FrontierReqServer c 0 [] 0) _ Hq ltac:(set_solver)) as (a & h & l & -> & Hr).
  rewrite (frontier_send_pairs _ (picks young m (fq_start request))); [by rewrite Z.sub_0_r | exact Hr | |].
  - intros [b h'] (i & Hb & _)%elem_of_picks. simpl. pose proof (Hkeys b i Hb). lia.
  - assert (length (picks young m (fq_start request)) <= size m)%nat; [| lia].
    apply length_picks.
Qed.
End server.

(** ** The client *)

Section client.
Context {HC : Crypto} (retry_limit id : Z) (L : ledger).
Abbreviation m := (st_accounts (lg_store L)).
Context (Hkeys : ∀ a i, m !! a = Some i → 0 < a < u256_mod - 1).

Definition heads (info : account_info) : option Z := Some (ai_head info).
Definition at_accounts (c : frontier_req_client) (R : list (Z * Z)) : Prop :=
  reading heads m (fc_current c) (fc_frontier c) (fc_accounts c) R.

(** What the comparison means for pushes: a range that the peer lacks, or an account
    for which pushing will not help. *)
Inductive push_event := pu_range (head end_a : Z) | pu_behind.
Definition push_one (s : Z * list (Z * Z)) (ev : push_event) : Z * list (Z * Z) :=
  match ev with
  | pu_range head end_a =>
      if s.1 <? bulk_push_cost_limit then (wrap64 (s.1 + (if end_a =? 0 then 2 else 1)), s.2 ++ [(head, end_a)]) else s
  | pu_behind => (wrap64 (s.1 + 5), s.2)
  end.
Definition push_state (st : frontier_req_client * legacy_attempt) : Z * list (Z * Z) :=
  (fc_bulk_push_cost st.1, la_bulk_push_targets st.2).
Definition missing (x : Z * Z) : push_event := pu_range x.2 0.

(** What a part of the comparison leaves as it is, the pulls and the pushes it adds. *)
Definition moved (st st' : frontier_req_client * legacy_attempt) (ps : list pull_info) (evs : list push_event) : Prop :=
  (fc_count st'.1 = fc_count st.1 ∧ fc_last_account st'.1 = fc_last_account st.1 ∧
   fc_count_limit st'.1 = fc_count_limit st.1 ∧ fc_frontiers_age st'.1 = fc_frontiers_age st.1) ∧
  la_start_account st'.2 = la_start_account st.2 ∧ la_frontier_pulls st'.2 = la_frontier_pulls st.2 ++ ps ∧
  (fc_frontiers_age st.1 = u32_max → push_state st' = foldl push_one (push_state st) evs).

Lemma moved_refl st : moved st st [] [].
Proof using. unfold moved. by rewrite app_nil_r. Qed.
Lemma moved_trans st1 st2 st3 ps ps' evs evs' :
  moved st1 st2 ps evs → moved st2 st3 ps' evs' → moved st1 st3 (ps ++ ps') (evs ++ evs').
Proof using.
  unfold moved. intros ((-> & -> & -> & Ha) & -> & Hpl & Hp) ((-> & -> & -> & ->) & -> & -> & Hp').
  split; [done |]. rewrite Hpl, app_assoc. do 2 (split; [done |]). intros He.
  rewrite Hp', Hp, foldl_app by congruence. done.
Qed.

Lemma unsynced_moved head e st :
  moved st (unsynced head e st) [] [pu_range head e] ∧ (∀ R, at_accounts st.1 R → at_accounts (unsynced head e st).1 R).
Proof using.
  destruct st as [c at_l]. unfold unsynced, moved, push_state, bulk_push_available. simpl.
  destruct (Z.ltb_spec (fc_bulk_push_cost c) bulk_push_cost_limit) as [Hlt | Hge]; simpl.
  - destruct (Z.eqb_spec (fc_frontiers_age c) u32_max) as [Hage | Hage]; simpl; rewrite ?Hage, app_nil_r; by split_and!.
  - rewrite app_nil_r. by split_and!.
Qed.

Lemma client_next c at_l x R :
  at_accounts c (x :: R) → at_accounts (frontier_client_next L c) R ∧ moved (c, at_l) (frontier_client_next L c, at_l) [] [].
Proof using Hkeys.
  intros [Hl [_ Hq]]. destruct (reading_load heads m _ _ _ Hkeys Hl Hq) as (a & h & l & Hld & Hr).
  unfold frontier_client_next. unfold loaded, heads in Hld. destruct (fc_accounts c) as [| y l0].
  - rewrite Hld. split; [exact Hr |]. unfold moved. by rewrite app_nil_r.
  - simplify_eq/=. split; [exact Hr |]. unfold moved. by rewrite app_nil_r.
Qed.

Lemma at_end c : at_accounts c [] → fc_current c = 0.
Proof using. intros [_ ?]. done. Qed.

Lemma at_current c x R : at_accounts c (x :: R) → x = (fc_current c, fc_frontier c).
Proof using. by intros [_ [? _]]. Qed.

Lemma picks_nonzero a f k : (a, f) ∈ picks heads m k → a ≠ 0.
Proof using Hkeys. intros (i & Ha & _)%elem_of_picks. pose proof (Hkeys a i Ha). lia. Qed.

(** One round of the loops. *)
Lemma own_step fuel more st x R :
  at_accounts st.1 (x :: R) → x.1 ≠ 0 →
  ∃ st', own_accounts (S fuel) L more st = (if more st.1 then own_accounts fuel L more st' else Done st) ∧
    at_accounts st'.1 R ∧ moved st st' [] [missing x].
Proof using Hkeys.
  intros Hat Hx. pose proof (at_current _ _ _ Hat) as ->. cbn [own_accounts]. simpl in Hx.
  rewrite (proj2 (Z.eqb_neq _ _) Hx). cbn [negb andb].
  destruct (unsynced_moved (fc_frontier st.1) 0 st) as [Hk Hat']. apply Hat' in Hat.
  destruct (unsynced (fc_frontier st.1) 0 st) as [c at_l]. destruct (client_next c at_l _ _ Hat) as [Hat2 Hk2].
  exists (frontier_client_next L c, at_l). split_and!; [done | done | exact (moved_trans _ _ _ _ _ _ _ Hk Hk2)].
Qed.

(** Nothing more is pushed once the cost is too high. *)
Lemma push_full s R : bulk_push_cost_limit <= s.1 → foldl push_one s (map missing R) = s.
Proof using. intros Hs. induction R as [| x R IH]; simpl; [done |]. by rewrite (proj2 (Z.ltb_ge _ _) Hs). Qed.

Lemma own_rest fuel st R :
  at_accounts st.1 R → (∀ x, x ∈ R → x.1 ≠ 0) → (length R < fuel)%nat →
  ∃ st', own_accounts fuel L bulk_push_available st = Done st' ∧ moved st st' [] (map missing R).
Proof using Hkeys.
  revert st R. induction fuel as [| fuel IH]; intros st R Hat Hnz Hf; [lia |]. destruct R as [| x R].
  { cbn [own_accounts]. rewrite (at_end _ Hat). exists st. split; [done | apply moved_refl]. }
  destruct (own_step fuel bulk_push_available st x R Hat (Hnz _ (list_elem_of_here _ _))) as (st' & -> & Hat' & Hk).
  destruct (bulk_push_available st.1) eqn:Hav; cycle 1.
  { exists st. split; [done |]. unfold moved. rewrite app_nil_r. do 3 (split; [done |]). intros Hage. symmetry. apply (push_full _ (x :: R)).
    unfold bulk_push_available in Hav. rewrite Hage, Z.eqb_refl, andb_true_r in Hav. by apply Z.ltb_ge in Hav. }
  destruct (IH st' R Hat') as (st2 & -> & Hk2); [set_solver | simpl in Hf; lia |]. exists st2.
  split; [done | exact (moved_trans _ _ _ _ _ _ _ Hk Hk2)].
Qed.

Lemma picks_head k x f R a : picks heads m k = (x, f) :: R → k <= a <= x → picks heads m a = (x, f) :: R.
Proof using.
  intros Hp Ha. rewrite <- Hp. unfold picks. f_equal. apply rows_from_skip. intros b i Hb. split; [lia |]. intros Hk.
  assert (Hin : (b, ai_head i) ∈ picks heads m k) by (apply elem_of_picks; eauto).
  pose proof (picks_sorted heads m k) as Hs. rewrite Hp in Hin, Hs. apply elem_of_cons in Hin as [[= -> _] | Hin]; [lia |].
  inversion Hs as [| ? ? _ Hx]. rewrite Forall_forall in Hx. pose proof (Hx _ Hin). simpl in *. lia.
Qed.

Lemma picks_none k a : picks heads m k = [] → k <= a → picks heads m a = [] ∧ m !! a = None.
Proof using.
  intros Hp Ha. assert (Hn : ∀ b i, m !! b = Some i → ¬ k <= b).
  { intros b i Hb Hk. assert (Hin : (b, ai_head i) ∈ picks heads m k) by (apply elem_of_picks; eauto).
    rewrite Hp in Hin. by apply not_elem_of_nil in Hin. }
  split; [| destruct (m !! a) eqn:Hm; [exfalso; by eapply Hn | done]].
  rewrite <- Hp. unfold picks. f_equal. apply rows_from_skip. intros b i Hb. pose proof (Hn b i Hb). lia.
Qed.

(** The own accounts below an account of the peer. *)
Definition below (k a : Z) : list (Z * Z) := filter (λ x, x.1 < a) (picks heads m k).

Lemma below_none k x f R a : picks heads m k = (x, f) :: R → a <= x → below k a = [].
Proof using.
  intros Hp Ha. unfold below. pose proof (picks_sorted heads m k) as Hs. rewrite Hp in Hs |- *.
  apply StronglySorted_inv in Hs as [_ Hx]. rewrite filter_cons_False by (simpl; lia). clear Hp.
  induction Hx as [| y l Hy _ IH]; [done |]. by rewrite filter_cons_False by (simpl in *; lia).
Qed.

(** The first loop. *)
Lemma own_skip fuel a k st :
  at_accounts st.1 (picks heads m k) → k <= a → (length (picks heads m k) < fuel)%nat →
  ∃ st', own_accounts fuel L (λ c, fc_current c <? a) st = Done st' ∧ at_accounts st'.1 (picks heads m a) ∧
    moved st st' [] (map missing (below k a)).
Proof using Hkeys.
  revert k st. induction fuel as [| fuel IH]; intros k st Hat Hk Hf; [lia |].
  destruct (picks heads m k) as [| [x f] R] eqn:Hp.
  { exists st. cbn [own_accounts]. unfold below. rewrite (at_end _ Hat), (proj1 (picks_none k a Hp Hk)), Hp. split_and!; [done | exact Hat | apply moved_refl]. }
  assert (Hx : x ≠ 0) by (apply (picks_nonzero x f k); rewrite Hp; apply list_elem_of_here).
  destruct (own_step fuel (λ c, fc_current c <? a) st (x, f) R Hat Hx) as (st' & -> & Hat' & Hkept).
  pose proof (at_current _ _ _ Hat) as [= <- _]. destruct (Z.ltb_spec x a) as [Hlt | Hge].
  - pose proof (picks_after heads m k [] (x, f) R Hp) as HR. simpl in HR. rewrite <- HR in Hat'. simpl in Hf.
    destruct (IH (x + 1) st' Hat') as (st2 & -> & Hat2 & Hk2); [lia | rewrite HR; lia |].
    exists st2. split_and!; [done | done |]. unfold below at 1. rewrite Hp, filter_cons_True by done.
    unfold below in Hk2. rewrite HR in Hk2. exact (moved_trans _ _ _ _ _ _ _ Hkept Hk2).
  - exists st. rewrite (picks_head k x f R a Hp), (below_none k x f R a Hp) by lia. split_and!; [done | exact Hat | apply moved_refl].
Qed.

(** The pull for an account and a head of the peer, if one is wanted. *)
Definition wanted (x : Z * Z) : option pull_info :=
  match m !! x.1 with
  | None => Some (frontier_pull retry_limit id x.1 x.2 0)
  | Some i => if (x.2 =? ai_head i) || block_or_pruned_exists L x.2 then None
              else Some (frontier_pull retry_limit id x.1 x.2 (ai_head i))
  end.
Definition wants (x : Z * Z) : list pull_info := option_list (wanted x).


(** What the own account means for pushes. *)
Definition meets (x : Z * Z) : list push_event :=
  match m !! x.1 with
  | None => []
  | Some i => if x.2 =? ai_head i then []
              else if block_or_pruned_exists L x.2 then [pu_range (ai_head i) x.2] else [pu_behind]
  end.

Lemma add_frontier_moved p c at_l : pl_head p ≠ 0 → moved (c, at_l) (c, add_frontier p at_l) [p] [].
Proof using. intros Hp. unfold add_frontier, moved. by rewrite (proj2 (Z.eqb_neq _ _) Hp). Qed.

Lemma picks_absent a x f R : picks heads m a = (x, f) :: R → a ≠ x → m !! a = None.
Proof using.
  intros Hp Hne. destruct (m !! a) as [j |] eqn:Hj; [exfalso | done].
  assert (Hin : (a, ai_head j) ∈ picks heads m a) by (apply elem_of_picks; exists j; split_and!; done || lia).
  assert (Hx : (x, f) ∈ picks heads m a) by (rewrite Hp; apply list_elem_of_here).
  apply elem_of_picks in Hx as (_ & _ & _ & Hax). pose proof (picks_sorted heads m a) as Hs. rewrite Hp in Hin, Hs.
  apply elem_of_cons in Hin as [[= ? _] | Hin]; [done |]. apply StronglySorted_inv in Hs as [_ Hlt].
  rewrite Forall_forall in Hlt. pose proof (Hlt _ Hin). simpl in *. lia.
Qed.

(** The own account is the one of the peer. *)
Lemma compare_same a h i R c at_l :
  at_accounts c ((a, ai_head i) :: R) → m !! a = Some i → a ≠ 0 → h ≠ 0 →
  let st' := compare_frontier retry_limit id L a h (c, at_l) in
  at_accounts st'.1 R ∧ moved (c, at_l) st' (wants (a, h)) (meets (a, h)).
Proof using Hkeys.
  intros Hat Hi Ha Hh. pose proof (at_current _ _ _ Hat) as [= Hca Hcf].
  unfold compare_frontier, wants, wanted, meets. cbn [fst snd].
  rewrite Hi, <- Hca, <- Hcf, (proj2 (Z.eqb_neq _ _) Ha), Z.eqb_refl. cbn [negb].
  destruct (h =? ai_head i) eqn:Eh; [| destruct (block_or_pruned_exists L h) eqn:Ex]; cbn [orb].
  - apply (client_next c at_l _ _ Hat).
  - destruct (unsynced_moved (ai_head i) h (c, at_l)) as [Hm Hun]. apply Hun in Hat.
    destruct (unsynced (ai_head i) h (c, at_l)) as [c2 at2]. destruct (client_next c2 at2 _ _ Hat) as [Hat2 Hm2].
    split; [exact Hat2 | exact (moved_trans _ _ _ _ _ _ _ Hm Hm2)].
  - destruct (client_next (add_push_cost 5 c) (add_frontier (frontier_pull retry_limit id a h (ai_head i)) at_l) _ _ Hat)
      as [Hat2 Hm2]. split; [exact Hat2 |].
    assert (Hm1 : moved (c, at_l) (add_push_cost 5 c, at_l) [] [pu_behind]) by (unfold moved; by rewrite app_nil_r).
    pose proof (moved_trans _ _ _ _ _ _ _ Hm1 (add_frontier_moved (frontier_pull retry_limit id a h (ai_head i)) _ at_l Hh)) as Hm.
    exact (moved_trans _ _ _ _ _ _ _ Hm Hm2).
Qed.

(** What one pair of the peer does. *)
Lemma compare_pair a h st :
  at_accounts st.1 (picks heads m a) → a ≠ 0 → h ≠ 0 →
  let st' := compare_frontier retry_limit id L a h st in
  at_accounts st'.1 (picks heads m (a + 1)) ∧ moved st st' (wants (a, h)) (meets (a, h)).
Proof using Hkeys.
  destruct st as [c at_l]. simpl fst. intros Hat Ha Hh.
  pose proof (add_frontier_moved (frontier_pull retry_limit id a h 0) c at_l Hh) as Hadd.
  destruct (picks heads m a) as [| [x f] R] eqn:Hp.
  - destruct (picks_none a (a + 1) Hp ltac:(lia)) as [Hp1 _]. destruct (picks_none a a Hp ltac:(lia)) as [_ Hm].
    unfold compare_frontier, wants, wanted, meets. simpl fst. rewrite (at_end _ Hat), Hm, Hp1. by split.
  - assert (Hin : (x, f) ∈ picks heads m a) by (rewrite Hp; apply list_elem_of_here).
    apply elem_of_picks in Hin as (i & Hi & [= <-] & Hax). destruct (decide (a = x)) as [<- | Hne].
    + pose proof (picks_after heads m a [] _ R Hp) as HR. simpl in HR. rewrite HR. by apply (compare_same a h i).
    + pose proof (picks_absent a x _ R Hp Hne) as Hm. pose proof (at_current _ _ _ Hat) as [= Hcx _].
      unfold compare_frontier, wants, wanted, meets. simpl fst.
      rewrite Hm, <- Hcx, (proj2 (Z.eqb_neq x 0)), (proj2 (Z.eqb_neq a x) Hne) by (pose proof (Hkeys x i Hi); lia).
      rewrite (picks_head a x (ai_head i) R (a + 1) Hp) by lia. by split.
Qed.

Definition count_pair (a : Z) (c : frontier_req_client) : frontier_req_client :=
  FrontierReqClient (fc_current c) (fc_frontier c) (fc_accounts c) (fc_count c + 1) a (fc_bulk_push_cost c)
    (fc_frontiers_age c) (fc_count_limit c).

Lemma received_pair fuel a h k st :
  at_accounts st.1 (picks heads m k) → k <= a → a ≠ 0 → h ≠ 0 → (size m < fuel)%nat →
  0 <= fc_count st.1 → fc_count st.1 + 1 <= fc_count_limit st.1 → fc_count_limit st.1 < u32_mod →
  ∃ c at_l, received_frontier retry_limit id fuel L false a h st = Done (c, at_l, fs_receive) ∧
    at_accounts c (picks heads m (a + 1)) ∧
    moved (count_pair a st.1, st.2) (c, at_l) (wants (a, h)) (map missing (below k a) ++ meets (a, h)).
Proof using Hkeys.
  intros Hat Hk Ha Hh Hf Hc0 Hc Hlim. unfold received_frontier. cbv beta zeta.
  assert (Hw : wrap32 (fc_count st.1 + 1) = fc_count st.1 + 1) by (apply Z.mod_small; lia).
  cbn [fc_count fc_count_limit]. rewrite Hw, (proj2 (Z.eqb_neq _ _) Ha), (proj2 (Z.leb_le _ _) Hc). cbn [negb andb].
  destruct (own_skip fuel a k (count_pair a st.1, st.2)) as (st1 & Hown & Hat1 & Hm1); [exact Hat | done | |].
  { pose proof (length_picks heads m k). lia. }
  unfold count_pair in Hown. simpl in Hown |- *. rewrite Hown. cbn [mbind run_bind].
  destruct (compare_pair a h st1 Hat1 Ha Hh) as [Hat2 Hm2].
  destruct (compare_frontier retry_limit id L a h st1) as [c at_l]. exists c, at_l. split_and!; [done | done |].
  exact (moved_trans _ _ _ [] _ _ _ Hm1 Hm2).
Qed.

(** Where the next request begins. *)
Definition next_start (count limit last_account : Z) (Q : list (Z * Z)) : Z :=
  if count + Z.of_nat (length Q) <? limit then u256_mod - 1
  else from_option (λ x : Z * Z, x.1) last_account (last Q).

(** All that the comparison means for pushes, if the peer has no more accounts. *)
Fixpoint push_events (k : Z) (Q : list (Z * Z)) : list push_event :=
  match Q with
  | [] => map missing (picks heads m k)
  | x :: Q => map missing (below k x.1) ++ meets x ++ push_events (x.1 + 1) Q
  end.

Lemma receive_last inner k st s :
  at_accounts st.1 (picks heads m k) → (size m < inner)%nat →
  0 <= fc_count st.1 → fc_count st.1 <= fc_count_limit st.1 → fc_count_limit st.1 + 1 < u32_mod →
  fc_frontiers_age st.1 = u32_max →
  ∃ c at_l, received_frontier retry_limit id inner L false 0 s st = Done (c, at_l, fs_done false) ∧
    la_frontier_pulls at_l = la_frontier_pulls st.2 ∧
    la_start_account at_l = next_start (fc_count st.1) (fc_count_limit st.1) (fc_last_account st.1) [] ∧
    (fc_count st.1 < fc_count_limit st.1 →
     push_state (c, at_l) = foldl push_one (push_state st) (map missing (picks heads m k))).
Proof using Hkeys.
  intros Hat Hin Hc0 Hc Hlim Hage. unfold received_frontier. cbv beta zeta. cbn [fc_count fc_count_limit Z.eqb negb andb].
  assert (Hw : wrap32 (fc_count st.1 + 1) = fc_count st.1 + 1) by (apply Z.mod_small; lia).
  rewrite Hw. unfold next_start. simpl length. rewrite Z.add_0_r. cbn [last from_option].
  destruct (Z.leb_spec (fc_count st.1 + 1) (fc_count_limit st.1)) as [Hle | Hgt].
  - rewrite (proj2 (Z.ltb_lt _ _)) by lia.
    match goal with |- context [own_accounts inner L _ ?x] => set (st0 := x) end.
    destruct (own_rest inner st0 (picks heads m k)) as ([c at_l] & -> & Hk).
    { exact Hat. } { intros [b f] Hb. by eapply picks_nonzero. } { pose proof (length_picks heads m k). lia. }
    destruct Hk as (_ & _ & Hpl & Hps). cbn [mbind run_bind]. eexists _, _. split; [reflexivity |].
    simpl in Hpl |- *. rewrite Hpl, app_nil_r. do 2 (split; [done |]). intros _. by apply Hps.
  - rewrite (proj2 (Z.ltb_ge _ _)) by lia. cbn [mbind run_bind]. eexists _, _. split; [reflexivity |]. simpl.
    do 2 (split; [done |]). lia.
Qed.

Lemma receive_pairs fuel inner k st Q :
  at_accounts st.1 (picks heads m k) → StronglySorted (λ x y : Z * Z, x.1 < y.1) Q →
  Forall (λ x : Z * Z, k <= x.1 ∧ is_u256 x.1 ∧ is_u256 x.2 ∧ x.1 ≠ 0 ∧ x.2 ≠ 0) Q →
  (size m < inner)%nat → (length Q < fuel)%nat →
  0 <= fc_count st.1 → fc_count st.1 + Z.of_nat (length Q) <= fc_count_limit st.1 → fc_count_limit st.1 + 1 < u32_mod →
  fc_frontiers_age st.1 = u32_max →
  ∃ c at_l, receive_frontier retry_limit id fuel inner L (λ _, false) (pairs_wire Q) st = Done (c, at_l, Some false) ∧
    la_frontier_pulls at_l = la_frontier_pulls st.2 ++ concat (map wants Q) ∧
    la_start_account at_l = next_start (fc_count st.1) (fc_count_limit st.1) (fc_last_account st.1) Q ∧
    (fc_count st.1 + Z.of_nat (length Q) < fc_count_limit st.1 →
     push_state (c, at_l) = foldl push_one (push_state st) (push_events k Q)).
Proof using Hkeys.
  revert fuel k st. induction Q as [| [a h] Q IH]; intros fuel k st Hat Hs HQ Hin Hf Hc0 Hc Hlim Hage;
    (destruct fuel as [| fuel]; [simpl in Hf; lia |]); cbn [receive_frontier].
  - unfold pairs_wire, frontier_pair. simpl concat. cbn [app]. rewrite read_be256 by done. cbn [mbind option_bind].
    rewrite <- (app_nil_r (to_be 32 0)), read_be256 by done. cbn [mbind option_bind].
    simpl length in Hc |- *. rewrite Z.add_0_r in Hc |- *. simpl concat. rewrite app_nil_r.
    destruct (receive_last inner k st 0) as (c & at_l & -> & Hl); [done.. |]. cbn [mbind run_bind]. by exists c, at_l.
  - apply Forall_cons in HQ as [(Hk & Ha & Hh & Ha0 & Hh0) HQ]. simpl in Hk, Ha, Hh, Ha0, Hh0, Hc, Hf.
    rewrite pairs_wire_cons. unfold frontier_pair at 1. cbn [fst snd]. rewrite <- app_assoc, read_be256 by done.
    cbn [mbind option_bind]. rewrite read_be256 by done. cbn [mbind option_bind].
    destruct (received_pair inner a h k st) as (c & at_l & -> & Hat' & (Hcn & Hla & Hl & Hag) & Hst & Hp & Hps); try done; try lia.
    simpl in Hcn, Hla, Hl, Hag, Hst, Hp, Hps. cbn [mbind run_bind]. apply StronglySorted_inv in Hs as [Hs' Hlt].
    destruct (IH fuel (a + 1) (c, at_l)) as (c' & at' & -> & Hp' & Hst' & Hps'); simpl in *; try done; try lia.
    { rewrite Forall_forall in HQ, Hlt |- *. intros x Hx. destruct (HQ x Hx) as (? & ? & ? & ? & ?). pose proof (Hlt x Hx).
      split_and!; try done; try lia. }
    eexists _, _. split; [reflexivity |]. rewrite Hp', Hp, Hst', <- app_assoc. split; [done |]. split.
    + unfold next_start. rewrite Hcn, Hl, Hla. simpl length. rewrite last_cons.
      replace (fc_count st.1 + 1 + Z.of_nat (length Q)) with (fc_count st.1 + Z.of_nat (S (length Q))) by lia.
      by destruct (last Q).
    + intros Hlen. rewrite Hps', Hps, <- foldl_app, <- app_assoc by (done || lia). done.
Qed.

(** Where the pushes come from: own accounts the peer did not name, and those it named. *)
Lemma push_events_elem k Q ev :
  StronglySorted (λ x y : Z * Z, x.1 < y.1) Q → Forall (λ x : Z * Z, k <= x.1) Q →
  ev ∈ push_events k Q ↔
    (∃ x, x ∈ picks heads m k ∧ (∀ y, y ∈ Q → y.1 ≠ x.1) ∧ ev = missing x) ∨ (∃ y, y ∈ Q ∧ ev ∈ meets y).
Proof using.
  clear Hkeys. revert k. induction Q as [| [a h] Q IH]; intros k Hs HQ; simpl.
  { rewrite list_elem_of_fmap. set_solver. }
  apply StronglySorted_inv in Hs as [Hs Hlt]. apply Forall_cons in HQ as [Hk HQ]. simpl in Hk.
  rewrite Forall_forall in Hlt. rewrite !elem_of_app, IH, list_elem_of_fmap; [| done |]; cycle 1.
  { apply Forall_forall. intros x Hx. pose proof (Hlt x Hx). simpl in *. lia. }
  assert (Hp : ∀ x, x ∈ picks heads m k ↔ x ∈ below k a ∨ x ∈ picks heads m (a + 1) ∨ x ∈ picks heads m k ∧ x.1 = a).
  { intros [b f]. unfold below. rewrite list_elem_of_filter, !elem_of_picks. simpl. split; [| naive_solver lia].
    intros (i & Hb & Hf & Hle). destruct (Z.lt_trichotomy b a) as [? | [? | ?]]; naive_solver lia. }
  assert (Hb : ∀ x, x ∈ below k a → x.1 < a) by (intros x; unfold below; rewrite list_elem_of_filter; tauto).
  assert (Ha : ∀ x, x ∈ picks heads m (a + 1) → a < x.1) by (intros [b f] (? & _ & _ & ?)%elem_of_picks; simpl; lia).
  split.
  - intros [(x & -> & Hx) | [Hm | [(x & Hx & Hn & ->) | (y & Hy & Hm)]]].
    + left. exists x. split_and!; [apply Hp; by left | | done]. pose proof (Hb x Hx).
      intros y [-> | Hy]%elem_of_cons; [simpl; lia |]. pose proof (Hlt y Hy). simpl in *. lia.
    + right. exists (a, h). split; [apply list_elem_of_here | done].
    + left. exists x. split_and!; [apply Hp; right; by left | | done]. pose proof (Ha x Hx).
      intros y [-> | Hy]%elem_of_cons; [simpl; lia | by apply Hn].
    + right. exists y. split; [by apply list_elem_of_further | done].
  - intros [(x & Hx & Hn & ->) | (y & [-> | Hy]%elem_of_cons & Hm)]; [| by right; left | by right; right; right; exists y].
    apply Hp in Hx as [Hx | [Hx | [_ Hxa]]]; [left; by exists x | | exfalso; by apply (Hn (a, h)), symmetry; [left |]].
    right. right. left. exists x. split_and!; [done | | done]. intros y Hy. apply Hn. by apply list_elem_of_further.
Qed.

(** The cost of an event, and the ranges that are all pushed if the cost allows it. *)
Definition event_cost (ev : push_event) : Z :=
  match ev with pu_range _ end_a => if end_a =? 0 then 2 else 1 | pu_behind => 5 end.
Definition push_cost (evs : list push_event) : Z := foldr (λ ev n, event_cost ev + n) 0 evs.
Definition event_range (ev : push_event) : option (Z * Z) :=
  match ev with pu_range head end_a => Some (head, end_a) | pu_behind => None end.

Lemma push_all evs s :
  0 <= s.1 → s.1 + push_cost evs <= bulk_push_cost_limit → (foldl push_one s evs).2 = s.2 ++ omap event_range evs.
Proof using.
  assert (Hpos : ∀ evs, 0 <= push_cost evs).
  { clear. intros evs. induction evs as [| ev evs IH]; simpl; [lia |]. destruct ev as [? e |]; simpl; [destruct (e =? 0) |]; lia. }
  revert s. induction evs as [| ev evs IH]; intros s H0 Hc; simpl in *; [by rewrite app_nil_r |]. pose proof (Hpos evs).
  destruct ev as [head e |]; simpl in *.
  - assert (0 < (if e =? 0 then 2 else 1) <= 2) by (destruct (e =? 0); lia).
    rewrite (proj2 (Z.ltb_lt _ _)) by lia.
    rewrite IH; simpl; rewrite ?wrap64_small by (unfold is_u64, bulk_push_cost_limit, u64_mod in *; lia); [| lia | lia].
    by rewrite <- app_assoc.
  - rewrite IH; simpl; rewrite ?wrap64_small by (unfold is_u64, bulk_push_cost_limit, u64_mod in *; lia); [done | lia | lia].
Qed.
End client.
