(* ===== verification/BootstrapPush.v ===== *)
(** * Bulk pushes ([node/bootstrap/bootstrap_bulk_push])

    After its pulls a legacy attempt writes the ranges of blocks that the frontier
    request found to be missing at the peer, and the peer gives what it reads to its
    block processor.  The definitions of client and server, and what they transfer. *)

From S2P Require Import Prelude Blocks Numbers BlockCodec Common Vote RepWeights EpochsWork Store Ledger Rollback.
From S2P Require Import LedgerApply LedgerInvariant UncheckedMap BlockProcessor Bootstrap BootstrapPull.

Section push.
Context {HC : Crypto}.

(** ** The client *)

(** [request_bulk_push_target]: the last target, or that there is none. *)
Definition request_bulk_push_target (at_l : legacy_attempt) : option ((Z * Z) * legacy_attempt) :=
  match last (la_bulk_push_targets at_l) with
  | Some target =>
      Some (target, LegacyAttempt (la_frontier_pulls at_l) (removelast (la_bulk_push_targets at_l)) (la_start_account at_l))
  | None => None
  end.

(** [push]: the loop that finds the next block; none if it is finished. *)
Fixpoint push_search (fuel : nat) (L : ledger) (current_target : Z * Z) (at_l : legacy_attempt) :
    run_result (option block * (Z * Z) * legacy_attempt) :=
  match fuel with
  | O => OutOfFuel
  | S fuel =>
      let '(finished, current_target, at_l) :=
        if (current_target.1 =? 0) || (current_target.1 =? current_target.2) then
          match request_bulk_push_target at_l with
          | Some (target, at_l) => (false, target, at_l)
          | None => (true, current_target, at_l)
          end
        else (false, current_target, at_l) in
      if (finished : bool) then Done (None, current_target, at_l) else
      match block_get (lg_store L) current_target.1 with
      | None => push_search fuel L (0, current_target.2) at_l
      | Some (b, _) => Done (Some b, current_target, at_l)
      end
  end.

(** All that is written from [start] on: [push_block] goes on with [push], and
    [send_finished] ends it. *)
Fixpoint bulk_push (fuel : nat) (L : ledger) (current_target : Z * Z) (at_l : legacy_attempt) : run_result bytes :=
  match fuel with
  | O => OutOfFuel
  | S fuel =>
      '(found, current_target, at_l) ← push_search (S (S (length (la_bulk_push_targets at_l)))) L current_target at_l;
      match found with
      | None => Done no_block
      | Some b => rest ← bulk_push fuel L (previous b, current_target.2) at_l; Done (serialize_block b ++ rest)
      end
  end.

(** [bulk_push_client]: the target is zero at first. *)
Definition bulk_push_start (fuel : nat) (L : ledger) (at_l : legacy_attempt) : run_result bytes :=
  bulk_push fuel L (0, 0) at_l.

(** ** The server *)

(** [receive], [received_type] and [received_block]: the blocks are given to
    [process_active], and whether the request is finished; nothing is read while an own
    attempt is in progress. *)
Fixpoint bulk_push_receive (fuel : nat) (work : work_thresholds) (in_progress : bool) (now : Z) (ck : clocks) (s : bytes)
    (p : pipeline) : run_result (pipeline * bool) :=
  match fuel with
  | O => OutOfFuel
  | S fuel =>
      if in_progress then Done (p, false) else
      match read_be 1 s with
      | None => Done (p, false)
      | Some (code, s) =>
          match block_type_of_code code with
          | Some bt_not_a_block => Done (p, true)
          | None | Some bt_invalid => Done (p, false)
          | Some type =>
              if decide (length s < block_size type)%nat then Done (p, false) else
              match deserialize_block_typed (Some type) (take (block_size type) s) with
              | Some (b, _) =>
                  if negb (validate_entry work b)
                  then bulk_push_receive fuel work in_progress now ck (drop (block_size type) s) (process_active now ck b p)
                  else Done (p, false)
              | None => Done (p, false)
              end
          end
      end
  end.
End push.

(** ** What is transferred *)

Section transfer.
Context {HC : Crypto} (L : ledger) (HL : ledger_inv L).

(** The blocks of a target: its chain from the first block down to the last, which is
    left out. *)
Definition range (t : Z * Z) (l : list block) : Prop :=
  ∃ a lc, chain_down (lg_store L) a t.1 lc ∧ t.1 ≠ t.2 ∧ l = above t.2 lc.

Definition with_targets (ts : list (Z * Z)) (at_l : legacy_attempt) : legacy_attempt :=
  LegacyAttempt (la_frontier_pulls at_l) ts (la_start_account at_l).

Lemma target_popped ts t at_l :
  request_bulk_push_target (with_targets (ts ++ [t]) at_l) = Some (t, with_targets ts at_l).
Proof using. unfold request_bulk_push_target. simpl. by rewrite last_snoc, removelast_last. Qed.

(** A target that is used up makes no difference. *)
Lemma bulk_push_idle fuel t at_l :
  t.1 = 0 ∨ t.1 = t.2 → bulk_push fuel L t at_l = bulk_push fuel L (0, 0) at_l.
Proof using.
  intros Ht. destruct fuel as [| fuel]; [done |]. cbn [bulk_push push_search].
  assert (Hi : (t.1 =? 0) || (t.1 =? t.2) = true) by (apply orb_true_iff; rewrite !Z.eqb_eq; tauto).
  rewrite Hi. simpl ((_ =? 0) || _). cbv iota. destruct (request_bulk_push_target at_l) as [[t' at'] |]; done.
Qed.

(** A block that is at hand is written. *)
Lemma bulk_push_block fuel k e at_l x :
  st_blocks (lg_store L) !! k = Some x → k ≠ e →
  bulk_push (S fuel) L (k, e) at_l =
    (rest ← bulk_push fuel L (previous x.1, e) at_l; Done (serialize_block x.1 ++ rest)).
Proof using HL.
  intros Hx Hne. cbn [bulk_push push_search]. destruct (inv_blocks L HL k x Hx) as (Hk0 & _). simpl.
  rewrite (proj2 (Z.eqb_neq _ _) Hk0), (proj2 (Z.eqb_neq _ _) Hne). simpl. unfold block_get. rewrite Hx. by destruct x.
Qed.

Lemma bulk_push_chain a k lc e fuel at_l out :
  chain_down (lg_store L) a k lc → bulk_push fuel L (0, 0) at_l = Done out →
  bulk_push (length (above e lc) + fuel) L (k, e) at_l =
    Done (concat (map serialize_block (above e lc)) ++ out).
Proof using HL.
  intros Hc Hout. induction Hc as [k x Hx Ha Hp | k x l Hx Ha Hp _ IH];
    destruct (inv_blocks L HL k x Hx) as (_ & Hk & _); simpl above; rewrite <- Hk;
    (destruct (Z.eqb_spec k e) as [-> | Hne]; [rewrite bulk_push_idle by (by right); done |]);
    simpl length; cbn [Nat.add]; rewrite (bulk_push_block _ k e at_l x Hx Hne).
  - rewrite Hp, (bulk_push_idle _ (0, e)), Hout by (by left). simpl. by rewrite app_nil_r.
  - rewrite IH. simpl. by rewrite app_assoc.
Qed.

(** A target is taken when the one before is used up. *)
Lemma bulk_push_target fuel ts t at_l x :
  st_blocks (lg_store L) !! t.1 = Some x → t.1 ≠ t.2 →
  bulk_push fuel L (0, 0) (with_targets (ts ++ [t]) at_l) = bulk_push fuel L t (with_targets ts at_l).
Proof using HL.
  intros Hx Hne. destruct fuel as [| fuel]; [done |]. destruct (inv_blocks L HL _ x Hx) as (Hk0 & _).
  cbn [bulk_push push_search]. rewrite target_popped. simpl ((_ =? 0) || _). cbv iota. unfold block_get. rewrite Hx.
  rewrite (proj2 (Z.eqb_neq _ _) Hk0), (proj2 (Z.eqb_neq _ _) Hne). simpl. rewrite Hx. by destruct x.
Qed.

(** All targets, the last first. *)
Lemma bulk_push_ranges ts ls fuel at_l :
  Forall2 range ts ls → (length (concat ls) < fuel)%nat →
  bulk_push fuel L (0, 0) (with_targets ts at_l) = Done (wire (concat (reverse ls))).
Proof using HL.
  revert ls fuel. induction ts as [| t ts IH] using rev_ind; intros ls fuel Hr Hf.
  { apply Forall2_nil_inv_l in Hr as ->. destruct fuel as [| fuel]; [simpl in Hf; lia | reflexivity]. }
  apply Forall2_app_inv_l in Hr as (ls' & lt & Hr & Ht & ->). apply Forall2_cons_inv_l in Ht as (l & ? & Ht & Hn & ->).
  apply Forall2_nil_inv_l in Hn as ->. destruct Ht as (a & lc & Hc & Hne & ->).
  rewrite concat_app, length_app in Hf. cbn [concat] in Hf. rewrite app_nil_r in Hf.
  pose proof (bulk_push_chain a t.1 lc t.2 _ _ _ Hc (IH ls' (fuel - length (above t.2 lc))%nat Hr ltac:(lia))) as Hb.
  replace (length (above t.2 lc) + (fuel - length (above t.2 lc)))%nat with fuel in Hb by lia.
  assert (Hx : ∃ x, st_blocks (lg_store L) !! t.1 = Some x) by (inversion Hc; eauto). destruct Hx as [x Hx].
  rewrite (bulk_push_target fuel ts t at_l x Hx Hne). rewrite <- (surjective_pairing t) in Hb. rewrite Hb.
  unfold wire. rewrite reverse_snoc. cbn [concat]. by rewrite map_app, concat_app, <- app_assoc.
Qed.

(** The server takes all of it. *)
Lemma push_received work now ck l fuel p :
  Forall (λ b, block_wf b ∧ validate_entry work b = false) l → (length l < fuel)%nat →
  bulk_push_receive fuel work false now ck (wire l) p = Done (foldl (λ p b, process_active now ck b p) p l, true).
Proof using.
  revert fuel p. induction l as [| b l IH]; intros fuel p Hl Hf; (destruct fuel as [| fuel]; [simpl in Hf; lia |]).
  - cbn [bulk_push_receive]. change (wire []) with (to_be 1 (block_type_code bt_not_a_block) ++ []).
    rewrite read_be8 by done. cbv beta iota. by rewrite block_type_of_code_code.
  - apply Forall_cons in Hl as [[Hwf Hv] Hl]. rewrite wire_cons. cbn [bulk_push_receive].
    destruct (read_written b (wire l) Hwf) as (-> & Hlen & Ht & Hd & Hdr). cbv beta iota.
    rewrite block_type_of_code_code. simpl in Hf.
    destruct b; cbn [block_type_of] in *; rewrite decide_False by done; rewrite Ht, Hd, Hv, Hdr; apply IH; done || lia.
Qed.
End transfer.
