(* ===== verification/BootstrapTheorems.v ===== *)
(** * A legacy bootstrap brings what is missing

    A frontier request finds the accounts of the peer whose head is unknown, and the
    pulls it leads to hand every block of the peer that is not known to the block
    processor. *)

From S2P Require Import Prelude Blocks Numbers BlockCodec Common Vote RepWeights EpochsWork Store Ledger Rollback.
From S2P Require Import LedgerApply LedgerInvariant LedgerSteps LedgerTheorems RollbackTheorems.
From S2P Require Import UncheckedMap BlockProcessor Bootstrap BootstrapPull BootstrapFrontiers BootstrapPush.

Section theorems.
Context {HC : Crypto} {HCL : CryptoLaws HC} (work : work_thresholds).
Context (retry_limit id : Z).

(** No account is the largest number, after which the search for accounts wraps. *)
Definition no_last_account (L : ledger) : Prop := st_accounts (lg_store L) !! (u256_mod - 1) = None.

Lemma servable_keys L a i :
  servable work L → no_last_account L → st_accounts (lg_store L) !! a = Some i → 0 < a < u256_mod - 1.
Proof.
  intros HS Hn Ha. pose proof (sv_accounts _ _ HS a i Ha) as Hu. pose proof (ao_account _ _ _ (inv_accounts L (sv_inv _ _ HS) a i Ha)).
  assert (a ≠ u256_mod - 1) by (intros ->; unfold no_last_account in Hn; congruence). unfold is_u256 in Hu. lia.
Qed.

Lemma servable_head L a i : servable work L → st_accounts (lg_store L) !! a = Some i → is_u256 (ai_head i) ∧ ai_head i ≠ 0.
Proof using HCL.
  intros HS Ha. pose proof (sv_inv _ _ HS) as HL. pose proof (inv_accounts L HL a i Ha) as Hok. split; [| apply Hok].
  destruct (ao_entry _ _ _ Hok) as (e & He & _). destruct (inv_blocks L HL _ _ He) as (_ & -> & _). apply block_hash_range.
Qed.

Lemma picks_ext {A} (pick pick' : A → option Z) m k : (∀ i, pick i = pick' i) → picks pick m k = picks pick' m k.
Proof.
  intros Hp. unfold picks. induction (rows_from m k) as [| x l IH]; [done |]. simpl in *.
  assert (pick_row pick x = pick_row pick' x) as -> by (unfold pick_row; by rewrite Hp).
  destruct (pick_row pick' x); [by f_equal | done].
Qed.

(** The accounts a frontier request is answered with. *)
Definition frontiers (L : ledger) (start : Z) : list (Z * Z) :=
  picks heads (st_accounts (lg_store L)) (if start =? 0 then 0 else start + 1).

(** ** The frontier request *)

Section request.
Context (remote own : ledger) (HR : servable work remote) (HO : servable work own).
Context (HnR : no_last_account remote) (HnO : no_last_account own).

Lemma frontiers_ok start Q :
  0 <= start → (∃ n, Q = take n (frontiers remote start)) → StronglySorted (λ x y : Z * Z, x.1 < y.1) Q ∧
  Forall (λ x : Z * Z, start + 1 <= x.1 ∧ is_u256 x.1 ∧ is_u256 x.2 ∧ x.1 ≠ 0 ∧ x.2 ≠ 0) Q.
Proof using HCL HR HnR.
  intros Hs [n ->]. split.
  - pose proof (picks_sorted heads (st_accounts (lg_store remote)) (if start =? 0 then 0 else start + 1)) as Hst.
    rewrite <- (take_drop n) in Hst. by apply StronglySorted_app_1_l in Hst.
  - apply Forall_take, Forall_forall. intros [a h] (i & Ha & [= <-] & Hle)%elem_of_picks. simpl.
    pose proof (servable_keys _ _ _ HR HnR Ha) as Hk. destruct (servable_head _ _ _ HR Ha) as [Hh Hh0].
    split_and!; [destruct (Z.eqb_spec start 0); lia | unfold is_u256; lia | done | lia | done].
Qed.

(** The answer of the server. *)
Lemma frontier_answer fuel now start count :
  0 <= start < u256_mod - 1 → (size (st_accounts (lg_store remote)) < fuel)%nat →
  frontier_response fuel now remote (frontier_run_request start u32_max count) =
    Done (pairs_wire (take (Z.to_nat count) (frontiers remote start))).
Proof using HR HnR.
  intros Hstart Hf. set (request := frontier_run_request start u32_max count).
  assert (Hrs : fq_start request = if start =? 0 then 0 else start + 1).
  { unfold request, frontier_run_request. simpl. rewrite (proj2 (Z.eqb_neq start (u256_mod - 1))) by lia.
    rewrite orb_false_r. destruct (Z.eqb_spec start 0); lia. }
  rewrite (frontier_response_pairs now remote request); [| done | intros a i Ha; exact (servable_keys remote a i HR HnR Ha) | | done].
  - unfold frontiers. rewrite Hrs. by do 3 f_equal; apply picks_ext.
  - rewrite Hrs. unfold is_u256. destruct (start =? 0); lia.
Qed.

(** Both sides together. *)
Lemma frontier_exchange fuel now at_l count :
  0 <= la_start_account at_l < u256_mod - 1 → 0 <= count → count + 1 < u32_mod →
  (size (st_accounts (lg_store remote)) < fuel)%nat → (size (st_accounts (lg_store own)) < fuel)%nat →
  let Q := take (Z.to_nat count) (frontiers remote (la_start_account at_l)) in
  ∃ s at', frontier_response fuel now remote (frontier_run_request (la_start_account at_l) u32_max count) = Done s ∧
    request_frontier retry_limit id fuel fuel own (λ _, false) u32_max count s at_l = Done (false, at') ∧
    la_frontier_pulls at' = la_frontier_pulls at_l ++ concat (map (wants retry_limit id own) Q) ∧
    la_start_account at' = next_start 0 count (u256_mod - 1) Q ∧
    (Z.of_nat (length Q) < count → la_bulk_push_targets at' =
      (foldl push_one (0, la_bulk_push_targets at_l) (push_events own (la_start_account at_l + 1) Q)).2).
Proof using HCL HR HO HnR HnO.
  intros Hstart Hc0 Hc Hfr Hfo Q. set (start := la_start_account at_l) in *.
  exists (pairs_wire Q). unfold request_frontier. fold start.
  assert (Hkeys : ∀ a i, st_accounts (lg_store own) !! a = Some i → 0 < a < u256_mod - 1)
    by (intros a i Ha; exact (servable_keys own a i HO HnO Ha)).
  assert (Hw : wrap256 (start + 1) = start + 1) by (apply Z.mod_small; lia).
  pose proof (reading_start heads (st_accounts (lg_store own)) start) as Hq. rewrite Hw in Hq.
  destruct (reading_load heads _ start [] _ Hkeys ltac:(set_solver) Hq) as (a & h & l & Hld & Hr).
  set (c0 := frontier_run own start u32_max count).
  assert (Hc0' : c0 = FrontierReqClient a h l 0 (u256_mod - 1) 0 u32_max count).
  { unfold c0, frontier_run, frontier_client_next. cbn [fc_accounts fc_current]. unfold loaded, heads in Hld. by rewrite Hld. }
  assert (Hat : at_accounts own c0 (picks heads (st_accounts (lg_store own)) (start + 1))) by (rewrite Hc0'; exact Hr).
  destruct (frontiers_ok start Q) as [Hs HQ]; [lia | by eexists |].
  assert (Hlen : Z.of_nat (length Q) <= count) by (unfold Q; rewrite length_take; lia).
  assert (Hlq : (length Q < fuel)%nat).
  { unfold Q. rewrite length_take. pose proof (length_picks heads (st_accounts (lg_store remote)) (if start =? 0 then 0 else start + 1)).
    unfold frontiers. lia. }
  destruct (receive_pairs retry_limit id own Hkeys fuel fuel (start + 1) (c0, at_l) Q Hat Hs HQ)
    as (c & at' & -> & Hp & Hst & Hps); try done; try (rewrite Hc0'; simpl; done || lia).
  exists at'. split; [by apply frontier_answer |]. rewrite Hc0' in Hst, Hps. do 3 (split; [done |]).
  intros Hlt. exact (f_equal snd (Hps Hlt)).
Qed.
End request.
(** ** What is delivered *)

Section missing.
Context (remote own : ledger) (HR : servable work remote) (HO : servable work own).

(** Two ledgers mean the same by a hash. *)
Definition agree : Prop :=
  ∀ k x y, st_blocks (lg_store remote) !! k = Some x → st_blocks (lg_store own) !! k = Some y →
    previous x.1 = previous y.1 ∧ account_calculated x = account_calculated y.
Context (Hag : agree).

Abbreviation known k := (is_Some (st_blocks (lg_store own) !! k)).

Lemma known_exists k : block_or_pruned_exists own k = true ↔ known k.
Proof using HO. rewrite exists_true, (sv_pruned _ _ HO). split; [intros [Hk%not_elem_of_empty | ?]; done | by right]. Qed.

(** Below a known block of the peer all blocks are known. *)
Lemma known_down a k l :
  chain_down (lg_store remote) a k l → known k → ∀ b, b ∈ l → known (block_hash b).
Proof using HR HO Hag.
  pose proof (sv_inv _ _ HR) as HL.
  induction 1 as [k x Hx Ha Hp | k x l Hx Ha Hp _ IH]; intros [y Hy] b; destruct (inv_blocks _ HL k x Hx) as (_ & Hk & _).
  - rewrite list_elem_of_singleton. intros ->. rewrite <- Hk. by eexists.
  - rewrite elem_of_cons. intros [-> | Hb]; [rewrite <- Hk; by eexists |]. apply IH; [| done].
    destruct (Hag k x y Hx Hy) as [Hprev _]. destruct (sv_chain _ _ HO k y Hy) as [l' Hl'].
    inversion Hl' as [? ? Hy' _ Hz | ? ? ? Hy' _ _ Hl2]; simplify_eq; [congruence |]. rewrite Hprev.
    inversion Hl2; by eexists.
Qed.

(** A block of the peer's chain is given to the block processor, or it is known. *)
Lemma pulled_or_known a k l end_a n b :
  chain_down (lg_store remote) a k l → (is_Some (st_blocks (lg_store remote) !! end_a) → known end_a) → b ∈ l →
  b ∈ pulled own n (above end_a l) ∨ known (block_hash b).
Proof using HR HO Hag.
  intros Hc Hend. pose proof (sv_inv _ _ HR) as HL. revert n.
  induction Hc as [k x Hx Ha Hp | k x l Hx Ha Hp Hc IH]; intros n Hb; destruct (inv_blocks _ HL k x Hx) as (_ & Hk & _);
    simpl; rewrite <- Hk; destruct (Z.eqb_spec k end_a) as [-> | Hne]; simpl.
  - right. eapply known_down; [by eapply chain_open | apply Hend; by eexists | done].
  - apply list_elem_of_singleton in Hb as ->. destruct (attempt_process_block own x.1 (n + 1)) eqn:Hs.
    + right. apply andb_true_iff in Hs as [_ Hs]. by apply known_exists.
    + left. apply list_elem_of_here.
  - right. eapply known_down; [by eapply chain_next | apply Hend; by eexists | done].
  - destruct (attempt_process_block own x.1 (n + 1)) eqn:Hs.
    + right. eapply known_down; [by eapply chain_next | | done]. apply andb_true_iff in Hs as [_ Hs].
      rewrite <- Hk in Hs. by apply known_exists.
    + apply elem_of_cons in Hb as [-> | Hb]; [left; apply list_elem_of_here |].
      destruct (IH (n + 1) Hb) as [? | ?]; [left; by apply list_elem_of_further | by right].
Qed.

(** The end that is asked for fits: then the answer is what lies above it. *)
Lemma answer_above a k l end_a :
  chain_down (lg_store remote) a k l → end_fits (lg_store remote) a end_a →
  pull_answer (lg_store remote) a end_a l = above end_a l.
Proof using HR.
  intros Hc Hfit. unfold pull_answer. destruct (st_blocks (lg_store remote) !! end_a) as [x |] eqn:Hx.
  - by rewrite (Hfit x Hx), Z.eqb_refl.
  - pose proof (chain_down_blocks _ _ _ _ Hc) as Hb. clear Hc. induction Hb as [| b l (k' & x & Hx' & ->) _ IH]; [done |].
    simpl. destruct (inv_blocks _ (sv_inv _ _ HR) k' x Hx') as (_ & Hk & _).
    rewrite <- Hk, (proj2 (Z.eqb_neq k' end_a)) by congruence. by rewrite <- IH.
Qed.

Lemma wants_elem l f p : wanted retry_limit id own f = Some p → f ∈ l → p ∈ concat (map (wants retry_limit id own) l).
Proof using.
  intros Hw. induction 1 as [f l | f g l _ IH]; simpl; apply elem_of_app; [left | right; by apply IH].
  unfold wants. rewrite Hw. apply list_elem_of_here.
Qed.

(** The pull for an account brings what is missing of it. *)
Lemma wanted_pull_brings fuel e a i l k x :
  pe_work e = work → pe_hard_stop e = false → st_accounts (lg_store remote) !! a = Some i →
  st_blocks (lg_store remote) !! a = None → chain_down (lg_store remote) a (ai_head i) l →
  st_blocks (lg_store remote) !! k = Some x → x.1 ∈ l →
  (size (st_blocks (lg_store remote)) < fuel)%nat → Z.of_nat fuel < u64_mod →
  known k ∨ ∃ p c, wanted retry_limit id own (a, ai_head i) = Some p ∧
    bulk_pull_exchange fuel e remote own p = Done c ∧ x.1 ∈ (bc_added c).*1.
Proof using HR HO Hag.
  intros He Hst Hi Hna Hl Hx Hin Hf Hfu. destruct (inv_blocks _ (sv_inv _ _ HR) k x Hx) as (_ & Hk & _).
  assert (Hpull : ∀ end_a, end_fits (lg_store remote) a end_a →
    (is_Some (st_blocks (lg_store remote) !! end_a) → known end_a) →
    wanted retry_limit id own (a, ai_head i) = Some (frontier_pull retry_limit id a (ai_head i) end_a) →
    known k ∨ ∃ p c, wanted retry_limit id own (a, ai_head i) = Some p ∧
      bulk_pull_exchange fuel e remote own p = Done c ∧ x.1 ∈ (bc_added c).*1).
  { intros end_a Hfit Hend Hw.
    destruct (exchange_pulls work fuel e remote own a i l (frontier_pull retry_limit id a (ai_head i) end_a))
      as (c & Hc & Hadd & _); try done. simpl in Hadd. rewrite (answer_above a _ l end_a Hl Hfit) in Hadd.
    destruct (pulled_or_known a _ l end_a 0 x.1 Hl Hend Hin) as [Hp | Hkn]; [right | left; by rewrite Hk].
    exists (frontier_pull retry_limit id a (ai_head i) end_a), c. split_and!; [done | done |].
    rewrite Hadd. apply list_elem_of_fmap. eexists (_, _). split; [| by apply list_elem_of_fmap; eexists]. done. }
  unfold wanted in *. cbn [fst snd] in *. destruct (st_accounts (lg_store own) !! a) as [j |] eqn:Hj; cycle 1.
  { apply (Hpull 0); [| intros [z Hz]; by rewrite (inv_block_zero _ (sv_inv _ _ HR)) in Hz | done].
    intros z Hz. by rewrite (inv_block_zero _ (sv_inv _ _ HR)) in Hz. }
  destruct (ao_entry _ _ _ (inv_accounts _ (sv_inv _ _ HO) a j Hj)) as (y & Hy & Hya & _).
  destruct ((ai_head i =? ai_head j) || block_or_pruned_exists own (ai_head i)) eqn:Hkn.
  - left. rewrite Hk. eapply known_down; [exact Hl | | done]. apply orb_true_iff in Hkn as [Heq%Z.eqb_eq | Hkn].
    + rewrite Heq. by eexists. + by apply known_exists.
  - apply (Hpull (ai_head j)); [| intros _; by eexists | done]. intros z Hz. destruct (Hag _ _ _ Hz Hy) as [_ ->]. done.
Qed.
End missing.

(** ** What is pushed *)

Section pushes.
Context (remote own : ledger) (HR : servable work remote) (HO : servable work own) (Hag : agree own remote).

Abbreviation known k := (is_Some (st_blocks (lg_store remote) !! k)).
Abbreviation Q := (frontiers remote 0).
Abbreviation evs := (push_events own 1 Q).

Lemma above_or_known a k l end_a b :
  chain_down (lg_store own) a k l → known end_a → b ∈ l → b ∈ above end_a l ∨ known (block_hash b).
Proof using HR HO Hag.
  intros Hc Hend. pose proof (sv_inv _ _ HO) as HL.
  induction Hc as [k x Hx Ha Hp | k x l Hx Ha Hp Hc IH]; intros Hb; destruct (inv_blocks _ HL k x Hx) as (_ & Hk & _);
    simpl; rewrite <- Hk; destruct (Z.eqb_spec k end_a) as [-> | Hne].
  - right. eapply (known_down own remote); [done | done | done | by eapply chain_open | done | done].
  - by left.
  - right. eapply (known_down own remote); [done | done | done | by eapply chain_next | done | done].
  - apply elem_of_cons in Hb as [-> | Hb]; [left; apply list_elem_of_here |].
    destruct (IH Hb) as [? | ?]; [left; by apply list_elem_of_further | by right].
Qed.

(** Below a block that both know the chains have the same hashes. *)
Lemma same_below a k l l' :
  chain_down (lg_store own) a k l → chain_down (lg_store remote) a k l' → map block_hash l = map block_hash l'.
Proof using HR HO Hag.
  intros Hc. revert l'. induction Hc as [k x Hx Ha Hp | k x l Hx Ha Hp Hc IH]; intros l' Hc';
    destruct (inv_blocks _ (sv_inv _ _ HO) k x Hx) as (_ & Hk & _); inversion Hc' as [? y Hy _ Hp' | ? y l2 Hy _ Hp' Hc2]; subst;
    destruct (Hag _ _ _ Hx Hy) as [Hprev _]; destruct (inv_blocks _ (sv_inv _ _ HR) _ y Hy) as (_ & Hk' & _);
    simpl; rewrite <- ?Hk, <- ?Hk'; try congruence.
  f_equal. apply IH. by rewrite Hprev.
Qed.

(** The blocks above the head of the peer are unknown to it. *)
Lemma above_unknown a i h k l b :
  st_accounts (lg_store remote) !! a = Some i → ai_head i = h → chain_down (lg_store own) a k l →
  h ∈ map block_hash l → b ∈ above h l → ¬ known (block_hash b).
Proof using HR HO Hag.
  intros Hi Hh Hc Hin Hb [y Hy]. pose proof (sv_inv _ _ HR) as HL.
  assert (Hsplit : ∃ l1 l2, l = l1 ++ b :: l2 ∧ h ∈ map block_hash l2).
  { clear Hc. induction l as [| x l IH]; [by apply not_elem_of_nil in Hb |]. simpl in Hin, Hb.
    destruct (Z.eqb_spec (block_hash x) h) as [Hx | Hx]; [by apply not_elem_of_nil in Hb |].
    apply elem_of_cons in Hin as [? | Hin]; [congruence |]. apply elem_of_cons in Hb as [-> | Hb]; [by exists [], l |].
    destruct (IH Hin Hb) as (l1 & l2 & -> & ?). by exists (x :: l1), l2. }
  destruct Hsplit as (l1 & l2 & -> & Hh2).
  assert (Hcb : chain_down (lg_store own) a (block_hash b) (b :: l2)) by (by eapply chain_down_suffix, Hc; apply HO).
  assert (Ha : account_calculated y = a).
  { inversion Hcb as [? x Hx Hxa | ? x ? Hx Hxa]; subst; destruct (Hag _ _ _ Hx Hy) as [_ <-]; done. }
  destruct (sv_whole _ _ HR a i Hi) as (lr & Hlr & Hall). rewrite Hh in Hlr.
  destruct (chain_down_elem remote HL a _ _ _ Hlr (Hall _ _ Hy Ha)) as (r1 & r2 & -> & Hcr).
  destruct (inv_blocks _ HL _ y Hy) as (_ & Hky & _). rewrite <- Hky in Hcr.
  pose proof (same_below a _ _ _ Hcb Hcr) as Hsame. simpl in Hsame. injection Hsame as _ Hsame. rewrite Hsame in Hh2.
  apply list_elem_of_fmap in Hh2 as (z & -> & Hz). apply list_elem_of_split in Hz as (r3 & r4 & ->).
  pose proof (chain_down_suffix remote HL a (block_hash z) (r1 ++ y.1 :: r3) z r4) as Hcz. rewrite <- app_assoc in Hcz.
  pose proof (chain_down_det _ _ _ _ _ Hlr (Hcz Hlr)) as He. apply (f_equal length) in He.
  rewrite !length_app in He. simpl in He. rewrite length_app in He. simpl in He. lia.
Qed.

Context (HnR : no_last_account remote) (HnO : no_last_account own).

Lemma frontiers_elem a h : (a, h) ∈ Q ↔ ∃ j, st_accounts (lg_store remote) !! a = Some j ∧ ai_head j = h.
Proof using HR HnR.
  unfold frontiers. rewrite elem_of_picks. simpl. split.
  - intros (j & Hj & [= <-] & _). by exists j.
  - intros (j & Hj & <-). exists j. pose proof (servable_keys remote a j HR HnR Hj). split_and!; [done | done | lia].
Qed.

Lemma events_elem ev :
  ev ∈ evs ↔
    (∃ a i, st_accounts (lg_store own) !! a = Some i ∧ st_accounts (lg_store remote) !! a = None ∧ ev = pu_range (ai_head i) 0) ∨
    (∃ a j, st_accounts (lg_store remote) !! a = Some j ∧ ev ∈ meets own (a, ai_head j)).
Proof using HCL HR HO HnR HnO.
  destruct (frontiers_ok remote HR HnR 0 Q) as [Hs HQ]; [done | exists (length Q); by rewrite take_ge |].
  rewrite push_events_elem; [| done | by eapply Forall_impl; [done | intros x Hx; destruct Hx; lia]]. split.
  - intros [([a f] & Hx & Hn & ->) | ([a h] & (j & Hj & <-)%frontiers_elem & Hm)]; [left | by right; exists a, j].
    apply elem_of_picks in Hx as (i & Hi & [= <-] & _). exists a, i. split_and!; [done | | done].
    destruct (st_accounts (lg_store remote) !! a) as [j |] eqn:Hj; [exfalso | done].
    apply (Hn (a, ai_head j)); [| done]. apply frontiers_elem. by exists j.
  - intros [(a & i & Hi & Hn & ->) | (a & j & Hj & Hm)].
    + left. exists (a, ai_head i). split_and!; [| | done].
      * apply elem_of_picks. exists i. pose proof (servable_keys own a i HO HnO Hi). split_and!; [done | done | lia].
      * intros [b h] (j & Hj & _)%frontiers_elem. simpl. congruence.
    + right. exists (a, ai_head j). split; [apply frontiers_elem; by exists j | done].
Qed.

(** What a target means: blocks of one account, from its head on, that the peer lacks. *)
Lemma target_meaning t :
  t ∈ omap event_range evs →
  ∃ a i l, st_accounts (lg_store own) !! a = Some i ∧ t.1 = ai_head i ∧ t.1 ≠ t.2 ∧
    chain_down (lg_store own) a t.1 l ∧ ∀ b, b ∈ above t.2 l → ¬ known (block_hash b).
Proof using HCL HR HO Hag HnR HnO.
  intros (ev & Hev & Ht)%list_elem_of_omap. pose proof (sv_inv _ _ HO) as HL.
  apply events_elem in Hev as [(a & i & Hi & Hn & ->) | (a & j & Hj & Hm)].
  - injection Ht as <-. destruct (sv_whole _ _ HO a i Hi) as (l & Hl & _). exists a, i, l. simpl.
    split_and!; [done | done | apply (inv_accounts _ HL a i Hi) | done |]. intros b Hb [y Hy].
    rewrite (above_zero own) in Hb by (done || by eapply chain_down_blocks).
    destruct (chain_down_elem own HL a _ _ _ Hl Hb) as (l1 & l2 & _ & Hcb).
    assert (Ha : account_calculated y = a) by (inversion Hcb; subst; by destruct (Hag _ _ _ ltac:(eassumption) Hy) as [_ <-]).
    destruct (inv_blocks _ (sv_inv _ _ HR) _ y Hy) as (_ & _ & [j Hj]). congruence.
  - unfold meets in Hm. simpl in Hm. destruct (st_accounts (lg_store own) !! a) as [i |] eqn:Hi; [| by apply not_elem_of_nil in Hm].
    destruct (Z.eqb_spec (ai_head j) (ai_head i)) as [| Hne]; [by apply not_elem_of_nil in Hm |].
    destruct (block_or_pruned_exists own (ai_head j)) eqn:Hx; apply list_elem_of_singleton in Hm as ->; simplify_eq/=.
    destruct (sv_whole _ _ HO a i Hi) as (l & Hl & Hall). exists a, i, l. split_and!; [done | done | congruence | done |].
    intros b Hb. eapply (above_unknown a j); [done | done | done | | done].
    apply (known_exists own HO) in Hx as [z Hz]. destruct (ao_entry _ _ _ (inv_accounts _ (sv_inv _ _ HR) a j Hj)) as (y & Hy & Hya & _).
    destruct (inv_blocks _ HL _ z Hz) as (_ & Hkz & _). rewrite Hkz. apply list_elem_of_fmap_2, (Hall _ _ Hz).
    destruct (Hag _ _ _ Hz Hy) as [_ ->]. done.
Qed.

(** What is missing at the peer lies in a target, unless the peer is ahead or differs. *)
Lemma target_missing a i l k x :
  st_accounts (lg_store own) !! a = Some i → chain_down (lg_store own) a (ai_head i) l →
  st_blocks (lg_store own) !! k = Some x → x.1 ∈ l →
  known k ∨ (∃ end_a, (ai_head i, end_a) ∈ omap event_range evs ∧ x.1 ∈ above end_a l) ∨
  ∃ j, st_accounts (lg_store remote) !! a = Some j ∧ block_or_pruned_exists own (ai_head j) = false.
Proof using HCL HR HO Hag HnR HnO.
  intros Hi Hl Hx Hin. destruct (inv_blocks _ (sv_inv _ _ HO) k x Hx) as (_ & Hk & _).
  destruct (st_accounts (lg_store remote) !! a) as [j |] eqn:Hj; cycle 1.
  { right. left. exists 0. rewrite (above_zero own) by (apply HO || by eapply chain_down_blocks). split; [| done].
    apply list_elem_of_omap. exists (pu_range (ai_head i) 0). split; [| done]. apply events_elem. left. by exists a, i. }
  destruct (ao_entry _ _ _ (inv_accounts _ (sv_inv _ _ HR) a j Hj)) as (y & Hy & _).
  destruct (decide (ai_head j = ai_head i)) as [He | Hne].
  { left. rewrite Hk. eapply (known_down own remote); [done | done | done | exact Hl | rewrite <- He; by eexists | done]. }
  destruct (block_or_pruned_exists own (ai_head j)) eqn:Hb; [| right; right; by exists j].
  destruct (above_or_known a _ l (ai_head j) x.1 Hl ltac:(by eexists) Hin) as [Hab | Hkn]; [| left; by rewrite Hk].
  right. left. exists (ai_head j). split; [| done]. apply list_elem_of_omap. exists (pu_range (ai_head i) (ai_head j)).
  split; [| done]. apply events_elem. right. exists a, j. split; [done |]. unfold meets. simpl. rewrite Hi, Hb.
  rewrite (proj2 (Z.eqb_neq _ _) Hne). apply list_elem_of_here.
Qed.
End pushes.
End theorems.

(** ** Theorems *)

Section nodes.
Context {HC : Crypto} {HCL : CryptoLaws HC} (constants : ledger_constants).

(** The genesis block passes the checks of the network, and thresholds have their
    width. *)
Definition genesis_served : Prop :=
  block_wf (lk_genesis constants) ∧ validate_entry (lk_work constants) (lk_genesis constants) = false ∧
  wt_epoch_1 (lk_work constants) <= u64_max ∧ wt_epoch_2 (lk_work constants) <= u64_max ∧
  wt_epoch_2_receive (lk_work constants) <= u64_max.

Lemma node_servable L : genesis_served → chain_reachable constants L → servable (lk_work constants) L.
Proof. intros (Hwf & Hv & H1 & H2 & H3) HL. by eapply reachable_servable. Qed.

(** C25: A bulk pull of an account transfers its chain: the server writes the blocks
    from the head down to the end that was asked for (nothing if that is a block of
    another account, all if it is unknown), the client reads them without error and
    gives them to the block processor in that order up to the first known one at
    which it looks, and a pull that was not cut short is not queued again. The head
    is sent, against the comment of set_current_end that excludes the frontier.
    Conditions: the peer's ledger was reached by processing, without epoch blocks
    that open accounts on foreign blocks, and never pruned; the genesis block passes
    the client's checks; the account number is not the hash of a block of the peer;
    the pull is not stopped. *)
Theorem pull_transfers_chain remote own fuel e a i end_a retry_limit id :
  genesis_served → chain_reachable constants remote →
  pe_work e = lk_work constants → pe_hard_stop e = false →
  st_accounts (lg_store remote) !! a = Some i → st_blocks (lg_store remote) !! a = None →
  (size (st_blocks (lg_store remote)) < fuel)%nat → Z.of_nat fuel < u64_mod →
  let p := frontier_pull retry_limit id a (ai_head i) end_a in
  ∃ l c, chain_down (lg_store remote) a (ai_head i) l ∧
    (∀ k x, st_blocks (lg_store remote) !! k = Some x → account_calculated x = a → x.1 ∈ l) ∧
    let sent := pull_answer (lg_store remote) a end_a l in
    bulk_pull_response fuel remote (bulk_pull_request p) = Done (wire sent) ∧
    bulk_pull_exchange fuel e remote own p = Done c ∧ (bc_added c).*1 = pulled own 0 sent ∧ bc_network_error c = false ∧
    (end_fits (lg_store remote) a end_a → pulled own 0 sent = sent → bulk_pull_client_end c = None).
Proof using HCL.
  intros Hg HR He Hst Hi Hna Hf Hfu p. pose proof (node_servable remote Hg HR) as HS.
  destruct (sv_whole _ _ HS a i Hi) as (l & Hl & Hin).
  destruct (exchange_pulls (lk_work constants) fuel e remote own a i l p) as (c & Hc & Hadd & Hne & Hend); try done.
  exists l, c. do 2 (split; [done |]). cbv zeta. split_and!; [| done | | done | done].
  - unfold p, bulk_pull_request. simpl. rewrite Z.eqb_refl.
    apply (response_chain remote a i l); [apply HS | done | done | done |].
    pose proof (chain_down_length remote (sv_inv _ _ HS) a _ _ Hl). lia.
  - rewrite Hadd, <- list_fmap_compose. apply list_fmap_id.
Qed.

(** C26: A bootstrap from a peer brings every block of the peer that is missing: the
    frontier request is answered and read without error and asks for no further
    request, it leads to a pull for exactly the accounts of the peer that are not
    known or whose head is not known, and every block of the peer is known or given
    to the block processor by one of these pulls. Conditions: the request asks for
    more frontiers than the peer has accounts (bootstrap_frontier_request_count) and
    for any age; the peer is not found too slow and the pulls are not stopped; both
    ledgers were reached by processing, without epoch blocks that open accounts on
    foreign blocks, were never pruned, and agree on account and predecessor of
    common hashes; the genesis block passes the client's checks; no account is the
    largest number or the hash of a block of the peer. *)
Theorem bootstrap_delivers_missing remote own fuel now e count retry_limit id :
  genesis_served → chain_reachable constants remote → chain_reachable constants own → agree remote own →
  no_last_account remote → no_last_account own →
  (∀ a i, st_accounts (lg_store remote) !! a = Some i → st_blocks (lg_store remote) !! a = None) →
  pe_work e = lk_work constants → pe_hard_stop e = false →
  Z.of_nat (size (st_accounts (lg_store remote))) < count → count + 1 < u32_mod →
  (size (st_accounts (lg_store remote)) < fuel)%nat → (size (st_accounts (lg_store own)) < fuel)%nat →
  (size (st_blocks (lg_store remote)) < fuel)%nat → Z.of_nat fuel < u64_mod →
  ∃ s attempt,
    frontier_response fuel now remote (frontier_run_request 0 u32_max count) = Done s ∧
    request_frontier retry_limit id fuel fuel own (λ _, false) u32_max count s (LegacyAttempt [] [] 0) =
      Done (false, attempt) ∧
    la_start_account attempt = u256_mod - 1 ∧
    la_frontier_pulls attempt = concat (map (wants retry_limit id own) (frontiers remote 0)) ∧
    ∀ k x, st_blocks (lg_store remote) !! k = Some x → block_or_pruned_exists own k = true ∨
      ∃ p c, p ∈ la_frontier_pulls attempt ∧ bulk_pull_exchange fuel e remote own p = Done c ∧ x.1 ∈ (bc_added c).*1.
Proof using HCL.
  intros Hg HR HO Hag HnR HnO Hna He Hst Hn Hc Hfr Hfo Hfb Hfu.
  pose proof (node_servable remote Hg HR) as HSR. pose proof (node_servable own Hg HO) as HSO.
  destruct (frontier_exchange (lk_work constants) retry_limit id remote own HSR HSO HnR HnO fuel now (LegacyAttempt [] [] 0) count)
    as (s & attempt & Hs & Hreq & Hp & Hst' & _); [simpl; unfold u256_mod; lia | lia | lia | done | done |].
  simpl in Hs, Hreq, Hp, Hst'. pose proof (length_picks heads (st_accounts (lg_store remote)) 0) as Hlen.
  assert (Htake : take (Z.to_nat count) (frontiers remote 0) = frontiers remote 0)
    by (apply take_ge; unfold frontiers; simpl; lia).
  rewrite Htake in Hp, Hst'. exists s, attempt. split_and!; [done | done | | done |].
  - rewrite Hst'. unfold next_start, frontiers. simpl. rewrite (proj2 (Z.ltb_lt _ _)) by lia. done.
  - intros k x Hx. destruct (inv_blocks _ (sv_inv _ _ HSR) k x Hx) as (_ & _ & [i Hi]).
    set (a := account_calculated x) in *. destruct (sv_whole _ _ HSR a i Hi) as (l & Hl & Hin).
    destruct (wanted_pull_brings (lk_work constants) retry_limit id remote own HSR HSO Hag fuel e a i l k x)
      as [Hk | (p & c & Hw & Hcx & Hb)]; try done; [by eapply Hna | by eapply Hin | left; by eapply known_exists | right].
    exists p, c. split_and!; [| done | done]. rewrite Hp. apply (wants_elem retry_limit id own _ (a, ai_head i)); [done |].
    apply elem_of_picks. exists i. split_and!; [done | done |].
    pose proof (servable_keys (lk_work constants) remote a i HSR HnR Hi). simpl. lia.
Qed.

(** The blocks that are pushed for targets with these ranges. *)
Lemma push_chains own ts :
  servable (lk_work constants) own → (∀ t, t ∈ ts → ∃ a l, chain_down (lg_store own) a t.1 l ∧ t.1 ≠ t.2) →
  ∃ pushed, (∀ n at_l, (length pushed < n)%nat → bulk_push_start n own (with_targets ts at_l) = Done (wire pushed)) ∧
    (∀ b, b ∈ pushed ↔ ∃ t a l, t ∈ ts ∧ chain_down (lg_store own) a t.1 l ∧ b ∈ above t.2 l).
Proof using.
  intros HO Hts. assert (Hls : ∃ ls, Forall2 (range own) ts ls).
  { clear HO. induction ts as [| t ts IH]; [by exists [] |]. destruct IH as [ls Hls].
    { intros t' Ht'. apply Hts. by apply list_elem_of_further. }
    destruct (Hts t (list_elem_of_here _ _)) as (a & l & Hl & Hne). exists (above t.2 l :: ls). constructor; [by exists a, l | done]. }
  destruct Hls as [ls Hls]. exists (concat (reverse ls)). split.
  - intros n at_l Hn. apply bulk_push_ranges; [apply HO | done |]. by rewrite <- (reverse_Permutation ls).
  - intros b. rewrite (reverse_Permutation ls). clear Hts. induction Hls as [| t l ts ls (a & lc & Hc & Hne & ->) _ IH]; simpl.
    { split; [by intros ?%not_elem_of_nil | by intros (? & ? & ? & ?%not_elem_of_nil & _)]. }
    rewrite elem_of_app, IH. split.
    + intros [Hb | (t' & a' & l' & Ht' & Hb)]; [exists t, a, lc | exists t', a', l']; (split; [| done]);
        [apply list_elem_of_here | by apply list_elem_of_further].
    + intros (t' & a' & l' & [-> | Ht']%elem_of_cons & Hc' & Hb); [left | right; by exists t', a', l'].
      assert (a' = a) as -> by (inversion Hc; inversion Hc'; congruence). by rewrite (chain_down_det _ _ _ _ _ Hc Hc').
Qed.

Lemma pushed_exact remote own :
  servable (lk_work constants) remote → servable (lk_work constants) own → agree own remote →
  no_last_account remote → no_last_account own → let ts := omap event_range (push_events own 1 (frontiers remote 0)) in
  ∃ pushed, (∀ n at_l, (length pushed < n)%nat → bulk_push_start n own (with_targets ts at_l) = Done (wire pushed)) ∧
    (∀ b, b ∈ pushed → ∃ x, st_blocks (lg_store own) !! block_hash b = Some x ∧ x.1 = b ∧
      block_or_pruned_exists remote (block_hash b) = false) ∧
    ∀ k x, st_blocks (lg_store own) !! k = Some x →
      block_or_pruned_exists remote k = true ∨ x.1 ∈ pushed ∨
      ∃ j, st_accounts (lg_store remote) !! account_calculated x = Some j ∧ block_or_pruned_exists own (ai_head j) = false.
Proof using HCL.
  intros HSR HSO Hag HnR HnO ts. pose proof (target_meaning (lk_work constants) remote own HSR HSO Hag HnR HnO) as Hmean.
  destruct (push_chains own ts HSO) as (pushed & Hpush & Hel).
  { intros t Ht. destruct (Hmean t Ht) as (a & i & l & _ & _ & Hne & Hl & _). by exists a, l. }
  exists pushed. split_and!; [done | |].
  - intros b (t & a & l & Ht & Hl & Hb)%Hel. destruct (Hmean t Ht) as (a' & i & l' & _ & _ & _ & Hl' & Hun).
    assert (a' = a) as -> by (inversion Hl; inversion Hl'; congruence).
    rewrite <- (chain_down_det _ _ _ _ _ Hl Hl') in Hun. pose proof (chain_down_blocks _ _ _ _ Hl) as Hbs.
    apply (above_Forall _ _ t.2) in Hbs. rewrite Forall_forall in Hbs. destruct (Hbs b Hb) as (k & x & Hx & ->).
    destruct (inv_blocks _ (sv_inv _ _ HSO) k x Hx) as (_ & Hk & _). exists x. rewrite <- Hk. split_and!; [done | done |].
    apply not_true_is_false. rewrite (known_exists (lk_work constants) remote HSR), Hk. by apply Hun.
  - intros k x Hx. destruct (inv_blocks _ (sv_inv _ _ HSO) k x Hx) as (_ & _ & [i Hi]).
    destruct (sv_whole _ _ HSO _ i Hi) as (l & Hl & Hall). pose proof (Hall k x Hx eq_refl) as Hin.
    destruct (target_missing (lk_work constants) remote own HSR HSO Hag HnR HnO _ i l k x Hi Hl Hx Hin)
      as [Hkn | [(end_a & Ht & Hab) | Hj]]; [left; by eapply known_exists | right; left | by right; right].
    apply Hel. by exists (ai_head i, end_a), (account_calculated x), l.
Qed.

(** C27: A bootstrap also brings the peer what it lacks: the same frontier request
    finds the ranges of blocks to push, and if their cost is within the limit, the
    push is written and read without error and gives to the peer's block processor a
    sequence of own blocks none of which the peer knows, and which contains every
    own block that the peer does not know, but for accounts of which the peer has a
    head that is not known here. Conditions: the request asks for more frontiers
    than the peer has accounts (bootstrap_frontier_request_count) and for any age;
    the peer is not found too slow; both ledgers were reached by processing, without
    epoch blocks that open accounts on foreign blocks, were never pruned, and agree
    on account and predecessor of common hashes; the genesis block passes the checks
    of the reader; no account is the largest number. *)
Theorem bootstrap_pushes_missing remote own fuel now ck count retry_limit id :
  genesis_served → chain_reachable constants remote → chain_reachable constants own → agree own remote →
  no_last_account remote → no_last_account own →
  Z.of_nat (size (st_accounts (lg_store remote))) < count → count + 1 < u32_mod →
  (size (st_accounts (lg_store remote)) < fuel)%nat → (size (st_accounts (lg_store own)) < fuel)%nat →
  push_cost (push_events own 1 (frontiers remote 0)) <= bulk_push_cost_limit →
  ∃ s attempt pushed,
    frontier_response fuel now remote (frontier_run_request 0 u32_max count) = Done s ∧
    request_frontier retry_limit id fuel fuel own (λ _, false) u32_max count s (LegacyAttempt [] [] 0) =
      Done (false, attempt) ∧
    (∀ n, (length pushed < n)%nat → bulk_push_start n own attempt = Done (wire pushed)) ∧
    (∀ n p, (length pushed < n)%nat → bulk_push_receive n (lk_work constants) false now ck (wire pushed) p =
      Done (foldl (λ p b, process_active now ck b p) p pushed, true)) ∧
    (∀ b, b ∈ pushed → is_Some (st_blocks (lg_store own) !! block_hash b) ∧
      block_or_pruned_exists remote (block_hash b) = false) ∧
    ∀ k x, st_blocks (lg_store own) !! k = Some x →
      block_or_pruned_exists remote k = true ∨ x.1 ∈ pushed ∨
      ∃ j, st_accounts (lg_store remote) !! account_calculated x = Some j ∧ block_or_pruned_exists own (ai_head j) = false.
Proof using HCL.
  intros Hg HR HO Hag HnR HnO Hn Hc Hfr Hfo Hcost.
  pose proof (node_servable remote Hg HR) as HSR. pose proof (node_servable own Hg HO) as HSO.
  destruct (frontier_exchange (lk_work constants) retry_limit id remote own HSR HSO HnR HnO fuel now (LegacyAttempt [] [] 0) count)
    as (s & attempt & Hs & Hreq & _ & _ & Hps); [simpl; unfold u256_mod; lia | lia | lia | done | done |].
  simpl in Hs, Hreq, Hps. pose proof (length_picks heads (st_accounts (lg_store remote)) 0) as Hlen.
  assert (Htake : take (Z.to_nat count) (frontiers remote 0) = frontiers remote 0)
    by (apply take_ge; unfold frontiers; simpl; lia).
  rewrite Htake in Hps. specialize (Hps ltac:(unfold frontiers; simpl; lia)).
  rewrite push_all in Hps by (done || exact Hcost). simpl in Hps.
  destruct (pushed_exact remote own HSR HSO Hag HnR HnO) as (pushed & Hpush & Hb & Hall).
  exists s, attempt, pushed. split_and!; [done | done | | | | done].
  - intros n Hl. rewrite <- (Hpush n attempt Hl). unfold with_targets. change 1 with (0 + 1). rewrite <- Hps. by destruct attempt.
  - intros n p Hl. apply push_received; [| done]. apply Forall_forall. intros b (x & Hx & <- & _)%Hb. by eapply (sv_wf _ _ HSO).
  - intros b (x & Hx & _ & Hu)%Hb. by rewrite Hx.
Qed.
End nodes.
