(* ===== verification/Samples.v ===== *)
(** * Concrete ledgers

    A toy instance of the cryptographic primitives and a short history of
    blocks (legacy and state kinds, two accounts next to genesis), on which the
    definitions are evaluated and the hypotheses of the theorems are shown to be
    satisfiable. *)

From S2P Require Import Prelude Blocks BlockCodec Common RepWeights EpochsWork Store Ledger.
From S2P Require Import LedgerApply LedgerInvariant LedgerSteps LedgerTheorems.

(** A digest that is injective on short inputs, work that always suffices, and
    signatures that are the key followed by the message. *)
Definition toy_digest (n : nat) (m : bytes) : bytes :=
  if bool_decide (n = 8%nat) then to_be 8 u64_max
  else to_be n (1 + of_be m mod (2 ^ 255 - 19)).

#[export] Instance toy_crypto : Crypto := {|
  blake2b := toy_digest;
  ed25519_sign_open := λ pk m s, of_be s =? of_be (pk ++ m);
|}.

#[export] Instance toy_crypto_laws : CryptoLaws toy_crypto.
Proof.
  split. intros n m. simpl. unfold toy_digest. case_bool_decide as Hn; [subst |]; apply length_to_be.
Qed.

Definition toy_sign (key : Z) (b : block) : Z :=
  of_be (to_be 32 key ++ to_be 32 (block_hash b)).

(** The block with the signature of [key]. *)
Definition signed_by (key : Z) (b : block) : block :=
  match b with
  | send_block h _ w => send_block h (toy_sign key b) w
  | receive_block h _ w => receive_block h (toy_sign key b) w
  | open_block h _ w => open_block h (toy_sign key b) w
  | change_block h _ w => change_block h (toy_sign key b) w
  | state_block h _ w => state_block h (toy_sign key b) w
  end.

Definition genesis_key : Z := 1.
Definition alice : Z := 5.
Definition bob : Z := 9.
Definition epoch_key : Z := 7.

Definition sample_epochs : epochs :=
  epochs_add (epochs_add [] epoch_1 epoch_key 1001) epoch_2 epoch_key 1002.

Definition sample_constants : ledger_constants :=
  LedgerConstants publish_dev
    (signed_by genesis_key (open_block (OpenHashables genesis_key genesis_key genesis_key) 0 0))
    sample_epochs genesis_key 1.

Definition sample_genesis : block := lk_genesis sample_constants.

Definition ledger_of (o : outcome ledger) : ledger :=
  match o with Ok L => L | Aborted => Ledger empty_store empty_cache false end.

(** Process a block at time 10. *)
Definition run (L : ledger) (b : block) : ledger :=
  match process sample_constants L b sv_unknown 10 10 with
  | Ok (_, L') => L'
  | Aborted => L
  end.

Definition sample0 : ledger := ledger_of (initialize sample_constants 10 10).

(** Genesis sends 100 to Alice, who opens her account, both with legacy blocks. *)
Definition send1 : block :=
  signed_by genesis_key
    (send_block (SendHashables (block_hash sample_genesis) alice (genesis_amount - 100)) 0 0).
Definition open1 : block :=
  signed_by alice (open_block (OpenHashables (block_hash send1) alice alice) 0 0).
(** Alice sends 30 to Bob with a state block. *)
Definition send2 : block :=
  signed_by alice (state_block (StateHashables alice (block_hash open1) bob 70 bob) 0 0).
(** Bob opens his account with a state block. *)
Definition open2 : block :=
  signed_by bob (state_block (StateHashables bob 0 bob 30 (block_hash send2)) 0 0).
(** Bob sends 10 back to Alice. *)
Definition send3 : block :=
  signed_by bob (state_block (StateHashables bob (block_hash open2) bob 20 alice) 0 0).

Definition sample1 : ledger := run sample0 send1.
Definition sample2 : ledger := run sample1 open1.
Definition sample3 : ledger := run sample2 send2.
Definition sample4 : ledger := run sample3 open2.
Definition sample5 : ledger := run sample4 send3.

(** Discharge a closed side condition by evaluation. *)
Ltac concrete := vm_compute; repeat split; congruence.

Lemma sample0_reachable : reachable sample_constants sample0.
Proof.
  assert (Hg : genesis_ok sample_constants) by (split; vm_compute; congruence).
  destruct (initialize_ok sample_constants 10 10 Hg) as (L & Hi & _).
  unfold sample0. rewrite Hi. by apply (reachable_init sample_constants 10 10).
Qed.

Lemma run_step L b :
  reachable sample_constants L → block_wf b → block_hash b ≠ 0 →
  ledger_step sample_constants L (run L b).
Proof.
  intros HL Hwf Hnz. pose proof (reachable_inv _ _ HL) as Hinv.
  apply (ledger_step_process _ _ _ b sv_unknown 10 10
    (match process sample_constants L b sv_unknown 10 10 with
     | Ok (r, _) => r | Aborted => ProcessReturn old sv_unknown None end) Hwf Hnz).
  unfold run. destruct (process_step sample_constants L Hinv b sv_unknown 10 10 Hwf Hnz)
    as [(r & -> & _) | (a & sb & new & eff & w & v' & _ & ->)]; done.
Qed.

Lemma run_reachable L b :
  reachable sample_constants L → block_wf b → block_hash b ≠ 0 →
  reachable sample_constants (run L b).
Proof. intros HL Hwf Hnz. eapply reachable_step; [done |]. by apply run_step. Qed.

Lemma sample1_reachable : reachable sample_constants sample1.
Proof. apply run_reachable; [apply sample0_reachable | concrete..]. Qed.
Lemma sample2_reachable : reachable sample_constants sample2.
Proof. apply run_reachable; [apply sample1_reachable | concrete..]. Qed.
Lemma sample3_reachable : reachable sample_constants sample3.
Proof. apply run_reachable; [apply sample2_reachable | concrete..]. Qed.
Lemma sample4_reachable : reachable sample_constants sample4.
Proof. apply run_reachable; [apply sample3_reachable | concrete..]. Qed.
Lemma sample5_reachable : reachable sample_constants sample5.
Proof. apply run_reachable; [apply sample4_reachable | concrete..]. Qed.

(** The history goes through: balances of Alice and Bob at the end. *)
Example sample_history :
  ai_balance <$> account_get (lg_store sample5) alice = Some 70 ∧
  ai_balance <$> account_get (lg_store sample5) bob = Some 20 ∧
  pi_amount <$> pending_get (lg_store sample5) (alice, block_hash send3) = Some 10 ∧
  representation_get (lc_rep_weights (lg_cache sample5)) bob = 90.
Proof. vm_compute. done. Qed.
