(* ===== verification/LedgerWitnesses.v ===== *)
(** * The ledger theorems at concrete ledgers

    The theorems on processing, the account book, rollback, queries, start-up,
    pruning and the block table, applied to the sample history. *)

From S2P Require Import Prelude Blocks BlockCodec Traversal Common RepWeights EpochsWork Store.
From S2P Require Import BlockStoreRaw Ledger LedgerApply LedgerInvariant LedgerSteps LedgerTheorems.
From S2P Require Import AccountBook Rollback RollbackTheorems LedgerQueries Samples.

Lemma process_total_and_atomic_witness :
  ∃ r L', process sample_constants sample0 send1 sv_unknown 10 10 = Ok (r, L').
Proof.
  destruct (process_total_and_atomic sample_constants sample0 send1 sv_unknown 10 10
    sample0_reachable ltac:(concrete) ltac:(concrete)) as (r & L' & Hp & _).
  exists r, L'. exact Hp.
Defined.

Lemma coin_supply_conserved_witness :
  sum_map ai_balance (st_accounts (lg_store sample5)) +
    sum_map pi_amount (st_pending (lg_store sample5)) = genesis_amount.
Proof. exact (proj1 (coin_supply_conserved sample_constants sample5 sample5_reachable)). Defined.

Lemma representative_weights_exact_witness :
  sum_map (λ i, if decide (ai_representative i = bob) then ai_balance i else 0)
    (st_accounts (lg_store sample5)) = 90.
Proof.
  rewrite <- (representative_weights_exact sample_constants sample5 bob sample5_reachable).
  vm_compute. reflexivity.
Defined.

(** Equations [process L b v t1 t2 = Ok (r, L')] with the result computed. *)
Definition result_of (L : ledger) (b : block) : process_return :=
  match process sample_constants L b sv_unknown 10 10 with
  | Ok (r, _) => r
  | Aborted => ProcessReturn old sv_unknown None
  end.

Lemma run_process L b :
  (match process sample_constants L b sv_unknown 10 10 with Ok _ => true | Aborted => false end) = true →
  process sample_constants L b sv_unknown 10 10 = Ok (result_of L b, run L b).
Proof. unfold result_of, run. by destruct (process _ _ _ _ _ _) as [[] |]. Qed.

Lemma changes_are_authorised_witness :
  ∃ a, ∀ a', a' ≠ a → account_get (lg_store sample3) a' = account_get (lg_store sample2) a'.
Proof.
  destruct (changes_are_authorised sample_constants sample2 send2 sv_unknown 10 10
    (result_of sample2 send2) sample3 sample2_reachable ltac:(concrete) ltac:(concrete)
    ltac:(apply run_process; vm_compute; reflexivity) ltac:(vm_compute; reflexivity))
    as (a & Ha & _).
  exists a. exact Ha.
Defined.

Lemma send_received_at_most_once_witness :
  pending_get (lg_store sample5) (alice, block_hash send1) = None.
Proof.
  apply (send_received_at_most_once sample_constants sample1 open1 sv_unknown 10 10
    (result_of sample1 open1) sample2 alice (block_hash send1) (PendingInfo genesis_key 100 epoch_0)).
  - exact sample1_reachable.
  - concrete.
  - concrete.
  - apply run_process. vm_compute. reflexivity.
  - vm_compute. reflexivity.
  - vm_compute. reflexivity.
  - eapply rtc_l; [apply (run_step sample2 send2 sample2_reachable); concrete |].
    eapply rtc_l; [apply (run_step sample3 open2 sample3_reachable); concrete |].
    eapply rtc_l; [apply (run_step sample4 send3 sample4_reachable); concrete |].
    apply rtc_refl.
Defined.

(** A second spend of Alice's first block, to herself. *)
Definition send2_fork : block :=
  signed_by alice (state_block (StateHashables alice (block_hash open1) bob 60 alice) 0 0).

Lemma conflicting_root_refused_witness :
  ∃ r, process sample_constants sample4 send2_fork sv_unknown 10 10 = Ok (r, sample4) ∧
    pr_code r ≠ progress.
Proof.
  apply (conflicting_root_refused sample_constants sample2 send2 sv_unknown 10 10
    (result_of sample2 send2) sample3).
  - exact sample2_reachable.
  - concrete.
  - concrete.
  - concrete.
  - concrete.
  - apply run_process. vm_compute. reflexivity.
  - vm_compute. reflexivity.
  - eapply rtc_l; [apply (run_step sample3 open2 sample3_reachable); concrete |]. apply rtc_refl.
  - vm_compute. reflexivity.
  - vm_compute. reflexivity.
  - vm_compute. reflexivity.
Defined.

Lemma ledger_indices_exact_witness : lc_account_count (lg_cache sample5) = 3.
Proof.
  destruct (ledger_indices_exact sample_constants sample5 sample5_reachable) as (_ & _ & _ & Hc).
  rewrite Hc. vm_compute. reflexivity.
Defined.

Lemma process_refines_book_witness :
  ∃ r L', process sample_constants sample2 send2 sv_unknown 10 10 = Ok (r, L').
Proof.
  destruct (process_refines_book sample_constants sample2 send2 sv_unknown 10 10
    sample2_reachable ltac:(concrete) ltac:(concrete)) as (r & L' & Hp & _).
  exists r, L'. exact Hp.
Defined.

(** The parts of a state block. *)
Definition state_hashables_of (b : block) : state_hashables :=
  match b with state_block h _ _ => h | _ => StateHashables 0 0 0 0 0 end.

Definition info_of (L : ledger) (a : Z) : account_info := account_info_or_default L a.

Lemma state_send_accepted_witness :
  ∃ r L', process sample_constants sample4 send3 sv_unknown 10 10 = Ok (r, L') ∧
    pr_code r = progress.
Proof.
  destruct (state_send_accepted sample_constants sample4 (state_hashables_of send3)
    (block_signature send3) (block_work send3) (info_of sample4 bob) 10 10)
    as (r & L' & Hp & Hr & _).
  - exact sample4_reachable.
  - concrete.
  - split; vm_compute; reflexivity.
  - vm_compute. split; congruence.
  - vm_compute. reflexivity.
  - exists r, L'. split; [exact Hp | exact Hr].
Defined.

(** Alice receives the 10 that Bob sent back. *)
Definition receive3 : block :=
  signed_by alice (state_block (StateHashables alice (block_hash send2) bob 80 (block_hash send3)) 0 0).

Lemma state_receive_accepted_witness :
  ∃ r L', process sample_constants sample5 receive3 sv_unknown 10 10 = Ok (r, L') ∧
    pr_code r = progress.
Proof.
  destruct (state_receive_accepted sample_constants sample5 (state_hashables_of receive3)
    (block_signature receive3) (block_work receive3) (info_of sample5 alice)
    (PendingInfo bob 10 epoch_0) 10 10) as (r & L' & Hp & Hr & _).
  - exact sample5_reachable.
  - concrete.
  - split; vm_compute; reflexivity.
  - vm_compute. congruence.
  - vm_compute. reflexivity.
  - vm_compute. reflexivity.
  - vm_compute. reflexivity.
  - exists r, L'. split; [exact Hp | exact Hr].
Defined.

(** * Rollback at concrete ledgers

    The rollback theorems applied to the sample history, and three behaviours of
    the processor and the rollback visitor shown by evaluation. *)

(** The history satisfies the chain conditions. *)
Lemma sample0_chain : chain_reachable sample_constants sample0.
Proof.
  assert (Hg : genesis_ok sample_constants) by (split; vm_compute; congruence).
  destruct (initialize_ok sample_constants 10 10 Hg) as (L & Hi & _).
  unfold sample0. rewrite Hi. by apply (chain_init sample_constants 10 10).
Qed.

Lemma run_chain L b :
  chain_reachable sample_constants L → is_epoch_link sample_constants (link b) = false →
  block_wf b → block_hash b ≠ 0 → chain_reachable sample_constants (run L b).
Proof.
  intros HC Hl Hwf Hnz. pose proof (ci_inv _ (chain_reachable_inv _ _ HC)) as HL.
  apply (chain_step sample_constants L b sv_unknown 10 10 (result_of L b)); try done.
  - intros Hl'. congruence.
  - apply run_process.
    destruct (process_step sample_constants L HL b sv_unknown 10 10 Hwf Hnz)
      as [(r & -> & _) | (? & ? & ? & ? & ? & ? & _ & ->)]; done.
Qed.

Lemma sample4_chain : chain_reachable sample_constants sample4.
Proof.
  unfold sample4, sample3, sample2, sample1.
  repeat (apply run_chain; [| vm_compute; reflexivity | concrete | concrete]).
  apply sample0_chain.
Qed.

Lemma rollback_undoes_process_witness :
  ∃ L e, rollback sample_constants (λ _, 20) 2 sample5 (block_hash send3) [] = Done (false, L, [e]) ∧
    e.1 = send3 ∧ ledger_equiv L sample4.
Proof.
  apply (rollback_undoes_process sample_constants (λ _, 20) sample4 send3 sv_unknown 10 10
    (result_of sample4 send3) sample5 2).
  - exact sample4_chain.
  - concrete.
  - concrete.
  - intros Hl. vm_compute in Hl. congruence.
  - intros Hl. vm_compute in Hl. congruence.
  - apply run_process. vm_compute. reflexivity.
  - vm_compute. reflexivity.
  - intros e He. vm_compute in He. injection He as <-. vm_compute. reflexivity.
  - lia.
Defined.

(** Bob's first block cemented. *)
Definition sample5_cemented : ledger :=
  with_store (confirmation_height_put (lg_store sample5) bob
    (ConfirmationHeightInfo 1 (block_hash open2))) sample5.

Lemma rollback_respects_confirmation_witness :
  rollback sample_constants (λ _, 20) 1 sample5_cemented (block_hash open2) [] =
  Done (true, sample5_cemented, []).
Proof.
  apply (rollback_respects_confirmation sample_constants (λ _, 20) 1 sample5_cemented (block_hash open2)
    (open2, BlockSideband (block_hash send3) 0 0 1 10 (BlockDetails epoch_0 false true false) epoch_0)).
  - vm_compute. reflexivity.
  - vm_compute. congruence.
  - lia.
Defined.

(** ** Findings *)

(** Alice's open block cemented, with the legacy send to her still unconfirmed. *)
Definition sample2_cemented : ledger :=
  with_store (confirmation_height_put (lg_store sample2) alice
    (ConfirmationHeightInfo 1 (block_hash open1))) sample2.

Definition rollback_error (r : run_result rollback_out) : option bool :=
  match r with Done (error, _, _) => Some error | _ => None end.

(** A rollback of a legacy send whose receive is cemented reports the error,
    while that of a state send ends the process at the deletion of the pending
    entry: the error of the nested rollback is kept in a local variable and not
    propagated. *)
Theorem state_rollback_drops_nested_error :
  rollback_error (rollback sample_constants (λ _, 20) 9 sample2_cemented (block_hash send1) []) =
    Some true ∧
  rollback sample_constants (λ _, 20) 9 sample5_cemented (block_hash send2) [] = Crashed.
Proof. vm_compute. split; reflexivity. Qed.

(** Bob empties his account towards Carol; an epoch block then opens Carol's
    account with Bob's head as its predecessor. *)
Definition carol : Z := 11.
Definition send4 : block :=
  signed_by bob (state_block (StateHashables bob (block_hash send3) bob 0 carol) 0 0).
Definition epoch_open : block :=
  signed_by epoch_key (state_block (StateHashables carol (block_hash send4) 0 0 1001) 0 0).
Definition bob_change : block :=
  signed_by bob (state_block (StateHashables bob (block_hash send4) alice 0 0) 0 0).

Definition sample6 : ledger := run sample5 send4.
Definition sample7 : ledger := run sample6 epoch_open.

(** An epoch block that opens an account is accepted with a previous field that
    names the head of another account, and the next block of that other account is
    accepted on the same root. *)
Theorem epoch_open_takes_foreign_predecessor :
  account epoch_open ≠ account bob_change ∧
  qualified_root epoch_open = qualified_root bob_change ∧
  previous epoch_open = latest sample6 bob ∧
  pr_code (result_of sample6 epoch_open) = progress ∧
  pr_code (result_of sample7 bob_change) = progress.
Proof. vm_compute. repeat split; congruence. Qed.

(** * Queries, start-up, pruning and the block table at concrete ledgers

    The theorems of [LedgerQueries], [BlockStoreRaw] and [EpochsWork] applied to
    the sample history. *)

(** A property of the keys of a table, by evaluation. *)
Lemma all_keys {A} (P : Z → bool) (t : gmap Z A) :
  forallb (λ x, P x.1) (map_to_list t) = true → ∀ k, is_Some (t !! k) → P k = true.
Proof.
  rewrite forallb_forall. intros Hall k [v Hk%elem_of_map_to_list%list_elem_of_In].
  exact (Hall _ Hk).
Qed.

Definition u256_key (k : Z) : bool := (0 <=? k) && (k <? u256_mod).

Lemma u256_keys {A} (t : gmap Z A) :
  forallb (λ x, u256_key x.1) (map_to_list t) = true → ∀ k, is_Some (t !! k) → is_u256 k.
Proof. intros Ht k Hk. pose proof (all_keys u256_key t Ht k Hk) as Hu. unfold u256_key in Hu. unfold is_u256. lia. Qed.

Lemma account_receivable_exact_witness :
  account_receivable sample5 alice false =
  Done (sum_map pi_amount
    (filter (λ kp, kp.1.1 = alice ∧ (false = true → block_confirmed sample5 kp.1.2 = true))
       (st_pending (lg_store sample5)))).
Proof.
  apply (account_receivable_exact sample_constants sample5 alice false).
  - exact sample5_reachable.
  - assert (Hall : forallb (λ kp, 0 <=? kp.1.2) (map_to_list (st_pending (lg_store sample5))) = true)
      by (vm_compute; reflexivity).
    rewrite forallb_forall in Hall. intros k [p Hk%elem_of_map_to_list%list_elem_of_In].
    specialize (Hall (k, p)). apply Z.leb_le, Hall, Hk.
  - vm_compute. split; congruence.
Defined.

(** Pruning Alice's opening block and what precedes it. *)
(** Alice's open block is pruned, she changes her representative, and her next block
    is pruned: the second pruning ends at the block pruned before. *)
Definition prune (L : ledger) (hash : Z) : ledger :=
  match pruning_action sample_constants 20 L hash with Done (_, L') => L' | _ => L end.

Definition change3 : block :=
  signed_by alice (state_block (StateHashables alice (block_hash send2) alice 70 0) 0 0).
Definition pruned4 : ledger := prune sample4 (block_hash open1).
Definition pruned5 : ledger := run pruned4 change3.

Lemma no_head_buried L k :
  block_or_pruned_exists L k && forallb (λ ai, negb (ai_head ai.2 =? k)) (map_to_list (st_accounts (lg_store L))) = true →
  buried L k.
Proof.
  intros [Hk Hall]%andb_true_iff. split; [done |]. rewrite forallb_forall in Hall.
  intros a i Hi%elem_of_map_to_list%list_elem_of_In Hh. specialize (Hall _ Hi). simpl in Hall. lia.
Qed.

Lemma pruned5_reachable : pruning_reachable sample_constants pruned5.
Proof.
  assert (H4 : pruning_reachable sample_constants pruned4).
  { assert (∃ n, pruning_action sample_constants 20 sample4 (block_hash open1) = Done (n, pruned4)) as [n Hp].
    { unfold pruned4, prune. destruct (pruning_action _ _ _ _) as [[n L] | |] eqn:Hp; [by exists n | vm_compute in Hp; done..]. }
    eapply pruning_prune; [apply pruning_start; left; exact sample4_chain | | | exact Hp].
    - apply no_head_buried. vm_compute. reflexivity.
    - vm_compute. lia. }
  eapply (pruning_process _ pruned4 change3 sv_unknown 10 10 (result_of pruned4 change3)); [done | | concrete | concrete |].
  - intros Hl. vm_compute in Hl. discriminate Hl.
  - apply run_process. vm_compute. reflexivity.
Qed.

Lemma pruning_keeps_ledger_witness :
  ∃ n L', pruning_action sample_constants 20 pruned5 (block_hash send2) = Done (n, L') ∧
    st_accounts (lg_store L') = st_accounts (lg_store pruned5) ∧ st_blocks (lg_store L') !! block_hash send2 = None ∧
    block_or_pruned_exists L' (block_hash send2) = true.
Proof.
  destruct (pruning_keeps_ledger sample_constants pruned5 (block_hash send2) 20)
    as (n & L' & Hp & _ & Ha & _ & Hb & Hk & _).
  - exact pruned5_reachable.
  - apply no_head_buried. vm_compute. reflexivity.
  - vm_compute. lia.
  - exists n, L'. split; [exact Hp |]. split; [exact Ha |]. split.
    + destruct (st_blocks (lg_store L') !! block_hash send2) as [e |] eqn:He; [| reflexivity].
      apply Hb in He as [_ He]. destruct He. apply below_here; vm_compute; congruence.
    + rewrite Hk. vm_compute. reflexivity.
Defined.

Lemma accepted_block_fits_witness :
  could_fit sample_constants sample3 (open2, None) = Ok true.
Proof.
  apply (accepted_block_fits sample_constants sample3 open2 sv_unknown 10 10
    (result_of sample3 open2) sample4).
  - exact sample3_reachable.
  - vm_compute. reflexivity.
  - concrete.
  - concrete.
  - apply run_process. vm_compute. reflexivity.
  - vm_compute. reflexivity.
Defined.

Lemma entry_work_is_necessary_witness : validate_entry publish_dev send2 = false.
Proof.
  apply (entry_work_is_necessary publish_dev send2 (BlockDetails epoch_0 true false false)).
  - vm_compute. congruence.
  - vm_compute. congruence.
  - vm_compute. congruence.
  - intros Ht. vm_compute in Ht. congruence.
  - vm_compute. reflexivity.
Defined.

(** Writing the genesis block into an empty table. *)
Lemma block_table_refines_witness :
  ∃ t, raw_block_put ∅ (block_hash sample_genesis) sample_genesis
    (BlockSideband 0 genesis_key genesis_amount 1 10 (BlockDetails epoch_0 false false false) epoch_0)
    = Ok t.
Proof.
  pose (sb := BlockSideband 0 genesis_key genesis_amount 1 10 (BlockDetails epoch_0 false false false) epoch_0).
  destruct (block_table_refines ∅ empty_store sample_genesis sb 0) as (_ & _ & _ & Hp & _).
  - split; intros k; [done |]. intros e He. vm_compute in He. congruence.
  - concrete.
  - concrete.
  - vm_compute. split; congruence.
  - destruct (Hp _ eq_refl) as (t & Ht & _). exists t. exact Ht.
Defined.
