(* ===== verification/NodeWitnesses.v ===== *)
(** * Votes, the election queue and elections at concrete inputs

    The theorems of [Vote], [Prioritization] and [ElectionTheorems] that depend
    on digests, applied with the toy primitives of [Samples], and two behaviours
    of elections shown by evaluation. *)

From S2P Require Import Prelude Blocks BlockCodec Vote Prioritization Election ElectionTheorems.
From S2P Require Import Numbers OnlineReps EpochsWork NetworkFilter Messages MessageTheorems Samples.

Definition sample_vote : vote :=
  Vote (packed_timestamp 1000 3) [vote_block send2; vote_block_hash 7] alice 99.

Lemma sample_vote_wf : vote_wf sample_vote.
Proof.
  split_and!; [vm_compute; split; congruence.. |].
  repeat constructor; vm_compute; repeat split; congruence.
Qed.

Lemma vote_typed_roundtrip_witness :
  vote_read_typed (vote_serialize_typed sample_vote bt_not_a_block) bt_not_a_block =
  Some (vote_sent bt_not_a_block sample_vote).
Proof.
  apply (vote_typed_roundtrip sample_vote bt_not_a_block).
  - exact sample_vote_wf.
  - vm_compute. congruence.
  - repeat constructor.
Defined.

(** A vote by hash and the same vote by block sign the same bytes when there is
    more than one. *)
Lemma vote_signature_covers_witness :
  vote_hash_input sample_vote = vote_hash_input (vote_sent bt_not_a_block sample_vote).
Proof.
  apply (vote_signature_covers sample_vote (vote_sent bt_not_a_block sample_vote)).
  - exact sample_vote_wf.
  - split_and!; [vm_compute; split; congruence.. |].
    repeat constructor; vm_compute; repeat split; congruence.
  - split_and!; vm_compute; reflexivity.
Defined.

(** A signature changed in its last 56 bytes leaves the digest as it is. *)
Lemma vote_full_hash_truncates_witness :
  vote_full_hash (Vote (vt_timestamp_m sample_vote) (vt_blocks sample_vote) alice (2 ^ 447)) =
  vote_full_hash sample_vote.
Proof. apply (vote_full_hash_truncates sample_vote); vm_compute; reflexivity. Defined.

(** ** The election queue *)

Definition queue_of (o : outcome prioritization) : prioritization :=
  match o with Ok p => p | Aborted => prioritization_new 0 end.

Definition queue1 : prioritization := queue_of (push (prioritization_new 1290) 10 send2 None).
Definition queue2 : prioritization := queue_of (push queue1 5 open2 None).

Lemma queue2_reachable : queue_reachable queue2.
Proof.
  apply (queue_push queue1 5 open2 None 30); [| vm_compute; reflexivity | vm_compute; split; congruence
    | vm_compute; reflexivity].
  apply (queue_push (prioritization_new 1290) 10 send2 None 70); [apply queue_new | vm_compute; reflexivity
    | vm_compute; split; congruence | vm_compute; reflexivity].
Qed.

Lemma queue_serves_in_order_witness : ∃ v p', top queue2 = Some v ∧ pop queue2 = Ok p'.
Proof.
  destruct (queue_serves_in_order queue2 queue2_reachable) as (v & p' & b & Ht & Hp & _).
  - vm_compute. reflexivity.
  - exists v, p'. split; [exact Ht | exact Hp].
Defined.

Lemma queue_push_files_by_balance_witness : ∃ p', push queue2 7 send3 None = Ok p'.
Proof.
  destruct (queue_push_files_by_balance queue2 7 send3 None 20 queue2_reachable)
    as (p' & bk & bk' & Hp & _).
  - vm_compute. reflexivity.
  - vm_compute. split; congruence.
  - exists p'. exact Hp.
Defined.

Lemma queue_round_robin_witness :
  ∃ n p', pops n queue2 = Ok p' ∧ top p' = Some (ValueType 5 open2 None).
Proof.
  destruct (queue_round_robin queue2 5 [ValueType 5 open2 None] queue2_reachable)
    as (n & p' & _ & Hp & _ & _ & Ht).
  - vm_compute. reflexivity.
  - congruence.
  - exists n, p'. split; [exact Hp | exact Ht].
Defined.

(** ** Elections *)

(** Alice and Bob have 40 of 100 each; the delta is that of 100 online. *)
Definition sample_delta : Z := delta (OnlineConfig 100 300 4) (OnlineReps ∅ 100 100 ∅).

Definition sample_env : env :=
  Env false (λ a, if a =? alice then 40 else if a =? bob then 40 else if a =? genesis_key then 20 else 0)
    100 sample_delta false true (λ _, []) (λ _, 0) 0 0 false (λ A l, l).

Lemma sample_env_ok : env_ok sample_env.
Proof. intros A l. done. Qed.

(** Another block of Alice's on the same predecessor. *)
Definition send2_rival : block :=
  signed_by alice (state_block (StateHashables alice (block_hash open1) bob 60 alice) 0 0).

Definition election_a : world := election_new sample_env send2 3 normal.
Definition election_b : world := election_new sample_env send2_rival 3 normal.

Definition world_of (o : outcome (bool * bool * world)) (w : world) : world :=
  match o with Ok (_, _, w') => w' | Aborted => w end.

Definition election_a1 : world := world_of (election_vote sample_env bob u64_max (block_hash send2) election_a) election_a.
Definition election_b1 : world := world_of (election_vote sample_env alice u64_max (block_hash send2_rival) election_b) election_b.

Lemma sample_weights_nonneg a : 0 <= en_weight sample_env a.
Proof. simpl. repeat case_match; lia. Qed.

Lemma election_a_inv : election_inv (wo_election election_a).
Proof. apply election_new_lifecycle. Qed.

Lemma confirmation_needs_quorum_witness :
  en_delta sample_env <= support sample_env
    (<[bob := VoteInfo 0 u64_max (block_hash send2)]> (el_last_votes (wo_election election_a)))
    (block_hash (es_winner (el_status (wo_election election_a1)))).
Proof.
  destruct (confirmation_needs_quorum sample_env election_a bob u64_max (block_hash send2)
    false true election_a1) as [(_ & Hd & _) _].
  - exact election_a_inv.
  - vm_compute. congruence.
  - split; [exact sample_env_ok | exact sample_weights_nonneg | vm_compute; reflexivity].
  - vm_compute. reflexivity.
  - vm_compute. reflexivity.
  - vm_compute. reflexivity.
  - exact Hd.
Defined.

Lemma vote_replaces_older_only_witness :
  ∃ replay processed w', election_vote sample_env bob 16 (block_hash send2) election_a1 =
    Ok (replay, processed, w') ∧ (processed = false → w' = election_a1).
Proof.
  destruct (vote_replaces_older_only sample_env election_a1 bob 16 (block_hash send2))
    as (replay & processed & w' & Hv & Hp & _).
  - vm_compute. eexists. reflexivity.
  - exact sample_env_ok.
  - exists replay, processed, w'. split; [exact Hv | exact Hp].
Defined.

Lemma election_a_step : election_step election_a election_a1.
Proof. apply (step_vote sample_env bob u64_max (block_hash send2) false true). vm_compute. reflexivity. Qed.

Lemma confirmed_winner_is_final_witness : (length (announcements election_a1) <= 1)%nat.
Proof.
  apply (confirmed_winner_is_final sample_env send2 3 normal election_a1 election_a1).
  - eapply rtc_l; [exact election_a_step |]. apply rtc_refl.
  - apply rtc_refl.
Defined.

(** Because the delta is below half of the stake, two nodes that see disjoint
    votes of 40 percent each confirm two different blocks with the same root. *)
Theorem quorums_can_be_disjoint :
  2 * sample_delta <= 100 ∧ root send2 = root send2_rival ∧
  confirmed (wo_election election_a1) = true ∧ confirmed (wo_election election_b1) = true ∧
  es_winner (el_status (wo_election election_a1)) = send2 ∧
  es_winner (el_status (wo_election election_b1)) = send2_rival ∧
  length (announcements election_a1) = 1%nat ∧ length (announcements election_b1) = 1%nat ∧
  block_hash send2 ≠ block_hash send2_rival.
Proof. vm_compute. repeat split; congruence. Qed.

(** Twelve rival blocks, ten representatives with one vote each, and a node that
    has seen many votes for the blocks to come. *)
Definition rival (i : Z) : block :=
  state_block (StateHashables alice (block_hash open1) bob i alice) 0 0.

Definition crowd_env : env :=
  Env true (λ a, if 100 <=? a then a else 0) 0 1000000 false false (λ _, []) (λ _, 1000) 0 0 false (λ A l, l).

Definition crowded : world :=
  fold_left (λ w i, world_of (election_vote crowd_env (100 + i) 16 (block_hash (rival i)) w) w) (seqZ 0 10)
    (fold_left (λ w i, (publish crowd_env (rival i) w).2) (seqZ 1 9)
       (election_new crowd_env (rival 0) 3 normal)).

(** A full election can grow past max_blocks: after a replacement the cached
    tally still lists the removed block, so a further block is admitted without
    removing any. *)
Theorem publish_exceeds_block_limit :
  let w1 := (publish crowd_env (rival 10) crowded).2 in
  let w2 := (publish crowd_env (rival 11) w1).2 in
  size (el_last_blocks (wo_election crowded)) = max_blocks ∧
  size (el_last_blocks (wo_election w1)) = max_blocks ∧
  size (el_last_blocks (wo_election w2)) = S max_blocks.
Proof. vm_compute. done. Qed.

(** ** Messages *)

Definition sample_network : network_constants := NetworkConstants 0x5244 18 18 publish_dev.

Lemma sample_network_wf : constants_wf sample_network.
Proof. vm_compute. repeat split; congruence. Qed.

Lemma send2_wf : block_wf send2.
Proof. vm_compute. repeat split; congruence. Qed.

Lemma message_roundtrip_witness :
  header_deserialize (message_serialize (publish_new sample_network send2)) =
  Some (msg_header (publish_new sample_network send2), block_serialize send2).
Proof.
  apply (message_roundtrip sample_network (publish_new sample_network send2)).
  - exact sample_network_wf.
  - apply built_publish. exact send2_wf.
Defined.

(** A digest for the filter that tells messages of different lengths apart. *)
Definition length_digest (s : bytes) : Z := Z.of_nat (length s).

(** The vote of a datagram differs from one in use in the last bytes of its
    signature; the parser hands on the one in use. *)
Definition used_vote : vote := Vote (packed_timestamp 1000 3) [vote_block_hash 7] alice 99.
Definition other_vote : vote := Vote (packed_timestamp 1000 3) [vote_block_hash 7] alice (2 ^ 447).
Definition used_votes : uniquers := Uniquers ∅ {[vote_full_hash used_vote := used_vote]}.
Definition other_header : message_header :=
  count_set 1 (block_type_set bt_not_a_block (header_new sample_network mt_confirm_ack)).

Lemma used_votes_ok : uniquers_ok used_votes.
Proof.
  split; [intros k b; simpl; by rewrite lookup_empty |]. intros k v. unfold used_votes. simpl.
  by intros [<- <-]%lookup_singleton_Some.
Qed.

Theorem uniquer_replaces_vote :
  vote_unique other_vote used_votes = (used_vote, used_votes) ∧ other_vote ≠ used_vote.
Proof. split; [vm_compute; reflexivity | vm_compute; congruence]. Qed.

Lemma datagram_parser_exact_witness :
  ∃ items' u', deserialize_buffer length_digest sample_network [0; 0; 0; 0] used_votes
      (message_serialize (Message other_header (pl_confirm_ack other_vote))) =
    Ok ((ps_success, Some (Message other_header (pl_confirm_ack used_vote))), items', u').
Proof.
  assert (Hu : payload_unique (pl_confirm_ack other_vote) used_votes = (pl_confirm_ack used_vote, used_votes))
    by (vm_compute; reflexivity).
  destruct (datagram_parser_exact sample_network length_digest [0; 0; 0; 0] used_votes) as (_ & Hm & _).
  - exact sample_network_wf.
  - vm_compute. congruence.
  - congruence.
  - exact used_votes_ok.
  - destruct (Hm (Message other_header (pl_confirm_ack other_vote))) as (items' & u' & Hd).
    + eapply (built_confirm_ack_hashes _ other_vote); [| simpl; lia | repeat constructor | vm_compute; reflexivity].
      split_and!; [vm_compute; split; congruence.. |]. repeat constructor; vm_compute; repeat split; congruence.
    + do 3 right. left.
    + vm_compute. lia.
    + cbn [msg_payload]. rewrite Hu. intros b Hb. apply elem_of_nil in Hb. destruct Hb.
    + intros Ht. vm_compute in Ht. discriminate Ht.
    + exists items', u'. rewrite Hd. cbn [msg_payload msg_header]. rewrite Hu. reflexivity.
Defined.

Lemma account_string_exact_witness : decode_account (encode_account alice) = Some alice.
Proof.
  assert (Ha : is_u256 alice) by (vm_compute; split; congruence).
  destruct (account_string_exact (encode_account alice) alice) as [_ Hs].
  destruct (Hs Ha) as (_ & Hd & _). exact Hd.
Defined.
