(* ===== verification/CementWitnesses.v ===== *)
(** * Cementing at concrete inputs

    The sample history of [Samples] as a run of a node, the theorems on
    cementing applied to its last block, and those on the two processors and the
    thread. *)

From S2P Require Import Prelude Blocks BlockCodec Common RepWeights EpochsWork Store Ledger.
From S2P Require Import LedgerInvariant LedgerSteps LedgerTheorems Rollback RollbackTheorems.
From S2P Require Import ConfirmationHeight Chains CementInvariant CementTheorems CementRuns.
From S2P Require Import ConfirmationBounded BoundedWrites BoundedTheorems CementModes.
From S2P Require Import Traversal ConfirmationProcessor LedgerQueries Samples LedgerWitnesses.

#[local] Instance names_hash_dec b h : Decision (names_hash b h).
Proof. unfold names_hash. apply _. Defined.

(** The side conditions of processing a block, by evaluation. *)
Definition node_checks (L : ledger) (b : block) : bool :=
  bool_decide (¬ names_hash b (block_hash b)) &&
  bool_decide (map_Forall (λ _ e, ¬ names_hash e.1 (block_hash b)) (st_blocks (lg_store L))) &&
  bool_decide (map_Forall (λ _ i, ai_block_count i + 1 < u64_mod) (st_accounts (lg_store L))).

Lemma node_checks_ok L b :
  node_checks L b = true →
  unforeseen L b ∧ ∀ a, ai_block_count (account_info_or_default L a) + 1 < u64_mod.
Proof.
  unfold node_checks. rewrite !andb_true_iff, !bool_decide_eq_true. intros [[Hself Hun] Hroom]. split.
  - split; [done |]. intros k e He. by apply (Hun k e).
  - intros a. unfold account_info_or_default, account_get.
    destruct (st_accounts (lg_store L) !! a) as [i |] eqn:Hi; simpl; [by apply (Hroom a i) | done].
Qed.

Lemma run_processes L b :
  ledger_inv L → block_wf b → block_hash b ≠ 0 → ∃ r, process sample_constants L b sv_unknown 10 10 = Ok (r, run L b).
Proof.
  intros HL Hwf Hnz. unfold run. destruct (process_step sample_constants L HL b sv_unknown 10 10 Hwf Hnz)
    as [(r & -> & _) | (a & sb & new & eff & w & v' & _ & ->)]; eauto.
Qed.

Lemma run_node L b :
  node_reachable sample_constants L → block_wf b → block_hash b ≠ 0 → node_checks L b = true →
  node_reachable sample_constants (run L b).
Proof.
  intros HR Hwf Hnz [Hun Hroom]%node_checks_ok. destruct (node_reachable_inv _ L HR) as (HL & _).
  destruct (run_processes L b HL Hwf Hnz) as [r Hr]. eapply node_next; [done |]. by eapply node_process.
Qed.

Lemma sample0_node : node_reachable sample_constants sample0.
Proof.
  assert (Hg : genesis_ok sample_constants) by (split; vm_compute; congruence).
  destruct (initialize_ok sample_constants 10 10 Hg) as (L & Hi & _).
  unfold sample0. rewrite Hi. apply (node_init _ 10 10); [done | | done].
  apply (bool_decide_unpack _). vm_compute. done.
Qed.

Lemma sample5_node : node_reachable sample_constants sample5.
Proof.
  do 5 (apply run_node; [| concrete | vm_compute; congruence | vm_compute; reflexivity]). apply sample0_node.
Qed.

(** The history has no epoch block. *)
Lemma run_orderly L b :
  orderly sample_constants L → block_wf b → block_hash b ≠ 0 → node_checks L b = true →
  is_epoch_link sample_constants (link b) = false → orderly sample_constants (run L b).
Proof.
  intros HR Hwf Hnz [Hun Hroom]%node_checks_ok Hl. destruct (orderly_inv _ L HR) as (HL & _).
  destruct (run_processes L b HL Hwf Hnz) as [r Hr]. eapply orderly_process; try done. intros He. congruence.
Qed.

Lemma sample3_orderly : orderly sample_constants sample3.
Proof.
  do 3 (apply run_orderly; [| concrete | vm_compute; congruence | vm_compute; reflexivity | vm_compute; reflexivity]).
  assert (Hg : genesis_ok sample_constants) by (split; vm_compute; congruence).
  destruct (initialize_ok sample_constants 10 10 Hg) as (L & Hi & _).
  unfold sample0. rewrite Hi. apply (orderly_init _ 10 10); [done | | done].
  apply (bool_decide_unpack _). vm_compute. done.
Qed.

Lemma sample5_orderly : orderly sample_constants sample5.
Proof.
  do 2 (apply run_orderly; [| concrete | vm_compute; congruence | vm_compute; reflexivity | vm_compute; reflexivity]).
  apply sample3_orderly.
Qed.

Definition sample_rounds : nat → round_env := λ _, RoundEnv false false false true true.

Definition send3_entry : block_w_sideband :=
  default (send3, genesis_sideband sample_constants 0) (st_blocks (lg_store sample5) !! block_hash send3).

Lemma send3_stored : st_blocks (lg_store sample5) !! block_hash send3 = Some send3_entry.
Proof. vm_compute. reflexivity. Qed.

(** Confirming Bob's send cements the whole history, two blocks per account. *)
Example sample_cementing :
  match unbounded_process sample_constants 20 16384 sample_rounds send3_entry (unbounded_new sample5) with
  | Done u => map (table_height (ub_ledger u)) [genesis_key; alice; bob]
  | _ => []
  end = [2; 2; 2].
Proof. vm_compute. reflexivity. Qed.

Lemma sample5_size : (3 * size (st_blocks (lg_store sample5)) < 20)%nat.
Proof. vm_compute. lia. Qed.

Lemma node_ledgers_cement_witness :
  ∃ u1 u2, unbounded_process sample_constants 20 16384 sample_rounds send3_entry (unbounded_new sample5) = Done u1 ∧
    cement_blocks u1 = Ok u2 ∧ node_reachable sample_constants (ub_ledger u2).
Proof.
  destruct (node_ledgers_cement sample_constants sample5 sample5_node) as (_ & _ & Hc).
  destruct (Hc _ _ 20%nat 16384 sample_rounds send3_stored (λ _, conj eq_refl eq_refl) sample5_size)
    as (u1 & u2 & H1 & H2 & H3 & _).
  exists u1, u2. split; [exact H1 |]. split; [exact H2 | exact H3].
Defined.


(** ** Start-up on a cemented ledger *)

(** Two blocks of each of the three accounts are cemented. *)
Definition cemented5 : ledger :=
  match unbounded_process sample_constants 20 16384 sample_rounds send3_entry (unbounded_new sample5) with
  | Done u1 => match cement_blocks u1 with Ok u2 => ub_ledger u2 | Aborted => sample5 end
  | _ => sample5
  end.

Lemma cemented5_node : node_reachable sample_constants cemented5.
Proof.
  unfold cemented5. destruct (unbounded_process _ _ _ _ _ _) as [u1 | |] eqn:H1; [| apply sample5_node..].
  destruct (cement_blocks u1) as [u2 |] eqn:H2; [| apply sample5_node]. eapply node_next; [apply sample5_node |].
  by eapply (node_cement _ _ _ (block_hash send3) send3_entry 20 16384 sample_rounds u1 u2 send3_stored
    (λ _, conj eq_refl eq_refl) sample5_size).
Qed.

Lemma startup_recovers_cache_witness :
  let c := ledger_initialize sample_constants (lg_store cemented5) (GenerateCache true true true true true)
    (for_each_par 1 (st_accounts (lg_store cemented5))) (rev (for_each_par 1 (st_confirmation_height (lg_store cemented5)))) in
  lc_account_count c = 3 ∧ lc_cemented_count c = 6.
Proof.
  destruct (startup_recovers_cache sample_constants cemented5 1
    (for_each_par 1 (st_accounts (lg_store cemented5)))
    (rev (for_each_par 1 (st_confirmation_height (lg_store cemented5))))) as (_ & _ & Ha & Hc).
  - exact (or_intror (or_introl cemented5_node)).
  - apply u256_keys. vm_compute. reflexivity.
  - apply u256_keys. vm_compute. reflexivity.
  - reflexivity.
  - symmetry. apply Permutation_rev.
  - cbv zeta. rewrite Ha, Hc. vm_compute. split; reflexivity.
Defined.

Lemma cementing_terminates_witness :
  ∃ u, unbounded_process sample_constants 20 16384 (λ _, RoundEnv true true false true true) send3_entry
    (unbounded_new sample5) = Done u.
Proof.
  destruct (node_reachable_inv sample_constants sample5 sample5_node) as (HL & rank & HF).
  exact (cementing_terminates sample_constants (lg_store sample5) (table_height sample5) rank (cf_chains _ _ _ HF)
    (unbounded_new sample5) (table_height sample5) (block_hash send3) send3_entry 16384 _ 20%nat
    (settled_new _ _ _ HF) send3_stored sample5_size).
Defined.

Lemma observers_told_in_order_witness :
  ∃ u1 u2 l, unbounded_process sample_constants 20 16384 sample_rounds send3_entry (unbounded_new sample5) = Done u1 ∧
    cement_blocks u1 = Ok u2 ∧ notified u2 = map (λ k, st_blocks (lg_store sample5) !! k) l ∧ NoDup l.
Proof.
  destruct (node_reachable_inv sample_constants sample5 sample5_node) as (HL & rank & HF).
  destruct (observers_told_in_order sample_constants (lg_store sample5) (table_height sample5) rank (cf_chains _ _ _ HF)
    (unbounded_new sample5) (table_height sample5) (block_hash send3) send3_entry 16384 sample_rounds 20%nat
    (settled_new _ _ _ HF) eq_refl send3_stored (λ _, conj eq_refl eq_refl) sample5_size) as (u1 & u2 & l & H1 & H2 & H3 & H4 & _).
  exists u1, u2, l. split; [exact H1 |]. split; [exact H2 |]. split; [exact H3 | exact H4].
Defined.

(** * The confirmation height thread at concrete inputs

    The theorems on the two processors and the thread applied to the sample
    history, and the confirmation of a send whose destination is the hash of
    another block. *)

(** ** Receive depths, by evaluation *)

Definition depth_ok (s : store) (depth : Z → nat) (k : Z) (e : block_w_sideband) : bool :=
  (depth (previous e.1) <=? depth k)%nat &&
  match walk_source sample_constants s e.1 with Some y => (depth y <? depth k)%nat | None => true end.

Lemma depth_checked max_items s depth orig :
  map_Forall (λ k e, depth_ok s depth k e = true) (st_blocks s) → (depth orig < max_items)%nat →
  shallow sample_constants max_items s depth orig.
Proof.
  intros Hall Hmax.
  assert (Hk : ∀ k, stored s k → (depth (previous_of s k) <= depth k)%nat ∧
    ∀ y, source_of sample_constants s k = Some y → (depth y < depth k)%nat).
  { intros k [e He]. specialize (Hall k e He). unfold depth_ok in Hall. unfold previous_of, source_of. rewrite He. simpl.
    apply andb_true_iff in Hall as [Hp%Nat.leb_le Hs]. split; [done |]. intros y Hy. rewrite Hy in Hs. by apply Nat.ltb_lt. }
  split; [| | done].
  - intros k y (Hks & _ & [[_ ->] | Hy]); [by apply Hk |]. apply Nat.lt_le_incl. by apply Hk.
  - intros k y Hy. apply Hk; [by eapply receive_stored | done].
Qed.

(** The receives below the blocks of the history. *)
Definition sample_depth (k : Z) : nat :=
  if bool_decide (k ∈ [block_hash open1; block_hash send2]) then 1
  else if bool_decide (k ∈ [block_hash open2; block_hash send3]) then 2 else 0.

Lemma send3_shallow :
  shallow sample_constants bounded_max_items (lg_store sample5) sample_depth (block_hash send3).
Proof.
  apply depth_checked.
  - apply (bool_decide_unpack _). vm_compute. done.
  - assert (sample_depth (block_hash send3) = 2%nat) as -> by (vm_compute; reflexivity). unfold bounded_max_items. lia.
Qed.

Definition sample_pass : pass_env :=
  PassEnv 20 10 (λ n, BoundedEnv (sample_rounds n) (λ _, 10)) (λ _, 10).

Lemma sample_pass_good : good_env sample5 sample_pass.
Proof. split; [done |]. vm_compute. lia. Qed.


(** ** The thread *)

Definition send3_queued : height_processor := height_processor_add send3_entry (height_processor_new sample5).

Lemma send3_queued_reachable mode :
  thread_reachable sample_constants bounded_max_items mode sample5 send3_queued [block_hash send3].
Proof.
  assert (Hh : block_hash send3_entry.1 = block_hash send3) by (vm_compute; reflexivity).
  rewrite <- Hh. apply thread_add; [apply thread_start |]. split.
  - rewrite Hh. apply send3_stored.
  - exists sample_depth. rewrite Hh. apply send3_shallow.
Qed.

Lemma added_blocks_tracked_witness :
  is_processing_added_block (block_hash send3) send3_queued = true ∨
  height_of (lg_store sample5) (block_hash send3) <=
    table_height (hp_ledger send3_queued) (chain_of (lg_store sample5) (block_hash send3)).
Proof.
  apply (added_blocks_tracked sample_constants bounded_max_items mode_automatic sample5 send3_queued [block_hash send3]).
  - apply sample5_orderly.
  - apply send3_queued_reachable.
  - apply list_elem_of_here.
Defined.


(** ** A send to a hash *)

(** Alice's chain is not confirmed when genesis sends a coin to the "account" whose
    number is the hash of her last block. *)
Definition send_to_hash : block :=
  signed_by genesis_key
    (state_block (StateHashables genesis_key (block_hash send1) genesis_key (genesis_amount - 101) (block_hash send2)) 0 0).

Definition send1_entry : block_w_sideband :=
  default (send1, genesis_sideband sample_constants 0) (st_blocks (lg_store sample3) !! block_hash send1).

(** The first send is confirmed, then the send to the hash is added to the ledger. *)
Definition before_confirming : ledger :=
  run (match unbounded_process sample_constants 20 16384 sample_rounds send1_entry (unbounded_new sample3) with
       | Done u => ub_ledger u
       | _ => sample3
       end) send_to_hash.

Definition send_to_hash_entry : block_w_sideband :=
  default (send_to_hash, genesis_sideband sample_constants 0)
    (st_blocks (lg_store before_confirming) !! block_hash send_to_hash).

(** A state send whose destination is the hash of a stored block is taken for a
    receive of that block by both confirmation height processors: on a concrete
    ledger every dependency of the send that the ledger names is confirmed and no
    block of another account is, yet confirming the send cements that account's
    chain up to the named block. *)
Theorem send_to_hash_cements_target :
  st_blocks (lg_store before_confirming) !! block_hash send_to_hash = Some send_to_hash_entry ∧
  dependents_confirmed sample_constants before_confirming (send_to_hash_entry.1, Some send_to_hash_entry.2) = Ok true ∧
  table_height before_confirming alice = 0 ∧
  match unbounded_process sample_constants 20 16384 sample_rounds send_to_hash_entry (unbounded_new before_confirming) with
  | Done u => table_height (ub_ledger u) alice = 2
  | _ => False
  end ∧
  match bounded_process sample_constants 100 20 10 (pe_rounds sample_pass) send_to_hash_entry (bounded_new before_confirming) with
  | Done u => table_height (bd_ledger u) alice = 2
  | _ => False
  end.
Proof. vm_compute. repeat split. Qed.

(** ** Full buffers *)

(** Alice sends to the hash of Bob's last block and changes her representative, then
    genesis sends to the hash of Alice's send. *)
Definition alice_to_hash : block :=
  signed_by alice (state_block (StateHashables alice (block_hash send2) bob 69 (block_hash send3)) 0 0).
Definition alice_change : block :=
  signed_by alice (state_block (StateHashables alice (block_hash alice_to_hash) alice 69 0) 0 0).
Definition genesis_to_hash : block :=
  signed_by genesis_key
    (state_block (StateHashables genesis_key (block_hash send1) genesis_key (genesis_amount - 101) (block_hash alice_to_hash)) 0 0).

Definition deep_ledger : ledger := run (run (run sample5 alice_to_hash) alice_change) genesis_to_hash.
Definition genesis_to_hash_entry : block_w_sideband :=
  default (genesis_to_hash, genesis_sideband sample_constants 0)
    (st_blocks (lg_store deep_ledger) !! block_hash genesis_to_hash).

(** With buffers of two entries the loop takes up the checkpoint on Alice's send for
    ever; with four, which the path of receives does not fill, it ends and cements
    the block. *)
Example full_buffers_stall :
  bounded_process sample_constants 2 60 10 (pe_rounds sample_pass) genesis_to_hash_entry (bounded_new deep_ledger)
    = OutOfFuel ∧
  match bounded_process sample_constants 4 30 10 (pe_rounds sample_pass) genesis_to_hash_entry (bounded_new deep_ledger) with
  | Done u => map (table_height (bd_ledger u)) [genesis_key; alice; bob] = [3; 3; 2]
  | _ => False
  end.
Proof. vm_compute. repeat split. Qed.
