(* ===== verification/PipelineWitnesses.v ===== *)
(** * The block processor at concrete inputs

    A round-robin schedule of the three threads, the sample history submitted in
    reverse, and the theorems applied to states of that run. *)

From S2P Require Import Prelude Blocks BlockCodec Common Vote RepWeights EpochsWork Store Ledger Rollback LedgerQueries.
From S2P Require Import LedgerApply LedgerInvariant LedgerSteps LedgerTheorems Samples UncheckedMap BlockProcessor PipelineLedger.
From S2P Require Import Pipeline PipelineInvariant PipelineDrain PipelineTheorems.

Definition sample_flags : processor_flags := ProcessorFlags 0 128 256 2 false.
Definition sample_clocks : clocks := Clocks 10 10 10.

(** ** A schedule *)

Definition turn_verify (p : pipeline) : pipeline :=
  match verification_run sample_constants sample_flags 10 p with Some (Ok q) => q | _ => p end.
Definition turn_process (p : pipeline) : pipeline :=
  match processing_run sample_constants sample_flags (λ _, 10) 50 false sample_clocks p with Some (Done q) => q | _ => p end.
Definition turn_unchecked (p : pipeline) : pipeline :=
  match unchecked_thread 10 p with Some (Ok q) => q | _ => p end.
Definition turn (p : pipeline) : pipeline := turn_unchecked (turn_process (turn_verify p)).

Abbreviation ordinary := (ordinary_step sample_constants sample_flags).

Lemma turn_rtc p : rtc ordinary p (turn p).
Proof.
  unfold turn.
  assert (Hv : ∀ q, rtc ordinary q (turn_verify q)).
  { intros q. unfold turn_verify. destruct (verification_run _ _ _ q) as [[q' |] |] eqn:E; [| apply rtc_refl..].
    apply rtc_once, ordinary_thread. by eapply thread_verify. }
  assert (Hp : ∀ q, rtc ordinary q (turn_process q)).
  { intros q. unfold turn_process. destruct (processing_run _ _ _ _ _ _ q) as [[q' | |] |] eqn:E; [| apply rtc_refl..].
    apply rtc_once, ordinary_thread. by eapply thread_process. }
  assert (Hu : ∀ q, rtc ordinary q (turn_unchecked q)).
  { intros q. unfold turn_unchecked. destruct (unchecked_thread _ q) as [[q' |] |] eqn:E; [| apply rtc_refl..].
    apply rtc_once, ordinary_thread. by eapply thread_unchecked. }
  etrans; [apply Hv |]. etrans; [apply Hp | apply Hu].
Qed.

Lemma turns_rtc n p : rtc ordinary p (Nat.iter n turn p).
Proof. induction n as [| n IH]; simpl; [apply rtc_refl |]. etrans; [exact IH | apply turn_rtc]. Qed.

(** ** The history in reverse *)

Definition submit (b : block) (p : pipeline) : pipeline := processor_add_block 10 b p.

Definition backwards : pipeline :=
  submit send1 (submit open1 (submit send2 (submit open2 (submit send3 (pipeline_new sample0 ∅ false))))).

Lemma submit_rtc b p q : block_wf b → block_hash b ≠ 0 → rtc ordinary q p → rtc ordinary q (submit b p).
Proof.
  intros Hwf Hnz Hq. etrans; [exact Hq |]. apply rtc_once, ordinary_call. eapply call_add; [| | done].
  - by apply submit_block.
  - by left.
Qed.

Lemma backwards_rtc : rtc ordinary (pipeline_new sample0 ∅ false) backwards.
Proof. do 5 (apply submit_rtc; [concrete | vm_compute; congruence |]). apply rtc_refl. Qed.

(** Whatever the order of arrival, the ledger ends with all five blocks and nothing
    waits. *)
Example backwards_all_stored :
  let p := Nat.iter 60 turn backwards in
  map (λ b, block_exists (lg_store (pl_ledger p)) (block_hash b)) [send1; open1; send2; open2; send3] =
    [true; true; true; true; true] ∧
  unchecked_count (um_table (pl_unchecked p)) = 0%nat ∧ um_work (pl_unchecked p) = [] ∧ pl_blocks p = [].
Proof. vm_compute. done. Qed.

(** Without the first send all others wait. *)
Definition stuck : pipeline :=
  Nat.iter 30 turn (submit open1 (submit send2 (submit open2 (submit send3 (pipeline_new sample0 ∅ false))))).

Example stuck_waits :
  map fst (full_range (um_table (pl_unchecked stuck))) ≡ₚ
    [(block_hash send1, block_hash open1); (block_hash open1, block_hash send2);
     (block_hash send2, block_hash open2); (block_hash open2, block_hash send3)] ∧
  um_work (pl_unchecked stuck) = [].
Proof.
  split; [| vm_compute; done]. apply (bool_decide_unpack _). vm_compute. done.
Qed.

Lemma stuck_rtc : rtc ordinary (pipeline_new sample0 ∅ false) stuck.
Proof.
  etrans; [| apply turns_rtc]. do 4 (apply submit_rtc; [concrete | vm_compute; congruence |]). apply rtc_refl.
Qed.

(** ** The theorems at these states *)

Lemma waiting_blocks_lack_witness :
  um_table (pl_unchecked stuck) !! (block_hash send2, block_hash open2) ≠ None ∧
  ∀ k w, um_table (pl_unchecked stuck) !! k = Some w → lacks (pl_ledger stuck) k.1 (wb_block w).
Proof.
  split; [vm_compute; congruence |]. intros k w Hk.
  destruct (waiting_blocks_lack sample_constants sample_flags sample0 ∅ stuck (reachable_inv _ _ sample0_reachable)
    (table_ready_empty _ _) stuck_rtc) as [_ Hw].
  destruct (Hw k w Hk) as [Hl | Hq]; [exact Hl |]. exfalso.
  rewrite (proj2 stuck_waits) in Hq. by apply elem_of_nil in Hq.
Defined.

Lemma early_verification_transparent_witness :
  ∃ i, i ∈ items stuck ∧ i.2 = sv_valid ∧
    verdict (process sample_constants (pl_ledger stuck) i.1.1 i.2 10 10) =
    verdict (process sample_constants (pl_ledger stuck) i.1.1 sv_unknown 10 10).
Proof.
  assert (Hi : (send2, 0, sv_valid) ∈ items stuck) by (apply (bool_decide_unpack _); vm_compute; exact I).
  exists (send2, 0, sv_valid). split; [exact Hi |]. split; [reflexivity |].
  exact (early_verification_transparent sample_constants sample_flags sample0 ∅ stuck _ 10 10
    (reachable_inv _ _ sample0_reachable) (table_ready_empty _ _) stuck_rtc Hi).
Defined.

(** A node that starts with a block in its table, and then is given the block before. *)
Definition persisted : unchecked_table := {[(block_hash send1, block_hash open1) := WaitingBlock open1 0 5 sv_unknown]}.
Definition restarted : pipeline := submit send1 (pipeline_new sample0 persisted false).

Lemma persisted_ready : table_ready sample_constants sample0 persisted.
Proof.
  intros k w. unfold persisted. intros [<- <-]%lookup_singleton_Some. split_and!; [vm_compute; split; congruence | vm_compute; reflexivity | |].
  - split_and!; [split; [concrete | vm_compute; congruence] | by left | exact I].
  - left. vm_compute. reflexivity.
Qed.

Lemma restarted_rtc : rtc ordinary (pipeline_new sample0 persisted false) restarted.
Proof. apply submit_rtc; [concrete | vm_compute; congruence |]. apply rtc_refl. Qed.

Lemma restarted_tracked : tracked restarted (block_hash open1).
Proof. left. exists (open1, 0, sv_unknown). split; [apply (bool_decide_unpack _); vm_compute; exact I | reflexivity]. Qed.


(** The block that waited is stored. *)
Example restarted_all_stored :
  let p := Nat.iter 30 turn restarted in
  map (λ b, block_exists (lg_store (pl_ledger p)) (block_hash b)) [send1; open1] = [true; true] ∧
  unchecked_count (um_table (pl_unchecked p)) = 0%nat.
Proof. vm_compute. done. Qed.

Lemma ordinary_pipeline p q : rtc ordinary p q → rtc (pipeline_step sample_constants sample_flags) p q.
Proof.
  intros Hs. induction Hs as [| p p1 q [H1 | H1 | now cutoff H1] _ IH]; [apply rtc_refl | ..];
    (eapply rtc_l; [| exact IH]); [by apply step_thread | | by eapply step_cleanup].
  apply step_call. destruct H1; [by eapply call_add | by eapply call_active | by eapply call_local |
    by eapply call_local_async | by eapply call_wait_write | by eapply call_vote].
Qed.

(** ** A cleanup *)

Definition clean (now cutoff : Z) (p : pipeline) : pipeline :=
  match unchecked_cleanup 100 now cutoff false (Bootstrap ∅ 0 false) p with Ok q => q | Aborted => p end.

Lemma clean_rtc now cutoff p : rtc ordinary p (clean now cutoff p).
Proof.
  unfold clean. destruct (unchecked_cleanup _ _ _ _ _ p) as [q |] eqn:Hc; [| apply rtc_refl].
  apply rtc_once, (ordinary_cleanup _ _ _ _ now cutoff). by eexists _, _, _.
Qed.

(** The keys are collected when the entries are old. *)
Definition collecting : pipeline := clean 100 50 stuck.
Definition cleaned : pipeline := clean 100 50 collecting.

Example cleanup_drops_old :
  length (pl_cleaning (clean 40 50 stuck)) = 0%nat ∧ length (pl_cleaning collecting) = 4%nat ∧
  unchecked_count (um_table (pl_unchecked collecting)) = 4%nat ∧
  unchecked_count (um_table (pl_unchecked cleaned)) = 0%nat ∧ pl_cleaning cleaned = [].
Proof. vm_compute. done. Qed.

Lemma cleaned_rtc : rtc ordinary stuck cleaned.
Proof. unfold cleaned, collecting. generalize stuck. intros p. etrans; [apply (clean_rtc 100 50 p) | apply clean_rtc]. Qed.

Lemma stuck_tracked : tracked stuck (block_hash open2).
Proof. left. exists (open2, 0, sv_valid). split; [apply (bool_decide_unpack _); vm_compute; exact I | reflexivity]. Qed.

Lemma empty_named k w : (∅ : unchecked_table) !! k = Some w → k.2 = block_hash (wb_block w).
Proof. by rewrite lookup_empty. Qed.


(** ** A block queued under another account *)

(** A send of Alice that Bob signed. *)
Definition forged : block :=
  signed_by bob (state_block (StateHashables alice (block_hash open1) alice 70 bob) 0 0).

(** A block queued under an account other than its own and signed with that
    account's key passes the early verification, is accepted by the ledger without
    the owner's signature, and then ends the process at the release assertion of
    process_one. *)
Theorem foreign_account_ends_process :
  let p := processor_add (WaitingBlock forged bob 10 sv_unknown) (pipeline_new sample2 ∅ false) in
  validate_message alice (block_hash forged) (block_signature forged) = true ∧
  processing_run sample_constants sample_flags (λ _, 10) 50 false sample_clocks
    (turn_process (turn_verify (turn_verify p))) = Some Crashed.
Proof. vm_compute. done. Qed.
