(* ===== verification/VotingWitnesses.v ===== *)
(** * Votes and elections at concrete inputs

    The votes of this node come first, then the container of elections.

    A node with two representatives makes final votes for the first send of the sample
    history; the theorems applied to that run, and a run in which the recorded block is
    rolled back and a request makes the node final-vote for its rival. *)

From S2P Require Import Prelude Blocks BlockCodec Prioritization Election ElectionTheorems Common.
From S2P Require Import Vote RepWeights EpochsWork Store Ledger LedgerInvariant LedgerSteps.
From S2P Require Import LedgerTheorems Rollback ConfirmationHeight Chains CementInvariant.
From S2P Require Import CementTheorems CementRuns CementModes LedgerQueries Voting.
From S2P Require Import RequestAggregator VotingTheorems FinalVotes ActiveTransactions.
From S2P Require Import ActiveTheorems ElectionScheduler ActiveRuns SchedulerTheorems VoteProcessor.
From S2P Require Import Samples NodeWitnesses CementWitnesses.

(** Twenty units pass between two readings of the clock. *)
Definition sample_voting : voting_env :=
  VotingEnv 4 15 (λ i, 20 * Z.of_nat i) (λ i, 0x1000 + Z.of_nat i)
    (λ account digest, of_be (to_be 32 account ++ to_be 32 digest)).

Lemma sample_clock i j : (i <= j)%nat → ve_steady sample_voting i <= ve_steady sample_voting j.
Proof. simpl. lia. Qed.

Lemma sample_signs account digest :
  validate_message account digest (ve_sign sample_voting account digest) = false.
Proof.
  unfold validate_message. simpl. apply negb_false_iff, Z.eqb_eq.
  set (l := to_be 32 account ++ to_be 32 digest).
  replace 64%nat with (length l) by (unfold l; by rewrite length_app, !length_to_be). by rewrite to_of_be.
Qed.

Definition sample_reps : list Z := [genesis_key; alice].

Definition final_turns (n : nat) (w : voting_world) : voting_world :=
  Nat.iter n (thread_step sample_voting true sample_reps) w.

Lemma final_turns_rtc moves n w : rtc (voting_step sample_constants sample_voting moves) w (final_turns n w).
Proof.
  induction n as [| n IH]; [apply rtc_refl |]. eapply rtc_r; [exact IH |]. by eapply (vs_thread _ _ _ _ _ true).
Qed.

(** ** A final vote *)

Definition ok_world (o : outcome voting_world) (w : voting_world) : voting_world :=
  match o with Ok w => w | Aborted => w end.

Definition start : voting_world := voting_new sample1.
Definition asked : voting_world :=
  ok_world (generator_add sample_constants true (block_hash sample_genesis) (block_hash send1) start) start.
Definition voted_once : voting_world := final_turns 9 asked.

Example voted_once_events :
  map (λ x, match x with voted f r h t v => (0, h) | broadcast_vote v => (1, vt_account (sv_vote v)) | _ => (2, 0) end)
    (vw_events voted_once) =
  [(0, block_hash send1); (1, genesis_key); (0, block_hash send1); (1, alice)].
Proof. vm_compute. reflexivity. Qed.

Lemma asked_step moves : voting_step sample_constants sample_voting moves start asked.
Proof.
  apply (vs_add _ _ _ _ _ true (block_hash sample_genesis) (block_hash send1)); [done |]. vm_compute. reflexivity.
Qed.

Lemma voted_once_rtc moves : rtc (voting_step sample_constants sample_voting moves) start voted_once.
Proof. eapply rtc_l; [apply asked_step | apply final_turns_rtc]. Qed.

(** The vote and the time of an event. *)
Definition vote_at (n : nat) (w : voting_world) : shared_vote :=
  match vw_events w !! n with
  | Some (voted _ _ _ _ v | broadcast_vote v | reply_vote v _) => v
  | _ => SharedVote 0 (Vote 0 [] 0 0)
  end.
Definition time_at (n : nat) (w : voting_world) : Z :=
  match vw_events w !! n with Some (voted _ _ _ t _) => t | _ => 0 end.

Lemma sample1_node : node_reachable sample_constants sample1.
Proof. apply run_node; [apply sample0_node | concrete | vm_compute; congruence | vm_compute; reflexivity]. Qed.

(** ** The rival *)

(** Genesis signs another send from the same predecessor. *)
Definition rival : block :=
  signed_by genesis_key
    (send_block (SendHashables (block_hash sample_genesis) bob (genesis_amount - 7)) 0 0).

(** The ledger is rolled back below the first send, and the election for it has the
    rival as its winner. *)
Definition rolls_back (t : final_table) (L L' : ledger) : Prop :=
  ∃ fuel h e, rollback sample_constants (λ _, 20) fuel L h [] = Done (false, L', [e]).

Definition without_send1 : ledger :=
  match rollback sample_constants (λ _, 20) 2 sample1 (block_hash send1) [] with
  | Done (_, L, _) => L
  | _ => sample1
  end.

Definition rival_winner (hash : Z) : option block_in_memory :=
  if hash =? block_hash rival then Some (rival, None) else None.

Definition forgotten : voting_world := set_ledger without_send1 voted_once.
Definition requested : voting_world :=
  ok_world (serve_pool sample_constants rival_winner [(block_hash rival, block_hash sample_genesis)] 1 forgotten) forgotten.
Definition voted_twice : voting_world := final_turns 9 requested.

Example voted_twice_events :
  map (λ x, match x with voted f r h t v => (0, h) | broadcast_vote v => (1, vt_account (sv_vote v))
            | reply_vote v _ => (2, vt_account (sv_vote v)) | _ => (3, 0) end)
    (vw_events voted_twice) =
  [(0, block_hash send1); (1, genesis_key); (0, block_hash send1); (1, alice);
   (0, block_hash rival); (2, genesis_key); (0, block_hash rival); (2, alice)].
Proof. vm_compute. reflexivity. Qed.

Lemma voted_twice_rtc : rtc (voting_step sample_constants sample_voting rolls_back) start voted_twice.
Proof.
  etrans; [apply voted_once_rtc |]. eapply rtc_l.
  { eapply (vs_ledger _ _ _ voted_once forgotten without_send1); [| done]. exists 2%nat, (block_hash send1). eexists.
    vm_compute. reflexivity. }
  eapply rtc_l; [| apply final_turns_rtc].
  apply (vs_serve _ _ _ _ _ rival_winner [(block_hash rival, block_hash sample_genesis)] 1); [vm_compute; reflexivity.. |].
  vm_compute. reflexivity.
Qed.

(** When the block of a recorded final vote was rolled back, a request for the
    winner of the election makes the aggregator queue that winner for final votes
    without consulting the table, and one representative signs final votes for two
    different blocks of one root. *)
Theorem final_votes_can_conflict :
  ∃ w t1 v1 t2 v2,
    rtc (voting_step sample_constants sample_voting rolls_back) (voting_new sample1) w ∧
    voted true (root send1) (block_hash send1) t1 v1 ∈ vw_events w ∧
    voted true (root rival) (block_hash rival) t2 v2 ∈ vw_events w ∧
    qualified_root send1 = qualified_root rival ∧ block_hash send1 ≠ block_hash rival ∧
    vt_account (sv_vote v1) = vt_account (sv_vote v2) ∧
    vote_timestamp (sv_vote v1) = u64_max ∧ vote_timestamp (sv_vote v2) = u64_max ∧
    vote_validate (sv_vote v1) = false ∧ vote_validate (sv_vote v2) = false.
Proof.
  exists voted_twice. do 4 eexists. split; [exact voted_twice_rtc |].
  split; [eapply (list_elem_of_lookup_2 _ 0); vm_compute; reflexivity |].
  split; [eapply (list_elem_of_lookup_2 _ 4); vm_compute; reflexivity |].
  vm_compute. repeat split; congruence.
Qed.

(** ** Witnesses *)

Lemma votes_are_spaced_witness :
  ∃ t1 v1 t2 v2,
    vw_events voted_twice !! 0%nat = Some (voted true (root send1) (block_hash send1) t1 v1) ∧
    vw_events voted_twice !! 4%nat = Some (voted true (root send1) (block_hash rival) t2 v2) ∧
    t1 + ve_delay sample_voting <= t2.
Proof.
  do 4 eexists. split; [vm_compute; reflexivity |]. split; [vm_compute; reflexivity |].
  eapply (votes_are_spaced sample_constants sample_voting rolls_back sample_clock sample1 voted_twice true 0 4
    (root send1) (block_hash send1) _ _ (block_hash rival)).
  - exact voted_twice_rtc.
  - lia.
  - vm_compute. reflexivity.
  - vm_compute. reflexivity.
  - vm_compute. congruence.
Defined.

Lemma local_history_consistent_witness :
  local_vote_history.exists_ (root send1) (vw_history voted_twice) = true ∧
  local_vote_history.consistency_check (root send1) (vw_history voted_twice) = Some true.
Proof.
  split; [vm_compute; reflexivity |].
  apply (local_history_consistent sample_constants sample_voting rolls_back sample1 voted_twice voted_twice_rtc).
  vm_compute. reflexivity.
Defined.


Lemma one_final_vote_per_root_witness :
  ∃ b1 b2, block_get (lg_store (vw_ledger voted_once)) (block_hash send1) = Some b1 ∧
    block_get (lg_store (vw_ledger voted_once)) (block_hash send1) = Some b2.
Proof.
  destruct (one_final_vote_per_root sample_constants sample_voting sample1 voted_once
    (root send1) (block_hash send1) (time_at 0 voted_once) (vote_at 0 voted_once)
    (root send1) (block_hash send1) (time_at 2 voted_once) (vote_at 2 voted_once) sample1_node (voted_once_rtc _))
    as (b1 & b2 & Hb1 & Hb2 & _).
  - apply (list_elem_of_lookup_2 _ 0). vm_compute. reflexivity.
  - apply (list_elem_of_lookup_2 _ 2). vm_compute. reflexivity.
  - exists b1, b2. split; [exact Hb1 | exact Hb2].
Defined.

(** * The container of elections at concrete inputs

    An election for Alice's send is scheduled, gets a rival and is confirmed by a final
    vote of Bob; its winner is handed on and cemented.  The theorems on the container,
    the scheduler and the vote processor applied to that run. *)

(** ** The blocks that occur *)

Definition sample_blocks : list block := [sample_genesis; send1; open1; send2; send2_rival].
Definition known_block (b : block) : Prop := b ∈ sample_blocks.

Lemma known_collision_free b b' :
  known_block b → known_block b' → block_hash b = block_hash b' → qualified_root b = qualified_root b'.
Proof.
  intros Hb Hb'. revert b Hb b' Hb'. unfold known_block.
  assert (Hall : Forall (λ b, Forall (λ b', block_hash b = block_hash b' → qualified_root b = qualified_root b')
    sample_blocks) sample_blocks) by (apply (bool_decide_unpack _); vm_compute; done).
  intros b Hb b' Hb'. rewrite Forall_forall in Hall. specialize (Hall b Hb). rewrite Forall_forall in Hall. by apply Hall.
Qed.

(** The ledger after Alice's send, evaluated. *)
Definition evaluated : ledger := Eval vm_compute in sample3.

Definition sample_active : active_env :=
  ActiveEnv sample_env evaluated 0 10 2 4 1 10 false false 1 (λ _, false) (λ _, false) false (λ _, false) 4.

Lemma sample_step_env : step_env known_block sample_active.
Proof.
  split; [exact sample_env_ok |]. intros h x Hx.
  assert (Hall : map_Forall (λ _ (x : block_w_sideband), x.1 ∈ sample_blocks) (st_blocks (lg_store evaluated))).
  { apply (bool_decide_unpack _). vm_compute. done. }
  by apply (Hall h x).
Qed.

(** ** A run *)

Definition send2_entry : block_w_sideband :=
  Eval vm_compute in
  default (send2, genesis_sideband sample_constants 0) (st_blocks (lg_store sample3) !! block_hash send2).

Definition ok_active {A} (o : outcome (A * active_transactions)) (a : active_transactions) : active_transactions :=
  match o with Ok (_, a) => a | Aborted => a end.

Definition queued : election_scheduler :=
  scheduler_manual (ManualItem send2 (Some send2_entry.2) None normal) (ElectionScheduler (prioritization_new 100) []).
Definition elected : active_transactions := Eval vm_compute in
  ok_active (scheduler_round sample_active (queued, active_new)) active_new.
Definition contested : active_transactions := Eval vm_compute in
  ok_active (active_publish sample_active send2_rival elected) elected.
Definition bob_vote : vote := Vote u64_max [vote_block_hash (block_hash send2)] bob 0.
Definition decided : active_transactions := Eval vm_compute in
  ok_active (active_vote sample_active bob_vote contested) contested.
Definition cemented : active_transactions := Eval vm_compute in
  match block_cemented_callback sample_constants sample_active 0 send2_entry (queued, decided) with
  | Ok (_, a, _) => a
  | Aborted => decided
  end.

(** The hashes handed to the confirmation height processor. *)
Definition handed_on (a : active_transactions) : list Z :=
  omap (λ c, match c with call_confirm h => Some h | _ => None end) (at_calls a).

Example run_outcome :
  map ci_root (at_roots decided) = [qualified_root send2] ∧
  at_blocks contested !! block_hash send2_rival = Some 0%nat ∧
  handed_on contested = [] ∧ handed_on decided = [block_hash send2] ∧
  map (λ s, block_hash (es_winner s)) (at_recently_cemented cemented) = [block_hash send2].
Proof. vm_compute. done. Qed.

Lemma known_send2 : known_block send2.
Proof. by apply (list_elem_of_lookup_2 _ 3). Qed.

Lemma known_rival : known_block send2_rival.
Proof. by apply (list_elem_of_lookup_2 _ 4). Qed.

Lemma queued_blocks : queued_known known_block queued.
Proof.
  split.
  - intros i. change (sc_manual queued) with [ManualItem send2 (Some send2_entry.2) None normal].
    rewrite list_elem_of_singleton. intros ->. exact known_send2.
  - assert (Hn : concat (pr_buckets (prioritization_new 100)) = []) by (vm_compute; reflexivity).
    change (sc_priority queued) with (prioritization_new 100). rewrite Hn. by intros v ?%elem_of_nil.
Qed.

Lemma elected_step : active_step known_block active_new elected.
Proof.
  assert (Hr : ∃ s, scheduler_round sample_active (queued, active_new) = Ok (s, elected)) by (eexists; vm_compute; reflexivity).
  destruct Hr as [s Hr]. eapply (act_round _ sample_active queued s); [exact sample_step_env | | | exact Hr].
  - apply queued_blocks.
  - intros v Hv. by apply queued_blocks, top_queued.
Qed.

Lemma contested_step : active_step known_block elected contested.
Proof.
  assert (Hr : ∃ r, active_publish sample_active send2_rival elected = Ok (r, contested)) by (eexists; vm_compute; reflexivity).
  destruct Hr as [r Hr]. by eapply (act_publish _ sample_active send2_rival); [exact sample_step_env | exact known_rival | exact Hr].
Qed.

Lemma decided_step : active_step known_block contested decided.
Proof.
  assert (Hr : ∃ c, active_vote sample_active bob_vote contested = Ok (c, decided)) by (eexists; vm_compute; reflexivity).
  destruct Hr as [c Hr]. eapply (act_vote _ sample_active bob_vote); [exact sample_step_env | | exact Hr].
  intros b. change (vt_blocks bob_vote) with [vote_block_hash (block_hash send2)]. by rewrite list_elem_of_singleton.
Qed.

Lemma cemented_step : active_step known_block decided cemented.
Proof.
  assert (Hr : ∃ s L, block_cemented_callback sample_constants sample_active 0 send2_entry (queued, decided) = Ok (s, cemented, L))
    by (do 2 eexists; vm_compute; reflexivity).
  destruct Hr as (s & L & Hr). by eapply (act_cemented _ sample_active sample_constants 0 send2_entry); [exact sample_step_env | exact Hr].
Qed.

Lemma contested_reachable : active_reachable known_block contested.
Proof. eapply rtc_l; [exact elected_step |]. apply rtc_once, contested_step. Qed.

Lemma decided_reachable : active_reachable known_block decided.
Proof. eapply rtc_r; [exact contested_reachable | exact decided_step]. Qed.

(** ** Witnesses *)

(** Two blocks, one election. *)
Lemma active_index_exact_witness :
  at_blocks contested !! block_hash send2 = at_blocks contested !! block_hash send2_rival ∧
  ∃ c el, c ∈ at_roots contested ∧ ci_election c = 0%nat ∧ at_elections contested !! 0%nat = Some el ∧
    is_Some (el_last_blocks el !! block_hash send2_rival).
Proof.
  split; [vm_compute; reflexivity |].
  destruct (active_index_exact known_block known_collision_free contested contested_reachable) as (_ & _ & Hi).
  apply Hi. vm_compute. reflexivity.
Defined.

(** The lock is released between the sections of publish.  When the election is
    removed after it has taken a block and before the block is indexed, the index
    keeps an entry for an election that does not run, and a later publish of the
    block finds no election. *)
Definition taken : active_transactions := ok_active (publish_block sample_active send2_rival 0 elected) elected.
Definition orphaned : active_transactions :=
  publish_emplace send2_rival 0 (active_erase sample_active (qualified_root send2) taken).

Theorem publish_race_leaves_orphan :
  find_root (qualified_root send2_rival) (at_roots elected) = head (at_roots elected) ∧
  is_Some (head (at_roots elected)) ∧ at_roots orphaned = [] ∧ at_blocks orphaned !! block_hash send2_rival = Some 0%nat.
Proof. vm_compute. split_and!; [done | by eexists | done | done]. Qed.

Lemma only_winners_are_cemented_witness :
  ∃ id el, at_elections cemented !! id = Some el ∧ confirmed el = true ∧
    block_hash (es_winner (el_status el)) = block_hash send2.
Proof.
  destruct (only_winners_are_cemented known_block known_collision_free decided cemented (block_hash send2)
    decided_reachable (rtc_once _ _ cemented_step)) as [Hc _].
  apply Hc. eapply (list_elem_of_lookup_2 _ 2). vm_compute. reflexivity.
Defined.

Definition sample_conflict : conflict_info :=
  default (ConflictInfo (0, 0) 0 epoch_0 0) (head (at_roots decided)).

Lemma removal_is_complete_witness :
  at_roots (active_erase sample_active (qualified_root send2) decided) = [] ∧
  find_root (ci_root sample_conflict) (at_roots (active_erase sample_active (ci_root sample_conflict) decided)) = None.
Proof.
  split; [vm_compute; reflexivity |].
  destruct (removal_is_complete known_block known_collision_free sample_active decided sample_conflict
    decided_reachable sample_env_ok) as [Hf _]; [| exact Hf].
  eapply (list_elem_of_lookup_2 _ 0). vm_compute. reflexivity.
Defined.

Lemma scheduler_comes_to_rest_witness :
  ∃ s' a', scheduler_run sample_active 10 (queued, contested) = Done (s', a') ∧ sc_manual s' = [].
Proof.
  destruct (scheduler_comes_to_rest known_block known_collision_free sample_active sample_env_ok queued contested 10
    contested_reachable) as [Hc | (s' & a' & Hd & Hm & _)].
  - exact queued_blocks.
  - vm_compute. congruence.
  - vm_compute. lia.
  - exfalso. revert Hc. vm_compute. congruence.
  - exists s', a'. split; [exact Hd | exact Hm].
Defined.

(** ** Activation *)

Definition alice_info : account_info :=
  default default_account_info (st_accounts (lg_store sample3) !! alice).

(** Nothing of Alice's chain is cemented, so her open block is next; its source is not
    cemented, so it is not queued. *)
Lemma activation_finds_next_witness :
  ∃ b sb, st_blocks (lg_store sample3) !! block_hash b = Some (b, sb) ∧ account_calculated (b, sb) = alice ∧ sb_height sb = 1.
Proof.
  destruct (activation_finds_next sample_constants sample3 alice alice_info (ElectionScheduler (prioritization_new 100) [])
    sample3_orderly) as [_ Hnext].
  - vm_compute. reflexivity.
  - apply queue_new.
  - destruct Hnext as (b & sb & c & Hb & Ha & Hh & _); [vm_compute; congruence |].
    exists b, sb. split; [exact Hb |]. split; [exact Ha | exact Hh].
Defined.

(** ** The vote processor *)

Definition weighed : vote_processor :=
  calculate_weights 1000 [(alice, 20); (bob, 60)] (λ a, if a =? alice then 20 else 60) (vote_processor_new default_capacity).

Lemma heavier_votes_admitted_witness : admits weighed bob = true.
Proof.
  apply (heavier_votes_admitted 1000 [(alice, 20); (bob, 60)] (λ a, if a =? alice then 20 else 60)
    (vote_processor_new default_capacity) weighed alice bob); try reflexivity.
  - vm_compute. congruence.
  - right. left.
Defined.

Lemma vote_queue_bounded_witness :
  Z.of_nat (length (vp_votes (processor_vote bob_vote 0 (vote_processor_new default_capacity)).2)) <= default_capacity.
Proof. apply vote_queue_bounded. apply rtc_once. apply processor_takes. Defined.
