(* ===== verification/WalletWitnesses.v ===== *)
(** * Wallets on concrete inputs: a toy instance of their primitives

    Next to the toy digest and signatures of [Samples]: a cipher that shifts by a
    multiple of the key, a public key that is the private key, hexadecimal numbers,
    and trees written bit by bit.  The laws hold, so the theorems on wallets apply. *)

From S2P Require Import Prelude Blocks Numbers BlockCodec Common RepWeights EpochsWork Store Ledger.
From S2P Require Import LedgerApply LedgerInvariant LedgerSteps LedgerTheorems Rollback.
From S2P Require Import LedgerQueries UncheckedMap BlockProcessor WalletStore WalletVault.
From S2P Require Import WalletRefinement WalletTheorems WalletTransfer WalletActions WalletLedger.
From S2P Require Import WalletSeeds Samples.

(** ** Ciphers and keys *)

(** What a key adds to a text. *)
Definition toy_shift (k : bytes) : Z := of_be k * 2 ^ 100 + 2 ^ 200.
Definition toy_add (s : Z) (m : bytes) : bytes :=
  to_be (length m) ((of_be m + s) mod 2 ^ (Z.of_nat (length m) * 8)).

#[export] Instance toy_wallet_crypto : WalletCrypto := {|
  aes_ctr_encrypt := λ k _ m, toy_add (toy_shift k) m;
  aes_ctr_decrypt := λ k _ m, toy_add (- toy_shift k) m;
  argon2_hash := λ _ p s, to_be 32 (1000 + of_be p + of_be s);
  ed25519_publickey := λ sk, sk;
  ed25519_sign := λ m sk pk, to_be 64 (of_be (pk ++ m));
|}.

Lemma toy_add_length s m : length (toy_add s m) = length m.
Proof. apply length_to_be. Qed.

Lemma toy_add_inverse s m : toy_add (- s) (toy_add s m) = m.
Proof.
  unfold toy_add at 1. rewrite toy_add_length. unfold toy_add. rewrite of_to_be.
  set (n := length m). set (M := 2 ^ (Z.of_nat n * 8)).
  assert (HM : 0 < M) by (apply Z.pow_pos_nonneg; lia).
  rewrite Z.mod_mod, Z.add_mod_idemp_l by lia. replace (of_be m + s + - s) with (of_be m) by lia.
  rewrite Z.mod_small; [apply to_of_be |].
  pose proof (of_be_range m) as Hr. rewrite Z.mul_comm in Hr. exact Hr.
Qed.

#[local] Transparent of_be.
Lemma of_be_app a b : of_be (a ++ b) = of_be a * 2 ^ (8 * Z.of_nat (length b)) + of_be b.
Proof.
  unfold of_be. rewrite rev_app_distr, LittleEndianList.le_combine_app, length_rev.
  pose proof (LittleEndianList.le_combine_bound (rev b)) as Hb. rewrite length_rev in Hb.
  set (y := LittleEndianList.le_combine (rev b)) in *. set (n := Z.of_nat (length b) * 8).
  assert (Hn : 0 <= n) by (unfold n; lia).
  assert (Hd : Z.land y (Z.shiftl (LittleEndianList.le_combine (rev a)) n) = 0).
  { apply Z.bits_inj'. intros i Hi. rewrite Z.land_spec, Z.bits_0.
    destruct (decide (i < n)) as [Hlt | Hge]; [by rewrite Z.shiftl_spec_low, andb_false_r |].
    destruct (decide (y = 0)) as [-> | Hy]; [by rewrite Z.bits_0 |].
    rewrite Z.bits_above_log2; [done | lia |]. apply Z.log2_lt_pow2; [lia |].
    apply Z.lt_le_trans with (2 ^ n); [replace n with (8 * Z.of_nat (length b)) by (unfold n; lia); apply Hb | apply Z.pow_le_mono_r; lia]. }
  pose proof (Z.add_lor_land y (Z.shiftl (LittleEndianList.le_combine (rev a)) n)) as Hl.
  rewrite Hd, Z.add_0_r in Hl. rewrite Hl, Z.shiftl_mul_pow2 by lia. unfold n. rewrite (Z.mul_comm 8). lia.
Qed.
#[local] Opaque of_be.

#[export] Instance toy_wallet_laws : WalletCryptoLaws toy_crypto toy_wallet_crypto.
Proof.
  split; simpl; try done.
  - intros. apply toy_add_length.
  - intros. apply toy_add_inverse.
  - intros m sk Hm Hsk. rewrite of_to_be. apply Z.eqb_eq, Z.mod_small.
    pose proof (of_be_range (sk ++ m)) as Hr. rewrite length_app, Hm, Hsk in Hr. exact Hr.
Qed.

(** ** Text *)

Definition hex_value (c : Init.Byte.byte) : Z :=
  let n := byte.unsigned c in if n <? 58 then n - 48 else n - 55.

(** Bits as text, and back. *)
Fixpoint bits_text (p : positive) : text :=
  match p with
  | xH => []
  | xO p => Init.Byte.x00 :: bits_text p
  | xI p => Init.Byte.x01 :: bits_text p
  end.
Fixpoint text_bits (s : text) : positive :=
  match s with
  | [] => xH
  | c :: s => if decide (c = Init.Byte.x00) then xO (text_bits s) else xI (text_bits s)
  end.

#[export] Instance toy_text : WalletText := {|
  extract_hex := λ s, Some (foldl (λ n c, n * 16 + hex_value c) 0 s, true);
  write_json := λ t, bits_text (encode t);
  read_json := λ s, decode (text_bits s);
|}.

Lemma hex_value_digit d : 0 <= d < 16 → hex_value (hex_digit d) = d.
Proof.
  intros Hd. apply Z.eqb_eq. apply (forall_below (λ d, hex_value (hex_digit d) =? d) 16); [by vm_compute | done].
Qed.

Lemma text_bits_text p : text_bits (bits_text p) = p.
Proof. induction p; simpl; congruence. Qed.

(** The number read from the digits below the [n]th. *)
Lemma digits_value key n :
  0 <= key →
  foldl (λ a c, a * 16 + hex_value c) 0
    (map (λ i, hex_digit (Z.land (Z.shiftr key (4 * i)) 15)) (rev (seqZ 0 (Z.of_nat n)))) = key mod 16 ^ Z.of_nat n.
Proof.
  intros Hk.
  assert (Hg : ∀ acc, foldl (λ a c, a * 16 + hex_value c) acc
    (map (λ i, hex_digit (Z.land (Z.shiftr key (4 * i)) 15)) (rev (seqZ 0 (Z.of_nat n)))) =
    acc * 16 ^ Z.of_nat n + key mod 16 ^ Z.of_nat n); [| by rewrite Hg].
  induction n as [| n IH]; intros acc.
  - simpl. rewrite Z.mod_1_r. lia.
  - replace (Z.of_nat (S n)) with (Z.of_nat n + 1) by lia. rewrite seqZ_app by lia.
    rewrite rev_app_distr. change (rev (seqZ (0 + Z.of_nat n) 1)) with [0 + Z.of_nat n]. cbn [app map foldl].
    rewrite IH. change 15 with (Z.ones 4). rewrite Z.land_ones by lia.
    rewrite hex_value_digit by (apply Z.mod_pos_bound; lia).
    rewrite Z.shiftr_div_pow2 by lia. rewrite Z.pow_mul_r by lia. change (2 ^ 4) with 16.
    rewrite Z.add_0_l. rewrite (Z.pow_add_r 16) by lia. change (16 ^ 1) with 16.
    rewrite (Z.rem_mul_r key) by lia. lia.
Qed.

#[export] Instance toy_text_laws : WalletTextLaws toy_text.
Proof.
  split.
  - intros key [H0 H1]. transitivity (Some (key mod 16 ^ Z.of_nat 64, true)).
    + exact (f_equal (λ n, Some (n, true)) (digits_value key 64 H0)).
    + do 2 f_equal. by apply Z.mod_small.
  - intros t _ _. simpl. rewrite text_bits_text. apply decode_encode.
Qed.

(** ** Seeds *)

(** The accounts of a small seed follow each other. *)
Lemma toy_derived seed i : 0 <= seed < 2 ^ 200 → 0 <= i < u32_mod → derived_account seed i = 1 + seed * u32_mod + i.
Proof.
  intros Hs Hi. unfold derived_account, pub_key, deterministic_key. cbn [blake2b toy_crypto ed25519_publickey toy_wallet_crypto].
  unfold toy_digest. rewrite bool_decide_false by done.
  rewrite of_be_app, length_to_be, !of_to_be. change (2 ^ (8 * Z.of_nat 4)) with u32_mod.
  change (2 ^ (Z.of_nat 4 * 8)) with u32_mod. rewrite (Z.mod_small i) by done.
  unfold u32_mod in *. rewrite (Z.mod_small seed) by lia.
  rewrite (Z.mod_small (seed * _ + i)) by lia. rewrite Z.mod_mod by lia. rewrite Z.mod_small by lia. lia.
Qed.

(** * Wallets under these primitives

    The theorems on wallets applied to small wallets and ledgers under the toy
    primitives, and runs that show what the code does where it is surprising. *)

(** ** A wallet *)

Definition sample_randoms : randoms := Randoms [11; 22] [33] 12345 999 100.
Definition sample_password : text := [Init.Byte.x41].

Definition sample_ops : list store_op :=
  [op_rekey sample_password; op_insert_adhoc bob; op_insert_watch 60; op_deterministic_insert; op_lock;
   op_insert_adhoc 70; op_enter_password sample_password; op_deterministic_insert; op_erase 60].

Lemma sample_randoms_ok : randoms_ok sample_randoms.
Proof. concrete. Qed.

Lemma toy_indices i j :
  0 <= i < u32_mod → 0 <= j < u32_mod → derived_account 100 i = derived_account 100 j → i = j.
Proof. intros Hi Hj. rewrite !toy_derived by (done || lia). lia. Qed.

Lemma toy_accounts i : 0 <= i < u32_mod → special_count <= derived_account 100 i.
Proof. intros Hi. rewrite toy_derived by (done || lia). unfold special_count, u32_mod in *. lia. Qed.

Lemma sample_fit : fit_all 8 12345 999 sample_ops (vault_new sample_randoms 77).
Proof.
  cbn [fit_all sample_ops fits].
  repeat match goal with |- _ ∧ _ => split end; try done; try apply toy_accounts; try apply toy_indices.
  - right. vm_compute. congruence.
  - by left.
Qed.

(** A new wallet is rekeyed, gets Bob's key, a watched account and accounts of its
    seed, is locked, refuses a key, and is opened again. *)
Lemma key_store_refines_vault_witness :
  ∃ s, run_ops 8 sample_ops (wallet_store_open sample_randoms 77 ∅) = Done s ∧
    answers s (vault_ops 8 12345 sample_ops (vault_new sample_randoms 77)).
Proof.
  apply (key_store_refines_vault 8 sample_randoms 77 sample_ops);
    [apply sample_randoms_ok | done | apply sample_fit].
Defined.

Definition store_of (r : run_result wallet_store) : wallet_store :=
  match r with Done s => s | _ => WalletStore ∅ [] [] false end.
Definition sample_store : wallet_store :=
  store_of (run_ops 8 sample_ops (wallet_store_open sample_randoms 77 ∅)).
Definition sample_vault : vault := vault_ops 8 12345 sample_ops (vault_new sample_randoms 77).

Lemma sample_run :
  run_ops 8 sample_ops (wallet_store_open sample_randoms 77 ∅) = Done sample_store ∧
  represents 12345 999 sample_store sample_vault.
Proof.
  destruct (run_ops_simulates 8 12345 999 sample_ops (wallet_store_open sample_randoms 77 ∅)
    (vault_new sample_randoms 77)) as (s & Hs & HR);
    [apply (open_new_represents sample_randoms 77 sample_randoms_ok); done | apply sample_fit |].
  unfold sample_store. rewrite Hs. exact (conj eq_refl HR).
Qed.

Example sample_keys :
  (ws_fetch sample_store bob 0, (ws_fetch sample_store 60 0).1, (ws_fetch sample_store 70 0).1,
   ws_fetch sample_store (derived_account 100 1) 0) =
  ((false, bob), true, true, (false, deterministic_key 100 1)).
Proof. vm_compute. reflexivity. Qed.

Lemma sample_told_apart : told_apart 12345 999 sample_vault 0.
Proof. right. vm_compute. congruence. Qed.

Lemma sample_password_set : phs 8 sample_password 12345 = va_password sample_vault.
Proof. vm_compute. reflexivity. Qed.

Lemma sample_representative : is_u256 77.
Proof. done. Qed.

Lemma wallet_survives_restart_witness :
  let reopened := wallet_store_open (Randoms [] [] 1 2 3) 0 (ws_entries sample_store) in
  let restored := (wallet_store_json (Randoms [] [] 1 2 3) (ws_serialize_json sample_store)).2 in
  (wallet_store_json (Randoms [] [] 1 2 3) (ws_serialize_json sample_store)).1 = false ∧
  Forall (λ s', (ws_attempt_password 8 sample_password s').1 = false ∧
    answers (ws_attempt_password 8 sample_password s').2 (va_set_unlocked true sample_vault)) [reopened; restored].
Proof.
  apply (wallet_survives_restart 8 sample_randoms 77 sample_ops sample_store (Randoms [] [] 1 2 3) 0 sample_password
    sample_randoms_ok sample_representative sample_fit (proj1 sample_run) sample_told_apart sample_password_set).
Defined.

(** ** Import *)

Definition other_ops : list store_op := [op_insert_adhoc bob; op_insert_watch 60; op_insert_adhoc 80].
Definition other_store : wallet_store :=
  store_of (run_ops 8 other_ops (wallet_store_open sample_randoms 77 ∅)).
Definition other_vault : vault := vault_ops 8 12345 other_ops (vault_new sample_randoms 77).

Lemma other_represents : represents 12345 999 other_store other_vault.
Proof.
  destruct (run_ops_simulates 8 12345 999 other_ops (wallet_store_open sample_randoms 77 ∅)
    (vault_new sample_randoms 77)) as (s & Hs & HR);
    [apply (open_new_represents sample_randoms 77 sample_randoms_ok); done | cbn; repeat split; done |].
  unfold other_store. rewrite Hs. exact HR.
Qed.

Definition target_randoms : randoms := Randoms [] [] 5 500 300.
Definition target_store : wallet_store := wallet_store_open target_randoms 77 ∅.
Definition target_vault : vault := vault_new target_randoms 77.

Lemma target_represents : represents 5 500 target_store target_vault.
Proof. apply (open_new_represents target_randoms 77); concrete. Qed.

Lemma other_movable a : is_Some (va_accounts other_vault !! a) → movable 500 other_vault a.
Proof.
  assert (Ha : va_accounts other_vault =
    <[80 := adhoc_key 80]> (<[60 := watch_only]> {[bob := adhoc_key bob]})) by (vm_compute; reflexivity).
  assert (Hu : va_unlocked other_vault = true) by (vm_compute; reflexivity).
  intros [k Hk] prv. unfold vault_fetch. rewrite Hu, Hk. rewrite Ha in Hk.
  apply lookup_insert_Some in Hk as [[<- <-] | [_ Hk]]; [intros [= <-]; split; [by vm_compute | done] |].
  apply lookup_insert_Some in Hk as [[<- <-] | [_ Hk]]; [done |].
  apply lookup_singleton_Some in Hk as [<- <-]. intros [= <-]. split; [by vm_compute | done].
Qed.

(** Bob's account is taken, the watched account and the one behind it are not. *)
Lemma import_takes_readable_prefix_witness :
  readable other_vault (ws_accounts other_store) = [bob] ∧
  ∃ s' other',
    ws_import target_store other_store =
      (negb (bool_decide (readable other_vault (ws_accounts other_store) = ws_accounts other_store)), s', other') ∧
    answers s' (take_keys other_vault (readable other_vault (ws_accounts other_store)) target_vault) ∧
    answers other' (lose_keys (readable other_vault (ws_accounts other_store)) other_vault).
Proof.
  split; [vm_compute; reflexivity |].
  apply (import_takes_readable_prefix 5 500 12345 999 target_store other_store target_vault other_vault
    target_represents eq_refl other_represents eq_refl other_movable).
Defined.

(** ** Actions *)

Definition sample_env : wallet_env :=
  WalletEnv 8 1 0 true true (λ _ _ _, Some 0) (λ _, 1) 0 (λ _, false) 3.
Definition sample_flags : processor_flags := ProcessorFlags 10 10 10 10 false.

(** A node with the ledger [L] and the wallet above. *)
Definition sample_wallets (L : ledger) (s : wallet_store) : wallets :=
  Wallets (pipeline_new L ∅ false) {[0%nat := Wallet s ∅ ∅]} {[1 := 0%nat]} [] ∅ [] ∅
    (WalletRepresentatives 0 false ∅) [].

Definition sample_clocks : clocks := Clocks 10 10 10.

Lemma sample_work : work_available sample_constants sample_env.
Proof.
  intros r a d. exists 0. split; [done |]. unfold threshold, threshold_details. simpl.
  unfold difficulty, work_value. cbn [blake2b toy_crypto]. unfold toy_digest. rewrite bool_decide_true by done.
  repeat case_match; vm_compute; congruence.
Qed.

Lemma bob_key : vault_fetch sample_vault bob = Some bob.
Proof. vm_compute. reflexivity. Qed.

Definition bob_info : account_info := account_info_or_default sample4 bob.

(** Bob sends 12 to Alice with an id; before his block is processed, one of Alice's
    is. *)
Definition alice_change : block :=
  signed_by alice (state_block (StateHashables alice (block_hash send2) alice 70 0) 0 0).
Definition meanwhile (p : pipeline) : pipeline := pl_set_ledger (run (pl_ledger p) alice_change) p.

Lemma send_action_accepted_witness :
  let W := sample_wallets sample4 sample_store in
  let L := run sample4 alice_change in
  let hash := block_hash (state_block (StateHashables bob (ai_head bob_info) (ai_representative bob_info)
                (ai_balance bob_info - 12) alice) 0 0) in
  account_get (lg_store L) alice ≠ account_get (lg_store (wn_ledger W)) alice ∧
  ∃ b W', send_action sample_constants sample_flags sample_env meanwhile 10 sample_clocks 0 bob alice 12 0 true
      (Some sample_password) W = Ok (Some b, W') ∧ block_hash b = hash ∧
    performed sample_constants sample_clocks L (wn_ledger W') b bob (ai_balance bob_info - 12)
      (ai_representative bob_info) (BlockDetails (ai_epoch bob_info) true false false)
      (<[(alice, hash) := PendingInfo bob 12 (ai_epoch bob_info)]> (st_pending (lg_store L))) ∧
    (∀ i, Some sample_password = Some i → wn_send_action_ids W' !! i = Some hash).
Proof.
  split; [vm_compute; congruence |].
  apply (send_action_accepted sample_constants sample_flags sample_env meanwhile sample_work 12345 999
    10 sample_clocks 0 bob alice 12 0 true (Some sample_password) (sample_wallets sample4 sample_store)
    sample_vault bob bob_info).
  - vm_compute. reflexivity.
  - unfold later, meanwhile. cbn [pl_ledger pl_set_ledger]. apply run_reachable; [apply sample4_reachable | concrete | concrete].
  - apply sample_run.
  - done.
  - apply bob_key.
  - vm_compute. reflexivity.
  - vm_compute. split; congruence.
  - vm_compute. reflexivity.
  - vm_compute. congruence.
  - vm_compute. reflexivity.
Defined.

(** Bob's account is opened by a receive. *)
Definition bob_pending : pending_info := PendingInfo alice 30 epoch_0.

Lemma receive_action_accepted_witness :
  let W := sample_wallets sample3 sample_store in
  let L := wn_ledger W in
  let hash := block_hash (state_block (receive_hashables_of L bob (block_hash send2) 77 30) 0 0) in
  ∃ b W', receive_action sample_constants sample_flags sample_env id 10 sample_clocks 0 (block_hash send2) 77 30 bob 0
      true W = Ok (Some b, W') ∧ block_hash b = hash ∧
    performed sample_constants sample_clocks L (wn_ledger W') b bob
      (from_option ai_balance 0 (account_get (lg_store L) bob) + 30)
      (from_option ai_representative 77 (account_get (lg_store L) bob))
      (BlockDetails (Z.max (from_option ai_epoch epoch_0 (account_get (lg_store L) bob)) epoch_0) false true false)
      (delete (bob, block_hash send2) (st_pending (lg_store L))).
Proof.
  apply (receive_action_accepted sample_constants sample_flags sample_env id sample_work 12345 999
    10 sample_clocks 0 (block_hash send2) 77 30 bob 0 true (sample_wallets sample3 sample_store)
    sample_vault bob bob_pending).
  - apply sample3_reachable.
  - reflexivity.
  - vm_compute. reflexivity.
  - apply sample3_reachable.
  - apply sample_run.
  - done.
  - apply bob_key.
  - vm_compute. reflexivity.
  - done.
  - done.
  - vm_compute. reflexivity.
  - vm_compute. congruence.
  - vm_compute. reflexivity.
Defined.

Lemma change_action_accepted_witness :
  let W := sample_wallets sample4 sample_store in
  let hash := block_hash (state_block (StateHashables bob (ai_head bob_info) 77 (ai_balance bob_info) 0) 0 0) in
  ∃ b W', change_action sample_constants sample_flags sample_env id 10 sample_clocks 0 bob 77 0 true W =
      Ok (Some b, W') ∧ block_hash b = hash ∧
    performed sample_constants sample_clocks (wn_ledger W) (wn_ledger W') b bob (ai_balance bob_info) 77
      (BlockDetails (ai_epoch bob_info) false false false) (st_pending (lg_store (wn_ledger W))).
Proof.
  apply (change_action_accepted sample_constants sample_flags sample_env id sample_work 12345 999
    10 sample_clocks 0 bob 77 0 true (sample_wallets sample4 sample_store) sample_vault bob bob_info).
  - vm_compute. reflexivity.
  - apply sample4_reachable.
  - apply sample_run.
  - done.
  - apply bob_key.
  - vm_compute. reflexivity.
  - vm_compute. reflexivity.
  - vm_compute. congruence.
  - vm_compute. reflexivity.
Defined.

(** ** Ids *)

Definition answered (o : outcome (option block * wallets)) : option block * wallets :=
  match o with Ok x => x | Aborted => (None, sample_wallets sample0 sample_store) end.

(** The node after the send above. *)
Definition bob_send (W : wallets) (amount_a : Z) : outcome (option block * wallets) :=
  send_action sample_constants sample_flags sample_env id 10 sample_clocks 0 bob alice amount_a 0 true
    (Some sample_password) W.
Definition after_send : wallets := (answered (bob_send (sample_wallets sample4 sample_store) 12)).2.
Definition bob_sent : block :=
  default send1 (answered (bob_send (sample_wallets sample4 sample_store) 12)).1.

(** Sent again with another amount: the first block is the answer. *)
Lemma send_id_sends_once_witness :
  bob_send after_send 5 = Ok (Some bob_sent, wn_emit [wev_flood_block bob_sent] after_send).
Proof.
  apply (send_id_sends_once sample_constants sample_flags sample_env id 10 sample_clocks 0 bob alice 12 0 true
    sample_password (sample_wallets sample4 sample_store) bob_sent after_send after_send).
  - apply sample4_reachable.
  - vm_compute. reflexivity.
  - reflexivity.
  - eexists. vm_compute. reflexivity.
Defined.

(** ** Seeds *)

(** Alice sends 30 to the fourth account of the seed 200. *)
Definition send_to_seed : block :=
  signed_by alice (state_block (StateHashables alice (block_hash open1) bob 70 (derived_account 200 3)) 0 0).
Definition seed_ledger : ledger := run sample2 send_to_seed.

Lemma seed_used j : 0 <= j < u32_mod → used seed_ledger 200 j → j = 3.
Proof.
  intros Hj. unfold used, account_used. rewrite toy_derived by (done || lia). set (a := 1 + 200 * u32_mod + j).
  assert (Ha : latest seed_ledger a = 0).
  { unfold latest, account_get. destruct (st_accounts (lg_store seed_ledger) !! a) as [i |] eqn:Hi; [| done].
    apply elem_of_map_to_list, (list_elem_of_fmap_2 fst) in Hi.
    assert (Hl : (map_to_list (st_accounts (lg_store seed_ledger))).*1 = [alice; genesis_key]) by (vm_compute; reflexivity).
    rewrite Hl, elem_of_cons, list_elem_of_singleton in Hi. simpl in Hi.
    unfold alice, genesis_key, u32_mod in *. destruct Hi; lia. }
  rewrite Ha. cbn [Z.eqb negb orb].
  assert (Hp : map_to_list (st_pending (lg_store seed_ledger)) =
    [((1 + 200 * u32_mod + 3, block_hash send_to_seed), PendingInfo alice 30 epoch_0)]) by (vm_compute; reflexivity).
  assert (Hin : ∀ k p, st_pending (lg_store seed_ledger) !! k = Some p →
    k = (1 + 200 * u32_mod + 3, block_hash send_to_seed)).
  { intros k p Hk%elem_of_map_to_list. rewrite Hp, list_elem_of_singleton in Hk. exact (f_equal fst Hk). }
  rewrite pending_any_spec.
  - intros [h [p Hk]]. apply Hin, (f_equal fst) in Hk. cbn [fst] in Hk. unfold a in Hk. lia.
  - intros k [p Hk]. apply Hin in Hk as ->. vm_compute. congruence.
Qed.

Lemma seed_200_ok : seed_ok 200.
Proof.
  split.
  - intros i Hi. rewrite toy_derived by (done || lia). unfold special_count, u32_mod in *. lia.
  - intros i j Hi Hj. rewrite !toy_derived by (done || lia). lia.
Qed.

Lemma seed_no_gap : no_wide_gap seed_ledger 200.
Proof.
  intros j Hj Hu. apply seed_used in Hu as ->; [| lia]. exists 0. split_and!; [lia | lia | by left |]. done.
Qed.

Lemma change_seed_finds_accounts_witness :
  let W := sample_wallets seed_ledger sample_store in
  ∃ account W', change_seed sample_env 100 0 200 0 W = Done (account, W') ∧
    ∀ j, 0 <= j < u32_mod → j = 0 ∨ used (wn_ledger W) 200 j →
      let a := derived_account 200 j in
      ws_exists (store_at W' 0) a = true ∧
      (va_accounts sample_vault !! a ≠ Some watch_only →
       ∃ prv, ws_fetch (store_at W' 0) a (we_uninitialised sample_env) = (false, prv) ∧ pub_key prv = a).
Proof.
  apply (change_seed_finds_accounts sample_env 12345 999 100 (sample_wallets seed_ledger sample_store) 0 sample_vault
    200 4).
  - split; [by eexists | apply sample_run].
  - vm_compute. reflexivity.
  - done.
  - apply seed_200_ok.
  - intros j Hj Hu. rewrite (seed_used j Hj Hu). lia.
  - lia.
  - apply seed_no_gap.
  - done.
  - vm_compute. reflexivity.
Defined.
