(* ===== verification/BootstrapWitnesses.v ===== *)
(** * Bootstrap at concrete ledgers

    A node that has the first blocks of the sample history bootstraps from one that
    has more of it. *)

From S2P Require Import Prelude Blocks Numbers BlockCodec Common RepWeights EpochsWork Store Ledger Rollback.
From S2P Require Import LedgerTheorems RollbackTheorems Samples LedgerWitnesses.
From S2P Require Import UncheckedMap BlockProcessor Bootstrap BootstrapPull BootstrapFrontiers BootstrapPush BootstrapTheorems.

Definition sample_pull_env : pull_env := PullEnv publish_dev false 16 false false.

(** The peer has the history up to Bob's first block, the node up to Alice's. *)
Lemma sample2_chain : chain_reachable sample_constants sample2.
Proof.
  unfold sample2, sample1.
  repeat (apply run_chain; [| vm_compute; reflexivity | concrete | concrete]).
  apply sample0_chain.
Qed.

Lemma sample_genesis_served : genesis_served sample_constants.
Proof. concrete. Qed.

(** A property of all rows of a table, by evaluation. *)
Lemma table_forall {A} (f : Z → A → bool) (m : gmap Z A) :
  forallb (λ x, f x.1 x.2) (map_to_list m) = true → ∀ k x, m !! k = Some x → f k x = true.
Proof.
  intros Hf k x Hx. rewrite forallb_forall in Hf. apply (Hf (k, x)), list_elem_of_In. by apply elem_of_map_to_list.
Qed.

Definition row_agrees (own : ledger) (k : Z) (x : block_w_sideband) : bool :=
  match st_blocks (lg_store own) !! k with
  | Some y => (previous x.1 =? previous y.1) && (account_calculated x =? account_calculated y)
  | None => true
  end.
Definition no_hash {A} (L : ledger) (a : Z) (_ : A) : bool :=
  match st_blocks (lg_store L) !! a with Some _ => false | None => true end.

Lemma sample_rows :
  forallb (λ x, row_agrees sample2 x.1 x.2) (map_to_list (st_blocks (lg_store sample4))) = true ∧
  forallb (λ x, no_hash sample4 x.1 x.2) (map_to_list (st_accounts (lg_store sample4))) = true.
Proof. vm_compute. split; reflexivity. Qed.

Lemma sample_agree : agree sample4 sample2.
Proof.
  intros k x y Hx Hy. pose proof (table_forall _ _ (proj1 sample_rows) k x Hx) as Hf.
  unfold row_agrees in Hf. rewrite Hy in Hf. apply andb_true_iff in Hf as [?%Z.eqb_eq ?%Z.eqb_eq]. split; assumption.
Qed.

Lemma sample_accounts_no_hashes a i :
  st_accounts (lg_store sample4) !! a = Some i → st_blocks (lg_store sample4) !! a = None.
Proof.
  intros Ha. pose proof (table_forall _ _ (proj2 sample_rows) a i Ha) as Hf. unfold no_hash in Hf.
  destruct (st_blocks (lg_store sample4) !! a); [discriminate Hf | reflexivity].
Qed.

(** The pull for Alice, whose first block is known, brings her second one. *)
Example sample_pull :
  match bulk_pull_exchange 10 sample_pull_env sample4 sample2
          (frontier_pull 16 1 alice (block_hash send2) (block_hash open1)) with
  | Done c => bc_added c = [(send2, alice)] ∧ bc_pooled c = true ∧ bulk_pull_client_end c = None
  | _ => False
  end.
Proof. vm_compute. repeat split; reflexivity. Qed.

Lemma pull_transfers_chain_witness :
  ∃ i l c, st_accounts (lg_store sample4) !! alice = Some i ∧ chain_down (lg_store sample4) alice (ai_head i) l ∧
    bulk_pull_exchange 10 sample_pull_env sample4 sample2 (frontier_pull 16 1 alice (ai_head i) (block_hash open1)) =
      Done c ∧
    (bc_added c).*1 = pulled sample2 0 (pull_answer (lg_store sample4) alice (block_hash open1) l).
Proof.
  destruct (st_accounts (lg_store sample4) !! alice) as [i |] eqn:Hi; [| vm_compute in Hi; discriminate].
  destruct (pull_transfers_chain sample_constants sample4 sample2 10 sample_pull_env alice i (block_hash open1) 16 1)
    as (l & c & Hl & _ & _ & Hc & Hadd & _).
  - exact sample_genesis_served.
  - exact sample4_chain.
  - reflexivity.
  - reflexivity.
  - exact Hi.
  - exact (sample_accounts_no_hashes alice i Hi).
  - apply Nat.ltb_lt. vm_compute. reflexivity.
  - reflexivity.
  - exists i, l, c. split_and!; [reflexivity | exact Hl | exact Hc | exact Hadd].
Defined.

(** The blocks of Alice and Bob that are missing are delivered. *)
Lemma bootstrap_delivers_missing_witness :
  ∃ s attempt, frontier_response 10 10 sample4 (frontier_run_request 0 u32_max 100) = Done s ∧
    request_frontier 16 1 10 10 sample2 (λ _, false) u32_max 100 s (LegacyAttempt [] [] 0) = Done (false, attempt) ∧
    ∀ k x, st_blocks (lg_store sample4) !! k = Some x → block_or_pruned_exists sample2 k = true ∨
      ∃ p c, p ∈ la_frontier_pulls attempt ∧ bulk_pull_exchange 10 sample_pull_env sample4 sample2 p = Done c ∧
        x.1 ∈ (bc_added c).*1.
Proof.
  destruct (bootstrap_delivers_missing sample_constants sample4 sample2 10 10 sample_pull_env 100 16 1)
    as (s & attempt & Hs & Hr & _ & _ & Hd).
  - exact sample_genesis_served.
  - exact sample4_chain.
  - exact sample2_chain.
  - exact sample_agree.
  - unfold no_last_account. vm_compute. reflexivity.
  - unfold no_last_account. vm_compute. reflexivity.
  - exact sample_accounts_no_hashes.
  - reflexivity.
  - reflexivity.
  - apply Z.ltb_lt. vm_compute. reflexivity.
  - reflexivity.
  - apply Nat.ltb_lt. vm_compute. reflexivity.
  - apply Nat.ltb_lt. vm_compute. reflexivity.
  - apply Nat.ltb_lt. vm_compute. reflexivity.
  - reflexivity.
  - exists s, attempt. split_and!; [exact Hs | exact Hr | exact Hd].
Defined.

(** The other way round, the node that has more pushes the blocks of Alice and Bob. *)
Lemma bootstrap_pushes_missing_witness :
  ∃ s attempt pushed, frontier_response 10 10 sample2 (frontier_run_request 0 u32_max 100) = Done s ∧
    request_frontier 16 1 10 10 sample4 (λ _, false) u32_max 100 s (LegacyAttempt [] [] 0) = Done (false, attempt) ∧
    (∀ n, (length pushed < n)%nat → bulk_push_start n sample4 attempt = Done (wire pushed)) ∧
    (∀ b, b ∈ pushed → is_Some (st_blocks (lg_store sample4) !! block_hash b) ∧
      block_or_pruned_exists sample2 (block_hash b) = false).
Proof.
  destruct (bootstrap_pushes_missing sample_constants sample2 sample4 10 10 (Clocks 10 10 10) 100 16 1)
    as (s & attempt & pushed & Hs & Hr & Hp & _ & Hb & _).
  - exact sample_genesis_served.
  - exact sample2_chain.
  - exact sample4_chain.
  - exact sample_agree.
  - unfold no_last_account. vm_compute. reflexivity.
  - unfold no_last_account. vm_compute. reflexivity.
  - apply Z.ltb_lt. vm_compute. reflexivity.
  - reflexivity.
  - apply Nat.ltb_lt. vm_compute. reflexivity.
  - apply Nat.ltb_lt. vm_compute. reflexivity.
  - apply Z.leb_le. vm_compute. reflexivity.
  - exists s, attempt, pushed. split_and!; [exact Hs | exact Hr | exact Hp | exact Hb].
Defined.
